(* ===== verification/_CoqProject ===== *)
-Q . S2P
Prelude.v
GoStrings.v
BrokerIdentity.v
Contract.v
ContractProps.v
BrokerTypes.v
BrokerCore.v
Enrollment.v
Grants.v
BrokerRuntime.v
BrokerSpec.v
BrokerInv.v
BrokerSim.v
BrokerRefine.v
BrokerSystem.v
BrokerExample.v
BrokerProps.v
BrokerOps.v
BrokerSecrets.v
BrokerWitness.v
ContractWitness.v
Journal.v
JournalProps.v
JournalLog.v
JournalLife.v
JournalAnchor.v
JournalBroker.v
JournalWitness.v
Materialize.v
MaterializeProps.v
MaterializeWitness.v
LocalStore.v
LocalProps.v
LocalWitness.v
Safenet.v
SafenetProps.v
SafenetWitness.v
Calendar.v
Cron.v
CronProps.v
RoutineTypes.v
Timing.v
TimingProps.v
Schedules.v
SchedulesProps.v
SchedulesWitness.v
SpoolTypes.v
SpoolQueue.v
SpoolWork.v
SpoolStream.v
SpoolFrame.v
SpoolSpec.v
SpoolRefine.v
SpoolOps.v
SpoolProps.v
SpoolClaim.v
SpoolRestart.v
SpoolWitness.v
Tasks.v
TasksProps.v
TasksSystem.v
TasksCreate.v
TasksWitness.v
Governance.v
GovernanceProps.v
GovernanceWitness.v
ToolTypes.v
Capability.v
CapabilityProps.v
RegStore.v
RegOps.v
RegLoad.v
RegAccess.v
RegInv.v
RegKeeps.v
RegSystem.v
RegProps.v
RegManaged.v
RegLease.v
RegWitness.v
