(* ===== verification/Prelude.v ===== *)
(** * Verification of the credential broker, the routine engine, the job queue, the tool
      governance and the tool registry of hermes-hub

    ** The program

    hermes-hub runs personal agents.  Messages and routines become jobs, jobs run with
    tools, and tools need credentials.  Five of its parts decide what is run, when, and with
    whose rights, and they are what this library models.

    The _credential broker_ (src/services/credential-broker) keeps the credentials.  A
    user enrols one through a request, a browser session and an approval, or through an
    OAuth code flow; the broker stores the values with a provider and keeps a reference.
    Grants say which workload may use a credential, leases make that concrete for a few
    minutes, and uses and materializations deliver the values.  Every change is one
    record of an append-only, encrypted, hash-chained journal, which is replicated and
    anchored; the tables in memory are what replaying the journal gives.

    The _routine engine_ (src/internal/routines) turns schedules into occurrences: cron
    expressions, intervals with windows, and the tick that fires every due slot once.

    The _job queue_ (src/internal/communication, the spool) is a tree of directories in
    which the renames of a job file are its state machine.  A job is admitted once per
    idempotency key and priced in a budget ledger, claimed in a fair order with one job per
    conversation, observed through a stream of events with write-ahead receipts, and
    recovered when the process starts again.  Its engine of routines shares its directory.

    The _tool governance_ of the tool hub (src/internal/toolhub/api) decides which tool
    sections a principal can reach: denials, grants that the principal acknowledges in
    conversation, rules of four scopes, and the defaults of a shipped catalog.

    The _tool registry_ (src/internal/toolhub) holds tool definitions, connections to
    outside services with their credential references, the bindings of runtimes to them, the
    workloads that run them, teams, grants, and the capability policies and profiles of
    managed callers.  It decides whether a call is admitted, with which connection and
    credential and within which paths and limits.  It is one file that several processes
    rewrite behind a digest fence, and beside it lies the ledger of refresh leases.

    ** Files

    Shared:
    - [Prelude]: the state-and-error monad of the Go methods, loops, weakest
      preconditions and their tactics, machine integers.
    - [GoStrings]: bytes, [strings], [strconv], [unicode/utf8] and [path.Clean].

    The broker:
    - [BrokerIdentity]: identity/identity.go.  Actors and signed assertions; ed25519,
      base64 and JSON are the class [AssertionCodec].
    - [Contract], [ContractProps]: contract/contract.go and internal/strictjson.
    - [BrokerTypes]: api/v1/types.go, broker/types.go, provider/provider.go; the classes
      [World] (clock, randomness, map iteration order), [Digests], [JournalOps],
      [Materializer] and [Providers] are what the broker relies on.
    - [BrokerCore]: broker/broker.go and broker/types.go.  [Broker] is the Go struct,
      [apply] and [commit] the only way its durable tables change, [New] the replay.
    - [Enrollment] (enrollment.go, extra.go, contracts.go), [Grants] (grants.go),
      [BrokerRuntime] (runtime.go, oauth.go): one definition per handler.  A handler that
      releases the mutex is one definition per critical section.
    - [BrokerSpec]: the abstract specification.  [Durable] is what the journal
      determines, [Core] adds the leases and the clock, [commit_ok] lists the mutations
      that are allowed and [cstep] the transitions.
    - [BrokerInv]: the invariant of the specification and its preservation.
    - [BrokerSim], [BrokerRefine]: the handlers simulate the specification.
    - [BrokerSystem]: the system of one broker, its critical sections interleaved with
      pending exchanges and restarts; [reachable].
    - [BrokerProps], [BrokerOps], [BrokerSecrets]: the theorems about the broker.
    - [Journal]: internal/journal/journal.go and recovery.go, internal/seal, and what
      they use of internal/securefs, over a disk on which every call may fail and a write
      may be short.
    - [JournalProps], [JournalLog], [JournalLife], [JournalAnchor]: its theorems.
    - [JournalBroker]: the replicated journal implements the interface [JournalOps] the
      broker's theorems are proved against.
    - [Materialize], [MaterializeProps]: materialize/materialize.go, the files of a lease.
    - [LocalStore], [LocalProps]: provider/local.go, the sealed objects on disk and the
      vault they implement.
    - [Safenet], [SafenetProps]: internal/safenet/net.go, where a client may connect.

    The routine engine:
    - [Calendar]: civil dates and zones, as [time] computes them.
    - [Cron], [CronProps]: routines/cron.go.
    - [RoutineTypes]: the records of commodel.
    - [Timing], [TimingProps]: routines/timing.go, the next slot of a schedule.
    - [Schedules], [SchedulesProps]: routines/schedules.go and occurrences.go over a
      directory tree whose calls may fail; the rest of the hub is [RoutineDeps].

    The job queue:
    - [SpoolTypes]: its records and what it computes without a file (commodel/mapping.go,
      commodel/delivery.go, budget.go, job_mapping.go); [QueueWorld] is what it relies on.
    - [SpoolQueue]: the state [Hub], mappings, the budget ledger and admission (spool.go,
      job_mapping.go, budget.go).
    - [SpoolWork]: claiming, ending, control and observation (spool.go, control.go,
      recovery.go).
    - [SpoolStream]: outbox, events, receipts and recovery (spool_delivery.go, stream.go,
      spool.go).
    - [SpoolSpec]: the abstract specification: [qstep], the durable changes that may
      happen, and [queue_ok], the invariant they keep.
    - [SpoolRefine], [SpoolOps]: every operation is a sequence of such steps, whatever
      calls fail; [reachable] states of the system.
    - [SpoolFrame]: fields an operation never writes.
    - [SpoolProps], [SpoolClaim], [SpoolRestart]: the theorems about the queue.

    The tasks of a chat, in the same tree:
    - [Tasks]: communication/tasks.go and commodel/task.go, every operation on a task and
      on the pointers of chats and topics; [TaskWorld] is the random source, the name of an
      unnamed task and the sort, which is not stable.
    - [TasksProps]: [tmove], what an owner may do to the files, and [acts]: every operation
      is a sequence of such moves and touches nothing else.
    - [TasksSystem]: owners and the queue as one system, [alive] states, the theorems.
    - [TasksCreate]: creating a task again, and finding it through its topic.

    The tool governance:
    - [Governance], [GovernanceProps]: governance.go, governance_grants.go, confirm.go and
      the catalog of governance_io.go.

    The tool registry:
    - [ToolTypes]: its records and their validation (toolhub/api: types.go, grants.go,
      validate.go, definition.go, labels.go, operations.go); [ToolWorld] is SHA-256, the
      digests of records, the check of a whole definition and the parsing of endpoints.
    - [Capability], [CapabilityProps]: api/capability_policy.go, policies, profiles and the
      decision on a managed call.
    - [RegStore]: the state [Reg] of store.go, the snapshot and its saving
      (store_io.go), and the operations that put records (store.go, grants.go,
      operations_store.go, capability_store.go); [RegWorld] is the clock, the order of each
      range over a map and of each scan of the onboardings, the failures of a save, the
      stopper and the broker.
    - [RegOps]: the life of connections, bindings and teams (store.go).
    - [RegLoad]: loading, reloading and migration (store_io.go, migrate.go).
    - [RegAccess]: grants, resolution, admission, projection and managed calls (grants.go,
      store.go, projection.go, capability_store.go).
    - [RegInv], [RegKeeps], [RegSystem]: the invariant, that each operation keeps it, and
      the registry as a system of operations and foreign writes to its file.  [room] (the
      revisions stay below 2^64) and [share_distinct] (a team's connection is shared
      under an id that no connection of another definition has taken) restrict which calls count as steps; [reg_step_late] adds a reload that
      replaces the status mirror after another operation ran.
    - [RegProps], [RegManaged]: the theorems about resolution, revocation and admission, and
      the preview of a profile.
    - [RegLease]: refresh_lease.go, the leases that processes take before they refresh.

    [BrokerExample] and the files that end in [Witness] hold concrete runs at which the
    theorems apply.

    ** What the theorems show

    - Refinement: the broker (C1), the local store (C24) and the job queue (C25) behave as
      their specifications, whatever is interleaved and whatever fails.
    - State of the broker (C2 to C5): leases are backed by active grants and current
      credentials, one credential per slot, grants do not contend and stay with their
      owner, one approved browser per request ([one_approved_session]).
    - History of the broker (C9 to C11): the journal determines the state, a restart on a
      journal that takes the records of the start comes back with its tables and fails only
      where the journal refuses one, the audit log is complete; final states are final ([history_final]).
    - Operations of the broker (C14, C16, C19, C22): authorization of uses, revocation
      (done, failed half way, and repeated, which touches no grant), errors for foreign identifiers, deletion; failing closed ([closed_broker_refuses]).
    - Delivery (C15, C29): materialization is all or nothing, state snapshots come back
      ([snapshot_returns_state]), clients connect only where they may.
    - Contracts and assertions (C27: what a key made from a seed signs verifies for its
      issuer and audience within its window; C28, [valid_contract_delivers_safely],
      [compatible_fields]).
    - Journal (C34, C35, C37): acknowledged records survive failing calls and restarts, torn
      ledgers are refused, the head digest commits to the history ([head_digest_commits]),
      the anchored history is what opening restores.
    - Routines: [NextCron] returns the first minute that matches (C26), a tick fires every
      due slot once and leaves alone only what is unreadable, running or refused (C30).
    - The job queue: well-formed files (C21), nothing accepted is lost and outcomes are
      final (C23), a key is admitted once and for one payload (C13), the ledger counts what it holds and keeps
      its ceiling (C7), what a claim does and when there is nothing to claim (C17), the
      order of claims ([claim_order]), what a restart does with unfinished work (C8).
    - Tasks: records are well formed and conversations are not shared, and the jobs of a
      task run in its conversation (C32); owners cannot touch each other's tasks nor the
      queue (C6); archiving is reversible ([archive_unarchive]) and creating is idempotent
      by name ([create_replayed]).
    - Governance (C38, C40): denials are absolute, where active grants come from; every way
      to reach a section ([allowed_only_by]).
    - Capability policies: a decision admits exactly what an allow under a ceiling covers
      and no denial does, in whatever order the rules stand (C33), and an admitted call is
      confined to the boundaries and limits it is given (C39).
    - The tool registry: rows of all tables, links and projections are sound in every state
      it reaches, and the status mirror too unless a reload replaced it late (C12); a binding resolves only for its owner on a live
      connection at the pinned revision (C20); taking a connection out of service cuts it
      off even when the save fails (C31); a managed call is admitted only on an active
      profile and policy, on a reviewed implementation or the caller's own confirmed
      installation (C18); refresh leases exclude each other across processes (C36); the
      preview of a profile is exact ([preview_exact]); grants are decided whatever the order
      of the table ([granted_iff]).

    ** Modelling conventions

    Instants and durations are integers of nanoseconds; [uint64] and [int64] wrap where
    the code computes with them ([u64], [i64]).  Errors are values of inductive types,
    and a failing method returns the state it leaves behind.  A Go map is a [gmap]; where
    the code ranges over one, the order is a parameter of the model ([w_order], [q_order]),
    so the theorems hold for every order ([rw_range] in the registry, one order per loop, and
    [rw_scan], one order per scan, where an operation repeats a loop whose answer depends on
    it).  Random identifiers and secrets are streams indexed by the tick of the state; that the streams do not repeat is a law of [World].
    File calls of the routine engine and the queue fail as the parameter [host_ok] says of
    the number of the call; a crash is a run whose calls fail from some point on, followed
    by a restart.

    Recursion is structural except where fuel is given, and the fuel is enough.  The
    replay of a ledger takes its length, and a round consumes at least 32 bytes.  The
    trimming and splitting of strings take their length, and a round consumes a byte.  The
    minute search of [NextCron] takes 576002 rounds, more than the minutes of its 400 days,
    and that it returns is part of its theorem.  [NextSchedule] goes over 403 days, as the
    code does, and its inner loops leave before their fuel is used up ([window_finishes],
    [anchored_finishes]).  The delay of an observation takes 3 rounds, after which the limit
    of 30 seconds is reached ([backoff_fuel]).

    ** Not modelled

    Configuration, HTTP handlers, forms and clients of the broker; the remote secret stores
    behind the provider interface; the operating system's part of securefs (owner, mode
    and link checks are calls that may fail); errors of closing handles; a process that
    dies inside compaction (the temporary file is never read); journal kinds that are not
    UTF-8; sub-directories in the anchor directory.  The disk keeps what was written, so a
    missing flush is not observable; removing the file of a failed create always succeeds
    ([securefs_Create]), and reading a file that is absent meets no other failure
    ([securefs_Read]).  A restart of the broker model
    reopens a journal with exactly the acknowledged records; the unacknowledged record a
    crash may leave behind is covered by the journal's own theorems.  The JSON copies the
    code makes to detach values are the identity.  Of the routine engine, creating, updating
    and dispatching, watchers, digests and assignments; of the job queue, the retention
    sweep ([Compact]), which archives what ended long ago, the writing of the usage journal,
    the style a run is pinned to ([StyleForRun]), artifact blobs and inbound messages.
    Of the tool registry, the validation of a whole tool definition, which is a parameter,
    the log of excluded bindings, viewer links, the lookup of connectors by name, and the
    HTTP, onboarding and execution layers above it; a crash inside a save is the failure of
    the rename, which leaves the old file, and JSON copies are the identity here too, also for
    the providers that key the file of leases, which are taken to be UTF-8.  A registry
    operation that releases its lock between the change and the save is one step; that
    another operation runs in between is seen as the failing save of the first, followed by
    the second.
    Outside these parts the repository is transport, rendering and process control around external
    programs, which PROJECT.json lists component by component. *)
From stdpp Require Import base gmap strings list sorting.

(** Comparisons of Go values, as booleans. *)
Declare Scope go_scope.
Delimit Scope go_scope with go.
Notation "x == y" := (bool_decide (x = y)) (at level 70, no associativity) : go_scope.
Notation "x != y" := (negb (bool_decide (x = y))) (at level 70, no associativity) : go_scope.
Global Open Scope go_scope.

(** * Results, and the state-and-error monad of the Go methods

    A Go method [func (b *B) Op(..) (T, error)] runs on a mutable receiver and
    may have changed it when it returns an error, so the state is returned on
    both branches. *)

Inductive res (E A : Type) : Type :=
  | Ok (a : A)
  | Err (e : E).
Arguments Ok {E A} a.
Arguments Err {E A} e.

Definition res_ok {E A} (r : res E A) : bool :=
  match r with Ok _ => true | Err _ => false end.

Definition M (S E A : Type) : Type := S → res E A * S.

Global Instance M_ret {S E} : MRet (M S E) := λ A a s, (Ok a, s).
Global Instance M_bind {S E} : MBind (M S E) := λ A B f m s,
  match m s with
  | (Ok a, s') => f a s'
  | (Err e, s') => (Err e, s')
  end.

Section Operations.
Context {S E : Type}.

Definition mthrow_err {A} (e : E) : M S E A := λ s, (Err e, s).
Definition get : M S E S := λ s, (Ok s, s).
Definition modify (f : S → S) : M S E unit := λ s, (Ok tt, f s).

(** [if cond { return err }] *)
Definition fail_if (cond : bool) (e : E) : M S E unit :=
  if cond then mthrow_err e else mret tt.

(** [v, ok := m[k]; if !ok { return err }] *)
Definition some_or {A} (o : option A) (e : E) : M S E A :=
  match o with Some a => mret a | None => mthrow_err e end.

(** [x, err := op(); ...] where the error is a value the code goes on with. *)
Definition try {A} (m : M S E A) : M S E (res E A) := λ s,
  let '(r, s') := m s in (Ok r, s').

(** [for _, x := range l { body }] without an early return. *)
Fixpoint for_each {A} (l : list A) (body : A → M S E unit) : M S E unit :=
  match l with
  | [] => mret tt
  | x :: l' => body x ;; for_each l' body
  end.

(** [for _, x := range l { body }] whose body may [return v, nil]. *)
Fixpoint for_return {A R} (l : list A) (body : A → M S E (option R)) : M S E (option R) :=
  match l with
  | [] => mret None
  | x :: l' =>
      r ← body x;
      match r with Some v => mret (Some v) | None => for_return l' body end
  end.

(** [acc = f(acc, x)] over a range. *)
Fixpoint for_fold {A B} (l : list A) (acc : B) (body : B → A → M S E B) : M S E B :=
  match l with
  | [] => mret acc
  | x :: l' => acc' ← body acc x; for_fold l' acc' body
  end.
End Operations.

(** * Weakest preconditions *)

Section WP.
Context {S E : Type}.

Definition wp {A} (m : M S E A) (Q : res E A → S → Prop) (s : S) : Prop :=
  let '(r, s') := m s in Q r s'.

Lemma wp_mono {A} (m : M S E A) (Q Q' : res E A → S → Prop) s :
  wp m Q s → (∀ r s', Q r s' → Q' r s') → wp m Q' s.
Proof. unfold wp. destruct (m s). eauto. Qed.

Lemma wp_ret {A} (a : A) Q s : Q (Ok a) s → wp (mret a : M S E A) Q s.
Proof. done. Qed.

Lemma wp_throw {A} (e : E) Q s : Q (Err e) s → wp (mthrow_err e : M S E A) Q s.
Proof. done. Qed.

Lemma wp_bind {A B} (m : M S E A) (f : A → M S E B) Q s :
  wp m (λ r s', match r with Ok a => wp (f a) Q s' | Err e => Q (Err e) s' end) s →
  wp (m ≫= f) Q s.
Proof. unfold wp, mbind, M_bind. by destruct (m s) as [[a|e] s']. Qed.

Lemma wp_get Q s : Q (Ok s) s → wp (get : M S E S) Q s.
Proof. done. Qed.

Lemma wp_modify f Q s : Q (Ok tt) (f s) → wp (modify f : M S E unit) Q s.
Proof. done. Qed.

Lemma wp_fail_if b (e : E) Q s :
  (b = true → Q (Err e) s) → (b = false → Q (Ok tt) s) → wp (fail_if b e) Q s.
Proof. destruct b; unfold wp; simpl; auto. Qed.

Lemma wp_some_or {A} (o : option A) (e : E) Q s :
  (∀ a, o = Some a → Q (Ok a) s) → (o = None → Q (Err e) s) → wp (some_or o e) Q s.
Proof. destruct o; unfold wp; simpl; auto. Qed.

Lemma wp_try {A} (m : M S E A) Q s :
  wp m (λ r s', Q (Ok r) s') s → wp (try m) Q s.
Proof. unfold wp, try. by destruct (m s). Qed.

Lemma wp_if {A} (b : bool) (m1 m2 : M S E A) Q s :
  (b = true → wp m1 Q s) → (b = false → wp m2 Q s) → wp (if b then m1 else m2) Q s.
Proof. destruct b; auto. Qed.

Lemma wp_option {A B} (o : option A) (f : A → M S E B) (m : M S E B) Q s :
  (∀ a, o = Some a → wp (f a) Q s) → (o = None → wp m Q s) →
  wp (match o with Some a => f a | None => m end) Q s.
Proof. destruct o; auto. Qed.

(** Loops keep an invariant that each round keeps. *)
Lemma wp_for_each {A} (I : S → Prop) (l : list A) body s :
  I s →
  (∀ x s, x ∈ l → I s → wp (body x) (λ _ s', I s') s) →
  wp (for_each l body : M S E unit) (λ _ s', I s') s.
Proof.
  intros HI Hbody. revert s HI. induction l as [|x l IH]; intros s HI; [done|].
  simpl. apply wp_bind. eapply wp_mono.
  { apply Hbody; [set_solver|done]. }
  intros [[]|e] s' HI'; simpl; [|done].
  apply IH; [|done]. intros y s'' Hy. apply Hbody. set_solver.
Qed.

(** A loop whose rounds each establish [P x], which later rounds keep. *)
Lemma wp_for_each_all {A} (R : S → S → Prop) `{!PreOrder R} (P : A → S → Prop) (l : list A) body s :
  (∀ x s s', R s s' → P x s → P x s') →
  (∀ x s', x ∈ l → R s s' → wp (body x) (λ r s'', R s' s'' ∧ (r = Ok tt → P x s'')) s') →
  wp (for_each l body : M S E unit) (λ r s', R s s' ∧ (r = Ok tt → ∀ x, x ∈ l → P x s')) s.
Proof.
  intros Hkeep. revert s. induction l as [|x l IH]; intros s Hbody.
  { split; [done|]. intros _ x Hx. set_solver. }
  simpl. apply wp_bind. eapply wp_mono; [apply Hbody; [set_solver|done]|].
  intros [[]|e] s1 [HR HP]; simpl; [|done]. eapply wp_mono.
  { apply IH. intros y s' Hy HR'. apply Hbody; [set_solver|by etrans]. }
  intros r s2 [HR2 HP2]. split; [by etrans|]. intros Hr y [->|Hy]%elem_of_cons; [|by apply HP2].
  eapply Hkeep; [exact HR2|by apply HP].
Qed.

(** An early-return loop: a round that goes on keeps the invariant and leaves a
    fact [P x] behind, a round that returns or fails ends in [R]. *)
Lemma wp_for_return {A V} (I : S → Prop) (P : A → Prop) (R : res E V → S → Prop)
    (l : list A) body s :
  I s →
  (∀ x s, x ∈ l → I s →
    wp (body x) (λ r s',
      match r with
      | Ok None => I s' ∧ P x
      | Ok (Some v) => R (Ok v) s'
      | Err e => R (Err e) s'
      end) s) →
  wp (for_return l body : M S E (option V)) (λ r s',
      match r with
      | Ok None => I s' ∧ Forall P l
      | Ok (Some v) => R (Ok v) s'
      | Err e => R (Err e) s'
      end) s.
Proof.
  intros HI Hbody. revert s HI. induction l as [|x l IH]; intros s HI.
  { by split. }
  simpl. apply wp_bind. eapply wp_mono.
  { apply Hbody; [set_solver|done]. }
  intros [[v|]|e] s' Hr; simpl; [done| |done]. destruct Hr as [HI' HP].
  eapply wp_mono.
  { apply IH; [|done]. intros y s'' Hy. apply Hbody. set_solver. }
  intros [[v|]|e] s'' Hr; simpl; [done| |done]. destruct Hr. split; [done|]. by constructor.
Qed.

(** ... where what a round leaves behind is kept by the later ones. *)
Lemma wp_for_return_all {A V} (R : S → S → Prop) `{!PreOrder R} (P : A → S → Prop) (G : res E V → S → Prop) (l : list A) body s :
  (∀ x s s', R s s' → P x s → P x s') →
  (∀ x s', x ∈ l → R s s' →
    wp (body x) (λ r s'', match r with Ok None => R s' s'' ∧ P x s'' | Ok (Some v) => G (Ok v) s'' | Err e => G (Err e) s'' end) s') →
  wp (for_return l body : M S E (option V))
    (λ r s', match r with Ok None => R s s' ∧ (∀ x, x ∈ l → P x s') | Ok (Some v) => G (Ok v) s' | Err e => G (Err e) s' end) s.
Proof.
  intros Hkeep. revert s. induction l as [|x l IH]; intros s Hbody.
  { split; [done|]. intros x Hx. set_solver. }
  simpl. apply wp_bind. eapply wp_mono; [apply Hbody; [set_solver|done]|].
  intros [[v|]|e] s1 Hr; simpl; [done| |done]. destruct Hr as [HR HP]. eapply wp_mono.
  { apply IH. intros y s' Hy HR'. apply Hbody; [set_solver|by etrans]. }
  intros [[v|]|e] s2 Hr; [done| |done]. destruct Hr as [HR2 HP2]. split; [by etrans|].
  intros y [->|Hy]%elem_of_cons; [|by apply HP2]. by eapply Hkeep.
Qed.

Lemma wp_for_fold {A B} (I : B → S → Prop) (R : E → S → Prop) (l : list A) (acc : B) body s :
  I acc s →
  (∀ acc x s, x ∈ l → I acc s →
    wp (body acc x) (λ r s', match r with Ok acc' => I acc' s' | Err e => R e s' end) s) →
  wp (for_fold l acc body : M S E B)
    (λ r s', match r with Ok acc' => I acc' s' | Err e => R e s' end) s.
Proof.
  intros HI Hbody. revert acc s HI. induction l as [|x l IH]; intros acc s HI; [done|].
  simpl. apply wp_bind. eapply wp_mono.
  { apply Hbody; [set_solver|done]. }
  intros [acc'|e] s' HI'; simpl; [|done].
  apply IH; [|done]. intros a y s'' Hy. apply Hbody. set_solver.
Qed.

(** Loops whose invariant speaks about the elements done so far. *)
Lemma wp_for_fold_prefix {A B} (I : list A → B → S → Prop) (R : E → S → Prop) (l : list A) (acc : B) body s :
  I [] acc s →
  (∀ pre x post acc s, l = pre ++ x :: post → I pre acc s →
    wp (body acc x) (λ r s', match r with Ok acc' => I (pre ++ [x]) acc' s' | Err e => R e s' end) s) →
  wp (for_fold l acc body : M S E B)
    (λ r s', match r with Ok acc' => I l acc' s' | Err e => R e s' end) s.
Proof.
  intros HI Hbody.
  assert (∀ post pre acc s, l = pre ++ post → I pre acc s →
    wp (for_fold post acc body : M S E B)
      (λ r s', match r with Ok acc' => I l acc' s' | Err e => R e s' end) s) as Hgen.
  { clear acc s HI. induction post as [|x post IH]; intros pre acc s Hl HI.
    { rewrite app_nil_r in Hl. by subst. }
    simpl. apply wp_bind. eapply wp_mono; [by eapply Hbody|].
    intros [acc'|e] s' Hr; simpl; [|done]. apply (IH (pre ++ [x])); [|done].
    by rewrite <- app_assoc. }
  by apply (Hgen l []).
Qed.

Lemma wp_for_each_prefix {A} (I : list A → S → Prop) (R : E → S → Prop) (l : list A) body s :
  I [] s →
  (∀ pre x post s, l = pre ++ x :: post → I pre s →
    wp (body x) (λ r s', match r with Ok _ => I (pre ++ [x]) s' | Err e => R e s' end) s) →
  wp (for_each l body : M S E unit) (λ r s', match r with Ok _ => I l s' | Err e => R e s' end) s.
Proof.
  intros HI Hbody.
  assert (∀ post pre s, l = pre ++ post → I pre s →
    wp (for_each post body : M S E unit) (λ r s', match r with Ok _ => I l s' | Err e => R e s' end) s) as Hgen.
  { clear s HI. induction post as [|x post IH]; intros pre s Hl HI.
    { rewrite app_nil_r in Hl. by subst. }
    simpl. apply wp_bind. eapply wp_mono; [by eapply Hbody|].
    intros [[]|e] s' Hr; simpl; [|done]. apply (IH (pre ++ [x])); [|done].
    by rewrite <- app_assoc. }
  by apply (Hgen l []).
Qed.

Lemma wp_and {A} (m : M S E A) (P Q : res E A → S → Prop) s : wp m P s → wp m Q s → wp m (λ r s', P r s' ∧ Q r s') s.
Proof. unfold wp. by destruct (m s). Qed.

Lemma wp_imp {A} (P : Prop) (m : M S E A) (Q : res E A → S → Prop) s :
  (P → wp m Q s) → wp m (λ r s', P → Q r s') s.
Proof. unfold wp. by destruct (m s). Qed.

(** Between runs and preconditions. *)
Lemma run_wp {A} (m : M S E A) (P : res E A → S → Prop) s r s' : m s = (r, s') → wp m P s → P r s'.
Proof. unfold wp. by intros ->. Qed.

Lemma wp_eq {A} (m : M S E A) s r s' : wp m (λ x t, x = r ∧ t = s') s → m s = (r, s').
Proof. unfold wp. destruct (m s). by intros [-> ->]. Qed.

Lemma wp_snd {A} (m : M S E A) (P : S → Prop) s : wp m (λ _ s', P s') s → P (m s).2.
Proof. unfold wp. by destruct (m s). Qed.
End WP.

(** * Machine integers *)

Definition u64 (z : Z) : Z := (z mod 2 ^ 64)%Z.
Definition i64 (z : Z) : Z := ((z + 2 ^ 63) mod 2 ^ 64 - 2 ^ 63)%Z.
Definition in_i64 (z : Z) : Prop := (- 2 ^ 63 ≤ z < 2 ^ 63)%Z.

Lemma i64_id z : in_i64 z → i64 z = z.
Proof. unfold in_i64, i64. intros H. rewrite Z.mod_small; lia. Qed.

Lemma u64_id z : (0 ≤ z < 2 ^ 64)%Z → u64 z = z.
Proof. intros H. unfold u64. by rewrite Z.mod_small. Qed.

Lemma u64_bound z : (0 ≤ u64 z < 2 ^ 64)%Z.
Proof. apply Z.mod_pos_bound. lia. Qed.

Lemma u64_succ_neq z : (0 ≤ z < 2 ^ 64)%Z → u64 (z + 1) ≠ z.
Proof.
  intros H. unfold u64. destruct (decide (z = 2 ^ 64 - 1)%Z) as [->|Hz].
  - vm_compute. done.
  - rewrite Z.mod_small; lia.
Qed.

(** Wrap-around that does not happen. *)
Create HintDb go_int.
Create Rewrite HintDb go_int.
#[export] Hint Rewrite i64_id u64_id using (unfold in_i64 in *; lia) : go_int.
#[export] Hint Resolve u64_bound : go_int.

Ltac go_int := autorewrite with go_int in *.

(** Linear arithmetic with division and remainder by constants. *)
Ltac zlia := Z.to_euclidean_division_equations; lia.

(** Durations and instants are integers of nanoseconds. *)
Definition Second : Z := 1000000000%Z.
Definition Minute : Z := (60 * Second)%Z.

(** * Bounded loops *)

Section Loop.
Context {A B : Type} (body : A → A + B).

(** At most [fuel] rounds of a loop whose body goes on with [inl] and leaves with [inr]. *)
Definition loop (fuel : positive) (a : A) : A + B :=
  Pos.iter (λ s, match s with inl a => body a | inr b => inr b end) (inl a) fuel.

(** The rule for loops: an invariant of the rounds done so far. *)
Lemma loop_inv (I : nat → A → Prop) (Q : B → Prop) fuel a :
  I 0%nat a →
  (∀ k a, (k < Pos.to_nat fuel)%nat → I k a → match body a with inl a' => I (S k) a' | inr b => Q b end) →
  match loop fuel a with inl a' => I (Pos.to_nat fuel) a' | inr b => Q b end.
Proof.
  intros H0 Hstep. unfold loop. rewrite Pos2Nat.inj_iter.
  assert (Hn : ∀ n, (n ≤ Pos.to_nat fuel)%nat →
    match Nat.iter n (λ s, match s with inl a => body a | inr b => inr b end) (inl a) with inl a' => I n a' | inr b => Q b end).
  { induction n as [|n IH]; intros Hn; simpl; [done|]. specialize (IH ltac:(lia)).
    destruct (Nat.iter n _ _) as [a'|b]; [|done]. apply Hstep; [lia|done]. }
  by apply Hn.
Qed.

Lemma loop_first fuel a b : body a = inr b → loop fuel a = inr b.
Proof.
  intros Hb. pose proof (loop_inv (λ k a', k = 0%nat ∧ a' = a) (λ b', b' = b) fuel a) as Hl.
  destruct (loop fuel a) as [a'|b'].
  - destruct Hl as [E _]; [done| |lia]. intros k a'' _ [-> ->]. by rewrite Hb.
  - f_equal. apply Hl; [done|]. intros k a'' _ [-> ->]. by rewrite Hb.
Qed.
End Loop.

(** * Symbolic execution

    [wp_step] runs one instruction of a goal [wp m Q s]; [wp_prim] is the hook a
    component extends with the rules of its own primitives. *)
Global Arguments wp : simpl never.

Create HintDb wp_rules.
#[export] Hint Resolve wp_ret wp_throw wp_get wp_modify : wp_rules.

Ltac wp_prim := fail.

Ltac wp_step :=
  cbn beta iota;
  lazymatch goal with
  | |- wp (mbind _ _) _ _ => apply wp_bind
  | |- wp (mret _) _ _ => apply wp_ret
  | |- wp get _ _ => apply wp_get
  | |- wp (modify _) _ _ => apply wp_modify
  | |- wp (mthrow_err _) _ _ => apply wp_throw
  | |- wp (fail_if _ _) _ _ => apply wp_fail_if; [intros _|intros ?]
  | |- wp (some_or _ _) _ _ => apply wp_some_or; [intros ? ?|intros _]
  | |- wp (if _ then _ else _) _ _ => apply wp_if; intros ?
  | |- wp (let '(_, _) := ?p in _) _ _ => destruct p eqn:?
  | |- _ => wp_prim
  end; cbn beta iota.

(** From a claim about a successful run to its weakest precondition. *)
Ltac by_wp Hrun :=
  lazymatch type of Hrun with
  | ?m ?b = (Ok ?v, ?b') =>
      pattern v, b';
      lazymatch goal with
      | |- ?P v b' =>
          apply (run_wp m (λ r s, match r with Ok x => P x s | Err _ => True end) b _ b' Hrun)
      end
  end; clear Hrun.

(** Run until no rule applies. *)
Ltac wp_run := repeat wp_step.

(** Turn the boolean guards in the context into propositions. *)
Ltac guards :=
  repeat lazymatch goal with
  | H : negb _ = true |- _ => apply negb_true_iff in H
  | H : negb _ = false |- _ => apply negb_false_iff in H
  | H : _ || _ = false |- _ => apply orb_false_iff in H as [? ?]
  | H : _ && _ = true |- _ => apply andb_true_iff in H as [? ?]
  | H : bool_decide _ = true |- _ => apply bool_decide_eq_true in H
  | H : bool_decide _ = false |- _ => apply bool_decide_eq_false in H
  | H : (_ <? _)%Z = true |- _ => apply Z.ltb_lt in H
  | H : (_ <? _)%Z = false |- _ => apply Z.ltb_ge in H
  | H : (_ <=? _)%Z = true |- _ => apply Z.leb_le in H
  | H : (_ <=? _)%Z = false |- _ => apply Z.leb_gt in H
  | H : (_ =? _)%Z = true |- _ => apply Z.eqb_eq in H
  | H : (_ =? _)%Z = false |- _ => apply Z.eqb_neq in H
  end.
