(* ===== verification/GoStrings.v ===== *)
(** Go strings as the byte strings they are: the functions of the packages
    [strings], [path] and [regexp] that the modelled code calls, and their
    lemmas.  [len] counts bytes; [TrimSpace] knows the multi-byte white space of
    [unicode.IsSpace].  Functions that need the Unicode case tables
    ([ToLower], [ToUpper], [EqualFold]) are operations of the class [Unicode]. *)
From stdpp Require Import base strings list pretty.
From Stdlib Require Import Ascii String.
From S2P Require Import Prelude.
Local Open Scope string_scope.

(** ** Lengths *)

Definition len (s : string) : Z := Z.of_nat (String.length s).

(** ** Bytes and character classes *)

Definition code (c : ascii) : Z := Z.of_N (N_of_ascii c).
Definition in_range (c : ascii) (lo hi : Z) : bool := (lo <=? code c)%Z && (code c <=? hi)%Z.
Definition is_lower (c : ascii) : bool := in_range c 97 122.
Definition is_upper (c : ascii) : bool := in_range c 65 90.
Definition is_digit (c : ascii) : bool := in_range c 48 57.
Definition is_char (x c : ascii) : bool := bool_decide (c = x).

Fixpoint str_forallb (p : ascii → bool) (s : string) : bool :=
  match s with
  | EmptyString => true
  | String c s' => p c && str_forallb p s'
  end.

Definition str_existsb (p : ascii → bool) (s : string) : bool :=
  negb (str_forallb (λ c, negb (p c)) s).

(** [strings.ContainsAny(s, chars)] for ASCII [chars]. *)
Definition ContainsAny (s chars : string) : bool :=
  str_existsb (λ c, str_existsb (is_char c) chars) s.

(** The control bytes the code names in its character lists. *)
Definition NUL : ascii := ascii_of_nat 0.
Definition LF : ascii := ascii_of_nat 10.
Definition CR : ascii := ascii_of_nat 13.
Definition crlfnul : string := String CR (String LF (String NUL "")).

(** An anchored regular expression [^C1 C2{0,n}$] over byte classes. *)
Definition match_ident (c1 c2 : ascii → bool) (n : nat) (s : string) : bool :=
  match s with
  | EmptyString => false
  | String c s' => c1 c && str_forallb c2 s' && (String.length s' <=? n)%nat
  end.

(** ** Prefixes, suffixes, substrings *)

Definition HasPrefix (s p : string) : bool := String.prefix p s.

Fixpoint drop_str (n : nat) (s : string) : string :=
  match n, s with
  | O, _ => s
  | S n', String _ s' => drop_str n' s'
  | S _, EmptyString => EmptyString
  end.

Definition TrimPrefix (s p : string) : string :=
  if HasPrefix s p then drop_str (String.length p) s else s.

Definition HasSuffix (s p : string) : bool :=
  (String.length p <=? String.length s)%nat &&
  (drop_str (String.length s - String.length p) s == p).

Fixpoint Contains (s sub : string) : bool :=
  HasPrefix s sub ||
  match s with
  | EmptyString => false
  | String _ s' => Contains s' sub
  end.

(** [strings.ReplaceAll(s, c, "")] for a one-byte [c]. *)
Fixpoint remove_char (x : ascii) (s : string) : string :=
  match s with
  | EmptyString => EmptyString
  | String c s' => if is_char x c then remove_char x s' else String c (remove_char x s')
  end.

(** [strings.Split(s, c)] for a one-byte separator; never empty. *)
Fixpoint split_on (x : ascii) (s : string) : list string :=
  match s with
  | EmptyString => [""]
  | String c s' =>
      if is_char x c then "" :: split_on x s'
      else match split_on x s' with
           | [] => [String c ""]
           | h :: t => String c h :: t
           end
  end.

(** [i := strings.IndexAny(s, cs)]: the part before the first such byte, if any. *)
Fixpoint before_any (p : ascii → bool) (s : string) : option string :=
  match s with
  | EmptyString => None
  | String c s' => if p c then Some "" else String c <$> before_any p s'
  end.

(** ** White space *)

Definition is_ascii_space (c : ascii) : bool := in_range c 9 13 || bool_decide (code c = 32%Z).

(** The encodings of [unicode.IsSpace] beyond ASCII: U+0085, U+00A0, U+1680,
    U+2000..U+200A, U+2028, U+2029, U+202F, U+205F and U+3000. *)
Definition is_space2 (a b : ascii) : bool :=
  bool_decide (code a = 194%Z) && (bool_decide (code b = 133%Z) || bool_decide (code b = 160%Z)).
Definition is_space3 (a b c : ascii) : bool :=
  let x := code a in let y := code b in let z := code c in
  (bool_decide (x = 225 ∧ y = 154 ∧ z = 128)
   || bool_decide (x = 226 ∧ y = 128 ∧ (128 ≤ z ≤ 138 ∨ z = 168 ∨ z = 169 ∨ z = 175))
   || bool_decide (x = 226 ∧ y = 129 ∧ z = 159)
   || bool_decide (x = 227 ∧ y = 128 ∧ z = 128))%Z.

Fixpoint trim_bytes (rev : bool) (fuel : nat) (l : list ascii) : list ascii :=
  match fuel with
  | O => l
  | S fuel' =>
      match l with
      | a :: l1 =>
          if is_ascii_space a then trim_bytes rev fuel' l1
          else match l1 with
               | b :: l2 =>
                   if (if rev then is_space2 b a else is_space2 a b) then trim_bytes rev fuel' l2
                   else match l2 with
                        | c :: l3 =>
                            if (if rev then is_space3 c b a else is_space3 a b c)
                            then trim_bytes rev fuel' l3 else l
                        | [] => l
                        end
               | [] => l
               end
      | [] => []
      end
  end.

Definition TrimSpace (s : string) : string :=
  let l := list_ascii_of_string s in
  let l1 := trim_bytes false (List.length l) l in
  let l2 := trim_bytes true (List.length l1) (reverse l1) in
  string_of_list_ascii (reverse l2).

(** The number of bytes of the white space at the head of [l], 0 when none. *)
Definition space_len (l : list ascii) : nat :=
  match l with
  | a :: l1 =>
      if is_ascii_space a then 1
      else match l1 with
           | b :: l2 =>
               if is_space2 a b then 2
               else match l2 with
                    | c :: _ => if is_space3 a b c then 3 else 0
                    | [] => 0
                    end
           | [] => 0
           end
  | [] => 0
  end%nat.

(** [strings.Fields]: [cur] is the reversed field being read. *)
Fixpoint fields_bytes (fuel : nat) (cur : list ascii) (l : list ascii) : list string :=
  let flush := if bool_decide (cur = []) then [] else [string_of_list_ascii (reverse cur)] in
  match fuel, l with
  | S fuel', c :: l' =>
      match space_len l with
      | O => fields_bytes fuel' (c :: cur) l'
      | n => (flush ++ fields_bytes fuel' [] (drop n l))%list
      end
  | _, _ => flush
  end.
Definition Fields (s : string) : list string :=
  let l := list_ascii_of_string s in fields_bytes (List.length l) [] l.

(** [strings.Trim(s, x)] for a one-byte cutset. *)
Fixpoint trim_left_char (x : ascii) (l : list ascii) : list ascii :=
  match l with c :: l' => if is_char x c then trim_left_char x l' else l | [] => [] end.
Definition Trim (x : ascii) (s : string) : string :=
  string_of_list_ascii (reverse (trim_left_char x (reverse (trim_left_char x (list_ascii_of_string s))))).

(** ** [strconv.ParseInt(s, 10, 64)] *)

Fixpoint digits_value (acc : Z) (s : string) : option Z :=
  match s with
  | EmptyString => Some acc
  | String c s' => if is_digit c then digits_value (acc * 10 + (code c - 48))%Z s' else None
  end.

Definition ParseInt (s : string) : option Z :=
  let body neg s :=
    if s == "" then None
    else
      v ← digits_value 0 s;
      let v := if (neg : bool) then (- v)%Z else v in
      if (v <? - 2 ^ 63)%Z || (2 ^ 63 - 1 <? v)%Z then None else Some v in
  match s with
  | String c s' => if is_char "-" c then body true s' else if is_char "+" c then body false s' else body false s
  | EmptyString => None
  end.

Example ParseInt_ex :
  map ParseInt ["42"; "-7"; "+3"; ""; "-"; "9223372036854775808"; "1a"]
  = [Some 42%Z; Some (-7)%Z; Some 3%Z; None; None; None; None].
Proof. vm_compute. reflexivity. Qed.
Example Fields_ex : Fields "  a bc  d " = ["a"; "bc"; "d"].
Proof. vm_compute. reflexivity. Qed.

(** ** [utf8.Valid] *)

Definition is_cont (c : ascii) : bool := in_range c 128 191.

Fixpoint utf8_valid (s : string) : bool :=
  match s with
  | EmptyString => true
  | String a s1 =>
      if in_range a 0 127 then utf8_valid s1
      else match s1 with
      | EmptyString => false
      | String b s2 =>
          if in_range a 194 223 then is_cont b && utf8_valid s2
          else match s2 with
          | EmptyString => false
          | String c s3 =>
              if in_range a 224 239 then
                (if bool_decide (code a = 224%Z) then in_range b 160 191
                 else if bool_decide (code a = 237%Z) then in_range b 128 159
                 else is_cont b)
                && is_cont c && utf8_valid s3
              else match s3 with
              | EmptyString => false
              | String d s4 =>
                  in_range a 240 244
                  && (if bool_decide (code a = 240%Z) then in_range b 144 191
                      else if bool_decide (code a = 244%Z) then in_range b 128 143
                      else is_cont b)
                  && is_cont c && is_cont d && utf8_valid s4
              end
          end
      end
  end.

(** ** Unicode case tables *)

Class Unicode := {
  ToUpper : string → string;
  ToLower : string → string;
  EqualFold : string → string → bool;
}.

Definition ascii_upper (c : ascii) : ascii :=
  if is_lower c then ascii_of_N (N_of_ascii c - 32) else c.
Definition ascii_lower (c : ascii) : ascii :=
  if is_upper c then ascii_of_N (N_of_ascii c + 32) else c.
Fixpoint str_map (f : ascii → ascii) (s : string) : string :=
  match s with EmptyString => EmptyString | String c s' => String (f c) (str_map f s') end.

(** The tables restricted to ASCII, for concrete runs. *)
Definition ascii_unicode : Unicode := {|
  ToUpper := str_map ascii_upper;
  ToLower := str_map ascii_lower;
  EqualFold := λ a b, str_map ascii_lower a == str_map ascii_lower b |}.

(** ** [path.Clean] *)

Definition clean_step (rooted : bool) (stack : list string) (p : string) : list string :=
  if (p == "") || (p == ".") then stack
  else if p == ".." then
    match stack with
    | [] => if rooted then [] else [".."]
    | top :: rest => if top == ".." then ".." :: stack else rest
    end
  else p :: stack.

Definition path_Clean (p : string) : string :=
  if p == "" then "."
  else
    let rooted := HasPrefix p "/" in
    let parts := reverse (fold_left (clean_step rooted) (split_on "/" p) []) in
    let joined := String.concat "/" parts in
    if rooted then "/" ++ joined
    else if joined == "" then "." else joined.

Example path_Clean_ex :
  map path_Clean ["/a//b/./c/.."; "/.."; "a/../../b"; ""; "/"; "/a/"]
  = ["/a/b"; "/"; "../b"; "."; "/"; "/a"].
Proof. vm_compute. reflexivity. Qed.

Example TrimSpace_ex : TrimSpace (String CR "  a b" ++ String LF " ") = "a b".
Proof. vm_compute. reflexivity. Qed.

(** ** Lemmas on splitting and cleaning *)

Lemma split_on_cons x s : ∃ h t, split_on x s = h :: t.
Proof.
  induction s as [|c s IH]; simpl; [eauto|]. destruct (is_char x c); [eauto|].
  destruct IH as (h & t & ->). eauto.
Qed.

(** A byte string free of the separator. *)
Definition sep_free (x : ascii) (s : string) : bool := str_forallb (λ c, negb (is_char x c)) s.

Lemma split_on_sep_free x s : Forall (λ p, sep_free x p = true) (split_on x s).
Proof.
  induction s as [|c s IH]; simpl; [by repeat constructor|].
  destruct (is_char x c) eqn:E; [by constructor|].
  destruct (split_on x s) as [|h t]; inversion IH; subst; constructor; try done;
    unfold sep_free; simpl; rewrite E; done.
Qed.

Lemma split_on_free_id x s : sep_free x s = true → split_on x s = [s].
Proof.
  induction s as [|c s IH]; simpl; [done|]. unfold sep_free in *; simpl.
  intros [Hc Hs]%andb_true_iff. destruct (is_char x c); [done|]. by rewrite IH.
Qed.

Lemma split_on_app_sep x p s :
  sep_free x p = true → split_on x (p ++ String x s) = p :: split_on x s.
Proof.
  induction p as [|c p IH]; simpl.
  - intros _. unfold is_char. by rewrite bool_decide_eq_true_2.
  - unfold sep_free; simpl. intros [Hc Hs]%andb_true_iff.
    destruct (is_char x c); [done|]. by rewrite IH.
Qed.

Lemma split_on_concat x l :
  l ≠ [] → Forall (λ p, sep_free x p = true) l →
  split_on x (String.concat (String x "") l) = l.
Proof.
  induction l as [|p l IH]; [done|]. intros _ [Hp Hl]%Forall_cons.
  destruct l as [|q l]; [by apply split_on_free_id|].
  change (String.concat (String x "") (p :: q :: l))
    with (p ++ String x (String.concat (String x "") (q :: l))).
  rewrite split_on_app_sep by done. f_equal. by apply IH.
Qed.

Definition plain_segment (p : string) : Prop :=
  sep_free "/" p = true ∧ p ≠ "" ∧ p ≠ "." ∧ p ≠ "..".

Lemma clean_rooted_plain l stack :
  Forall (λ p, sep_free "/" p = true) l → Forall plain_segment stack →
  Forall plain_segment (fold_left (clean_step true) l stack).
Proof.
  revert stack. induction l as [|p l IH]; intros stack Hl Hs; simpl; [done|].
  apply Forall_cons in Hl as [Hp Hl]. apply IH; [done|]. unfold clean_step.
  repeat case_bool_decide; simpl; try done.
  - destruct stack as [|top rest]; [done|].
    apply Forall_cons in Hs as [(_ & _ & _ & Htop) Hrest]. by case_bool_decide.
  - constructor; [|done]. by repeat split.
Qed.

(** A rooted path that [path.Clean] leaves alone has no [.], [..] or empty inner
    segment: it is [/] followed by plain segments. *)
Lemma path_Clean_fix_rooted p :
  HasPrefix p "/" = true → path_Clean p = p →
  ∃ segs, Forall plain_segment segs ∧ p = "/" ++ String.concat "/" segs.
Proof.
  intros Hroot Hfix. unfold path_Clean in Hfix. rewrite Hroot in Hfix.
  case_bool_decide as He; [by subst|].
  eexists. split; [|by rewrite <- Hfix at 1].
  rewrite Forall_forall. intros q Hq. rewrite elem_of_reverse in Hq. revert q Hq.
  rewrite <- Forall_forall. apply clean_rooted_plain; [apply split_on_sep_free|done].
Qed.

Lemma path_Clean_no_dotdot p :
  HasPrefix p "/" = true → path_Clean p = p → ".." ∉ split_on "/" p.
Proof.
  intros Hroot (segs & Hsegs & ->)%path_Clean_fix_rooted; [|done].
  destruct segs as [|q segs].
  { change (split_on "/" ("/" ++ String.concat "/" [])) with [""; ""].
    by intros [?|[?|?%not_elem_of_nil]%elem_of_cons]%elem_of_cons. }
  change ("/" ++ String.concat "/" (q :: segs))
    with ("" ++ String "/" (String.concat "/" (q :: segs))).
  rewrite split_on_app_sep by done. rewrite split_on_concat; [|done|].
  - intros [?|Hin]%elem_of_cons; [done|].
    rewrite Forall_forall in Hsegs. by apply Hsegs in Hin as (_ & _ & _ & ?).
  - eapply Forall_impl; [done|]. by intros ? [].
Qed.

(** Bytes excluded by a class stay out of the string. *)
Lemma str_existsb_false p s c s1 s2 :
  str_existsb p s = false → s = s1 ++ String c s2 → p c = false.
Proof.
  unfold str_existsb. intros H%negb_false_iff ->. revert H.
  induction s1 as [|a s1 IH]; simpl; intros [H1 H2]%andb_true_iff.
  - by apply negb_true_iff in H1.
  - by apply IH.
Qed.

Lemma append_assoc (a b c : string) : (a ++ b) ++ c = a ++ (b ++ c).
Proof. induction a as [|x a IH]; [done|]. exact (f_equal (String x) IH). Qed.

Lemma len_append (a b : string) : len (a ++ b) = (len a + len b)%Z.
Proof. unfold len. induction a as [|c a IH]; [done|]. simpl. lia. Qed.

Lemma append_empty_r a : a ++ "" = a.
Proof. induction a as [|c a IH]; [done|]. exact (f_equal (String c) IH). Qed.

Lemma append_inj_l a x y : a ++ x = a ++ y → x = y.
Proof. induction a as [|c a IH]; [done|]. intros E. apply IH. by injection E. Qed.

Lemma append_eq_len a b x y : len a = len b → a ++ x = b ++ y → a = b.
Proof.
  unfold len. revert b. induction a as [|c a IH]; intros [|d b]; simpl; intros Hl Heq; try (done || lia).
  injection Heq as -> Heq. f_equal. apply IH; [lia|done].
Qed.

Lemma str_forallb_mono (p q : ascii → bool) x : (∀ a, p a = true → q a = true) →
  str_forallb p x = true → str_forallb q x = true.
Proof. intros Hpq. induction x as [|a x IH]; simpl; [done|]. rewrite !andb_true_iff. naive_solver. Qed.

(** A property of every character. *)
Ltac by_char := intros [[] [] [] [] [] [] [] []]; done.

Lemma prefix_append p r : HasPrefix (p ++ r) p = true.
Proof.
  unfold HasPrefix. induction p as [|c p IH]; [by destruct r|].
  change (prefix (String c p) (String c (p ++ r)) = true). cbn [String.prefix].
  destruct (ascii_dec c c); done.
Qed.

Lemma prefix_split s p : HasPrefix s p = true → ∃ r, s = p ++ r.
Proof.
  unfold HasPrefix. revert s. induction p as [|c p IH]; intros s; [by exists s|].
  destruct s as [|c' s]; [done|]. cbn [String.prefix]. destruct (ascii_dec c c') as [<-|]; [|done].
  intros Hp. destruct (IH _ Hp) as [r ->]. by exists r.
Qed.

(** ** Decimal numbers *)

Lemma digits_value_char a n s :
  (n < 10)%N → digits_value a (String (pretty_N_char n) s) = digits_value (a * 10 + Z.of_N n) s.
Proof.
  intros Hn. assert (n = 0 ∨ n = 1 ∨ n = 2 ∨ n = 3 ∨ n = 4 ∨ n = 5 ∨ n = 6 ∨ n = 7 ∨ n = 8 ∨ n = 9)%N as Hc by lia.
  repeat destruct Hc as [->|Hc]; try subst; reflexivity.
Qed.

Lemma digits_value_go n s : digits_value 0 (pretty_N_go n s) = digits_value (Z.of_N n) s.
Proof.
  revert s. induction (N.lt_wf_0 n) as [n _ IH]; intros s.
  destruct (decide (n = 0)%N) as [->|Hn]; [done|].
  rewrite pretty_N_go_step, IH by (lia || apply N.div_lt; lia).
  rewrite digits_value_char by (apply N.mod_lt; lia). f_equal.
  rewrite (N.div_mod n 10) at 3 by lia. lia.
Qed.

(** Printing and parsing a number, with leading zeros or without. *)
Lemma digits_value_pretty (n : N) : digits_value 0 (pretty n) = Some (Z.of_N n).
Proof. unfold pretty, pretty_N. case_decide as Hn; [by subst|]. apply digits_value_go. Qed.

(** [fmt.Sprintf("%02d", i)] *)
Definition pad2 (i : nat) : string :=
  let digits := pretty (N.of_nat i) in
  if (String.length digits <? 2)%nat then "0" ++ digits else digits.

Lemma pad2_inj i j : pad2 i = pad2 j → i = j.
Proof.
  assert (∀ i, digits_value 0 (pad2 i) = Some (Z.of_nat i)) as Hp.
  { intros k. unfold pad2. destruct (_ <? _)%nat.
    - change (digits_value 0 (pretty (N.of_nat k)) = Some (Z.of_nat k)). rewrite digits_value_pretty. f_equal. lia.
    - rewrite digits_value_pretty. f_equal. lia. }
  intros E. pose proof (Hp i) as Hi. rewrite E, Hp in Hi. injection Hi as Hi. lia.
Qed.
