(* ===== verification/BrokerIdentity.v ===== *)
(** The credential broker's identity boundary
    (services/credential-broker/identity/identity.go): canonical ids, the actor
    an assertion carries, and the signed assertions themselves.  Base64, JSON,
    SHA-256 and Ed25519 are operations of the class [AssertionCodec]. *)
From stdpp Require Import base gmap strings list.
From Stdlib Require Import Ascii String.
From S2P Require Import Prelude GoStrings.
Local Open Scope string_scope.

(** [^[a-z][a-z0-9_-]{0,39}$] *)
Definition ValidID (s : string) : bool :=
  match_ident is_lower
    (λ c, is_lower c || is_digit c || is_char "_" c || is_char "-" c) 39 s.

Record Actor := mkActor {
  a_PrincipalID : string;
  a_ContextID : string;
  a_RuntimeID : string;
  a_ExternalIdentityID : string;
  a_ConversationID : string;
  a_PolicyVersion : string;
  a_ContextManager : bool;
  a_BindingID : string;
  a_WorkloadID : string;
}.

(** [identity.Actor{}] *)
Definition zero_actor : Actor := mkActor "" "" "" "" "" "" false "" "".

Definition Actor_Valid (a : Actor) : bool :=
  if negb (ValidID (a_PrincipalID a)) || negb (ValidID (a_ContextID a))
     || negb (ValidID (a_RuntimeID a)) || (a_PolicyVersion a == "")
     || (128 <? len (a_PolicyVersion a))%Z
  then false
  else forallb (λ s, negb ((s != "") && negb (ValidID s)))
         [a_ExternalIdentityID a; a_ConversationID a; a_BindingID a; a_WorkloadID a].

Record Claims := mkClaims {
  c_Version : Z;
  c_KeyID : string;
  c_Issuer : string;
  c_Audience : string;
  c_IssuedAt : Z;
  c_ExpiresAt : Z;
  c_Method : string;
  c_RequestURI : string;
  c_BodySHA256 : string;
  c_Actor : Actor;
}.

Record TrustedKey := mkTrustedKey {
  k_PublicKey : string;
  k_Issuer : string;
  k_Audiences : list string;
}.

(** Both clock fields are [int64], and JSON carries valid UTF-8 only. *)
Definition actor_strings (a : Actor) : list string :=
  [a_PrincipalID a; a_ContextID a; a_RuntimeID a; a_ExternalIdentityID a;
   a_ConversationID a; a_PolicyVersion a; a_BindingID a; a_WorkloadID a].
Definition claims_strings (c : Claims) : list string :=
  [c_KeyID c; c_Issuer c; c_Audience c; c_Method c; c_RequestURI c; c_BodySHA256 c]
  ++ actor_strings (c_Actor c).
Definition claims_wf (c : Claims) : Prop :=
  in_i64 (c_IssuedAt c) ∧ in_i64 (c_ExpiresAt c) ∧
  forallb utf8_valid (claims_strings c) = true.

(** [ed25519.PrivateKey.Public]: the second half of the private key. *)
Definition ed_public (key : string) : string := String.substring 32 32 key.

(** Codecs and signatures used by [Sign] and [Verify]. [ed_new_key] is
    [ed25519.NewKeyFromSeed]: a signature verifies under the public half of a key
    made from a seed, and nothing is said of 64 bytes whose halves do not match. *)
Class AssertionCodec := {
  b64_encode : string → string;
  b64_decode : string → option string;
  claims_marshal : Claims → string;
  claims_decode : string → option Claims;
  sha256_hex : string → string;
  ed_new_key : string → string;
  ed_sign : string → string → string;
  ed_verify : string → string → string → bool;
  b64_round_trip : ∀ s, b64_decode (b64_encode s) = Some s;
  b64_no_dot : ∀ s, sep_free "." (b64_encode s) = true;
  claims_round_trip : ∀ c, claims_wf c → claims_decode (claims_marshal c) = Some c;
  claims_decode_wf : ∀ s c, claims_decode s = Some c → claims_wf c;
  ed_key_size : ∀ seed, len seed = 32%Z → len (ed_new_key seed) = 64%Z;
  ed_correct : ∀ seed m, len seed = 32%Z →
    ed_verify (ed_public (ed_new_key seed)) m (ed_sign (ed_new_key seed) m) = true;
}.

Section Assertions.
Context {AC : AssertionCodec}.

Definition Hash (body : string) : string := sha256_hex body.

Definition assertion_prefix : string := "hermes-credential-broker/assertion/v1.".

Definition with_version (v : Z) (c : Claims) : Claims :=
  mkClaims v (c_KeyID c) (c_Issuer c) (c_Audience c) (c_IssuedAt c) (c_ExpiresAt c)
    (c_Method c) (c_RequestURI c) (c_BodySHA256 c) (c_Actor c).

(** [Sign]: [None] is [ErrUnauthorized]. *)
Definition Sign (key : string) (c : Claims) : option string :=
  if (len key != 64%Z) || negb (Actor_Valid (c_Actor c)) then None
  else
    let c := with_version 1 c in
    let payload := b64_encode (claims_marshal c) in
    let sig := ed_sign key (assertion_prefix ++ payload) in
    Some (payload ++ "." ++ b64_encode sig).

(** The checks of [Verify] on the decoded claims, at clock [now] (seconds). *)
Definition claims_acceptable (k : TrustedKey) (c : Claims) (audience : string) (now : Z) : bool :=
  negb ((c_Version c != 1%Z) || (c_Issuer c != k_Issuer k) || (c_Audience c != audience)
        || (c_ExpiresAt c <=? now)%Z
        || (i64 (now + 5) <? c_IssuedAt c)%Z
        || (c_ExpiresAt c <=? c_IssuedAt c)%Z
        || (120 <? i64 (c_ExpiresAt c - c_IssuedAt c))%Z
        || (c_IssuedAt c <? i64 (now - 120))%Z).

(** [Verify]: [None] is [ErrUnauthorized]; [now] is [now.Unix()]. *)
Definition Verify (keys : gmap string TrustedKey) (now : Z)
    (token audience method uri body : string) : option Actor :=
  if (4096 <? len token)%Z then None
  else
    match split_on "." token with
    | [p0; p1] =>
        payload ← b64_decode p0;
        sig ← b64_decode p1;
        c ← claims_decode payload;
        k ← keys !! c_KeyID c;
        if (len (k_PublicKey k) != 32%Z) || negb (existsb (λ x, x == audience) (k_Audiences k))
        then None
        else if negb (ed_verify (k_PublicKey k) (assertion_prefix ++ p0) sig) then None
        else if negb (claims_acceptable k c audience now) then None
        else if (c_Method c != method) || (c_RequestURI c != uri)
                || (c_BodySHA256 c != Hash body) || negb (Actor_Valid (c_Actor c)) then None
        else if (audience == "broker:runtime")
                && (negb (ValidID (a_BindingID (c_Actor c)))
                    || negb (ValidID (a_WorkloadID (c_Actor c)))) then None
        else Some (c_Actor c)
    | _ => None
    end.
End Assertions.

Section AssertionFacts.
Context {AC : AssertionCodec}.

Lemma claims_acceptable_window k c audience now :
  claims_wf c → (120 ≤ now < 2 ^ 62)%Z →
  claims_acceptable k c audience now = true →
  (c_ExpiresAt c - c_IssuedAt c ≤ 120 ∧ c_IssuedAt c - 5 ≤ now ∧
   now < c_ExpiresAt c ∧ now - 120 ≤ c_IssuedAt c)%Z.
Proof.
  intros (Hi & He & _) Hnow. unfold claims_acceptable.
  intros H%negb_true_iff.
  repeat match goal with H : _ || _ = false |- _ => apply orb_false_iff in H as [H ?] end.
  rewrite ?Z.leb_gt, ?Z.ltb_ge in *.
  go_int. lia.
Qed.

Lemma Verify_inv keys now token audience method uri body a :
  Verify keys now token audience method uri body = Some a →
  ∃ p0 p1 payload sig c k,
    split_on "." token = [p0; p1] ∧
    b64_decode p0 = Some payload ∧ b64_decode p1 = Some sig ∧
    claims_decode payload = Some c ∧ keys !! c_KeyID c = Some k ∧
    audience ∈ k_Audiences k ∧
    ed_verify (k_PublicKey k) (assertion_prefix ++ p0) sig = true ∧
    claims_acceptable k c audience now = true ∧
    c_Method c = method ∧ c_RequestURI c = uri ∧ c_BodySHA256 c = Hash body ∧
    Actor_Valid a = true ∧ c_Actor c = a ∧
    (audience = "broker:runtime" → ValidID (a_BindingID a) = true ∧ ValidID (a_WorkloadID a) = true).
Proof.
  unfold Verify. case_match; [done|].
  destruct (split_on "." token) as [|p0 [|p1 [|]]] eqn:Hsplit; try done.
  destruct (b64_decode p0) as [payload|] eqn:Hp0; simpl; [|done].
  destruct (b64_decode p1) as [sig|] eqn:Hp1; simpl; [|done].
  destruct (claims_decode payload) as [c|] eqn:Hc; simpl; [|done].
  destruct (keys !! c_KeyID c) as [k|] eqn:Hk; simpl; [|done].
  destruct (_ || negb (existsb _ _)) eqn:Haud; [done|].
  destruct (ed_verify _ _ _) eqn:Hsig; simpl; [|done].
  destruct (claims_acceptable _ _ _ _) eqn:Hacc; simpl; [|done].
  destruct (_ || _ || _ || negb _) eqn:Hbind; [done|].
  destruct (_ && _) eqn:Hrt; [done|]. intros [= <-].
  apply orb_false_iff in Haud as [_ (x & Hx & ->%bool_decide_eq_true)%negb_false_iff%existsb_exists].
  repeat (apply orb_false_iff in Hbind as [Hbind ?]).
  repeat match goal with H : negb _ = false |- _ => apply negb_false_iff in H end.
  repeat match goal with H : bool_decide _ = true |- _ => apply bool_decide_eq_true in H end.
  exists p0, p1, payload, sig, c, k. apply list_elem_of_In in Hx.
  repeat (split; [done|]). intros ->.
  rewrite bool_decide_eq_true_2 in Hrt by done. simpl in Hrt.
  apply orb_false_iff in Hrt as [? ?]. by split; apply negb_false_iff.
Qed.
End AssertionFacts.
