(* ===== verification/Contract.v ===== *)
(** Credential contracts (services/credential-broker/contract/contract.go and
    internal/strictjson/json.go): what a reviewed contract may declare, which
    submitted values match it, which proxied paths a route admits and when two
    contracts collect the same input.

    A method that returns [error] with one possible value is a [bool] here,
    [true] for [nil].  Go maps used as sets are [gset string].  The URL, JSON,
    PEM and X.509 parsers are operations of the class [Codecs]. *)
From stdpp Require Import base gmap strings list sorting.
From Stdlib Require Import Ascii String.
From S2P Require Import Prelude GoStrings BrokerIdentity.
Local Open Scope string_scope.

(** * Strict JSON *)

Unset Elimination Schemes.
Inductive Json :=
  | JScalar
  | JObject (members : list (string * Json))
  | JArray (items : list Json).
Set Elimination Schemes.

(** [strictjson.value]: refuses depth over 32 and repeated member names. *)
Fixpoint json_value (depth : nat) (j : Json) : bool :=
  (depth <=? 32)%nat &&
  match j with
  | JScalar => true
  | JObject ms =>
      (fix members (seen : gset string) (ms : list (string * Json)) : bool :=
         match ms with
         | [] => true
         | (k, v) :: ms' =>
             negb (bool_decide (k ∈ seen)) && json_value (S depth) v && members ({[k]} ∪ seen) ms'
         end) ∅ ms
  | JArray js =>
      (fix items (js : list Json) : bool :=
         match js with
         | [] => true
         | v :: js' => json_value (S depth) v && items js'
         end) js
  end.

(** The parts of [url.URL] the code reads. *)
Record URL := mkURL {
  u_Scheme : string;
  u_Hostname : string;
  u_HasUser : bool;
  u_RawQuery : string;
  u_Fragment : string;
  u_Path : string;
  u_RawPath : string;
}.

Record PemBlock := mkPem { pem_Type : string; pem_Headers : nat; pem_Bytes : string }.

Class Codecs := {
  url_parse : string → option URL;
  (** one JSON value read by [json.Decoder], and whether EOF follows it *)
  json_read : string → option (Json * bool);
  pem_decode : string → option (PemBlock * string);
  x509_pkcs8 : string → bool;
  x509_pkcs1 : string → bool;
  x509_ec : string → bool;
  x509_cert : string → bool;
}.

(** [strictjson.Valid] *)
Definition strictjson_Valid {C : Codecs} (data : string) : bool :=
  utf8_valid data &&
  match json_read data with
  | Some (j, eof) => json_value 0 j && eof
  | None => false
  end.

(** * The contract types *)

Record Field := mkField {
  f_ID : string;
  f_Label : string;
  f_LabelI18n : gmap string string;
  f_Kind : string;
  f_Required : bool;
  f_MaxBytes : Z;
}.

Record Delivery := mkDelivery {
  d_Type : string;
  d_Field : string;
  d_Target : string;
  d_EnvName : string;
  d_Mapping : gmap string string;
}.

Record StateFile := mkStateFile { sf_Name : string; sf_MaxBytes : Z; sf_JSON : bool }.
Record CState := mkCState { st_Target : string; st_Files : list StateFile }.

Record Route := mkRoute {
  r_ID : string;
  r_BaseURL : string;
  r_PathPrefixes : list string;
  r_Methods : list string;
  r_Auth : string;
  r_Field : string;
  r_PasswordField : string;
  r_Header : string;
  r_StaticHeaders : gmap string string;
}.

Record Contract := mkContract {
  ct_ID : string;
  ct_Revision : Z;
  ct_Title : string;
  ct_Storage : string;
  ct_Fields : list Field;
  ct_Deliveries : list Delivery;
  ct_State : option CState;
  ct_Routes : list Route;
  ct_OAuthProvider : string;
  ct_Intake : string;
  ct_AllowShared : bool;
  ct_TitleI18n : gmap string string;
}.

Record Extra := mkExtra { ex_Fields : list Field; ex_Deliveries : list Delivery }.

Definition MaxBundle : Z := (256 * 1024)%Z.
Definition MaxExtraInputs : Z := 64%Z.

(** * Patterns *)

(** [^[a-z][a-z0-9_]{0,39}$] *)
Definition fieldID (s : string) : bool :=
  match_ident is_lower (λ c, is_lower c || is_digit c || is_char "_" c) 39 s.
(** [^[A-Z][A-Z0-9_]{0,79}$] *)
Definition envName (s : string) : bool :=
  match_ident is_upper (λ c, is_upper c || is_digit c || is_char "_" c) 79 s.
Definition is_alnum (c : ascii) : bool := is_lower c || is_upper c || is_digit c.
(** [^[a-zA-Z0-9_][a-zA-Z0-9_.-]{0,79}$] *)
Definition stateName (s : string) : bool :=
  match_ident (λ c, is_alnum c || is_char "_" c)
    (λ c, is_alnum c || is_char "_" c || is_char "." c || is_char "-" c) 79 s.
(** [^[a-z]{2,8}(-[A-Za-z0-9]{1,8}){0,3}$] *)
Definition i18nTag (s : string) : bool :=
  match split_on "-" s with
  | [] => false
  | h :: t =>
      str_forallb is_lower h && (2 <=? String.length h)%nat && (String.length h <=? 8)%nat
      && (List.length t <=? 3)%nat
      && forallb (λ p, str_forallb is_alnum p && (1 <=? String.length p)%nat
                       && (String.length p <=? 8)%nat) t
  end.

(** [for k, v := range m] where every pair must pass. *)
Definition map_forallb {V} (p : string → V → bool) (m : gmap string V) : bool :=
  forallb (λ kv, p kv.1 kv.2) (map_to_list m).

Definition validI18n (table : gmap string string) : bool :=
  negb (8 <? Z.of_nat (size table))%Z &&
  map_forallb (λ tag text,
    negb (negb (i18nTag tag) || (len text =? 0)%Z || (240 <? len text)%Z)) table.

Definition Localize `{Unicode} (table : gmap string string) (lang base : string) : string :=
  let lang := ToLower (TrimSpace lang) in
  let hit k := match table !! k with Some text => if text == "" then None else Some text | None => None end in
  match hit lang with
  | Some text => text
  | None =>
      match before_any (λ c, is_char "-" c || is_char "_" c) lang with
      | Some short => match hit short with Some text => text | None => base end
      | None => base
      end
  end.

Definition TitleFor `{Unicode} (c : Contract) (lang : string) : string :=
  Localize (ct_TitleI18n c) lang (ct_Title c).
Definition LabelFor `{Unicode} (f : Field) (lang : string) : string :=
  Localize (f_LabelI18n f) lang (f_Label f).

(** * Safe paths and headers *)

Definition backslash : ascii := ascii_of_nat 92.

Definition SafeTarget (s : string) : bool :=
  if negb (HasPrefix s "/") || (path_Clean s != s) || (s == "/")
     || ContainsAny s (String backslash (String NUL (String CR (String LF ""))))
  then false
  else if existsb (λ p, (s == p) || HasPrefix s (p ++ "/"))
            ["/proc"; "/sys"; "/dev"; "/etc"; "/bin"; "/sbin"; "/usr"; "/var/run"]
  then false
  else (len s <=? 240)%Z.

Definition SafeRelative (p : string) : bool :=
  if negb (HasPrefix p "/") || HasPrefix p "//"
     || ContainsAny p (String backslash (String NUL (String CR (String LF "%?#"))))
     || (path_Clean p != p)
  then false
  else (len p <=? 2048)%Z.

Definition HeaderName (s : string) : bool :=
  if (s == "") || (80 <? len s)%Z then false
  else str_forallb (λ c, is_alnum c || is_char "-" c) s.

Definition forbiddenHeader `{Unicode} (h : string) : bool :=
  existsb (λ x, x == ToLower h)
    ["host"; "connection"; "proxy-authorization"; "proxy-authenticate"; "cookie"; "set-cookie";
     "transfer-encoding"; "content-length"; "upgrade"; "trailer"; "te"]
  || HasPrefix (ToLower h) "x-forwarded-".

(** * Validation *)

Definition field_kinds : list string := ["secret"; "string"; "json"; "pem"; "blob"].
Definition str_in (l : list string) (s : string) : bool := existsb (λ x, x == s) l.

Lemma str_in_elem l s : str_in l s = true ↔ s ∈ l.
Proof.
  unfold str_in. rewrite existsb_exists. setoid_rewrite <-list_elem_of_In.
  setoid_rewrite bool_decide_eq_true. naive_solver.
Qed.

(** The per-field rule shared by [ValidateStructure] and [Extra.Validate]. *)
Definition field_rule (fields : gset string) (f : Field) : bool :=
  negb (negb (fieldID (f_ID f)) || (f_ID f == "csrf") || bool_decide (f_ID f ∈ fields)
        || (len (f_Label f) =? 0)%Z || (120 <? len (f_Label f))%Z
        || (f_MaxBytes f <? 1)%Z || (65536 <? f_MaxBytes f)%Z
        || negb (str_in field_kinds (f_Kind f)) || negb (validI18n (f_LabelI18n f))).

(** [for _, f := range c.Fields { if bad { return ErrContract }; fields[f.ID] = true }] *)
Fixpoint fields_loop (rule : gset string → Field → bool) (fields : gset string)
    (l : list Field) : option (gset string) :=
  match l with
  | [] => Some fields
  | f :: l' => if rule fields f then fields_loop rule ({[f_ID f]} ∪ fields) l' else None
  end.

Fixpoint extra_deliveries (targets fields : gset string) (l : list Delivery) : option (gset string) :=
  match l with
  | [] => Some fields
  | d :: l' =>
      if (d_Type d != "env") || negb (envName (d_Target d)) || bool_decide (d_Target d ∈ targets)
         || negb (bool_decide (d_Field d ∈ fields)) || (d_EnvName d != "")
         || bool_decide (d_Mapping d ≠ ∅)
      then None
      else extra_deliveries ({[d_Target d]} ∪ targets) (fields ∖ {[d_Field d]}) l'
  end.

(** [Extra.Validate] on a non-nil receiver. *)
Definition Extra_Validate (e : Extra) : bool :=
  if (MaxExtraInputs <? Z.of_nat (List.length (ex_Fields e)))%Z
     || (MaxExtraInputs <? Z.of_nat (List.length (ex_Deliveries e)))%Z then false
  else
    match fields_loop (λ fields f, negb (f_Required f) && field_rule fields f) ∅ (ex_Fields e) with
    | None => false
    | Some fields =>
        match extra_deliveries ∅ fields (ex_Deliveries e) with
        | None => false
        | Some undelivered => bool_decide (undelivered = ∅)
        end
    end.

(** The [switch d.Type] of [ValidateStructure]. *)
Definition delivery_rule (fields : gset string) (d : Delivery) : bool :=
  if d_Type d == "env" then
    negb (negb (envName (d_Target d)) || negb (bool_decide (d_Field d ∈ fields))
          || (d_EnvName d != "") || bool_decide (d_Mapping d ≠ ∅))
  else if d_Type d == "file" then
    negb (negb (SafeTarget (d_Target d)) || negb (bool_decide (d_Field d ∈ fields))
          || bool_decide (d_Mapping d ≠ ∅))
  else if d_Type d == "json_file" then
    negb (negb (SafeTarget (d_Target d)) || (d_Field d != "") || bool_decide (d_Mapping d = ∅)
          || (32 <? Z.of_nat (size (d_Mapping d)))%Z)
    && map_forallb (λ k v, negb ((len k =? 0)%Z || (80 <? len k)%Z
                                 || negb (bool_decide (v ∈ fields)))) (d_Mapping d)
  else false.

Fixpoint deliveries_loop (fields targets : gset string) (l : list Delivery) : option (gset string) :=
  match l with
  | [] => Some targets
  | d :: l' =>
      if bool_decide (d_Target d ∈ targets) then None
      else
        let targets := {[d_Target d]} ∪ targets in
        if negb (delivery_rule fields d) then None
        else if (d_EnvName d != "")
                && (negb (envName (d_EnvName d)) || bool_decide (d_EnvName d ∈ targets)) then None
        else
          let targets := if d_EnvName d != "" then {[d_EnvName d]} ∪ targets else targets in
          deliveries_loop fields targets l'
  end.

Fixpoint state_files_loop (names : gset string) (l : list StateFile) : bool :=
  match l with
  | [] => true
  | f :: l' =>
      if negb (stateName (sf_Name f)) || Contains (sf_Name f) ".."
         || bool_decide (sf_Name f ∈ names)
         || (sf_MaxBytes f <? 1)%Z || (65536 <? sf_MaxBytes f)%Z then false
      else state_files_loop ({[sf_Name f]} ∪ names) l'
  end.

Definition state_rule (c : Contract) (targets : gset string) (st : CState) : bool :=
  if negb (SafeTarget (st_Target st)) || (Z.of_nat (List.length (st_Files st)) =? 0)%Z
     || (16 <? Z.of_nat (List.length (st_Files st)))%Z || ct_AllowShared c then false
  else if negb (state_files_loop ∅ (st_Files st)) then false
  else forallb (λ t, negb ((t == st_Target st) || HasPrefix t (st_Target st ++ "/")))
         (elements targets).

Definition http_methods : list string := ["GET"; "HEAD"; "POST"; "PUT"; "PATCH"; "DELETE"].

Section Validate.
Context `{Codecs} `{Unicode}.

Definition url_rule (r : Route) : bool :=
  match url_parse (r_BaseURL r) with
  | None => false
  | Some u =>
      negb ((u_Scheme u != "https") || (u_Hostname u == "") || u_HasUser u
            || (u_RawQuery u != "") || (u_Fragment u != "") || (u_RawPath u != "")
            || ((u_Path u != "") && (u_Path u != "/")) || HasSuffix (u_Hostname u) ".")
  end.

(** The [switch r.Auth] of [ValidateStructure]. *)
Definition auth_rule (c : Contract) (fields : gset string) (r : Route) : bool :=
  if r_Auth r == "bearer" then bool_decide (r_Field r ∈ fields)
  else if r_Auth r == "header" then
    negb (negb (bool_decide (r_Field r ∈ fields)) || negb (HeaderName (r_Header r))
          || forbiddenHeader (r_Header r))
  else if (r_Auth r == "basic") || (r_Auth r == "mtls") then
    bool_decide (r_Field r ∈ fields) && bool_decide (r_PasswordField r ∈ fields)
  else if r_Auth r == "oauth2" then ct_OAuthProvider c != ""
  else false.

Fixpoint routes_loop (c : Contract) (fields routeIDs : gset string) (l : list Route) : bool :=
  match l with
  | [] => true
  | r :: l' =>
      if negb (url_rule r) || bool_decide (r_ID r ∈ routeIDs) || negb (ValidID (r_ID r)) then false
      else if (Z.of_nat (List.length (r_PathPrefixes r)) =? 0)%Z
              || (16 <? Z.of_nat (List.length (r_PathPrefixes r)))%Z
              || (Z.of_nat (List.length (r_Methods r)) =? 0)%Z then false
      else if negb (forallb SafeRelative (r_PathPrefixes r)) then false
      else if negb (forallb (str_in http_methods) (r_Methods r)) then false
      else if negb (auth_rule c fields r) then false
      else if negb (map_forallb (λ k v,
                negb (negb (HeaderName k) || forbiddenHeader k || EqualFold k "Authorization"
                      || EqualFold k (r_Header r) || ContainsAny v crlfnul
                      || (1024 <? len v)%Z)) (r_StaticHeaders r)) then false
      else routes_loop c fields ({[r_ID r]} ∪ routeIDs) l'
  end.

Definition ValidateStructure (c : Contract) : bool :=
  if negb (ValidID (ct_ID c)) || (ct_Revision c <? 1)%Z || (100000 <? ct_Revision c)%Z
     || (len (ct_Title c) =? 0)%Z || (120 <? len (ct_Title c))%Z
     || negb (ValidID (ct_Storage c)) || negb (validI18n (ct_TitleI18n c)) then false
  else
    match fields_loop field_rule ∅ (ct_Fields c) with
    | None => false
    | Some fields =>
        if (ct_OAuthProvider c != "") && negb (ValidID (ct_OAuthProvider c)) then false
        else if (ct_Intake c != "") && (ct_Intake c != "telegram_qr") then false
        else if (Z.of_nat (List.length (ct_Fields c)) =? 0)%Z && (ct_OAuthProvider c == "") then false
        else
          match deliveries_loop fields ∅ (ct_Deliveries c) with
          | None => false
          | Some targets =>
              match ct_State c with
              | Some st => state_rule c targets st
              | None => true
              end && routes_loop c fields ∅ (ct_Routes c)
          end
    end.

Definition Validate (c : Contract) : bool :=
  if (32 <? Z.of_nat (List.length (ct_Fields c)))%Z
     || (32 <? Z.of_nat (List.length (ct_Deliveries c)))%Z
     || (8 <? Z.of_nat (List.length (ct_Routes c)))%Z then false
  else ValidateStructure c.

(** The [switch f.Kind] of [ValidateValues]. *)
Definition value_kind_ok (kind v : string) : bool :=
  if (kind == "secret") || (kind == "string") then
    negb (negb (utf8_valid v) || ContainsAny v (String NUL (String CR (String LF ""))))
  else if kind == "json" then
    negb (negb (strictjson_Valid v) || (TrimSpace v == "null"))
  else if kind == "pem" then
    match pem_decode v with
    | None => false
    | Some (b, rest) =>
        if (TrimSpace rest != "") || (0 <? pem_Headers b)%nat then false
        else if pem_Type b == "PRIVATE KEY" then x509_pkcs8 (pem_Bytes b)
        else if pem_Type b == "RSA PRIVATE KEY" then x509_pkcs1 (pem_Bytes b)
        else if pem_Type b == "EC PRIVATE KEY" then x509_ec (pem_Bytes b)
        else if pem_Type b == "CERTIFICATE" then x509_cert (pem_Bytes b)
        else false
    end
  else true.

(** The loop over [c.Fields]: [None] is [ErrValues], else [total] and [known]. *)
Fixpoint values_loop (values : gmap string string) (total : Z) (known : gset string)
    (l : list Field) : option (Z * gset string) :=
  match l with
  | [] => Some (total, known)
  | f :: l' =>
      let v := default "" (values !! f_ID f) in
      let known := {[f_ID f]} ∪ known in
      let total := (total + len v)%Z in
      if bool_decide (values !! f_ID f = None) || (len v =? 0)%Z then
        if f_Required f then None else values_loop values total known l'
      else if (f_MaxBytes f <? len v)%Z then None
      else if negb (value_kind_ok (f_Kind f) v) then None
      else values_loop values total known l'
  end.

Definition ValidateValues (c : Contract) (values : gmap string string) : bool :=
  if (Z.of_nat (List.length (ct_Fields c)) <? Z.of_nat (size values))%Z then false
  else
    match values_loop values 0 ∅ (ct_Fields c) with
    | None => false
    | Some (total, known) =>
        if negb (map_forallb (λ k _, bool_decide (k ∈ known)) values) then false
        else if (MaxBundle <? total)%Z then false
        else forallb (λ d, negb ((d_Type d == "env")
               && str_existsb (is_char NUL) (default "" (values !! d_Field d)))) (ct_Deliveries c)
    end.
End Validate.

(** [Route.Allows] *)
Definition Allows (r : Route) (method p : string) : bool :=
  if negb (str_in (r_Methods r) method) || negb (SafeRelative p) then false
  else existsb (λ prefix, (prefix == "/") || (p == prefix) || HasPrefix p (prefix ++ "/"))
         (r_PathPrefixes r).

(** * Compatibility *)

Definition str_le (a b : string) : Prop := String.leb a b = true.
Global Instance str_le_dec : RelDecision str_le := λ a b, decide (String.leb a b = true).

(** [slices.SortFunc(fs, by ID)]: field ids of a contract are distinct, so every
    sorting algorithm gives this list. *)
Definition field_le (x y : Field) : Prop := str_le (f_ID x) (f_ID y).
Global Instance field_le_dec : RelDecision field_le := λ x y, str_le_dec (f_ID x) (f_ID y).

Definition same_field (x y : Field) : bool :=
  (f_ID x == f_ID y) && (f_Kind x == f_Kind y) && Bool.eqb (f_Required x) (f_Required y)
  && (f_MaxBytes x =? f_MaxBytes y)%Z.

Fixpoint same_fields (l1 l2 : list Field) : bool :=
  match l1, l2 with
  | [], [] => true
  | x :: l1', y :: l2' => same_field x y && same_fields l1' l2'
  | _, _ => false
  end.

Definition Compatible (a b : Contract) : bool :=
  if (ct_OAuthProvider a != ct_OAuthProvider b)
     || negb (List.length (ct_Fields a) =? List.length (ct_Fields b))%nat then false
  else same_fields (merge_sort field_le (ct_Fields a)) (merge_sort field_le (ct_Fields b)).
