(* ===== verification/ContractProps.v ===== *)
(** What signed assertions, contract validation, routes and bundles guarantee
    (identity/identity.go, contract/contract.go). *)
From stdpp Require Import base gmap strings list sorting.
From Stdlib Require Import Ascii String.
From S2P Require Import Prelude GoStrings BrokerIdentity Contract.
Local Open Scope string_scope.

(** * Assertions *)

Section Assertions.
Context {AC : AssertionCodec}.

Lemma split_on_once p q :
  sep_free "." p = true → sep_free "." q = true → split_on "." (p ++ "." ++ q) = [p; q].
Proof.
  intros Hp Hq. change (p ++ "." ++ q) with (p ++ String "." q).
  rewrite split_on_app_sep by done. by rewrite split_on_free_id.
Qed.

Lemma length_substring_all n m s : (n + m ≤ String.length s)%nat → String.length (String.substring n m s) = m.
Proof.
  revert n m. induction s as [|c s IH]; intros [|n] [|m] Hl; simpl in *; try done; try lia;
    rewrite IH; lia.
Qed.

Lemma ed_public_size seed : len seed = 32%Z → len (ed_public (ed_new_key seed)) = 32%Z.
Proof.
  intros Hs%ed_key_size. unfold len, ed_public in *. rewrite length_substring_all; [done|lia].
Qed.

(** Claims in their time window, for the issuer and the audience of the key. *)
Lemma claims_acceptable_in_window k c now :
  claims_wf c → (120 ≤ now < 2 ^ 62)%Z → c_Version c = 1%Z → c_Issuer c = k_Issuer k →
  (c_IssuedAt c - 5 ≤ now < c_ExpiresAt c)%Z → (now - 120 ≤ c_IssuedAt c)%Z →
  (0 < c_ExpiresAt c - c_IssuedAt c ≤ 120)%Z →
  claims_acceptable k c (c_Audience c) now = true.
Proof.
  intros (Hi & He & _) Hnow Hv Hiss Hw Hold Hlife. unfold claims_acceptable.
  rewrite Hv, Hiss, !bool_decide_eq_true_2 by done. simpl. apply negb_true_iff. go_int.
  repeat (apply orb_false_iff; split); rewrite ?Z.leb_gt, ?Z.ltb_ge; lia.
Qed.

(** C27. What the hub signs the broker accepts. With a signing key made from a
    32-byte seed, claims for a valid actor can be signed; and when the broker
    holds the public half of that key for the claims' key id, issuer and
    audience, the clock is within the claims' window (issued at most 5 seconds
    ahead and at most 120 seconds ago, not expired, lifetime at most 120 seconds),
    the request is the one the claims name, and on the runtime audience the actor
    names a binding and a workload, the assertion (of at most 4096 bytes) verifies
    to that actor. *)
Theorem signed_assertion_verifies seed c k keys body now :
  len seed = 32%Z → claims_wf c → Actor_Valid (c_Actor c) = true →
  keys !! c_KeyID c = Some k → k_PublicKey k = ed_public (ed_new_key seed) →
  k_Issuer k = c_Issuer c → c_Audience c ∈ k_Audiences k →
  (120 ≤ now < 2 ^ 62)%Z → (c_IssuedAt c - 5 ≤ now < c_ExpiresAt c)%Z → (now - 120 ≤ c_IssuedAt c)%Z →
  (0 < c_ExpiresAt c - c_IssuedAt c ≤ 120)%Z →
  c_BodySHA256 c = Hash body →
  (c_Audience c = "broker:runtime" →
    ValidID (a_BindingID (c_Actor c)) = true ∧ ValidID (a_WorkloadID (c_Actor c)) = true) →
  ∃ token, Sign (ed_new_key seed) c = Some token ∧
    ((len token ≤ 4096)%Z →
     Verify keys now token (c_Audience c) (c_Method c) (c_RequestURI c) body = Some (c_Actor c)).
Proof.
  intros Hseed Hwf Hact Hk Hpub Hiss Haud Hnow Hw Hold Hlife Hb Hrt. unfold Sign.
  rewrite (ed_key_size _ Hseed), Hact. simpl. eexists. split; [reflexivity|]. intros Hlen. unfold Verify.
  assert (Hwf' : claims_wf (with_version 1 c)) by done.
  destruct (4096 <? _)%Z eqn:Hl; [guards; lia|].
  rewrite split_on_once by apply b64_no_dot. rewrite !b64_round_trip. simpl.
  rewrite (claims_round_trip _ Hwf'). simpl. rewrite Hk. simpl. rewrite Hpub, (ed_public_size _ Hseed).
  assert (Hex : existsb (λ x, x == c_Audience c) (k_Audiences k) = true).
  { apply existsb_exists. exists (c_Audience c). split; [by apply list_elem_of_In|]. by apply bool_decide_eq_true. }
  rewrite Hex, (ed_correct _ _ Hseed).
  assert (Hacc : claims_acceptable k (with_version 1 c) (c_Audience c) now = true).
  { by apply (claims_acceptable_in_window k (with_version 1 c)). }
  rewrite Hacc, Hb, Hact, !bool_decide_eq_true_2 by done. simpl.
  destruct (c_Audience c == "broker:runtime") eqn:Hr; guards; [|done].
  destruct (Hrt Hr) as [-> ->]. done.
Qed.

(** C28. An assertion is good for one request and a short time: it names the
    method, the URI and the body it was signed for, its actor is well formed, on
    the runtime audience its actor names a binding and a workload, and two moments
    at which the same token verifies are at most 124 seconds apart. *)
Theorem assertion_bound_and_short keys token aud aud' method method' uri uri' body body' a a' now now' :
  (120 ≤ now < 2 ^ 62)%Z → (120 ≤ now' < 2 ^ 62)%Z →
  Verify keys now token aud method uri body = Some a →
  Verify keys now' token aud' method' uri' body' = Some a' →
  a = a' ∧ aud = aud' ∧ method = method' ∧ uri = uri' ∧ Hash body = Hash body' ∧
  Actor_Valid a = true ∧
  (aud = "broker:runtime" → ValidID (a_BindingID a) = true ∧ ValidID (a_WorkloadID a) = true) ∧
  (Z.abs (now - now') ≤ 124)%Z.
Proof.
  intros Hn Hn' H1 H2.
  apply Verify_inv in H1 as (p0 & p1 & pl & sg & c & k & Hs & Hp & _ & Hc & Hk & _ & _ & Hacc & Hm & Hu & Hb & Hv & Ha & Hrt).
  apply Verify_inv in H2 as (q0 & q1 & pl' & sg' & c' & k' & Hs' & Hp' & _ & Hc' & Hk' & _ & _ & Hacc' & Hm' & Hu' & Hb' & Hv' & Ha' & _).
  rewrite Hs in Hs'. injection Hs' as <- <-. rewrite Hp in Hp'. injection Hp' as <-.
  rewrite Hc in Hc'. injection Hc' as <-. rewrite Hk in Hk'. injection Hk' as <-.
  pose proof (claims_decode_wf _ _ Hc) as Hwf.
  pose proof (claims_acceptable_window _ _ _ _ Hwf Hn Hacc).
  pose proof (claims_acceptable_window _ _ _ _ Hwf Hn' Hacc').
  unfold claims_acceptable in Hacc, Hacc'. guards. split_and!; try done; try congruence. lia.
Qed.
End Assertions.

(** * Paths and routes *)

Lemma split_on_app x a b :
  split_on x (a ++ String x b) = (split_on x a ++ split_on x b)%list.
Proof.
  induction a as [|c a IH]; simpl.
  - unfold is_char. by rewrite bool_decide_eq_true_2.
  - destruct (is_char x c); [by rewrite IH|]. rewrite IH.
    destruct (split_on_cons x a) as (h & t & ->). done.
Qed.

(** A route lets through only what its prefixes name, segment by segment:
      the method is one of the route's, the path has no [..] segment, and its
      segments start with those of one of the configured prefixes (which the root
      prefix [/] does for every path). *)
Theorem route_allows_segments r method p :
  Allows r method p = true →
  method ∈ r_Methods r ∧ (".." ∉ split_on "/" p) ∧
  ∃ prefix, prefix ∈ r_PathPrefixes r ∧
    (prefix = "/" ∨ split_on "/" prefix `prefix_of` split_on "/" p).
Proof.
  unfold Allows. intros Hall. destruct (_ || _) eqn:Hg; [done|]. guards.
  split; [by apply str_in_elem|]. rename select (SafeRelative p = true) into Hsafe.
  unfold SafeRelative in Hsafe. destruct (_ || _) eqn:Hs in Hsafe; [done|]. guards.
  split; [by apply path_Clean_no_dotdot|].
  apply existsb_exists in Hall as (prefix & Hin%list_elem_of_In & Hp). exists prefix. split; [done|].
  apply orb_true_iff in Hp as [Hp|Hp]; [apply orb_true_iff in Hp as [Hp|Hp]; guards|].
  - by left.
  - right. by subst.
  - right. apply prefix_split in Hp as [rest ->].
    exists (split_on "/" rest). rewrite <-split_on_app. f_equal.
    by rewrite append_assoc.
Qed.

(** The trees no file may be delivered into. *)
Definition protected_trees : list string :=
  ["/proc"; "/sys"; "/dev"; "/etc"; "/bin"; "/sbin"; "/usr"; "/var/run"].

Lemma concat_split x s : String.concat (String x "") (split_on x s) = s.
Proof.
  induction s as [|c s IH]; [done|]. cbn [split_on]. destruct (split_on_cons x s) as (h & t & Heq).
  rewrite Heq in *. destruct (is_char x c) eqn:Hc.
  - unfold is_char in Hc. guards. subst c.
    change (String.concat (String x "") ("" :: h :: t)) with (String x (String.concat (String x "") (h :: t))).
    by rewrite IH.
  - destruct t as [|h' t].
    + change (String c h = String c s). f_equal. exact IH.
    + change (String.concat (String x "") (String c h :: h' :: t))
        with (String c (String.concat (String x "") (h :: h' :: t))). by rewrite IH.
Qed.

Lemma concat_app_ne sep l1 l2 :
  l1 ≠ [] → l2 ≠ [] →
  String.concat sep (l1 ++ l2)%list = String.concat sep l1 ++ sep ++ String.concat sep l2.
Proof.
  intros H1 H2. induction l1 as [|a l1 IH]; [done|]. destruct l1 as [|b l1].
  - destruct l2; done.
  - change (a ++ sep ++ String.concat sep ((b :: l1) ++ l2)%list
      = (a ++ sep ++ String.concat sep (b :: l1)) ++ sep ++ String.concat sep l2).
    rewrite IH by done. by rewrite !append_assoc.
Qed.

Lemma SafeTarget_spec s :
  SafeTarget s = true →
  (".." ∉ split_on "/" s) ∧
  ∀ t, t ∈ protected_trees → ¬ split_on "/" t `prefix_of` split_on "/" s.
Proof.
  unfold SafeTarget. intros Hs. destruct (_ || _) eqn:Hg; [done|]. guards.
  split; [by apply path_Clean_no_dotdot|]. intros t Ht [rest Hpre].
  destruct (existsb _ _) eqn:Hex; [done|]. apply not_true_iff_false in Hex. apply Hex. clear Hex.
  apply existsb_exists. exists t. split; [by apply list_elem_of_In|]. apply orb_true_iff.
  assert (Hss : s = String.concat "/" (split_on "/" t ++ rest)%list) by (rewrite <-Hpre; symmetry; apply concat_split).
  destruct rest as [|h rest].
  - left. rewrite app_nil_r, concat_split in Hss. by apply bool_decide_eq_true.
  - right. destruct (split_on_cons "/" t) as (h' & t' & Heq).
    rewrite concat_app_ne in Hss; [|by rewrite Heq|done].
    change "/" with (String "/" "") in Hss at 1. rewrite concat_split in Hss.
    rewrite Hss, <-append_assoc. apply prefix_append.
Qed.

(** * Deliveries *)

Lemma fields_loop_spec rule l fields fields' :
  fields_loop rule fields l = Some fields' → (∀ s f, rule s f = true → f_ID f ∉ s) →
  NoDup (map f_ID l) ∧ (∀ f, f ∈ l → f_ID f ∉ fields) ∧ fields' = fields ∪ list_to_set (map f_ID l) ∧
  ∀ f, f ∈ l → ∃ s, rule s f = true.
Proof.
  intros Hl Hrule. revert fields Hl. induction l as [|f l IH]; intros fields Hl; simpl in *.
  { simplify_eq. split_and!; [constructor|set_solver|set_solver|set_solver]. }
  destruct (rule fields f) eqn:Hf; [|done]. apply Hrule in Hf as Hnew.
  destruct (IH _ Hl) as (Hnd & Hdis & -> & Hall). split_and!.
  - constructor; [|done]. intros Hin%list_elem_of_fmap. destruct Hin as (g & Heq & Hg).
    apply (Hdis g Hg). set_solver.
  - intros g [->|Hg]%elem_of_cons; [done|]. specialize (Hdis g Hg). set_solver.
  - set_solver.
  - intros g [->|Hg]%elem_of_cons; eauto.
Qed.

Lemma field_rule_fresh s f : field_rule s f = true → f_ID f ∉ s.
Proof. unfold field_rule. intros Hr. guards. done. Qed.

Lemma extra_deliveries_spec targets fields l rest :
  extra_deliveries targets fields l = Some rest →
  NoDup (map d_Target l) ∧ (∀ d, d ∈ l → (d_Target d ∉ targets) ∧ d_Type d = "env") ∧
  NoDup (map d_Field l) ∧ (∀ d, d ∈ l → d_Field d ∈ fields) ∧
  rest = fields ∖ list_to_set (map d_Field l).
Proof.
  revert targets fields. induction l as [|d l IH]; intros targets fields Hl; simpl in *.
  { simplify_eq. split_and!; [constructor|set_solver|constructor|set_solver|set_solver]. }
  destruct (_ || _) eqn:Hg; [done|]. guards.
  destruct (IH _ _ Hl) as (Hnd & Hall & Hndf & Hin & ->). split_and!.
  - constructor; [|done]. intros (d' & Heq & Hd')%list_elem_of_fmap. destruct (Hall d' Hd'). set_solver.
  - intros d' [->|Hd']%elem_of_cons; [done|]. destruct (Hall d' Hd'). set_solver.
  - constructor; [|done]. intros (d' & Heq & Hd')%list_elem_of_fmap. specialize (Hin d' Hd'). set_solver.
  - intros d' [->|Hd']%elem_of_cons; [done|]. specialize (Hin d' Hd'). set_solver.
  - set_solver.
Qed.

(** Extra inputs are delivered exactly once: the deliveries of a valid extra
      block are environment variables with distinct names, one for each of its
      fields and none besides, and none of the fields is required. *)
Theorem extra_delivered_once e :
  Extra_Validate e = true →
  map d_Field (ex_Deliveries e) ≡ₚ map f_ID (ex_Fields e) ∧ NoDup (map f_ID (ex_Fields e)) ∧
  NoDup (map d_Target (ex_Deliveries e)) ∧
  (∀ d, d ∈ ex_Deliveries e → d_Type d = "env") ∧ (∀ f, f ∈ ex_Fields e → f_Required f = false) ∧
  (List.length (ex_Fields e) ≤ 64)%nat.
Proof.
  unfold Extra_Validate. intros Hv. destruct (_ || _) eqn:Hsz; [done|]. guards.
  destruct (fields_loop _ ∅ (ex_Fields e)) as [fields|] eqn:Hf; [|done].
  destruct (extra_deliveries ∅ fields (ex_Deliveries e)) as [rest|] eqn:Hd; [|done]. guards. subst rest.
  apply fields_loop_spec in Hf as (Hnd & _ & -> & Hreq).
  2:{ intros s f Hr. guards. by apply field_rule_fresh. }
  apply extra_deliveries_spec in Hd as (Hndt & Hall & Hndf & Hin & Hrest).
  split_and!; [|done|done|by intros d Hd; apply Hall| |unfold MaxExtraInputs in *; lia].
  - apply NoDup_Permutation; [done|done|]. intros x. split.
    + intros (d & -> & Hd)%list_elem_of_fmap. specialize (Hin d Hd). set_solver.
    + intros Hx. apply dec_stable. intros Hn.
      assert (x ∈ (∅ ∪ list_to_set (map f_ID (ex_Fields e)) : gset string) ∖ list_to_set (map d_Field (ex_Deliveries e)))
        by set_solver. set_solver.
  - intros f Hf. destruct (Hreq f Hf) as [s Hs]. guards. done.
Qed.

Lemma deliveries_loop_spec fields targets l targets' :
  deliveries_loop fields targets l = Some targets' →
  NoDup (map d_Target l) ∧ (∀ d, d ∈ l → d_Target d ∉ targets) ∧
  (∀ d, d ∈ l → delivery_rule fields d = true) ∧ (∀ d, d ∈ l → d_Target d ∈ targets').
Proof.
  revert targets. induction l as [|d l IH]; intros targets Hl; simpl in *.
  { split_and!; [constructor|set_solver..]. }
  case_bool_decide as Hnew; [done|]. destruct (negb (delivery_rule fields d)) eqn:Hr; [done|].
  destruct (_ && _) eqn:He; [done|]. guards.
  set (ts := if d_EnvName d != "" then {[d_EnvName d]} ∪ ({[d_Target d]} ∪ targets) else {[d_Target d]} ∪ targets) in *.
  assert (Hsub : {[d_Target d]} ∪ targets ⊆ ts) by (subst ts; destruct (d_EnvName d != ""); set_solver).
  assert (Hmono : ∀ l t t', deliveries_loop fields t l = Some t' → t ⊆ t').
  { clear. induction l as [|d l IH]; intros t t' Hl; simpl in Hl; [by simplify_eq|].
    repeat (case_bool_decide || case_match); try done; apply IH in Hl; set_solver. }
  destruct (IH _ Hl) as (Hnd & Hdis & Hall & Hin). split_and!.
  - constructor; [|done]. intros (d' & Heq & Hd')%list_elem_of_fmap. specialize (Hdis d' Hd'). set_solver.
  - intros d' [->|Hd']%elem_of_cons; [done|]. specialize (Hdis d' Hd'). set_solver.
  - intros d' [->|Hd']%elem_of_cons; [done|]. by apply Hall.
  - intros d' [->|Hd']%elem_of_cons; [|by apply Hin]. apply Hmono in Hl. set_solver.
Qed.

(** What a delivery of a valid contract is. *)
Definition delivery_safe (ids : list string) (d : Delivery) : Prop :=
  (d_Type d = "env" ∧ d_Field d ∈ ids) ∨
  ((d_Type d = "file" ∧ d_Field d ∈ ids ∨ d_Type d = "json_file" ∧ ∀ k v, d_Mapping d !! k = Some v → v ∈ ids) ∧
   (".." ∉ split_on "/" (d_Target d)) ∧
   ∀ t, t ∈ protected_trees → ¬ split_on "/" t `prefix_of` split_on "/" (d_Target d)).

Lemma map_forallb_Forall {V} (p : string → V → bool) (m : gmap string V) :
  map_forallb p m = true → ∀ k v, m !! k = Some v → p k v = true.
Proof.
  unfold map_forallb. rewrite forallb_forall. intros Hall k v Hk.
  apply (Hall (k, v)). by apply list_elem_of_In, elem_of_map_to_list.
Qed.

(** A validated contract delivers safely: field ids are distinct, no two
      deliveries share a target, every delivery draws on declared fields only, and
      no file lands in a system tree or climbs out with [..]. *)
Theorem valid_contract_delivers_safely `{Codecs} `{Unicode} c :
  Validate c = true →
  NoDup (map f_ID (ct_Fields c)) ∧ NoDup (map d_Target (ct_Deliveries c)) ∧
  (∀ d, d ∈ ct_Deliveries c → delivery_safe (map f_ID (ct_Fields c)) d) ∧
  (List.length (ct_Fields c) ≤ 32)%nat ∧ (List.length (ct_Deliveries c) ≤ 32)%nat.
Proof.
  unfold Validate, ValidateStructure. intros Hv. destruct (_ || _) eqn:Hsz in Hv; [done|]. guards.
  match type of Hv with (if ?x then _ else _) = true => destruct x; [done|] end.
  destruct (fields_loop field_rule ∅ (ct_Fields c)) as [fields|] eqn:Hf; [|done].
  do 3 match type of Hv with (if ?x then _ else _) = true => destruct x; [done|] end.
  destruct (deliveries_loop fields ∅ (ct_Deliveries c)) as [targets|] eqn:Hd; [|done].
  apply fields_loop_spec in Hf as (Hnd & _ & Hfs & _); [|apply field_rule_fresh].
  apply deliveries_loop_spec in Hd as (Hndt & _ & Hrule & _).
  split_and!; [done|done| |lia|lia]. intros d Hd. specialize (Hrule d Hd).
  assert (Hmem : ∀ x, x ∈ fields → x ∈ map f_ID (ct_Fields c)) by (subst fields; set_solver).
  unfold delivery_rule in Hrule. unfold delivery_safe.
  destruct (d_Type d == "env") eqn:Ht; [guards; left; auto|right].
  destruct (d_Type d == "file") eqn:Ht2.
  - guards. rename select (SafeTarget _ = true) into Hs. apply SafeTarget_spec in Hs. split; [left; auto|done].
  - destruct (d_Type d == "json_file") eqn:Ht3; [|done]. apply andb_true_iff in Hrule as [Hrule Hmap].
    guards. rename select (SafeTarget _ = true) into Hs. apply SafeTarget_spec in Hs. split; [|done].
    right. split; [done|]. intros k v Hk. pose proof (map_forallb_Forall _ _ Hmap k v Hk) as Hkv. cbn beta in Hkv.
    guards. auto.
Qed.

(** * Bundles *)

Definition total_len (values : gmap string string) (l : list Field) : Z :=
  foldr (λ f n, len (default "" (values !! f_ID f)) + n)%Z 0%Z l.

Lemma values_loop_spec `{Codecs} values l total known total' known' :
  values_loop values total known l = Some (total', known') →
  known' = known ∪ list_to_set (map f_ID l) ∧ total' = (total + total_len values l)%Z ∧
  ∀ f, f ∈ l → match values !! f_ID f with
               | Some v => v = "" ∧ f_Required f = false ∨
                           v ≠ "" ∧ (len v ≤ f_MaxBytes f)%Z ∧ value_kind_ok (f_Kind f) v = true
               | None => f_Required f = false
               end.
Proof.
  revert total known. induction l as [|f l IH]; intros total known Hl; simpl in *.
  { simplify_eq. split_and!; [set_solver|lia|set_solver]. }
  assert (Hnext : ∀ t, values_loop values t ({[f_ID f]} ∪ known) l = Some (total', known') →
    t = (total + len (default "" (values !! f_ID f)))%Z →
    match values !! f_ID f with
    | Some v => v = "" ∧ f_Required f = false ∨ v ≠ "" ∧ (len v ≤ f_MaxBytes f)%Z ∧ value_kind_ok (f_Kind f) v = true
    | None => f_Required f = false end →
    known' = known ∪ ({[f_ID f]} ∪ list_to_set (map f_ID l)) ∧
    total' = (total + (len (default "" (values !! f_ID f)) + total_len values l))%Z ∧
    ∀ g, g ∈ f :: l → match values !! f_ID g with
      | Some v => v = "" ∧ f_Required g = false ∨ v ≠ "" ∧ (len v ≤ f_MaxBytes g)%Z ∧ value_kind_ok (f_Kind g) v = true
      | None => f_Required g = false end).
  { intros t Ht -> Hf. destruct (IH _ _ Ht) as (-> & -> & Hall). split_and!; [set_solver|lia|].
    intros g [->|Hg]%elem_of_cons; [done|by apply Hall]. }
  destruct (_ || _) eqn:Habs.
  - destruct (f_Required f) eqn:Hreq; [done|]. eapply Hnext; [exact Hl|done|].
    destruct (values !! f_ID f) as [v|]; [|done]. left. split; [|done]. simpl in Habs. guards.
    unfold len in *. destruct v; [done|]. simpl in *. lia.
  - destruct (f_MaxBytes f <? _)%Z eqn:Hmax; [done|]. destruct (negb (value_kind_ok _ _)) eqn:Hk; [done|].
    eapply Hnext; [exact Hl|done|]. guards. destruct (values !! f_ID f) as [v|]; [|done]. right.
    split; [|done]. intros ->. rename select (len _ ≠ 0)%Z into Hn. by vm_compute in Hn.
Qed.

(** A bundle is accepted only as its contract declares it: every key is a
      declared field, every required field is there, no value is over its field's
      limit or of the wrong kind, all of it is at most 256 KiB, and nothing bound for
      the environment contains NUL. *)
Theorem accepted_bundle `{Codecs} c values :
  ValidateValues c values = true →
  (∀ k, is_Some (values !! k) → k ∈ map f_ID (ct_Fields c)) ∧
  (∀ f, f ∈ ct_Fields c → f_Required f = true → ∃ v, values !! f_ID f = Some v ∧ v ≠ "" ) ∧
  (∀ f v, f ∈ ct_Fields c → values !! f_ID f = Some v → v ≠ "" →
     (len v ≤ f_MaxBytes f)%Z ∧ value_kind_ok (f_Kind f) v = true) ∧
  (total_len values (ct_Fields c) ≤ 262144)%Z ∧
  (∀ d, d ∈ ct_Deliveries c → d_Type d = "env" →
     str_existsb (is_char NUL) (default "" (values !! d_Field d)) = false).
Proof.
  unfold ValidateValues. intros Hv. destruct (_ <? _)%Z; [done|].
  destruct (values_loop values 0 ∅ (ct_Fields c)) as [[total known]|] eqn:Hl; [|done].
  destruct (negb (map_forallb _ _)) eqn:Hk; [done|]. destruct (MaxBundle <? total)%Z eqn:Ht; [done|].
  apply values_loop_spec in Hl as (-> & -> & Hall). guards. split_and!.
  - intros k [v Hkv]. pose proof (map_forallb_Forall _ _ Hk k v Hkv) as Hin. cbn beta in Hin. guards. set_solver.
  - intros f Hf Hreq. specialize (Hall f Hf). destruct (values !! f_ID f) as [v|]; [|congruence].
    exists v. split; [done|]. destruct Hall as [[_ ?]|(? & _)]; [congruence|done].
  - intros f v Hf Hfv Hne. specialize (Hall f Hf). rewrite Hfv in Hall. naive_solver.
  - unfold MaxBundle in *. lia.
  - intros d Hd Henv. rewrite forallb_forall in Hv. apply list_elem_of_In in Hd. specialize (Hv d Hd).
    rewrite bool_decide_eq_true_2 in Hv by done. simpl in Hv. by apply negb_true_iff in Hv.
Qed.

(** * Compatibility *)

(** What [Compatible] compares of a field. *)
Definition field_shape (f : Field) : string * string * bool * Z :=
  (f_ID f, f_Kind f, f_Required f, f_MaxBytes f).

Lemma same_fields_spec l1 l2 : same_fields l1 l2 = true ↔ map field_shape l1 = map field_shape l2.
Proof.
  assert (Hone : ∀ x y, same_field x y = true ↔ field_shape x = field_shape y).
  { intros x y. unfold same_field, field_shape. rewrite !andb_true_iff, !bool_decide_eq_true, eqb_true_iff, Z.eqb_eq.
    split; [intros [[[-> ->] ->] ->]; done|]. intros [= -> -> -> ->]. done. }
  revert l2. induction l1 as [|x l1 IH]; intros [|y l2]; simpl; try done.
  rewrite andb_true_iff, Hone, IH. split; [intros [-> ->]; done|]. intros Heq. split; [apply (f_equal (hd (field_shape x))) in Heq|apply (f_equal tail) in Heq]; exact Heq.
Qed.

Global Instance str_le_total : Total str_le.
Proof. intros a b. destruct (total String.le a b) as [H|H]; [left|right]; by apply Is_true_eq_true. Qed.
Global Instance str_le_trans : Transitive str_le.
Proof.
  intros a b c Hab Hbc. apply Is_true_eq_true.
  apply (transitivity (R := String.le) (y := b)); by apply Is_true_eq_left.
Qed.
Lemma str_le_antisymm a b : str_le a b → str_le b a → a = b.
Proof. intros Hab Hba. apply (anti_symm String.le); by apply Is_true_eq_left. Qed.
Global Instance field_le_total : Total field_le.
Proof. intros x y. apply str_le_total. Qed.
Global Instance field_le_trans : Transitive field_le.
Proof. intros x y z. apply str_le_trans. Qed.

(** The order of shapes that sorting by id induces. *)
Definition shape_le (x y : string * string * bool * Z) : Prop := str_le x.1.1.1 y.1.1.1.

Lemma sorted_shapes l : StronglySorted field_le l → StronglySorted shape_le (map field_shape l).
Proof.
  induction 1 as [|x l Hl IH Hx]; simpl; constructor; [done|].
  apply Forall_map. eapply Forall_impl; [exact Hx|done].
Qed.

Lemma shapes_by_id l x y : NoDup (map f_ID l) →
  x ∈ map field_shape l → y ∈ map field_shape l → x.1.1.1 = y.1.1.1 → x = y.
Proof.
  intros Hnd (f & -> & Hf)%list_elem_of_fmap (g & -> & Hg)%list_elem_of_fmap Hid. simpl in Hid.
  apply list_elem_of_lookup in Hf as [i Hi], Hg as [j Hj].
  assert (i = j) as ->; [|by simplify_eq].
  eapply (NoDup_lookup (map f_ID l)); [exact Hnd| |]; rewrite list_lookup_fmap.
  - by rewrite Hi.
  - rewrite Hj. simpl. by rewrite Hid.
Qed.

(** An update of a contract keeps stored bundles usable exactly when it names the
      same OAuth provider and the same fields (id, kind, required, size limit) in any
      order: labels, help texts, deliveries and routes do not matter. *)
Theorem compatible_fields a b :
  NoDup (map f_ID (ct_Fields a)) →
  Compatible a b = true ↔
    ct_OAuthProvider a = ct_OAuthProvider b ∧
    map field_shape (ct_Fields a) ≡ₚ map field_shape (ct_Fields b).
Proof.
  intros Hnd. unfold Compatible.
  pose proof (merge_sort_Permutation field_le (ct_Fields a)) as Ha.
  pose proof (merge_sort_Permutation field_le (ct_Fields b)) as Hb.
  destruct (_ || _) eqn:Hg; guards.
  - split; [done|]. intros [Hp Hm]. apply Permutation_length in Hm. rewrite !length_map in Hm.
    rewrite Hm, Nat.eqb_refl in Hg. apply orb_true_iff in Hg as [Hg|Hg]; [by guards|done].
  - rewrite same_fields_spec. split.
    + intros Heq. split; [congruence|].
      by rewrite <- (Permutation_map field_shape Ha), Heq, (Permutation_map field_shape Hb).
    + intros [_ Hperm].
      apply (StronglySorted_unique_strong shape_le).
      * intros x y Hx Hy Hle Hge. rewrite (Permutation_map field_shape Ha) in Hx.
        rewrite (Permutation_map field_shape Hb), <- Hperm in Hy.
        eapply shapes_by_id; eauto. by apply str_le_antisymm.
      * apply sorted_shapes, (StronglySorted_merge_sort field_le).
      * apply sorted_shapes, (StronglySorted_merge_sort field_le).
      * by rewrite (Permutation_map field_shape Ha), (Permutation_map field_shape Hb).
Qed.
