(* ===== verification/BrokerTypes.v ===== *)
(** The credential broker's records (broker/types.go, api/v1/types.go,
    provider/provider.go) and the interfaces its operations are written
    against: the process world (clock, randomness, map iteration order), the
    durable journal, the runtime materializer, the secret providers and the
    codecs.  Journal.v and Materialize.v implement the first two interfaces the
    service itself provides. *)
From stdpp Require Import base gmap strings list pretty.
From Stdlib Require Import Ascii String.
From S2P Require Import Prelude GoStrings BrokerIdentity Contract.
Local Open Scope string_scope.

(** * API types (api/v1/types.go) *)

Record CreateRequestIn := mkCreateRequestIn {
  cr_ContractID : string;
  cr_ContractRevision : Z;
  cr_ConnectionID : string;
  cr_OnboardingID : string;
  cr_IdempotencyKey : string;
  cr_OwnerKind : string;
  cr_ConsumerID : string;
  cr_ExternalAlias : string;
  cr_RotateCredentialID : string;
  cr_Extra : option Extra;
}.

Record Request := mkRequest {
  rq_ID : string;
  rq_ContractID : string;
  rq_ContractRevision : Z;
  rq_ConnectionID : string;
  rq_OnboardingID : string;
  rq_ConsumerID : string;
  rq_Status : string;
  rq_CredentialID : string;
  rq_Revision : Z;
  rq_AuthorizationURL : string;
  rq_ExpiresAt : Z;
}.

Record GrantRequest := mkGrantRequest {
  gr_ContractID : string;
  gr_ContractRevision : Z;
  gr_PrincipalID : string;
  gr_ContextID : string;
  gr_RuntimeID : string;
  gr_BindingID : string;
  gr_WorkloadID : string;
  gr_Execution : string;
  gr_IdempotencyKey : string;
}.

Record Grant := mkGrant {
  g_ID : string;
  g_CredentialID : string;
  g_PrincipalID : string;
  g_ContextID : string;
  g_RuntimeID : string;
  g_BindingID : string;
  g_WorkloadID : string;
  g_Execution : string;
  g_ContractID : string;
  g_ContractRevision : Z;
  g_PolicyVersion : string;
  g_Active : bool;
}.

Record AcquireLease := mkAcquireLease { al_GrantID : string; al_TTLSeconds : Z }.

Record Lease := mkLease {
  l_ID : string;
  l_GrantID : string;
  l_CredentialID : string;
  l_Revision : Z;
  l_ExpiresAt : Z;
  l_Deliveries : list Delivery;
  l_State : option CState;
  l_Routes : list string;
}.

Record Credential := mkCredential {
  cd_ID : string;
  cd_OwnerKind : string;
  cd_PrincipalID : string;
  cd_ContextID : string;
  cd_ConnectionID : string;
  cd_ConsumerID : string;
  cd_Revision : Z;
  cd_Status : string;
  cd_Provider : string;
}.

Record Event := mkEvent {
  ev_Sequence : Z;
  ev_At : Z;
  ev_Kind : string;
  ev_PrincipalID : string;
  ev_ContextID : string;
  ev_RequestID : string;
  ev_ConnectionID : string;
  ev_OnboardingID : string;
  ev_ConsumerID : string;
  ev_CredentialID : string;
  ev_GrantID : string;
  ev_LeaseID : string;
  ev_ContractID : string;
  ev_BindingID : string;
  ev_WorkloadID : string;
  ev_PolicyVersion : string;
}.

Record Events := mkEvents { es_Events : list Event; es_NextCursor : Z }.

Record Mount := mkMount { mt_Source : string; mt_Target : string; mt_ReadOnly : bool }.
Record Materialized := mkMaterialized {
  m_LeaseID : string;
  m_ExpiresAt : Z;
  m_Env : gmap string string;
  m_Mounts : list Mount;
}.

Record RuntimeRelease := mkRuntimeRelease { rr_Checkpoint : bool; rr_Quiesced : bool }.

Record SessionView := mkSessionView {
  sv_RequestID : string;
  sv_Title : string;
  sv_TitleI18n : gmap string string;
  sv_Status : string;
  sv_Code : string;
  sv_Approved : bool;
  sv_Fields : list Field;
  sv_Extra : list Field;
  sv_AnyRequired : bool;
  sv_OAuth : bool;
}.

(** * Providers (provider/provider.go) *)

Abbreviation Bundle := (gmap string string).

Record Ref := mkRef { ref_Provider : string; ref_Locator : string; ref_Version : string }.
Global Instance Ref_eq_dec : EqDecision Ref.
Proof. solve_decision. Defined.
(** [provider.Ref{}] *)
Definition zero_ref : Ref := mkRef "" "" "".

Record Capabilities := mkCapabilities {
  cap_Write : bool; cap_Delete : bool; cap_Versioned : bool; cap_Binary : bool }.

(** The registered secret stores over a shared outside state [PW].  [pv_caps]
    is [None] for an id that is not registered. *)
Class Providers (PW : Type) := {
  pv_caps : string → option Capabilities;
  pv_read : PW → Ref → PW * option Bundle;
  pv_write : PW → string → Bundle → PW * option Ref;
  pv_delete : PW → string → Ref → PW * bool;   (** on the named provider *)
}.

(** [Registry.Resolve] *)
Definition Registry_Resolve `{Providers PW} (w : PW) (ref : Ref) : PW * option Bundle :=
  match pv_caps (ref_Provider ref) with
  | None => (w, None)
  | Some _ => pv_read w ref
  end.

(** [Registry.Put] *)
Definition Registry_Put `{Providers PW} (w : PW) (id : string) (b : Bundle) : PW * option Ref :=
  match pv_caps id with
  | None => (w, None)
  | Some caps => if cap_Write caps then pv_write w id b else (w, None)
  end.

(** * Broker records (broker/types.go) *)

Inductive BErr :=
  | ErrDenied
  | Denial (reason : string)   (** [denial], which [Is] [ErrDenied] *)
  | ErrNotFound
  | ErrConflict
  | ErrExpired
  | ErrInvalid
  | ErrUnavailable
  | ErrReauthorize.
Global Instance BErr_eq_dec : EqDecision BErr.
Proof. solve_decision. Defined.

(** [errors.Is(e, ErrDenied)] *)
Definition is_denied (e : BErr) : bool :=
  match e with ErrDenied | Denial _ => true | _ => false end.

(** [DenyReason] *)
Definition DenyReason (e : BErr) : string :=
  match e with Denial reason => reason | _ => "" end.

Record ExternalAlias := mkExternalAlias {
  xa_Ref : Ref; xa_PrincipalID : string; xa_ContextID : string; xa_ContractKey : string }.

Record requestRecord := mkRequestRecord {
  r_View : Request;
  r_Actor : Actor;
  r_OwnerKind : string;
  r_ContractKey : string;
  r_ContractDigest : string;
  r_Idempotency : string;
  r_Fingerprint : string;
  r_RotateID : string;
  r_ExpectedRevision : Z;
  r_ExternalAlias : string;
  r_OAuthStateHash : string;
  r_DraftRef : option Ref;
  r_Extra : option Extra;
  r_Demoted : list string;
}.

Record sessionRecord := mkSessionRecord {
  s_Hash : string;
  s_CodeHash : string;
  s_RequestID : string;
  s_ExpiresAt : Z;
  s_Approved : bool;
  s_Consumed : bool;
}.
(** [var s sessionRecord] *)
Definition zero_session : sessionRecord := mkSessionRecord "" "" "" 0 false false.

Record credentialRecord := mkCredentialRecord {
  c_View : Credential;
  c_ContractKey : string;
  c_ContractDigest : string;
  c_Ref : Ref;
  c_Managed : bool;
  c_OwnedRefs : list Ref;
  c_TokenRevision : Z;
  c_Extra : option Extra;
  c_Demoted : list string;
}.

Record grantRecord := mkGrantRecord {
  g_View : Grant;
  g_ContractKey : string;
  g_ContractDigest : string;
  g_Idempotency : string;
  g_Fingerprint : string;
}.

(** [Active] maps a use id to its cancel function: the ids are kept, and a
    cancelled id moves to the broker's [cancelled] set. *)
Record leaseRecord := mkLeaseRecord {
  lr_View : Lease;
  lr_Materialized : option Materialized;
  lr_StateKey : string;
  lr_Active : gset string;
}.

Record stateRecord := mkStateRecord {
  sr_OwnedRefs : list Ref; sr_Key : string; sr_Ref : Ref; sr_Revision : Z }.
(** [b.states[k]] for an absent key *)
Definition zero_state : stateRecord := mkStateRecord [] "" zero_ref 0.

Record oauthRecord := mkOAuthRecord {
  o_StateHash : string;
  o_RequestID : string;
  o_SessionHash : string;
  o_VerifierRef : Ref;
  o_ExpiresAt : Z;
  o_Consumed : bool;
}.

Record contractRecord := mkContractRecord { cr_Contract : Contract }.

Record mutation := mkMutation {
  mu_Audit : Event;
  mu_Request : option requestRecord;
  mu_Session : option sessionRecord;
  mu_Credential : option credentialRecord;
  mu_Grant : option grantRecord;
  mu_State : option stateRecord;
  mu_OAuth : option oauthRecord;
  mu_Contract : option contractRecord;
}.

(** [OAuthProvider]: the settings, and the token endpoint as an outside call. *)
Record OAuthProvider := mkOAuthProvider {
  op_AuthorizeURL : string;
  op_TokenURL : string;
  op_ClientID : string;
  op_RedirectURL : string;
  op_Scopes : list string;
  op_AuthStyle : string;
  op_HasSecretSource : bool;
  op_HasClient : bool;
  op_AuthorizeParameters : gmap string string;
}.

Record oauthTokens := mkOAuthTokens { tk_Access : string; tk_Refresh : string; tk_ExpiresIn : Z }.

Record Config := mkConfig {
  cf_Contracts : list Contract;
  cf_ProviderIDs : list string;      (** keys of [cfg.Providers] *)
  cf_ExternalAliases : gmap string ExternalAlias;
  cf_PublicOrigin : string;
  cf_SessionKey : string;
  cf_OAuth : gmap string OAuthProvider;
  cf_DirectForm : bool;
}.

(** * Interfaces *)

(** What the process observes of the outside: the n-th reading of the clock, the
    n-th random hex id, the n-th 32-byte random secret, whether the caller's
    context is still live at the n-th look, and the order in which the n-th
    [range] over a Go map visits the keys.  The counter [n] is part of the
    broker's state. *)
Class World := {
  w_now : nat → Z;
  w_hex : nat → string;
  w_secret : nat → string;
  w_ctx : nat → bool;
  w_order : nat → list string → list string;
  w_order_perm : ∀ n l, w_order n l ≡ₚ l;
  w_hex_inj : Inj (=) (=) w_hex;
}.

(** A clock that does not go back. *)
Class MonotoneClock `{World} : Prop :=
  w_now_mono : ∀ i j, (i ≤ j)%nat → (w_now i ≤ w_now j)%Z.

(** The hash, HMAC and JSON encodings the broker uses for fingerprints. *)
Class Digests := {
  Digest : string → string;                  (** [seal.Digest] *)
  hmac32 : string → string → string;         (** base32 HMAC-SHA256 of a message under a key *)
  marshal_create : CreateRequestIn → string;
  marshal_grant : GrantRequest → string;
  ContractDigest : Contract → string;        (** [Contract.Digest] *)
}.

(** A record handed back by [Journal.Records]; [jr_Data] is [None] when the
    strict decoder refuses the bytes. *)
Record JRecord := mkJRecord { jr_Sequence : Z; jr_Kind : string; jr_Data : option mutation }.

(** The durable log the broker commits to: what Journal.v promises. *)
Class JournalOps (J : Type) := {
  jr_append : J → string → mutation → J * option Z;
  jr_healthy : J → bool;
  jr_records : J → list JRecord;
  jr_close : J → J;
  jr_append_ok : ∀ j k m j' n, jr_append j k m = (j', Some n) →
    jr_healthy j = true ∧ jr_records j' = (jr_records j ++ [mkJRecord n k (Some m)])%list ∧
    n = Z.of_nat (S (List.length (jr_records j)));
  jr_append_fail : ∀ j k m j', jr_append j k m = (j', None) → jr_records j' = jr_records j;
  jr_close_records : ∀ j, jr_records (jr_close j) = jr_records j;
  jr_close_healthy : ∀ j, jr_healthy (jr_close j) = false;
  jr_unhealthy_append : ∀ j k m, jr_healthy j = false → jr_append j k m = (j, None);
}.

(** The tmpfs materializer: what Materialize.v promises. *)
Class Materializer (MT : Type) := {
  mat_prepare : MT → string → Z → Contract → Bundle → Bundle → MT * option Materialized;
  mat_snapshot : MT → string → Contract → MT * option Bundle;
  mat_remove : MT → string → MT;
  mat_close : MT → MT;
}.

(** [key] *)
Definition key (id : string) (rev : Z) : string := id ++ "@" ++ pretty rev.
