(* ===== verification/BrokerCore.v ===== *)
(** The broker's state and its spine (broker/types.go, broker/broker.go):
    clock, randomness, audit events, [apply]/[commit] over the journal, [New]
    with its strict replay, the read operations and the lease table's removal
    paths (broker/grants.go).

    Every exported method takes [b.mu] for its whole body unless stated
    otherwise, so a method is one atomic state transformer.  A method that
    releases the lock in between is a sequence of such transformers, one per
    critical section. *)
From stdpp Require Import base gmap strings list pretty.
From Stdlib Require Import Ascii String.
From S2P Require Import Prelude GoStrings BrokerIdentity Contract BrokerTypes.
Local Open Scope string_scope.

Record Broker (J MT PW : Type) := mkBroker {
  catalog : gmap string Contract;
  requests : gmap string requestRecord;
  sessions : gmap string sessionRecord;
  credentials : gmap string credentialRecord;
  grants : gmap string grantRecord;
  states : gmap string stateRecord;
  oauth : gmap string oauthRecord;
  leases : gmap string leaseRecord;
  events : list Event;
  refreshLocks : gset string;
  closed : bool;
  cancelled : gset string;   (** uses whose context was cancelled *)
  jrn : J;                   (** [cfg.Journal] *)
  mat : MT;                  (** [cfg.Materializer] *)
  prov : PW;                 (** what [cfg.Providers] and HTTP clients reach *)
  tick : nat;                (** observations of the [World] made so far *)
}.
Arguments mkBroker {_ _ _}.
Arguments catalog {_ _ _} _. Arguments requests {_ _ _} _. Arguments sessions {_ _ _} _.
Arguments credentials {_ _ _} _. Arguments grants {_ _ _} _. Arguments states {_ _ _} _.
Arguments oauth {_ _ _} _. Arguments leases {_ _ _} _. Arguments events {_ _ _} _.
Arguments refreshLocks {_ _ _} _. Arguments closed {_ _ _} _. Arguments cancelled {_ _ _} _.
Arguments jrn {_ _ _} _. Arguments mat {_ _ _} _. Arguments prov {_ _ _} _. Arguments tick {_ _ _} _.

Section Setters.
Context {J MT PW : Type}.
Abbreviation B := (Broker J MT PW).

Definition set_leases (x : gmap string leaseRecord) (b : B) : B :=
  mkBroker (catalog b) (requests b) (sessions b) (credentials b) (grants b) (states b)
    (oauth b) x (events b) (refreshLocks b) (closed b) (cancelled b) (jrn b) (mat b)
    (prov b) (tick b).
Definition set_locks (x : gset string) (b : B) : B :=
  mkBroker (catalog b) (requests b) (sessions b) (credentials b) (grants b) (states b)
    (oauth b) (leases b) (events b) x (closed b) (cancelled b) (jrn b) (mat b)
    (prov b) (tick b).
Definition set_closed (x : bool) (b : B) : B :=
  mkBroker (catalog b) (requests b) (sessions b) (credentials b) (grants b) (states b)
    (oauth b) (leases b) (events b) (refreshLocks b) x (cancelled b) (jrn b) (mat b)
    (prov b) (tick b).
Definition set_cancelled (x : gset string) (b : B) : B :=
  mkBroker (catalog b) (requests b) (sessions b) (credentials b) (grants b) (states b)
    (oauth b) (leases b) (events b) (refreshLocks b) (closed b) x (jrn b) (mat b)
    (prov b) (tick b).
Definition set_jrn (x : J) (b : B) : B :=
  mkBroker (catalog b) (requests b) (sessions b) (credentials b) (grants b) (states b)
    (oauth b) (leases b) (events b) (refreshLocks b) (closed b) (cancelled b) x (mat b)
    (prov b) (tick b).
Definition set_mat (x : MT) (b : B) : B :=
  mkBroker (catalog b) (requests b) (sessions b) (credentials b) (grants b) (states b)
    (oauth b) (leases b) (events b) (refreshLocks b) (closed b) (cancelled b) (jrn b) x
    (prov b) (tick b).
Definition set_prov (x : PW) (b : B) : B :=
  mkBroker (catalog b) (requests b) (sessions b) (credentials b) (grants b) (states b)
    (oauth b) (leases b) (events b) (refreshLocks b) (closed b) (cancelled b) (jrn b) (mat b)
    x (tick b).
Definition set_tick (x : nat) (b : B) : B :=
  mkBroker (catalog b) (requests b) (sessions b) (credentials b) (grants b) (states b)
    (oauth b) (leases b) (events b) (refreshLocks b) (closed b) (cancelled b) (jrn b) (mat b)
    (prov b) x.
Definition set_catalog (x : gmap string Contract) (b : B) : B :=
  mkBroker x (requests b) (sessions b) (credentials b) (grants b) (states b)
    (oauth b) (leases b) (events b) (refreshLocks b) (closed b) (cancelled b) (jrn b) (mat b)
    (prov b) (tick b).
End Setters.

(** ** Field updates of the records *)

Definition ev_with_seq (n : Z) (e : Event) : Event :=
  mkEvent n (ev_At e) (ev_Kind e) (ev_PrincipalID e) (ev_ContextID e) (ev_RequestID e)
    (ev_ConnectionID e) (ev_OnboardingID e) (ev_ConsumerID e) (ev_CredentialID e) (ev_GrantID e)
    (ev_LeaseID e) (ev_ContractID e) (ev_BindingID e) (ev_WorkloadID e) (ev_PolicyVersion e).

(** [ev.X = id], one per optional id of an audit event. *)
Definition ev_req (x : string) (e : Event) : Event :=
    mkEvent (ev_Sequence e) (ev_At e) (ev_Kind e) (ev_PrincipalID e) (ev_ContextID e) x
    (ev_ConnectionID e) (ev_OnboardingID e) (ev_ConsumerID e) (ev_CredentialID e) (ev_GrantID e)
    (ev_LeaseID e) (ev_ContractID e) (ev_BindingID e) (ev_WorkloadID e) (ev_PolicyVersion e).
Definition ev_conn (x : string) (e : Event) : Event :=
    mkEvent (ev_Sequence e) (ev_At e) (ev_Kind e) (ev_PrincipalID e) (ev_ContextID e) (ev_RequestID
    e) x (ev_OnboardingID e) (ev_ConsumerID e) (ev_CredentialID e) (ev_GrantID e) (ev_LeaseID e)
    (ev_ContractID e) (ev_BindingID e) (ev_WorkloadID e) (ev_PolicyVersion e).
Definition ev_onb (x : string) (e : Event) : Event :=
    mkEvent (ev_Sequence e) (ev_At e) (ev_Kind e) (ev_PrincipalID e) (ev_ContextID e) (ev_RequestID
    e) (ev_ConnectionID e) x (ev_ConsumerID e) (ev_CredentialID e) (ev_GrantID e) (ev_LeaseID e)
    (ev_ContractID e) (ev_BindingID e) (ev_WorkloadID e) (ev_PolicyVersion e).
Definition ev_cons (x : string) (e : Event) : Event :=
    mkEvent (ev_Sequence e) (ev_At e) (ev_Kind e) (ev_PrincipalID e) (ev_ContextID e) (ev_RequestID
    e) (ev_ConnectionID e) (ev_OnboardingID e) x (ev_CredentialID e) (ev_GrantID e) (ev_LeaseID e)
    (ev_ContractID e) (ev_BindingID e) (ev_WorkloadID e) (ev_PolicyVersion e).
Definition ev_cred (x : string) (e : Event) : Event :=
    mkEvent (ev_Sequence e) (ev_At e) (ev_Kind e) (ev_PrincipalID e) (ev_ContextID e) (ev_RequestID
    e) (ev_ConnectionID e) (ev_OnboardingID e) (ev_ConsumerID e) x (ev_GrantID e) (ev_LeaseID e)
    (ev_ContractID e) (ev_BindingID e) (ev_WorkloadID e) (ev_PolicyVersion e).
Definition ev_grant (x : string) (e : Event) : Event :=
    mkEvent (ev_Sequence e) (ev_At e) (ev_Kind e) (ev_PrincipalID e) (ev_ContextID e) (ev_RequestID
    e) (ev_ConnectionID e) (ev_OnboardingID e) (ev_ConsumerID e) (ev_CredentialID e) x (ev_LeaseID
    e) (ev_ContractID e) (ev_BindingID e) (ev_WorkloadID e) (ev_PolicyVersion e).
Definition ev_lease (x : string) (e : Event) : Event :=
    mkEvent (ev_Sequence e) (ev_At e) (ev_Kind e) (ev_PrincipalID e) (ev_ContextID e) (ev_RequestID
    e) (ev_ConnectionID e) (ev_OnboardingID e) (ev_ConsumerID e) (ev_CredentialID e) (ev_GrantID e)
    x (ev_ContractID e) (ev_BindingID e) (ev_WorkloadID e) (ev_PolicyVersion e).
Definition ev_contract (x : string) (e : Event) : Event :=
    mkEvent (ev_Sequence e) (ev_At e) (ev_Kind e) (ev_PrincipalID e) (ev_ContextID e) (ev_RequestID
    e) (ev_ConnectionID e) (ev_OnboardingID e) (ev_ConsumerID e) (ev_CredentialID e) (ev_GrantID e)
    (ev_LeaseID e) x (ev_BindingID e) (ev_WorkloadID e) (ev_PolicyVersion e).
Definition ev_binding (x : string) (e : Event) : Event :=
    mkEvent (ev_Sequence e) (ev_At e) (ev_Kind e) (ev_PrincipalID e) (ev_ContextID e) (ev_RequestID
    e) (ev_ConnectionID e) (ev_OnboardingID e) (ev_ConsumerID e) (ev_CredentialID e) (ev_GrantID e)
    (ev_LeaseID e) (ev_ContractID e) x (ev_WorkloadID e) (ev_PolicyVersion e).
Definition ev_workload (x : string) (e : Event) : Event :=
    mkEvent (ev_Sequence e) (ev_At e) (ev_Kind e) (ev_PrincipalID e) (ev_ContextID e) (ev_RequestID
    e) (ev_ConnectionID e) (ev_OnboardingID e) (ev_ConsumerID e) (ev_CredentialID e) (ev_GrantID e)
    (ev_LeaseID e) (ev_ContractID e) (ev_BindingID e) x (ev_PolicyVersion e).

Definition rq_with_status (st : string) (r : Request) : Request :=
  mkRequest (rq_ID r) (rq_ContractID r) (rq_ContractRevision r) (rq_ConnectionID r)
    (rq_OnboardingID r) (rq_ConsumerID r) st (rq_CredentialID r) (rq_Revision r)
    (rq_AuthorizationURL r) (rq_ExpiresAt r).
Definition rq_ready (cid : string) (rev : Z) (r : Request) : Request :=
  mkRequest (rq_ID r) (rq_ContractID r) (rq_ContractRevision r) (rq_ConnectionID r)
    (rq_OnboardingID r) (rq_ConsumerID r) "ready" cid rev
    (rq_AuthorizationURL r) (rq_ExpiresAt r).
Definition r_with_view (v : Request) (r : requestRecord) : requestRecord :=
  mkRequestRecord v (r_Actor r) (r_OwnerKind r) (r_ContractKey r) (r_ContractDigest r)
    (r_Idempotency r) (r_Fingerprint r) (r_RotateID r) (r_ExpectedRevision r)
    (r_ExternalAlias r) (r_OAuthStateHash r) (r_DraftRef r) (r_Extra r) (r_Demoted r).
Definition r_with_status (st : string) (r : requestRecord) : requestRecord :=
  r_with_view (rq_with_status st (r_View r)) r.
Definition r_with_oauth (h : string) (r : requestRecord) : requestRecord :=
  mkRequestRecord (r_View r) (r_Actor r) (r_OwnerKind r) (r_ContractKey r) (r_ContractDigest r)
    (r_Idempotency r) (r_Fingerprint r) (r_RotateID r) (r_ExpectedRevision r)
    (r_ExternalAlias r) h (r_DraftRef r) (r_Extra r) (r_Demoted r).
Definition r_with_draft (d : option Ref) (r : requestRecord) : requestRecord :=
  mkRequestRecord (r_View r) (r_Actor r) (r_OwnerKind r) (r_ContractKey r) (r_ContractDigest r)
    (r_Idempotency r) (r_Fingerprint r) (r_RotateID r) (r_ExpectedRevision r)
    (r_ExternalAlias r) (r_OAuthStateHash r) d (r_Extra r) (r_Demoted r).
Definition r_with_demoted (d : list string) (r : requestRecord) : requestRecord :=
  mkRequestRecord (r_View r) (r_Actor r) (r_OwnerKind r) (r_ContractKey r) (r_ContractDigest r)
    (r_Idempotency r) (r_Fingerprint r) (r_RotateID r) (r_ExpectedRevision r)
    (r_ExternalAlias r) (r_OAuthStateHash r) (r_DraftRef r) (r_Extra r) d.

Definition s_approve (s : sessionRecord) : sessionRecord :=
  mkSessionRecord (s_Hash s) (s_CodeHash s) (s_RequestID s) (s_ExpiresAt s) true (s_Consumed s).
Definition s_consume (s : sessionRecord) : sessionRecord :=
  mkSessionRecord (s_Hash s) (s_CodeHash s) (s_RequestID s) (s_ExpiresAt s) (s_Approved s) true.
Definition o_consume (o : oauthRecord) : oauthRecord :=
  mkOAuthRecord (o_StateHash o) (o_RequestID o) (o_SessionHash o) (o_VerifierRef o) (o_ExpiresAt o) true.

Definition cd_with (rev : Z) (st : string) (c : Credential) : Credential :=
  mkCredential (cd_ID c) (cd_OwnerKind c) (cd_PrincipalID c) (cd_ContextID c) (cd_ConnectionID c)
    (cd_ConsumerID c) rev st (cd_Provider c).
Definition c_with_view (v : Credential) (c : credentialRecord) : credentialRecord :=
  mkCredentialRecord v (c_ContractKey c) (c_ContractDigest c) (c_Ref c) (c_Managed c)
    (c_OwnedRefs c) (c_TokenRevision c) (c_Extra c) (c_Demoted c).
Definition c_refreshed (ref : Ref) (c : credentialRecord) : credentialRecord :=
  mkCredentialRecord (c_View c) (c_ContractKey c) (c_ContractDigest c) ref (c_Managed c)
    (c_OwnedRefs c ++ [ref])%list (u64 (c_TokenRevision c + 1)) (c_Extra c) (c_Demoted c).

Definition g_deactivated (g : Grant) : Grant :=
  mkGrant (g_ID g) (g_CredentialID g) (g_PrincipalID g) (g_ContextID g) (g_RuntimeID g)
    (g_BindingID g) (g_WorkloadID g) (g_Execution g) (g_ContractID g) (g_ContractRevision g)
    (g_PolicyVersion g) false.
Definition g_revoke (g : grantRecord) : grantRecord :=
  mkGrantRecord (g_deactivated (g_View g)) (g_ContractKey g) (g_ContractDigest g)
    (g_Idempotency g) (g_Fingerprint g).

Definition l_with_expiry (t : Z) (l : Lease) : Lease :=
  mkLease (l_ID l) (l_GrantID l) (l_CredentialID l) (l_Revision l) t (l_Deliveries l)
    (l_State l) (l_Routes l).
Definition m_with_expiry (t : Z) (m : Materialized) : Materialized :=
  mkMaterialized (m_LeaseID m) t (m_Env m) (m_Mounts m).
Definition lr_renewed (t : Z) (l : leaseRecord) : leaseRecord :=
  mkLeaseRecord (l_with_expiry t (lr_View l)) (m_with_expiry t <$> lr_Materialized l)
    (lr_StateKey l) (lr_Active l).
Definition lr_with_active (x : gset string) (l : leaseRecord) : leaseRecord :=
  mkLeaseRecord (lr_View l) (lr_Materialized l) (lr_StateKey l) x.
Definition lr_materialize (m : Materialized) (l : leaseRecord) : leaseRecord :=
  mkLeaseRecord (lr_View l) (Some m) (lr_StateKey l) (lr_Active l).

Definition no_mutation (e : Event) : mutation := mkMutation e None None None None None None None.
Definition mut_request (e : Event) (r : requestRecord) : mutation :=
  mkMutation e (Some r) None None None None None None.
Definition mut_session (e : Event) (s : sessionRecord) : mutation :=
  mkMutation e None (Some s) None None None None None.
Definition mut_credential (e : Event) (c : credentialRecord) : mutation :=
  mkMutation e None None (Some c) None None None None.
Definition mut_grant (e : Event) (g : grantRecord) : mutation :=
  mkMutation e None None None (Some g) None None None.

(** ** Ownership predicates (broker/types.go) *)

Definition managedBy (a : Actor) (c : credentialRecord) : bool :=
  if a_ContextID a != cd_ContextID (c_View c) then false
  else ((cd_OwnerKind (c_View c) == "context") && a_ContextManager a)
       || ((cd_OwnerKind (c_View c) == "user") && (a_PrincipalID a == cd_PrincipalID (c_View c))).

Definition requestBy (a : Actor) (r : requestRecord) : bool :=
  (a_PrincipalID a == a_PrincipalID (r_Actor r)) && (a_ContextID a == a_ContextID (r_Actor r)).

Definition requestKey `{Digests} (a : Actor) (s : string) : string :=
  Digest (a_PrincipalID a ++ "/" ++ a_ContextID a ++ "/" ++ s).

Definition validIdempotency (s : string) : bool :=
  (8 <=? len s)%Z && (len s <=? 128)%Z && negb (ContainsAny s crlfnul).

(** [identityFromCredential] *)
Definition identityFromCredential (c : credentialRecord) : Actor :=
  mkActor (cd_PrincipalID (c_View c)) (cd_ContextID (c_View c)) "" "" "" "" false "" "".

Section Core.
Context {J MT PW : Type} `{World} `{Digests} `{Codecs} `{Unicode}.
Context `{JournalOps J} `{Materializer MT} `{Providers PW}.
Variable cfg : Config.

Abbreviation B := (Broker J MT PW).
Abbreviation BM := (M (Broker J MT PW) BErr).

(** ** Observations of the world *)

Definition now : BM Z :=
  b ← get; modify (set_tick (S (tick b))) ;; mret (w_now (tick b)).

Definition newID (prefix : string) : BM string :=
  b ← get; modify (set_tick (S (tick b))) ;; mret (prefix ++ w_hex (tick b)).

(** [seal.Random] *)
Definition Random : BM string :=
  b ← get; modify (set_tick (S (tick b))) ;; mret (w_secret (tick b)).

(** The keys of a map, in the order this [range] visits them. *)
Definition range_keys {V} (m : gmap string V) : BM (list string) :=
  b ← get; modify (set_tick (S (tick b))) ;; mret (w_order (tick b) (map_to_list m).*1).

(** ** Providers *)

Definition provider_resolve (ref : Ref) : BM (option Bundle) :=
  b ← get;
  let '(w, v) := Registry_Resolve (prov b) ref in
  modify (set_prov w) ;; mret v.
Definition provider_put (id : string) (v : Bundle) : BM (option Ref) :=
  b ← get;
  let '(w, r) := Registry_Put (prov b) id v in
  modify (set_prov w) ;; mret r.
Definition provider_delete (id : string) (ref : Ref) : BM bool :=
  b ← get;
  let '(w, ok) := pv_delete (prov b) id ref in
  modify (set_prov w) ;; mret ok.
Definition provider_writable (id : string) : bool :=
  match pv_caps id with Some caps => cap_Write caps | None => false end.

(** ** Audit, apply, commit *)

Definition live (b : B) : bool := negb (closed b) && jr_healthy (jrn b).

Definition audit (kind : string) (a : Actor) : BM Event :=
  t ← now;
  mret (mkEvent 0 t kind (a_PrincipalID a) (a_ContextID a) "" "" "" "" "" "" "" "" "" ""
          (a_PolicyVersion a)).

Definition put_opt {V} (k : V → string) (o : option V) (m : gmap string V) : gmap string V :=
  match o with Some v => <[k v := v]> m | None => m end.

Definition apply (m : mutation) (seq : Z) (b : B) : B :=
  mkBroker
    (put_opt (λ c, key (ct_ID c) (ct_Revision c)) (cr_Contract <$> mu_Contract m) (catalog b))
    (put_opt (λ r, rq_ID (r_View r)) (mu_Request m) (requests b))
    (put_opt s_Hash (mu_Session m) (sessions b))
    (put_opt (λ c, cd_ID (c_View c)) (mu_Credential m) (credentials b))
    (put_opt (λ g, g_ID (g_View g)) (mu_Grant m) (grants b))
    (put_opt sr_Key (mu_State m) (states b))
    (put_opt o_StateHash (mu_OAuth m) (oauth b))
    (leases b) (events b ++ [ev_with_seq seq (mu_Audit m)])%list
    (refreshLocks b) (closed b) (cancelled b) (jrn b) (mat b) (prov b) (tick b).

Definition commit (m : mutation) : BM Z :=
  b ← get;
  if negb (live b) then mthrow_err ErrUnavailable
  else
    let '(j, r) := jr_append (jrn b) "mutation.v1" m in
    modify (set_jrn j) ;;
    match r with
    | None => mthrow_err ErrUnavailable
    | Some seq => modify (apply m seq) ;; mret seq
    end.

(** ** Dropping leases (broker/grants.go) *)

Definition dropLease (id : string) : BM unit :=
  b ← get;
  match leases b !! id with
  | None => mret tt
  | Some l =>
      modify (set_cancelled (lr_Active l ∪ cancelled b)) ;;
      modify (set_mat (mat_remove (mat b) id)) ;;
      modify (set_leases (delete id (leases b)))
  end.

(** [for lid, l := range b.leases { if p l { b.dropLease(lid) } }] *)
Definition drop_leases_where (p : leaseRecord → bool) : BM unit :=
  b ← get;
  lids ← range_keys (leases b);
  for_each lids (λ lid,
    b ← get;
    match leases b !! lid with
    | Some l => if p l then dropLease lid else mret tt
    | None => mret tt
    end).

Definition invalidateCredential (id : string) : BM unit :=
  drop_leases_where (λ l, l_CredentialID (lr_View l) == id).

Definition sweepLocked : BM unit :=
  b ← get;
  ids ← range_keys (leases b);
  for_each ids (λ id,
    b ← get;
    match leases b !! id with
    | Some l => t ← now; if negb (t <? l_ExpiresAt (lr_View l))%Z then dropLease id else mret tt
    | None => mret tt
    end).

Definition Sweep : BM unit := sweepLocked.

(** ** Reads (broker/broker.go) *)

Definition Healthy : BM bool := b ← get; mret (live b).

Definition GetRequest (a : Actor) (id : string) : BM Request :=
  b ← get;
  fail_if (negb (live b)) ErrUnavailable ;;
  r ← some_or (requests b !! id) ErrNotFound;
  fail_if (negb (requestBy a r)) ErrNotFound ;;
  let out := r_View r in
  t ← now;
  mret (if negb (t <? rq_ExpiresAt out)%Z
           && ((rq_Status out == "pending") || (rq_Status out == "authorizing"))
        then rq_with_status "expired" out else out).

Definition GetCredential (a : Actor) (id : string) : BM Credential :=
  b ← get;
  fail_if (negb (live b)) ErrUnavailable ;;
  c ← some_or (credentials b !! id) ErrNotFound;
  fail_if (negb (managedBy a c)) ErrNotFound ;;
  mret (c_View c).

(** The loop of [Events]: skip up to the cursor, advance it, filter, stop at [limit]. *)
Fixpoint events_loop (a : Actor) (after limit : Z) (out : Events) (l : list Event) : Events :=
  match l with
  | [] => out
  | e :: l' =>
      if (ev_Sequence e <=? after)%Z then events_loop a after limit out l'
      else
        let shown := (ev_Kind e == "broker.started")
          || ((ev_ContextID e == a_ContextID a)
              && ((ev_PrincipalID e == a_PrincipalID a) || a_ContextManager a)) in
        let out := mkEvents (if shown then es_Events out ++ [e] else es_Events out)%list
                     (ev_Sequence e) in
        if (limit <=? Z.of_nat (List.length (es_Events out)))%Z then out
        else events_loop a after limit out l'
  end.

Definition GetEvents (a : Actor) (after limit : Z) : BM Events :=
  b ← get;
  let limit := if (limit <? 1)%Z || (100 <? limit)%Z then 100%Z else limit in
  mret (events_loop a after limit (mkEvents [] after) (events b)).

Definition RecoveryRefs : BM (list Ref) :=
  b ← get;
  cks ← range_keys (credentials b);
  rks ← range_keys (requests b);
  gks ← range_keys (grants b);
  mret ((cks ≫= λ k, match credentials b !! k with
          | Some c => if c_Managed c && (cd_Status (c_View c) == "active") then [c_Ref c] else []
          | None => [] end)
        ++ (rks ≫= λ k, match requests b !! k with
             | Some r => match r_DraftRef r with
                         | Some d => if rq_Status (r_View r) == "authorizing" then [d] else []
                         | None => [] end
             | None => [] end)
        ++ (gks ≫= λ k, match grants b !! k with
             | Some g =>
                 match credentials b !! g_CredentialID (g_View g) with
                 | Some c =>
                     if negb (g_Active (g_View g)) || (cd_Status (c_View c) != "active") then []
                     else match states b !! Digest (cd_ID (c_View c) ++ "/" ++ g_ContextID (g_View g)
                                                      ++ "/" ++ g_BindingID (g_View g)) with
                          | Some st => if ref_Provider (sr_Ref st) != "" then [sr_Ref st] else []
                          | None => [] end
                 | None => [] end
             | None => [] end))%list.

Definition CancelRequest (a : Actor) (id : string) : BM unit :=
  b ← get;
  r ← some_or (requests b !! id) ErrNotFound;
  fail_if (negb (requestBy a r)) ErrNotFound ;;
  if rq_Status (r_View r) == "canceled" then mret tt
  else if rq_Status (r_View r) == "ready" then mthrow_err ErrConflict
  else
    let r := r_with_status "canceled" r in
    e ← audit "request.canceled" a;
    commit (mut_request (ev_cons (rq_ConsumerID (r_View r))
                          (ev_conn (rq_ConnectionID (r_View r)) (ev_req id e))) r) ;;
    mret tt.

Definition Catalog : BM (list Contract) :=
  b ← get;
  ks ← range_keys (catalog b);
  mret (omap (λ k, catalog b !! k) ks).

(** [Close]: the materializer's and the journal's errors are not modelled. *)
Definition Close : BM unit :=
  b ← get;
  if closed b then mret tt
  else
    modify (set_closed true) ;;
    modify (set_cancelled (map_fold (λ _ l acc, lr_Active l ∪ acc) (cancelled b) (leases b))) ;;
    modify (set_mat (mat_close (mat b))) ;;
    modify (set_jrn (jr_close (jrn b))).

(** ** Construction and replay *)

(** [OAuthProvider.Validate] (broker/oauth.go) *)
Definition OAuth_Validate (p : OAuthProvider) : bool :=
  if negb (op_HasClient p) || (op_ClientID p == "") || (512 <? len (op_ClientID p))%Z
     || (Z.of_nat (List.length (op_Scopes p)) =? 0)%Z
     || (32 <? Z.of_nat (List.length (op_Scopes p)))%Z
     || negb (str_in ["none"; "post"; "basic"] (op_AuthStyle p)) then false
  else if negb (forallb (λ raw,
            match url_parse raw with
            | None => false
            | Some u => negb ((u_Hostname u == "") || u_HasUser u || (u_RawQuery u != "")
                              || (u_Fragment u != "") || (u_Scheme u != "https"))
            end) [op_AuthorizeURL p; op_TokenURL p; op_RedirectURL p]) then false
  else if (op_AuthStyle p != "none") && negb (op_HasSecretSource p) then false
  else if negb (forallb (λ s, negb ((len s =? 0)%Z || (200 <? len s)%Z
            || ContainsAny s (String " " crlfnul))) (op_Scopes p)) then false
  else map_forallb (λ k v,
         negb (negb (str_in ["access_type"; "prompt"; "response_mode"] k)
               || ContainsAny v crlfnul || (80 <? len v)%Z)
         && negb ((k == "response_mode") && (v != "query"))) (op_AuthorizeParameters p).

(** One round of [for _, c := range cfg.Contracts]; [None] is [ErrInvalid]. *)
Definition add_contract (cat : gmap string Contract) (c : Contract) : option (gmap string Contract) :=
  let k := key (ct_ID c) (ct_Revision c) in
  let existing_id := match cat !! k with Some c' => ct_ID c' | None => "" end in
  if negb (Validate c) || (existing_id != "") || bool_decide (pv_caps (ct_Storage c) = None) then None
  else if (bool_decide (ct_State c ≠ None) || (ct_OAuthProvider c != ""))
          && negb (provider_writable (ct_Storage c)) then None
  else if (ct_OAuthProvider c != "")
          && negb (match cf_OAuth cfg !! ct_OAuthProvider c with
                   | Some p => OAuth_Validate p | None => false end) then None
  else Some (<[k := c]> cat).

Fixpoint build_catalog (cat : gmap string Contract) (l : list Contract) : option (gmap string Contract) :=
  match l with
  | [] => Some cat
  | c :: l' => cat' ← add_contract cat c; build_catalog cat' l'
  end.

Definition digest_matches (cat : gmap string Contract) (k digest : string) : bool :=
  match cat !! k with Some c => ContractDigest c == digest | None => false end.

(** One round of the replay loop of [New]. *)
Definition replay_record (r : JRecord) : BM unit :=
  match jr_Data r with
  | None => mthrow_err ErrUnavailable
  | Some m =>
      fail_if (jr_Kind r != "mutation.v1") ErrUnavailable ;;
      b ← get;
      fail_if (match mu_Contract m with
               | Some cr =>
                   match catalog b !! key (ct_ID (cr_Contract cr)) (ct_Revision (cr_Contract cr)) with
                   | Some existing => ContractDigest existing != ContractDigest (cr_Contract cr)
                   | None => false
                   end
               | None => false
               end) ErrConflict ;;
      modify (apply m (jr_Sequence r))
  end.

(** Interrupted code exchanges go back to [authorizing]. *)
Definition recover_exchanging (id : string) : BM unit :=
  b ← get;
  match requests b !! id with
  | Some r =>
      if rq_Status (r_View r) == "exchanging" then
        let r := r_with_oauth "" (r_with_status "authorizing" r) in
        ev ← audit "oauth.interrupted" (r_Actor r);
        commit (mut_request (ev_req (rq_ID (r_View r)) ev) r) ;; mret tt
      else mret tt
  | None => mret tt
  end.

(** The process state [New] starts from. *)
Definition blank (j : J) (m : MT) (p : PW) (t : nat) : B :=
  mkBroker ∅ ∅ ∅ ∅ ∅ ∅ ∅ ∅ [] ∅ false ∅ j m p t.

Definition origin_ok : bool :=
  match url_parse (cf_PublicOrigin cfg) with
  | None => false
  | Some u =>
      negb ((u_Hostname u == "") || u_HasUser u || (u_RawQuery u != "") || (u_Fragment u != "")
            || (u_Path u != "") || ((u_Scheme u != "https") && (u_Scheme u != "http"))
            || (len (cf_SessionKey cfg) != 32%Z)
            || (Z.of_nat (List.length (cf_ProviderIDs cfg)) =? 0)%Z)
      && negb ((u_Scheme u == "http") && (u_Hostname u != "127.0.0.1")
               && (u_Hostname u != "localhost") && (u_Hostname u != "::1"))
  end.

Definition New : BM unit :=
  fail_if (negb origin_ok) ErrInvalid ;;
  cat ← some_or (build_catalog ∅ (cf_Contracts cfg)) ErrInvalid;
  modify (set_catalog cat) ;;
  fail_if (size cat =? 0)%nat ErrInvalid ;;
  b ← get;
  for_each (jr_records (jrn b)) replay_record ;;
  b ← get;
  fail_if (negb (map_forallb (λ _ r, digest_matches (catalog b) (r_ContractKey r) (r_ContractDigest r))
                   (requests b))) ErrConflict ;;
  fail_if (negb (map_forallb (λ _ g, digest_matches (catalog b) (g_ContractKey g) (g_ContractDigest g))
                   (grants b))) ErrConflict ;;
  ids ← range_keys (requests b);
  for_each ids recover_exchanging ;;
  ev ← audit "broker.started" zero_actor;
  commit (no_mutation ev) ;; mret tt.
End Core.
