(* ===== verification/Enrollment.v ===== *)
(** Enrollment (broker/enrollment.go, broker/extra.go, broker/contracts.go):
    credential requests, browser sessions and their approval, form submission,
    the transition of a request into a credential ([ready]) and the registration
    of dynamic contracts. *)
From stdpp Require Import base gmap strings list sorting pretty.
From Stdlib Require Import Ascii String.
From S2P Require Import Prelude GoStrings BrokerIdentity Contract BrokerTypes BrokerCore.
Local Open Scope string_scope.

(** ** Request-scoped extras (broker/extra.go) *)

Definition f_relax (f : Field) : Field :=
  mkField (f_ID f) (f_Label f) (f_LabelI18n f) (f_Kind f) false (f_MaxBytes f).

Definition ct_with (fields : list Field) (deliveries : list Delivery) (c : Contract) : Contract :=
  mkContract (ct_ID c) (ct_Revision c) (ct_Title c) (ct_Storage c) fields deliveries (ct_State c)
    (ct_Routes c) (ct_OAuthProvider c) (ct_Intake c) (ct_AllowShared c) (ct_TitleI18n c).

Definition ct_with_storage (st : string) (c : Contract) : Contract :=
  mkContract (ct_ID c) (ct_Revision c) (ct_Title c) st (ct_Fields c) (ct_Deliveries c) (ct_State c)
    (ct_Routes c) (ct_OAuthProvider c) (ct_Intake c) (ct_AllowShared c) (ct_TitleI18n c).

(** [b.catalog[k]] for an absent key *)
Definition zero_contract : Contract := mkContract "" 0 "" "" [] [] None [] "" "" false ∅.

Definition requestContract (c : Contract) (extra : option Extra) (demoted : gset string) : Contract :=
  let fields := (ct_Fields c ++ match extra with Some e => ex_Fields e | None => [] end)%list in
  let deliveries := (ct_Deliveries c ++ match extra with Some e => ex_Deliveries e | None => [] end)%list in
  ct_with (map (λ f, if bool_decide (f_ID f ∈ demoted) then f_relax f else f) fields) deliveries c.

Definition validateExtra (c : Contract) (extra : option Extra) : bool :=
  match extra with
  | None => true
  | Some e =>
      if bool_decide (ex_Fields e = []) && bool_decide (ex_Deliveries e = []) then true
      else if (ct_OAuthProvider c != "") || negb (Extra_Validate e) then false
      else if existsb (λ f, str_in (map f_ID (ct_Fields c)) (f_ID f)) (ex_Fields e) then false
      else negb (existsb (λ d, str_in (map d_Target (ct_Deliveries c)) (d_Target d)) (ex_Deliveries e))
  end.

Definition requiredField (c : Contract) (id : string) : bool :=
  match List.find (λ f, f_ID f == id) (ct_Fields c) with
  | Some f => f_Required f
  | None => false
  end.

Definition sortedDemoted (demoted : gset string) : list string := merge_sort str_le (elements demoted).
Definition demotedSet (demoted : list string) : gset string := list_to_set demoted.

(** [for _, v := range m { if p(v) { ... return } }] when only the existence matters. *)
Definition map_existsb {V} (p : V → bool) (m : gmap string V) : bool :=
  existsb (λ kv, p kv.2) (map_to_list m).

Section Enrollment.
Context {J MT PW : Type} `{World} `{Digests} `{Codecs} `{Unicode}.
Context `{JournalOps J} `{Materializer MT} `{Providers PW}.
Variable cfg : Config.

Abbreviation B := (Broker J MT PW).
Abbreviation BM := (M (Broker J MT PW) BErr).

Definition sessionCode (raw : string) : string :=
  String.substring 0 16 (hmac32 (cf_SessionKey cfg) ("approval/v1/" ++ raw)).
Definition CSRF (raw request : string) : string :=
  hmac32 (cf_SessionKey cfg) ("csrf/v1/" ++ request ++ "/" ++ raw).

Definition contract_of (b : B) (k : string) : Contract := default zero_contract (catalog b !! k).

(** ** From request to credential *)

Definition ready (r : requestRecord) (ref : Ref) (managed : bool) (s : option sessionRecord) :
    BM credentialRecord :=
  b ← get;
  id ← (if r_RotateID r == "" then newID "c" else mret (r_RotateID r));
  rev ← (if r_RotateID r == "" then mret 1%Z
         else
           old ← some_or (credentials b !! id) ErrConflict;
           fail_if ((cd_Status (c_View old) == "deleted")
                    || negb (cd_Revision (c_View old) =? r_ExpectedRevision r)%Z) ErrConflict ;;
           mret (u64 (cd_Revision (c_View old) + 1)));
  let owned := (match credentials b !! id with Some old => c_OwnedRefs old | None => [] end
                ++ (if managed then match r_DraftRef r with Some d => [d] | None => [] end else [])
                ++ (if managed then [ref] else []))%list in
  let c := mkCredentialRecord
    (mkCredential id (r_OwnerKind r) (a_PrincipalID (r_Actor r)) (a_ContextID (r_Actor r))
       (rq_ConnectionID (r_View r)) (rq_ConsumerID (r_View r)) rev "active" (ref_Provider ref))
    (r_ContractKey r) (r_ContractDigest r) ref managed owned 1 (r_Extra r) (r_Demoted r) in
  let r := r_with_view (rq_ready id rev (r_View r)) r in
  let s := s_consume <$> s in
  ev ← audit "credential.ready" (r_Actor r);
  commit (mkMutation
    (ev_cred id (ev_cons (rq_ConsumerID (r_View r)) (ev_onb (rq_OnboardingID (r_View r))
      (ev_conn (rq_ConnectionID (r_View r)) (ev_req (rq_ID (r_View r)) ev)))))
    (Some r) s (Some c) None None None None) ;;
  invalidateCredential id ;;
  mret c.

(** ** Requests *)

(** The replay loop of [CreateRequest]. *)
Definition request_replay (idem fingerprint : string) : BM (option Request) :=
  b ← get;
  ids ← range_keys (requests b);
  for_return ids (λ id,
    match requests b !! id with
    | Some r =>
        if r_Idempotency r == idem then
          fail_if (r_Fingerprint r != fingerprint) ErrConflict ;; mret (Some (r_View r))
        else mret None
    | None => mret None
    end).

(** The loop that refuses a second open request for the same connection. *)
Definition request_open_conflict (a : Actor) (in_ : CreateRequestIn) : BM unit :=
  b ← get;
  ids ← range_keys (requests b);
  for_each ids (λ id,
    match requests b !! id with
    | Some prior =>
        let v := r_View prior in
        if (rq_ConnectionID v == cr_ConnectionID in_) && (rq_ConsumerID v == cr_ConsumerID in_)
           && (a_ContextID (r_Actor prior) == a_ContextID a)
           && ((rq_Status v == "pending") || (rq_Status v == "authorizing")
               || (rq_Status v == "exchanging"))
        then t ← now; fail_if (t <? rq_ExpiresAt v)%Z ErrConflict
        else mret tt
    | None => mret tt
    end).

(** The rotation check, or the refusal of a second credential. *)
Definition request_credential_guard (b : B) (a : Actor) (in_ : CreateRequestIn) (ck : string) :
    option BErr :=
  if cr_RotateCredentialID in_ != "" then
    match credentials b !! cr_RotateCredentialID in_ with
    | None => Some ErrDenied
    | Some existing =>
        let v := c_View existing in
        if negb (managedBy a existing) || (cd_Status v == "deleted")
           || (c_ContractKey existing != ck) || (cd_ConnectionID v != cr_ConnectionID in_)
           || (cd_OwnerKind v != cr_OwnerKind in_) || (cd_ConsumerID v != cr_ConsumerID in_)
        then Some ErrDenied else None
    end
  else if map_existsb (λ existing,
            (cd_ContextID (c_View existing) == a_ContextID a)
            && (cd_ConnectionID (c_View existing) == cr_ConnectionID in_)
            && (cd_ConsumerID (c_View existing) == cr_ConsumerID in_)
            && (cd_Status (c_View existing) != "deleted")) (credentials b)
  then Some ErrConflict else None.

(** The input check of [CreateRequest]. *)
Definition create_invalid (a : Actor) (in_ : CreateRequestIn) : bool :=
  negb (Actor_Valid a) || negb (ValidID (cr_ConnectionID in_))
  || negb (ValidID (cr_OnboardingID in_)) || negb (validIdempotency (cr_IdempotencyKey in_))
  || ((cr_OwnerKind in_ != "user") && (cr_OwnerKind in_ != "context"))
  || ((cr_OwnerKind in_ == "context") && negb (a_ContextManager a))
  || ((cr_ConsumerID in_ != "") && negb (ValidID (cr_ConsumerID in_))).

Definition CreateRequest (a : Actor) (in_ : CreateRequestIn) : BM Request :=
  b ← get;
  fail_if (negb (live b)) ErrUnavailable ;;
  fail_if (create_invalid a in_) ErrInvalid ;;
  let ck := key (cr_ContractID in_) (cr_ContractRevision in_) in
  c ← some_or (catalog b !! ck) ErrInvalid;
  fail_if ((cr_ExternalAlias in_ == "") && negb (provider_writable (ct_Storage c))) ErrInvalid ;;
  let fingerprint := Digest (marshal_create in_) in
  let idem := requestKey a (cr_IdempotencyKey in_) in
  replay ← request_replay idem fingerprint;
  match replay with
  | Some v => mret v
  | None =>
      fail_if (10000 <=? Z.of_nat (size (requests b)))%Z ErrUnavailable ;;
      match request_credential_guard b a in_ ck with
      | Some e => mthrow_err e
      | None =>
          request_open_conflict a in_ ;;
          fail_if (negb (validateExtra c (cr_Extra in_))) ErrInvalid ;;
          id ← newID "r";
          t ← now;
          let view := mkRequest id (ct_ID c) (ct_Revision c) (cr_ConnectionID in_)
            (cr_OnboardingID in_) (cr_ConsumerID in_) "pending" "" 0
            (cf_PublicOrigin cfg ++ "/connect/" ++ id) (t + 15 * Minute)%Z in
          let expected := if cr_RotateCredentialID in_ != "" then
              match credentials b !! cr_RotateCredentialID in_ with
              | Some e => cd_Revision (c_View e) | None => 0%Z end else 0%Z in
          let r := mkRequestRecord view a (cr_OwnerKind in_) ck (ContractDigest c) idem fingerprint
            (cr_RotateCredentialID in_) expected (cr_ExternalAlias in_) "" None (cr_Extra in_) [] in
          if cr_ExternalAlias in_ != "" then
            alias ← some_or (cf_ExternalAliases cfg !! cr_ExternalAlias in_) ErrDenied;
            fail_if ((xa_PrincipalID alias != a_PrincipalID a) || (xa_ContextID alias != a_ContextID a)
                     || (xa_ContractKey alias != ck) || (ct_OAuthProvider c != "")) ErrDenied ;;
            value ← provider_resolve (xa_Ref alias);
            value ← some_or value ErrUnavailable;
            fail_if (negb (ValidateValues c value)) ErrInvalid ;;
            ready (r_with_draft (Some (xa_Ref alias)) r) (xa_Ref alias) false None ;;
            b ← get;
            mret (match requests b !! id with Some r' => r_View r' | None => view end)
          else
            e ← audit "request.created" a;
            commit (mut_request (ev_cons (cr_ConsumerID in_) (ev_onb (cr_OnboardingID in_)
                      (ev_conn (cr_ConnectionID in_) (ev_req id e)))) r) ;;
            mret view
      end
  end.

(** ** Browser sessions *)

(** The session found (zero when none) and the verdict. *)
Definition validSession (raw id : string) (approved : bool) :
    BM (sessionRecord * res BErr requestRecord) :=
  b ← get;
  match sessions b !! Digest raw with
  | None => mret (zero_session, Err ErrExpired)
  | Some s =>
      match requests b !! id with
      | None => mret (s, Err ErrExpired)
      | Some r =>
          if (s_RequestID s != id) || s_Consumed s then mret (s, Err ErrExpired)
          else
            t1 ← now;
            if negb (t1 <? s_ExpiresAt s)%Z then mret (s, Err ErrExpired)
            else
              t2 ← now;
              mret (s,
                if negb (t2 <? rq_ExpiresAt (r_View r))%Z || (rq_Status (r_View r) == "canceled")
                   || (rq_Status (r_View r) == "ready") then Err ErrExpired
                else if approved && negb (s_Approved s) then Err ErrDenied
                else Ok r)
      end
  end.

(** [active] in [OpenSession]. *)
Definition count_active_sessions (id : string) : BM Z :=
  b ← get;
  ks ← range_keys (sessions b);
  for_fold ks 0%Z (λ active k,
    match sessions b !! k with
    | Some s =>
        if (s_RequestID s == id) && negb (s_Consumed s) then
          t ← now; mret (if (t <? s_ExpiresAt s)%Z then (active + 1)%Z else active)
        else mret active
    | None => mret active
    end).

Definition session_view (id : string) (c : Contract) (r : requestRecord) (s : sessionRecord)
    (raw : string) : SessionView :=
  mkSessionView id (ct_Title c) (ct_TitleI18n c) (rq_Status (r_View r)) (sessionCode raw)
    (s_Approved s)
    (if s_Approved s then ct_Fields c else [])
    (if s_Approved s then match r_Extra r with Some e => ex_Fields e | None => [] end else [])
    (s_Approved s && existsb f_Required (ct_Fields c))
    (ct_OAuthProvider c != "").

Definition OpenSession (id raw : string) : BM (SessionView * string) :=
  b ← get;
  fail_if (negb (live b)) ErrUnavailable ;;
  r ← some_or (requests b !! id) ErrNotFound;
  t ← now;
  fail_if (negb (t <? rq_ExpiresAt (r_View r))%Z || (rq_Status (r_View r) == "canceled")
           || (rq_Status (r_View r) == "ready")) ErrExpired ;;
  s ← (if raw != "" then sv ← validSession raw id false; mret sv.1 else mret zero_session);
  stale ← (if (s_Hash s == "") || s_Consumed s || (s_RequestID s != id) then mret true
           else t ← now; mret (negb (t <? s_ExpiresAt s)%Z));
  sr ← (if (stale : bool) then
          active ← count_active_sessions id;
          fail_if ((8 <=? active)%Z || (50000 <=? Z.of_nat (size (sessions b)))%Z) ErrConflict ;;
          raw ← Random;
          let s := mkSessionRecord (Digest raw) (Digest (sessionCode raw)) id
                     (rq_ExpiresAt (r_View r)) (cf_DirectForm cfg) false in
          e ← audit "session.opened" (r_Actor r);
          commit (mut_session (ev_req id e) s) ;;
          mret (s, raw)
        else mret (s, raw));
  let '(s, raw) := sr in
  mret (session_view id (contract_of b (r_ContractKey r)) r s raw, raw).

(** The code as typed, normalized. *)
Definition normalize_code (code : string) : string :=
  ToUpper (remove_char "-" (TrimSpace code)).

Definition Approve (a : Actor) (id code : string) : BM unit :=
  b ← get;
  r ← some_or (requests b !! id) ErrNotFound;
  fail_if (negb (requestBy a r)) ErrNotFound ;;
  fail_if (negb (live b)) ErrUnavailable ;;
  t ← now;
  fail_if (negb (t <? rq_ExpiresAt (r_View r))%Z || (rq_Status (r_View r) != "pending")) ErrExpired ;;
  let code := normalize_code code in
  fail_if (negb (len code =? 16)%Z) ErrDenied ;;
  ks ← range_keys (sessions b);
  done_ ← for_return ks (λ k,
    match sessions b !! k with
    | Some s =>
        if (s_RequestID s == id) && negb (s_Consumed s) && negb (s_Approved s) then
          t ← now;
          if (t <? s_ExpiresAt s)%Z && (s_CodeHash s == Digest code) then
            fail_if (map_existsb (λ other, (s_RequestID other == id) && s_Approved other
                                           && negb (s_Consumed other)) (sessions b)) ErrConflict ;;
            e ← audit "session.approved" a;
            commit (mut_session (ev_req id e) (s_approve s)) ;;
            mret (Some tt)
          else mret None
        else mret None
    | None => mret None
    end);
  match done_ with Some _ => mret tt | None => mthrow_err ErrDenied end.

(** ** Submission *)

Definition Submit (id raw csrf : string) (values : Bundle) (demoted : gset string) : BM unit :=
  b ← get;
  fail_if (negb (live b)) ErrUnavailable ;;
  sv ← validSession raw id true;
  let '(s, verdict) := sv in
  match verdict with
  | Err e => mthrow_err e
  | Ok r =>
      fail_if ((csrf != CSRF raw id) || (rq_Status (r_View r) != "pending")) ErrDenied ;;
      let c := contract_of b (r_ContractKey r) in
      fail_if (existsb (λ f, negb (requiredField c f)) (elements demoted)) ErrInvalid ;;
      fail_if (negb (ValidateValues (requestContract c (r_Extra r) demoted) values)) ErrInvalid ;;
      let r := r_with_demoted (sortedDemoted demoted) r in
      ref ← provider_put (ct_Storage c) values;
      ref ← some_or ref ErrUnavailable;
      if ct_OAuthProvider c != "" then
        let r := r_with_status "authorizing" (r_with_draft (Some ref) r) in
        ev ← audit "request.authorizing" (r_Actor r);
        commit (mut_request (ev_req id ev) r) ;; mret tt
      else ready r ref true (Some s) ;; mret tt
  end.

Definition SubmitTelegram (a : Actor) (id : string) (values : Bundle) : BM unit :=
  b ← get;
  fail_if (negb (live b)) ErrUnavailable ;;
  r ← some_or (requests b !! id) ErrNotFound;
  fail_if (negb (requestBy a r) || (rq_ContractID (r_View r) != "telegram-session")
           || negb (rq_ContractRevision (r_View r) =? 2)%Z) ErrNotFound ;;
  t ← now;
  fail_if (negb (t <? rq_ExpiresAt (r_View r))%Z || (rq_Status (r_View r) != "pending")) ErrExpired ;;
  let c := contract_of b (r_ContractKey r) in
  fail_if (negb (ValidateValues c values)) ErrInvalid ;;
  ref ← provider_put (ct_Storage c) values;
  ref ← some_or ref ErrUnavailable;
  ready r ref true None ;; mret tt.

(** ** Dynamic contracts (broker/contracts.go) *)

Definition RegisterContract (a : Actor) (c : Contract) : BM Contract :=
  b ← get;
  fail_if (negb (live b)) ErrUnavailable ;;
  fail_if (negb (Actor_Valid a)) ErrInvalid ;;
  fail_if ((ct_OAuthProvider c != "") || negb (bool_decide (List.length (ct_Routes c) = 0))) ErrDenied ;;
  fail_if (match ct_State c with
           | None => false
           | Some st =>
               ct_AllowShared c
               || match st_Files st with
                  | [f] => negb (sf_JSON f) || (65536 <? sf_MaxBytes f)%Z
                  | _ => true
                  end
           end) ErrDenied ;;
  let c := if ct_Storage c == "" then
             match List.find provider_writable (merge_sort str_le (cf_ProviderIDs cfg)) with
             | Some p => ct_with_storage p c
             | None => c
             end
           else c in
  fail_if (negb (Validate c) || bool_decide (pv_caps (ct_Storage c) = None)) ErrInvalid ;;
  let k := key (ct_ID c) (ct_Revision c) in
  match catalog b !! k with
  | Some existing =>
      if ContractDigest existing == ContractDigest c then mret existing else mthrow_err ErrConflict
  | None =>
      e ← audit "contract.registered" a;
      commit (mkMutation (ev_contract k e) None None None None None None
                (Some (mkContractRecord c))) ;;
      mret c
  end.
End Enrollment.
