(* ===== verification/Grants.v ===== *)
(** Grants and leases (broker/grants.go): who may use a credential, from which
    workload, and for how long. *)
From stdpp Require Import base gmap strings list pretty.
From Stdlib Require Import Ascii String.
From S2P Require Import Prelude GoStrings BrokerIdentity Contract BrokerTypes BrokerCore Enrollment.
Local Open Scope string_scope.

Definition grantMatches (a : Actor) (g : grantRecord) : bool :=
  let v := g_View g in
  g_Active v && (a_PrincipalID a == g_PrincipalID v) && (a_ContextID a == g_ContextID v)
  && (a_RuntimeID a == g_RuntimeID v) && (a_PolicyVersion a == g_PolicyVersion v)
  && ((a_BindingID a == "") || (a_BindingID a == g_BindingID v))
  && ((a_WorkloadID a == "") || (a_WorkloadID a == g_WorkloadID v)).

(** What one round of the scan in [CreateGrant] decides. *)
Inductive GrantScan :=
  | ScanReturn (v : Grant)   (** [return g.View, nil] *)
  | ScanFail (e : BErr)      (** [return v1.Grant{}, e] *)
  | ScanRetire               (** [retire = append(retire, g)] *)
  | ScanNext.                (** [continue] *)

Definition process_scoped (c : Contract) : bool :=
  bool_decide (ct_Deliveries c ≠ []) || bool_decide (ct_State c ≠ None).

Definition grant_scan (catalog_ : gmap string Contract) (a : Actor) (credentialID : string)
    (in_ : GrantRequest) (ck idem fp : string) (target : Contract) (g : grantRecord) : GrantScan :=
  let v := g_View g in
  if g_Idempotency g == idem then
    if g_Fingerprint g != fp then ScanFail ErrConflict else ScanReturn v
  else if negb (g_Active v) then ScanNext
  else if (g_BindingID v == gr_BindingID in_) && (g_ContextID v == gr_ContextID in_)
          && (g_PrincipalID v == gr_PrincipalID in_) then
    if (g_CredentialID v == credentialID) && (g_RuntimeID v == gr_RuntimeID in_)
       && (g_WorkloadID v == gr_WorkloadID in_) && (g_PolicyVersion v == a_PolicyVersion a)
       && (g_Execution v == gr_Execution in_) && (g_ContractKey g == ck)
    then ScanReturn v else ScanFail ErrConflict
  else if g_WorkloadID v == gr_WorkloadID in_ then
    if (gr_Execution in_ == "dedicated") && (g_Execution v == "dedicated")
       && (g_CredentialID v == credentialID) && (g_PrincipalID v == gr_PrincipalID in_)
       && (g_ContextID v == gr_ContextID in_) && (g_RuntimeID v == gr_RuntimeID in_)
       && (g_PolicyVersion v == a_PolicyVersion a) && (g_ContractKey g == ck)
    then ScanRetire
    else if (gr_Execution in_ != "shared") || (g_Execution v != "shared") then ScanFail ErrDenied
    else
      let oldContract := default zero_contract (catalog_ !! g_ContractKey g) in
      if (process_scoped target || process_scoped oldContract)
         && ((g_CredentialID v != credentialID) || (g_ContractKey g != ck))
      then ScanFail ErrDenied else ScanNext
  else ScanNext.

(** [for _, g := range b.grants]: an early return, an error, or the grants to retire. *)
Fixpoint grant_scan_loop (scan : grantRecord → GrantScan) (m : gmap string grantRecord)
    (ks : list string) (retire : list grantRecord) : res BErr (Grant + list grantRecord) :=
  match ks with
  | [] => Ok (inr retire)
  | k :: ks' =>
      match m !! k with
      | None => grant_scan_loop scan m ks' retire
      | Some g =>
          match scan g with
          | ScanReturn v => Ok (inl v)
          | ScanFail e => Err e
          | ScanRetire => grant_scan_loop scan m ks' (retire ++ [g])%list
          | ScanNext => grant_scan_loop scan m ks' retire
          end
      end
  end.

Section Grants.
Context {J MT PW : Type} `{World} `{Digests} `{Codecs} `{Unicode}.
Context `{JournalOps J} `{Materializer MT} `{Providers PW}.
Variable cfg : Config.

Abbreviation B := (Broker J MT PW).
Abbreviation BM := (M (Broker J MT PW) BErr).

(** Persist the revocation of a grant, then drop its leases. *)
Definition revoke_grant (a : Actor) (credentialID : string) (g : grantRecord) : BM unit :=
  ev ← audit "grant.revoked" a;
  commit (mut_grant (ev_workload (g_WorkloadID (g_View g)) (ev_binding (g_BindingID (g_View g))
            (ev_grant (g_ID (g_View g)) (ev_cred credentialID ev)))) (g_revoke g)) ;;
  drop_leases_where (λ l, l_GrantID (lr_View l) == g_ID (g_View g)).

Definition CreateGrant (a : Actor) (credentialID : string) (in_ : GrantRequest) : BM Grant :=
  b ← get;
  fail_if (negb (live b)) ErrUnavailable ;;
  c ← some_or (credentials b !! credentialID) ErrNotFound;
  fail_if (negb (managedBy a c)) ErrNotFound ;;
  fail_if (cd_Status (c_View c) != "active") ErrDenied ;;
  fail_if (negb (forallb ValidID [gr_PrincipalID in_; gr_ContextID in_; gr_RuntimeID in_;
                                  gr_BindingID in_; gr_WorkloadID in_])) ErrInvalid ;;
  fail_if (negb (validIdempotency (gr_IdempotencyKey in_))
           || ((gr_Execution in_ != "dedicated") && (gr_Execution in_ != "shared"))
           || (gr_ContextID in_ != cd_ContextID (c_View c))) ErrInvalid ;;
  fail_if ((cd_OwnerKind (c_View c) == "user")
           && (gr_PrincipalID in_ != cd_PrincipalID (c_View c))) ErrDenied ;;
  let ck := key (gr_ContractID in_) (gr_ContractRevision in_) in
  target ← some_or (catalog b !! ck) ErrInvalid;
  fail_if (negb (Compatible (contract_of b (c_ContractKey c)) target)) ErrInvalid ;;
  fail_if ((gr_Execution in_ == "shared") && negb (ct_AllowShared target)) ErrDenied ;;
  let fp := Digest (marshal_grant in_) in
  let idem := requestKey a ("grant/" ++ credentialID ++ "/" ++ gr_IdempotencyKey in_) in
  ks ← range_keys (grants b);
  match grant_scan_loop (grant_scan (catalog b) a credentialID in_ ck idem fp target)
          (grants b) ks [] with
  | Err e => mthrow_err e
  | Ok (inl v) => mret v
  | Ok (inr retire) =>
      fail_if (50000 <=? Z.of_nat (size (grants b)))%Z ErrUnavailable ;;
      for_each retire (revoke_grant a credentialID) ;;
      id ← newID "g";
      let g := mkGrantRecord
        (mkGrant id credentialID (gr_PrincipalID in_) (gr_ContextID in_) (gr_RuntimeID in_)
           (gr_BindingID in_) (gr_WorkloadID in_) (gr_Execution in_) (ct_ID target)
           (ct_Revision target) (a_PolicyVersion a) true)
        ck (ContractDigest target) idem fp in
      ev ← audit "grant.created" a;
      commit (mut_grant (ev_workload (gr_WorkloadID in_) (ev_binding (gr_BindingID in_)
                (ev_grant id (ev_cred credentialID ev)))) g) ;;
      mret (g_View g)
  end.

Definition GetGrant (a : Actor) (id : string) : BM Grant :=
  b ← get;
  fail_if (negb (live b)) ErrUnavailable ;;
  g ← some_or (grants b !! id) ErrNotFound;
  c ← some_or (credentials b !! g_CredentialID (g_View g)) ErrNotFound;
  fail_if (negb (managedBy a c)) ErrNotFound ;;
  mret (g_View g).

(** The key of a binding's state snapshot. *)
Definition state_key (c : credentialRecord) (g : grantRecord) : string :=
  Digest (cd_ID (c_View c) ++ "/" ++ g_ContextID (g_View g) ++ "/" ++ g_BindingID (g_View g)).

Definition Acquire (a : Actor) (in_ : AcquireLease) : BM Lease :=
  b ← get;
  fail_if (negb (live b)) ErrUnavailable ;;
  sweepLocked ;;
  b ← get;
  g ← some_or (grants b !! al_GrantID in_) (Denial "grant_missing");
  fail_if (negb (grantMatches a g)) (Denial "identity_mismatch") ;;
  c ← some_or (credentials b !! g_CredentialID (g_View g)) (Denial "credential_inactive");
  fail_if (cd_Status (c_View c) != "active") (Denial "credential_inactive") ;;
  let ttl := if (al_TTLSeconds in_ =? 0)%Z then 60%Z else al_TTLSeconds in_ in
  fail_if ((ttl <? 1)%Z || (300 <? ttl)%Z) ErrInvalid ;;
  fail_if (4096 <=? Z.of_nat (size (leases b)))%Z ErrUnavailable ;;
  let cc := contract_of b (g_ContractKey g) in
  let stateKey := if bool_decide (ct_State cc ≠ None) then state_key c g else "" in
  fail_if (bool_decide (ct_State cc ≠ None)
           && map_existsb (λ l, lr_StateKey l == stateKey) (leases b)) ErrConflict ;;
  id ← newID "l";
  t ← now;
  let view := mkLease id (g_ID (g_View g)) (cd_ID (c_View c)) (cd_Revision (c_View c))
                (t + ttl * Second)%Z (ct_Deliveries cc) (ct_State cc) (map r_ID (ct_Routes cc)) in
  ev ← audit "lease.acquired" a;
  commit (no_mutation (ev_workload (g_WorkloadID (g_View g)) (ev_binding (g_BindingID (g_View g))
            (ev_lease id (ev_grant (g_ID (g_View g)) (ev_cred (cd_ID (c_View c)) ev)))))) ;;
  b ← get;
  modify (set_leases (<[id := mkLeaseRecord view None stateKey ∅]> (leases b))) ;;
  mret view.

(** [lease]: the checks every use of a lease goes through. *)
Definition lease (a : Actor) (id : string) : BM (leaseRecord * grantRecord * credentialRecord) :=
  b ← get;
  fail_if (negb (live b)) ErrUnavailable ;;
  l ← some_or (leases b !! id) ErrDenied;
  g ← some_or (grants b !! l_GrantID (lr_View l)) ErrDenied;
  fail_if (negb (grantMatches a g)) ErrDenied ;;
  c ← some_or (credentials b !! l_CredentialID (lr_View l)) ErrExpired;
  fail_if ((cd_Status (c_View c) != "active")
           || negb (cd_Revision (c_View c) =? l_Revision (lr_View l))%Z) ErrExpired ;;
  t ← now;
  fail_if (negb (t <? l_ExpiresAt (lr_View l))%Z) ErrExpired ;;
  mret (l, g, c).

Definition RevokeGrant (a : Actor) (id : string) : BM unit :=
  b ← get;
  g ← some_or (grants b !! id) ErrNotFound;
  c ← some_or (credentials b !! g_CredentialID (g_View g)) ErrNotFound;
  fail_if (negb (managedBy a c)) ErrNotFound ;;
  if negb (g_Active (g_View g)) then mret tt
  else
    ev ← audit "grant.revoked" a;
    commit (mut_grant (ev_workload (g_WorkloadID (g_View g)) (ev_binding (g_BindingID (g_View g))
              (ev_grant id (ev_cred (cd_ID (c_View c)) ev)))) (g_revoke g)) ;;
    drop_leases_where (λ l, l_GrantID (lr_View l) == id).

(** One round of the loop of [RevokeCredential] over the credential's grants. *)
Definition revoke_if_granted (a : Actor) (id gid : string) : BM unit :=
  b ← get;
  match grants b !! gid with
  | Some g =>
      if (g_CredentialID (g_View g) != id) || negb (g_Active (g_View g)) then mret tt
      else
        ev ← audit "grant.revoked" a;
        commit (mut_grant (ev_workload (g_WorkloadID (g_View g)) (ev_binding (g_BindingID (g_View g))
                  (ev_grant gid (ev_cred id ev)))) (g_revoke g)) ;;
        mret tt
  | None => mret tt
  end.

Definition revoke_credential_grants (a : Actor) (id : string) : BM unit :=
  b ← get;
  gids ← range_keys (grants b);
  for_each gids (revoke_if_granted a id).

Definition RevokeCredential (a : Actor) (id : string) : BM unit :=
  b ← get;
  c ← some_or (credentials b !! id) ErrNotFound;
  fail_if (negb (managedBy a c)) ErrNotFound ;;
  if (cd_Status (c_View c) == "revoked") || (cd_Status (c_View c) == "deleted") then mret tt
  else
    let c := c_with_view (cd_with (u64 (cd_Revision (c_View c) + 1)) "revoked" (c_View c)) c in
    ev ← audit "credential.revoked" a;
    commit (mut_credential (ev_cons (cd_ConsumerID (c_View c)) (ev_conn (cd_ConnectionID (c_View c))
              (ev_cred id ev))) c) ;;
    invalidateCredential id ;;
    revoke_credential_grants a id.

(** Delete every version a credential owns, in order, until one fails. *)
Definition delete_owned_refs (refs : list Ref) : BM unit :=
  for_each refs (λ ref,
    fail_if (match pv_caps (ref_Provider ref) with
             | Some caps => negb (cap_Delete caps) | None => true end) ErrUnavailable ;;
    ok ← provider_delete (ref_Provider ref) ref;
    fail_if (negb ok) ErrUnavailable).

(** Whether a state snapshot belongs to a grant of the credential. *)
Definition state_belongs (b : B) (id sk : string) : bool :=
  map_existsb (λ g, (g_CredentialID (g_View g) == id)
    && (Digest (id ++ "/" ++ g_ContextID (g_View g) ++ "/" ++ g_BindingID (g_View g)) == sk)) (grants b).

Definition delete_states (id : string) : BM unit :=
  b ← get;
  sks ← range_keys (states b);
  for_each sks (λ sk,
    match states b !! sk with
    | Some s =>
        if state_belongs b id sk then
          fail_if (bool_decide (pv_caps (ref_Provider (sr_Ref s)) = None)) ErrUnavailable ;;
          for_each (sr_OwnedRefs s) (λ ref,
            ok ← provider_delete (ref_Provider (sr_Ref s)) ref; fail_if (negb ok) ErrUnavailable)
        else mret tt
    | None => mret tt
    end).

(** The second critical section of [DeleteCredential]. *)
Definition delete_revoked (a : Actor) (id : string) : BM unit :=
  b ← get;
  match credentials b !! id with
  | None => mthrow_err ErrNotFound   (* unreachable: credentials are never removed *)
  | Some c =>
      if cd_Status (c_View c) == "deleted" then mret tt
      else
        delete_owned_refs (c_OwnedRefs c) ;;
        delete_states id ;;
        let c := c_with_view (cd_with (cd_Revision (c_View c)) "deleted" (c_View c)) c in
        ev ← audit "credential.deleted" a;
        commit (mut_credential (ev_cred id ev) c) ;; mret tt
  end.

Definition DeleteCredential (a : Actor) (id : string) : BM unit :=
  RevokeCredential a id ;; delete_revoked a id.

Definition InspectLease (a : Actor) (id : string) : BM Lease :=
  lgc ← lease a id; mret (lr_View lgc.1.1).

Definition Renew (a : Actor) (id : string) (seconds : Z) : BM Lease :=
  lgc ← lease a id;
  let '(l, g, c) := lgc in
  fail_if ((seconds <? 1)%Z || (300 <? seconds)%Z) ErrInvalid ;;
  t ← now;
  let expires := (t + seconds * Second)%Z in
  fail_if (expires <? l_ExpiresAt (lr_View l))%Z ErrInvalid ;;
  ev ← audit "lease.renewed" a;
  commit (no_mutation (ev_grant (g_ID (g_View g)) (ev_cred (cd_ID (c_View c)) (ev_lease id ev)))) ;;
  b ← get;
  modify (set_leases (<[id := lr_renewed expires l]> (leases b))) ;;
  mret (l_with_expiry expires (lr_View l)).
End Grants.
