(* ===== verification/BrokerRuntime.v ===== *)
(** The runtime side (broker/runtime.go, broker/oauth.go): authorized uses of a
    lease, materialization into a workload, checkpoint and release, and the
    OAuth authorization-code flow with token refresh.

    [Materialize], [Resolve], [CompleteOAuth] and [AccessToken] give up [b.mu]
    while they talk to providers or token endpoints.  Each critical section is a
    definition of its own; the operation is their sequence. *)
From stdpp Require Import base gmap strings list pretty.
From Stdlib Require Import Ascii String.
From S2P Require Import Prelude GoStrings BrokerIdentity Contract BrokerTypes BrokerCore Enrollment Grants.
Local Open Scope string_scope.

(** [Use]: the closures [Finish] and [Valid] are the functions below, applied to
    what they capture. *)
Record Use := mkUse {
  use_Actor : Actor;
  use_LeaseID : string;
  use_Op : string;
  use_Deadline : Z;
  use_Contract : Contract;
  use_CredentialID : string;
  use_Ref : Ref;
}.

(** Keys the broker reserves for OAuth tokens start with [$]. *)
Definition reserved_key (k : string) : bool := HasPrefix k "$".

(** The bundle without its reserved keys. *)
Definition without_reserved (v : Bundle) : Bundle := filter (λ kv, reserved_key kv.1 = false) v.

Definition oauthAccess : string := "$oauth_access_token".
Definition oauthRefresh : string := "$oauth_refresh_token".
Definition oauthExpiry : string := "$oauth_expires_at".

(** What the token endpoint answers: the status and, for 200, the decoded body. *)
Record TokenDoc := mkTokenDoc {
  td_Access : string; td_Refresh : string; td_TokenType : string; td_Expires : string;
  td_Scope : string }.
Record TokenResponse := mkTokenResponse { tr_Status : Z; tr_Body : string }.

(** The network side of an OAuth provider, and the text codecs it needs. *)
Class TokenEndpoint (PW : Type) := {
  te_secret : PW → OAuthProvider → PW * option string;
  te_post : PW → OAuthProvider → gmap string string → option (string * string) →
    PW * option TokenResponse;
  te_decode : string → option TokenDoc;              (** [json.Unmarshal] into the token document *)
  te_s256 : string → string;                         (** base64url SHA-256 of a PKCE verifier *)
  te_url : string → gmap string string → string;     (** a URL with this encoded query *)
  te_escape : string → string;                       (** [url.QueryEscape] *)
}.

Section Runtime.
Context {J MT PW : Type} `{World} `{Digests} `{Codecs} `{Unicode}.
Context `{JournalOps J} `{Materializer MT} `{Providers PW} `{TokenEndpoint PW}.
Variable cfg : Config.

Abbreviation B := (Broker J MT PW).
Abbreviation BM := (M (Broker J MT PW) BErr).

Definition update_lease (id : string) (l : leaseRecord) : BM unit :=
  b ← get; modify (set_leases (<[id := l]> (leases b))).

(** ** Uses (broker/runtime.go) *)

Definition BeginUse (a : Actor) (id : string) : BM Use :=
  fail_if (negb (ValidID (a_BindingID a)) || negb (ValidID (a_WorkloadID a))) ErrDenied ;;
  lgc ← lease a id;
  let '(l, g, c) := lgc in
  fail_if (16 <=? Z.of_nat (size (lr_Active l)))%Z ErrUnavailable ;;
  ev ← audit "lease.used" a;
  commit (no_mutation (ev_workload (g_WorkloadID (g_View g)) (ev_binding (g_BindingID (g_View g))
            (ev_cred (cd_ID (c_View c)) (ev_grant (g_ID (g_View g)) (ev_lease id ev)))))) ;;
  op ← newID "u";
  t ← now;
  t' ← now;
  b ← get;
  update_lease id (lr_with_active ({[op]} ∪ lr_Active l) l) ;;
  mret (mkUse a id op (t' + (l_ExpiresAt (lr_View l) - t))%Z
          (requestContract (contract_of b (g_ContractKey g)) (c_Extra c) (demotedSet (c_Demoted c)))
          (cd_ID (c_View c)) (c_Ref c)).

Definition use_Finish (u : Use) : BM unit :=
  b ← get;
  modify (set_cancelled ({[use_Op u]} ∪ cancelled b)) ;;
  match leases b !! use_LeaseID u with
  | Some cur => update_lease (use_LeaseID u) (lr_with_active (lr_Active cur ∖ {[use_Op u]}) cur)
  | None => mret tt
  end.

(** [ctx.Err() == nil]: not cancelled, before its deadline, parent still live. *)
Definition ctx_live (u : Use) : BM bool :=
  b ← get;
  modify (set_tick (S (tick b))) ;;
  t ← now;
  mret (negb (bool_decide (use_Op u ∈ cancelled b)) && (t <? use_Deadline u)%Z && w_ctx (tick b)).

Definition use_Valid (u : Use) : BM bool :=
  r ← try (lease (use_Actor u) (use_LeaseID u));
  if res_ok r then ctx_live u else mret false.

Definition Resolve (u : Use) : BM Bundle :=
  v1 ← use_Valid u;
  fail_if (negb v1) ErrDenied ;;
  value ← provider_resolve (use_Ref u);
  value ← some_or value ErrUnavailable;
  if negb (ValidateValues (use_Contract u) (without_reserved value)) then mthrow_err ErrDenied
  else
    v2 ← use_Valid u;
    fail_if (negb v2) ErrDenied ;;
    mret value.

(** Section of [Materialize] before the providers are asked: an earlier result,
    or the state snapshot and the expiry to work with. *)
Definition materialize_look (a : Actor) (id : string) : BM (Materialized + stateRecord * Z) :=
  lgc ← lease a id;
  let l := lgc.1.1 in
  match lr_Materialized l with
  | Some m => mret (inl m)
  | None =>
      b ← get;
      mret (inr (default zero_state (states b !! lr_StateKey l), l_ExpiresAt (lr_View l)))
  end.

(** Last section of [Materialize]. *)
Definition materialize_finish (a : Actor) (id : string) (u : Use) (expires : Z)
    (values state : Bundle) : BM Materialized :=
  lgc ← lease a id;
  let l := lgc.1.1 in
  match lr_Materialized l with
  | Some m => mret m
  | None =>
      b ← get;
      let '(mt, out) := mat_prepare (mat b) id expires (use_Contract u) values state in
      modify (set_mat mt) ;;
      out ← some_or out ErrUnavailable;
      ev ← audit "lease.materialized" a;
      r ← try (commit (no_mutation (ev_cred (use_CredentialID u) (ev_lease id ev))));
      match r with
      | Err e => b ← get; modify (set_mat (mat_remove (mat b) id)) ;; mthrow_err e
      | Ok _ => update_lease id (lr_materialize out l) ;; mret out
      end
  end.

Definition materialize_body (a : Actor) (id : string) (u : Use) : BM Materialized :=
  look ← materialize_look a id;
  match look with
  | inl m => mret m
  | inr (stateRec, expires) =>
      values ← Resolve u;
      let values := without_reserved values in
      state ← (if ref_Provider (sr_Ref stateRec) != "" then
                 st ← provider_resolve (sr_Ref stateRec); some_or st ErrUnavailable
               else mret ∅);
      materialize_finish a id u expires values state
  end.

Definition Materialize (a : Actor) (id : string) : BM Materialized :=
  u ← BeginUse a id;
  r ← try (materialize_body a id u);
  use_Finish u ;;
  match r with Ok m => mret m | Err e => mthrow_err e end.

(** The checkpoint part of [Release]. *)
Definition checkpoint (a : Actor) (id : string) (l : leaseRecord) (g : grantRecord)
    (c : credentialRecord) (in_ : RuntimeRelease) : BM unit :=
  fail_if (negb (rr_Quiesced in_) || (lr_StateKey l == "")
           || bool_decide (lr_Materialized l = None)) ErrInvalid ;;
  b ← get;
  let cc := contract_of b (g_ContractKey g) in
  let '(mt, values) := mat_snapshot (mat b) id cc in
  modify (set_mat mt) ;;
  values ← some_or values ErrInvalid;
  ref ← provider_put (ct_Storage cc) values;
  ref ← some_or ref ErrUnavailable;
  b ← get;
  let old := default zero_state (states b !! lr_StateKey l) in
  let sr := mkStateRecord (sr_OwnedRefs old ++ [ref])%list (lr_StateKey l) ref
              (u64 (sr_Revision old + 1)) in
  ev ← audit "state.checkpointed" a;
  commit (mkMutation (ev_binding (g_BindingID (g_View g)) (ev_lease id (ev_cred (cd_ID (c_View c)) ev)))
            None None None None (Some sr) None None) ;;
  mret tt.

Definition Release (a : Actor) (id : string) (in_ : RuntimeRelease) : BM unit :=
  lgc ← lease a id;
  let '(l, g, c) := lgc in
  (if rr_Checkpoint in_ then checkpoint a id l g c in_ else mret tt) ;;
  ev ← audit "lease.released" a;
  commit (no_mutation (ev_cred (cd_ID (c_View c)) (ev_lease id ev))) ;;
  dropLease id.

(** ** OAuth (broker/oauth.go) *)

(** The query of [authorization]. *)
Definition authorization_query (p : OAuthProvider) (state verifier : string) : gmap string string :=
  op_AuthorizeParameters p ∪
  {[ "response_type" := "code"; "client_id" := op_ClientID p; "redirect_uri" := op_RedirectURL p;
     "scope" := String.concat " " (op_Scopes p); "state" := state;
     "code_challenge" := te_s256 verifier; "code_challenge_method" := "S256" ]}.
Definition authorization (p : OAuthProvider) (state verifier : string) : string :=
  te_url (op_AuthorizeURL p) (authorization_query p state verifier).

(** What [tokens] makes of the response. *)
Definition tokens_of_response (p : OAuthProvider) (r : TokenResponse) : res BErr oauthTokens :=
  if negb (tr_Status r =? 200)%Z then
    if (tr_Status r =? 400)%Z || (tr_Status r =? 401)%Z then Err ErrReauthorize else Err ErrUnavailable
  else if (65536 <? len (tr_Body r))%Z || negb (strictjson_Valid (tr_Body r)) then Err ErrUnavailable
  else
    match te_decode (tr_Body r) with
    | None => Err ErrUnavailable
    | Some doc =>
        if (td_Access doc == "") || (16384 <? len (td_Access doc))%Z || (16384 <? len (td_Refresh doc))%Z
           || negb (EqualFold (td_TokenType doc) "bearer")
           || ContainsAny (td_Access doc ++ td_Refresh doc) crlfnul then Err ErrUnavailable
        else
          match ParseInt (Trim (ascii_of_nat 34) (td_Expires doc)) with
          | None => Err ErrUnavailable
          | Some n =>
              if (n <? 1)%Z || (86400 <? n)%Z then Err ErrUnavailable
              else if (td_Scope doc != "")
                      && negb (forallb (λ want, str_in (Fields (td_Scope doc)) want) (op_Scopes p))
              then Err ErrReauthorize
              else Ok (mkOAuthTokens (td_Access doc) (td_Refresh doc) n)
          end
    end.

Definition tokens (w : PW) (p : OAuthProvider) (form : gmap string string) : PW * res BErr oauthTokens :=
  let form := <["client_id" := op_ClientID p]> form in
  let '(w, secret) := if op_HasSecretSource p then te_secret w p else (w, Some "") in
  match secret with
  | None => (w, Err ErrUnavailable)
  | Some secret =>
      if op_HasSecretSource p && (secret == "") then (w, Err ErrUnavailable)
      else
        let form := if op_AuthStyle p == "post" then <["client_secret" := secret]> form else form in
        let basic := if op_AuthStyle p == "basic"
                     then Some (te_escape (op_ClientID p), te_escape secret) else None in
        let '(w, r) := te_post w p form basic in
        match r with
        | None => (w, Err ErrUnavailable)
        | Some r => (w, tokens_of_response p r)
        end
  end.

Definition exchange (w : PW) (p : OAuthProvider) (code verifier : string) : PW * res BErr oauthTokens :=
  tokens w p {[ "grant_type" := "authorization_code"; "code" := code; "code_verifier" := verifier;
                "redirect_uri" := op_RedirectURL p ]}.
Definition refresh (w : PW) (p : OAuthProvider) (token : string) : PW * res BErr oauthTokens :=
  tokens w p {[ "grant_type" := "refresh_token"; "refresh_token" := token ]}.

Definition mergeTokens (v : Bundle) (t : oauthTokens) (at_ : Z) : Bundle :=
  let v := <[oauthAccess := tk_Access t]> v in
  let v := <[oauthExpiry := pretty ((at_ + tk_ExpiresIn t * Second) / Second)%Z]> v in
  if tk_Refresh t != "" then <[oauthRefresh := tk_Refresh t]> v else v.

Definition StartOAuth (id raw csrf : string) : BM string :=
  b ← get;
  fail_if (negb (live b)) ErrUnavailable ;;
  sv ← validSession raw id true;
  let '(s, verdict) := sv in
  match verdict with
  | Err e => mthrow_err e
  | Ok r =>
      fail_if ((csrf != CSRF cfg raw id) || (rq_Status (r_View r) != "authorizing")) ErrDenied ;;
      let c := contract_of b (r_ContractKey r) in
      p ← some_or (cf_OAuth cfg !! ct_OAuthProvider c) ErrInvalid;
      state ← Random;
      verifier ← Random;
      ref ← provider_put (ct_Storage c) {[ "verifier" := verifier ]};
      ref ← some_or ref ErrUnavailable;
      t ← now;
      let o := mkOAuthRecord (Digest state) id (s_Hash s) ref (t + 5 * Minute)%Z false in
      let r := r_with_oauth (o_StateHash o) r in
      ev ← audit "oauth.started" (r_Actor r);
      commit (mkMutation (ev_req id ev) (Some r) None None None None (Some o) None) ;;
      mret (authorization p state verifier)
  end.

(** What [CompleteOAuth] carries from its first critical section to the rest. *)
Record Exchange := mkExchange {
  x_Session : sessionRecord; x_Request : requestRecord; x_OAuth : oauthRecord;
  x_Contract : Contract; x_Provider : OAuthProvider; x_Draft : Ref }.

(** First section of [CompleteOAuth]: consume the state, mark the request. *)
Definition oauth_begin (raw state code : string) : BM Exchange :=
  fail_if (negb (len state =? 43)%Z || (len code =? 0)%Z || (4096 <? len code)%Z
           || ContainsAny code crlfnul) ErrDenied ;;
  b ← get;
  fail_if (negb (live b)) ErrUnavailable ;;
  o ← some_or (oauth b !! Digest state) ErrDenied;
  fail_if (o_Consumed o || (o_SessionHash o != Digest raw)) ErrDenied ;;
  t ← now;
  fail_if (negb (t <? o_ExpiresAt o)%Z) ErrDenied ;;
  sv ← validSession raw (o_RequestID o) true;
  let '(s, verdict) := sv in
  match verdict with
  | Err _ => mthrow_err ErrDenied
  | Ok r =>
      fail_if ((r_OAuthStateHash r != o_StateHash o) || (rq_Status (r_View r) != "authorizing")) ErrDenied ;;
      let c := contract_of b (r_ContractKey r) in
      p ← some_or (cf_OAuth cfg !! ct_OAuthProvider c) ErrInvalid;
      draft ← some_or (r_DraftRef r) ErrInvalid;
      let o := o_consume o in
      let r := r_with_status "exchanging" r in
      ev ← audit "oauth.exchanging" (r_Actor r);
      commit (mkMutation (ev_req (rq_ID (r_View r)) ev) (Some r) None None None None (Some o) None) ;;
      mret (mkExchange s r o c p draft)
  end.

(** The unlocked part: resolve the draft and the verifier, exchange the code,
    delete the verifier, merge the tokens. *)
Definition oauth_exchange (x : Exchange) (code : string) : BM (res BErr Bundle) :=
  values ← provider_resolve (x_Draft x);
  match values with
  | None => mret (Err ErrUnavailable)
  | Some values =>
      proof ← provider_resolve (o_VerifierRef (x_OAuth x));
      b ← get;
      let '(w, tk) := match proof with
        | None => (prov b, Err ErrUnavailable)
        | Some proof => exchange (prov b) (x_Provider x) code (default "" (proof !! "verifier"))
        end in
      modify (set_prov w) ;;
      (if bool_decide (pv_caps (ref_Provider (o_VerifierRef (x_OAuth x))) = None) then mret tt
       else provider_delete (ref_Provider (o_VerifierRef (x_OAuth x))) (o_VerifierRef (x_OAuth x)) ;;
            mret tt) ;;
      match tk with
      | Err e => mret (Err e)
      | Ok tk => t ← now; mret (Ok (mergeTokens values tk t))
      end
  end.

(** Last section of [CompleteOAuth]. *)
Definition oauth_finish (x : Exchange) (outcome : res BErr Bundle) : BM unit :=
  b ← get;
  let rid := rq_ID (r_View (x_Request x)) in
  match requests b !! rid with
  | None => mthrow_err ErrExpired
  | Some current =>
      if (rq_Status (r_View current) != "exchanging")
         || (r_OAuthStateHash current != o_StateHash (x_OAuth x)) then mthrow_err ErrExpired
      else
        t ← now;
        fail_if (negb (t <? rq_ExpiresAt (r_View current))%Z) ErrExpired ;;
        match outcome with
        | Err e =>
            ev ← audit "oauth.failed" (r_Actor (x_Request x));
            commit (mut_request (ev_req rid ev) (r_with_status "authorizing" current)) ;;
            mthrow_err e
        | Ok values =>
            ref ← provider_put (ct_Storage (x_Contract x)) values;
            match ref with
            | None =>
                ev ← audit "oauth.persistence_failed" (r_Actor (x_Request x));
                try (commit (mut_request (ev_req rid ev) (r_with_status "authorizing" current))) ;;
                mthrow_err ErrUnavailable
            | Some ref => ready current ref true (Some (x_Session x)) ;; mret tt
            end
        end
  end.

Definition CompleteOAuth (raw state code : string) : BM unit :=
  x ← oauth_begin raw state code;
  outcome ← oauth_exchange x code;
  oauth_finish x outcome.

Definition requireReauthorization (id : string) (revision : Z) : BM unit :=
  b ← get;
  match credentials b !! id with
  | Some current =>
      if (cd_Revision (c_View current) =? revision)%Z && (cd_Status (c_View current) == "active") then
        let current := c_with_view (cd_with (u64 (cd_Revision (c_View current) + 1))
                         "reauthorize_required" (c_View current)) current in
        ev ← audit "oauth.reauthorization_required" (identityFromCredential current);
        commit (mut_credential (ev_cred (cd_ID (c_View current)) ev) current) ;;
        invalidateCredential (cd_ID (c_View current)) ;;
        mthrow_err ErrReauthorize
      else mthrow_err ErrReauthorize
  | None => mthrow_err ErrReauthorize
  end.

(** Section of [AccessToken] that records the refreshed version. *)
Definition refresh_commit (c : credentialRecord) (id : string) (ref : Ref) : BM unit :=
  b ← get;
  match credentials b !! id with
  | None => mthrow_err ErrDenied
  | Some current =>
      fail_if (negb (live b) || negb (cd_Revision (c_View current) =? cd_Revision (c_View c))%Z
               || (cd_Status (c_View current) != "active")
               || negb (c_TokenRevision current =? c_TokenRevision c)%Z) ErrDenied ;;
      let current := c_refreshed ref current in
      ev ← audit "oauth.refreshed" (identityFromCredential current);
      commit (mut_credential (ev_cred (cd_ID (c_View current)) ev) current) ;; mret tt
  end.

(** The stored token is returned while it is good for 30 more seconds. *)
Definition token_fresh (t : Z) (values : Bundle) : bool :=
  match ParseInt (default "" (values !! oauthExpiry)) with
  | Some expiry => (t + 30 * Second <? expiry * Second)%Z && (0 <? len (default "" (values !! oauthAccess)))%Z
  | None => false
  end.

(** [AccessToken]; the per-credential refresh lock serializes the body, so a
    second caller re-reads the credential after the first has finished. *)
Definition AccessToken (u : Use) : BM string :=
  v1 ← use_Valid u;
  fail_if (negb v1) ErrDenied ;;
  b ← get;
  modify (set_locks ({[use_CredentialID u]} ∪ refreshLocks b)) ;;
  v2 ← use_Valid u;
  fail_if (negb v2) ErrDenied ;;
  b ← get;
  c ← some_or (credentials b !! use_CredentialID u) ErrInvalid;
  p ← some_or (cf_OAuth cfg !! ct_OAuthProvider (contract_of b (c_ContractKey c))) ErrInvalid;
  values ← provider_resolve (c_Ref c);
  values ← some_or values ErrUnavailable;
  t ← now;
  if token_fresh t values then
    v3 ← use_Valid u;
    fail_if (negb v3) ErrDenied ;;
    mret (default "" (values !! oauthAccess))
  else
    fail_if (default "" (values !! oauthRefresh) == "") ErrReauthorize ;;
    b ← get;
    let '(w, tk) := refresh (prov b) p (default "" (values !! oauthRefresh)) in
    modify (set_prov w) ;;
    match tk with
    | Err _ => requireReauthorization (use_CredentialID u) (cd_Revision (c_View c)) ;; mret ""
    | Ok tk =>
        t ← now;
        b ← get;
        ref ← provider_put (ct_Storage (contract_of b (c_ContractKey c))) (mergeTokens values tk t);
        match ref with
        | None => requireReauthorization (use_CredentialID u) (cd_Revision (c_View c)) ;; mret ""
        | Some ref =>
            refresh_commit c (use_CredentialID u) ref ;;
            v4 ← use_Valid u;
            fail_if (negb v4) ErrDenied ;;
            mret (tk_Access tk)
        end
    end.
End Runtime.
