(* ===== verification/BrokerSpec.v ===== *)
(** The abstract specification of the credential broker: a transition system
    over what the broker remembers durably, its lease table, its log and the
    clock.  A step commits one mutation under the guard the specification
    states for it, or removes leases, or lets time pass.  BrokerRefine.v proves
    that every critical section of the code takes such steps only. *)
From stdpp Require Import base gmap strings list relations pretty.
From Stdlib Require Import Ascii String.
From S2P Require Import Prelude GoStrings BrokerIdentity Contract BrokerTypes BrokerCore Enrollment Grants.
Local Open Scope string_scope.

(** * States *)

Record Durable := mkDurable {
  d_catalog : gmap string Contract;
  d_requests : gmap string requestRecord;
  d_sessions : gmap string sessionRecord;
  d_credentials : gmap string credentialRecord;
  d_grants : gmap string grantRecord;
  d_states : gmap string stateRecord;
  d_oauth : gmap string oauthRecord;
  d_events : list Event;
}.

Record Core := mkCore {
  k_dur : Durable;
  k_leases : gmap string leaseRecord;
  k_log : list JRecord;
  k_now : Z;   (** a lower bound of every later reading of the clock *)
}.

(** What committing a mutation does to the durable state. *)
Definition dapply (m : mutation) (seq : Z) (d : Durable) : Durable :=
  mkDurable
    (put_opt (λ c, key (ct_ID c) (ct_Revision c)) (cr_Contract <$> mu_Contract m) (d_catalog d))
    (put_opt (λ r, rq_ID (r_View r)) (mu_Request m) (d_requests d))
    (put_opt s_Hash (mu_Session m) (d_sessions d))
    (put_opt (λ c, cd_ID (c_View c)) (mu_Credential m) (d_credentials d))
    (put_opt (λ g, g_ID (g_View g)) (mu_Grant m) (d_grants d))
    (put_opt sr_Key (mu_State m) (d_states d))
    (put_opt o_StateHash (mu_OAuth m) (d_oauth d))
    (d_events d ++ [ev_with_seq seq (mu_Audit m)])%list.

Definition next_seq (log : list JRecord) : Z := Z.of_nat (S (List.length log)).

Definition log_entry (n : Z) (m : mutation) : JRecord := mkJRecord n "mutation.v1" (Some m).

(** * Vocabulary *)

Definition r_status (r : requestRecord) : string := rq_Status (r_View r).
Definition c_status (c : credentialRecord) : string := cd_Status (c_View c).
Definition c_revision (c : credentialRecord) : Z := cd_Revision (c_View c).

(** A request that may still become a credential. *)
Definition open_status (s : string) : bool := str_in ["pending"; "authorizing"; "exchanging"] s.
Definition request_statuses : list string :=
  ["pending"; "authorizing"; "exchanging"; "canceled"; "ready"].

(** The slot a request asks for and a credential fills. *)
Definition r_slot (r : requestRecord) : string * string * string :=
  (a_ContextID (r_Actor r), rq_ConnectionID (r_View r), rq_ConsumerID (r_View r)).
Definition c_slot (c : credentialRecord) : string * string * string :=
  (cd_ContextID (c_View c), cd_ConnectionID (c_View c), cd_ConsumerID (c_View c)).

(** A request without the fields its life cycle changes. *)
Definition r_fixed (r : requestRecord) : requestRecord :=
  r_with_view (rq_ready "" 0 (r_View r)) (r_with_oauth "" (r_with_draft None (r_with_demoted [] r))).

(** What rotation and refresh keep of a credential. *)
Definition c_fixed (c : credentialRecord) : string * (string * string * string) * string * string :=
  (cd_ID (c_View c), c_slot c, cd_OwnerKind (c_View c), c_ContractKey c).

(** The legal changes of a request's status, apart from [ready]. *)
Definition status_step (s s' : string) : bool :=
  ((s == "pending") && (s' == "authorizing"))
  || ((s == "authorizing") && ((s' == "authorizing") || (s' == "exchanging")))
  || ((s == "exchanging") && (s' == "authorizing"))
  || (open_status s && (s' == "canceled")).

(** The request may replace the credential. *)
Definition rotates (c : credentialRecord) (r : requestRecord) : Prop :=
  c_slot c = r_slot r ∧ cd_OwnerKind (c_View c) = r_OwnerKind r ∧ c_ContractKey c = r_ContractKey r ∧
  (cd_OwnerKind (c_View c) = "user" → cd_PrincipalID (c_View c) = a_PrincipalID (r_Actor r)).

Definition contract_at (cat : gmap string Contract) (k : string) : Contract :=
  default zero_contract (cat !! k).

Definition g_contract (cat : gmap string Contract) (g : grantRecord) : Contract :=
  contract_at cat (g_ContractKey g).

Definition same_binding (g g' : grantRecord) : Prop :=
  g_BindingID (g_View g) = g_BindingID (g_View g') ∧ g_ContextID (g_View g) = g_ContextID (g_View g') ∧
  g_PrincipalID (g_View g) = g_PrincipalID (g_View g').

(** Two grants may be active in the same workload. *)
Definition may_share (cat : gmap string Contract) (g g' : grantRecord) : Prop :=
  g_Execution (g_View g) = "shared" ∧ g_Execution (g_View g') = "shared" ∧
  (process_scoped (g_contract cat g) = true ∨ process_scoped (g_contract cat g') = true →
   g_CredentialID (g_View g) = g_CredentialID (g_View g') ∧ g_ContractKey g = g_ContractKey g').

Definition grants_agree (cat : gmap string Contract) (g g' : grantRecord) : Prop :=
  ¬ same_binding g g' ∧
  (g_WorkloadID (g_View g) = g_WorkloadID (g_View g') → may_share cat g g').

Definition without_credential (id : string) (L : gmap string leaseRecord) : gmap string leaseRecord :=
  filter (λ kl, l_CredentialID (lr_View kl.2) ≠ id) L.
Definition without_grant (id : string) (L : gmap string leaseRecord) : gmap string leaseRecord :=
  filter (λ kl, l_GrantID (lr_View kl.2) ≠ id) L.

Section Spec.
Context `{Digests} `{Codecs} `{Unicode}.
Variable direct : bool.                       (** [cfg.DirectForm] *)
Variable cat0 : gmap string Contract.         (** the configured contracts *)

(** * Guards *)

(** A request that may be entered into the table at time [now]. *)
Record admissible (d : Durable) (now : Z) (r : requestRecord) : Prop := {
  adm_fresh : d_requests d !! rq_ID (r_View r) = None;
  adm_digest : digest_matches (d_catalog d) (r_ContractKey r) (r_ContractDigest r) = true;
  adm_idem : ∀ k p, d_requests d !! k = Some p → r_Idempotency p ≠ r_Idempotency r;
  adm_size : (Z.of_nat (size (d_requests d)) < 10000)%Z;
  adm_open : ∀ k p, d_requests d !! k = Some p → open_status (r_status p) = true →
    r_slot p = r_slot r → (rq_ExpiresAt (r_View p) ≤ now)%Z;
  adm_new : r_RotateID r = "" → ∀ k c, d_credentials d !! k = Some c → c_slot c = r_slot r →
    c_status c = "deleted";
  adm_rotate : r_RotateID r ≠ "" → ∃ c, d_credentials d !! r_RotateID r = Some c ∧ rotates c r;
}.

(** The request [r] becomes [r'] with credential [c]: the credential is new, or
    the next revision of the one the request rotates. *)
Record fulfils (d : Durable) (r r' : requestRecord) (c : credentialRecord) : Prop := {
  ful_fixed : r_fixed r' = r_fixed r;
  ful_ready : r_status r' = "ready";
  ful_id : rq_CredentialID (r_View r') = cd_ID (c_View c);
  ful_rev : rq_Revision (r_View r') = c_revision c;
  ful_slot : c_slot c = r_slot r;
  ful_owner : cd_OwnerKind (c_View c) = r_OwnerKind r;
  ful_principal : cd_PrincipalID (c_View c) = a_PrincipalID (r_Actor r);
  ful_key : c_ContractKey c = r_ContractKey r;
  ful_digest : c_ContractDigest c = r_ContractDigest r;
  ful_active : c_status c = "active";
  ful_new : r_RotateID r = "" →
    d_credentials d !! cd_ID (c_View c) = None ∧ c_revision c = 1%Z;
  ful_rotate : r_RotateID r ≠ "" → cd_ID (c_View c) = r_RotateID r ∧
    ∃ old, d_credentials d !! r_RotateID r = Some old ∧ c_status old ≠ "deleted" ∧
      c_revision old = r_ExpectedRevision r ∧ c_revision c = u64 (c_revision old + 1) ∧
      c_OwnedRefs old `prefix_of` c_OwnedRefs c;
}.

(** A grant that may be entered into the table. *)
Record grantable (d : Durable) (g : grantRecord) : Prop := {
  gra_fresh : d_grants d !! g_ID (g_View g) = None;
  gra_active : g_Active (g_View g) = true;
  gra_digest : digest_matches (d_catalog d) (g_ContractKey g) (g_ContractDigest g) = true;
  gra_idem : ∀ k p, d_grants d !! k = Some p → g_Idempotency p ≠ g_Idempotency g;
  gra_size : (Z.of_nat (size (d_grants d)) < 50000)%Z;
  gra_shared : g_Execution (g_View g) = "shared" → ct_AllowShared (g_contract (d_catalog d) g) = true;
  gra_cred : ∃ c, d_credentials d !! g_CredentialID (g_View g) = Some c ∧
    c_status c = "active" ∧
    g_ContextID (g_View g) = cd_ContextID (c_View c) ∧
    (cd_OwnerKind (c_View c) = "user" → g_PrincipalID (g_View g) = cd_PrincipalID (c_View c)) ∧
    Compatible (contract_at (d_catalog d) (c_ContractKey c)) (g_contract (d_catalog d) g) = true;
  gra_agree : ∀ k p, d_grants d !! k = Some p → g_Active (g_View p) = true →
    grants_agree (d_catalog d) g p;
}.

(** A lease that may be entered into the table, with the event that records it. *)
Record leasable (d : Durable) (L : gmap string leaseRecord) (e : Event) (l : leaseRecord) : Prop := {
  lea_fresh : L !! l_ID (lr_View l) = None;
  lea_size : (Z.of_nat (size L) < 4096)%Z;
  lea_active : lr_Active l = ∅;
  lea_kind : ev_Kind e = "lease.acquired";
  lea_event : ev_LeaseID e = l_ID (lr_View l) ∧ ev_GrantID e = l_GrantID (lr_View l) ∧
    ev_CredentialID e = l_CredentialID (lr_View l);
  lea_state : lr_StateKey l ≠ "" → ∀ k l', L !! k = Some l' → lr_StateKey l' ≠ lr_StateKey l;
  lea_grant : ∃ g c, d_grants d !! l_GrantID (lr_View l) = Some g ∧ g_Active (g_View g) = true ∧
    g_CredentialID (g_View g) = l_CredentialID (lr_View l) ∧
    d_credentials d !! l_CredentialID (lr_View l) = Some c ∧
    c_status c = "active" ∧ c_revision c = l_Revision (lr_View l) ∧
    l_Deliveries (lr_View l) = ct_Deliveries (g_contract (d_catalog d) g) ∧
    l_Routes (lr_View l) = map r_ID (ct_Routes (g_contract (d_catalog d) g));
}.

(** The lease [l] may be replaced by [l'] in place: same identity and state. *)
Definition lease_same (l l' : leaseRecord) : Prop :=
  l_with_expiry 0 (lr_View l') = l_with_expiry 0 (lr_View l) ∧ lr_StateKey l' = lr_StateKey l ∧
  (Z.of_nat (size (lr_Active l')) ≤ 16)%Z.

(** The lease can be used now: its credential is active at the lease's revision. *)
Definition lease_current (d : Durable) (l : leaseRecord) : Prop :=
  ∃ g c, d_grants d !! l_GrantID (lr_View l) = Some g ∧ g_Active (g_View g) = true ∧
    d_credentials d !! l_CredentialID (lr_View l) = Some c ∧
    c_status c = "active" ∧ c_revision c = l_Revision (lr_View l).

(** * Which mutations may be committed, and what becomes of the lease table *)
Inductive commit_ok (d : Durable) (L : gmap string leaseRecord) (now : Z) :
    mutation → gmap string leaseRecord → Prop :=
  | ok_event e : commit_ok d L now (no_mutation e) L
  | ok_acquire e l (Hlea : leasable d L e l) :
      commit_ok d L now (no_mutation e) (<[l_ID (lr_View l) := l]> L)
  | ok_lease e k l l' (Hk : L !! k = Some l) (Hcur : lease_current d l) (Hsame : lease_same l l') :
      commit_ok d L now (no_mutation e) (<[k := l']> L)
  | ok_release e k : commit_ok d L now (no_mutation e) (delete k L)
  | ok_new_request e r (Hadm : admissible d now r) (Hst : r_status r = "pending") :
      commit_ok d L now (mut_request e r) L
  | ok_request e r r' o (Hr : d_requests d !! rq_ID (r_View r) = Some r)
      (Hfix : r_fixed r' = r_fixed r) (Hstep : status_step (r_status r) (r_status r') = true) :
      commit_ok d L now (mkMutation e (Some r') None None None None o None) L
  | ok_new_session e s (Happ : s_Approved s = direct) (Hcons : s_Consumed s = false)
      (Hsize : (Z.of_nat (size (d_sessions d)) < 50000)%Z) :
      commit_ok d L now (mut_session e s) L
  | ok_approve e s (Hs : d_sessions d !! s_Hash s = Some s) (Hcons : s_Consumed s = false)
      (Hone : ∀ k s', d_sessions d !! k = Some s' → s_RequestID s' = s_RequestID s →
         s_Approved s' = true → s_Consumed s' = true) :
      commit_ok d L now (mut_session e (s_approve s)) L
  | ok_ready e r r' s c (Hr : d_requests d !! rq_ID (r_View r) = Some r)
      (Hopen : open_status (r_status r) = true) (Htime : (now < rq_ExpiresAt (r_View r))%Z)
      (Hs : ∀ x, s = Some x → s_Consumed x = true ∧ is_Some (d_sessions d !! s_Hash x))
      (Hful : fulfils d r r' c) :
      commit_ok d L now (mkMutation e (Some r') s (Some c) None None None None)
        (without_credential (cd_ID (c_View c)) L)
  | ok_alias e r r' c (Hadm : admissible d now r) (Hst : r_status r = "pending")
      (Hful : fulfils d r r' c) :
      commit_ok d L now (mkMutation e (Some r') None (Some c) None None None None)
        (without_credential (cd_ID (c_View c)) L)
  | ok_bump e c st (Hc : d_credentials d !! cd_ID (c_View c) = Some c)
      (Hst : c_status c ≠ "deleted") (Hnew : st = "revoked" ∨ st = "reauthorize_required") :
      commit_ok d L now
        (mut_credential e (c_with_view (cd_with (u64 (c_revision c + 1)) st (c_View c)) c))
        (without_credential (cd_ID (c_View c)) L)
  | ok_delete e c (Hc : d_credentials d !! cd_ID (c_View c) = Some c) (Hst : c_status c ≠ "deleted") :
      commit_ok d L now
        (mut_credential e (c_with_view (cd_with (c_revision c) "deleted" (c_View c)) c)) L
  | ok_refresh e c ref (Hc : d_credentials d !! cd_ID (c_View c) = Some c)
      (Hst : c_status c = "active") :
      commit_ok d L now (mut_credential e (c_refreshed ref c)) L
  | ok_new_grant e g (Hgra : grantable d g) : commit_ok d L now (mut_grant e g) L
  | ok_revoke_grant e g (Hg : d_grants d !! g_ID (g_View g) = Some g) :
      commit_ok d L now (mut_grant e (g_revoke g)) (without_grant (g_ID (g_View g)) L)
  | ok_state e s : commit_ok d L now (mkMutation e None None None None (Some s) None None) L
  | ok_contract e c (Hnew : d_catalog d !! key (ct_ID c) (ct_Revision c) = None)
      (Hval : Validate c = true) :
      commit_ok d L now (mkMutation e None None None None None None (Some (mkContractRecord c))) L.

(** * Steps *)
Inductive cstep : Core → Core → Prop :=
  | cs_commit d L log now m L' : commit_ok d L now m L' →
      cstep (mkCore d L log now)
        (mkCore (dapply m (next_seq log) d) L' (log ++ [log_entry (next_seq log) m]) now)
  | cs_drop d L log now L' : L' ⊆ L → cstep (mkCore d L log now) (mkCore d L' log now)
  | cs_finish d L log now k l op : L !! k = Some l →
      cstep (mkCore d L log now)
        (mkCore d (<[k := lr_with_active (lr_Active l ∖ {[op]}) l]> L) log now)
  | cs_time d L log now now' : (now ≤ now')%Z → cstep (mkCore d L log now) (mkCore d L log now').
End Spec.
