(* ===== verification/BrokerInv.v ===== *)
(** The invariant of the broker's specification (BrokerSpec.v) and its
    preservation by every step: what each table satisfies, how tables refer to
    each other, and that the log alone determines the durable state. *)
From stdpp Require Import base gmap strings list relations pretty.
From Stdlib Require Import Ascii String.
From S2P Require Import Prelude GoStrings BrokerIdentity Contract BrokerTypes BrokerCore Enrollment Grants BrokerSpec.
Local Open Scope string_scope.

(** * Tables *)

Section Inv.
Context `{Digests} `{Codecs} `{Unicode}.
Variable direct : bool.
Variable cat0 : gmap string Contract.

Definition catalog_ok (cat : gmap string Contract) : Prop :=
  cat0 ⊆ cat ∧ ∀ k c, cat !! k = Some c → k = key (ct_ID c) (ct_Revision c) ∧ Validate c = true.

Record request_ok (cat : gmap string Contract) (creds : gmap string credentialRecord)
    (k : string) (r : requestRecord) : Prop := {
  ro_id : rq_ID (r_View r) = k;
  ro_digest : digest_matches cat (r_ContractKey r) (r_ContractDigest r) = true;
  ro_status : r_status r ∈ request_statuses;
  ro_rotate : r_RotateID r ≠ "" → ∃ c, creds !! r_RotateID r = Some c ∧ rotates c r;
  ro_ready : r_status r = "ready" →
    ∃ c, creds !! rq_CredentialID (r_View r) = Some c ∧ c_slot c = r_slot r;
}.

Record credential_ok (cat : gmap string Contract) (k : string) (c : credentialRecord) : Prop := {
  co_id : cd_ID (c_View c) = k;
  co_digest : digest_matches cat (c_ContractKey c) (c_ContractDigest c) = true;
  co_rev : (0 ≤ c_revision c < 2 ^ 64)%Z;
}.

Record grant_ok (cat : gmap string Contract) (creds : gmap string credentialRecord)
    (k : string) (g : grantRecord) : Prop := {
  go_id : g_ID (g_View g) = k;
  go_digest : digest_matches cat (g_ContractKey g) (g_ContractDigest g) = true;
  go_shared : g_Execution (g_View g) = "shared" → ct_AllowShared (g_contract cat g) = true;
  go_cred : ∃ c, creds !! g_CredentialID (g_View g) = Some c ∧
    g_ContextID (g_View g) = cd_ContextID (c_View c) ∧
    (cd_OwnerKind (c_View c) = "user" → g_PrincipalID (g_View g) = cd_PrincipalID (c_View c)) ∧
    Compatible (contract_at cat (c_ContractKey c)) (g_contract cat g) = true;
}.

(** The record of a lease's acquisition. *)
Definition acquired (evs : list Event) (l : leaseRecord) : Prop :=
  ∃ e, e ∈ evs ∧ ev_Kind e = "lease.acquired" ∧ ev_LeaseID e = l_ID (lr_View l) ∧
    ev_GrantID e = l_GrantID (lr_View l) ∧ ev_CredentialID e = l_CredentialID (lr_View l).

Record lease_ok (d : Durable) (k : string) (l : leaseRecord) : Prop := {
  lo_id : l_ID (lr_View l) = k;
  lo_active : (Z.of_nat (size (lr_Active l)) ≤ 16)%Z;
  lo_grant : ∃ g, d_grants d !! l_GrantID (lr_View l) = Some g ∧ g_Active (g_View g) = true ∧
    g_CredentialID (g_View g) = l_CredentialID (lr_View l) ∧
    l_Deliveries (lr_View l) = ct_Deliveries (g_contract (d_catalog d) g) ∧
    l_Routes (lr_View l) = map r_ID (ct_Routes (g_contract (d_catalog d) g));
  lo_cred : ∃ c, d_credentials d !! l_CredentialID (lr_View l) = Some c ∧
    (c_status c = "active" ∧ c_revision c = l_Revision (lr_View l) ∨ c_status c = "deleted");
  lo_audit : acquired (d_events d) l;
}.

Record requests_ok (d : Durable) : Prop := {
  rs_each : map_Forall (request_ok (d_catalog d) (d_credentials d)) (d_requests d);
  rs_idem : ∀ k k' r r', d_requests d !! k = Some r → d_requests d !! k' = Some r' →
    r_Idempotency r = r_Idempotency r' → k = k';
  rs_size : (Z.of_nat (size (d_requests d)) ≤ 10000)%Z;
}.

Record sessions_ok (d : Durable) : Prop := {
  ss_each : map_Forall (λ k s, s_Hash s = k) (d_sessions d);
  ss_one : direct = false → ∀ k k' s s', d_sessions d !! k = Some s → d_sessions d !! k' = Some s' →
    s_RequestID s = s_RequestID s' → s_Approved s = true → s_Approved s' = true →
    s_Consumed s = false → s_Consumed s' = false → k = k';
  ss_size : (Z.of_nat (size (d_sessions d)) ≤ 50000)%Z;
}.

Record grants_ok (d : Durable) : Prop := {
  gs_each : map_Forall (grant_ok (d_catalog d) (d_credentials d)) (d_grants d);
  gs_idem : ∀ k k' g g', d_grants d !! k = Some g → d_grants d !! k' = Some g' →
    g_Idempotency g = g_Idempotency g' → k = k';
  gs_agree : ∀ k k' g g', d_grants d !! k = Some g → d_grants d !! k' = Some g' → k ≠ k' →
    g_Active (g_View g) = true → g_Active (g_View g') = true → grants_agree (d_catalog d) g g';
  gs_size : (Z.of_nat (size (d_grants d)) ≤ 50000)%Z;
}.

Record leases_ok (d : Durable) (L : gmap string leaseRecord) : Prop := {
  ls_each : map_Forall (lease_ok d) L;
  ls_state : ∀ k k' l l', L !! k = Some l → L !! k' = Some l' →
    lr_StateKey l = lr_StateKey l' → lr_StateKey l ≠ "" → k = k';
  ls_size : (Z.of_nat (size L) ≤ 4096)%Z;
}.

(** One live credential per slot, and one way to get there. *)
Definition live_request (now : Z) (r : requestRecord) : Prop :=
  open_status (r_status r) = true ∧ (now < rq_ExpiresAt (r_View r))%Z.

Record slots_ok (d : Durable) (now : Z) : Prop := {
  sl_creds : ∀ k k' c c', d_credentials d !! k = Some c → d_credentials d !! k' = Some c' →
    c_slot c = c_slot c' → c_status c ≠ "deleted" → c_status c' ≠ "deleted" → k = k';
  sl_reqs : ∀ k k' r r', d_requests d !! k = Some r → d_requests d !! k' = Some r' →
    r_slot r = r_slot r' → live_request now r → live_request now r' → k = k';
  sl_new : ∀ k r k' c, d_requests d !! k = Some r → live_request now r → r_RotateID r = "" →
    d_credentials d !! k' = Some c → c_slot c = r_slot r → c_status c = "deleted";
}.

(** * The log *)

Definition durable0 : Durable := mkDurable cat0 ∅ ∅ ∅ ∅ ∅ ∅ [].

(** One replayed record: refused when it is not a mutation, or when it would
    change a contract under its key. *)
Definition replay1 (d : Durable) (r : JRecord) : option Durable :=
  m ← jr_Data r;
  if jr_Kind r != "mutation.v1" then None
  else if match mu_Contract m with
          | Some cr =>
              match d_catalog d !! key (ct_ID (cr_Contract cr)) (ct_Revision (cr_Contract cr)) with
              | Some existing => ContractDigest existing != ContractDigest (cr_Contract cr)
              | None => false
              end
          | None => false
          end then None
  else Some (dapply m (jr_Sequence r) d).

Fixpoint replay (d : Durable) (log : list JRecord) : option Durable :=
  match log with
  | [] => Some d
  | r :: log' => d' ← replay1 d r; replay d' log'
  end.

Record log_ok (d : Durable) (log : list JRecord) : Prop := {
  lg_replay : replay durable0 log = Some d;
  lg_seq : ∀ i e, d_events d !! i = Some e → ev_Sequence e = Z.of_nat (S i);
  lg_length : List.length (d_events d) = List.length log;
}.

Record Inv (c : Core) : Prop := {
  inv_catalog : catalog_ok (d_catalog (k_dur c));
  inv_requests : requests_ok (k_dur c);
  inv_sessions : sessions_ok (k_dur c);
  inv_credentials : map_Forall (credential_ok (d_catalog (k_dur c))) (d_credentials (k_dur c));
  inv_grants : grants_ok (k_dur c);
  inv_oauth : map_Forall (λ k o, o_StateHash o = k) (d_oauth (k_dur c));
  inv_leases : leases_ok (k_dur c) (k_leases c);
  inv_slots : slots_ok (k_dur c) (k_now c);
  inv_log : log_ok (k_dur c) (k_log c);
}.

(** * How the tables evolve *)

Record request_evolves (r r' : requestRecord) : Prop := {
  re_fixed : r_fixed r' = r_fixed r;
  re_final : open_status (r_status r) = false → r' = r;
}.
Record credential_evolves (c c' : credentialRecord) : Prop := {
  ce_fixed : c_fixed c' = c_fixed c;
  ce_owner : cd_OwnerKind (c_View c) = "user" → cd_PrincipalID (c_View c') = cd_PrincipalID (c_View c);
  ce_refs : c_OwnedRefs c `prefix_of` c_OwnedRefs c';
  ce_final : c_status c = "deleted" → c' = c;
}.
Record grant_evolves (g g' : grantRecord) : Prop := {
  ge_fixed : g_revoke g' = g_revoke g;
  ge_final : g_Active (g_View g) = false → g' = g;
}.

Definition map_evolves {V} (R : V → V → Prop) (m m' : gmap string V) : Prop :=
  ∀ k v, m !! k = Some v → ∃ v', m' !! k = Some v' ∧ R v v'.

Record evolves (d d' : Durable) : Prop := {
  evo_catalog : d_catalog d ⊆ d_catalog d';
  evo_requests : map_evolves request_evolves (d_requests d) (d_requests d');
  evo_credentials : map_evolves credential_evolves (d_credentials d) (d_credentials d');
  evo_grants : map_evolves grant_evolves (d_grants d) (d_grants d');
  evo_sessions : dom (d_sessions d) ⊆ dom (d_sessions d');
  evo_events : d_events d `prefix_of` d_events d';
}.

Global Instance request_evolves_preorder : PreOrder request_evolves.
Proof.
  split; [by constructor|]. intros r1 r2 r3 [Hf Hd] [Hf' Hd']. constructor; [congruence|].
  intros Ho. by rewrite <-(Hd Ho) in Ho |- *; [apply Hd'|..]; rewrite ?(Hd Ho).
Qed.
Global Instance credential_evolves_preorder : PreOrder credential_evolves.
Proof.
  split; [by constructor|]. intros c1 c2 c3 [Hf Ho Hr Hd] [Hf' Ho' Hr' Hd'].
  constructor; [congruence| |by etrans|].
  - intros Hu. rewrite Ho', Ho; [done..|]. unfold c_fixed in Hf. congruence.
  - intros Hs. pose proof (Hd Hs). subst. auto.
Qed.
Global Instance grant_evolves_preorder : PreOrder grant_evolves.
Proof.
  split; [by constructor|]. intros g1 g2 g3 [Hf Hd] [Hf' Hd']. constructor; [congruence|].
  intros Ha. pose proof (Hd Ha). subst. auto.
Qed.

Lemma map_evolves_refl {V} (R : V → V → Prop) `{!Reflexive R} m : map_evolves R m m.
Proof. intros k v Hk. eauto. Qed.
Lemma map_evolves_trans {V} (R : V → V → Prop) `{!Transitive R} m1 m2 m3 :
  map_evolves R m1 m2 → map_evolves R m2 m3 → map_evolves R m1 m3.
Proof.
  intros H1' H2' k v Hk. destruct (H1' k v Hk) as (v2 & Hk2 & HR).
  destruct (H2' k v2 Hk2) as (v3 & Hk3 & HR'). exists v3. split; [done|by etrans].
Qed.
Lemma map_evolves_insert {V} (R : V → V → Prop) `{!Reflexive R} (m : gmap string V) k v :
  (∀ v0, m !! k = Some v0 → R v0 v) → map_evolves R m (<[k := v]> m).
Proof.
  intros HR k' v' Hk'. destruct (decide (k = k')) as [<-|Hne].
  - exists v. rewrite lookup_insert_eq. eauto.
  - exists v'. rewrite lookup_insert_ne by done. eauto.
Qed.

Global Instance evolves_preorder : PreOrder evolves.
Proof.
  split.
  - intros d. constructor; try done; by apply map_evolves_refl, _.
  - intros d1 d2 d3 [] []. constructor; first [by etrans | by eapply map_evolves_trans; eauto with typeclass_instances].
Qed.

(** * Every commit evolves the tables *)

Lemma fulfils_evolves d r r' c old :
  (r_RotateID r ≠ "" → ∃ c0, d_credentials d !! r_RotateID r = Some c0 ∧ rotates c0 r) →
  map_Forall (credential_ok (d_catalog d)) (d_credentials d) →
  fulfils d r r' c → d_credentials d !! cd_ID (c_View c) = Some old →
  credential_evolves old c.
Proof.
  intros Hrot Hcreds Hful Hold.
  destruct (decide (r_RotateID r = "")) as [Hnew|Hne].
  { destruct (ful_new _ _ _ _ Hful Hnew). congruence. }
  destruct (ful_rotate _ _ _ _ Hful Hne) as (Hid & old' & Hl & Hst & _ & _ & Hpre).
  destruct (Hrot Hne) as (c0 & Hl0 & Hslot & Hown & Hkey & Hprin).
  pose proof (co_id _ _ _ (Hcreds _ _ Hl0)).
  assert (old' = old) as -> by congruence. assert (c0 = old) as -> by congruence.
  destruct Hful. constructor; [unfold c_fixed; congruence|intros; rewrite Hprin; congruence|done|done].
Qed.

Lemma status_step_cases s s' :
  status_step s s' = true →
  open_status s = true ∧ (open_status s' = true ∨ s' = "canceled").
Proof.
  unfold status_step. intros Hs.
  repeat (apply orb_prop in Hs as [Hs|Hs]); apply andb_prop in Hs as [Hs Hs'];
    try apply bool_decide_eq_true in Hs as ->; try apply bool_decide_eq_true in Hs' as ->; auto.
  apply orb_prop in Hs' as [->%bool_decide_eq_true| ->%bool_decide_eq_true]; auto.
Qed.

(** What the fixed part of a request determines. *)
Record same_request (r r' : requestRecord) : Prop := {
  sm_id : rq_ID (r_View r') = rq_ID (r_View r);
  sm_slot : r_slot r' = r_slot r;
  sm_key : r_ContractKey r' = r_ContractKey r;
  sm_digest : r_ContractDigest r' = r_ContractDigest r;
  sm_owner : r_OwnerKind r' = r_OwnerKind r;
  sm_actor : r_Actor r' = r_Actor r;
  sm_idem : r_Idempotency r' = r_Idempotency r;
  sm_rotate : r_RotateID r' = r_RotateID r;
  sm_expires : rq_ExpiresAt (r_View r') = rq_ExpiresAt (r_View r);
  sm_expected : r_ExpectedRevision r' = r_ExpectedRevision r;
  sm_fp : r_Fingerprint r' = r_Fingerprint r;
}.
Lemma r_fixed_same r r' : r_fixed r' = r_fixed r → same_request r r'.
Proof.
  destruct r as [[] ????????????], r' as [[] ????????????].
  cbv [r_fixed r_with_view r_with_oauth r_with_draft r_with_demoted rq_ready]. simpl.
  intros Heq. injection Heq. intros; subst. by constructor.
Qed.

Lemma commit_evolves d L now m L' n :
  requests_ok d → map_Forall (credential_ok (d_catalog d)) (d_credentials d) →
  commit_ok direct d L now m L' → evolves d (dapply m n d).
Proof.
  intros Hreqs Hcreds Hok.
  assert (Hrot : ∀ k r, d_requests d !! k = Some r → r_RotateID r ≠ "" →
    ∃ c0, d_credentials d !! r_RotateID r = Some c0 ∧ rotates c0 r).
  { intros k r Hk. apply (ro_rotate _ _ _ _ (rs_each _ Hreqs _ _ Hk)). }
  destruct Hok; constructor; simpl; try done; try (by apply map_evolves_refl, _);
    try (by eexists); try (by rewrite dom_insert; set_solver);
    try (apply map_evolves_insert; [typeclasses eauto|intros v0 Hv0]).
  - exfalso. destruct Hadm. congruence.
  - destruct (r_fixed_same _ _ Hfix). assert (v0 = r) as -> by congruence.
    constructor; [done|]. apply status_step_cases in Hstep as [Hop _]. congruence.
  - destruct (r_fixed_same _ _ (ful_fixed _ _ _ _ Hful)). assert (v0 = r) as -> by congruence.
    constructor; [apply Hful|congruence].
  - by eapply fulfils_evolves; eauto.
  - destruct s; simpl; [rewrite dom_insert|]; set_solver.
  - exfalso. destruct (r_fixed_same _ _ (ful_fixed _ _ _ _ Hful)). destruct Hadm. congruence.
  - eapply fulfils_evolves; eauto using adm_rotate.
  - assert (v0 = c) as -> by congruence. by constructor.
  - assert (v0 = c) as -> by congruence. by constructor.
  - assert (v0 = c) as -> by congruence. constructor; [done..|by eexists|congruence].
  - exfalso. destruct Hgra. congruence.
  - assert (v0 = g) as -> by congruence. constructor; [done|]. intros Ha.
    destruct g as [[]]. simpl in *. by subst.
  - by apply insert_subseteq.
Qed.

(** * What later states keep *)

Lemma digest_matches_mono (cat cat' : gmap string Contract) k dg :
  cat ⊆ cat' → digest_matches cat k dg = true → digest_matches cat' k dg = true.
Proof.
  unfold digest_matches. intros Hsub. destruct (cat !! k) eqn:E; [|done].
  by rewrite (lookup_weaken _ _ _ _ E Hsub).
Qed.
Lemma contract_at_mono (cat cat' : gmap string Contract) k dg :
  cat ⊆ cat' → digest_matches cat k dg = true → contract_at cat' k = contract_at cat k.
Proof.
  unfold digest_matches, contract_at. intros Hsub. destruct (cat !! k) eqn:E; [|done].
  by rewrite (lookup_weaken _ _ _ _ E Hsub).
Qed.
Lemma rotates_evolves c c' r : credential_evolves c c' → rotates c r → rotates c' r.
Proof.
  intros [Hf Ho _ _] (Hs & Hk & Hc & Hp). unfold c_fixed in Hf.
  split_and!; [congruence..|]. intros Hu. rewrite Ho; [apply Hp|]; congruence.
Qed.

Lemma request_ok_evolves d d' k r :
  evolves d d' → request_ok (d_catalog d) (d_credentials d) k r →
  request_ok (d_catalog d') (d_credentials d') k r.
Proof.
  intros Hev [Hid Hdg Hst Hrot Hrdy]. constructor; auto.
  - eapply digest_matches_mono; [apply Hev|done].
  - intros Hne. destruct (Hrot Hne) as (c & Hc & Hr).
    destruct (evo_credentials _ _ Hev _ _ Hc) as (c' & Hc' & He). eauto using rotates_evolves.
  - intros Hr. destruct (Hrdy Hr) as (c & Hc & Hs).
    destruct (evo_credentials _ _ Hev _ _ Hc) as (c' & Hc' & He).
    exists c'. split; [done|]. pose proof (ce_fixed _ _ He) as Hf. unfold c_fixed in Hf. congruence.
Qed.

Lemma credential_ok_evolves d d' k c :
  evolves d d' → credential_ok (d_catalog d) k c → credential_ok (d_catalog d') k c.
Proof. intros Hev []. constructor; auto. eapply digest_matches_mono; [apply Hev|done]. Qed.

Lemma grant_ok_evolves d d' k g :
  evolves d d' → map_Forall (credential_ok (d_catalog d)) (d_credentials d) →
  grant_ok (d_catalog d) (d_credentials d) k g →
  grant_ok (d_catalog d') (d_credentials d') k g.
Proof.
  intros Hev Hcreds [Hid Hdg Hsh (c & Hc & Hctx & Hpr & Hco)].
  destruct (evo_credentials _ _ Hev _ _ Hc) as (c' & Hc' & [Hf Ho _ _]).
  pose proof (evo_catalog _ _ Hev) as Hcat.
  unfold c_fixed, c_slot in Hf. simplify_eq.
  constructor; [done|by eapply digest_matches_mono| |].
  - unfold g_contract in *. by rewrite (contract_at_mono _ _ _ _ Hcat Hdg).
  - exists c'. split_and!; [done|congruence| |].
    + intros Hu. rewrite Ho; [apply Hpr|]; congruence.
    + unfold g_contract in *. rewrite (contract_at_mono _ _ _ _ Hcat Hdg).
      rewrite (contract_at_mono _ _ (c_ContractKey c') (c_ContractDigest c) Hcat).
      * congruence.
      * pose proof (co_digest _ _ _ (Hcreds _ _ Hc)). congruence.
Qed.

Lemma map_Forall_put {V} (P Q : string → V → Prop) kf (o : option V) (m : gmap string V) :
  map_Forall P m → (∀ k v, P k v → Q k v) → (∀ v, o = Some v → Q (kf v) v) →
  map_Forall Q (put_opt kf o m).
Proof.
  intros HP HPQ Ho. destruct o as [v|]; simpl.
  - apply map_Forall_insert_2; [auto|]. by eapply map_Forall_impl.
  - by eapply map_Forall_impl.
Qed.

(** Sizes grow by fresh keys only. *)
Lemma size_insert_lt {V} (m : gmap string V) k v (n : Z) :
  (Z.of_nat (size m) < n)%Z → (Z.of_nat (size (<[k := v]> m)) ≤ n)%Z.
Proof. intros Hlt. rewrite map_size_insert. destruct (m !! k); simpl; lia. Qed.
Lemma size_insert_old {V} (m : gmap string V) k v v0 :
  m !! k = Some v0 → size (<[k := v]> m) = size m.
Proof. intros Hk. by rewrite map_size_insert, Hk. Qed.

(** * Preservation by commits, table by table *)

Lemma requests_ok_same d d' :
  requests_ok d → evolves d d' → d_requests d' = d_requests d → requests_ok d'.
Proof.
  intros [Hall Hid Hsz] Hev Heq. constructor; rewrite Heq; auto.
  eapply map_Forall_impl; [exact Hall|]. intros. by eapply request_ok_evolves.
Qed.

Lemma requests_ok_insert d d' r :
  requests_ok d → evolves d d' → d_requests d' = <[rq_ID (r_View r) := r]> (d_requests d) →
  request_ok (d_catalog d') (d_credentials d') (rq_ID (r_View r)) r →
  (∀ k p, d_requests d !! k = Some p → r_Idempotency p = r_Idempotency r → k = rq_ID (r_View r)) →
  (Z.of_nat (size (d_requests d')) ≤ 10000)%Z → requests_ok d'.
Proof.
  intros [Hall Hid Hsz] Hev Heq Hr Hidem Hsz'. constructor; [| |done]; rewrite Heq.
  - apply map_Forall_insert_2; [done|].
    eapply map_Forall_impl; [exact Hall|]. intros. by eapply request_ok_evolves.
  - intros k k' p p' [[<- <-]|[_ Hk]]%lookup_insert_Some [[<- <-]|[_ Hk']]%lookup_insert_Some; eauto.
    intros Heq'. symmetry. eauto.
Qed.

Lemma request_ok_new d d' now r :
  admissible d now r → evolves d d' → r_status r = "pending" →
  request_ok (d_catalog d') (d_credentials d') (rq_ID (r_View r)) r.
Proof.
  intros Hadm Hev Hst. eapply request_ok_evolves; [exact Hev|].
  constructor; [done|apply Hadm| | |congruence].
  - rewrite Hst. set_solver.
  - apply Hadm.
Qed.

(** A request that went on keeps what the table asks of it. *)
Lemma request_ok_fixed cat creds k r r' :
  request_ok cat creds k r → r_fixed r' = r_fixed r → r_status r' ∈ request_statuses →
  (r_status r' = "ready" → ∃ c, creds !! rq_CredentialID (r_View r') = Some c ∧ c_slot c = r_slot r) →
  request_ok cat creds k r'.
Proof.
  intros [Hid Hdg Hst Hrot Hrdy] Hf Hst' Hrdy'. destruct (r_fixed_same _ _ Hf). constructor.
  - congruence.
  - congruence.
  - done.
  - intros Hne. destruct Hrot as (c & Hc & Hs & Ho & Hk & Hp); [congruence|].
    exists c. split; [congruence|]. split_and!; try congruence.
    intros Hu. rewrite Hp; congruence.
  - intros Hr. destruct (Hrdy' Hr) as (c & Hc & Hs). exists c. split; congruence.
Qed.

Lemma status_step_valid s s' : status_step s s' = true → s' ∈ request_statuses ∧ s' ≠ "ready".
Proof.
  intros [_ [Ho| ->]]%status_step_cases; [|split; [set_solver|done]].
  apply str_in_elem in Ho. split; [set_solver|]. intros ->. set_solver.
Qed.

Lemma may_share_mono cat cat' g g' :
  cat ⊆ cat' → digest_matches cat (g_ContractKey g) (g_ContractDigest g) = true →
  digest_matches cat (g_ContractKey g') (g_ContractDigest g') = true →
  may_share cat g g' → may_share cat' g g'.
Proof.
  unfold may_share, g_contract. intros Hsub Hg Hg'.
  by rewrite (contract_at_mono _ _ _ _ Hsub Hg), (contract_at_mono _ _ _ _ Hsub Hg').
Qed.
Lemma grants_agree_sym cat g g' : grants_agree cat g g' → grants_agree cat g' g.
Proof. unfold grants_agree, same_binding, may_share. naive_solver. Qed.
Lemma grants_agree_step d d' :
  grants_ok d → evolves d d' →
  ∀ k k' g g', d_grants d !! k = Some g → d_grants d !! k' = Some g' → k ≠ k' →
    g_Active (g_View g) = true → g_Active (g_View g') = true → grants_agree (d_catalog d') g g'.
Proof.
  intros Hgs Hev k k' g g' Hk Hk' Hne Ha Ha'.
  destruct (gs_agree _ Hgs _ _ _ _ Hk Hk' Hne Ha Ha') as [Hb Hw]. split; [done|].
  intros Heq. eapply may_share_mono; [apply Hev| | |by apply Hw].
  - apply (go_digest _ _ _ _ (gs_each _ Hgs _ _ Hk)).
  - apply (go_digest _ _ _ _ (gs_each _ Hgs _ _ Hk')).
Qed.

Lemma replay_app d1 l1 l2 d2 :
  replay d1 l1 = Some d2 → replay d1 (l1 ++ l2)%list = replay d2 l2.
Proof.
  revert d1. induction l1 as [|r l1 IH]; intros d1; simpl; [congruence|].
  destruct (replay1 d1 r); simpl; [apply IH|done].
Qed.

(** Live requests of [d'] are live requests of [d]. *)
Definition reqs_from (now : Z) (d d' : Durable) : Prop :=
  ∀ k r', d_requests d' !! k = Some r' → live_request now r' →
    ∃ r, d_requests d !! k = Some r ∧ live_request now r ∧ r_slot r' = r_slot r ∧
         r_RotateID r' = r_RotateID r.
Definition creds_from (d d' : Durable) : Prop :=
  ∀ k c', d_credentials d' !! k = Some c' → c_status c' ≠ "deleted" →
    ∃ c, d_credentials d !! k = Some c ∧ c_status c ≠ "deleted" ∧ c_slot c' = c_slot c.

Lemma slots_ok_weaken d d' now :
  slots_ok d now → reqs_from now d d' → creds_from d d' → slots_ok d' now.
Proof.
  intros [Hcc Hrr Hrc] Hr Hc. constructor.
  - intros k k' c c' Hk Hk' Hs Hd Hd'.
    destruct (Hc _ _ Hk Hd) as (? & ? & ? & ?), (Hc _ _ Hk' Hd') as (? & ? & ? & ?).
    eapply Hcc; eauto; congruence.
  - intros k k' r r' Hk Hk' Hs Hl Hl'.
    destruct (Hr _ _ Hk Hl) as (? & ? & ? & ? & ?), (Hr _ _ Hk' Hl') as (? & ? & ? & ? & ?).
    eapply Hrr; eauto; congruence.
  - intros k r k' c Hk Hl Hn Hk' Hs. destruct (decide (c_status c = "deleted")) as [|Hd]; [done|].
    destruct (Hr _ _ Hk Hl) as (? & ? & ? & ? & ?), (Hc _ _ Hk' Hd) as (? & ? & Hnd & ?).
    exfalso. eapply Hnd, Hrc; eauto; congruence.
Qed.

Lemma slots_ok_add d d' now c :
  slots_ok d now → reqs_from now d d' →
  d_credentials d' = <[cd_ID (c_View c) := c]> (d_credentials d) →
  (∀ k p, d_requests d' !! k = Some p → live_request now p → r_slot p = c_slot c → False) →
  (∀ k c0, d_credentials d !! k = Some c0 → c_slot c0 = c_slot c → c_status c0 = "deleted") →
  slots_ok d' now.
Proof.
  intros Hsl Hr Heq Hno Hdel. pose proof Hsl as [Hcc Hrr Hrc].
  assert (Hrest : slots_ok (mkDurable ∅ (d_requests d') ∅ (d_credentials d) ∅ ∅ ∅ []) now).
  { eapply slots_ok_weaken; [exact Hsl|exact Hr|]. intros k c0 Hk Hd. eauto. }
  destruct Hrest as [_ Hrr' Hrc']. simpl in *. constructor; [|done|].
  - rewrite Heq. intros k k' c1 c2 [[<- <-]|[_ Hk]]%lookup_insert_Some
      [[<- <-]|[_ Hk']]%lookup_insert_Some Hs Hd Hd'; eauto; exfalso; eauto.
  - rewrite Heq. intros k r k' c1 Hk Hl Hn [[<- <-]|[_ Hk']]%lookup_insert_Some Hs; eauto.
    exfalso; eauto.
Qed.

Lemma slots_ok_request d d' now r :
  slots_ok d now → d_requests d' = <[rq_ID (r_View r) := r]> (d_requests d) →
  d_credentials d' = d_credentials d →
  (∀ k p, d_requests d !! k = Some p → open_status (r_status p) = true →
    r_slot p = r_slot r → (rq_ExpiresAt (r_View p) ≤ now)%Z) →
  (r_RotateID r = "" → ∀ k c, d_credentials d !! k = Some c → c_slot c = r_slot r →
    c_status c = "deleted") →
  slots_ok d' now.
Proof.
  intros [Hcc Hrr Hrc] Hr Hc Hopen Hnew.
  assert (Hno : ∀ k p, d_requests d !! k = Some p → live_request now p → r_slot p ≠ r_slot r).
  { intros k p Hk [Ho Ht] Hs. pose proof (Hopen _ _ Hk Ho Hs). lia. }
  constructor; rewrite ?Hr, ?Hc; [done| |].
  - intros k k' r1 r2 [[<- <-]|[_ Hk]]%lookup_insert_Some
      [[<- <-]|[_ Hk']]%lookup_insert_Some Hs Hl Hl'; eauto; exfalso; eapply Hno; eauto.
  - intros k p k' c [[<- <-]|[_ Hk]]%lookup_insert_Some Hl Hn Hk' Hs; eauto.
Qed.

(** The request that becomes ready leaves its slot to the credential. *)
Lemma fulfils_slots d d' now r r' c :
  slots_ok d now →
  fulfils d r r' c → d_credentials d' = <[cd_ID (c_View c) := c]> (d_credentials d) →
  reqs_from now d d' →
  (∀ k p, d_requests d' !! k = Some p → live_request now p → r_slot p = r_slot r → False) →
  (r_RotateID r = "" → ∀ k c, d_credentials d !! k = Some c → c_slot c = r_slot r →
    c_status c = "deleted") →
  (r_RotateID r ≠ "" → ∃ c, d_credentials d !! r_RotateID r = Some c ∧ rotates c r) →
  slots_ok d' now.
Proof.
  intros Hsl Hful Heq Hrq Hno Hdel Hrot.
  destruct (decide (r_RotateID r = "")) as [Hn|Hn].
  - eapply slots_ok_add; [exact Hsl|exact Hrq|exact Heq|..]; rewrite (ful_slot _ _ _ _ Hful); eauto.
  - eapply slots_ok_weaken; [exact Hsl|exact Hrq|].
    destruct (ful_rotate _ _ _ _ Hful Hn) as (Hid & old & Hold & Hst & _).
    destruct (Hrot Hn) as (c0 & Hc0 & Hs0 & _).
    intros k v. rewrite Heq, Hid. intros [[<- <-]|[_ Hk]]%lookup_insert_Some Hv; [|eauto].
    exists old. split_and!; [done..|]. rewrite (ful_slot _ _ _ _ Hful). congruence.
Qed.

(** A credential that still backs its leases, or has been deleted. *)
Definition still (c c' : credentialRecord) : Prop :=
  c_status c' = c_status c ∧ c_revision c' = c_revision c ∨ c_status c' = "deleted".

Lemma lease_ok_keep d d' k l :
  evolves d d' → grants_ok d →
  lease_ok d k l → d_grants d' !! l_GrantID (lr_View l) = d_grants d !! l_GrantID (lr_View l) →
  (∀ c, d_credentials d !! l_CredentialID (lr_View l) = Some c →
    ∃ c', d_credentials d' !! l_CredentialID (lr_View l) = Some c' ∧ still c c') →
  lease_ok d' k l.
Proof.
  intros Hev Hgs [Hid Hact (g & Hg & Ha & Hgc & Hdel & Hrt) (c & Hc & Hcr) (e & He & Hek)] Hg' Hc'.
  pose proof (go_digest _ _ _ _ (gs_each _ Hgs _ _ Hg)) as Hdg.
  pose proof (contract_at_mono _ _ _ _ (evo_catalog _ _ Hev) Hdg) as Hcat.
  constructor; [done|done| | |].
  - exists g. unfold g_contract in *. rewrite Hcat, Hg'. done.
  - destruct (Hc' _ Hc) as (c' & Hl & Hst). exists c'. split; [done|].
    destruct Hst as [[Hs Hr]|Hd]; [rewrite Hs, Hr|]; auto.
  - exists e. split; [|done]. destruct (evo_events _ _ Hev) as [x ->].
    apply elem_of_app. by left.
Qed.

Lemma lease_ok_same d k l l' : lease_ok d k l → lease_same l l' → lease_ok d k l'.
Proof.
  destruct l as [[] ? ? ?], l' as [[] ? ? ?].
  intros [Hid Hact Hg Hc Hau] (Hv & Hs & Hn). unfold l_with_expiry in Hv. simpl in *.
  injection Hv as -> -> -> -> -> -> ->. by constructor.
Qed.

Lemma leases_ok_sub d d' L L' :
  leases_ok d L → L' ⊆ L → (∀ k l, L' !! k = Some l → lease_ok d' k l) → leases_ok d' L'.
Proof.
  intros [_ Hst Hsz] Hsub Hall. constructor; [done| |].
  - intros k k' l l' Hk Hk'. eapply Hst; by eapply lookup_weaken.
  - apply map_subseteq_size in Hsub. lia.
Qed.

Lemma leases_ok_insert d d' L k l :
  leases_ok d L → (∀ k l, L !! k = Some l → lease_ok d' k l) →
  (Z.of_nat (size (<[k := l]> L)) ≤ 4096)%Z →
  (lr_StateKey l ≠ "" → ∀ k' l', L !! k' = Some l' → lr_StateKey l' = lr_StateKey l → k' = k) →
  lease_ok d' k l → leases_ok d' (<[k := l]> L).
Proof.
  intros [_ Hst Hsz] Hall Hsz' Hs Hl. constructor; [by apply map_Forall_insert_2| |done].
  intros k1 k2 l1 l2 [[<- <-]|[_ Hk]]%lookup_insert_Some [[<- <-]|[_ Hk']]%lookup_insert_Some Heq Hne;
    eauto; [symmetry|]; eapply Hs; eauto; congruence.
Qed.

Lemma leasable_ok d L e l n :
  leasable d L e l → lease_ok (dapply (no_mutation e) n d) (l_ID (lr_View l)) l.
Proof.
  intros Hlea. destruct (lea_grant _ _ _ _ Hlea) as (g & c & ?&?&?&?&?&?&?&?).
  constructor; simpl; [done| |by eauto 8|by eauto|].
  - rewrite (lea_active _ _ _ _ Hlea), size_empty. lia.
  - exists (ev_with_seq n e). split; [set_solver|].
    destruct (lea_event _ _ _ _ Hlea) as (?&?&?). pose proof (lea_kind _ _ _ _ Hlea). done.
Qed.

Section Commit.
Context (d : Durable) (L : gmap string leaseRecord) (now : Z) (log : list JRecord).
Context (m : mutation) (L' : gmap string leaseRecord).
Context (HI : Inv (mkCore d L log now)) (Hok : commit_ok direct d L now m L').
Let d' := dapply m (next_seq log) d.

Let Hreqs : requests_ok d := inv_requests _ HI.
Let Hcreds : map_Forall (credential_ok (d_catalog d)) (d_credentials d) := inv_credentials _ HI.

Lemma commit_evo : evolves d d'.
Proof using All. by eapply commit_evolves. Qed.

Lemma commit_requests : requests_ok d'.
Proof using All.
  pose proof commit_evo as Hev. subst d'.
  assert (Hold : ∀ k r r', d_requests d !! k = Some r → r_fixed r' = r_fixed r →
    ∀ k p, d_requests d !! k = Some p → r_Idempotency p = r_Idempotency r' →
      k = rq_ID (r_View r')).
  { intros k r r' Hk Hf k' p Hp Hi. destruct (r_fixed_same _ _ Hf).
    pose proof (ro_id _ _ _ _ (rs_each _ Hreqs _ _ Hk)).
    rewrite (rs_idem _ Hreqs k' k p r); congruence. }
  pose proof (rs_size _ Hreqs) as Hsz.
  destruct Hok; try (eapply requests_ok_same; [done|exact Hev|done]).
  - eapply requests_ok_insert; [done|exact Hev|done|by eapply request_ok_new| |].
    + intros k p Hk Hi. by destruct (adm_idem _ _ _ Hadm _ _ Hk).
    + apply size_insert_lt, Hadm.
  - destruct (r_fixed_same _ _ Hfix) as [Hid _ _ _ _ _ _ _ _ _ _].
    eapply requests_ok_insert; [done|exact Hev|done| |eauto|].
    + eapply request_ok_evolves; [exact Hev|]. rewrite Hid.
      apply status_step_valid in Hstep as [Hv Hnr].
      eapply request_ok_fixed; [by apply (rs_each _ Hreqs)|done|done|done].
    + simpl. by rewrite Hid, (size_insert_old _ _ _ _ Hr).
  - destruct (r_fixed_same _ _ (ful_fixed _ _ _ _ Hful)) as [Hid _ _ _ _ _ _ _ _ _ _].
    eapply requests_ok_insert; [done|exact Hev|done| |eauto using ful_fixed|].
    + rewrite Hid. eapply request_ok_fixed; [|apply Hful| |].
      * eapply request_ok_evolves; [exact Hev|]. by apply (rs_each _ Hreqs).
      * rewrite (ful_ready _ _ _ _ Hful). set_solver.
      * intros _. exists c. rewrite (ful_id _ _ _ _ Hful). simpl. rewrite lookup_insert_eq.
        split; [done|apply Hful].
    + simpl. by rewrite Hid, (size_insert_old _ _ _ _ Hr).
  - destruct (r_fixed_same _ _ (ful_fixed _ _ _ _ Hful)) as [Hid _ _ _ _ _ Hidem _ _ _ _].
    eapply requests_ok_insert; [done|exact Hev|done| | |].
    + rewrite Hid. eapply request_ok_fixed; [|apply Hful| |].
      * by eapply request_ok_new.
      * rewrite (ful_ready _ _ _ _ Hful). set_solver.
      * intros _. exists c. rewrite (ful_id _ _ _ _ Hful). simpl. rewrite lookup_insert_eq.
        split; [done|apply Hful].
    + intros k p Hk Hi. destruct (adm_idem _ _ _ Hadm _ _ Hk). congruence.
    + apply size_insert_lt, Hadm.
Qed.

Lemma commit_sessions : sessions_ok d'.
Proof using All.
  pose proof (inv_sessions _ HI) as [Hall Hone Hsz]. simpl in *. subst d'.
  assert (Hput : ∀ s, (Z.of_nat (size (<[s_Hash s := s]> (d_sessions d))) ≤ 50000)%Z →
    (direct = false → s_Approved s = true → s_Consumed s = false →
      ∀ k s', d_sessions d !! k = Some s' → s_RequestID s' = s_RequestID s →
       s_Approved s' = true → s_Consumed s' = true) →
    ∀ d', d_sessions d' = <[s_Hash s := s]> (d_sessions d) → sessions_ok d').
  { intros s Hsz' Hs d1 Heq. constructor; rewrite Heq.
    - by apply map_Forall_insert_2.
    - intros Hd k k' s1 s2 [[<- <-]|[_ Hk]]%lookup_insert_Some
        [[<- <-]|[_ Hk']]%lookup_insert_Some Hrq Ha1 Ha2 Hc1 Hc2; eauto.
      + rewrite (Hs Hd Ha1 Hc1 _ _ Hk') in Hc2; congruence.
      + rewrite (Hs Hd Ha2 Hc2 _ _ Hk) in Hc1; congruence.
    - done. }
  destruct Hok; try (by constructor).
  - eapply Hput; [by apply size_insert_lt| |done]. congruence.
  - eapply (Hput (s_approve s)); [by rewrite (size_insert_old _ _ _ _ Hs)| |done]. intros _ _ _. exact Hone0.
  - destruct s as [s|]; [|by constructor]. destruct (Hs _ eq_refl) as [Hc [s0 Hs0]].
    eapply Hput; [by rewrite (size_insert_old _ _ _ _ Hs0)| |done]. congruence.
Qed.

Lemma commit_credentials : map_Forall (credential_ok (d_catalog d')) (d_credentials d').
Proof using All.
  pose proof commit_evo as Hev. subst d'.
  assert (Hful : ∀ r r' c, fulfils d r r' c →
    digest_matches (d_catalog d) (r_ContractKey r) (r_ContractDigest r) = true →
    credential_ok (d_catalog d) (cd_ID (c_View c)) c).
  { intros r r' c Hful Hdg. constructor; [done| |].
    { by rewrite (ful_key _ _ _ _ Hful), (ful_digest _ _ _ _ Hful). }
    destruct (decide (r_RotateID r = "")) as [Hn|Hn].
    - destruct (ful_new _ _ _ _ Hful Hn) as [_ ->]. lia.
    - destruct (ful_rotate _ _ _ _ Hful Hn) as (_ & old & _ & _ & _ & -> & _). apply u64_bound. }
  eapply map_Forall_put; [exact Hcreds|by intros; eapply credential_ok_evolves|].
  intros v Hv. eapply credential_ok_evolves; [exact Hev|].
  destruct Hok; simplify_eq/=.
  - eapply Hful; [done|]. apply (ro_digest _ _ _ _ (rs_each _ Hreqs _ _ Hr)).
  - eapply Hful; [done|]. apply Hadm.
  - destruct (Hcreds _ _ Hc). constructor; [done..|]. apply u64_bound.
  - destruct (Hcreds _ _ Hc). by constructor.
  - destruct (Hcreds _ _ Hc). by constructor.
Qed.

Lemma commit_oauth : map_Forall (λ k o, o_StateHash o = k) (d_oauth d').
Proof using All.
  eapply map_Forall_put; [exact (inv_oauth _ HI)|done|done].
Qed.

Lemma commit_catalog : catalog_ok (d_catalog d').
Proof using All.
  destruct (inv_catalog _ HI) as [Hsub Hall]. pose proof commit_evo as Hev.
  split; [etrans; [exact Hsub|apply Hev]|].
  eapply (map_Forall_put (λ k c, k = key (ct_ID c) (ct_Revision c) ∧ Validate c = true));
    [exact Hall|done|].
  intros c Hc. destruct Hok; simplify_eq/=. done.
Qed.

Lemma commit_grants : grants_ok d'.
Proof using All.
  pose proof commit_evo as Hev. pose proof (inv_grants _ HI) as Hgs. simpl in Hgs.
  pose proof (grants_agree_step _ _ Hgs Hev) as Hagree.
  assert (Heach : map_Forall (grant_ok (d_catalog d') (d_credentials d')) (d_grants d)).
  { eapply map_Forall_impl; [apply Hgs|]. intros k g. by apply grant_ok_evolves. }
  destruct Hgs as [_ Hidem _ Hsz]. subst d'.
  destruct Hok; try (constructor; [exact Heach|exact Hidem|exact Hagree|exact Hsz]).
  - assert (Hg : grant_ok (d_catalog d) (d_credentials d) (g_ID (g_View g)) g).
    { destruct (gra_cred _ _ Hgra) as (c & ? & ? & ? & ? & ?).
      constructor; [done|apply Hgra|apply Hgra|eauto 6]. }
    constructor; simpl; [| | |apply size_insert_lt, Hgra].
    + apply map_Forall_insert_2; [|exact Heach]. by eapply grant_ok_evolves.
    + intros k k' p p' [[<- <-]|[_ Hk]]%lookup_insert_Some [[<- <-]|[_ Hk']]%lookup_insert_Some;
        eauto; intros Heq; exfalso; eapply (gra_idem _ _ Hgra); eauto.
    + intros k k' p p' [[<- <-]|[_ Hk]]%lookup_insert_Some [[<- <-]|[_ Hk']]%lookup_insert_Some;
        eauto; try done; intros _ Ha Ha'; [|apply grants_agree_sym]; eapply (gra_agree _ _ Hgra); eauto.
  - pose proof (Heach _ _ Hg) as [? ? ? ?].
    constructor; simpl; [| | |by rewrite (size_insert_old _ _ _ _ Hg)].
    + apply map_Forall_insert_2; [|exact Heach]. by constructor.
    + intros k k' p p' [[<- <-]|[_ Hk]]%lookup_insert_Some [[<- <-]|[_ Hk']]%lookup_insert_Some;
        eauto; intros Heq; simpl in *; eauto.
    + by intros k k' p p' [[<- <-]|[_ Hk]]%lookup_insert_Some [[<- <-]|[_ Hk']]%lookup_insert_Some;
        eauto.
Qed.

Lemma commit_log : log_ok d' (log ++ [log_entry (next_seq log) m]).
Proof using All.
  destruct (inv_log _ HI) as [Hrep Hseq Hlen]. simpl in *. constructor.
  - rewrite (replay_app _ _ _ _ Hrep). simpl. unfold replay1, log_entry. simpl.
    replace (match mu_Contract m with Some _ => _ | None => false end) with false; [done|].
    by destruct Hok; simpl; rewrite ?Hnew.
  - intros i e Hi. apply lookup_app_Some in Hi as [Hi|[Hge Hi]]; [eauto|].
    apply list_lookup_singleton_Some in Hi as [Hi <-]. simpl. unfold next_seq. lia.
  - simpl. rewrite !length_app. simpl. lia.
Qed.

Lemma commit_slots : slots_ok d' now.
Proof using All.
  pose proof (inv_slots _ HI) as Hsl. pose proof (inv_requests _ HI) as Hrs. simpl in *.
  assert (Hsame : ∀ d', d_requests d' = d_requests d → reqs_from now d d').
  { intros d1 Heq k r. rewrite Heq. eauto. }
  subst d'. destruct Hok; try (destruct Hsl; constructor; done).
  - eapply slots_ok_request; [exact Hsl|done..|apply Hadm|apply Hadm].
  - destruct (r_fixed_same _ _ Hfix). apply status_step_cases in Hstep as [Hop _].
    eapply slots_ok_weaken; [exact Hsl| |by intros k v Hk Hv; eauto].
    unfold reqs_from, creds_from; simpl; intros k v [[<- <-]|[_ Hk]]%lookup_insert_Some Hv; [|eauto].
    exists r. split; [congruence|]. split; [destruct Hv; split; congruence|]. split; congruence.
  - destruct (r_fixed_same _ _ (ful_fixed _ _ _ _ Hful)).
    assert (Hnl : ¬ live_request now r').
    { intros [Ho _]. by rewrite (ful_ready _ _ _ _ Hful) in Ho. }
    eapply fulfils_slots; [exact Hsl|done..| | | |].
    + unfold reqs_from, creds_from; simpl; intros k v [[<- <-]|[_ Hk]]%lookup_insert_Some Hv; [done|eauto].
    + unfold reqs_from, creds_from; simpl; intros k v [[<- <-]|[Hne Hk]]%lookup_insert_Some Hv Hq; [done|].
      apply Hne. rewrite sm_id0. eapply (sl_reqs _ _ Hsl); eauto. by split.
    + intros Hn k c0 Hk Hq. eapply (sl_new _ _ Hsl _ r); eauto. by split.
    + apply (ro_rotate _ _ _ _ (rs_each _ Hrs _ _ Hr)).
  - destruct (r_fixed_same _ _ (ful_fixed _ _ _ _ Hful)).
    assert (Hnl : ¬ live_request now r').
    { intros [Ho _]. by rewrite (ful_ready _ _ _ _ Hful) in Ho. }
    eapply fulfils_slots; [exact Hsl|done..| | |apply Hadm|apply Hadm].
    + unfold reqs_from, creds_from; simpl; intros k v [[<- <-]|[_ Hk]]%lookup_insert_Some Hv; [done|eauto].
    + unfold reqs_from, creds_from; simpl; intros k v [[<- <-]|[Hne Hk]]%lookup_insert_Some Hv Hq; [done|].
      destruct Hv as [Ho Ht]. pose proof (adm_open _ _ _ Hadm _ _ Hk Ho Hq). lia.
  - eapply slots_ok_weaken; [exact Hsl|by apply Hsame|].
    unfold reqs_from, creds_from; simpl; intros k v [[<- <-]|[_ Hk]]%lookup_insert_Some Hv; eauto.
  - eapply slots_ok_weaken; [exact Hsl|by apply Hsame|].
    unfold reqs_from, creds_from; simpl; intros k v [[<- <-]|[_ Hk]]%lookup_insert_Some Hv; eauto.
  - eapply slots_ok_weaken; [exact Hsl|by apply Hsame|].
    unfold reqs_from, creds_from; simpl; intros k v [[<- <-]|[_ Hk]]%lookup_insert_Some Hv; eauto.
Qed.

Lemma commit_leases : leases_ok d' L'.
Proof using All.
  pose proof commit_evo as Hev. pose proof (inv_leases _ HI) as Hls.
  pose proof (inv_grants _ HI) as Hgs. simpl in *.
  assert (Hkeep : ∀ k l, L !! k = Some l → d_grants d' !! l_GrantID (lr_View l) =
      d_grants d !! l_GrantID (lr_View l) →
    (∀ c, d_credentials d !! l_CredentialID (lr_View l) = Some c → ∃ c',
      d_credentials d' !! l_CredentialID (lr_View l) = Some c' ∧ still c c') →
    lease_ok d' k l).
  { intros k l Hk Hg Hc. eapply lease_ok_keep; eauto. by apply (ls_each _ _ Hls). }
  assert (Hquiet : d_grants d' = d_grants d → d_credentials d' = d_credentials d →
    ∀ k l, L !! k = Some l → lease_ok d' k l).
  { intros Hg Hc k l Hk. apply Hkeep; [done|by rewrite Hg|]. rewrite Hc.
    intros c Hl. exists c. split; [done|]. by left. }
  assert (Hcred : ∀ c, d_grants d' = d_grants d →
    d_credentials d' = <[cd_ID (c_View c) := c]> (d_credentials d) →
    leases_ok d' (without_credential (cd_ID (c_View c)) L)).
  { intros c Hg Hc. eapply leases_ok_sub; [done|apply map_filter_subseteq|].
    intros k l [Hk Hne]%map_lookup_filter_Some. apply Hkeep; [done|by rewrite Hg|].
    rewrite Hc, lookup_insert_ne by done. intros c0 Hl. exists c0. split; [done|]. by left. }
  assert (Hstill : ∀ c c', d_grants d' = d_grants d →
    d_credentials d' = <[cd_ID (c_View c) := c']> (d_credentials d) →
    d_credentials d !! cd_ID (c_View c) = Some c → still c c' → leases_ok d' L).
  { intros c c' Hg Hc Hl Hs. eapply leases_ok_sub; [done|reflexivity|].
    intros k l Hk. apply Hkeep; [done|by rewrite Hg|].
    rewrite Hc. intros c0 Hl0. destruct (decide (cd_ID (c_View c) = l_CredentialID (lr_View l))) as [He|Hne].
    - rewrite He, lookup_insert_eq. exists c'. split; [done|]. congruence.
    - rewrite lookup_insert_ne by done. exists c0. split; [done|]. by left. }
  subst d'. destruct Hok;
    try (eapply leases_ok_sub; [done|reflexivity|by apply Hquiet]); try (by apply Hcred).
  - eapply leases_ok_insert; [done|by apply Hquiet|by apply size_insert_lt, Hlea| |].
    + intros Hne k0 l0 Hk0 Heq. by destruct (lea_state _ _ _ _ Hlea Hne _ _ Hk0).
    + by eapply leasable_ok.
  - eapply leases_ok_insert; [done|by apply Hquiet| | |].
    + rewrite (size_insert_old _ _ _ _ Hk). apply Hls.
    + destruct Hsame as (_ & -> & _). intros Hne k0 l0 Hk0 Heq. eapply (ls_state _ _ Hls); eauto. congruence.
    + eapply lease_ok_same; [|done]. by apply Hquiet.
  - eapply leases_ok_sub; [done|apply delete_subseteq|]. intros k0 l0 [_ Hk0]%lookup_delete_Some.
    by apply Hquiet.
  - by apply (Hcred (c_with_view (cd_with (u64 (c_revision c + 1)) st (c_View c)) c)).
  - by eapply (Hstill c); [..|right].
  - by eapply (Hstill c); [..|left].
  - eapply leases_ok_sub; [done|reflexivity|]. intros k l Hk. apply Hkeep; [done| |].
    + destruct (lo_grant _ _ _ (ls_each _ _ Hls _ _ Hk)) as (g0 & Hg0 & _). simpl.
      rewrite lookup_insert_ne; [done|]. intros Heq. pose proof (gra_fresh _ _ Hgra). congruence.
    + intros c Hc. exists c. split; [done|]. by left.
  - eapply leases_ok_sub; [done|apply map_filter_subseteq|].
    intros k l [Hk Hne]%map_lookup_filter_Some. apply Hkeep; [done| |].
    + simpl. by rewrite lookup_insert_ne.
    + intros c Hc. exists c. split; [done|]. by left.
Qed.
End Commit.

(** * Preservation by every step *)

Lemma slots_ok_later d t t' : (t ≤ t')%Z → slots_ok d t → slots_ok d t'.
Proof.
  intros Hle [Hcc Hrr Hrc].
  assert (Hlive : ∀ r, live_request t' r → live_request t r) by (intros r []; split; [done|lia]).
  constructor; eauto.
Qed.

Lemma Inv_step c c' : cstep direct c c' → Inv c → Inv c'.
Proof.
  intros [d L log now m L' Hok|d L log now L' Hsub|d L log now k l op Hk|d L log now now' Hle] HI.
  - constructor; simpl.
    + by eapply commit_catalog.
    + by eapply commit_requests.
    + by eapply commit_sessions.
    + by eapply commit_credentials.
    + by eapply commit_grants.
    + by eapply commit_oauth.
    + by eapply commit_leases.
    + by eapply commit_slots.
    + by eapply commit_log.
  - destruct HI as [? ? ? ? ? ? ? ? ?]; constructor; try done. simpl in *.
    eapply leases_ok_sub; [done|done|]. intros k l Hk. eapply ls_each; [done|]. by eapply lookup_weaken.
  - destruct HI as [? ? ? ? ? ? Hls ? ?]; constructor; try done. simpl in *.
    eapply leases_ok_insert; [done|exact (ls_each _ _ Hls)| | |].
    + rewrite (size_insert_old _ _ _ _ Hk). apply Hls.
    + intros Hne k' l' Hk' Heq. by eapply (ls_state _ _ Hls); eauto; rewrite Heq.
    + eapply lease_ok_same; [by apply (ls_each _ _ Hls)|]. split_and!; [done|done|].
      pose proof (lo_active _ _ _ (ls_each _ _ Hls _ _ Hk)). simpl.
      assert (size (lr_Active l ∖ {[op]}) ≤ size (lr_Active l))%nat by (apply subseteq_size; set_solver). lia.
  - destruct HI; constructor; try done. by eapply slots_ok_later.
Qed.

Lemma Inv_steps c c' : rtc (cstep direct) c c' → Inv c → Inv c'.
Proof. induction 1; eauto using Inv_step. Qed.

Lemma steps_evolve c c' :
  rtc (cstep direct) c c' → Inv c → evolves (k_dur c) (k_dur c') ∧ k_log c `prefix_of` k_log c'.
Proof.
  induction 1 as [c|c1 c2 c3 Hstep _ IH]; intros HI; [done|].
  destruct (IH (Inv_step _ _ Hstep HI)) as [Hev Hlog]. destruct Hstep; simpl in *; try done.
  split; [etrans; [by eapply commit_evo|done]|]. etrans; [by eexists|done].
Qed.
End Inv.
