(* ===== verification/BrokerSim.v ===== *)
(** The simulation between the broker's code and its specification: how the
    state of the code maps to the specification's, the rules of the primitive
    operations, and the rules that turn a commit or a lease update of the code
    into steps of the specification. *)
From stdpp Require Import base gmap strings list relations pretty.
From Stdlib Require Import Ascii String.
From S2P Require Import Prelude GoStrings BrokerIdentity Contract BrokerTypes BrokerCore Enrollment Grants BrokerRuntime BrokerSpec BrokerInv.
Local Open Scope string_scope.

Section Primitives.
Context {J MT PW : Type} `{World} `{Digests} `{Codecs} `{Unicode}.
Context `{JournalOps J} `{Materializer MT} `{Providers PW}.

Abbreviation B := (Broker J MT PW).
Abbreviation BM := (M (Broker J MT PW) BErr).
Implicit Types b : B.

Definition dur (b : B) : Durable :=
  mkDurable (catalog b) (requests b) (sessions b) (credentials b) (grants b) (states b)
    (oauth b) (events b).

Definition core (t : Z) (b : B) : Core := mkCore (dur b) (leases b) (jr_records (jrn b)) t.

(** ** Rules of the primitives *)

Lemma wp_now Q b :
  Q (Ok (w_now (tick b))) (set_tick (S (tick b)) b) → wp (now : BM Z) Q b.
Proof. done. Qed.

Lemma wp_newID p Q b :
  Q (Ok (p ++ w_hex (tick b))) (set_tick (S (tick b)) b) → wp (newID p : BM string) Q b.
Proof. done. Qed.

Lemma wp_Random Q b :
  (∀ r, Q (Ok r) (set_tick (S (tick b)) b)) → wp (Random : BM string) Q b.
Proof. intros HQ. apply HQ. Qed.

Lemma wp_range_keys {V} (m : gmap string V) Q b :
  (∀ ks, ks ≡ₚ (map_to_list m).*1 → Q (Ok ks) (set_tick (S (tick b)) b)) →
  wp (range_keys m : BM (list string)) Q b.
Proof. intros HQ. apply HQ. apply w_order_perm. Qed.

Lemma wp_audit kind a Q b :
  (∀ e, ev_Kind e = kind → Q (Ok e) (set_tick (S (tick b)) b)) → wp (audit kind a : BM Event) Q b.
Proof. intros HQ. by apply HQ. Qed.

Lemma wp_provider_resolve ref Q b :
  (∀ w v, Q (Ok v) (set_prov w b)) → wp (provider_resolve ref : BM _) Q b.
Proof.
  intros HQ. unfold provider_resolve. do 2 wp_step. destruct (Registry_Resolve _ _). apply HQ.
Qed.
Lemma wp_provider_put id v Q b :
  (∀ w r, Q (Ok r) (set_prov w b)) → wp (provider_put id v : BM _) Q b.
Proof.
  intros HQ. unfold provider_put. do 2 wp_step. destruct (Registry_Put _ _ _). apply HQ.
Qed.
Lemma wp_provider_delete id ref Q b :
  (∀ w r, Q (Ok r) (set_prov w b)) → wp (provider_delete id ref : BM _) Q b.
Proof.
  intros HQ. unfold provider_delete. do 2 wp_step. destruct (pv_delete _ _ _). apply HQ.
Qed.

(** [commit] fails without touching the maps, or appends and applies. *)
Lemma wp_commit m Q b :
  (∀ j, jr_records j = jr_records (jrn b) → Q (Err ErrUnavailable) (set_jrn j b)) →
  (∀ j n, live b = true →
     jr_records j = (jr_records (jrn b) ++ [log_entry n m])%list →
     n = next_seq (jr_records (jrn b)) →
     Q (Ok n) (apply m n (set_jrn j b))) →
  wp (commit m : BM Z) Q b.
Proof.
  intros Hfail Hok. unfold commit. do 2 wp_step.
  destruct (live b) eqn:Hlive; simpl.
  - destruct (jr_append _ _ _) as [j [n|]] eqn:Happ.
    + wp_run. apply jr_append_ok in Happ as (? & ? & ?). by apply Hok.
    + wp_run. apply jr_append_fail in Happ. by apply Hfail.
  - wp_step. specialize (Hfail (jrn b) eq_refl). by destruct b.
Qed.

(** ** Dropping leases *)

(** [b'] is [b] but for the lease table, cancelled uses, the workload's files,
    the providers' contents and the clock. *)
Record quiet (b b' : B) : Prop := {
  qu_dur : dur b' = dur b;
  qu_jrn : jrn b' = jrn b;
  qu_closed : closed b' = closed b;
  qu_tick : (tick b ≤ tick b')%nat;
  qu_cancelled : cancelled b ⊆ cancelled b';
}.
Global Instance quiet_preorder : PreOrder quiet.
Proof.
  split; [by constructor|].
  intros b1 b2 b3 [] []. constructor; by etrans.
Qed.

(** Every use of a lease that is gone has been cancelled. *)
Definition cancels (b b' : B) : Prop :=
  ∀ k l, leases b !! k = Some l → leases b' !! k = None → lr_Active l ⊆ cancelled b'.

Definition drops (p : string → leaseRecord → bool) (b b' : B) : Prop :=
  quiet b b' ∧ cancels b b' ∧
  leases b' = filter (λ kl, p kl.1 kl.2 = false) (leases b).

Lemma wp_dropLease id Q b :
  (∀ b', drops (λ k _, bool_decide (k = id)) b b' → Q (Ok tt) b') → wp (dropLease id : BM unit) Q b.
Proof.
  intros HQ. unfold dropLease. do 2 wp_step. destruct (leases b !! id) as [l|] eqn:Hl; wp_run; apply HQ.
  - split_and!.
    + constructor; simpl; try done. set_solver.
    + intros k l' Hk. simpl. rewrite lookup_delete_None. intros [->|]; [|congruence].
      assert (l' = l) as -> by congruence. set_solver.
    + simpl. apply map_eq. intros k. apply option_eq. intros l'.
      rewrite lookup_delete_Some, map_lookup_filter_Some. simpl. rewrite bool_decide_eq_false. naive_solver.
  - split_and!; [done|intros ???; congruence|]. apply map_eq. intros k. apply option_eq. intros l'.
    rewrite map_lookup_filter_Some. simpl. rewrite bool_decide_eq_false. naive_solver.
Qed.

Lemma drops_refl b : drops (λ _ _, false) b b.
Proof.
  split_and!; [done|intros ???; congruence|]. symmetry. by apply map_filter_id.
Qed.
Lemma drops_ext p p' b b' :
  (∀ k l, leases b !! k = Some l → p k l = p' k l) → drops p b b' → drops p' b b'.
Proof.
  intros Hp (Hq & Hc & Hl). split_and!; [done..|]. rewrite Hl. apply map_filter_ext.
  intros k l Hk. simpl. by rewrite Hp.
Qed.
Lemma drops_trans p p' b1 b2 b3 :
  drops p b1 b2 → drops p' b2 b3 → drops (λ k l, p k l || p' k l) b1 b3.
Proof.
  intros (Hq & Hc & Hl) (Hq' & Hc' & Hl'). split_and!; [by etrans| |].
  - intros k l Hk Hn. destruct (leases b2 !! k) as [l2|] eqn:Hk2.
    + assert (l2 = l) as ->.
      { rewrite Hl in Hk2. apply map_lookup_filter_Some in Hk2 as [??]. congruence. }
      by eapply Hc'.
    + etrans; [by eapply Hc|apply Hq'].
  - rewrite Hl', Hl, map_filter_filter. apply map_filter_ext.
    intros k l _. simpl. rewrite orb_false_iff. naive_solver.
Qed.
Lemma drops_sub p b b' : drops p b b' → leases b' ⊆ leases b.
Proof. intros (_ & _ & ->). apply map_filter_subseteq. Qed.

(** The body of a loop over the lease table that drops what [p] selects. *)
Lemma drop_loop p lids Q b :
  (∀ b', drops (λ k l, p l && bool_decide (k ∈ lids)) b b' → Q (Ok tt) b') →
  wp (for_each lids (λ lid,
    b ← get;
    match leases b !! lid with
    | Some l => if p l then dropLease lid else mret tt
    | None => mret tt
    end) : BM unit) Q b.
Proof.
  revert b. induction lids as [|k lids IH]; intros b HQ; simpl.
  { apply wp_ret, HQ. eapply drops_ext; [|apply drops_refl]. intros k l _.
    rewrite bool_decide_eq_false_2 by set_solver. by rewrite andb_false_r. }
  assert (Hnext : ∀ b1, drops (λ k' l, p l && bool_decide (k' = k)) b b1 →
    ∀ b2, drops (λ k l, p l && bool_decide (k ∈ lids)) b1 b2 → Q (Ok tt) b2).
  { intros b1 Hd1 b2 Hd2. apply HQ. eapply drops_ext; [|by eapply drops_trans]. intros k' l _. simpl.
    rewrite <-andb_orb_distrib_r. f_equal. rewrite <-bool_decide_or. apply bool_decide_ext. set_solver. }
  do 3 wp_step. destruct (leases b !! k) as [l|] eqn:Hk; [destruct (p l) eqn:Hp|].
  - apply wp_dropLease. intros b1 Hd1. apply IH, Hnext. eapply drops_ext; [|exact Hd1].
    intros k' l' Hk'. simpl. case_bool_decide; [subst; replace (p l') with true by congruence|];
      by rewrite ?andb_false_r.
  - apply wp_ret, IH, Hnext. eapply drops_ext; [|apply drops_refl]. intros k' l' Hk'. simpl.
    case_bool_decide; [subst; replace (p l') with false by congruence; done|by rewrite andb_false_r].
  - apply wp_ret, IH, Hnext. eapply drops_ext; [|apply drops_refl]. intros k' l' Hk'. simpl.
    case_bool_decide; [congruence|by rewrite andb_false_r].
Qed.

Lemma drops_tick p b n b' :
  (tick b ≤ n)%nat → drops p (set_tick n b) b' → drops p b b'.
Proof.
  intros Hn ([] & Hc & Hl). split_and!; [|done|done]. constructor; try done. simpl in *. lia.
Qed.

Lemma wp_drop_leases_where p Q b :
  (∀ b', drops (λ _ l, p l) b b' → Q (Ok tt) b') → wp (drop_leases_where p : BM unit) Q b.
Proof.
  intros HQ. unfold drop_leases_where. do 3 wp_step. apply wp_range_keys. intros ks Hks.
  cbn beta iota. apply drop_loop. intros b' Hd. apply HQ.
  apply (drops_tick _ _ (S (tick b))); [lia|]. eapply drops_ext; [|exact Hd].
  intros k l Hk. simpl in *. rewrite bool_decide_eq_true_2; [by rewrite andb_true_r|].
  rewrite Hks. apply list_elem_of_fmap. exists (k, l). split; [done|]. by apply elem_of_map_to_list.
Qed.

Lemma wp_invalidateCredential id Q b :
  (∀ b', drops (λ _ l, l_CredentialID (lr_View l) == id) b b' → Q (Ok tt) b') →
  wp (invalidateCredential id : BM unit) Q b.
Proof. apply wp_drop_leases_where. Qed.

(** The sweep removes leases and cancels their uses. *)
Definition sweeps (b b' : B) : Prop :=
  quiet b b' ∧ cancels b b' ∧ leases b' ⊆ leases b.

Lemma wp_sweepLocked Q b : (∀ b', sweeps b b' → Q (Ok tt) b') → wp (sweepLocked : BM unit) Q b.
Proof.
  intros HQ. unfold sweepLocked. do 3 wp_step. apply wp_range_keys. intros ks _. cbn beta iota.
  assert (Htick : ∀ b n b', (tick b ≤ n)%nat → sweeps (set_tick n b) b' → sweeps b b').
  { intros b1 n b2 Hn ([] & Hc & Hl). split_and!; [|done|done]. constructor; try done. simpl in *. lia. }
  assert (Htrans : ∀ b1 b2 b3, sweeps b1 b2 → sweeps b2 b3 → sweeps b1 b3).
  { intros b1 b2 b3 (Hq & Hc & Hl) (Hq' & Hc' & Hl'). split_and!; [by etrans| |by etrans].
    intros k l Hk Hn. destruct (leases b2 !! k) as [l2|] eqn:Hk2.
    - assert (leases b1 !! k = Some l2) by by eapply lookup_weaken.
      assert (l2 = l) as -> by congruence. by eapply Hc'.
    - etrans; [by eapply Hc|apply Hq']. }
  assert (Hrefl : ∀ b, sweeps b b) by (intros b1; split_and!; [done|intros ???; congruence|done]).
  assert (Hloop : ∀ ks b, (∀ b', sweeps b b' → Q (Ok tt) b') → wp (for_each ks (λ id,
    b ← get;
    match leases b !! id with
    | Some l => t ← now; if negb (t <? l_ExpiresAt (lr_View l))%Z then dropLease id else mret tt
    | None => mret tt
    end) : BM unit) Q b); [|apply Hloop; intros b' Hs; apply HQ; by eapply Htick, Hs; lia].
  clear HQ b ks. induction ks as [|k ks IH]; intros b HQ; simpl.
  { by apply wp_ret, HQ. }
  do 3 wp_step. destruct (leases b !! k) as [l|]; [|apply wp_ret, IH, HQ].
  wp_step. apply wp_now. cbn beta iota. destruct (negb _).
  - apply wp_dropLease. intros b1 Hd. apply IH. intros b2 Hs. apply HQ. eapply Htrans; [|exact Hs].
    apply (Htick _ (S (tick b))); [lia|]. split_and!; [apply Hd..|by eapply drops_sub].
  - apply wp_ret, IH. intros b2 Hs. apply HQ, (Htick _ (S (tick b))); [lia|done].
Qed.
End Primitives.

Ltac wp_prim ::=
  lazymatch goal with
  | |- wp now _ _ => apply wp_now
  | |- wp (newID _) _ _ => apply wp_newID
  | |- wp Random _ _ => apply wp_Random; intros ?
  | |- wp (range_keys _) _ _ => apply wp_range_keys; intros ? ?
  | |- wp (audit _ _) _ _ => apply wp_audit; intros ? ?
  | |- wp (provider_resolve _) _ _ => apply wp_provider_resolve; intros ? ?
  | |- wp (provider_put _ _) _ _ => apply wp_provider_put; intros ? ?
  | |- wp (provider_delete _ _) _ _ => apply wp_provider_delete; intros ? ?
  end.

(** * Simulation *)

Section Sim.
Context {J MT PW : Type} `{World} `{Digests} `{Codecs} `{Unicode}.
Context `{JournalOps J} `{Materializer MT} `{Providers PW}.
Variable cfg : Config.
Variable cat0 : gmap string Contract.
Variable c0 : Core.
Hypothesis HI0 : Inv (cf_DirectForm cfg) cat0 c0.
Context `{!MonotoneClock}.

Abbreviation B := (Broker J MT PW).
Abbreviation BM := (M (Broker J MT PW) BErr).
Abbreviation direct := (cf_DirectForm cfg).
Implicit Types b : B.

(** Ids of the kind [p] come from the first [n] draws. *)
Definition minted (p : string) (n : nat) (k : string) : Prop :=
  ∃ i, (i < n)%nat ∧ k = p ++ w_hex i.

Record fresh (b : B) : Prop := {
  fr_requests : ∀ k, is_Some (requests b !! k) → minted "r" (tick b) k;
  fr_credentials : ∀ k, is_Some (credentials b !! k) → minted "c" (tick b) k;
  fr_grants : ∀ k, is_Some (grants b !! k) → minted "g" (tick b) k;
  fr_leases : ∀ k, is_Some (leases b !! k) → minted "l" (tick b) k;
}.

(** The code in state [b] has done what the specification does from [c0] to
    the image of [b]. *)
Record sim (t : Z) (b : B) : Prop := {
  sim_steps : rtc (cstep direct) c0 (core t b);
  sim_time : (t ≤ w_now (tick b))%Z;
  sim_fresh : fresh b;
}.

Definition simulated {A} (_ : res BErr A) (b : B) : Prop := ∃ t, sim t b.

Lemma minted_mono p n n' k : (n ≤ n')%nat → minted p n k → minted p n' k.
Proof. intros Hn (i & Hi & ->). exists i. split; [lia|done]. Qed.

Lemma minted_next p n : minted p (S n) (p ++ w_hex n).
Proof. exists n. split; [lia|done]. Qed.

(** The next draw is new. *)
Lemma minted_fresh p n n' : (n ≤ n')%nat → ¬ minted p n (p ++ w_hex n').
Proof.
  intros Hn (i & Hi & Heq). assert (w_hex n' = w_hex i) as Hhex by (by eapply (inj (String.append p))).
  apply w_hex_inj in Hhex. lia.
Qed.

Lemma sim_inv t b : sim t b → Inv direct cat0 (core t b).
Proof. intros [Hs _ _]. by eapply Inv_steps. Qed.

Lemma sim_quiet t b b' :
  sim t b → core t b' = core t b → (tick b ≤ tick b')%nat → sim t b'.
Proof.
  intros [Hs Ht [Hr Hc Hg Hl]] Heq Hle. constructor.
  - by rewrite Heq.
  - etrans; [exact Ht|]. by apply w_now_mono.
  - unfold core, dur in Heq. injection Heq as ???????? ??.
    constructor; intros k Hk; eapply minted_mono; [exact Hle| |exact Hle| |exact Hle| |exact Hle|];
      [apply Hr|apply Hc|apply Hg|apply Hl]; congruence.
Qed.

Lemma sim_later t t' b : sim t b → (t ≤ t')%Z → (t' ≤ w_now (tick b))%Z → sim t' b.
Proof.
  intros [Hs Ht Hf] Hle Hle'. constructor; [|done|done].
  eapply rtc_r; [exact Hs|]. by apply cs_time.
Qed.

Lemma sim_drop t b b' : sim t b → quiet b b' → leases b' ⊆ leases b → sim t b'.
Proof.
  intros Hsim [Hd Hj _ Hn _] Hsub. pose proof Hsim as [Hs Ht [Hr Hc Hg Hl]].
  unfold dur in Hd. injection Hd as Hcat Hrq Hss Hcr Hgr Hst Hoa Hev.
  constructor; [|by etrans; [exact Ht|apply w_now_mono]|].
  - eapply rtc_r; [exact Hs|]. unfold core, dur. rewrite Hj, Hcat, Hrq, Hss, Hcr, Hgr, Hst, Hoa, Hev.
    by apply cs_drop.
  - constructor; rewrite ?Hrq, ?Hcr, ?Hgr; intros k Hk; eapply minted_mono; eauto.
    apply Hl. destruct Hk as [l Hk]. exists l. by eapply lookup_weaken.
Qed.

(** The ids a commit brings in. *)
Record mints (b b' : B) (m : mutation) : Prop := {
  mi_request : ∀ r, mu_Request m = Some r →
    is_Some (requests b !! rq_ID (r_View r)) ∨ minted "r" (tick b') (rq_ID (r_View r));
  mi_credential : ∀ c, mu_Credential m = Some c →
    is_Some (credentials b !! cd_ID (c_View c)) ∨ minted "c" (tick b') (cd_ID (c_View c));
  mi_grant : ∀ g, mu_Grant m = Some g →
    is_Some (grants b !! g_ID (g_View g)) ∨ minted "g" (tick b') (g_ID (g_View g));
  mi_leases : ∀ k, is_Some (leases b' !! k) → is_Some (leases b !! k) ∨ minted "l" (tick b') k;
}.

Lemma put_minted {V} p n n' kf (o : option V) (m : gmap string V) :
  (n ≤ n')%nat → (∀ k, is_Some (m !! k) → minted p n k) →
  (∀ v, o = Some v → is_Some (m !! kf v) ∨ minted p n' (kf v)) →
  ∀ k, is_Some (put_opt kf o m !! k) → minted p n' k.
Proof.
  intros Hn Hm Ho k [v Hk]. destruct o as [v0|]; simpl in *.
  - apply lookup_insert_Some in Hk as [[<- _]|[_ Hk]].
    + destruct (Ho v0 eq_refl); [|done]. eapply minted_mono; eauto.
    + eapply minted_mono; [exact Hn|]. apply Hm. by eexists.
  - eapply minted_mono; [exact Hn|]. apply Hm. by eexists.
Qed.

Lemma sim_commit t b b' m :
  sim t b → commit_ok direct (dur b) (leases b) t m (leases b') →
  dur b' = dapply m (next_seq (jr_records (jrn b))) (dur b) →
  jr_records (jrn b') = (jr_records (jrn b) ++ [log_entry (next_seq (jr_records (jrn b))) m])%list →
  (tick b ≤ tick b')%nat → mints b b' m → sim t b'.
Proof.
  intros [Hs Ht [Hr Hc Hg Hl]] Hok Hd Hj Hn [Hmr Hmc Hmg Hml].
  constructor; [|by etrans; [exact Ht|apply w_now_mono]|].
  - eapply rtc_r; [exact Hs|]. unfold core. rewrite Hd, Hj. by apply cs_commit.
  - unfold dur, dapply in Hd. injection Hd as Hcat Hrq Hss Hcr Hgr Hst Hoa Hev. simpl in *.
    constructor; rewrite ?Hrq, ?Hcr, ?Hgr; [by eapply put_minted; eauto..|].
    intros k Hk. destruct (Hml k Hk); [|done]. eapply minted_mono; eauto.
Qed.

(** No new ids: what the mutation puts is in the tables already. *)
Lemma mints_old b b' m :
  (∀ r, mu_Request m = Some r → is_Some (requests b !! rq_ID (r_View r))) →
  (∀ c, mu_Credential m = Some c → is_Some (credentials b !! cd_ID (c_View c))) →
  (∀ g, mu_Grant m = Some g → is_Some (grants b !! g_ID (g_View g))) →
  leases b' ⊆ leases b → mints b b' m.
Proof.
  intros Hr Hc Hg Hsub. constructor; [by auto..|].
  intros k [l Hk]. left. exists l. by eapply lookup_weaken.
Qed.

Lemma mints_mono b b' m :
  mints b b m → (tick b ≤ tick b')%nat → leases b' ⊆ leases b → mints b b' m.
Proof.
  intros [Hr Hc Hg _] Ht Hsub. constructor.
  - intros r Hm. destruct (Hr _ Hm); eauto using minted_mono.
  - intros r Hm. destruct (Hc _ Hm); eauto using minted_mono.
  - intros r Hm. destruct (Hg _ Hm); eauto using minted_mono.
  - intros k [l Hk]. left. exists l. by eapply lookup_weaken.
Qed.

(** A commit that leaves the lease table alone. *)
Lemma wp_commit_sim t m (Q : res BErr Z → B → Prop) b :
  sim t b → commit_ok direct (dur b) (leases b) t m (leases b) →
  mints b b m →
  (∀ b', sim t b' → leases b' = leases b → dur b' = dur b → Q (Err ErrUnavailable) b') →
  (∀ b' n, sim t b' → leases b' = leases b →
     dur b' = dapply m (next_seq (jr_records (jrn b))) (dur b) → tick b' = tick b → Q (Ok n) b') →
  wp (commit m) Q b.
Proof.
  intros Hsim Hok Hm Herr Hret. apply wp_commit.
  - intros j Hj. apply Herr; [|done..].
    eapply sim_quiet; [exact Hsim| |done]. unfold core. simpl. by rewrite Hj.
  - intros j n _ Hj ->. apply Hret; [|done..]. eapply sim_commit; [exact Hsim|done..|].
    destruct Hm. by constructor.
Qed.

(** A commit followed by the removal of the leases it invalidates. *)
Lemma sim_commit_drop t b m j p b' :
  sim t b → jr_records j = (jr_records (jrn b) ++ [log_entry (next_seq (jr_records (jrn b))) m])%list →
  drops p (apply m (next_seq (jr_records (jrn b))) (set_jrn j b)) b' →
  commit_ok direct (dur b) (leases b) t m (filter (λ kl, p kl.1 kl.2 = false) (leases b)) →
  mints b b m → sim t b'.
Proof.
  intros Hsim Hj ([Hd Hjr _ Ht _] & _ & Hl) Hok Hm. simpl in *.
  eapply sim_commit; [exact Hsim|by rewrite Hl|done|by rewrite Hjr|done|].
  eapply mints_mono; [exact Hm|done|]. rewrite Hl. apply map_filter_subseteq.
Qed.

Lemma without_credential_filter id (L : gmap string leaseRecord) :
  filter (λ kl, (l_CredentialID (lr_View kl.2) == id) = false) L = without_credential id L.
Proof. apply map_filter_ext. intros k l _. simpl. apply bool_decide_eq_false. Qed.
Lemma without_grant_filter id (L : gmap string leaseRecord) :
  filter (λ kl, (l_GrantID (lr_View kl.2) == id) = false) L = without_grant id L.
Proof. apply map_filter_ext. intros k l _. simpl. apply bool_decide_eq_false. Qed.

Lemma wp_commit_drop t b m p (Q : res BErr Z → B → Prop) (Q' : res BErr unit → B → Prop) :
  sim t b →
  commit_ok direct (dur b) (leases b) t m (filter (λ kl, p kl.2 = false) (leases b)) →
  mints b b m →
  (∀ b', sim t b' → Q (Err ErrUnavailable) b') →
  (∀ b', sim t b' → dur b' = dapply m (next_seq (jr_records (jrn b))) (dur b) →
     leases b' = filter (λ kl, p kl.2 = false) (leases b) → Q' (Ok tt) b') →
  (∀ b' n, wp (drop_leases_where p) Q' b' → Q (Ok n) b') →
  wp (commit m) Q b.
Proof.
  intros Hsim Hok Hm Herr Hret HQ. apply wp_commit.
  - intros j Hj. apply Herr. eapply sim_quiet; [exact Hsim| |done]. unfold core. simpl. by rewrite Hj.
  - intros j n _ Hj ->. apply HQ, wp_drop_leases_where. intros b' Hd. apply Hret.
    + by eapply (sim_commit_drop _ _ _ _ (λ _, p)).
    + apply Hd.
    + apply Hd.
Qed.
End Sim.

(** [sim_here]: the current state is the last simulated one, up to what the
    specification does not see. *)
Ltac sim_here :=
  lazymatch goal with
  | Hsim : sim _ _ ?t ?b |- sim _ _ ?t _ =>
      apply (sim_quiet _ _ _ _ _ Hsim); [reflexivity|simpl in *; lia]
  | Hsim : sim _ _ ?t ?b |- simulated _ _ _ _ =>
      exists t; apply (sim_quiet _ _ _ _ _ Hsim); [reflexivity|simpl in *; lia]
  end.

(** Run a commit that leaves the lease table alone; what remains is the guard
    of the specification, the provenance of ids, and the two continuations. *)
Ltac sim_commit_step :=
  lazymatch goal with
  | Hsim : sim ?cfg ?c0 ?t _ |- wp (commit ?m) _ ?b =>
      apply (wp_commit_sim cfg c0 t m _ b);
      [sim_here| | |let b' := fresh "b'" in let Hs := fresh "Hsim" in let Hl := fresh "Hleases" in
         let Hd := fresh "Hdur" in intros b' Hs Hl Hd|
       let b' := fresh "b'" in let Hs := fresh "Hsim" in let Hl := fresh "Hleases" in
       let Hd := fresh "Hdur" in let Ht := fresh "Htick" in intros b' ? Hs Hl Hd Ht]
  end.
