(* ===== verification/BrokerRefine.v ===== *)
(** Every critical section of the broker's code takes steps of the
    specification: one lemma per operation of BrokerCore.v, Enrollment.v,
    Grants.v and BrokerRuntime.v. *)
From stdpp Require Import base gmap strings list relations pretty.
From Stdlib Require Import Ascii String.
From S2P Require Import Prelude GoStrings BrokerIdentity Contract BrokerTypes BrokerCore Enrollment Grants BrokerRuntime BrokerSpec BrokerInv BrokerSim.
Local Open Scope string_scope.

Section Refine.
Context {J MT PW : Type} `{World} `{!MonotoneClock} `{Digests} `{Codecs} `{Unicode}.
Context `{JournalOps J} `{Materializer MT} `{Providers PW} `{TokenEndpoint PW}.
Variable cfg : Config.
Variable cat0 : gmap string Contract.
Variable c0 : Core.
Hypothesis HI0 : Inv (cf_DirectForm cfg) cat0 c0.

Abbreviation B := (Broker J MT PW).
Abbreviation BM := (M (Broker J MT PW) BErr).
Abbreviation sim := (sim cfg c0).
Abbreviation simulated := (simulated cfg c0).
Implicit Types b : B.

(** ** What the invariant says of the current tables *)

Lemma sim_request t b k r :
  sim t b → requests b !! k = Some r → request_ok (catalog b) (credentials b) k r.
Proof. intros Hsim. apply (rs_each _ (inv_requests _ _ _ (sim_inv _ _ _ HI0 _ _ Hsim))). Qed.
Lemma sim_credential t b k c :
  sim t b → credentials b !! k = Some c → credential_ok (catalog b) k c.
Proof. intros Hsim. apply (inv_credentials _ _ _ (sim_inv _ _ _ HI0 _ _ Hsim)). Qed.
Lemma sim_grant t b k g :
  sim t b → grants b !! k = Some g → grant_ok (catalog b) (credentials b) k g.
Proof. intros Hsim. apply (gs_each _ (inv_grants _ _ _ (sim_inv _ _ _ HI0 _ _ Hsim))). Qed.
Lemma sim_session t b k s : sim t b → sessions b !! k = Some s → s_Hash s = k.
Proof. intros Hsim. apply (ss_each _ _ (inv_sessions _ _ _ (sim_inv _ _ _ HI0 _ _ Hsim))). Qed.
Lemma sim_lease t b k l : sim t b → leases b !! k = Some l → lease_ok (dur b) k l.
Proof. intros Hsim. apply (ls_each _ _ (inv_leases _ _ _ (sim_inv _ _ _ HI0 _ _ Hsim))). Qed.

(** ** Reads *)

Lemma sim_Sweep t b : sim t b → wp Sweep simulated b.
Proof.
  intros Hsim. apply wp_sweepLocked. intros b' (Hq & _ & Hsub). exists t. by eapply sim_drop.
Qed.

Lemma sim_GetRequest t b a id : sim t b → wp (GetRequest a id) simulated b.
Proof. intros Hsim. unfold GetRequest. wp_run; sim_here. Qed.
Lemma sim_GetCredential t b a id : sim t b → wp (GetCredential a id) simulated b.
Proof. intros Hsim. unfold GetCredential. wp_run; sim_here. Qed.
Lemma sim_GetGrant t b a id : sim t b → wp (GetGrant a id) simulated b.
Proof. intros Hsim. unfold GetGrant. wp_run; sim_here. Qed.
Lemma sim_GetEvents t b a after limit : sim t b → wp (GetEvents a after limit) simulated b.
Proof. intros Hsim. unfold GetEvents. wp_run; sim_here. Qed.
Lemma sim_RecoveryRefs t b : sim t b → wp RecoveryRefs simulated b.
Proof. intros Hsim. unfold RecoveryRefs. wp_run; sim_here. Qed.
Lemma sim_Catalog t b : sim t b → wp Catalog simulated b.
Proof. intros Hsim. unfold Catalog. wp_run; sim_here. Qed.
Lemma sim_Close t b : sim t b → wp Close simulated b.
Proof.
  intros Hsim. unfold Close. wp_run; try sim_here.
  exists t. apply (sim_quiet _ _ _ _ _ Hsim); [|simpl; lia]. unfold core. simpl. by rewrite jr_close_records.
Qed.

(** ** Requests *)

(** A change of a request's status within its life cycle. *)
Lemma wp_commit_request t b e k r r' o (Q : res BErr Z → B → Prop) :
  sim t b → requests b !! k = Some r → r_fixed r' = r_fixed r →
  status_step (r_status r) (r_status r') = true →
  (∀ b', sim t b' → Q (Err ErrUnavailable) b') → (∀ b' n, sim t b' → Q (Ok n) b') →
  wp (commit (mkMutation e (Some r') None None None None o None)) Q b.
Proof.
  intros Hsim Hr Hfix Hst Herr Hok.
  pose proof (ro_id _ _ _ _ (sim_request _ _ _ _ Hsim Hr)) as Hid.
  sim_commit_step; [|..|by eauto|by eauto].
  - by apply (ok_request _ _ _ _ _ r); [rewrite Hid|..].
  - apply mints_old; simpl; try done. intros ? [= <-].
    rewrite (sm_id _ _ (r_fixed_same _ _ Hfix)), Hid. by eexists.
Qed.

Lemma open_cancels s : s ∈ request_statuses → s ≠ "canceled" → s ≠ "ready" →
  status_step s "canceled" = true.
Proof.
  intros Hin Hc Hr. unfold status_step. apply orb_true_intro. right.
  apply andb_true_iff. split; [|done]. apply str_in_elem. set_solver.
Qed.

Lemma sim_CancelRequest t b a id : sim t b → wp (CancelRequest a id) simulated b.
Proof.
  intros Hsim. unfold CancelRequest. wp_run; try sim_here. guards.
  rename select (requests b !! id = Some _) into Hr.
  eapply (wp_commit_request t); [sim_here|exact Hr|done| |intros; wp_run; sim_here..].
  apply open_cancels; [|done..]. apply (ro_status _ _ _ _ (sim_request _ _ _ _ Hsim Hr)).
Qed.

(** Commit a change of a credential, drop its leases, go on. *)
Lemma wp_commit_invalidate {A} t b m id (k : BM A) Q :
  sim t b →
  commit_ok (cf_DirectForm cfg) (dur b) (leases b) t m (without_credential id (leases b)) →
  mints b b m →
  (∀ e b', sim t b' → Q (Err e) b') →
  (∀ b', sim t b' → dur b' = dapply m (next_seq (jr_records (jrn b))) (dur b) →
     leases b' = without_credential id (leases b) → wp k Q b') →
  wp (commit m) (λ r b', match r with
    | Ok _ => wp (invalidateCredential id ;; k) Q b'
    | Err e => Q (Err e) b' end) b.
Proof.
  intros Hsim Hok Hm Herr Hret.
  eapply (wp_commit_drop _ _ t b m (λ l, l_CredentialID (lr_View l) == id)
    _ (λ r b', match r with Ok _ => wp k Q b' | Err e => Q (Err e) b' end));
    [done|by rewrite without_credential_filter|done|by auto|..].
  - intros b' Hs Hd Hl. rewrite without_credential_filter in Hl. by apply Hret.
  - intros b' n Hwp. apply wp_bind, Hwp.
Qed.

(** [ready]: from a request the specification lets be fulfilled to a credential. *)
Lemma wp_ready t b r0 r ref managed s (Q : res BErr credentialRecord → B → Prop) :
  sim t b → r_fixed r = r_fixed r0 →
  is_Some (requests b !! rq_ID (r_View r)) ∨ minted "r" (tick b) (rq_ID (r_View r)) →
  (∀ e r' c, fulfils (dur b) r0 r' c →
     commit_ok (cf_DirectForm cfg) (dur b) (leases b) t
       (mkMutation e (Some r') (s_consume <$> s) (Some c) None None None None)
       (without_credential (cd_ID (c_View c)) (leases b))) →
  (∀ x b', sim t b' → (∀ c, x = Ok c → catalog b' = catalog b ∧
     ∃ r', requests b' !! rq_ID (r_View r) = Some r' ∧ r_fixed r' = r_fixed r) → Q x b') →
  wp (ready r ref managed s) Q b.
Proof.
  intros Hsim Hfix Hreq Hok HQ. pose proof (r_fixed_same _ _ Hfix) as [].
  assert (Herr : ∀ b' e, core t b' = core t b → (tick b ≤ tick b')%nat → Q (Err e) b').
  { intros b' e Hc Ht. apply HQ; [by eapply sim_quiet|done]. }
  assert (Hdone : ∀ b' id rev e s' c c', sim t b' → dur b' = dapply (mkMutation e
    (Some (r_with_view (rq_ready id rev (r_View r)) r)) s' (Some c) None None None None)
    (next_seq (jr_records (jrn b))) (dur b) → Q (Ok c') b').
  { intros b' id rev e s' c c' Hs Hd. apply HQ; [done|]. intros _ _.
    unfold dur, dapply in Hd. injection Hd as Hcat Hrq _ _ _ _ _ _. simpl in *. split; [done|].
    rewrite Hrq, lookup_insert_eq. by eexists. }
  pose proof (sim_fresh _ _ _ _ Hsim) as Hfr.
  unfold ready. destruct (decide (r_RotateID r = "")) as [Hn|Hn].
  - rewrite bool_decide_eq_true_2 by done. wp_run.
    eapply (wp_commit_invalidate t); [sim_here|apply Hok| |by intros; apply HQ|].
    + constructor; simpl; try done; try congruence.
      intros _. split; [|done]. apply eq_None_not_Some. intros Hc.
      apply (minted_fresh "c" (tick b) (tick b)); [lia|]. by apply Hfr.
    + constructor; simpl.
      * intros ? [= <-]. simpl. destruct Hreq as [|Hq]; [by left|right]. eapply minted_mono; [|done]. lia.
      * intros ? [= <-]. simpl. right. eexists. split; [|done]. simpl. lia.
      * done.
      * eauto.
    + intros b' Hs Hd _. wp_run. by eapply Hdone.
  - rewrite bool_decide_eq_false_2 by done. wp_run; try (apply Herr; simpl; [done|lia]). guards.
    rename select (credentials b !! _ = Some _) into Hold.
    eapply (wp_commit_invalidate t); [sim_here|apply Hok| |by intros; apply HQ|].
    + constructor; simpl; try done; try congruence.
      intros _. split; [congruence|]. eexists. rewrite <-sm_rotate.
      split; [exact Hold|]. split_and!; [done|unfold c_revision; congruence|done|]. rewrite Hold. by eexists.
    + constructor; simpl; [|..|done|by eauto].
      * intros ? [= <-]. simpl. destruct Hreq as [|Hq]; [by left|right]. eapply minted_mono; [|done]. lia.
      * intros ? [= <-]. left. by eexists.
    + intros b' Hs Hd _. wp_run. by eapply Hdone.
Qed.

(** ** [CreateRequest] *)

Lemma in_range_keys {V} (m : gmap string V) ks k v :
  ks ≡ₚ (map_to_list m).*1 → m !! k = Some v → k ∈ ks.
Proof.
  intros Hks Hk. rewrite Hks. apply list_elem_of_fmap. exists (k, v).
  split; [done|]. by apply elem_of_map_to_list.
Qed.

(** A replay answers with a request of the table; without one the idempotency
    key is new. *)
Lemma wp_request_replay idem fp (Q : res BErr (option Request) → B → Prop) b :
  (∀ x n, (tick b ≤ n)%nat →
    (x = Ok None → ∀ k r, requests b !! k = Some r → r_Idempotency r ≠ idem) →
    (∀ v, x = Ok (Some v) → ∃ k r, requests b !! k = Some r ∧ r_View r = v ∧
      r_Idempotency r = idem ∧ r_Fingerprint r = fp) → Q x (set_tick n b)) →
  wp (request_replay idem fp) Q b.
Proof.
  intros HQ. unfold request_replay. wp_run. eapply wp_mono.
  { apply (wp_for_return (λ s, s = set_tick (S (tick b)) b)
      (λ k, ∀ r, requests b !! k = Some r → r_Idempotency r ≠ idem)
      (λ x s, s = set_tick (S (tick b)) b ∧ ∀ v, x = Ok v → ∃ k r, requests b !! k = Some r ∧
        r_View r = v ∧ r_Idempotency r = idem ∧ r_Fingerprint r = fp)); [done|].
    intros k s _ ->. destruct (requests b !! k) as [r|] eqn:Hk; wp_run; guards; try done.
    - split; [done|]. intros v [= <-]. by exists k, r.
    - split; [done|]. by intros ? [= <-]. }
  intros [[v|]|e] s'.
  - intros [-> Hv]. apply HQ; [lia|done|]. intros ? [= <-]. by apply Hv.
  - intros [-> HP]. apply HQ; [lia| |done]. intros _ k r Hk.
    rewrite Forall_forall in HP. eapply HP; [by eapply in_range_keys|done].
  - intros [-> _]. apply HQ; [lia|done|done].
Qed.

Lemma open_status_or s :
  open_status s = (s == "pending") || (s == "authorizing") || (s == "exchanging").
Proof.
  apply eq_true_iff_eq. unfold open_status. rewrite str_in_elem, !orb_true_iff, !bool_decide_eq_true.
  set_solver.
Qed.

(** No open request for the slot outlives the clock when the check passes. *)
Lemma wp_request_open_conflict a in_ (Q : res BErr unit → B → Prop) b :
  (∀ x n, (tick b ≤ n)%nat →
    (x = Ok tt → ∀ k r, requests b !! k = Some r → open_status (r_status r) = true →
      r_slot r = (a_ContextID a, cr_ConnectionID in_, cr_ConsumerID in_) →
      (rq_ExpiresAt (r_View r) ≤ w_now n)%Z) → Q x (set_tick n b)) →
  wp (request_open_conflict a in_) Q b.
Proof.
  intros HQ. unfold request_open_conflict. wp_run.
  lazymatch goal with |- wp (for_each _ ?f) _ _ => set (body := f) end.
  set (P (ks : list string) x n := x = @Ok BErr unit tt → ∀ k r, k ∈ ks → requests b !! k = Some r →
    open_status (r_status r) = true →
    r_slot r = (a_ContextID a, cr_ConnectionID in_, cr_ConsumerID in_) →
    (rq_ExpiresAt (r_View r) ≤ w_now n)%Z).
  assert (Hloop : ∀ ks n, (tick b ≤ n)%nat → (∀ x n', (n ≤ n')%nat → P ks x n' → Q x (set_tick n' b)) →
    wp (for_each ks body) Q (set_tick n b)).
  { clear HQ. intros l. induction l as [|k l IH]; intros n Hn HQ; simpl.
    { apply wp_ret, HQ; [done|]. intros _ k r Hk. set_solver. }
    assert (Hstep : ∀ n', (n ≤ n')%nat →
      (∀ r, requests b !! k = Some r → open_status (r_status r) = true →
        r_slot r = (a_ContextID a, cr_ConnectionID in_, cr_ConsumerID in_) →
        (rq_ExpiresAt (r_View r) ≤ w_now n')%Z) →
      wp (for_each l body) Q (set_tick n' b)).
    { intros n' Hn' Hk. apply IH; [lia|]. intros x n'' Hn'' HP. apply HQ; [lia|].
      intros -> k' r' [->|Hin]%elem_of_cons Hr' Ho Hs; [|by eapply HP].
      etrans; [by eapply Hk|]. apply w_now_mono. lia. }
    wp_step. unfold body at 1. destruct (requests b !! k) as [r|] eqn:Hr; [|wp_run; by apply Hstep].
    wp_step.
    - wp_run; guards.
      + apply (HQ _ (S n)); [lia|done].
      + apply (Hstep (S n)); [lia|]. intros ? [= <-] _ _. etrans; [done|]. apply w_now_mono. simpl. lia.
    - wp_run. apply Hstep; [done|]. intros ? [= <-] Ho Hs. exfalso. simpl in *.
      rewrite open_status_or in Ho. unfold r_slot, r_status in *. simplify_eq.
      rewrite !bool_decide_eq_true_2 in * by done. simpl in *. congruence. }
  apply (Hloop _ (S (tick b))); [lia|]. intros x n Hn HP. apply HQ; [lia|].
  intros -> k r Hk. eapply HP; [done|by eapply in_range_keys|done].
Qed.

Lemma map_existsb_false {V} (p : V → bool) (m : gmap string V) :
  map_existsb p m = false ↔ ∀ k v, m !! k = Some v → p v = false.
Proof.
  unfold map_existsb. rewrite <-not_true_iff_false, existsb_exists. split.
  - intros Hn k v Hk. apply not_true_iff_false. intros Hp. apply Hn. exists (k, v).
    split; [by apply list_elem_of_In, elem_of_map_to_list|done].
  - intros Hall ([k v] & Hin%list_elem_of_In%elem_of_map_to_list & Hp).
    apply Hall in Hin. simpl in *. congruence.
Qed.

(** The credential guard lets through new slots and legal rotations. *)
Lemma request_guard_ok b a in_ ck r :
  request_credential_guard b a in_ ck = None →
  r_Actor r = a → r_RotateID r = cr_RotateCredentialID in_ → r_OwnerKind r = cr_OwnerKind in_ →
  r_ContractKey r = ck → rq_ConnectionID (r_View r) = cr_ConnectionID in_ →
  rq_ConsumerID (r_View r) = cr_ConsumerID in_ →
  (r_RotateID r = "" → ∀ k c, credentials b !! k = Some c → c_slot c = r_slot r →
     c_status c = "deleted") ∧
  (r_RotateID r ≠ "" → ∃ c, credentials b !! r_RotateID r = Some c ∧ rotates c r).
Proof.
  unfold request_credential_guard. intros Hg Ha Hrot Ho Hk Hcn Hcs. rewrite Hrot. split; intros Hr.
  - rewrite bool_decide_eq_true_2 in Hg by done. simpl in Hg.
    destruct (map_existsb _ _) eqn:Hex; [done|]. rewrite map_existsb_false in Hex.
    intros k c Hc Hs. specialize (Hex k c Hc). unfold c_slot, r_slot in Hs. simplify_eq.
    destruct (decide (c_status c = "deleted")) as [|Hne]; [done|].
    rewrite !bool_decide_eq_true_2 in Hex by congruence.
    rewrite bool_decide_eq_false_2 in Hex by done. done.
  - rewrite bool_decide_eq_false_2 in Hg by done. simpl in Hg.
    destruct (credentials b !! _) as [c|] eqn:Hc; [|done]. exists c. split; [done|].
    match type of Hg with (if ?x then _ else _) = _ => destruct x eqn:Hm; [done|] end. guards. unfold managedBy in *.
    destruct (a_ContextID a != _) eqn:Hctx; [done|]. guards.
    split_and!; [unfold c_slot, r_slot; congruence|congruence|congruence|].
    intros Hu. rename select (_ || _ = true) into Hor. rewrite Hu in Hor. simpl in Hor. guards. congruence.
Qed.

(** The request [CreateRequest] builds is admissible once its checks passed. *)
Lemma create_admissible t b a in_ c r n :
  sim t b → (tick b ≤ n)%nat →
  catalog b !! r_ContractKey r = Some c → r_ContractDigest r = ContractDigest c →
  (∀ k p, requests b !! k = Some p → r_Idempotency p ≠ r_Idempotency r) →
  (Z.of_nat (size (requests b)) < 10000)%Z →
  request_credential_guard b a in_ (r_ContractKey r) = None →
  (∀ k p, requests b !! k = Some p → open_status (r_status p) = true →
    r_slot p = (a_ContextID a, cr_ConnectionID in_, cr_ConsumerID in_) →
    (rq_ExpiresAt (r_View p) ≤ w_now n)%Z) →
  r_Actor r = a → r_RotateID r = cr_RotateCredentialID in_ → r_OwnerKind r = cr_OwnerKind in_ →
  rq_ConnectionID (r_View r) = cr_ConnectionID in_ → rq_ConsumerID (r_View r) = cr_ConsumerID in_ →
  rq_ID (r_View r) = "r" ++ w_hex n →
  admissible (dur b) (w_now n) r.
Proof.
  intros Hsim Hn Hc Hd Hi Hsz Hg Hop Ha Hr Ho Hcn Hcs Hid.
  destruct (request_guard_ok _ _ _ _ r Hg) as [Hnew Hrot]; try done.
  constructor; simpl; try done.
  - apply eq_None_not_Some. rewrite Hid. intros Hs. apply (minted_fresh "r" (tick b) n); [done|].
    by apply (sim_fresh _ _ _ _ Hsim).
  - unfold digest_matches. rewrite Hc, Hd. by apply bool_decide_eq_true.
  - intros k p Hk Hst Hs. eapply Hop; eauto. rewrite Hs. unfold r_slot. congruence.
Qed.

(** The request a successful [CreateRequest] answers with. *)
Record enrolled (b : B) (a : Actor) (in_ : CreateRequestIn) (v : Request) : Prop := {
  en_valid : create_invalid a in_ = false;
  en_contract : ∃ c, catalog b !! key (cr_ContractID in_) (cr_ContractRevision in_) = Some c ∧
    (cr_ExternalAlias in_ == "") && negb (provider_writable (ct_Storage c)) = false;
  en_request : ∃ k r, requests b !! k = Some r ∧ r_View r = v ∧
    r_Idempotency r = requestKey a (cr_IdempotencyKey in_) ∧
    r_Fingerprint r = Digest (marshal_create in_);
}.

Lemma wp_CreateRequest t b a in_ :
  sim t b →
  wp (CreateRequest cfg a in_) (λ r b', simulated r b' ∧ ∀ v, r = Ok v → enrolled b' a in_ v) b.
Proof.
  intros Hsim. unfold CreateRequest. wp_run; try (split; [sim_here|done]).
  rename select (create_invalid a in_ = false) into Hval.
  rename select (_ && negb (provider_writable _) = false) into Hprov. guards.
  rename select (catalog b !! _ = Some _) into Hcat.
  apply wp_request_replay. intros x n Hn Hidem Hfound. wp_run. destruct x as [[v|]|e]; wp_run.
  { split; [sim_here|]. intros ? [= <-]. destruct (Hfound _ eq_refl) as (k & r & Hr).
    constructor; [done|by eauto|]. exists k, r. naive_solver. }
  { split; [sim_here|done]. }
  2:{ split; [sim_here|done]. }
  guards.
  destruct (request_credential_guard _ _ _ _) eqn:Hguard; wp_run; try (split; [sim_here|done]).
  apply wp_request_open_conflict. intros [[]|e] n' Hn' Hopen; [|split; [sim_here|done]].
  simpl in Hn', Hopen. specialize (Hopen eq_refl). specialize (Hidem eq_refl).
  pose proof (create_admissible t b a in_ a0) as Hadm.
  assert (Hlater : sim (w_now n') (set_tick n' b)).
  { apply (sim_later _ _ t); [sim_here| |done]. etrans; [apply (sim_time _ _ _ _ Hsim)|].
    apply w_now_mono. lia. }
  assert (Hnn : (tick b ≤ n')%nat) by lia.
  wp_run; try (split; [sim_here|done]); guards.
  - eapply (wp_ready (w_now n')); [sim_here|done|..].
    + right. eexists. split; [|done]. simpl. lia.
    + intros e r' c Hful. eapply ok_alias; [| |exact Hful]; [by apply (Hadm _ n')|done].
    + intros [c|e] b' Hs' Hpost; wp_run; (split; [sim_here|]); [|done].
      destruct (Hpost c eq_refl) as (Hcat' & r' & Hr' & Hf). simpl in Hr', Hcat'.
      intros v0. simpl. rewrite Hr'. intros [= <-]. constructor; [done|by rewrite Hcat'; eauto|].
      eexists _, r'. split; [exact Hr'|]. split; [done|].
      split; [exact (sm_idem _ _ (r_fixed_same _ _ Hf))|exact (sm_fp _ _ (r_fixed_same _ _ Hf))].
  - sim_commit_step.
    + apply ok_new_request; [|done]. by apply (Hadm _ n').
    + constructor; try done; [|by eauto]. intros ? [= <-]. right. eexists. split; [|done]. simpl; lia.
    + wp_run. split; [sim_here|done].
    + wp_run. split; [sim_here|]. intros ? [= <-].
      unfold dur, dapply in Hdur. injection Hdur as Hcat' Hrq _ _ _ _ _ _. simpl in *.
      constructor; [done|rewrite Hcat'; by eauto|]. rewrite Hrq. eexists _, _.
      split; [by rewrite lookup_insert_eq|]. by split_and!.
Qed.

Lemma sim_CreateRequest t b a in_ : sim t b → wp (CreateRequest cfg a in_) simulated b.
Proof. intros Hsim. eapply wp_mono; [by eapply wp_CreateRequest|]. by intros r b' [Hs _]. Qed.

(** ** Sessions and submission *)

(** What a session that passes [validSession] is. *)
Record session_good (b : B) (raw id : string) (approved : bool) (s : sessionRecord)
    (r : requestRecord) : Prop := {
  sg_session : sessions b !! Digest raw = Some s;
  sg_request : requests b !! id = Some r;
  sg_for : s_RequestID s = id;
  sg_unused : s_Consumed s = false;
  sg_approved : approved = true → s_Approved s = true;
  sg_live : (w_now (tick b) < rq_ExpiresAt (r_View r))%Z;
  sg_open : r_status r ≠ "canceled" ∧ r_status r ≠ "ready";
}.

Lemma wp_validSession raw id approved (Q : res BErr (sessionRecord * res BErr requestRecord) → B → Prop) b :
  (∀ s v n, (tick b ≤ n)%nat → (∀ r, v = Ok r → session_good b raw id approved s r) →
    Q (Ok (s, v)) (set_tick n b)) →
  wp (validSession raw id approved) Q b.
Proof.
  intros HQ. unfold validSession.
  assert (Hb : ∀ x, Q x (set_tick (tick b) b) → Q x b) by (by destruct b).
  wp_run. destruct (sessions b !! Digest raw) as [s|] eqn:Hs.
  2:{ wp_run. by apply Hb, HQ. }
  destruct (requests b !! id) as [r|] eqn:Hr.
  2:{ wp_run. by apply Hb, HQ. }
  wp_run; guards.
  - by apply Hb, HQ.
  - apply HQ; [simpl; lia|done].
  - apply HQ; [simpl; lia|]. intros r'. simpl in *.
    destruct (_ || _) eqn:Hc; [done|]. destruct (approved && _) eqn:Ha; [done|]. intros [= <-].
    guards. constructor; auto.
    + intros ->. by destruct (s_Approved s).
    + eapply Z.le_lt_trans; [|eassumption]. apply w_now_mono. lia.
Qed.

Lemma sim_live t b r :
  sim t b → (w_now (tick b) < rq_ExpiresAt (r_View r))%Z → (t < rq_ExpiresAt (r_View r))%Z.
Proof. intros Hsim. pose proof (sim_time _ _ _ _ Hsim). lia. Qed.

Lemma status_open t b k r :
  sim t b → requests b !! k = Some r → r_status r ≠ "canceled" → r_status r ≠ "ready" →
  open_status (r_status r) = true.
Proof.
  intros Hsim Hr Hc Hd. apply str_in_elem.
  pose proof (ro_status _ _ _ _ (sim_request _ _ _ _ Hsim Hr)). set_solver.
Qed.

Lemma wp_count_active_sessions id (Q : res BErr Z → B → Prop) b :
  (∀ x n, (tick b ≤ n)%nat → Q x (set_tick n b)) → wp (count_active_sessions id) Q b.
Proof.
  intros HQ. unfold count_active_sessions. wp_run. eapply wp_mono.
  - apply (wp_for_fold (λ _ s, ∃ n, (tick b ≤ n)%nat ∧ s = set_tick n b)
      (λ _ s, ∃ n, (tick b ≤ n)%nat ∧ s = set_tick n b)).
    + exists (S (tick b)). split; [lia|done].
    + intros acc k s _ (n & Hn & ->).
      destruct (sessions b !! k); wp_run; eexists; (split; [|done]); simpl; lia.
  - intros [x|e] s (n & Hn & ->); by apply HQ.
Qed.

Lemma sim_OpenSession t b id raw : sim t b → wp (OpenSession cfg id raw) simulated b.
Proof.
  intros Hsim. unfold OpenSession.
  repeat first [progress wp_run
    | apply wp_validSession; intros ? ? ? ? ? | apply wp_count_active_sessions; intros [] ? ?];
    try sim_here.
  all: guards; sim_commit_step; [by apply ok_new_session|by apply mints_old|wp_run; sim_here..].
Qed.

Lemma sim_Approve t b a id code : sim t b → wp (Approve a id code) simulated b.
Proof.
  intros Hsim. unfold Approve. wp_run; try sim_here. guards.
  eapply wp_mono.
  - apply (wp_for_return (λ s, ∃ n, (tick b ≤ n)%nat ∧ s = set_tick n b) (λ _, True)
      (λ r s, simulated r s)); [eexists; split; [|done]; simpl; lia|].
    intros k s _ (n & Hn & ->). destruct (sessions b !! k) as [s0|] eqn:Hs; [|wp_run; eauto].
    wp_run; try sim_here; guards; try (by split; [|done]; eexists; split; [|done]; simpl; lia).
    rename select (map_existsb _ _ = false) into Hone. rewrite map_existsb_false in Hone.
    pose proof (sim_session _ _ _ _ Hsim Hs) as Hkey.
    sim_commit_step; [|by apply mints_old|wp_run; sim_here..].
    apply ok_approve; simpl; [congruence|done|]. intros k' s' Hk' Hreq Happ.
    specialize (Hone _ _ Hk'). rewrite bool_decide_eq_true_2, Happ in Hone by congruence.
    simpl in Hone. by apply negb_false_iff in Hone.
  - intros [[[]|]|e] s'; wp_run; [done|..]; [|done].
    intros [(n & Hn & ->) _]. wp_run. sim_here.
Qed.

Lemma sim_Submit t b id raw csrf values demoted :
  sim t b → wp (Submit cfg id raw csrf values demoted) simulated b.
Proof.
  intros Hsim. unfold Submit. wp_run; [sim_here|]. apply wp_validSession. intros s v n Hn Hv. wp_run.
  destruct v as [r|e]; [|wp_run; sim_here]. specialize (Hv r eq_refl). destruct Hv.
  wp_run; try sim_here; guards.
  - eapply (wp_commit_request t); [sim_here|exact sg_request0|done| |intros; wp_run; sim_here..].
    unfold r_status. simpl. rename select (rq_Status _ = "pending") into Hp. by rewrite Hp.
  - eapply (wp_ready t _ r); [sim_here|done| |..].
    + left. simpl. rewrite (ro_id _ _ _ _ (sim_request _ _ _ _ Hsim sg_request0)). by eexists.
    + intros e r' c Hful. eapply ok_ready; [| | | |exact Hful]; simpl.
      * by rewrite (ro_id _ _ _ _ (sim_request _ _ _ _ Hsim sg_request0)).
      * eapply status_open; [done|done|apply sg_open0..].
      * by eapply sim_live.
      * intros x [= <-]. split; [done|]. simpl. rewrite (sim_session _ _ _ _ Hsim sg_session0). by eexists.
    + intros x b' Hs' _. destruct x; wp_run; sim_here.
Qed.

Lemma sim_SubmitTelegram t b a id values : sim t b → wp (SubmitTelegram a id values) simulated b.
Proof.
  intros Hsim. unfold SubmitTelegram. wp_run; try sim_here. guards.
  rename select (requests b !! id = Some _) into Hr.
  rename select (rq_Status _ = "pending") into Hp.
  pose proof (ro_id _ _ _ _ (sim_request _ _ _ _ Hsim Hr)) as Hid.
  eapply (wp_ready t); [sim_here|reflexivity|left; simpl; rewrite Hid; by eexists|..].
  - intros e r' c Hful. eapply ok_ready; [| | | |exact Hful]; simpl; try congruence.
    + unfold r_status. by rewrite Hp.
    + by eapply sim_live.
  - intros x b' Hs' _. destruct x; wp_run; sim_here.
Qed.

Lemma sim_RegisterContract t b a c : sim t b → wp (RegisterContract cfg a c) simulated b.
Proof.
  intros Hsim. unfold RegisterContract. wp_run; try sim_here. guards.
  destruct (catalog b !! _) as [ex|] eqn:Hcat; wp_run; try sim_here.
  sim_commit_step; [by apply ok_contract|by apply mints_old|wp_run; sim_here..].
Qed.

Lemma sim_recover_exchanging t b id : sim t b → wp (recover_exchanging id) simulated b.
Proof.
  intros Hsim. unfold recover_exchanging. wp_run.
  destruct (requests b !! id) as [r|] eqn:Hr; wp_run; try sim_here. guards.
  eapply (wp_commit_request t); [sim_here|exact Hr|done| |intros; wp_run; sim_here..].
  unfold r_status. simpl. rename select (rq_Status _ = _) into Hp. by rewrite Hp.
Qed.

(** ** Grants *)

Lemma wp_commit_revoke_grant t b e k g (Q : res BErr Z → B → Prop) (Q' : res BErr unit → B → Prop) :
  sim t b → grants b !! k = Some g →
  (∀ b', sim t b' → Q (Err ErrUnavailable) b') →
  (∀ b', sim t b' → dur b' = dapply (mut_grant e (g_revoke g)) (next_seq (jr_records (jrn b))) (dur b) →
     Q' (Ok tt) b') →
  (∀ b' n, wp (drop_leases_where (λ l, l_GrantID (lr_View l) == k)) Q' b' → Q (Ok n) b') →
  wp (commit (mut_grant e (g_revoke g))) Q b.
Proof.
  intros Hsim Hg Herr Hret HQ. pose proof (go_id _ _ _ _ (sim_grant _ _ _ _ Hsim Hg)) as Hid.
  apply (wp_commit_drop cfg c0 t b _ (λ l, l_GrantID (lr_View l) == k) Q Q');
    [done| | |done|intros b' Hs' Hd' _; by apply Hret|exact HQ].
  - rewrite without_grant_filter. rewrite <-Hid. apply ok_revoke_grant. simpl. congruence.
  - apply mints_old; simpl; try done. intros ? [= <-]. simpl. rewrite Hid. by eexists.
Qed.

Lemma sim_RevokeGrant t b a id : sim t b → wp (RevokeGrant a id) simulated b.
Proof.
  intros Hsim. unfold RevokeGrant. wp_run; try sim_here. guards.
  rename select (grants b !! id = Some _) into Hg.
  eapply (wp_commit_revoke_grant t); [sim_here|exact Hg|..].
  - intros; sim_here.
  - intros b' Hs' _. instantiate (1 := simulated). sim_here.
  - by intros b' n Hwp.
Qed.

(** A lease's grant belongs to the lease's credential, so a credential without
    leases has grants without leases. *)
Lemma no_leases_of_grant t b id k g :
  sim t b → (∀ k l, leases b !! k = Some l → l_CredentialID (lr_View l) ≠ id) →
  grants b !! k = Some g → g_CredentialID (g_View g) = id →
  without_grant k (leases b) = leases b.
Proof.
  intros Hsim Hno Hg Hc. apply map_filter_id. intros k' l Hl Heq. simpl in *.
  destruct (lo_grant _ _ _ (sim_lease _ _ _ _ Hsim Hl)) as (g' & Hg' & _ & Hc' & _).
  apply (Hno _ _ Hl). simpl in Hg'. congruence.
Qed.

Lemma wp_revoke_credential_grants t b a id :
  sim t b → (∀ k l, leases b !! k = Some l → l_CredentialID (lr_View l) ≠ id) →
  wp (revoke_credential_grants a id) simulated b.
Proof.
  intros Hsim Hno. unfold revoke_credential_grants. wp_run. eapply wp_mono.
  { apply (wp_for_each (λ s, sim t s ∧ ∀ k l, leases s !! k = Some l → l_CredentialID (lr_View l) ≠ id)).
    { split; [sim_here|done]. }
    clear Hsim Hno. intros gid s _ [Hsim Hno]. unfold revoke_if_granted. wp_run.
    destruct (grants s !! gid) as [g|] eqn:Hg; wp_run; try (by split; [sim_here|]). guards.
    pose proof (go_id _ _ _ _ (sim_grant _ _ _ _ Hsim Hg)) as Hid.
    sim_commit_step.
    - rewrite <-(no_leases_of_grant _ _ _ _ _ Hsim Hno Hg) at 2 by done. rewrite <-Hid at 2.
      apply ok_revoke_grant. simpl. congruence.
    - apply mints_old; simpl; try done. intros ? [= <-]. simpl. rewrite Hid. by eexists.
    - wp_run. split; [sim_here|]. rewrite Hleases. apply Hno.
    - wp_run. split; [sim_here|]. rewrite Hleases. apply Hno. }
  intros r s' [Hs _]. sim_here.
Qed.

(** A credential loses its leases when its revision moves on. *)
Lemma wp_commit_bump {A} t b e c k st (m : BM A) Q :
  sim t b → credentials b !! k = Some c → c_status c ≠ "deleted" →
  st = "revoked" ∨ st = "reauthorize_required" →
  (∀ e b', sim t b' → Q (Err e) b') →
  (∀ b', sim t b' → (∀ i l, leases b' !! i = Some l → l_CredentialID (lr_View l) ≠ k) → wp m Q b') →
  wp (commit (mut_credential e (c_with_view (cd_with (u64 (cd_Revision (c_View c) + 1)) st (c_View c)) c)))
    (λ r b', match r with
     | Ok _ => wp (invalidateCredential k ;; m) Q b'
     | Err e => Q (Err e) b' end) b.
Proof.
  intros Hsim Hc Hst Hnew Herr Hret. pose proof (co_id _ _ _ (sim_credential _ _ _ _ Hsim Hc)) as Hid.
  subst k. eapply (wp_commit_invalidate t); [done| | |done|].
  - by apply ok_bump.
  - apply mints_old; simpl; try done. intros ? [= <-]. by eexists.
  - intros b' Hs _ Hl. apply Hret; [done|]. rewrite Hl. by intros i l [_ Hne]%map_lookup_filter_Some.
Qed.

Lemma sim_RevokeCredential t b a id : sim t b → wp (RevokeCredential a id) simulated b.
Proof.
  intros Hsim. unfold RevokeCredential. wp_run; try sim_here. guards.
  rename select (credentials b !! id = Some _) into Hc.
  eapply (wp_commit_bump t); [sim_here|exact Hc|done|by left|by intros; sim_here|].
  intros b' Hs Hno. by eapply wp_revoke_credential_grants.
Qed.

Lemma sim_requireReauthorization t b id rev :
  sim t b → wp (requireReauthorization id rev) simulated b.
Proof.
  intros Hsim. unfold requireReauthorization. wp_run.
  destruct (credentials b !! id) as [c|] eqn:Hc; wp_run; try sim_here. guards.
  pose proof (co_id _ _ _ (sim_credential _ _ _ _ Hsim Hc)) as Hid.
  eapply (wp_commit_bump t); [sim_here|simpl; by rewrite Hid| |by right|by intros; sim_here|].
  - unfold c_status. congruence.
  - intros b' Hs _. wp_run. sim_here.
Qed.

Lemma wp_delete_owned_refs refs (Q : res BErr unit → B → Prop) b :
  (∀ x w, Q x (set_prov w b)) → wp (delete_owned_refs refs) Q b.
Proof.
  intros HQ. unfold delete_owned_refs. eapply wp_mono.
  { apply (wp_for_each (λ s, ∃ w, s = set_prov w b)); [exists (prov b); by destruct b|].
    intros ref s _ (w & ->). wp_run; by eexists. }
  intros r s (w & ->). apply HQ.
Qed.

Lemma wp_delete_states id (Q : res BErr unit → B → Prop) b :
  (∀ x w n, (tick b ≤ n)%nat → Q x (set_tick n (set_prov w b))) → wp (delete_states id) Q b.
Proof.
  intros HQ. unfold delete_states. wp_run. eapply wp_mono.
  { apply (wp_for_each (λ s, ∃ w, s = set_tick (S (tick b)) (set_prov w b))); [by exists (prov b)|].
    intros k s _ (w & ->). destruct (states b !! k) as [st|]; wp_run; try (by eexists).
    apply (wp_for_each (λ s, ∃ w, s = set_tick (S (tick b)) (set_prov w b))); [by eexists|].
    intros ref s _ (w' & ->). wp_run; by eexists. }
  intros r s (w & ->). apply HQ. lia.
Qed.

Lemma sim_delete_revoked t b a id : sim t b → wp (delete_revoked a id) simulated b.
Proof.
  intros Hsim. unfold delete_revoked. wp_run.
  destruct (credentials b !! id) as [c|] eqn:Hc; wp_run; try sim_here. guards.
  pose proof (co_id _ _ _ (sim_credential _ _ _ _ Hsim Hc)) as Hid.
  apply wp_delete_owned_refs. intros [[]|e] w; wp_run; [|sim_here].
  apply wp_delete_states. intros [[]|e] w' n Hn; wp_run; [|sim_here].
  sim_commit_step; [| |wp_run; sim_here..].
  - apply ok_delete; simpl; [congruence|done].
  - apply mints_old; simpl; try done. intros ? [= <-]. simpl. rewrite Hid. by eexists.
Qed.

Lemma sim_refresh_commit t b c id ref : sim t b → wp (refresh_commit c id ref) simulated b.
Proof.
  intros Hsim. unfold refresh_commit. wp_run.
  destruct (credentials b !! id) as [cur|] eqn:Hc; wp_run; try sim_here. guards.
  pose proof (co_id _ _ _ (sim_credential _ _ _ _ Hsim Hc)) as Hid.
  sim_commit_step; [| |wp_run; sim_here..].
  - apply ok_refresh; simpl; [congruence|done].
  - apply mints_old; simpl; try done. intros ? [= <-]. simpl. rewrite Hid. by eexists.
Qed.

(** ** [CreateGrant] *)

(** The scan goes on past grants that agree with the new one. *)
Lemma scan_next_agrees cat a cid in_ ck idem fp target g gnew :
  grant_scan cat a cid in_ ck idem fp target g = ScanNext → g_Active (g_View g) = true →
  cat !! ck = Some target → g_ContractKey gnew = ck → g_CredentialID (g_View gnew) = cid →
  g_BindingID (g_View gnew) = gr_BindingID in_ → g_ContextID (g_View gnew) = gr_ContextID in_ →
  g_PrincipalID (g_View gnew) = gr_PrincipalID in_ → g_WorkloadID (g_View gnew) = gr_WorkloadID in_ →
  g_Execution (g_View gnew) = gr_Execution in_ →
  grants_agree cat gnew g.
Proof.
  unfold grant_scan. intros Hs Ha Hcat Hk Hc Hb Hx Hp Hw He. rewrite Ha in Hs. simpl in Hs.
  destruct (g_Idempotency g == idem); [by case_match|].
  destruct ((_ == _) && (_ == _) && (_ == _)) eqn:Hbind in Hs; [by case_match|].
  split.
  { intros (E1 & E2 & E3). rewrite !bool_decide_eq_true_2 in Hbind by congruence. done. }
  intros Ew. rewrite (bool_decide_eq_true_2 (g_WorkloadID _ = _)) in Hs by congruence.
  match type of Hs with (if ?x then _ else _) = _ => destruct x; [done|] end.
  match type of Hs with (if ?x then _ else _) = _ => destruct x eqn:Hsh; [done|] end.
  match type of Hs with (if ?x then _ else _) = _ => destruct x eqn:Hps; [done|] end.
  guards. split; [congruence|]. split; [done|]. unfold g_contract, contract_at.
  rewrite Hk, Hcat. simpl. intros Hor.
  assert (Hor' : process_scoped target || process_scoped (default zero_contract (cat !! g_ContractKey g)) = true)
    by (apply orb_true_iff; done).
  rewrite Hor' in Hps. simpl in Hps. guards. split; congruence.
Qed.

Lemma scan_idem cat a cid in_ ck idem fp target g :
  grant_scan cat a cid in_ ck idem fp target g = ScanNext ∨
  grant_scan cat a cid in_ ck idem fp target g = ScanRetire → g_Idempotency g ≠ idem.
Proof.
  unfold grant_scan. intros Hs Heq. rewrite bool_decide_eq_true_2 in Hs by done.
  destruct (_ != _); naive_solver.
Qed.

(** A scan to the end: every grant is passed over or collected. *)
Lemma grant_scan_loop_end scan (m : gmap string grantRecord) ks acc retire :
  grant_scan_loop scan m ks acc = Ok (inr retire) → NoDup ks →
  map_Forall (λ k g, g_ID (g_View g) = k) m →
  NoDup (map (λ g, g_ID (g_View g)) acc) →
  (∀ g, g ∈ acc → m !! g_ID (g_View g) = Some g ∧ g_ID (g_View g) ∉ ks) →
  NoDup (map (λ g, g_ID (g_View g)) retire) ∧
  (∀ g, g ∈ retire → m !! g_ID (g_View g) = Some g) ∧
  (∀ g, g ∈ acc → g ∈ retire) ∧
  (∀ k g, k ∈ ks → m !! k = Some g → scan g = ScanNext ∨ scan g = ScanRetire ∧ g ∈ retire).
Proof.
  intros Hloop Hnd Hkeys. revert acc Hloop. induction ks as [|k ks IH]; intros acc Hloop Hacc Hin; simpl in Hloop.
  { simplify_eq. split_and!; [done|by apply Hin|done|set_solver]. }
  apply NoDup_cons in Hnd as [Hk Hnd]. specialize (IH Hnd).
  assert (Hin' : ∀ g, g ∈ acc → m !! g_ID (g_View g) = Some g ∧ g_ID (g_View g) ∉ ks).
  { intros g Hg. destruct (Hin g Hg). set_solver. }
  destruct (m !! k) as [g|] eqn:Hg; [destruct (scan g) eqn:Hsc; try done|].
  - pose proof (Hkeys _ _ Hg) as Hid. simpl in Hid.
    destruct (IH (acc ++ [g])%list Hloop) as (H1' & H2' & H3' & H4').
    + rewrite map_app. apply NoDup_app. split_and!; [done| |apply NoDup_singleton].
      intros x Hx%list_elem_of_fmap. destruct Hx as (g' & -> & Hg'). simpl. rewrite Hid.
      destruct (Hin g' Hg'). set_solver.
    + intros g' [Hg'| ->%list_elem_of_singleton]%elem_of_app; [by apply Hin'|]. rewrite Hid. done.
    + split_and!; [done|done|intros g' Hg'; apply H3'; set_solver|].
      intros k' g' [->|Hk']%elem_of_cons Hl; [|by eapply H4'].
      right. assert (g' = g) as -> by congruence. split; [done|]. apply H3'. set_solver.
  - destruct (IH acc Hloop Hacc Hin') as (H1' & H2' & H3' & H4'). split_and!; try done.
    intros k' g' [->|Hk']%elem_of_cons Hl; [left; congruence|by eapply H4'].
  - destruct (IH acc Hloop Hacc Hin') as (H1' & H2' & H3' & H4'). split_and!; try done.
    intros k' g' [->|Hk']%elem_of_cons Hl; [congruence|by eapply H4'].
Qed.

(** [b1] is [b] with grants revoked; those of [l] are still to do. *)
Record retiring (scan : grantRecord → GrantScan) (l : list grantRecord) (b b1 : B) : Prop := {
  rt_catalog : catalog b1 = catalog b;
  rt_credentials : credentials b1 = credentials b;
  rt_size : size (grants b1) = size (grants b);
  rt_grants : ∀ k g1, grants b1 !! k = Some g1 → ∃ g, grants b !! k = Some g ∧
    g_Idempotency g1 = g_Idempotency g ∧
    (g_Active (g_View g1) = true → g1 = g ∧ (scan g = ScanNext ∨ g ∈ l));
  rt_todo : ∀ g, g ∈ l → grants b1 !! g_ID (g_View g) = Some g;
}.

Lemma wp_revoke_grants t scan a cid l b b1 (Q : res BErr unit → B → Prop) :
  sim t b1 → retiring scan l b b1 → NoDup (map (λ g, g_ID (g_View g)) l) →
  (∀ x b2, sim t b2 → (x = Ok tt → retiring scan [] b b2) → Q x b2) →
  wp (for_each l (revoke_grant a cid)) Q b1.
Proof.
  revert b1. induction l as [|g l IH]; intros b1 Hsim Hret Hnd HQ; simpl.
  { by apply wp_ret, HQ. }
  apply NoDup_cons in Hnd as [Hg Hnd]. apply wp_bind. unfold revoke_grant. do 2 wp_step. wp_step.
  pose proof (rt_todo _ _ _ _ Hret g ltac:(set_solver)) as Hl.
  eapply (wp_commit_revoke_grant t); [sim_here|exact Hl|by intros; apply HQ| |by intros b' n Hwp; exact Hwp].
  intros b' Hs Hd. simpl. apply IH; [done| |done|done].
  unfold dur, dapply in Hd. injection Hd as Hcat _ _ Hcr Hgr _ _ _. simpl in *.
  destruct Hret as [Hc1 Hc2 Hsz Hgs Htodo]. constructor; [congruence|congruence| | |].
  - by rewrite Hgr, (size_insert_old _ _ _ _ Hl).
  - rewrite Hgr. intros k g1 [[<- <-]|[Hne Hk]]%lookup_insert_Some.
    + destruct (Hgs _ _ Hl) as (g0 & Hg0 & Hi & _). exists g0. by split_and!.
    + destruct (Hgs _ _ Hk) as (g0 & Hg0 & Hi & Hact). exists g0. split_and!; [done..|].
      intros Ha. destruct (Hact Ha) as [-> [Hn|Hin]]; [by auto|]. split; [done|right].
      apply elem_of_cons in Hin as [->|]; [|done]. exfalso.
      pose proof (go_id _ _ _ _ (sim_grant _ _ _ _ Hsim Hk)). congruence.
  - intros g' Hg'. rewrite Hgr, lookup_insert_ne; [by apply Htodo; set_solver|]. intros Heq.
    apply Hg. rewrite Heq. apply list_elem_of_fmap. by exists g'.
Qed.

Lemma sim_CreateGrant t b a cid in_ : sim t b → wp (CreateGrant a cid in_) simulated b.
Proof.
  intros Hsim. unfold CreateGrant. wp_run; try sim_here. guards.
  rename select (credentials b !! cid = Some _) into Hc.
  rename select (catalog b !! _ = Some _) into Hcat.
  rename select (ks ≡ₚ _) into Hks.
  set (idem := requestKey _ _) in *. set (fp := Digest _) in *.
  set (scan := grant_scan _ _ _ _ _ _ _ _) in *.
  destruct (grant_scan_loop scan (grants b) ks []) as [[v|retire]|e] eqn:Hloop; wp_run; try sim_here. guards.
  assert (Hkeys : map_Forall (λ k g, g_ID (g_View g) = k) (grants b)).
  { intros k g Hg. apply (go_id _ _ _ _ (sim_grant _ _ _ _ Hsim Hg)). }
  destruct (grant_scan_loop_end _ _ _ _ _ Hloop) as (Hnd & Hin & _ & Hscan);
    [by rewrite Hks; apply NoDup_fst_map_to_list|done|by apply NoDup_nil|set_solver|].
  eapply (wp_revoke_grants t scan); [sim_here| |done|].
  { constructor; try done. simpl. intros k g Hg. exists g. split_and!; [done..|]. intros _. split; [done|].
    destruct (Hscan k g) as [|[_ ?]]; [by eapply in_range_keys|done|by auto|by auto]. }
  intros [[]|e] b2 Hs2 Hret; wp_run; [|sim_here]. specialize (Hret eq_refl).
  sim_commit_step; [| |wp_run; sim_here..].
  - apply ok_new_grant. destruct Hret as [Hc1 Hc2 Hsz Hgs _]. simpl in *.
    constructor; simpl; rewrite ?Hc1, ?Hc2, ?Hsz; try done.
    + apply eq_None_not_Some. intros Hg. apply (minted_fresh "g" (tick b2) (tick b2)); [lia|].
      by apply (sim_fresh _ _ _ _ Hs2).
    + unfold digest_matches. rewrite Hcat. by apply bool_decide_eq_true.
    + intros k p Hp. destruct (Hgs _ _ Hp) as (g & Hg & -> & _). eapply scan_idem.
      destruct (Hscan k g) as [|[? _]]; [by eapply in_range_keys|done|by left|by right].
    + unfold g_contract, contract_at. simpl. rewrite Hcat. simpl. intros Hx.
      rename select (_ && _ = false) into Hsh. rewrite bool_decide_eq_true_2 in Hsh by done.
      simpl in Hsh. by apply negb_false_iff in Hsh.
    + eexists. split; [exact Hc|]. split_and!; [done|done| |].
      * intros Hu. rename select ((_ == "user") && _ = false) into Hsh.
        rewrite bool_decide_eq_true_2 in Hsh by done. simpl in Hsh. guards. congruence.
      * unfold g_contract, contract_at. simpl. by rewrite Hcat.
    + intros k p Hp Ha. destruct (Hgs _ _ Hp) as (g & Hg & _ & Hact).
      destruct (Hact Ha) as [-> [Hn|Hn]]; [|set_solver].
      by eapply scan_next_agrees.
  - constructor; simpl; [done|done| |by eauto]. intros ? [= <-]. right. eexists. split; [|done]. simpl. lia.
Qed.

(** ** Leases *)

(** What [lease] has checked when it returns. *)
Record lease_good (b : B) (a : Actor) (id : string) (l : leaseRecord) (g : grantRecord)
    (c : credentialRecord) : Prop := {
  lg_live : live b = true;
  lg_lease : leases b !! id = Some l;
  lg_grant : grants b !! l_GrantID (lr_View l) = Some g;
  lg_match : grantMatches a g = true;
  lg_credential : credentials b !! l_CredentialID (lr_View l) = Some c;
  lg_active : c_status c = "active";
  lg_revision : c_revision c = l_Revision (lr_View l);
  lg_time : (w_now (tick b) < l_ExpiresAt (lr_View l))%Z;
}.

Lemma wp_lease a id (Q : res BErr (leaseRecord * grantRecord * credentialRecord) → B → Prop) b :
  (∀ l g c, lease_good b a id l g c → Q (Ok (l, g, c)) (set_tick (S (tick b)) b)) →
  (∀ e n, (tick b ≤ n)%nat → Q (Err e) (set_tick n b)) →
  wp (lease a id) Q b.
Proof.
  intros HQ Herr. unfold lease.
  assert (Hb : ∀ e, Q (Err e) b) by (intros e; specialize (Herr e (tick b) (le_n _)); by destruct b).
  wp_run; try apply Hb; [apply Herr; simpl; lia|]. guards. by apply HQ.
Qed.

Lemma lease_good_current b a id l g c : lease_good b a id l g c → lease_current (dur b) l.
Proof.
  intros []. exists g, c. split_and!; try done. unfold grantMatches in *. guards. done.
Qed.

(** A commit followed by a change of the lease table in place. *)
Lemma wp_commit_lease t b e L' (Q : res BErr Z → B → Prop) :
  sim t b → commit_ok (cf_DirectForm cfg) (dur b) (leases b) t (no_mutation e) L' →
  (∀ k, is_Some (L' !! k) → is_Some (leases b !! k) ∨ minted "l" (tick b) k) →
  (∀ b', sim t b' → Q (Err ErrUnavailable) b') →
  (∀ b1 n, leases b1 = leases b → tick b1 = tick b → catalog b1 = catalog b →
     (∀ b', dur b' = dur b1 → jrn b' = jrn b1 → leases b' = L' → (tick b1 ≤ tick b')%nat → sim t b') →
     Q (Ok n) b1) →
  wp (commit (no_mutation e)) Q b.
Proof.
  intros Hsim Hok Hm Herr Hret. apply wp_commit.
  - intros j Hj. apply Herr. apply (sim_quiet _ _ _ _ _ Hsim); [|done]. unfold core. simpl. by rewrite Hj.
  - intros j n _ Hj ->. apply Hret; [done..|]. intros b' Hd Hjr Hl Ht. simpl in *.
    apply (sim_commit _ _ _ _ b' (no_mutation e) Hsim); [by rewrite Hl|done|by rewrite Hjr|done|].
    constructor; try done. rewrite Hl. intros k Hk. destruct (Hm k Hk); eauto using minted_mono.
Qed.

Lemma sim_InspectLease t b a id : sim t b → wp (InspectLease a id) simulated b.
Proof.
  intros Hsim. unfold InspectLease. wp_run. apply wp_lease; intros; wp_run; sim_here.
Qed.

Lemma in_place_keys {V} (m : gmap string V) k v0 v :
  m !! k = Some v0 → ∀ i, is_Some (<[k := v]> m !! i) → is_Some (m !! i).
Proof. intros Hk i. rewrite !lookup_insert_is_Some. intros [<-|[_ ?]]; [by eexists|done]. Qed.

Lemma sim_Renew t b a id seconds : sim t b → wp (Renew a id seconds) simulated b.
Proof.
  intros Hsim. unfold Renew. wp_run. apply wp_lease; [|intros; sim_here].
  intros l g c Hg. wp_run; try sim_here. guards.
  eapply (wp_commit_lease t _ _ (<[id := lr_renewed _ l]> (leases b))); [sim_here| | |by intros; sim_here|].
  - eapply ok_lease; [apply (lg_lease _ _ _ _ _ _ Hg)|exact (lease_good_current _ _ _ _ _ _ Hg)|]. split_and!; [done|done|].
    apply (lo_active _ _ _ (sim_lease _ _ _ _ Hsim (lg_lease _ _ _ _ _ _ Hg))).
  - intros k Hk. left. eapply in_place_keys; [apply (lg_lease _ _ _ _ _ _ Hg)|exact Hk].
  - intros b1 n Hl Ht Hcat Hs. wp_run. exists t. apply Hs; simpl; [done..| |lia]. by rewrite Hl.
Qed.

Lemma sim_Acquire t b a in_ : sim t b → wp (Acquire a in_) simulated b.
Proof.
  intros Hsim. unfold Acquire. wp_run; [sim_here|]. apply wp_sweepLocked. intros b1 (Hq & _ & Hsub).
  assert (Hs1 : sim t b1) by (by eapply sim_drop). clear Hsim Hq Hsub.
  wp_run; try sim_here. guards.
  rename select (grants b1 !! _ = Some _) into Hg.
  rename select (credentials b1 !! _ = Some _) into Hc.
  pose proof (go_id _ _ _ _ (sim_grant _ _ _ _ Hs1 Hg)) as Hgid.
  pose proof (co_id _ _ _ (sim_credential _ _ _ _ Hs1 Hc)) as Hcid.
  rename select (_ && map_existsb _ _ = false) into Hstate.
  set (id := "l" ++ w_hex (tick b1)).
  eapply (wp_commit_lease t _ _ (<[id := mkLeaseRecord _ None _ ∅]> (leases b1)));
    [sim_here| | |by intros; sim_here|].
  3:{ intros b2 n Hl Ht Hcat Hs. wp_run. exists t. apply Hs; simpl; [done..| |lia]. by rewrite Hl. }
  - eapply ok_acquire. constructor; simpl; try done.
    + apply eq_None_not_Some. intros Hi. apply (minted_fresh "l" (tick b1) (tick b1)); [lia|].
      by apply (sim_fresh _ _ _ _ Hs1).
    + case_bool_decide; [|done]. intros Hne k l' Hk. simpl in Hstate.
      rewrite map_existsb_false in Hstate. specialize (Hstate _ _ Hk). by guards.
    + eexists _, _. rewrite Hgid, Hcid. split_and!; try done.
      unfold grantMatches in *. guards. done.
  - intros k [<-|[_ Hk]]%lookup_insert_is_Some; [right|by left].
    eexists. split; [|done]. simpl. lia.
Qed.

(** ** Uses and materialization *)

Lemma size_add_le (x : string) (X : gset string) : (size ({[x]} ∪ X) ≤ S (size X))%nat.
Proof.
  rewrite size_union_alt, size_singleton.
  assert (size (X ∖ {[x]}) ≤ size X)%nat by (apply subseteq_size; set_solver). lia.
Qed.

Lemma sim_BeginUse t b a id : sim t b → wp (BeginUse a id) simulated b.
Proof.
  intros Hsim. unfold BeginUse, update_lease. wp_run; [sim_here|].
  apply wp_lease; [|intros; sim_here]. intros l g c Hg. wp_run; try sim_here. guards.
  eapply (wp_commit_lease t _ _ (<[id := lr_with_active ({["u" ++ w_hex (S (S (tick b)))]} ∪ lr_Active l) l]> (leases b)));
    [sim_here| | |by intros; sim_here|].
  - eapply ok_lease; [apply (lg_lease _ _ _ _ _ _ Hg)|exact (lease_good_current _ _ _ _ _ _ Hg)|].
    split_and!; [done|done|]. simpl. rename select (Z.of_nat _ < 16)%Z into Hlt.
    pose proof (size_add_le ("u" ++ w_hex (S (S (tick b)))) (lr_Active l)). lia.
  - intros k Hk. left. eapply in_place_keys; [apply (lg_lease _ _ _ _ _ _ Hg)|exact Hk].
  - intros b1 n Hl Ht Hcat Hs. wp_run. exists t. apply Hs; simpl; [done..| |lia]. by rewrite Hl, Ht.
Qed.

Lemma sim_use_Finish t b u : sim t b → wp (use_Finish u) simulated b.
Proof.
  intros Hsim. unfold use_Finish, update_lease. wp_run.
  destruct (leases b !! use_LeaseID u) as [l|] eqn:Hl; wp_run; [|sim_here].
  exists t. destruct Hsim as [Hs Ht [Hr Hc Hg Hls]]. constructor; [|done|].
  - eapply rtc_r; [exact Hs|]. by apply cs_finish.
  - constructor; simpl; auto. intros k Hk. apply Hls. by eapply in_place_keys.
Qed.

Lemma sim_use_Valid t b u : sim t b → wp (use_Valid u) simulated b.
Proof.
  intros Hsim. unfold use_Valid, ctx_live. wp_run. apply wp_try, wp_lease; intros; simpl; wp_run; sim_here.
Qed.

Lemma sim_materialize_look t b a id : sim t b → wp (materialize_look a id) simulated b.
Proof.
  intros Hsim. unfold materialize_look. wp_run. apply wp_lease; [|intros; sim_here].
  intros l g c Hg. wp_run. destruct (lr_Materialized _); wp_run; sim_here.
Qed.

Lemma sim_materialize_finish t b a id u expires values state :
  sim t b → wp (materialize_finish a id u expires values state) simulated b.
Proof.
  intros Hsim. unfold materialize_finish, update_lease. wp_run. apply wp_lease; [|intros; sim_here].
  intros l g c Hg. wp_run. simpl. destruct (lr_Materialized l); wp_run; try sim_here.
  apply wp_try.
  eapply (wp_commit_lease t _ _ (<[id := lr_materialize _ l]> (leases b))); [sim_here| | |..].
  - eapply ok_lease; [apply (lg_lease _ _ _ _ _ _ Hg)|exact (lease_good_current _ _ _ _ _ _ Hg)|].
    split_and!; [done|done|].
    apply (lo_active _ _ _ (sim_lease _ _ _ _ Hsim (lg_lease _ _ _ _ _ _ Hg))).
  - intros k Hk. left. eapply in_place_keys; [apply (lg_lease _ _ _ _ _ _ Hg)|exact Hk].
  - intros b' Hs. wp_run. sim_here.
  - intros b1 n Hl Ht Hcat Hs. wp_run. exists t. apply Hs; simpl; [done..| |lia]. by rewrite Hl.
Qed.

Lemma wp_checkpoint t b a id l g c in_ (Q : res BErr unit → B → Prop) :
  sim t b → (∀ x b', sim t b' → Q x b') → wp (checkpoint a id l g c in_) Q b.
Proof.
  intros Hsim HQ. unfold checkpoint. wp_run; try (apply HQ; sim_here).
  sim_commit_step; [by apply ok_state|by apply mints_old|wp_run; apply HQ; sim_here..].
Qed.

Lemma sim_Release t b a id in_ : sim t b → wp (Release a id in_) simulated b.
Proof.
  intros Hsim. unfold Release. wp_run. apply wp_lease; [|intros; sim_here]. intros l g c _.
  assert (Hrest : ∀ b, sim t b → wp (ev ← audit "lease.released" a;
    commit (no_mutation (ev_cred (cd_ID (c_View c)) (ev_lease id ev))) ;; dropLease id) simulated b).
  { clear b Hsim. intros b Hsim. wp_run. apply wp_commit.
    - intros j Hj. exists t. apply (sim_quiet _ _ _ _ _ Hsim); [unfold core; simpl; by rewrite Hj|simpl; lia].
    - intros j n _ Hj ->. apply wp_dropLease. intros b' Hd. exists t.
      assert (Hs' : sim t (set_tick (S (tick b)) b)) by sim_here.
      apply (sim_commit_drop _ _ _ _ _ _ _ _ Hs' Hj Hd); [|by apply mints_old].
      replace (filter _ _) with (delete id (leases b)); [apply ok_release|].
      apply map_eq. intros k. apply option_eq. intros l'.
      rewrite lookup_delete_Some, map_lookup_filter_Some. simpl. rewrite bool_decide_eq_false. naive_solver. }
  cbn beta iota. apply wp_bind, wp_if; intros _.
  - apply (wp_checkpoint t); [sim_here|]. intros [[]|e] b' Hs'; [by apply Hrest|sim_here].
  - apply wp_ret, Hrest. sim_here.
Qed.

(** ** OAuth *)

Lemma sim_StartOAuth t b id raw csrf : sim t b → wp (StartOAuth cfg id raw csrf) simulated b.
Proof.
  intros Hsim. unfold StartOAuth. wp_run; [sim_here|]. apply wp_validSession. intros s v n Hn Hv. wp_run.
  destruct v as [r|e]; [|wp_run; sim_here]. specialize (Hv r eq_refl).
  wp_run; try sim_here; guards.
  eapply (wp_commit_request t); [sim_here|apply (sg_request _ _ _ _ _ _ Hv)|done| |intros; wp_run; sim_here..].
  unfold r_status. simpl. rename select (rq_Status _ = _) into Hp. by rewrite Hp.
Qed.

(** The session an exchange carries is in the table. *)
Definition flight_ok (d : Durable) (x : Exchange) : Prop :=
  is_Some (d_sessions d !! s_Hash (x_Session x)).

Lemma sim_oauth_begin t b raw state code :
  sim t b →
  wp (oauth_begin cfg raw state code) (λ r b', simulated r b' ∧ ∀ x, r = Ok x → flight_ok (dur b') x) b.
Proof.
  intros Hsim. unfold oauth_begin.
  wp_run; try (split; [sim_here|done]).
  apply wp_validSession. intros s v n Hn Hv. wp_run.
  destruct v as [r|e]; [|wp_run; split; [sim_here|done]]. specialize (Hv r eq_refl). destruct Hv as [Hs Hr _ _ _ _ _].
  wp_run; try (split; [sim_here|done]); guards. simpl in Hs, Hr.
  rename select (rq_Status _ = _) into Hp.
  pose proof (ro_id _ _ _ _ (sim_request _ _ _ _ Hsim Hr)) as Hid.
  sim_commit_step.
  - apply (ok_request _ _ _ _ _ r); [simpl; congruence|done|]. unfold r_status. simpl. by rewrite Hp.
  - apply mints_old; simpl; try done. intros ? [= <-]. simpl. rewrite Hid. by eexists.
  - wp_run. split; [sim_here|done].
  - wp_run. split; [sim_here|]. intros x [= <-]. unfold flight_ok. rewrite Hdur. simpl.
    rewrite (sim_session _ _ _ _ Hsim Hs), Hs. by eexists.
Qed.

Lemma sim_oauth_exchange t b x code : sim t b → wp (oauth_exchange x code) simulated b.
Proof.
  intros Hsim. unfold oauth_exchange. wp_run. destruct v as [values|]; wp_run; try sim_here.
  all: destruct r; wp_run; sim_here.
Qed.

Lemma sim_oauth_finish t b x outcome :
  sim t b → flight_ok (dur b) x → wp (oauth_finish x outcome) simulated b.
Proof.
  intros Hsim Hx. unfold oauth_finish. wp_run.
  destruct (requests b !! _) as [r|] eqn:Hr; wp_run; try sim_here. guards.
  rename select (rq_Status _ = _) into Hp.
  pose proof (ro_id _ _ _ _ (sim_request _ _ _ _ Hsim Hr)) as Hid.
  destruct outcome as [values|e]; wp_run.
  - destruct r0 as [ref|]; wp_run.
    + eapply (wp_ready t _ r); [sim_here|done|left; simpl; rewrite Hid; by eexists|..].
      * intros e r' c Hful. eapply ok_ready; [| | | |exact Hful]; simpl.
        -- congruence.
        -- unfold r_status. by rewrite Hp.
        -- by eapply sim_live.
        -- intros ? [= <-]. split; [done|]. exact Hx.
      * intros [c|e] b' Hs' _; wp_run; sim_here.
    + apply wp_try. eapply (wp_commit_request t); [sim_here|exact Hr|done| |intros; wp_run; sim_here..].
      unfold r_status. simpl. by rewrite Hp.
  - eapply (wp_commit_request t); [sim_here|exact Hr|done| |intros; wp_run; sim_here..].
    unfold r_status. simpl. by rewrite Hp.
Qed.
End Refine.
