(* ===== verification/BrokerSystem.v ===== *)
(** The broker as a system: its critical sections interleaved in any order,
    code exchanges in flight between their two sections, and restarts from the
    journal; the invariant holds in every reachable state. *)
From stdpp Require Import base gmap strings list relations pretty.
From Stdlib Require Import Ascii String.
From S2P Require Import Prelude GoStrings BrokerIdentity Contract BrokerTypes BrokerCore Enrollment Grants BrokerRuntime BrokerSpec BrokerInv BrokerSim BrokerRefine.
Local Open Scope string_scope.

(** One critical section under [b.mu] (or a piece of work outside it that only
    reaches the providers). *)
Inductive Op (PW : Type) :=
  | OpSweep
  | OpGetRequest (a : Actor) (id : string)
  | OpGetCredential (a : Actor) (id : string)
  | OpGetGrant (a : Actor) (id : string)
  | OpGetEvents (a : Actor) (after limit : Z)
  | OpRecoveryRefs
  | OpCatalog
  | OpClose
  | OpCancelRequest (a : Actor) (id : string)
  | OpCreateRequest (a : Actor) (in_ : CreateRequestIn)
  | OpOpenSession (id raw : string)
  | OpApprove (a : Actor) (id code : string)
  | OpSubmit (id raw csrf : string) (values : Bundle) (demoted : gset string)
  | OpSubmitTelegram (a : Actor) (id : string) (values : Bundle)
  | OpRegisterContract (a : Actor) (c : Contract)
  | OpCreateGrant (a : Actor) (credentialID : string) (in_ : GrantRequest)
  | OpAcquire (a : Actor) (in_ : AcquireLease)
  | OpRevokeGrant (a : Actor) (id : string)
  | OpRevokeCredential (a : Actor) (id : string)
  | OpDeleteRevoked (a : Actor) (id : string)
  | OpInspectLease (a : Actor) (id : string)
  | OpRenew (a : Actor) (id : string) (seconds : Z)
  | OpBeginUse (a : Actor) (id : string)
  | OpFinish (u : Use)
  | OpValid (u : Use)
  | OpMaterializeLook (a : Actor) (id : string)
  | OpMaterializeFinish (a : Actor) (id : string) (u : Use) (expires : Z) (values state : Bundle)
  | OpRelease (a : Actor) (id : string) (in_ : RuntimeRelease)
  | OpStartOAuth (id raw csrf : string)
  | OpReauthorize (id : string) (revision : Z)
  | OpRefreshCommit (c : credentialRecord) (id : string) (ref : Ref)
  | OpRefreshLock (id : string)
  | OpOutside (w : PW).
Arguments OpSweep {PW}. Arguments OpGetRequest {PW}. Arguments OpGetCredential {PW}.
Arguments OpGetGrant {PW}. Arguments OpGetEvents {PW}. Arguments OpRecoveryRefs {PW}.
Arguments OpCatalog {PW}. Arguments OpClose {PW}. Arguments OpCancelRequest {PW}.
Arguments OpCreateRequest {PW}. Arguments OpOpenSession {PW}. Arguments OpApprove {PW}.
Arguments OpSubmit {PW}. Arguments OpSubmitTelegram {PW}. Arguments OpRegisterContract {PW}.
Arguments OpCreateGrant {PW}. Arguments OpAcquire {PW}. Arguments OpRevokeGrant {PW}.
Arguments OpRevokeCredential {PW}. Arguments OpDeleteRevoked {PW}. Arguments OpInspectLease {PW}.
Arguments OpRenew {PW}. Arguments OpBeginUse {PW}. Arguments OpFinish {PW}. Arguments OpValid {PW}.
Arguments OpMaterializeLook {PW}. Arguments OpMaterializeFinish {PW}. Arguments OpRelease {PW}.
Arguments OpStartOAuth {PW}. Arguments OpReauthorize {PW}. Arguments OpRefreshCommit {PW}.
Arguments OpRefreshLock {PW}. Arguments OpOutside {PW}.

Section System.
Context {J MT PW : Type} `{World} `{!MonotoneClock} `{Digests} `{Codecs} `{Unicode}.
Context `{JournalOps J} `{Materializer MT} `{Providers PW} `{TokenEndpoint PW}.
Variable cfg : Config.

Abbreviation B := (Broker J MT PW).
Abbreviation BM := (M (Broker J MT PW) BErr).
Implicit Types b : B.

(** Run an operation for its effect. *)
Definition effect {A} (m : BM A) : BM unit := try m ;; mret tt.

Definition run_op (op : Op PW) : BM unit :=
  match op with
  | OpSweep => effect Sweep
  | OpGetRequest a id => effect (GetRequest a id)
  | OpGetCredential a id => effect (GetCredential a id)
  | OpGetGrant a id => effect (GetGrant a id)
  | OpGetEvents a after limit => effect (GetEvents a after limit)
  | OpRecoveryRefs => effect RecoveryRefs
  | OpCatalog => effect Catalog
  | OpClose => effect Close
  | OpCancelRequest a id => effect (CancelRequest a id)
  | OpCreateRequest a in_ => effect (CreateRequest cfg a in_)
  | OpOpenSession id raw => effect (OpenSession cfg id raw)
  | OpApprove a id code => effect (Approve a id code)
  | OpSubmit id raw csrf values demoted => effect (Submit cfg id raw csrf values demoted)
  | OpSubmitTelegram a id values => effect (SubmitTelegram a id values)
  | OpRegisterContract a c => effect (RegisterContract cfg a c)
  | OpCreateGrant a cid in_ => effect (CreateGrant a cid in_)
  | OpAcquire a in_ => effect (Acquire a in_)
  | OpRevokeGrant a id => effect (RevokeGrant a id)
  | OpRevokeCredential a id => effect (RevokeCredential a id)
  | OpDeleteRevoked a id => effect (delete_revoked a id)
  | OpInspectLease a id => effect (InspectLease a id)
  | OpRenew a id seconds => effect (Renew a id seconds)
  | OpBeginUse a id => effect (BeginUse a id)
  | OpFinish u => effect (use_Finish u)
  | OpValid u => effect (use_Valid u)
  | OpMaterializeLook a id => effect (materialize_look a id)
  | OpMaterializeFinish a id u expires values state =>
      effect (materialize_finish a id u expires values state)
  | OpRelease a id in_ => effect (Release a id in_)
  | OpStartOAuth id raw csrf => effect (StartOAuth cfg id raw csrf)
  | OpReauthorize id rev => effect (requireReauthorization id rev)
  | OpRefreshCommit c id ref => effect (refresh_commit c id ref)
  | OpRefreshLock id => b ← get; modify (set_locks ({[id]} ∪ refreshLocks b))
  | OpOutside w => modify (set_prov w)
  end.

(** The broker and the code exchanges between their two sections. *)
Record Sys := mkSys { sys_b : B; sys_flights : list Exchange }.

Inductive step : Sys → Sys → Prop :=
  | st_op op b b' r fl : run_op op b = (r, b') → step (mkSys b fl) (mkSys b' fl)
  | st_begin raw state code b b' x fl :
      oauth_begin cfg raw state code b = (Ok x, b') → step (mkSys b fl) (mkSys b' (x :: fl))
  | st_begin_failed raw state code b b' e fl :
      oauth_begin cfg raw state code b = (Err e, b') → step (mkSys b fl) (mkSys b' fl)
  | st_finish x outcome b b' r fl : x ∈ fl →
      oauth_finish x outcome b = (r, b') → step (mkSys b fl) (mkSys b' fl)
  | st_restart b b' fl j m p n : jr_records j = jr_records (jrn b) → (tick b ≤ n)%nat →
      New cfg (blank j m p n) = (Ok tt, b') → step (mkSys b fl) (mkSys b' [])
  (** A start that failed, possibly after it wrote some records: nothing runs on
      it, and the next start finds the journal as this one left it. *)
  | st_restart_failed b b' fl j m p n e : jr_records j = jr_records (jrn b) → (tick b ≤ n)%nat →
      New cfg (blank j m p n) = (Err e, b') → step (mkSys b fl) (mkSys (set_closed true b') []).

(** A first start on an empty journal. *)
Inductive initial : Sys → Prop :=
  | sys_initial j m p n b : jr_records j = [] → New cfg (blank j m p n) = (Ok tt, b) →
      initial (mkSys b []).

Definition reachable (s : Sys) : Prop := ∃ s0, initial s0 ∧ rtc step s0 s.

(** The configured catalog. *)
Definition catalog0 : gmap string Contract := default ∅ (build_catalog cfg ∅ (cf_Contracts cfg)).
Abbreviation SInv := (Inv (cf_DirectForm cfg) catalog0).
Abbreviation sstep := (cstep (cf_DirectForm cfg)).

(** ** Replay *)

Lemma wp_replay_records recs (Q : res BErr unit → B → Prop) b :
  (∀ d b', replay (dur b) recs = Some d → dur b' = d → leases b' = leases b → jrn b' = jrn b →
     tick b' = tick b → closed b' = closed b → Q (Ok tt) b') →
  (∀ e b', replay (dur b) recs = None → Q (Err e) b') →
  wp (for_each recs replay_record) Q b.
Proof.
  revert b. induction recs as [|r recs IH]; intros b HQ Herr; simpl.
  { apply wp_ret. by eapply HQ. }
  assert (Hbad : ∀ e b', replay1 (dur b) r = None → Q (Err e) b').
  { intros e b' Hn. apply Herr. simpl. by rewrite Hn. }
  apply wp_bind. unfold replay_record. destruct (jr_Data r) as [m|] eqn:Hd.
  2:{ wp_run. apply Hbad. unfold replay1. by rewrite Hd. }
  apply wp_bind, wp_fail_if.
  { intros Hk. apply Hbad. unfold replay1. by rewrite Hd; simpl; rewrite Hk. }
  intros Hk. wp_step. wp_step. apply wp_bind, wp_fail_if.
  { intros Hc. apply Hbad. unfold replay1. rewrite Hd; simpl; rewrite Hk. by rewrite Hc. }
  intros Hc. wp_run.
  assert (Hr : replay1 (dur b) r = Some (dapply m (jr_Sequence r) (dur b))).
  { unfold replay1. rewrite Hd. simpl. rewrite Hk. by rewrite Hc. }
  apply IH.
  - intros d b' Hrep. change (dur (apply m (jr_Sequence r) b)) with (dapply m (jr_Sequence r) (dur b)) in Hrep.
    intros. apply (HQ d); try done. simpl. by rewrite Hr.
  - intros e b' Hrep. change (dur (apply m (jr_Sequence r) b)) with (dapply m (jr_Sequence r) (dur b)) in Hrep.
    apply Herr. simpl. by rewrite Hr.
Qed.

(** What a restart makes of a request: an interrupted exchange may be tried again. *)
Definition recovered (r : requestRecord) : requestRecord :=
  if rq_Status (r_View r) == "exchanging"
  then r_with_oauth "" (r_with_status "authorizing" r) else r.

Lemma recovered_idem r : recovered (recovered r) = recovered r.
Proof. unfold recovered at 2 3. destruct (_ == _) eqn:E; [done|]. unfold recovered. by rewrite E. Qed.

(** Everything but the requests is as before. *)
Record rest_same (b b' : B) : Prop := {
  rs_catalog : catalog b' = catalog b;
  rs_sessions : sessions b' = sessions b;
  rs_credentials : credentials b' = credentials b;
  rs_grants : grants b' = grants b;
  rs_states : states b' = states b;
  rs_oauth : oauth b' = oauth b;
  rs_leases : leases b' = leases b;
}.
Global Instance rest_same_preorder : PreOrder rest_same.
Proof. split; [by constructor|]. intros b1 b2 b3 [] []. constructor; congruence. Qed.

Definition recovered_upto (ids : list string) (b b' : B) : Prop :=
  rest_same b b' ∧ ∀ k, requests b' !! k =
    (if decide (k ∈ ids) then recovered <$> requests b !! k else requests b !! k).

(** ** The records of a start *)

Definition audit_event (t : Z) (kind : string) (a : Actor) : Event :=
  mkEvent 0 t kind (a_PrincipalID a) (a_ContextID a) "" "" "" "" "" "" "" "" "" "" (a_PolicyVersion a).

(** What a start writes into the journal: the interruption of an exchange that
    lies in the tables [d], or the start itself. *)
Definition startup_record (d : Durable) (m : mutation) : Prop :=
  (∃ t k r, d_requests d !! k = Some r ∧ rq_Status (r_View r) = "exchanging" ∧
     m = mut_request (ev_req (rq_ID (r_View r)) (audit_event t "oauth.interrupted" (r_Actor r)))
           (r_with_oauth "" (r_with_status "authorizing" r))) ∨
  ∃ t, m = no_mutation (audit_event t "broker.started" zero_actor).

(** The journal takes the next [k] records of a start. *)
Fixpoint takes (d : Durable) (k : nat) (j : J) : Prop :=
  match k with
  | O => True
  | S k => ∀ m, startup_record d m → ∃ j' n, jr_append j "mutation.v1" m = (j', Some n) ∧ takes d k j'
  end.

Definition is_exchanging (rq : gmap string requestRecord) (k : string) : bool :=
  match rq !! k with Some r => rq_Status (r_View r) == "exchanging" | None => false end.

(** The exchanges the restart finds interrupted. *)
Definition interrupted (d : Durable) : nat :=
  List.length (List.filter (is_exchanging (d_requests d)) (map_to_list (d_requests d)).*1).

Lemma takes_le d k k' j : (k' ≤ k)%nat → takes d k j → takes d k' j.
Proof.
  revert k' j. induction k as [|k IH]; intros [|k'] j Hle Ht; simpl; try done; [lia|].
  intros m Hm. destruct (Ht m Hm) as (j' & n & Ha & Ht'). exists j', n. split; [done|]. apply IH; [lia|done].
Qed.

Lemma wp_commit_takes d k m b : closed b = false → startup_record d m → takes d (S k) (jrn b) →
  wp (commit m) (λ r b', (∃ n, r = Ok n) ∧ closed b' = false ∧ takes d k (jrn b') ∧
    requests b' = match mu_Request m with Some r => <[rq_ID (r_View r) := r]> (requests b) | None => requests b end) b.
Proof.
  intros Hc Hm Ht. destruct (Ht m Hm) as (j' & n & Ha & Ht'). pose proof (jr_append_ok _ _ _ _ _ Ha) as (Hh & _).
  unfold commit. do 2 wp_step. unfold live. rewrite Hc, Hh. simpl. rewrite Ha. wp_run. simpl. eauto.
Qed.

(** The exchanges in [b] are those of [d]. *)
Definition exchanging_of (d : Durable) (b : B) : Prop :=
  ∀ k r, requests b !! k = Some r → rq_Status (r_View r) = "exchanging" → d_requests d !! k = Some r.

Lemma length_filter_perm {A} (f : A → bool) l l' :
  l ≡ₚ l' → List.length (List.filter f l) = List.length (List.filter f l').
Proof. induction 1; simpl; repeat case_match; simpl in *; congruence. Qed.

Lemma exchanging_fewer rq k r ids : rq_Status (r_View r) = "authorizing" →
  (List.length (List.filter (is_exchanging (<[k := r]> rq)) ids) ≤ List.length (List.filter (is_exchanging rq) ids))%nat.
Proof.
  intros Hr. assert (Hle : ∀ x, is_exchanging (<[k := r]> rq) x = true → is_exchanging rq x = true).
  { intros x. unfold is_exchanging. destruct (decide (k = x)) as [->|Hk]; [|by rewrite lookup_insert_ne].
    rewrite lookup_insert_eq, Hr. done. }
  induction ids as [|x ids IH]; simpl; [done|].
  destruct (is_exchanging (<[k := r]> rq) x) eqn:E; [rewrite (Hle _ E); simpl; lia|].
  destruct (is_exchanging rq x); simpl; lia.
Qed.

Lemma wp_recover_takes d ids k b : closed b = false → exchanging_of d b →
  takes d (List.length (List.filter (is_exchanging (requests b)) ids) + k) (jrn b) →
  wp (for_each ids recover_exchanging) (λ r b', r = Ok tt ∧ closed b' = false ∧ takes d k (jrn b')) b.
Proof.
  revert b. induction ids as [|id ids IH]; intros b Hc Hx Ht; simpl; [by apply wp_ret|].
  apply wp_bind. unfold recover_exchanging. do 2 wp_step.
  simpl in Ht. unfold is_exchanging at 1 in Ht.
  destruct (requests b !! id) as [r|] eqn:Hr; [|apply wp_ret; by apply IH].
  destruct (_ == _) eqn:E; [|apply wp_ret; by apply IH]. apply bool_decide_eq_true in E. simpl in Ht.
  apply wp_bind. unfold audit. wp_run. eapply wp_mono; [eapply (wp_commit_takes d); [exact Hc|left; exists (w_now (tick b)), id, r; split; [by apply Hx|done]|exact Ht]|].
  intros rr b' ([n ->] & Hc' & Ht' & Hrq). wp_run. simpl in Hrq. apply IH; [done| |].
  - intros x rx. rewrite Hrq. intros [[<- <-]|[_ Hl]]%lookup_insert_Some; [done|by apply Hx].
  - eapply takes_le; [|exact Ht']. rewrite Hrq. apply Nat.add_le_mono_r. by apply exchanging_fewer.
Qed.

(** The end of [New] succeeds on a journal that takes the records of the start. *)
Lemma wp_start_takes d j ids b :
  (takes d (S (interrupted d)) j → closed b = false ∧ exchanging_of d b ∧
     takes d (S (List.length (List.filter (is_exchanging (requests b)) ids))) (jrn b)) →
  wp (for_each ids recover_exchanging ;; ev ← audit "broker.started" zero_actor; commit (no_mutation ev) ;; mret tt)
    (λ r _, takes d (S (interrupted d)) j → r = Ok tt) b.
Proof.
  intros Hb. apply wp_imp. intros (Hc & Hx & Ht)%Hb. apply wp_bind.
  eapply wp_mono; [apply (wp_recover_takes d ids 1); [done..|by rewrite Nat.add_1_r]|].
  intros ? b' (-> & Hc' & Ht'). apply wp_bind. unfold audit. wp_run.
  eapply wp_mono; [eapply (wp_commit_takes d); [exact Hc'|right; by eexists|exact Ht']|].
  intros r s' ([n ->] & _). by wp_run.
Qed.

Section Start.
Variables (cat0 : gmap string Contract) (c0 : Core).
Hypothesis HI0 : Inv (cf_DirectForm cfg) cat0 c0.
Abbreviation sim := (sim cfg c0).

Lemma wp_recover_exchanging t b id (Q : res BErr unit → B → Prop) :
  sim t b →
  (∀ b', sim t b' → Q (Err ErrUnavailable) b') →
  (∀ b', sim t b' → recovered_upto [id] b b' → Q (Ok tt) b') →
  wp (recover_exchanging id) Q b.
Proof using All.
  intros Hsim Herr HQ. unfold recover_exchanging. wp_run.
  assert (Hsame : (∀ r, requests b !! id = Some r → recovered r = r) → recovered_upto [id] b b).
  { intros Hr. split; [done|]. intros k. case_decide as Hk; [|done].
    apply list_elem_of_singleton in Hk as ->. destruct (requests b !! id) eqn:E; [|done].
    simpl. by rewrite (Hr _ eq_refl). }
  destruct (requests b !! id) as [r|] eqn:Hr; wp_run.
  - guards. pose proof (ro_id _ _ _ _ (sim_request _ _ _ HI0 _ _ _ _ Hsim Hr)) as Hid.
    rename select (rq_Status _ = _) into Hp.
    sim_commit_step.
    + apply (ok_request _ _ _ _ _ r); [simpl; congruence|done|]. unfold r_status. simpl. by rewrite Hp.
    + apply mints_old; simpl; try done. intros ? [= <-]. simpl. rewrite Hid. by eexists.
    + wp_run. by apply Herr.
    + wp_run. apply HQ; [done|]. unfold dur, dapply in Hdur. injection Hdur as ? Hrq ? ? ? ? ? ?. simpl in *.
      split; [by constructor|]. intros k. rewrite Hrq, Hid. case_decide as Hk.
      * apply list_elem_of_singleton in Hk as ->. rewrite lookup_insert_eq, Hr. simpl. unfold recovered.
        by rewrite bool_decide_eq_true_2.
      * rewrite lookup_insert_ne; [done|]. set_solver.
  - guards. apply HQ; [done|]. apply Hsame. intros ? [= <-]. unfold recovered.
    by rewrite bool_decide_eq_false_2.
  - apply HQ; [done|]. by apply Hsame.
Qed.

Lemma wp_recover_loop t b ids (Q : res BErr unit → B → Prop) :
  sim t b →
  (∀ b', sim t b' → Q (Err ErrUnavailable) b') →
  (∀ b', sim t b' → recovered_upto ids b b' → Q (Ok tt) b') →
  wp (for_each ids recover_exchanging) Q b.
Proof using All.
  revert b. induction ids as [|id ids IH]; intros b Hsim Herr HQ; simpl.
  { apply wp_ret, HQ; [done|]. split; [done|]. intros k. case_decide; [set_solver|done]. }
  apply wp_bind, (wp_recover_exchanging t); [done|done|]. intros b1 Hs1 [Hrs1 Hrq1].
  apply IH; [done|done|]. intros b2 Hs2 [Hrs2 Hrq2]. apply HQ; [done|].
  split; [by etrans|]. intros k. rewrite Hrq2, Hrq1.
  repeat case_decide; try set_solver.
  - destruct (requests b !! k); simpl; [|done]. by rewrite recovered_idem.
Qed.
End Start.

(** The configuration passes the checks of [New] that do not depend on the journal. *)
Definition configured : Prop :=
  origin_ok cfg = true ∧ build_catalog cfg ∅ (cf_Contracts cfg) = Some catalog0 ∧
  (size catalog0 =? 0)%nat = false.

Lemma New_configured b b' : New cfg b = (Ok tt, b') → configured.
Proof.
  unfold New, configured, catalog0. intros Hnew.
  assert (Hwp : wp (New cfg) (λ r _, r = Ok tt → configured) b); [|unfold wp, New in Hwp; rewrite Hnew in Hwp; by apply Hwp].
  unfold New. apply wp_bind, wp_fail_if; [done|]. intros Ho. apply wp_bind, wp_some_or; [|done].
  intros cat Hcat. wp_step. wp_step. apply wp_bind, wp_fail_if; [done|]. intros Hsz.
  match goal with |- wp ?m _ ?s => unfold wp; destruct (m s) end. intros _. guards. unfold configured, catalog0. by rewrite Hcat.
Qed.

Lemma map_forallb_spec {V} (p : string → V → bool) (m : gmap string V) :
  map_forallb p m = true ↔ map_Forall (λ k v, p k v = true) m.
Proof.
  unfold map_forallb. rewrite forallb_forall. unfold map_Forall. split.
  - intros Hall k v Hk. apply (Hall (k, v)). by apply list_elem_of_In, elem_of_map_to_list.
  - intros Hall [k v] Hin%list_elem_of_In%elem_of_map_to_list. by apply Hall.
Qed.

(** Durable ids drawn before tick [n]. *)
Definition minted_before (n : nat) (d : Durable) : Prop :=
  (∀ k, is_Some (d_requests d !! k) → minted "r" n k) ∧
  (∀ k, is_Some (d_credentials d !! k) → minted "c" n k) ∧
  (∀ k, is_Some (d_grants d !! k) → minted "g" n k).

(** The tables of a restarted broker: those of [d], with interrupted exchanges
    open to another try and nothing leased. *)
Definition tables_back (d : Durable) (b' : B) : Prop :=
  catalog b' = d_catalog d ∧ requests b' = recovered <$> d_requests d ∧
  sessions b' = d_sessions d ∧ credentials b' = d_credentials d ∧ grants b' = d_grants d ∧
  states b' = d_states d ∧ oauth b' = d_oauth d ∧ leases b' = ∅.

(** Starting on a journal the broker wrote: the tables come back; the start
    fails only on a journal that refuses one of the records of the start. *)
Definition comes_back (d : Durable) (j : J) (r : res BErr unit) (b' : B) : Prop :=
  r = Err ErrUnavailable ∧ ¬ takes d (S (interrupted d)) j ∨ r = Ok tt ∧ tables_back d b'.

Lemma comes_back_intro c0 d j r b' :
  (r = Err ErrUnavailable ∨ r = Ok tt ∧ tables_back d b') ∧ simulated cfg c0 r b' →
  (takes d (S (interrupted d)) j → r = Ok tt) → comes_back d j r b' ∧ simulated cfg c0 r b'.
Proof.
  intros [[->|Hok] Hs] Ht; (split; [|done]); [|by right]. left. split; [done|]. by intros Htk%Ht.
Qed.

Lemma wp_New t c0 j m p n :
  configured → SInv c0 → k_log c0 = jr_records j → k_now c0 = t → (t ≤ w_now n)%Z →
  minted_before n (k_dur c0) →
  wp (New cfg) (λ r b', comes_back (k_dur c0) j r b' ∧ simulated cfg c0 r b') (blank j m p n).
Proof.
  intros (Ho & Hcat & Hsz) HI Hlog Hnow Ht (Hmr & Hmc & Hmg). unfold New.
  apply wp_bind, wp_fail_if; [by rewrite Ho|intros _].
  apply wp_bind, wp_some_or; [|congruence]. rewrite Hcat. intros ? [= <-]. do 2 wp_step.
  apply wp_bind, wp_fail_if; [congruence|intros _]. do 3 wp_step. apply wp_replay_records.
  2:{ intros e b' Hrep. pose proof (lg_replay _ _ _ (inv_log _ _ _ HI)) as Hr. rewrite Hlog in Hr.
      simpl in Hrep. unfold durable0 in Hr. unfold dur in Hrep. simpl in Hrep. congruence. }
  intros d b1 Hrep Hd Hl Hj Htk Hcl.
  assert (d = k_dur c0) as ->.
  { pose proof (lg_replay _ _ _ (inv_log _ _ _ HI)) as Hr. rewrite Hlog in Hr.
    unfold durable0 in Hr. unfold dur in Hrep. simpl in Hrep. congruence. }
  simpl in *.
  assert (Hsim : sim cfg c0 t b1).
  { constructor; [|by rewrite Htk|].
    - apply rtc_once. unfold core. rewrite Hd, Hl, Hj. destruct c0 as [d0 L0 log0 now0]. simpl in *. subst.
      apply cs_drop. apply map_empty_subseteq.
    - unfold dur in Hd. rewrite <-Hd in Hmr, Hmc, Hmg. simpl in *.
      constructor; rewrite ?Htk, ?Hl; [done..|]. intros k [? Hk]. by rewrite lookup_empty in Hk. }
  do 2 wp_step. apply wp_bind, wp_fail_if.
  { intros Hbad%negb_true_iff%not_true_iff_false. destruct Hbad. apply map_forallb_spec.
    intros k r Hr. apply (ro_digest _ _ _ _ (sim_request _ _ _ HI _ _ _ _ Hsim Hr)). }
  intros _. apply wp_bind, wp_fail_if.
  { intros Hbad%negb_true_iff%not_true_iff_false. destruct Hbad. apply map_forallb_spec.
    intros k g Hg. apply (go_digest _ _ _ _ (sim_grant _ _ _ HI _ _ _ _ Hsim Hg)). }
  intros _. apply wp_bind, wp_range_keys. intros ids Hks. cbn beta iota.
  assert (Hrq1 : requests b1 = d_requests (k_dur c0)) by by rewrite <-Hd.
  eapply wp_mono; [apply wp_and; [|apply (wp_start_takes (k_dur c0) j)]|].
  2:{ intros Htake. split; [done|]. split; [intros k r; simpl; by rewrite Hrq1|].
      replace (jrn _) with j by done. eapply takes_le; [|exact Htake]. unfold interrupted. simpl. rewrite Hrq1 in *.
      by apply le_n_S, Nat.eq_le_incl, length_filter_perm. }
  2:{ intros r b' [Hcb Hok]. exact (comes_back_intro _ _ _ _ _ Hcb Hok). }
  apply wp_bind, (wp_recover_loop _ _ HI t); [sim_here|intros b' Hs; split; [by left|sim_here]|].
  intros b2 Hs2 [[] Hrq]. wp_run. simpl in *. sim_commit_step; [by constructor|by apply mints_old| |].
  - wp_run. split; [by left|sim_here].
  - wp_run. split; [|sim_here]. right. split; [done|]. unfold tables_back.
    unfold dur, dapply in Hdur, Hd. rewrite <-Hd. simpl in *. injection Hdur as ? Hrq' ? ? ? ? ? ?.
    split_and!; try congruence. rewrite Hrq'. apply map_eq. intros k. rewrite Hrq, lookup_fmap.
    case_decide as Hk; [done|]. destruct (requests b1 !! k) as [r|] eqn:E; [|done].
    destruct Hk. by eapply in_range_keys.
Qed.

(** ** Reachable states *)

Lemma build_catalog_ok l cat cat' :
  build_catalog cfg cat l = Some cat' →
  (∀ k c, cat !! k = Some c → k = key (ct_ID c) (ct_Revision c) ∧ Validate c = true) →
  ∀ k c, cat' !! k = Some c → k = key (ct_ID c) (ct_Revision c) ∧ Validate c = true.
Proof.
  revert cat. induction l as [|c l IH]; intros cat Hb Hcat; simpl in Hb; [by simplify_eq|].
  destruct (add_contract cfg cat c) as [cat1|] eqn:Ha; [|done]. simpl in Hb. apply (IH cat1 Hb).
  unfold add_contract in Ha. destruct (negb (Validate c)) eqn:Hval; [done|]. guards.
  assert (Heq : cat1 = <[key (ct_ID c) (ct_Revision c) := c]> cat).
  { repeat match type of Ha with (if ?x then _ else _) = _ => destruct x; [done|] end. congruence. }
  rewrite Heq. intros k c' [[<- <-]|[_ Hk]]%lookup_insert_Some; [done|by apply Hcat].
Qed.

Lemma Inv_initial t : configured → SInv (mkCore (durable0 catalog0) ∅ [] t).
Proof.
  intros (_ & Hcat & _). constructor; simpl.
  - split; [done|]. eapply build_catalog_ok; [exact Hcat|]. intros k c Hk. by rewrite lookup_empty in Hk.
  - constructor; simpl; [apply map_Forall_empty|by intros ??????|done].
  - constructor; simpl; [apply map_Forall_empty|by intros ???????|done].
  - apply map_Forall_empty.
  - constructor; simpl; [apply map_Forall_empty|by intros ??????|by intros ??????|done].
  - apply map_Forall_empty.
  - constructor; simpl; [apply map_Forall_empty|by intros ??????|done].
  - constructor; simpl; by intros ??????.
  - by constructor.
Qed.

(** What holds of every reachable system. *)
Record good (t : Z) (s : Sys) : Prop := {
  good_configured : configured;
  good_inv : SInv (core t (sys_b s));
  good_time : (t ≤ w_now (tick (sys_b s)))%Z;
  good_fresh : fresh (sys_b s);
  good_flights : ∀ x, x ∈ sys_flights s → flight_ok (dur (sys_b s)) x;
}.

Lemma wp_run' {A} (m : BM A) Q b r b' : wp m Q b → m b = (r, b') → Q r b'.
Proof. unfold wp. intros Hwp Hm. by rewrite Hm in Hwp. Qed.

Lemma sim_start t s : good t s → sim cfg (core t (sys_b s)) t (sys_b s).
Proof. intros []. by constructor. Qed.

(** Every section simulates, whatever it returns. *)
Lemma run_op_simulates t b op c0 :
  SInv c0 → sim cfg c0 t b → wp (run_op op) (simulated cfg c0) b.
Proof.
  intros HI Hsim.
  assert (Heff : ∀ A (m : BM A), wp m (simulated cfg c0) b → wp (effect m) (simulated cfg c0) b).
  { intros A m Hm. unfold effect. apply wp_bind, wp_try. eapply wp_mono; [exact Hm|]. by intros []. }
  destruct op; simpl; try apply Heff.
  1: by eapply sim_Sweep.
  1: by eapply sim_GetRequest.
  1: by eapply sim_GetCredential.
  1: by eapply sim_GetGrant.
  1: by eapply sim_GetEvents.
  1: by eapply sim_RecoveryRefs.
  1: by eapply sim_Catalog.
  1: by eapply sim_Close.
  1: by eapply sim_CancelRequest.
  1: by eapply sim_CreateRequest.
  1: by eapply sim_OpenSession.
  1: by eapply sim_Approve.
  1: by eapply sim_Submit.
  1: by eapply sim_SubmitTelegram.
  1: by eapply sim_RegisterContract.
  1: by eapply sim_CreateGrant.
  1: by eapply sim_Acquire.
  1: by eapply sim_RevokeGrant.
  1: by eapply sim_RevokeCredential.
  1: by eapply sim_delete_revoked.
  1: by eapply sim_InspectLease.
  1: by eapply sim_Renew.
  1: by eapply sim_BeginUse.
  1: by eapply sim_use_Finish.
  1: by eapply sim_use_Valid.
  1: by eapply sim_materialize_look.
  1: by eapply sim_materialize_finish.
  1: by eapply sim_Release.
  1: by eapply sim_StartOAuth.
  1: by eapply sim_requireReauthorization.
  1: by eapply sim_refresh_commit.
  all: wp_run; sim_here.
Qed.

(** After a simulated section the system is still good. *)
Lemma good_after t s b' fl :
  good t s → simulated cfg (core t (sys_b s)) (Ok tt : res BErr unit) b' →
  (∀ x, x ∈ fl → x ∈ sys_flights s ∨ flight_ok (dur b') x) →
  ∃ t', rtc sstep (core t (sys_b s)) (core t' b') ∧ good t' (mkSys b' fl).
Proof.
  intros Hg [t' [Hs Ht Hf]] Hfl. exists t'. split; [done|]. destruct Hg as [Hc HI _ _ Hx].
  constructor; simpl; try done; [by eapply Inv_steps|].
  intros x Hin. destruct (Hfl x Hin) as [Hin'|]; [|done]. specialize (Hx x Hin'). unfold flight_ok in *.
  destruct (steps_evolve _ _ _ _ Hs HI) as [Hev _]. pose proof (evo_sessions _ _ Hev) as Hsub. simpl in Hsub.
  apply elem_of_dom in Hx. apply elem_of_dom. set_solver.
Qed.

Lemma fresh_minted_before b n : fresh b → (tick b ≤ n)%nat → minted_before n (dur b).
Proof. intros [Hr Hc Hg _] Hn. split_and!; simpl; intros k Hk; eapply minted_mono; eauto. Qed.

(** A start on the journal of a system that ran. *)
Lemma wp_New_again t s j m p n :
  good t s → jr_records j = jr_records (jrn (sys_b s)) → (tick (sys_b s) ≤ n)%nat →
  wp (New cfg) (λ r b', comes_back (dur (sys_b s)) j r b' ∧ simulated cfg (core t (sys_b s)) r b') (blank j m p n).
Proof.
  intros Hg Hj Hn. apply (wp_New t (core t (sys_b s))); [apply Hg|apply Hg|done|done| |].
  - etrans; [apply (good_time _ _ Hg)|]. by apply w_now_mono.
  - apply fresh_minted_before; [apply (good_fresh _ _ Hg)|done].
Qed.

(** The simulation: a step of the system is a run of the specification. *)
Lemma step_simulates t s s' :
  good t s → step s s' →
  ∃ t', rtc sstep (core t (sys_b s)) (core t' (sys_b s')) ∧ good t' s'.
Proof.
  intros Hg Hstep. pose proof (sim_start _ _ Hg) as Hsim. pose proof (good_inv _ _ Hg) as HI.
  destruct Hstep as [op b b' r fl Hrun|raw state code b b' x fl Hrun|raw state code b b' e fl Hrun
    |x outcome b b' r fl Hin Hrun|b b' fl j m p n Hj Hn Hrun|b b' fl j m p n e Hj Hn Hrun]; simpl in *.
  - pose proof (wp_run' _ _ _ _ _ (run_op_simulates _ _ op _ HI Hsim) Hrun) as Hs.
    eapply (good_after t (mkSys b fl)); [done|exact Hs|by left].
  - pose proof (wp_run' _ _ _ _ _ (sim_oauth_begin _ _ _ HI _ _ raw state code Hsim) Hrun) as [Hs Hx].
    eapply (good_after t (mkSys b fl)); [done|exact Hs|]. intros y [->|Hy]%elem_of_cons; [right; by apply Hx|by left].
  - pose proof (wp_run' _ _ _ _ _ (sim_oauth_begin _ _ _ HI _ _ raw state code Hsim) Hrun) as [Hs _].
    eapply (good_after t (mkSys b fl)); [done|exact Hs|by left].
  - pose proof (wp_run' _ _ _ _ _ (sim_oauth_finish _ _ _ HI _ _ x outcome Hsim
      (good_flights _ _ Hg x Hin)) Hrun) as Hs.
    eapply (good_after t (mkSys b fl)); [done|exact Hs|by left].
  - assert (Hwp : wp (New cfg) (λ r b', comes_back (dur b) j r b' ∧ simulated cfg (core t b) r b') (blank j m p n)).
    { by apply (wp_New_again t (mkSys b fl)). }
    pose proof (wp_run' _ _ _ _ _ Hwp Hrun) as [_ Hs].
    eapply (good_after t (mkSys b fl)); [done|exact Hs|]. set_solver.
  - assert (Hwp : wp (New cfg) (λ r b', comes_back (dur b) j r b' ∧ simulated cfg (core t b) r b') (blank j m p n)).
    { by apply (wp_New_again t (mkSys b fl)). }
    pose proof (wp_run' _ _ _ _ _ Hwp Hrun) as [_ (t' & [Hs Ht [????]])].
    eapply (good_after t (mkSys b fl)); [done|exists t'; by constructor; [..|constructor]|]. set_solver.
Qed.

Lemma initial_good s : initial s → ∃ t, good t s.
Proof.
  intros [j m p n b Hj Hnew]. pose proof (New_configured _ _ Hnew) as Hc.
  pose proof (Inv_initial (w_now n) Hc) as HI.
  assert (Hwp := wp_New (w_now n) _ j m p n Hc HI (eq_sym Hj) eq_refl (Z.le_refl _)).
  pose proof (wp_run' _ _ _ _ _ (Hwp ltac:(split_and!; intros k [v Hk]; simpl in Hk; by rewrite lookup_empty in Hk)) Hnew)
    as [_ [t [Hs Ht Hf]]].
  exists t. constructor; simpl; try done; [exact (Inv_steps _ _ _ _ Hs HI)|set_solver].
Qed.

Lemma reachable_good s : reachable s → ∃ t, good t s.
Proof.
  intros (s0 & Hi & Hsteps). destruct (initial_good _ Hi) as [t Ht]. clear Hi. revert t Ht.
  induction Hsteps as [|s1 s2 s3 Hstep _ IH]; intros t Hg; [by exists t|].
  destruct (step_simulates _ _ _ Hg Hstep) as (t' & _ & Hg'). by eapply IH.
Qed.

Lemma reachable_inv s : reachable s → ∃ t, SInv (core t (sys_b s)).
Proof. intros Hr. destruct (reachable_good _ Hr) as [t Hg]. exists t. apply Hg. Qed.

Lemma steps_simulate t s s' :
  good t s → rtc step s s' → ∃ t', rtc sstep (core t (sys_b s)) (core t' (sys_b s')) ∧ good t' s'.
Proof.
  intros Hg Hsteps. revert t Hg. induction Hsteps as [s|s1 s2 s3 Hstep _ IH]; intros t Hg; [by exists t|].
  destruct (step_simulates _ _ _ Hg Hstep) as (t1 & H1' & Hg1).
  destruct (IH _ Hg1) as (t2 & H2' & Hg2). exists t2. split; [by etrans|done].
Qed.

Lemma reachable_evolves s s' :
  reachable s → rtc step s s' →
  evolves (dur (sys_b s)) (dur (sys_b s')) ∧
  jr_records (jrn (sys_b s)) `prefix_of` jr_records (jrn (sys_b s')).
Proof.
  intros Hr Hs. destruct (reachable_good _ Hr) as [t Hg].
  destruct (steps_simulate _ _ _ Hg Hs) as (t' & Hsteps & _).
  apply (steps_evolve _ _ _ _ Hsteps (good_inv _ _ Hg)).
Qed.
End System.
