(* ===== verification/BrokerExample.v ===== *)
(** A small world that implements every interface of the broker, and a run in
    it: a credential is enrolled, granted and leased.  The witnesses of the
    theorems about the broker are states of this run. *)
From stdpp Require Import base gmap strings list relations pretty.
From Stdlib Require Import Ascii String.
From S2P Require Import Prelude GoStrings BrokerIdentity Contract BrokerTypes BrokerCore Enrollment Grants BrokerRuntime BrokerSpec BrokerInv BrokerSim BrokerRefine BrokerSystem.
Local Open Scope string_scope.

Module Example.

(** ** The world *)

#[export] Instance world : World := {|
w_now := λ n, Z.of_nat n;
w_hex := λ n, pretty n;
w_secret := λ n, String.concat "" (replicate (43 - String.length (pretty n)) "x") ++ pretty n;
w_ctx := λ _, true;
w_order := λ _ l, l;
w_order_perm := λ _ l, Permutation_refl l;
w_hex_inj := _;
|}.

#[export] Instance world_clock : MonotoneClock.
Proof. intros i j Hij. simpl. lia. Defined.

#[export] Instance unicode : Unicode := ascii_unicode.

#[export] Instance digests : Digests := {|
Digest := λ s, s;
hmac32 := λ k m, "ABCDEFGHIJKLMNOP" ++ m;
marshal_create := λ i, cr_ContractID i ++ "/" ++ cr_ConnectionID i ++ "/" ++ cr_OnboardingID i;
marshal_grant := λ i, gr_BindingID i ++ "/" ++ gr_WorkloadID i;
ContractDigest := λ c, ct_ID c ++ ct_Title c;
|}.

#[export] Instance codecs : Codecs := {|
url_parse := λ s, Some (mkURL "https" "example.org" false "" "" "" "");
json_read := λ s, if s == "{}" then Some (JObject [], true) else None;
pem_decode := λ _, None;
x509_pkcs8 := λ _, false;
x509_pkcs1 := λ _, false;
x509_ec := λ _, false;
x509_cert := λ _, false;
|}.

(** A journal in memory: its records, whether it is open, and which of its next
    appends fail (after the plan they all succeed). *)
Record MemJournal := mkMem { mem_records : list JRecord; mem_open : bool; mem_plan : list bool }.
#[export] Instance mem_journal : JournalOps MemJournal.
Proof.
refine {|
  jr_append := λ j k m,
    if mem_open j then
      let n := Z.of_nat (S (List.length (mem_records j))) in
      match mem_plan j with
      | false :: plan => (mkMem (mem_records j) true plan, None)
      | plan => (mkMem (mem_records j ++ [mkJRecord n k (Some m)]) true (tail plan), Some n)
      end
    else (j, None);
  jr_healthy := mem_open;
  jr_records := mem_records;
  jr_close := λ j, mkMem (mem_records j) false (mem_plan j) |}; try done.
- intros j k m j' n. destruct (mem_open j); [|done]. by destruct (mem_plan j) as [|[] plan]; intros [= <- <-].
- intros j k m j'. destruct (mem_open j); [|by intros [= <-]]. destruct (mem_plan j) as [|[] plan]; by intros [= <-].
- intros j k m Hj. by rewrite Hj.
Defined.

(** A materializer that delivers the whole bundle as environment. *)
#[export] Instance env_materializer : Materializer unit := {|
mat_prepare := λ _ id expires c values state, (tt, Some (mkMaterialized id expires values []));
mat_snapshot := λ _ id c, (tt, Some ∅);
mat_remove := λ _ _, tt;
mat_close := λ _, tt;
|}.

(** One writable provider, [vault], that keeps every version. *)
#[export] Instance vault : Providers (list Bundle) := {|
pv_caps := λ id, if id == "vault" then Some (mkCapabilities true true true true) else None;
pv_read := λ w ref, (w, match List.find (λ kv, pretty kv.1 == ref_Locator ref) (imap pair w) with
                        | Some kv => Some kv.2 | None => None end);
pv_write := λ w id b, ((w ++ [b])%list, Some (mkRef id (pretty (List.length w)) "1"));
pv_delete := λ w _ _, (w, true);
|}.

#[export] Instance endpoint : TokenEndpoint (list Bundle) := {|
te_secret := λ w _, (w, Some "client-secret");
te_post := λ w _ _ _, (w, None);
te_decode := λ body, if body == "{}" then Some (mkTokenDoc "access" "refresh" "Bearer" "3600" "mail") else None;
te_s256 := λ s, s;
te_url := λ s _, s;
te_escape := λ s, s;
|}.

(** ** The run *)

Definition token : Field := mkField "token" "API token" ∅ "secret" true 200.
Definition contract : Contract :=
mkContract "github" 1 "GitHub" "vault" [token] [mkDelivery "env" "token" "GITHUB_TOKEN" "" ∅]
  (Some (mkCState "/state" [mkStateFile "hosts.json" 1024 true])) [] "" "" false ∅.

(** A contract whose credential is completed by an OAuth authorization. *)
Definition oauth_contract : Contract :=
mkContract "gmail" 1 "Gmail" "vault" [] [] None [] "google" "" false ∅.
Definition google : OAuthProvider :=
mkOAuthProvider "https://example.org/authorize" "https://example.org/token" "client"
  "https://example.org/callback" ["mail"] "none" false true ∅.

Definition cfg : Config :=
mkConfig [contract; oauth_contract] ["vault"] ∅ "https://example.org" "0123456789abcdef0123456789abcdef"
  {["google" := google]} false.

Definition owner : Actor := mkActor "alice" "home" "agent" "" "" "p1" false "gh-binding" "gh-worker".
Definition stranger : Actor := mkActor "mallory" "home" "agent" "" "" "p1" false "gh-binding" "gh-worker".

Definition request : CreateRequestIn :=
mkCreateRequestIn "github" 1 "gh-conn" "onb" "idem-key-1" "user" "" "" "" None.
Definition grant_request : GrantRequest :=
mkGrantRequest "github" 1 "alice" "home" "agent" "gh-binding" "gh-worker" "dedicated" "idem-key-2".

Definition second_grant : GrantRequest :=
mkGrantRequest "github" 1 "alice" "home" "agent" "gh-binding-two" "gh-worker-two" "dedicated" "idem-key-3".
Definition oauth_request : CreateRequestIn :=
mkCreateRequestIn "gmail" 1 "mail-conn" "onb" "idem-key-4" "user" "" "" "" None.

Abbreviation EB := (Broker MemJournal unit (list Bundle)).
Abbreviation EM := (M EB BErr).

Definition start : EB := blank (mkMem [] true []) tt [] 0.
Definition b_started : EB := (New cfg start).2.
Definition r_created : res BErr Request * EB := CreateRequest cfg owner request b_started.
Definition request_id : string := match r_created.1 with Ok v => rq_ID v | Err _ => "" end.
Definition r_opened : res BErr (SessionView * string) * EB := OpenSession cfg request_id "" r_created.2.
Definition session_raw : string := match r_opened.1 with Ok v => v.2 | Err _ => "" end.
Definition r_approved : res BErr unit * EB := Approve owner request_id "ABCD-EFGH-IJKL-MNOP" r_opened.2.
Definition secret_values : Bundle := {[ "token" := "ghp_secret" ]}.
Definition r_submitted : res BErr unit * EB :=
Submit cfg request_id session_raw (CSRF cfg session_raw request_id) secret_values ∅ r_approved.2.
Definition credential_id : string :=
match requests r_submitted.2 !! request_id with Some r => rq_CredentialID (r_View r) | None => "" end.
Definition r_granted : res BErr Grant * EB := CreateGrant owner credential_id grant_request r_submitted.2.
Definition grant_id : string := match r_granted.1 with Ok g => g_ID g | Err _ => "" end.
Definition r_leased : res BErr Lease * EB := Acquire owner (mkAcquireLease grant_id 60) r_granted.2.
Definition lease_id : string := match r_leased.1 with Ok l => l_ID l | Err _ => "" end.
Definition r_used : res BErr Use * EB := BeginUse owner lease_id r_leased.2.
Definition the_use : Use := match r_used.1 with Ok u => u | Err _ => mkUse owner "" "" 0 contract "" (mkRef "" "" "") end.
Definition r_valid : res BErr bool * EB := use_Valid the_use r_used.2.
Definition r_renewed : res BErr Lease * EB := Renew owner lease_id 120 r_used.2.
Definition r_materialized : res BErr Materialized * EB := materialize_body owner lease_id the_use r_used.2.
Definition r_granted2 : res BErr Grant * EB := CreateGrant owner credential_id second_grant r_used.2.
Definition grant_id2 : string := match r_granted2.1 with Ok g => g_ID g | Err _ => "" end.
Definition r_revoked : res BErr unit * EB := RevokeCredential owner credential_id r_used.2.

Definition r_deleted : res BErr unit * EB := delete_revoked owner credential_id r_revoked.2.

(** A second run, up to the start of an authorization. *)
Definition o_created : res BErr Request * EB := CreateRequest cfg owner oauth_request b_started.
Definition oauth_id : string := match o_created.1 with Ok v => rq_ID v | Err _ => "" end.
Definition o_opened : res BErr (SessionView * string) * EB := OpenSession cfg oauth_id "" o_created.2.
Definition oauth_raw : string := match o_opened.1 with Ok v => v.2 | Err _ => "" end.
Definition o_approved : res BErr unit * EB := Approve owner oauth_id "ABCD-EFGH-IJKL-MNOP" o_opened.2.
Definition oauth_csrf : string := CSRF cfg oauth_raw oauth_id.
Definition o_submitted : res BErr unit * EB := Submit cfg oauth_id oauth_raw oauth_csrf ∅ ∅ o_approved.2.
Definition o_started : res BErr string * EB := StartOAuth cfg oauth_id oauth_raw oauth_csrf o_submitted.2.
Definition oauth_state : string := match map_to_list (oauth o_started.2) with (k, _) :: _ => k | [] => "" end.

Definition o_begun : res BErr Exchange * EB := oauth_begin cfg oauth_raw oauth_state "code" o_started.2.

(** The run, evaluated. *)
Example run_ids :
(request_id, credential_id, grant_id, lease_id) = ("r4", "c17", "g21", "l24").
Proof. vm_compute. reflexivity. Qed.

Lemma started : New cfg start = (Ok tt, b_started).
Proof. vm_compute. reflexivity. Qed.

(** Every state of the run is reachable. *)
Lemma reach_effect {A} op (m : EM A) (b : EB) :
run_op cfg op = effect m → reachable cfg (mkSys b []) → reachable cfg (mkSys (m b).2 []).
Proof.
intros Hop (s0 & Hi & Hs). exists s0. split; [done|]. eapply rtc_r; [exact Hs|].
apply (st_op cfg op b (m b).2 (Ok tt)). rewrite Hop. unfold effect, try, mbind, M_bind. by destruct (m b).
Qed.
Lemma reach_started : reachable cfg (mkSys b_started []).
Proof. eexists. split; [|reflexivity]. by econstructor; [|apply started]. Qed.
Lemma reach_created : reachable cfg (mkSys r_created.2 []).
Proof. exact (reach_effect (OpCreateRequest owner request) (CreateRequest cfg owner request) b_started eq_refl reach_started). Qed.
Lemma reach_opened : reachable cfg (mkSys r_opened.2 []).
Proof. exact (reach_effect (OpOpenSession request_id "") (OpenSession cfg request_id "") r_created.2 eq_refl reach_created). Qed.
Lemma reach_approved : reachable cfg (mkSys r_approved.2 []).
Proof. exact (reach_effect (OpApprove owner request_id "ABCD-EFGH-IJKL-MNOP") (Approve owner request_id "ABCD-EFGH-IJKL-MNOP") r_opened.2 eq_refl reach_opened). Qed.
Lemma reach_submitted : reachable cfg (mkSys r_submitted.2 []).
Proof. exact (reach_effect (OpSubmit request_id session_raw (CSRF cfg session_raw request_id) secret_values ∅) (Submit cfg request_id session_raw (CSRF cfg session_raw request_id) secret_values ∅) r_approved.2 eq_refl reach_approved). Qed.
Lemma reach_granted : reachable cfg (mkSys r_granted.2 []).
Proof. exact (reach_effect (OpCreateGrant owner credential_id grant_request) (CreateGrant owner credential_id grant_request) r_submitted.2 eq_refl reach_submitted). Qed.
Lemma reach_leased : reachable cfg (mkSys r_leased.2 []).
Proof. exact (reach_effect (OpAcquire owner (mkAcquireLease grant_id 60)) (Acquire owner (mkAcquireLease grant_id 60)) r_granted.2 eq_refl reach_granted). Qed.
Lemma reach_used : reachable cfg (mkSys r_used.2 []).
Proof. exact (reach_effect (OpBeginUse owner lease_id) (BeginUse owner lease_id) r_leased.2 eq_refl reach_leased). Qed.
Lemma reach_granted2 : reachable cfg (mkSys r_granted2.2 []).
Proof. exact (reach_effect (OpCreateGrant owner credential_id second_grant) (CreateGrant owner credential_id second_grant) r_used.2 eq_refl reach_used). Qed.
Lemma reach_revoked : reachable cfg (mkSys r_revoked.2 []).
Proof. exact (reach_effect (OpRevokeCredential owner credential_id) (RevokeCredential owner credential_id) r_used.2 eq_refl reach_used). Qed.
Lemma reach_o_created : reachable cfg (mkSys o_created.2 []).
Proof. exact (reach_effect (OpCreateRequest owner oauth_request) (CreateRequest cfg owner oauth_request) b_started eq_refl reach_started). Qed.
Lemma reach_o_opened : reachable cfg (mkSys o_opened.2 []).
Proof. exact (reach_effect (OpOpenSession oauth_id "") (OpenSession cfg oauth_id "") o_created.2 eq_refl reach_o_created). Qed.
Lemma reach_o_approved : reachable cfg (mkSys o_approved.2 []).
Proof. exact (reach_effect (OpApprove owner oauth_id "ABCD-EFGH-IJKL-MNOP") (Approve owner oauth_id "ABCD-EFGH-IJKL-MNOP") o_opened.2 eq_refl reach_o_opened). Qed.
Lemma reach_o_submitted : reachable cfg (mkSys o_submitted.2 []).
Proof. exact (reach_effect (OpSubmit oauth_id oauth_raw oauth_csrf ∅ ∅) (Submit cfg oauth_id oauth_raw oauth_csrf ∅ ∅) o_approved.2 eq_refl reach_o_approved). Qed.
Lemma reach_o_started : reachable cfg (mkSys o_started.2 []).
Proof. exact (reach_effect (OpStartOAuth oauth_id oauth_raw oauth_csrf) (StartOAuth cfg oauth_id oauth_raw oauth_csrf) o_submitted.2 eq_refl reach_o_submitted). Qed.

(** A revocation is one step of the system. *)
Lemma step_revoked : step cfg (mkSys r_used.2 []) (mkSys r_revoked.2 []).
Proof.
apply (st_op cfg (OpRevokeCredential owner credential_id) _ _ (Ok tt)).
change (run_op cfg (OpRevokeCredential owner credential_id)) with (effect (RevokeCredential owner credential_id) : EM unit).
unfold effect, try, mbind, M_bind, r_revoked. by destruct (RevokeCredential owner credential_id r_used.2).
Qed.

(** The operations behind the states. *)
Lemma r_created_eq : CreateRequest cfg owner request b_started = r_created.
Proof. unfold r_created. reflexivity. Qed.
Lemma r_leased_eq : Acquire owner (mkAcquireLease grant_id 60) r_granted.2 = r_leased.
Proof. unfold r_leased. reflexivity. Qed.
Lemma r_used_eq : BeginUse owner lease_id r_leased.2 = r_used.
Proof. unfold r_used. reflexivity. Qed.
Lemma r_valid_eq : use_Valid the_use r_used.2 = r_valid.
Proof. unfold r_valid. reflexivity. Qed.
Lemma r_renewed_eq : Renew owner lease_id 120 r_used.2 = r_renewed.
Proof. unfold r_renewed. reflexivity. Qed.
Lemma r_materialized_eq : materialize_body owner lease_id the_use r_used.2 = r_materialized.
Proof. unfold r_materialized. reflexivity. Qed.
Lemma r_revoked_eq : RevokeCredential owner credential_id r_used.2 = r_revoked.
Proof. unfold r_revoked. reflexivity. Qed.
Lemma r_deleted_eq : delete_revoked owner credential_id r_revoked.2 = r_deleted.
Proof. unfold r_deleted. reflexivity. Qed.
Lemma o_begun_eq : oauth_begin cfg oauth_raw oauth_state "code" o_started.2 = o_begun.
Proof. unfold o_begun. reflexivity. Qed.

(** The states stand for themselves from here on; only evaluation looks inside. *)
#[global] Opaque b_started r_created r_opened r_approved r_submitted r_granted r_leased r_used
r_granted2 r_revoked r_valid r_renewed r_materialized r_deleted o_begun the_use o_created o_opened o_approved o_submitted o_started.

(** The operations of the run succeed. *)
Lemma succeeded {E A S} (x : res E A * S) : res_ok x.1 = true → ∃ a, x = (Ok a, x.2).
Proof. destruct x as [[a|e] s]; [eauto|done]. Qed.
Lemma ran_created : ∃ v, CreateRequest cfg owner request b_started = (Ok v, r_created.2).
Proof. rewrite r_created_eq. exact (succeeded r_created ltac:(vm_compute; reflexivity)). Qed.
Lemma ran_leased : ∃ v, Acquire owner (mkAcquireLease grant_id 60) r_granted.2 = (Ok v, r_leased.2).
Proof. rewrite r_leased_eq. exact (succeeded r_leased ltac:(vm_compute; reflexivity)). Qed.
Lemma ran_used : ∃ v, BeginUse owner lease_id r_leased.2 = (Ok v, r_used.2).
Proof. rewrite r_used_eq. exact (succeeded r_used ltac:(vm_compute; reflexivity)). Qed.
Lemma ran_valid : use_Valid the_use r_used.2 = (Ok true, r_valid.2).
Proof.
rewrite r_valid_eq. destruct (succeeded r_valid ltac:(vm_compute; reflexivity)) as [[] H]; [exact H|].
apply (f_equal fst) in H. vm_compute in H. discriminate.
Qed.
Lemma ran_renewed : ∃ v, Renew owner lease_id 120 r_used.2 = (Ok v, r_renewed.2).
Proof. rewrite r_renewed_eq. exact (succeeded r_renewed ltac:(vm_compute; reflexivity)). Qed.
Lemma ran_materialized : ∃ v, materialize_body owner lease_id the_use r_used.2 = (Ok v, r_materialized.2).
Proof. rewrite r_materialized_eq. exact (succeeded r_materialized ltac:(vm_compute; reflexivity)). Qed.
Lemma ran_revoked : RevokeCredential owner credential_id r_used.2 = (Ok tt, r_revoked.2).
Proof. rewrite r_revoked_eq. destruct (succeeded r_revoked ltac:(vm_compute; reflexivity)) as [[] H]. exact H. Qed.
Lemma ran_deleted : delete_revoked owner credential_id r_revoked.2 = (Ok tt, r_deleted.2).
Proof. rewrite r_deleted_eq. destruct (succeeded r_deleted ltac:(vm_compute; reflexivity)) as [[] H]. exact H. Qed.
Lemma ran_begun : ∃ v, oauth_begin cfg oauth_raw oauth_state "code" o_started.2 = (Ok v, o_begun.2).
Proof. rewrite o_begun_eq. exact (succeeded o_begun ltac:(vm_compute; reflexivity)). Qed.

(** What a computation finds or returns. *)
Definition some_b {A} (o : option A) : bool := match o with Some _ => true | None => false end.
Lemma found {A} (m : gmap string A) k : some_b (m !! k) = true → ∃ a, m !! k = Some a.
Proof. destruct (m !! k); [eauto|done]. Qed.
(** A fact about what stands at a key. *)
Lemma found_with {A B} (f : A → B) (m : gmap string A) k b :
f <$> (m !! k) = Some b → ∃ a, m !! k = Some a ∧ f a = b.
Proof. destruct (m !! k) as [a|]; [|done]. intros [= <-]. eauto. Qed.
End Example.
