(* ===== verification/BrokerProps.v ===== *)
(** What the credential broker guarantees in every reachable state, whatever
    order its critical sections run in and however often it restarts. *)
From stdpp Require Import base gmap strings list relations pretty.
From Stdlib Require Import Ascii String.
From S2P Require Import Prelude GoStrings BrokerIdentity Contract BrokerTypes BrokerCore Enrollment Grants BrokerRuntime BrokerSpec BrokerInv BrokerSim BrokerRefine BrokerSystem.
Local Open Scope string_scope.

Section Guarantees.
Context {J MT PW : Type} `{World} `{!MonotoneClock} `{Digests} `{Codecs} `{Unicode}.
Context `{JournalOps J} `{Materializer MT} `{Providers PW} `{TokenEndpoint PW}.
Variable cfg : Config.
Implicit Types s : @Sys J MT PW.

(** C1. The code refines its specification: from a reachable state, any
    interleaving of critical sections, exchanges and restarts is a run of the
    specification's transition system on the image of the state. *)
Theorem broker_refines_spec s s' :
  reachable cfg s → rtc (step cfg) s s' →
  ∃ t t', rtc (cstep (cf_DirectForm cfg)) (core t (sys_b s)) (core t' (sys_b s')) ∧
    (t' ≤ w_now (tick (sys_b s')))%Z.
Proof.
  intros Hr Hs. destruct (reachable_good _ _ Hr) as [t Hg].
  destruct (steps_simulate _ _ _ _ Hg Hs) as (t' & Hsteps & Hg').
  exists t, t'. split; [done|apply Hg'].
Qed.

(** C2. Every lease in the table is backed: its grant exists, is active, is for
    the same credential, and the lease carries exactly the deliveries and
    routes of the grant's contract; its credential is active at the lease's
    revision, or has been deleted (then every use is refused). *)
Theorem lease_backed s id l :
  reachable cfg s → leases (sys_b s) !! id = Some l →
  l_ID (lr_View l) = id ∧
  (∃ g, grants (sys_b s) !! l_GrantID (lr_View l) = Some g ∧ g_Active (g_View g) = true ∧
     g_CredentialID (g_View g) = l_CredentialID (lr_View l) ∧
     l_Deliveries (lr_View l) = ct_Deliveries (contract_of (sys_b s) (g_ContractKey g)) ∧
     l_Routes (lr_View l) = map r_ID (ct_Routes (contract_of (sys_b s) (g_ContractKey g)))) ∧
  (∃ c, credentials (sys_b s) !! l_CredentialID (lr_View l) = Some c ∧
     (cd_Status (c_View c) = "active" ∧ cd_Revision (c_View c) = l_Revision (lr_View l)
      ∨ cd_Status (c_View c) = "deleted")).
Proof.
  intros Hr Hl. destruct (reachable_inv _ _ Hr) as [t HI].
  destruct (ls_each _ _ (inv_leases _ _ _ HI) _ _ Hl) as [Hid _ Hg Hc _]. done.
Qed.

(** C3. At most one live (not deleted) credential fills a slot: a pair of
    credentials of the same context, connection and consumer are the same one. *)
Theorem one_credential_per_slot s k k' c c' :
  reachable cfg s → credentials (sys_b s) !! k = Some c → credentials (sys_b s) !! k' = Some c' →
  cd_ContextID (c_View c) = cd_ContextID (c_View c') →
  cd_ConnectionID (c_View c) = cd_ConnectionID (c_View c') →
  cd_ConsumerID (c_View c) = cd_ConsumerID (c_View c') →
  cd_Status (c_View c) ≠ "deleted" → cd_Status (c_View c') ≠ "deleted" → k = k'.
Proof.
  intros Hr Hk Hk' H1' H2' H3' Hd Hd'. destruct (reachable_inv _ _ Hr) as [t HI].
  eapply (sl_creds _ _ (inv_slots _ _ _ HI)); eauto. unfold c_slot. congruence.
Qed.

(** C4. Active grants do not contend: two of them never serve the same binding
    of a principal in a context; two in one workload are both shared, and when
    either delivers into the process they are for the same credential under
    the same contract. *)
Theorem grants_exclusive s k k' g g' :
  reachable cfg s → grants (sys_b s) !! k = Some g → grants (sys_b s) !! k' = Some g' → k ≠ k' →
  g_Active (g_View g) = true → g_Active (g_View g') = true →
  ¬ (g_BindingID (g_View g) = g_BindingID (g_View g') ∧
     g_ContextID (g_View g) = g_ContextID (g_View g') ∧
     g_PrincipalID (g_View g) = g_PrincipalID (g_View g')) ∧
  (g_WorkloadID (g_View g) = g_WorkloadID (g_View g') →
     g_Execution (g_View g) = "shared" ∧ g_Execution (g_View g') = "shared" ∧
     (process_scoped (contract_of (sys_b s) (g_ContractKey g)) = true ∨
      process_scoped (contract_of (sys_b s) (g_ContractKey g')) = true →
      g_CredentialID (g_View g) = g_CredentialID (g_View g') ∧ g_ContractKey g = g_ContractKey g')).
Proof.
  intros Hr Hk Hk' Hne Ha Ha'. destruct (reachable_inv _ _ Hr) as [t HI].
  exact (gs_agree _ (inv_grants _ _ _ HI) _ _ _ _ Hk Hk' Hne Ha Ha').
Qed.

(** C5. Grants stay with the owner: a grant is in its credential's context, a
    user's credential is granted to that user only, sharing is allowed by the
    contract, and the granted contract is compatible with the credential's. *)
Theorem grants_isolated s k g :
  reachable cfg s → grants (sys_b s) !! k = Some g →
  (g_Execution (g_View g) = "shared" →
    ct_AllowShared (contract_of (sys_b s) (g_ContractKey g)) = true) ∧
  ∃ c, credentials (sys_b s) !! g_CredentialID (g_View g) = Some c ∧
    g_ContextID (g_View g) = cd_ContextID (c_View c) ∧
    (cd_OwnerKind (c_View c) = "user" → g_PrincipalID (g_View g) = cd_PrincipalID (c_View c)) ∧
    Compatible (contract_of (sys_b s) (c_ContractKey c))
      (contract_of (sys_b s) (g_ContractKey g)) = true.
Proof.
  intros Hr Hk. destruct (reachable_inv _ _ Hr) as [t HI].
  destruct (gs_each _ (inv_grants _ _ _ HI) _ _ Hk) as [_ _ Hs Hc]. done.
Qed.

(** Outside the direct-form mode a request has at most one approved session
    that can still submit. *)
Theorem one_approved_session s k k' x x' :
  reachable cfg s → cf_DirectForm cfg = false →
  sessions (sys_b s) !! k = Some x → sessions (sys_b s) !! k' = Some x' →
  s_RequestID x = s_RequestID x' → s_Approved x = true → s_Approved x' = true →
  s_Consumed x = false → s_Consumed x' = false → k = k'.
Proof.
  intros Hr Hd. destruct (reachable_inv _ _ Hr) as [t HI].
  exact (ss_one _ _ (inv_sessions _ _ _ HI) Hd k k' x x').
Qed.

(** The tables keep their capacities. *)
Theorem tables_bounded s :
  reachable cfg s →
  (Z.of_nat (size (requests (sys_b s))) ≤ 10000)%Z ∧
  (Z.of_nat (size (sessions (sys_b s))) ≤ 50000)%Z ∧
  (Z.of_nat (size (grants (sys_b s))) ≤ 50000)%Z ∧
  (Z.of_nat (size (leases (sys_b s))) ≤ 4096)%Z ∧
  ∀ id l, leases (sys_b s) !! id = Some l → (Z.of_nat (size (lr_Active l)) ≤ 16)%Z.
Proof.
  intros Hr. destruct (reachable_inv _ _ Hr) as [t HI]. split_and!.
  - apply (rs_size _ (inv_requests _ _ _ HI)).
  - apply (ss_size _ _ (inv_sessions _ _ _ HI)).
  - apply (gs_size _ (inv_grants _ _ _ HI)).
  - apply (ls_size _ _ (inv_leases _ _ _ HI)).
  - intros id l Hl. apply (lo_active _ _ _ (ls_each _ _ (inv_leases _ _ _ HI) _ _ Hl)).
Qed.

(** A state snapshot has at most one writer: no two leases hold the same
    state key. *)
Theorem state_lease_exclusive s k k' l l' :
  reachable cfg s → leases (sys_b s) !! k = Some l → leases (sys_b s) !! k' = Some l' →
  lr_StateKey l = lr_StateKey l' → lr_StateKey l ≠ "" → k = k'.
Proof.
  intros Hr. destruct (reachable_inv _ _ Hr) as [t HI]. apply (ls_state _ _ (inv_leases _ _ _ HI)).
Qed.

(** C9. The journal determines the durable state: replaying its records from
    the configured catalog yields exactly the tables and the audit log of the
    running broker. *)
Theorem journal_determines_state s :
  reachable cfg s →
  replay (durable0 (catalog0 cfg)) (jr_records (jrn (sys_b s))) = Some (dur (sys_b s)).
Proof.
  intros Hr. destruct (reachable_inv _ _ Hr) as [t HI]. apply (lg_replay _ _ _ (inv_log _ _ _ HI)).
Qed.

(** C10. A restart recovers. [New] on a journal with the running broker's
    records succeeds whenever that journal takes the records of the start (one
    for each exchange the stop interrupted and one for the start itself), and
    then every table is back: the contracts, sessions, credentials, grants,
    states and code exchanges as they were, the requests with interrupted
    exchanges open to another try, and no lease. A start that fails fails with
    [ErrUnavailable], and only on a journal that refuses one of those records. *)
Theorem restart_recovers s (j : J) (m : MT) (p : PW) n :
  reachable cfg s → jr_records j = jr_records (jrn (sys_b s)) → (tick (sys_b s) ≤ n)%nat →
  (takes (dur (sys_b s)) (S (interrupted (dur (sys_b s)))) j →
     ∃ b', New cfg (blank j m p n) = (Ok tt, b') ∧ tables_back (dur (sys_b s)) b') ∧
  ∀ r b', New cfg (blank j m p n) = (r, b') →
    r = Ok tt ∧ tables_back (dur (sys_b s)) b' ∨
    r = Err ErrUnavailable ∧ ¬ takes (dur (sys_b s)) (S (interrupted (dur (sys_b s)))) j.
Proof.
  intros Hr Hj Hn. destruct (reachable_good _ _ Hr) as [t Hg].
  pose proof (wp_New_again _ t s j m p n Hg Hj Hn) as Hwp.
  unfold wp in Hwp. destruct (New cfg (blank j m p n)) as [r b']. destruct Hwp as [[[-> Hno]|[-> Hb]] _].
  - split; [done|]. intros ? ? [= <- <-]. by right.
  - split; [by eexists|]. intros ? ? [= <- <-]. by left.
Qed.

(** C11. The audit log is complete and gapless: event [i] has sequence [i+1],
    there is one event per journal record, and every lease in the table has
    the event of its acquisition. *)
Theorem audit_complete s :
  reachable cfg s →
  (∀ i e, events (sys_b s) !! i = Some e → ev_Sequence e = Z.of_nat (S i)) ∧
  List.length (events (sys_b s)) = List.length (jr_records (jrn (sys_b s))) ∧
  ∀ id l, leases (sys_b s) !! id = Some l → ∃ e, e ∈ events (sys_b s) ∧
    ev_Kind e = "lease.acquired" ∧ ev_LeaseID e = id ∧ ev_GrantID e = l_GrantID (lr_View l) ∧
    ev_CredentialID e = l_CredentialID (lr_View l).
Proof.
  intros Hr. destruct (reachable_inv _ _ Hr) as [t HI]. destruct (inv_log _ _ _ HI) as [_ Hseq Hlen].
  split_and!; [done|done|]. intros id l Hl.
  destruct (ls_each _ _ (inv_leases _ _ _ HI) _ _ Hl) as [<- _ _ _ (e & He)]. by exists e.
Qed.

(** History is final: a request that is ready or canceled never changes
    again; a deleted credential and a revoked grant stay so; a credential keeps
    its owner kind, slot and contract and forgets no stored version; contracts
    under their key never change; the journal and the audit log only grow. *)
Theorem history_final s s' :
  reachable cfg s → rtc (step cfg) s s' →
  (∀ k r, requests (sys_b s) !! k = Some r → rq_Status (r_View r) = "ready" ∨
     rq_Status (r_View r) = "canceled" → requests (sys_b s') !! k = Some r) ∧
  (∀ k c, credentials (sys_b s) !! k = Some c → ∃ c', credentials (sys_b s') !! k = Some c' ∧
     c_fixed c' = c_fixed c ∧ c_OwnedRefs c `prefix_of` c_OwnedRefs c' ∧
     (cd_Status (c_View c) = "deleted" → c' = c)) ∧
  (∀ k g, grants (sys_b s) !! k = Some g → ∃ g', grants (sys_b s') !! k = Some g' ∧
     g_revoke g' = g_revoke g ∧ (g_Active (g_View g) = false → g' = g)) ∧
  catalog (sys_b s) ⊆ catalog (sys_b s') ∧
  events (sys_b s) `prefix_of` events (sys_b s') ∧
  jr_records (jrn (sys_b s)) `prefix_of` jr_records (jrn (sys_b s')).
Proof.
  intros Hr Hs. destruct (reachable_evolves _ _ _ Hr Hs) as [Hev Hlog]. split_and!; try apply Hev; [..|done].
  - intros k r Hk Hst. destruct (evo_requests _ _ Hev _ _ Hk) as (r' & Hk' & [_ Hfin]).
    rewrite <-Hfin; [done|]. unfold r_status. by destruct Hst as [-> | ->].
  - intros k c Hk. destruct (evo_credentials _ _ Hev _ _ Hk) as (c' & Hk' & [Hf _ Hp Hd]). eauto 6.
  - intros k g Hk. destruct (evo_grants _ _ Hev _ _ Hk) as (g' & Hk' & [Hf Hd]). eauto 6.
Qed.
End Guarantees.
