(* ===== verification/BrokerOps.v ===== *)
(** What single operations of the broker do, on every branch: authorization of
    uses, revocation, idempotent replay, lease terms, ownership, and the closed
    broker. *)
From stdpp Require Import base gmap strings list relations pretty.
From Stdlib Require Import Ascii String.
From S2P Require Import Prelude GoStrings BrokerIdentity Contract BrokerTypes BrokerCore Enrollment Grants BrokerRuntime BrokerSpec BrokerInv BrokerSim BrokerRefine BrokerSystem.
Local Open Scope string_scope.

Section Operations.
Context {J MT PW : Type} `{World} `{!MonotoneClock} `{Digests} `{Codecs} `{Unicode}.
Context `{JournalOps J} `{Materializer MT} `{Providers PW} `{TokenEndpoint PW}.
Variable cfg : Config.

Abbreviation B := (Broker J MT PW).
Abbreviation BM := (M (Broker J MT PW) BErr).
Implicit Types b : B.

(** ** Idempotent requests *)

Lemma request_replay_found b k r fp :
  requests b !! k = Some r → r_Fingerprint r = fp →
  (∀ k' r', requests b !! k' = Some r' → r_Idempotency r' = r_Idempotency r → k' = k) →
  request_replay (r_Idempotency r) fp b = (Ok (Some (r_View r)), set_tick (S (tick b)) b).
Proof.
  intros Hk Hfp Huniq. apply wp_eq. unfold request_replay. wp_run. eapply wp_mono.
  { apply (wp_for_return (λ s, s = set_tick (S (tick b)) b)
      (λ k', ∀ r', requests b !! k' = Some r' → r_Idempotency r' ≠ r_Idempotency r)
      (λ x s, x = Ok (r_View r) ∧ s = set_tick (S (tick b)) b)); [done|].
    intros k' s _ ->. destruct (requests b !! k') as [r'|] eqn:Hk'; [|wp_run; split; [done|by intros ? [=]]].
    destruct (decide (r_Idempotency r' = r_Idempotency r)) as [He|Hne].
    - assert (k' = k) as -> by eauto. assert (r' = r) as -> by congruence.
      rewrite !bool_decide_eq_true_2 by done. simpl. by wp_run.
    - rewrite bool_decide_eq_false_2 by done. wp_run. split; [done|]. by intros ? [= <-]. }
  intros [[v|]|e] s'.
  - by intros [[= ->] ->].
  - intros [_ HP]. rewrite Forall_forall in HP. exfalso. eapply HP; [by eapply in_range_keys|done|done].
  - by intros [? _].
Qed.

(** Creating a request is idempotent: repeating a call that succeeded, with
    the broker still up, answers with the same request and changes nothing. *)
Theorem create_request_idempotent (s : @Sys J MT PW) a in_ v b1 :
  reachable cfg s → CreateRequest cfg a in_ (sys_b s) = (Ok v, b1) → live b1 = true →
  CreateRequest cfg a in_ b1 = (Ok v, set_tick (S (tick b1)) b1).
Proof.
  intros Hr Hrun Hlive. destruct (reachable_good _ _ Hr) as [t Hg].
  pose proof (sim_start _ _ _ Hg) as Hsim. pose proof (good_inv _ _ _ Hg) as HI.
  pose proof (run_wp _ _ _ _ _ Hrun (wp_CreateRequest _ _ _ HI _ _ a in_ Hsim)) as [[t' Hs'] Hen].
  destruct (Hen v eq_refl) as [Hval (c & Hcat & Hprov) (k & r & Hk & <- & Hidem & Hfp)].
  pose proof (sim_inv _ _ _ HI _ _ Hs') as HI'.
  apply wp_eq. unfold CreateRequest. wp_step. wp_step.
  apply wp_bind, wp_fail_if; [by rewrite Hlive|intros _].
  apply wp_bind, wp_fail_if; [congruence|intros _].
  apply wp_bind, wp_some_or; [|congruence]. rewrite Hcat. intros ? [= <-].
  apply wp_bind, wp_fail_if; [congruence|intros _].
  apply wp_bind. unfold wp at 1. rewrite <-Hidem, (request_replay_found b1 k r); [|done|done|].
  - by wp_run.
  - intros k' r' Hk' Heq. by eapply (rs_idem _ (inv_requests _ _ _ HI')).
Qed.

(** ** Uses *)

(** The actor is the one the grant was made for. *)
Definition actor_is_grantee (a : Actor) (g : grantRecord) : Prop :=
  g_Active (g_View g) = true ∧ a_PrincipalID a = g_PrincipalID (g_View g) ∧
  a_ContextID a = g_ContextID (g_View g) ∧ a_RuntimeID a = g_RuntimeID (g_View g) ∧
  a_PolicyVersion a = g_PolicyVersion (g_View g) ∧
  (a_BindingID a = "" ∨ a_BindingID a = g_BindingID (g_View g)) ∧
  (a_WorkloadID a = "" ∨ a_WorkloadID a = g_WorkloadID (g_View g)).

Lemma grantMatches_spec a g : grantMatches a g = true → actor_is_grantee a g.
Proof.
  unfold grantMatches, actor_is_grantee. intros Hm. guards.
  repeat match goal with Ho : _ || _ = true |- _ => apply orb_true_iff in Ho; rewrite !bool_decide_eq_true in Ho end.
  naive_solver.
Qed.

(** C14. A use begins only for the grantee, from the granted binding and
    workload, on a lease that has not expired, of an active credential at the
    lease's revision; it is on the audit log, it is registered with the lease,
    and it hands out that credential's reference. *)
Theorem use_authorized a id b u b' :
  BeginUse a id b = (Ok u, b') →
  ∃ l g c, leases b !! id = Some l ∧ grants b !! l_GrantID (lr_View l) = Some g ∧
    credentials b !! l_CredentialID (lr_View l) = Some c ∧
    actor_is_grantee a g ∧ a_BindingID a = g_BindingID (g_View g) ∧
    a_WorkloadID a = g_WorkloadID (g_View g) ∧
    cd_Status (c_View c) = "active" ∧ cd_Revision (c_View c) = l_Revision (lr_View l) ∧
    (w_now (tick b) < l_ExpiresAt (lr_View l))%Z ∧
    use_CredentialID u = cd_ID (c_View c) ∧ use_Ref u = c_Ref c ∧ use_LeaseID u = id ∧
    (Z.of_nat (size (lr_Active l)) < 16)%Z ∧
    leases b' = <[id := lr_with_active ({[use_Op u]} ∪ lr_Active l) l]> (leases b) ∧
    ∃ e, events b' = (events b ++ [e])%list ∧ ev_Kind e = "lease.used" ∧ ev_LeaseID e = id.
Proof.
  intros Hrun. by_wp Hrun.
  unfold BeginUse, update_lease. wp_step. apply wp_fail_if; [done|]. intros Hid. guards.
  wp_step. apply wp_lease; [|done]. intros l g c [Hlv Hl Hg Hm Hc Hst Hrev Ht].
  wp_step. apply wp_fail_if; [done|]. intros Hsz. guards. wp_run. apply wp_commit; [done|].
  intros j n _ _ _. wp_run. exists l, g, c. simpl.
  apply grantMatches_spec in Hm as Hag. pose proof Hag as (_ & _ & _ & _ & _ & Hb & Hw).
  split_and!; try done.
  - destruct Hb as [Hb|Hb]; [|done]. by rewrite Hb in *.
  - destruct Hw as [Hw|Hw]; [|done]. by rewrite Hw in *.
  - eexists. split; [done|]. simpl. rename select (ev_Kind _ = _) into Hk. by rewrite Hk.
Qed.

(** A use is valid only while its lease still passes every check and it has not
    been cancelled. *)
Lemma use_Valid_false u b :
  leases b !! use_LeaseID u = None → (use_Valid u b).1 = Ok false.
Proof.
  intros Hn. assert (Hwp : wp (use_Valid u) (λ r _, r = Ok false) b).
  { unfold use_Valid. wp_step. apply wp_try, wp_lease.
    - intros l g c []. congruence.
    - intros e n Hn'. simpl. by wp_run. }
  unfold wp in Hwp. destruct (use_Valid u b). done.
Qed.

(** A use that reports itself valid holds a lease that passes every check
    now, has not been cancelled, is before its deadline and its caller is still
    there. *)
Theorem valid_use_sound u b b' :
  use_Valid u b = (Ok true, b') →
  ∃ l g c, lease_good b (use_Actor u) (use_LeaseID u) l g c ∧ (use_Op u ∉ cancelled b) ∧
    (w_now (tick b) < use_Deadline u)%Z.
Proof.
  intros Hrun. eapply (run_wp _ (λ r _, r = Ok true → _) _ _ _ Hrun); [|done]. clear Hrun.
  unfold use_Valid. wp_step. apply wp_try, wp_lease; [|intros; simpl; by wp_run].
  intros l g c Hg. simpl. unfold ctx_live. wp_run. simpl. intros [= Hb]. guards.
  exists l, g, c. split_and!; [done|done|]. eapply Z.le_lt_trans; [|eassumption]. apply w_now_mono. lia.
Qed.

(** ** Revocation *)

(** Only grants have changed, and only by being revoked. *)
Record only_revokes (b b' : B) : Prop := {
  or_credentials : credentials b' = credentials b;
  or_leases : leases b' = leases b;
  or_cancelled : cancelled b' = cancelled b;
  or_grants : ∀ k g', grants b' !! k = Some g' → ∃ g, grants b !! k = Some g ∧
    (g' = g ∨ g' = g_revoke g);
}.
Global Instance only_revokes_preorder : PreOrder only_revokes.
Proof.
  split.
  - intros b. constructor; eauto.
  - intros b1 b2 b3 [H1' H2' H3' H4'] [H5' H6' H7' H8']. constructor; [congruence..|].
    intros k g' Hk. destruct (H8' _ _ Hk) as (g2 & Hk2 & Hg2).
    destruct (H4' _ _ Hk2) as (g1 & Hk1 & Hg1). exists g1. split; [done|].
    destruct Hg2 as [->| ->], Hg1 as [->| ->]; auto.
Qed.

Definition no_active_grant (id k : string) (b : B) : Prop :=
  ∀ g, grants b !! k = Some g → g_CredentialID (g_View g) = id → g_Active (g_View g) = false.

Lemma only_revokes_keeps id k b b' :
  only_revokes b b' → no_active_grant id k b → no_active_grant id k b'.
Proof.
  intros [_ _ _ Hg] Hno g' Hk Hc. destruct (Hg _ _ Hk) as (g & Hk0 & [->| ->]); [by eapply Hno|done].
Qed.

Lemma wp_revoke_if_granted a id gid b :
  map_Forall (λ k g, g_ID (g_View g) = k) (grants b) →
  wp (revoke_if_granted a id gid)
    (λ r b', only_revokes b b' ∧ (r = Ok tt → no_active_grant id gid b')) b.
Proof.
  intros Hkeys. unfold revoke_if_granted. do 2 wp_step.
  destruct (grants b !! gid) as [g|] eqn:Hg; [|wp_run; split; [done|]; intros _ g' Hk; congruence].
  apply wp_if; intros Hc.
  { wp_run. split; [done|]. intros _ g' Hk Hcr. assert (g' = g) as -> by congruence.
    rewrite bool_decide_eq_true_2 in Hc by done. by apply negb_true_iff in Hc. }
  guards. pose proof (Hkeys _ _ Hg) as Hid. simpl in Hid. wp_run. apply wp_commit.
  { intros j _. split; [constructor; simpl; eauto|done]. }
  intros j n _ _ _. wp_run. split.
  - constructor; simpl; try done. rewrite Hid. intros k g' [[<- <-]|[_ Hk]]%lookup_insert_Some; eauto.
  - intros _ g' Hk Hcr. simpl in Hk. rewrite Hid, lookup_insert_eq in Hk. by simplify_eq.
Qed.

Lemma only_revokes_ids b b' :
  only_revokes b b' → map_Forall (λ k g, g_ID (g_View g) = k) (grants b) →
  map_Forall (λ k g, g_ID (g_View g) = k) (grants b').
Proof.
  intros [_ _ _ Hg] Hkeys k g' Hk. destruct (Hg _ _ Hk) as (g & Hk0 & [->| ->]); by apply (Hkeys _ _ Hk0).
Qed.

Lemma wp_revoke_all a id b :
  map_Forall (λ k g, g_ID (g_View g) = k) (grants b) →
  wp (revoke_credential_grants a id)
    (λ r b', only_revokes b b' ∧ (r = Ok tt → ∀ k, no_active_grant id k b')) b.
Proof.
  intros Hkeys. unfold revoke_credential_grants. wp_run. eapply wp_mono.
  - apply (wp_for_each_all only_revokes (λ gid b', no_active_grant id gid b')).
    + intros k b1 b2. apply only_revokes_keeps.
    + intros gid b1 _ Hor. apply wp_revoke_if_granted. by eapply only_revokes_ids.
  - intros r b' [Hor Hall]. split; [destruct Hor; by constructor|]. intros -> k g Hk Hc.
    destruct (or_grants _ _ Hor _ _ Hk) as (g0 & Hk0 & _).
    eapply Hall; [done| |exact Hk|exact Hc]. by eapply in_range_keys.
Qed.

(** The credential [id] is cut off in [b'] from what it had in [b]: no lease of
    it is left, and every use of one is cancelled and invalid. *)
Definition leases_cut (id : string) (b b' : Broker J MT PW) : Prop :=
  (∀ k l, leases b' !! k = Some l → l_CredentialID (lr_View l) ≠ id) ∧
  ∀ k l u, leases b !! k = Some l → l_CredentialID (lr_View l) = id → use_LeaseID u = k →
    lr_Active l ⊆ cancelled b' ∧ (use_Valid u b').1 = Ok false.

(** The credential is revoked at the revision after that of [c]. *)
Definition revoked_anew (id : string) (c : credentialRecord) (b' : Broker J MT PW) : Prop :=
  ∃ c', credentials b' !! id = Some c' ∧ cd_Status (c_View c') = "revoked" ∧
    cd_Revision (c_View c') = u64 (cd_Revision (c_View c) + 1) ∧
    cd_Revision (c_View c') ≠ cd_Revision (c_View c).

Lemma wp_RevokeCredential_live (s : @Sys J MT PW) a id c :
  reachable cfg s → credentials (sys_b s) !! id = Some c → managedBy a c = true →
  cd_Status (c_View c) ≠ "revoked" → cd_Status (c_View c) ≠ "deleted" →
  wp (RevokeCredential a id) (λ r b',
    (r = Err ErrUnavailable ∧ dur b' = dur (sys_b s) ∧ leases b' = leases (sys_b s)) ∨
    (revoked_anew id c b' ∧ leases_cut id (sys_b s) b' ∧
     (r = Ok tt → ∀ k g, grants b' !! k = Some g → g_CredentialID (g_View g) = id → g_Active (g_View g) = false)))
    (sys_b s).
Proof.
  intros Hr Hc Hman Hn1 Hn2. destruct (reachable_inv _ _ Hr) as [t HI]. set (b := sys_b s) in *. clearbody b.
  assert (Hkeys : map_Forall (λ k g, g_ID (g_View g) = k) (grants b)).
  { intros k g Hg. apply (go_id _ _ _ _ (gs_each _ (inv_grants _ _ _ HI) _ _ Hg)). }
  pose proof (co_id _ _ _ (inv_credentials _ _ _ HI _ _ Hc)) as Hid.
  pose proof (co_rev _ _ _ (inv_credentials _ _ _ HI _ _ Hc)) as Hrev.
  unfold RevokeCredential. do 2 wp_step. apply wp_bind, wp_some_or; [|congruence]. rewrite Hc. intros ? [= <-].
  apply wp_bind, wp_fail_if; [by rewrite Hman|]. intros _. rewrite !bool_decide_eq_false_2 by done. simpl.
  do 2 wp_step. wp_step. apply wp_commit; [by left|]. intros j n _ _ _.
  apply wp_bind, wp_invalidateCredential. intros b2 (Hq & Hcan & Hl). simpl in Hl.
  pose proof (qu_dur _ _ Hq) as Hd. unfold dur in Hd. injection Hd as _ _ _ Hcr Hgr _ _ _. simpl in Hcr, Hgr.
  rewrite Hid in Hcr.
  eapply wp_mono; [apply wp_revoke_all; by rewrite Hgr|].
  intros r b3 [Hor Hno]. right. destruct Hor as [Hc3 Hl3 Hcn3 _]. split_and!.
  - eexists. rewrite Hc3, Hcr, lookup_insert_eq. split; [done|]. simpl.
    split_and!; [done|done|]. by apply u64_succ_neq.
  - split.
    + rewrite Hl3, Hl. intros k l [_ Hne]%map_lookup_filter_Some. simpl in Hne. by guards.
    + intros k l u Hk Hcl <-. assert (Hn : leases b3 !! use_LeaseID u = None).
      { rewrite Hl3, Hl. apply map_lookup_filter_None. right. intros l' Hl'. simpl in *.
        assert (l' = l) as -> by congruence. by rewrite bool_decide_eq_true_2. }
      split; [|by apply use_Valid_false]. rewrite Hcn3. eapply Hcan; [exact Hk|]. by rewrite <-Hl3.
  - intros -> k g Hk Hcg. by eapply Hno.
Qed.

(** C16. What [RevokeCredential] does to a credential of the caller. For a
    credential that is neither revoked nor deleted: when the call returns nil,
    the credential is revoked at a new revision, none of its leases is left,
    every use of one is cancelled and invalid, and none of its grants is
    active; when it fails, nothing changed, or the credential is revoked and
    its leases are cut off all the same and only grants may still be active.
    For a credential that is already revoked or deleted the call returns nil
    and changes nothing: a revoked one has no lease, but a grant that a failed
    revocation left active stays active. *)
Theorem revoke_cuts_off (s : @Sys J MT PW) a id c r b' :
  reachable cfg s → credentials (sys_b s) !! id = Some c → managedBy a c = true →
  RevokeCredential a id (sys_b s) = (r, b') →
  (cd_Status (c_View c) ≠ "revoked" → cd_Status (c_View c) ≠ "deleted" →
     (r = Ok tt → revoked_anew id c b' ∧ leases_cut id (sys_b s) b' ∧
        ∀ k g, grants b' !! k = Some g → g_CredentialID (g_View g) = id → g_Active (g_View g) = false) ∧
     (∀ e, r = Err e → dur b' = dur (sys_b s) ∧ leases b' = leases (sys_b s) ∨
        revoked_anew id c b' ∧ leases_cut id (sys_b s) b')) ∧
  (cd_Status (c_View c) = "revoked" ∨ cd_Status (c_View c) = "deleted" →
     r = Ok tt ∧ b' = sys_b s ∧ (cd_Status (c_View c) = "revoked" → leases_cut id (sys_b s) b')).
Proof.
  intros Hr Hc Hman Hrun. split.
  - intros Hn1 Hn2. pose proof (run_wp _ _ _ _ _ Hrun (wp_RevokeCredential_live s a id c Hr Hc Hman Hn1 Hn2)) as Hpost.
    destruct Hpost as [(-> & Hd & Hl)|(Hrev & Hcut & Hg)]; split; try done; [by intros; left|intros ->; split; [exact Hrev|split; [exact Hcut|exact (Hg eq_refl)]]|intros; by right].
  - intros Hst. assert (r = Ok tt ∧ b' = sys_b s) as [-> ->].
    { revert Hrun. cbv [RevokeCredential mbind M_bind get some_or fail_if]. rewrite Hc. simpl. rewrite Hman.
      assert (((cd_Status (c_View c) == "revoked") || (cd_Status (c_View c) == "deleted")) = true) as ->.
      { destruct Hst as [-> | ->]; done. } by intros [= <- <-]. }
    split_and!; [done..|]. intros Hrv.
    assert (Hno : ∀ k l, leases (sys_b s) !! k = Some l → l_CredentialID (lr_View l) ≠ id).
    { intros k l Hl Hcl. destruct (reachable_inv _ _ Hr) as [t HI].
      destruct (ls_each _ _ (inv_leases _ _ _ HI) _ _ Hl) as [_ _ _ (c' & Hc' & Hs) _]. simpl in Hc'.
      rewrite Hcl, Hc in Hc'. injection Hc' as Hcc. rewrite Hcc in Hrv. destruct Hs as [[Hs _]|Hs]; unfold c_status in Hs; congruence. }
    split; [exact Hno|]. intros k l u Hl Hcl _. by destruct (Hno k l Hl).
Qed.

(** ** Lease terms *)

(** A lease is granted to the grantee of an active grant, for the current
    revision of an active credential, for at most five minutes, and is on the
    audit log before it is in the table. *)
Theorem acquire_terms a in_ b v b' :
  Acquire a in_ b = (Ok v, b') →
  ∃ g c, grants b !! al_GrantID in_ = Some g ∧ actor_is_grantee a g ∧
    credentials b !! g_CredentialID (g_View g) = Some c ∧ cd_Status (c_View c) = "active" ∧
    l_Revision v = cd_Revision (c_View c) ∧
    (w_now (tick b) + Second ≤ l_ExpiresAt v ≤ w_now (tick b') + 300 * Second)%Z ∧
    l_Deliveries v = ct_Deliveries (contract_of b (g_ContractKey g)) ∧
    l_State v = ct_State (contract_of b (g_ContractKey g)) ∧
    (∃ l, leases b' !! l_ID v = Some l ∧ lr_View l = v ∧ lr_Active l = ∅ ∧ lr_Materialized l = None) ∧
    (∀ k l, leases b' !! k = Some l → k = l_ID v ∨ leases b !! k = Some l) ∧
    ∃ e, events b' = (events b ++ [e])%list ∧ ev_Kind e = "lease.acquired" ∧ ev_LeaseID e = l_ID v.
Proof.
  intros Hrun. by_wp Hrun. unfold Acquire. wp_run; [done|].
  apply wp_sweepLocked. intros b1 (Hq & _ & Hsub). destruct Hq as [Hd _ _ Ht _].
  unfold dur in Hd. injection Hd as Hcat _ _ Hcr Hgr _ _ Hev.
  wp_run; try done. guards. apply wp_commit; [done|]. intros j n _ _ _. wp_run. simpl.
  rename select (grants b1 !! _ = Some _) into Hg. rename select (credentials b1 !! _ = Some _) into Hc.
  rename select (grantMatches _ _ = true) into Hm.
  eexists _, _. rewrite <-Hgr, <-Hcr. unfold contract_of. rewrite <-Hcat. split; [exact Hg|].
  split; [by apply grantMatches_spec|]. split_and!; try done.
  - assert (w_now (tick b) ≤ w_now (S (tick b1)))%Z by (apply w_now_mono; lia).
    unfold Second in *. destruct (al_TTLSeconds in_ =? 0)%Z; lia.
  - assert (w_now (S (tick b1)) ≤ w_now (S (S (S (tick b1)))))%Z by (apply w_now_mono; lia).
    unfold Second in *. destruct (al_TTLSeconds in_ =? 0)%Z; lia.
  - eexists. by rewrite lookup_insert_eq.
  - intros k l [[<- _]|[_ Hk]]%lookup_insert_Some; [by left|right]. by eapply lookup_weaken.
  - eexists. rewrite Hev. split; [done|]. simpl. by rename select (ev_Kind _ = _) into Hk.
Qed.

(** Renewing never shortens a lease and never runs past five minutes from
    now; nothing else of the lease, and no other lease, changes. *)
Theorem renew_terms a id seconds b v b' :
  Renew a id seconds b = (Ok v, b') →
  ∃ l g c, lease_good b a id l g c ∧ v = l_with_expiry (l_ExpiresAt v) (lr_View l) ∧
    (l_ExpiresAt (lr_View l) ≤ l_ExpiresAt v ≤ w_now (tick b') + 300 * Second)%Z ∧
    leases b' = <[id := lr_renewed (l_ExpiresAt v) l]> (leases b) ∧
    grants b' = grants b ∧ credentials b' = credentials b.
Proof.
  intros Hrun. by_wp Hrun. unfold Renew. wp_step. apply wp_lease; [|done].
  intros l g c Hg. wp_run; try done. guards. apply wp_commit; [done|]. intros j n _ _ _. wp_run. simpl.
  exists l, g, c. split_and!; try done.
  assert (w_now (S (tick b)) ≤ w_now (S (S (S (tick b)))))%Z by (apply w_now_mono; lia).
  unfold Second in *. lia.
Qed.

(** ** Ownership *)

(** C19. What an actor does not own looks missing to it and cannot be changed
    by it: reading, cancelling, approving or submitting someone else's request,
    reading, granting or revoking someone else's credential, and reading or
    revoking someone else's grant all answer [ErrNotFound] and leave the broker
    as it was, exactly as for an id that does not exist. *)
Theorem foreign_ids_look_missing a id b code values in_ :
  live b = true →
  ((∀ r, requests b !! id = Some r → requestBy a r = false) →
    GetRequest a id b = (Err ErrNotFound, b) ∧ CancelRequest a id b = (Err ErrNotFound, b) ∧
    Approve a id code b = (Err ErrNotFound, b) ∧ SubmitTelegram a id values b = (Err ErrNotFound, b)) ∧
  ((∀ c, credentials b !! id = Some c → managedBy a c = false) →
    GetCredential a id b = (Err ErrNotFound, b) ∧ RevokeCredential a id b = (Err ErrNotFound, b) ∧
    CreateGrant a id in_ b = (Err ErrNotFound, b)) ∧
  ((∀ g c, grants b !! id = Some g → credentials b !! g_CredentialID (g_View g) = Some c →
      managedBy a c = false) →
    GetGrant a id b = (Err ErrNotFound, b) ∧ RevokeGrant a id b = (Err ErrNotFound, b)).
Proof.
  intros Hlive. split_and!.
  - intros Hr. unfold GetRequest, CancelRequest, Approve, SubmitTelegram.
    unfold mbind, M_bind, get, fail_if, some_or. rewrite Hlive. cbn beta iota delta [negb mthrow_err].
    destruct (requests b !! id) as [r|]; [|done]. cbn beta iota delta [mret M_ret]. by rewrite (Hr r eq_refl).
  - intros Hc. unfold GetCredential, RevokeCredential, CreateGrant.
    unfold mbind, M_bind, get, fail_if, some_or. rewrite Hlive. cbn beta iota delta [negb mthrow_err].
    destruct (credentials b !! id) as [c|]; [|done]. cbn beta iota delta [mret M_ret]. by rewrite (Hc c eq_refl).
  - intros Hg. unfold GetGrant, RevokeGrant.
    unfold mbind, M_bind, get, fail_if, some_or. rewrite Hlive. cbn beta iota delta [negb mthrow_err].
    destruct (grants b !! id) as [g|]; [|done]. cbn beta iota delta [mret M_ret].
    destruct (credentials b !! g_CredentialID (g_View g)) as [c|] eqn:Hc; [|done].
    cbn beta iota delta [mret M_ret]. by rewrite (Hg g c eq_refl Hc).
Qed.

(** A closed broker, or one whose journal is damaged, fails closed: every
    operation that grants, uses or changes something answers [ErrUnavailable]
    and leaves the broker as it was. *)
Theorem closed_broker_refuses b :
  live b = false →
  (∀ m, commit m b = (Err ErrUnavailable, b)) ∧
  (∀ a in_, CreateRequest cfg a in_ b = (Err ErrUnavailable, b)) ∧
  (∀ id raw, OpenSession cfg id raw b = (Err ErrUnavailable, b)) ∧
  (∀ id raw csrf values demoted, Submit cfg id raw csrf values demoted b = (Err ErrUnavailable, b)) ∧
  (∀ a c, RegisterContract cfg a c b = (Err ErrUnavailable, b)) ∧
  (∀ a id in_, CreateGrant a id in_ b = (Err ErrUnavailable, b)) ∧
  (∀ a in_, Acquire a in_ b = (Err ErrUnavailable, b)) ∧
  (∀ a id, InspectLease a id b = (Err ErrUnavailable, b)) ∧
  (∀ a id n, Renew a id n b = (Err ErrUnavailable, b)) ∧
  (∀ a id, ValidID (a_BindingID a) = true → ValidID (a_WorkloadID a) = true →
     BeginUse a id b = (Err ErrUnavailable, b)) ∧
  (∀ u, (use_Valid u b).1 = Ok false) ∧
  (∀ a id in_, Release a id in_ b = (Err ErrUnavailable, b)) ∧
  (∀ id raw csrf, StartOAuth cfg id raw csrf b = (Err ErrUnavailable, b)).
Proof.
  intros Hlive.
  assert (Hlease : ∀ a id, lease a id b = (Err ErrUnavailable, b)).
  { intros a id. unfold lease, mbind, M_bind, get, fail_if. by rewrite Hlive. }
  split_and!; intros; unfold commit, CreateRequest, OpenSession, Submit, RegisterContract, CreateGrant,
    Acquire, InspectLease, Renew, BeginUse, use_Valid, Release, StartOAuth, try,
    mbind, M_bind, get, fail_if; rewrite ?Hlease, ?Hlive; try done.
  rename select (ValidID (a_BindingID a) = true) into Hb. rename select (ValidID (a_WorkloadID a) = true) into Hw.
  rewrite Hb, Hw. cbn beta iota delta [negb orb mret M_ret]. by rewrite Hlease.
Qed.

(** ** The audit feed *)

(** Whether [a] may see an event. *)
Definition visible (a : Actor) (e : Event) : bool :=
  (ev_Kind e == "broker.started")
  || ((ev_ContextID e == a_ContextID a)
      && ((ev_PrincipalID e == a_PrincipalID a) || a_ContextManager a)).

Definition page_limit (limit : Z) : Z := if (limit <? 1)%Z || (100 <? limit)%Z then 100%Z else limit.

Lemma events_loop_spec a after limit l out :
  (Z.of_nat (List.length (es_Events out)) < limit)%Z →
  ∃ l1 l2, filter (λ e, (after < ev_Sequence e)%Z) l = (l1 ++ l2)%list ∧
    es_Events (events_loop a after limit out l) = (es_Events out ++ filter (λ e, visible a e = true) l1)%list ∧
    es_NextCursor (events_loop a after limit out l) =
      default (es_NextCursor out) (ev_Sequence <$> last l1) ∧
    (Z.of_nat (List.length (es_Events (events_loop a after limit out l))) ≤ limit)%Z ∧
    (l2 = [] ∨ Z.of_nat (List.length (es_Events (events_loop a after limit out l))) = limit).
Proof.
  revert out. induction l as [|e l IH]; intros out Hlen; simpl.
  { exists [], []. split_and!; [done|by rewrite app_nil_r|done|lia|by left]. }
  destruct (ev_Sequence e <=? after)%Z eqn:Hle; guards.
  { rewrite filter_cons_False by lia. by apply IH. }
  rewrite filter_cons_True by lia. change (_ || _ && _) with (visible a e).
  set (out' := mkEvents _ _).
  assert (Hout : es_Events out' = (es_Events out ++ filter (λ e, visible a e = true) [e])%list).
  { simpl. rewrite filter_cons. destruct (visible a e); case_decide; try done. by rewrite app_nil_r. }
  assert (Hlen' : (Z.of_nat (List.length (es_Events out')) ≤ limit)%Z).
  { simpl. destruct (visible a e); [rewrite length_app; simpl|]; lia. }
  destruct (limit <=? _)%Z eqn:Hfull; guards.
  - exists [e], (filter (λ e, (after < ev_Sequence e)%Z) l). split_and!; [done|done|done|done|].
    right. apply Z.le_antisymm; done.
  - destruct (IH out' Hfull) as (l1 & l2 & Hf & He & Hn & Hl & Hstop).
    exists (e :: l1), l2. split_and!; [by rewrite Hf| | |done|done].
    + rewrite He, Hout, <-app_assoc. f_equal. rewrite !filter_cons, filter_nil. by case_decide.
    + rewrite Hn. destruct l1 as [|x l1]; [done|]. rewrite last_cons_cons.
      destruct (last (x :: l1)) eqn:E; [done|]. by apply last_None in E.
Qed.

(** The audit feed pages without loss: a page is the caller's visible part
    of a run of events right after the cursor, the next cursor is the last event
    of the run, and the run stops before the end of the log only when the page
    is full; nobody sees events of another context, and only a manager sees
    those of another principal. *)
Theorem events_page a after limit b :
  ∃ out l1 l2, GetEvents a after limit b = (Ok out, b) ∧
    filter (λ e, (after < ev_Sequence e)%Z) (events b) = (l1 ++ l2)%list ∧
    es_Events out = filter (λ e, visible a e = true) l1 ∧
    es_NextCursor out = default after (ev_Sequence <$> last l1) ∧
    (Z.of_nat (List.length (es_Events out)) ≤ page_limit limit ≤ 100)%Z ∧
    (l2 = [] ∨ Z.of_nat (List.length (es_Events out)) = page_limit limit).
Proof.
  assert (Hlim : (1 ≤ page_limit limit ≤ 100)%Z).
  { unfold page_limit. destruct (_ || _) eqn:Hx; guards; lia. }
  destruct (events_loop_spec a after (page_limit limit) (events b) (mkEvents [] after))
    as (l1 & l2 & Hf & He & Hn & Hl & Hstop); [simpl; lia|].
  eexists _, l1, l2. split; [done|]. split_and!; try done. lia.
Qed.
End Operations.
