(* ===== verification/BrokerSecrets.v ===== *)
(** Where secrets go: deletion of stored versions, what reaches a workload, and
    the OAuth exchange. *)
From stdpp Require Import base gmap strings list relations pretty.
From Stdlib Require Import Ascii String.
From S2P Require Import Prelude GoStrings BrokerIdentity Contract BrokerTypes BrokerCore Enrollment Grants BrokerRuntime BrokerSpec BrokerInv BrokerSim BrokerRefine BrokerSystem BrokerOps.
Local Open Scope string_scope.

Section Secrets.
Context {J MT PW : Type} `{World} `{!MonotoneClock} `{Digests} `{Codecs} `{Unicode}.
Context `{JournalOps J} `{Materializer MT} `{Providers PW} `{TokenEndpoint PW}.
Variable cfg : Config.

Abbreviation B := (Broker J MT PW).
Abbreviation BM := (M (Broker J MT PW) BErr).
Implicit Types b : B.

(** ** Deletion *)

(** Every version of the list is deleted, in order, by a provider that can. *)
Inductive deletes : PW → list Ref → PW → Prop :=
  | del_nil w : deletes w [] w
  | del_cons w w1 w2 ref refs caps : pv_caps (ref_Provider ref) = Some caps → cap_Delete caps = true →
      pv_delete w (ref_Provider ref) ref = (w1, true) → deletes w1 refs w2 →
      deletes w (ref :: refs) w2.

Lemma delete_owned_refs_deletes refs (Q : res BErr unit → B → Prop) b :
  (∀ w, deletes (prov b) refs w → Q (Ok tt) (set_prov w b)) →
  (∀ e w, Q (Err e) (set_prov w b)) →
  wp (delete_owned_refs refs) Q b.
Proof.
  unfold delete_owned_refs. revert b. induction refs as [|ref refs IH]; intros b HQ Herr; simpl.
  { apply wp_ret. specialize (HQ (prov b) (del_nil _)). by destruct b. }
  wp_step. wp_step. apply wp_fail_if.
  { intros _. specialize (Herr ErrUnavailable (prov b)). by destruct b. }
  intros Hcap. unfold provider_delete. do 3 wp_step.
  destruct (pv_delete (prov b) (ref_Provider ref) ref) as [w ok] eqn:Hdel. do 3 wp_step.
  apply wp_fail_if; [intros _; apply Herr|]. intros Hok. guards. subst ok.
  destruct (pv_caps (ref_Provider ref)) as [caps|] eqn:Hc; [|done]. guards. apply IH.
  - intros w' Hw'. simpl in Hw'. apply (HQ w'). by econstructor.
  - intros e w'. apply (Herr e w').
Qed.

(** C22. A credential is marked deleted only after every version it ever owned
    has been deleted from its provider; when any deletion fails it is kept, so
    the deletion can be retried. *)
Theorem delete_purges (s : @Sys J MT PW) a id c r b' :
  reachable cfg s → credentials (sys_b s) !! id = Some c → cd_Status (c_View c) ≠ "deleted" →
  delete_revoked a id (sys_b s) = (r, b') →
  match r with
  | Ok _ => (∃ w, deletes (prov (sys_b s)) (c_OwnedRefs c) w) ∧
      ∃ c', credentials b' !! id = Some c' ∧ cd_Status (c_View c') = "deleted"
  | Err _ => credentials b' !! id = Some c
  end.
Proof.
  intros Hr Hc Hst Hrun. destruct (reachable_inv _ _ Hr) as [t HI].
  pose proof (co_id _ _ _ (inv_credentials _ _ _ HI _ _ Hc)) as Hid.
  set (b := sys_b s) in *. clearbody b. clear Hr HI.
  pattern r, b'. lazymatch goal with |- ?P r b' => apply (run_wp _ P _ _ _ Hrun) end. clear Hrun.
  unfold delete_revoked. do 2 wp_step. rewrite Hc. rewrite bool_decide_eq_false_2 by done.
  wp_step. apply delete_owned_refs_deletes; [|done]. intros w Hw.
  wp_step. apply wp_delete_states. intros [[]|e] w' n Hn; [|done]. wp_run. apply wp_commit; [done|].
  intros j m _ _ _. wp_run. split; [by exists w|]. simpl. rewrite Hid, lookup_insert_eq. by eexists.
Qed.

(** ** What reaches a workload *)

(** A bundle fit for delivery: without the broker's own keys, and valid. *)
Definition deliverable (c : Contract) (values : Bundle) : Prop :=
  ValidateValues c values = true ∧ ∀ k, reserved_key k = true → values !! k = None.

Lemma without_reserved_spec v k : reserved_key k = true → without_reserved v !! k = None.
Proof.
  intros Hk. apply map_lookup_filter_None. right. intros x _. simpl. congruence.
Qed.

Lemma wp_use_Valid u (Q : res BErr bool → B → Prop) b :
  (∀ v n, (tick b ≤ n)%nat → Q (Ok v) (set_tick n b)) → wp (use_Valid u) Q b.
Proof.
  intros HQ. unfold use_Valid, ctx_live. wp_step. apply wp_try, wp_lease.
  - intros l g c _. simpl. wp_run. apply HQ. simpl. lia.
  - intros e n Hn. simpl. wp_run. by apply HQ.
Qed.

Lemma wp_Resolve u (Q : res BErr Bundle → B → Prop) b :
  (∀ v b', ValidateValues (use_Contract u) (without_reserved v) = true → Q (Ok v) b') →
  (∀ e b', Q (Err e) b') → wp (Resolve u) Q b.
Proof.
  intros HQ Herr. unfold Resolve. wp_step. apply wp_use_Valid. intros v1 n1 _. wp_run; try apply Herr.
  guards. apply wp_use_Valid. intros v2 n2 _. wp_run; [apply Herr|]. by apply HQ.
Qed.

(** What a workload gets is what its contract declares: a materialization
    is an earlier one, or comes from a bundle that passed the contract's
    validation and has none of the broker's reserved keys (OAuth tokens). *)
Theorem materialization_deliverable a id u b m b' :
  materialize_body a id u b = (Ok m, b') →
  (∃ l b0, leases b0 !! id = Some l ∧ lr_Materialized l = Some m) ∨
  ∃ mt expires values state mt', deliverable (use_Contract u) values ∧
    mat_prepare mt id expires (use_Contract u) values state = (mt', Some m).
Proof.
  intros Hrun. pattern m. lazymatch goal with |- ?P m =>
    apply (run_wp _ (λ r _, match r with Ok x => P x | Err _ => True end) _ _ _ Hrun) end. clear Hrun.
  unfold materialize_body. wp_step. unfold materialize_look. wp_step. apply wp_lease; [|done].
  intros l g c Hl. cbn beta iota. simpl. destruct (lr_Materialized l) as [m0|] eqn:Hm.
  { wp_run. left. exists l, b. split; [apply (lg_lease _ _ _ _ _ _ Hl)|done]. }
  wp_run. apply wp_Resolve; [|done]. intros v b1 Hv. cbn beta iota.
  assert (Hfin : ∀ b state expires, wp (materialize_finish a id u expires (without_reserved v) state)
    (λ r _, match r with Ok x =>
      (∃ l b0, leases (b0 : B) !! id = Some l ∧ lr_Materialized l = Some x) ∨
      ∃ mt expires values state mt', deliverable (use_Contract u) values ∧
        mat_prepare mt id expires (use_Contract u) values state = (mt', Some x)
      | Err _ => True end) b).
  { clear b b1 Hl l g c Hm. intros b state expires. unfold materialize_finish. wp_step. apply wp_lease; [|done].
    intros l g c Hl. cbn beta iota. simpl. destruct (lr_Materialized l) as [m0|] eqn:Hm.
    { wp_run. left. exists l, b. split; [apply (lg_lease _ _ _ _ _ _ Hl)|done]. }
    wp_run; try done. apply wp_try, wp_commit; [intros; by wp_run|]. intros j n _ _ _. unfold update_lease. wp_run. subst.
    right. eexists _, _, _, _, _. split; [|exact Heqp]. split; [done|]. intros k. apply without_reserved_spec. }
  wp_run; try done; apply Hfin.
Qed.

(** ** OAuth *)

(** The keys of the tokens are reserved ones. *)
Lemma merge_reserved v t at_ : without_reserved (mergeTokens v t at_) = without_reserved v.
Proof.
  apply map_eq. intros k. apply option_eq. intros x. unfold without_reserved.
  rewrite !map_lookup_filter_Some. simpl.
  assert (Heq : reserved_key k = false → mergeTokens v t at_ !! k = v !! k).
  { intros Hr. assert (k ≠ oauthAccess ∧ k ≠ oauthExpiry ∧ k ≠ oauthRefresh) as (Hn1 & Hn2 & Hn3).
    { split_and!; intros ->; by vm_compute in Hr. }
    unfold mergeTokens. destruct (tk_Refresh t != ""); rewrite !lookup_insert_ne; done. }
  split; intros [Hl Hr]; (split; [|done]); [rewrite <-(Heq Hr)|rewrite (Heq Hr)]; exact Hl.
Qed.

(** The authorization request cannot be overridden by configuration: with a
    provider that passed [Validate], it is a code request with the broker's own
    client, redirect, scopes, state and S256 challenge. *)
Theorem authorization_request_fixed p state verifier :
  OAuth_Validate p = true →
  let q := authorization_query p state verifier in
  q !! "response_type" = Some "code" ∧ q !! "client_id" = Some (op_ClientID p) ∧
  q !! "redirect_uri" = Some (op_RedirectURL p) ∧ q !! "state" = Some state ∧
  q !! "scope" = Some (String.concat " " (op_Scopes p)) ∧
  q !! "code_challenge" = Some (te_s256 verifier) ∧ q !! "code_challenge_method" = Some "S256".
Proof.
  unfold OAuth_Validate. intros Hv.
  assert (Hp : map_forallb (λ k v,
         negb (negb (str_in ["access_type"; "prompt"; "response_mode"] k)
               || ContainsAny v crlfnul || (80 <? len v)%Z)
         && negb ((k == "response_mode") && (v != "query"))) (op_AuthorizeParameters p) = true).
  { repeat match type of Hv with (if ?c then _ else _) = true => destruct c; [done|] end. done. }
  rewrite map_forallb_spec in Hp.
  assert (Hno : ∀ k, str_in ["access_type"; "prompt"; "response_mode"] k = false →
    op_AuthorizeParameters p !! k = None).
  { intros k Hk. apply eq_None_not_Some. intros [v Hl]. specialize (Hp k v Hl). cbn beta in Hp.
    apply andb_true_iff in Hp as [Hp _]. apply negb_true_iff in Hp. rewrite !orb_false_iff in Hp.
    destruct Hp as [[Hp _] _]. apply negb_false_iff in Hp. congruence. }
  simpl. unfold authorization_query.
  split_and!; rewrite lookup_union_r by (by apply Hno); by simplify_map_eq.
Qed.

(** An OAuth state works once: after a callback has claimed it, a second
    callback with the same state is refused, whatever else it carries. *)
Theorem oauth_state_once (s : @Sys J MT PW) raw state code x b' raw' code' :
  reachable cfg s → oauth_begin cfg raw state code (sys_b s) = (Ok x, b') →
  (oauth_begin cfg raw' state code' b').1 = Err ErrDenied ∨
  (oauth_begin cfg raw' state code' b').1 = Err ErrUnavailable.
Proof.
  intros Hr Hrun. destruct (reachable_inv _ _ Hr) as [t HI].
  assert (Hcons : ∃ o, oauth b' !! Digest state = Some o ∧ o_Consumed o = true).
  { pattern b'. lazymatch goal with |- ?P b' =>
      apply (run_wp _ (λ r s, match r with Ok _ => P s | Err _ => True end) _ _ _ Hrun) end. clear Hrun.
    unfold oauth_begin. wp_run; try done. apply wp_validSession. intros sn v n _ _. wp_run.
    destruct v as [r|e]; wp_run; try done. apply wp_commit; [done|]. intros j m _ _ _. wp_run. simpl.
    rename select (oauth _ !! _ = Some _) into Ho.
    pose proof (inv_oauth _ _ _ HI _ _ Ho) as Hk. simpl in Hk. rewrite Hk, lookup_insert_eq. by eexists. }
  destruct Hcons as (o & Ho & Hc).
  assert (Hwp : wp (oauth_begin cfg raw' state code') (λ r _, r = Err ErrDenied ∨ r = Err ErrUnavailable) b').
  { unfold oauth_begin. apply wp_bind, wp_fail_if; [by left|intros _]. do 2 wp_step.
    apply wp_bind, wp_fail_if; [by right|intros _]. apply wp_bind, wp_some_or; [|by left].
    rewrite Ho. intros ? [= <-]. apply wp_bind, wp_fail_if; [by left|]. by rewrite Hc. }
  unfold wp in Hwp. by destruct (oauth_begin cfg raw' state code' b').
Qed.

(** Tokens are taken over only within bounds: a non-empty bearer token of at
    most 16 KiB without line breaks, a lifetime of one second to one day, and,
    when the server names the granted scopes, all the requested ones. *)
Theorem tokens_bounded p r t :
  tokens_of_response p r = Ok t →
  tr_Status r = 200%Z ∧ tk_Access t ≠ "" ∧ (len (tk_Access t) ≤ 16384)%Z ∧
  (len (tk_Refresh t) ≤ 16384)%Z ∧ (1 ≤ tk_ExpiresIn t ≤ 86400)%Z ∧
  ContainsAny (tk_Access t ++ tk_Refresh t) crlfnul = false ∧
  ∃ doc, te_decode (tr_Body r) = Some doc ∧
    (td_Scope doc ≠ "" → ∀ want, want ∈ op_Scopes p → want ∈ Fields (td_Scope doc)).
Proof.
  unfold tokens_of_response. intros Ht.
  destruct (negb (tr_Status r =? 200)%Z) eqn:Hs; [by destruct (_ || _)|].
  match type of Ht with (if ?c then _ else _) = _ => destruct c; [done|] end.
  destruct (te_decode (tr_Body r)) as [doc|] eqn:Hd; [|done].
  match type of Ht with (if ?c then _ else _) = _ => destruct c eqn:Hc; [done|] end.
  destruct (ParseInt _) as [n|]; [|done].
  destruct ((n <? 1)%Z || (86400 <? n)%Z) eqn:Hn; [done|].
  destruct ((td_Scope doc != "") && _) eqn:Hsc; [done|]. injection Ht as <-. simpl. guards.
  split_and!; try done; try lia. exists doc. split; [done|]. intros Hne want Hw.
  rewrite bool_decide_eq_false_2 in Hsc by done. simpl in Hsc. apply negb_false_iff in Hsc.
  rewrite forallb_forall in Hsc. apply str_in_elem, Hsc. by apply list_elem_of_In.
Qed.
End Secrets.
