(* ===== verification/BrokerWitness.v ===== *)
(** The theorems about the broker, at states of the run of BrokerExample.v where
    their hypotheses hold. *)
From stdpp Require Import base gmap strings list relations pretty.
From Stdlib Require Import Ascii String.
From S2P Require Import Prelude GoStrings BrokerIdentity Contract BrokerTypes BrokerCore Enrollment Grants BrokerRuntime BrokerSpec BrokerInv BrokerSim BrokerRefine BrokerSystem BrokerExample BrokerProps BrokerOps BrokerSecrets.
Local Open Scope string_scope.
Import Example.

Ltac run := vm_compute; reflexivity.

Lemma broker_refines_spec_witness :
  ∃ t t', rtc (cstep (cf_DirectForm cfg)) (core t r_used.2) (core t' r_revoked.2).
Proof.
  destruct (broker_refines_spec cfg _ _ reach_used (rtc_once _ _ step_revoked)) as (t & t' & H & _).
  exists t, t'. exact H.
Defined.

Lemma lease_backed_witness : ∃ l g, leases r_leased.2 !! lease_id = Some l ∧
  grants r_leased.2 !! l_GrantID (lr_View l) = Some g ∧ g_Active (g_View g) = true.
Proof.
  destruct (found (leases r_leased.2) lease_id ltac:(run)) as [l Hl].
  destruct (lease_backed cfg _ _ _ reach_leased Hl) as (_ & (g & Hg & Ha & _) & _).
  exists l, g. exact (conj Hl (conj Hg Ha)).
Defined.

Lemma one_credential_per_slot_witness : ∃ c, credentials r_used.2 !! credential_id = Some c ∧
  cd_Status (c_View c) = "active" ∧ credential_id = credential_id.
Proof.
  destruct (found_with (λ c, cd_Status (c_View c)) (credentials r_used.2) credential_id "active" ltac:(run)) as (c & Hc & Ha).
  exists c. split; [exact Hc|]. split; [exact Ha|].
  assert (cd_Status (c_View c) ≠ "deleted") as Hd by (rewrite Ha; discriminate).
  exact (one_credential_per_slot cfg _ _ _ _ _ reach_used Hc Hc eq_refl eq_refl eq_refl Hd Hd).
Defined.

Lemma grants_exclusive_witness : ∃ g g', grants r_granted2.2 !! grant_id = Some g ∧
  grants r_granted2.2 !! grant_id2 = Some g' ∧
  ¬ (g_BindingID (g_View g) = g_BindingID (g_View g') ∧ g_ContextID (g_View g) = g_ContextID (g_View g') ∧
     g_PrincipalID (g_View g) = g_PrincipalID (g_View g')).
Proof.
  destruct (found_with (λ g, g_Active (g_View g)) (grants r_granted2.2) grant_id true ltac:(run)) as (g & Hg & Ha).
  destruct (found_with (λ g, g_Active (g_View g)) (grants r_granted2.2) grant_id2 true ltac:(run)) as (g' & Hg' & Ha').
  assert (grant_id ≠ grant_id2) as Hne by (vm_compute; discriminate).
  destruct (grants_exclusive cfg _ _ _ _ _ reach_granted2 Hg Hg' Hne Ha Ha') as [H _].
  exists g, g'. exact (conj Hg (conj Hg' H)).
Defined.

Lemma grants_isolated_witness : ∃ g c, grants r_granted.2 !! grant_id = Some g ∧
  credentials r_granted.2 !! g_CredentialID (g_View g) = Some c ∧
  g_ContextID (g_View g) = cd_ContextID (c_View c).
Proof.
  destruct (found (grants r_granted.2) grant_id ltac:(run)) as [g Hg].
  destruct (grants_isolated cfg _ _ _ reach_granted Hg) as (_ & c & Hc & Hx & _).
  exists g, c. exact (conj Hg (conj Hc Hx)).
Defined.

(** The only session of the run, once approved. *)
Definition session_key : string := match map_to_list (sessions r_approved.2) with (k, _) :: _ => k | [] => "" end.

Lemma one_approved_session_witness : ∃ x, sessions r_approved.2 !! session_key = Some x ∧
  (s_Approved x, s_Consumed x) = (true, false) ∧ session_key = session_key.
Proof.
  destruct (found_with (λ x, (s_Approved x, s_Consumed x)) (sessions r_approved.2) session_key (true, false) ltac:(run))
    as (x & Hx & E).
  exists x. split; [exact Hx|]. split; [exact E|]. injection E as Ha Hc.
  exact (one_approved_session cfg _ _ _ _ _ reach_approved eq_refl Hx Hx eq_refl Ha Ha Hc Hc).
Defined.

Lemma tables_bounded_witness : (Z.of_nat (size (leases r_used.2)) ≤ 4096)%Z.
Proof. destruct (tables_bounded cfg _ reach_used) as (_ & _ & _ & H & _). exact H. Defined.

Lemma state_lease_exclusive_witness : ∃ l, leases r_used.2 !! lease_id = Some l ∧
  lr_StateKey l = "c17/home/gh-binding" ∧ lease_id = lease_id.
Proof.
  destruct (found_with lr_StateKey (leases r_used.2) lease_id "c17/home/gh-binding" ltac:(run)) as (l & Hl & E).
  exists l. split; [exact Hl|]. split; [exact E|].
  assert (lr_StateKey l ≠ "") as Hk by (rewrite E; discriminate).
  exact (state_lease_exclusive cfg _ _ _ _ _ reach_used Hl Hl eq_refl Hk).
Defined.

Lemma journal_determines_state_witness :
  replay (durable0 (catalog0 cfg)) (jr_records (jrn r_used.2)) = Some (dur r_used.2).
Proof. exact (journal_determines_state cfg _ reach_used). Defined.

(** The open journal in memory takes whatever a start writes. *)
Lemma mem_takes d k recs : takes d k (mkMem recs true []).
Proof. revert recs. induction k as [|k IH]; intros recs; simpl; [done|]. intros m _. eexists _, _. split; [reflexivity|apply IH]. Qed.

Lemma restart_recovers_witness : ∃ b',
  New cfg (blank (jrn r_used.2) tt (prov r_used.2) (tick r_used.2)) = (Ok tt, b') ∧ tables_back (dur r_used.2) b'.
Proof.
  destruct (restart_recovers cfg (mkSys r_used.2 []) (jrn r_used.2) tt (prov r_used.2) (tick r_used.2)
    reach_used eq_refl (le_n _)) as [Hok _].
  apply Hok. assert ((mem_open (jrn r_used.2), mem_plan (jrn r_used.2)) = (true, [])) as Ho by run.
  destruct (jrn r_used.2) as [recs o plan]. injection Ho as -> ->. apply mem_takes.
Defined.

Lemma audit_complete_witness :
  List.length (events r_used.2) = List.length (jr_records (jrn r_used.2)).
Proof. destruct (audit_complete cfg _ reach_used) as (_ & H & _). exact H. Defined.

Lemma history_final_witness : events r_used.2 `prefix_of` events r_revoked.2.
Proof.
  destruct (history_final cfg _ _ reach_used (rtc_once _ _ step_revoked)) as (_ & _ & _ & _ & H & _). exact H.
Defined.

Lemma create_request_idempotent_witness : ∃ v,
  CreateRequest cfg owner request r_created.2 = (Ok v, set_tick (S (tick r_created.2)) r_created.2).
Proof.
  assert (live r_created.2 = true) as Hl by run. destruct ran_created as [v H]. exists v.
  exact (create_request_idempotent cfg (mkSys b_started []) _ _ _ _ reach_started H Hl).
Defined.

Lemma use_authorized_witness : ∃ u l, BeginUse owner lease_id r_leased.2 = (Ok u, r_used.2) ∧
  leases r_leased.2 !! lease_id = Some l ∧ use_LeaseID u = lease_id.
Proof.
  destruct ran_used as [u H]. destruct (use_authorized _ _ _ _ _ H)
    as (l & g & c & Hl & _ & _ & _ & _ & _ & _ & _ & _ & _ & _ & Hid & _).
  exists u, l. exact (conj H (conj Hl Hid)).
Defined.

Lemma revoke_cuts_off_witness : ∃ c', credentials r_revoked.2 !! credential_id = Some c' ∧
  cd_Status (c_View c') = "revoked".
Proof.
  destruct (found_with (λ c, (cd_Status (c_View c), managedBy owner c)) (credentials r_used.2) credential_id
    ("active", true) ltac:(run)) as (c & Hc & [= Ha Hm]).
  assert (cd_Status (c_View c) ≠ "revoked") as H1 by (rewrite Ha; discriminate).
  assert (cd_Status (c_View c) ≠ "deleted") as H2 by (rewrite Ha; discriminate).
  destruct (revoke_cuts_off cfg (mkSys r_used.2 []) _ _ _ _ _ reach_used Hc Hm ran_revoked) as [Hlive _].
  destruct (proj1 (Hlive H1 H2) eq_refl) as ((c' & Hc' & Hs & _) & _).
  exists c'. exact (conj Hc' Hs).
Defined.

(** ** A revocation that fails half way *)

(** The broker starts on the journal of the run, and the journal will refuse the
    third record: the start and the revocation of the credential are written,
    the revocation of its grant is not. *)
Definition j_flaky : MemJournal := mkMem (mem_records (jrn r_used.2)) true [true; true; false].
Definition r_again : res BErr unit * EB := New cfg (blank j_flaky tt (prov r_used.2) (tick r_used.2)).
Definition r_half : res BErr unit * EB := RevokeCredential owner credential_id r_again.2.
Definition r_retry : res BErr unit * EB := RevokeCredential owner credential_id r_half.2.

Lemma planned_records j plan : jr_records (mkMem (mem_records j) true plan) = jr_records j.
Proof. done. Qed.
Lemma ran_again : New cfg (blank j_flaky tt (prov r_used.2) (tick r_used.2)) = (Ok tt, r_again.2).
Proof. destruct (succeeded r_again ltac:(vm_compute; reflexivity)) as [[] H]. exact H. Qed.
Lemma reach_again : reachable cfg (mkSys r_again.2 []).
Proof.
  destruct reach_used as (s0 & Hi & Hs). exists s0. split; [exact Hi|]. eapply rtc_r; [exact Hs|].
  exact (st_restart cfg _ _ _ _ _ _ _ (planned_records (jrn r_used.2) _) (le_n _) ran_again).
Qed.
#[local] Opaque r_again.
Lemma reach_half : reachable cfg (mkSys r_half.2 []).
Proof.
  exact (reach_effect (OpRevokeCredential owner credential_id) (RevokeCredential owner credential_id) r_again.2 eq_refl reach_again).
Qed.

(** After a revocation that failed at the commit of a grant, the retried call
    answers nil although the grant of the credential is still active. *)
Example revoke_retry_leaves_grant :
  reachable cfg (mkSys r_half.2 []) ∧ r_half.1 = Err ErrUnavailable ∧ r_retry.1 = Ok tt ∧
  (λ c, cd_Status (c_View c)) <$> (credentials r_retry.2 !! credential_id) = Some "revoked" ∧
  (λ g, (g_CredentialID (g_View g) == credential_id, g_Active (g_View g))) <$> (grants r_retry.2 !! grant_id) =
    Some (true, true).
Proof. split; [exact reach_half|]. split_and!; run. Qed.

Lemma acquire_terms_witness : ∃ v g, Acquire owner (mkAcquireLease grant_id 60) r_granted.2 = (Ok v, r_leased.2) ∧
  grants r_granted.2 !! grant_id = Some g ∧ actor_is_grantee owner g.
Proof.
  destruct ran_leased as [v H]. destruct (acquire_terms _ _ _ _ _ H) as (g & c & Hg & Ha & _).
  exists v, g. exact (conj H (conj Hg Ha)).
Defined.

Lemma foreign_ids_look_missing_witness :
  GetCredential stranger credential_id r_used.2 = (Err ErrNotFound, r_used.2).
Proof.
  assert (live r_used.2 = true) as Hl by run.
  destruct (foreign_ids_look_missing stranger credential_id r_used.2 "" ∅ grant_request Hl) as (_ & H & _).
  destruct H as [Hc _]; [|exact Hc]. intros c Hc.
  destruct (found_with (managedBy stranger) (credentials r_used.2) credential_id false ltac:(run)) as (c' & Hc' & E).
  rewrite Hc' in Hc. injection Hc as <-. exact E.
Defined.

(** A broker after [Close]. *)
Definition b_closed : EB := (Close r_used.2).2.

Lemma closed_broker_refuses_witness :
  Acquire owner (mkAcquireLease grant_id 60) b_closed = (Err ErrUnavailable, b_closed).
Proof.
  assert (live b_closed = false) as Hl by run.
  destruct (closed_broker_refuses cfg b_closed Hl) as (_ & _ & _ & _ & _ & _ & H & _). exact (H _ _).
Defined.

Lemma delete_purges_witness : ∃ c', credentials r_deleted.2 !! credential_id = Some c' ∧
  cd_Status (c_View c') = "deleted".
Proof.
  destruct (found_with (λ c, cd_Status (c_View c)) (credentials r_revoked.2) credential_id "revoked" ltac:(run)) as (c & Hc & Ha).
  assert (cd_Status (c_View c) ≠ "deleted") as Hd by (rewrite Ha; discriminate).
  destruct (delete_purges cfg (mkSys r_revoked.2 []) _ _ _ _ _ reach_revoked Hc Hd ran_deleted) as (_ & c' & Hc' & Hs).
  exists c'. exact (conj Hc' Hs).
Defined.

Lemma materialization_deliverable_witness : ∃ m,
  (∃ l b0, leases (b0 : EB) !! lease_id = Some l ∧ lr_Materialized l = Some m) ∨
  ∃ mt expires values state mt', deliverable (use_Contract the_use) values ∧
    mat_prepare mt lease_id expires (use_Contract the_use) values state = (mt', Some m).
Proof. destruct ran_materialized as [m H]. exists m. exact (materialization_deliverable _ _ _ _ _ _ H). Defined.

Lemma oauth_state_once_witness :
  (oauth_begin cfg oauth_raw oauth_state "code" o_begun.2).1 = Err ErrDenied ∨
  (oauth_begin cfg oauth_raw oauth_state "code" o_begun.2).1 = Err ErrUnavailable.
Proof.
  destruct ran_begun as [x H].
  exact (oauth_state_once cfg (mkSys o_started.2 []) _ _ _ _ _ _ _ reach_o_started H).
Defined.

