(* ===== verification/ContractWitness.v ===== *)
(** The theorems about identity assertions and contracts at concrete inputs: a
    small signature scheme and codec, and contracts of BrokerExample.v's kind. *)
From stdpp Require Import base gmap strings list pretty countable.
From Stdlib Require Import Ascii String.
From S2P Require Import Prelude GoStrings BrokerIdentity Contract ContractProps BrokerExample.
Local Open Scope string_scope.
Import Example.

Module Assertions.

(** ** A codec: dots are escaped, claims are written in binary *)

Fixpoint escape (s : string) : string :=
match s with
| "" => ""
| String c s' => if bool_decide (c = "."%char) then String "-" (String "d" (escape s'))
                 else if bool_decide (c = "-"%char) then String "-" (String "-" (escape s'))
                 else String c (escape s')
end.

Fixpoint unescape (s : string) : option string :=
match s with
| "" => Some ""
| String "-" (String c s') =>
    t ← unescape s'; Some (String (if bool_decide (c = "d"%char) then "."%char else c) t)
| String c s' => t ← unescape s'; Some (String c t)
end.

Lemma unescape_escape s : unescape (escape s) = Some s.
Proof.
induction s as [|c s IH]; [done|]. simpl. destruct (bool_decide (c = "."%char)) eqn:E1.
{ apply bool_decide_eq_true in E1 as ->. simpl. by rewrite IH. }
destruct (bool_decide (c = "-"%char)) eqn:E2.
{ apply bool_decide_eq_true in E2 as ->. simpl. by rewrite IH. }
apply bool_decide_eq_false in E2.
assert (unescape (String c (escape s)) = t ← unescape (escape s); Some (String c t)) as ->.
{ destruct c as [[] [] [] [] [] [] [] []]; done. }
by rewrite IH.
Qed.

Lemma escape_no_dot s : sep_free "." (escape s) = true.
Proof.
unfold sep_free. induction s as [|c s IH]; [done|]. simpl.
destruct (bool_decide (c = "."%char)) eqn:E1; [exact IH|]. destruct (bool_decide (c = "-"%char)) eqn:E2; [exact IH|].
simpl. rewrite IH. unfold is_char. by rewrite E1.
Qed.

Fixpoint bits_of (p : positive) : string :=
match p with xH => "" | xO q => String "0" (bits_of q) | xI q => String "1" (bits_of q) end.
Fixpoint of_bits (s : string) : positive :=
match s with
| "" => xH
| String c s' => if bool_decide (c = "1"%char) then xI (of_bits s') else xO (of_bits s')
end.
Lemma of_bits_of p : of_bits (bits_of p) = p.
Proof. induction p; simpl; congruence. Qed.

Definition enc {A} `{Countable A} (a : A) : positive := encode a.
Definition dec {A} `{Countable A} (p : positive) : option A := decode p.
Lemma dec_enc {A} `{Countable A} (a : A) : dec (enc a) = Some a.
Proof. apply decode_encode. Qed.
#[local] Opaque enc dec.

Definition actor_code (a : Actor) : list positive :=
map enc (actor_strings a) ++ [enc (a_ContextManager a)].
Definition claims_code (c : Claims) : list positive :=
(enc (c_Version c) :: enc (c_IssuedAt c) :: enc (c_ExpiresAt c) ::
map enc [c_KeyID c; c_Issuer c; c_Audience c; c_Method c; c_RequestURI c; c_BodySHA256 c])
++ actor_code (c_Actor c).

Definition claims_of (l : list positive) : option Claims :=
match l with
| [v; i; e; k; iss; au; m; u; b; p; x; r; ei; cv; pv; bi; w; cm] =>
    v ← dec v; i ← dec i; e ← dec e; k ← dec k; iss ← dec iss; au ← dec au;
    m ← dec m; u ← dec u; b ← dec b; p ← dec p; x ← dec x; r ← dec r;
    ei ← dec ei; cv ← dec cv; pv ← dec pv; bi ← dec bi; w ← dec w; cm ← dec cm;
    Some (mkClaims v k iss au i e m u b (mkActor p x r ei cv pv cm bi w))
| _ => None
end.

Lemma claims_of_code c : claims_of (claims_code c) = Some c.
Proof.
destruct c as [v k iss au i e m u b [p x r ei cv pv cm bi w]].
unfold claims_code, actor_code, claims_of. simpl.
rewrite !dec_enc. reflexivity.
Qed.
#[local] Transparent enc dec.
#[local] Arguments claims_code : simpl never.
#[local] Arguments claims_of : simpl never.

Global Instance claims_wf_dec c : Decision (claims_wf c).
Proof. unfold claims_wf, in_i64. apply _. Defined.

Definition decode_claims (s : string) : option Claims :=
l ← decode (of_bits s); c ← claims_of l; if decide (claims_wf c) then Some c else None.

Lemma decode_claims_code c : claims_wf c → decode_claims (bits_of (encode (claims_code c))) = Some c.
Proof.
intros Hc. unfold decode_claims. rewrite of_bits_of, decode_encode.
change (claims_of (claims_code c) ≫= (λ c, if decide (claims_wf c) then Some c else None) = Some c).
rewrite claims_of_code. change ((if decide (claims_wf c) then Some c else None) = Some c).
by rewrite decide_True.
Qed.

Lemma length_append_all a b : String.length (a ++ b) = (String.length a + String.length b)%nat.
Proof. induction a as [|c a IH]; simpl; [done|]. by rewrite IH. Qed.

#[export] Instance codec : AssertionCodec.
Proof.
refine {| b64_encode := escape; b64_decode := unescape;
          claims_marshal := λ c, bits_of (encode (claims_code c)); claims_decode := decode_claims;
          sha256_hex := λ s, s;
          ed_new_key := λ seed, seed ++ seed;
          ed_sign := λ k m, ed_public k ++ m; ed_verify := λ p m s, s == p ++ m |}.
- exact unescape_escape.
- exact escape_no_dot.
- intros c Hc. apply decode_claims_code, Hc.
- intros s c. unfold decode_claims. destruct (decode (of_bits s)) as [l|]; [|done]. simpl.
  destruct (claims_of l) as [c'|]; [|done]. simpl. destruct (decide _); [|done]. by intros [= <-].
- intros seed Hs. unfold len in *. rewrite length_append_all. lia.
- intros seed m _. by apply bool_decide_eq_true.
Defined.
End Assertions.
Import Assertions.

Ltac run := vm_compute; reflexivity.

Definition seed : string := "a-seed-of-exactly-thirty-two-byt".
Definition claims : Claims :=
  mkClaims 1 "k1" "hub" "broker:admin" 1000 1060 "POST" "/v1/requests" "body" owner.
Definition trusted_key : TrustedKey := mkTrustedKey (ed_public (ed_new_key seed)) "hub" ["broker:admin"].
Definition trusted : gmap string TrustedKey := {["k1" := trusted_key]}.
Definition signed : string := match Sign (ed_new_key seed) claims with Some t => t | None => "" end.

Lemma signed_eq : Sign (ed_new_key seed) claims = Some signed.
Proof. run. Qed.

Lemma signed_assertion_verifies_witness :
  Verify trusted 1010 signed "broker:admin" "POST" "/v1/requests" "body" = Some owner.
Proof.
  assert (claims_wf claims) as Hw by (apply (bool_decide_unpack _); vm_compute; exact I).
  assert ((len signed <=? 4096)%Z = true) as Hl by run. apply Z.leb_le in Hl.
  assert (trusted !! "k1" = Some trusted_key) as Hk by run.
  assert ("broker:admin" ∈ ["broker:admin"]) as Ha by left.
  assert (len seed = 32%Z) as Hs by run. assert (Actor_Valid (c_Actor claims) = true) as Hv by run.
  assert (c_Audience claims = "broker:runtime" → ValidID (a_BindingID owner) = true ∧ ValidID (a_WorkloadID owner) = true)
    as Hrt by (intros E; discriminate E).
  destruct (signed_assertion_verifies seed claims trusted_key trusted "body" 1010 Hs Hw Hv Hk eq_refl eq_refl Ha
    ltac:(lia) ltac:(simpl; lia) ltac:(simpl; lia) ltac:(simpl; lia) eq_refl Hrt) as (token & Ht & Hver).
  assert (Some token = Some signed) as E by (rewrite <-Ht; exact signed_eq). injection E as ->. exact (Hver Hl).
Defined.

Lemma assertion_bound_and_short_witness : (Z.abs (1010 - 1020) ≤ 124)%Z ∧ owner = owner.
Proof.
  assert (Verify trusted 1010 signed "broker:admin" "POST" "/v1/requests" "body" = Some owner) as H1 by run.
  assert (Verify trusted 1020 signed "broker:admin" "POST" "/v1/requests" "body" = Some owner) as H2 by run.
  destruct (assertion_bound_and_short trusted signed _ _ _ _ _ _ _ _ _ _ 1010 1020 ltac:(lia) ltac:(lia) H1 H2)
    as (Ho & _ & _ & _ & _ & _ & _ & Hd).
  exact (conj Hd Ho).
Defined.

(** ** Contracts *)

Definition api : Route :=
  mkRoute "api" "https://api.example.org" ["/repos"; "/user"] ["GET"; "POST"] "bearer" "token" "" "" ∅.

Definition extra : Extra :=
  mkExtra [mkField "proxy" "Proxy" ∅ "string" false 100] [mkDelivery "env" "proxy" "HTTP_PROXY_URL" "" ∅].

Lemma valid_contract_delivers_safely_witness : NoDup (map d_Target (ct_Deliveries contract)).
Proof.
  assert (Validate contract = true) as H by run.
  destruct (valid_contract_delivers_safely contract H) as (_ & Hn & _). exact Hn.
Defined.

Lemma accepted_bundle_witness : ∃ v, secret_values !! "token" = Some v ∧ v ≠ "".
Proof.
  assert (ValidateValues contract secret_values = true) as H by run.
  destruct (accepted_bundle contract secret_values H) as (_ & Hr & _).
  exact (Hr token ltac:(left) eq_refl).
Defined.

(** The same fields in another order, with new labels. *)
Definition two_fields : Contract :=
  mkContract "db" 1 "Database" "vault" [mkField "user" "User" ∅ "string" true 64; mkField "pass" "Password" ∅ "secret" true 64]
    [] None [] "" "" false ∅.
Definition relabelled : Contract :=
  mkContract "db" 2 "Postgres" "vault" [mkField "pass" "Secret" ∅ "secret" true 64; mkField "user" "Role" ∅ "string" true 64]
    [] None [] "" "" false ∅.

Lemma compatible_fields_witness :
  Compatible two_fields relabelled = true ∧
  map field_shape (ct_Fields two_fields) ≡ₚ map field_shape (ct_Fields relabelled).
Proof.
  assert (Compatible two_fields relabelled = true) as H by run. split; [exact H|].
  assert (NoDup (map f_ID (ct_Fields two_fields))) as Hn by (apply (bool_decide_unpack _); vm_compute; exact I).
  exact (proj2 (proj1 (compatible_fields two_fields relabelled Hn) H)).
Defined.
