(* ===== verification/Journal.v ===== *)
(** The durable journal (internal/journal/journal.go, internal/seal/seal.go and
    the [Create] and [Read] of internal/securefs): a bounded, encrypted,
    hash-chained append log of length-prefixed frames, its lossless compaction,
    its replication to a recovery journal and the anchor of committed
    digests (internal/journal/recovery.go).

    Files live in a map from (directory, name) to bytes.  Every system call may
    fail: [sys] consults an oracle, so lock contention, permission checks and
    failing writes and fsyncs are all covered.  AES-GCM, SHA-256, zlib and the JSON
    codec are parameters with their documented laws.  Writes go to the end of the
    ledger: the handle's offset is the end of what was read or written, and the
    ledger lock keeps other writers out. *)
From stdpp Require Import base gmap strings list pretty.
From Stdlib Require Import Ascii String.
From S2P Require Import Prelude GoStrings.
Local Open Scope string_scope.

Definition bytes := list ascii.
Definition blen (b : bytes) : Z := Z.of_nat (List.length b).
Definition bytes_of (s : string) : bytes := list_ascii_of_string s.
Definition string_of (b : bytes) : string := string_of_list_ascii b.

(** * Big-endian headers *)

Definition byte_of (z : Z) : ascii := ascii_of_N (Z.to_N (z mod 256)).

(** [binary.BigEndian.PutUint32] *)
Definition PutUint32 (z : Z) : bytes :=
  [byte_of (Z.shiftr z 24); byte_of (Z.shiftr z 16); byte_of (Z.shiftr z 8); byte_of z].

(** [binary.BigEndian.Uint32] *)
Definition Uint32 (a b c d : ascii) : Z :=
  Z.lor (code d) (Z.lor (Z.shiftl (code c) 8) (Z.lor (Z.shiftl (code b) 16) (Z.shiftl (code a) 24))).

Definition CompressedBit : Z := Z.shiftl 1 31.
Definition MaxRecord : Z := Z.shiftl 1 20.

(** * Errors and records *)

Inductive JErr :=
  | ErrUnavailable | ErrSealed | ErrUnsafe | ErrInvalidLimit | ErrTooLarge | ErrBadKey
  | ErrOS | ErrMarshal.

Record JRec := mkJRec { Sequence : Z; Previous : string; Kind : string; Data : bytes }.

Global Instance JRec_eq_dec : EqDecision JRec.
Proof. solve_decision. Defined.

(** * What the journal is built on *)

(** AES-256-GCM with 12-byte nonces and 16-byte tags. *)
Class AEAD := {
  gcm_seal : bytes → bytes → bytes → bytes → bytes;          (** key nonce plain aad *)
  gcm_open : bytes → bytes → bytes → bytes → option bytes;   (** key nonce sealed aad *)
  gcm_roundtrip : ∀ k n p a, gcm_open k n (gcm_seal k n p a) a = Some p;
  gcm_overhead : ∀ k n p a, List.length (gcm_seal k n p a) = (List.length p + 16)%nat;
}.

(** SHA-256 in hexadecimal, HMAC-SHA256, zlib. *)
Class Codec := {
  sha256_hex : bytes → string;
  sha256_utf8 : ∀ p, utf8_valid (sha256_hex p) = true;
  hmac_sha256 : bytes → bytes → bytes;
  zlib_deflate : bytes → bytes;
  (** [io.ReadAll(io.LimitReader(zlib reader, n))], [None] on a read or close error *)
  zlib_inflate : Z → bytes → option bytes;
  zlib_roundtrip : ∀ n p, (blen p < n)%Z → zlib_inflate n (zlib_deflate p) = Some p;
}.

(** The JSON of the values [V] the service journals (nested at most as deep as the
    strict decoder reads), of raw messages and of records. *)
Class RecordJSON (V : Type) := {
  json_Marshal : V → option bytes;
  raw_Marshal : bytes → option bytes;
  record_Marshal : JRec → option bytes;
  record_Decode : bytes → option JRec;
  (** a marshalled value is compact JSON, which a record carries unchanged *)
  json_record : ∀ v raw n prev kind,
    json_Marshal v = Some raw → (0 ≤ n < 2 ^ 64)%Z →
    utf8_valid prev = true → utf8_valid kind = true →
    ∃ p, record_Marshal (mkJRec n prev kind raw) = Some p ∧
         record_Decode p = Some (mkJRec n prev kind raw);
  (** data that survived a record's encoding is compact JSON, too *)
  raw_record : ∀ r p n prev,
    record_Marshal r = Some p → record_Decode p = Some r →
    (0 ≤ n < 2 ^ 64)%Z → utf8_valid prev = true →
    raw_Marshal (Data r) = Some (Data r) ∧
    ∃ q, record_Marshal (mkJRec n prev (Kind r) (Data r)) = Some q ∧
         record_Decode q = Some (mkJRec n prev (Kind r) (Data r));
}.

(** [data any] of [Append] *)
Inductive any (V : Type) := Value (v : V) | RawMessage (b : bytes).
Arguments Value {V} v.
Arguments RawMessage {V} b.

Definition any_Marshal `{RecordJSON V} (data : any V) : option bytes :=
  match data with Value v => json_Marshal v | RawMessage b => raw_Marshal b end.

(** The operating system: which calls succeed, how much a failing write wrote, and
    the random nonces. *)
Class OS := {
  io_ok : nat → bool;
  io_short : nat → nat;
  io_nonce : nat → bytes;
  io_nonce_len : ∀ n, List.length (io_nonce n) = 12%nat;
}.

Record Disk := mkDisk { files : gmap (string * string) bytes; calls : nat }.

Definition put_file (k : string * string) (b : bytes) (d : Disk) : Disk :=
  mkDisk (<[k := b]> (files d)) (calls d).
Definition del_file (k : string * string) (d : Disk) : Disk :=
  mkDisk (delete k (files d)) (calls d).
Definition content (dir : string) (d : Disk) : bytes := default [] (files d !! (dir, "ledger.bin")).

Section Syscalls.
Context `{OS}.
Abbreviation D := (M Disk JErr).

(** A system call that may fail. *)
Definition sys (e : JErr) : D unit := λ d,
  (if io_ok (calls d) then Ok tt else Err e, mkDisk (files d) (S (calls d))).

Definition io_Nonce : D bytes := λ d,
  (if io_ok (calls d) then Ok (io_nonce (calls d)) else Err ErrOS, mkDisk (files d) (S (calls d))).

(** [f.Write(buf)] at the end of the file: all of [buf], or a part of it and an error. *)
Definition write (dir name : string) (buf : bytes) : D unit := λ d,
  let old := default [] (files d !! (dir, name)) in
  if io_ok (calls d)
  then (Ok tt, mkDisk (<[(dir, name) := (old ++ buf)%list]> (files d)) (S (calls d)))
  else (Err ErrUnavailable,
        mkDisk (<[(dir, name) := (old ++ take (io_short (calls d)) buf)%list]> (files d)) (S (calls d))).

(** [securefs.Name] *)
Definition Name (name : string) : bool :=
  (name != "") && (name != ".") && (name != "..") && (len name <=? 128)%Z &&
  negb (str_existsb (λ c, is_char "/" c || is_char "\" c || is_char NUL c) name).

(** [securefs.Read] *)
Definition securefs_Read (dir name : string) (limit : Z) : D (option bytes) :=
  fail_if (negb (Name name)) ErrUnsafe ;;
  d ← get;
  match files d !! (dir, name) with
  | None => mret None                                    (** [os.IsNotExist(err)] *)
  | Some b =>
      sys ErrUnsafe ;;
      fail_if (limit <? blen b)%Z ErrUnsafe ;;
      mret (Some b)
  end.

(** [securefs.Create] *)
Definition securefs_Create (dir name : string) (data : bytes) : D unit :=
  fail_if (negb (Name name)) ErrUnsafe ;;
  d ← get;
  fail_if (bool_decide (is_Some (files d !! (dir, name)))) ErrOS ;;   (** [O_EXCL] *)
  sys ErrUnsafe ;;
  r ← try (write dir name data ;; sys ErrOS);            (** write, sync and close *)
  match r with
  | Err e => modify (del_file (dir, name)) ;; mthrow_err e
  | Ok _ => sys ErrOS                                    (** [SyncDir] *)
  end.
End Syscalls.

(** * seal.go *)

Record Box := mkBox { box_key : bytes }.

Section Seal.
Context `{AEAD} `{OS} `{Codec}.
Abbreviation D := (M Disk JErr).

Definition Derive (master : bytes) (purpose : string) : bytes :=
  hmac_sha256 master (bytes_of ("hermes-credential-broker/v1/" ++ purpose)).

Definition seal_New (key : bytes) : res JErr Box :=
  if negb (blen key =? 32)%Z then Err ErrBadKey else Ok (mkBox key).

Definition Box_Seal (b : Box) (plain aad : bytes) : D bytes :=
  nonce ← io_Nonce;
  mret (nonce ++ gcm_seal (box_key b) nonce plain aad)%list.

Definition Box_Open (b : Box) (data aad : bytes) : option bytes :=
  if (blen data <? 12 + 16)%Z then None
  else gcm_open (box_key b) (take 12 data) (drop 12 data) aad.
End Seal.

(** * journal.go *)

Record recoveryAnchor := mkAnchor { an_dir : string; an_box : Box }.

(** [j_file] is [file != nil]; [j_dir] is the directory of the ledger.  A recovery
    journal is a journal, too ([Open] leaves its own [recovery] nil). *)
Inductive Journal := mkJournal {
  j_file : bool;
  j_dir : string;
  j_legacy : bool;
  j_box : Box;
  j_seq : Z;
  j_prev : string;
  j_size : Z;
  j_limit : Z;
  j_poisoned : bool;
  j_records : list JRec;
  j_offsets : list Z;
  j_recovery : option Journal;
  j_anchor : option recoveryAnchor;
}.

Definition set_poisoned (j : Journal) : Journal :=
  mkJournal (j_file j) (j_dir j) (j_legacy j) (j_box j) (j_seq j) (j_prev j) (j_size j) (j_limit j)
    true (j_records j) (j_offsets j) (j_recovery j) (j_anchor j).
Definition set_file (f : bool) (j : Journal) : Journal :=
  mkJournal f (j_dir j) (j_legacy j) (j_box j) (j_seq j) (j_prev j) (j_size j) (j_limit j)
    (j_poisoned j) (j_records j) (j_offsets j) (j_recovery j) (j_anchor j).
Definition set_recovery (r : option Journal) (j : Journal) : Journal :=
  mkJournal (j_file j) (j_dir j) (j_legacy j) (j_box j) (j_seq j) (j_prev j) (j_size j) (j_limit j)
    (j_poisoned j) (j_records j) (j_offsets j) r (j_anchor j).
Definition set_anchor (a : option recoveryAnchor) (j : Journal) : Journal :=
  mkJournal (j_file j) (j_dir j) (j_legacy j) (j_box j) (j_seq j) (j_prev j) (j_size j) (j_limit j)
    (j_poisoned j) (j_records j) (j_offsets j) (j_recovery j) a.

(** The fields replay and compaction rebuild. *)
Definition set_log (legacy : bool) (seq : Z) (prev : string) (size : Z) (recs : list JRec)
    (offs : list Z) (j : Journal) : Journal :=
  mkJournal (j_file j) (j_dir j) legacy (j_box j) seq prev size (j_limit j)
    (j_poisoned j) recs offs (j_recovery j) (j_anchor j).

Definition aad : bytes := bytes_of "ledger/v1".

Section JournalOps.
Context `{AEAD} `{OS} `{Codec} `{RecordJSON V}.
Abbreviation D := (M Disk JErr).
Abbreviation JM := (M (Journal * Disk) JErr).

(** Run a disk operation from a method of the journal. *)
Definition on_disk {A} (m : D A) : JM A := λ '(j, d), let '(r, d') := m d in (r, (j, d')).
Definition of_res {A} (r : res JErr A) : D A := λ d, (r, d).
Definition get_j : JM Journal := λ '(j, d), (Ok j, (j, d)).
Definition upd_j (f : Journal → Journal) : JM unit := λ '(j, d), (Ok tt, (f j, d)).

(** ** Replay: the loop of [Open] *)

(** A decrypted frame: inflated when its header says so, within the record limit. *)
Definition frame_plain (compressed : bool) (plain : bytes) : option bytes :=
  if compressed then
    match zlib_inflate (MaxRecord + 1) plain with
    | Some decoded => if (MaxRecord - 28 <? blen decoded)%Z then None else Some decoded
    | None => None
    end
  else Some plain.

(** One round on the unread bytes [s]: [None] is [return fail(ErrUnavailable)]. *)
Definition read_frame (j : Journal) (s : bytes) : option (Journal * bytes) :=
  match s with
  | a :: b :: c :: e :: s1 =>
      let frameSize := Uint32 a b c e in
      let compressed := negb (Z.land frameSize CompressedBit =? 0)%Z in
      let size := Z.ldiff frameSize CompressedBit in
      let legacy := if compressed then j_legacy j else true in
      if (size <? 28)%Z || (MaxRecord <? size)%Z then None
      else if (blen s1 <? size)%Z then None
      else
        plain0 ← Box_Open (j_box j) (take (Z.to_nat size) s1) aad;
        plain ← frame_plain compressed plain0;
        r ← record_Decode plain;
        if negb (Sequence r =? u64 (j_seq j + 1))%Z || (Previous r != j_prev j) || (Kind r == "")
        then None
        else
          let total := (j_size j + size + 4)%Z in
          Some (set_log legacy (Sequence r) (sha256_hex plain) total
                  (j_records j ++ [r])%list (j_offsets j ++ [total])%list j,
                drop (Z.to_nat size) s1)
  | _ => None
  end.

(** The loop; a round consumes at least 32 bytes, so the length is fuel enough. *)
Fixpoint replay_loop (fuel : nat) (j : Journal) (s : bytes) : option Journal :=
  match s, fuel with
  | [], _ => Some j
  | _ :: _, O => None
  | _ :: _, S fuel' =>
      match read_frame j s with
      | Some (j', rest) => replay_loop fuel' j' rest
      | None => None
      end
  end.

Definition load (j : Journal) (s : bytes) : option Journal := replay_loop (List.length s) j s.

(** ** [frame] *)
Definition frame (b : Box) (plain : bytes) : D (bytes * bool) :=
  let payload := zlib_deflate plain in
  let compressed := (blen payload <? blen plain)%Z in
  let source := if compressed then payload else plain in
  enc ← Box_Seal b source aad;
  fail_if (MaxRecord <? blen enc)%Z ErrUnavailable ;;
  let length := if compressed then Z.lor (blen enc) CompressedBit else blen enc in
  mret ((PutUint32 length ++ enc)%list, compressed).

(** ** [compactLocked] *)

(** What the rewriting loop accumulates: offsets, size, prev, legacy, the bytes. *)
Record Compact := mkCompact {
  cp_offsets : list Z; cp_size : Z; cp_prev : string; cp_legacy : bool; cp_out : bytes
}.

Definition compact_record (b : Box) (c : Compact) (record : JRec) : D Compact :=
  plain ← some_or (record_Marshal record) ErrMarshal;
  fail_if (Previous record != cp_prev c) ErrUnavailable ;;
  f ← frame b plain;
  let '(fr, compressed) := f : bytes * bool in
  sys ErrOS ;;                                            (** buffered write *)
  let size := (cp_size c + blen fr)%Z in
  mret (mkCompact (cp_offsets c ++ [size])%list size (sha256_hex plain)
          (if compressed then cp_legacy c else true) (cp_out c ++ fr)%list).

(** The replacement is written to a temporary file of its own, which the rename
    makes the ledger; every other way out removes it. *)
Definition compactLocked : JM unit :=
  j ← get_j;
  on_disk (sys ErrOS) ;;                                  (** nonce of the temporary's name *)
  on_disk (sys ErrOS) ;;                                  (** open *)
  on_disk (sys ErrOS) ;;                                  (** lock *)
  c ← on_disk (for_fold (j_records j) (mkCompact [] 0 "" false []) (compact_record (j_box j)));
  fail_if (cp_prev c != j_prev j) ErrUnavailable ;;
  if (j_size j <=? cp_size c)%Z then mret tt
  else
    on_disk (sys ErrOS) ;;                                (** flush *)
    on_disk (sys ErrOS) ;;                                (** sync *)
    on_disk (sys ErrOS) ;;                                (** seek *)
    on_disk (sys ErrOS) ;;                                (** rename *)
    on_disk (modify (put_file (j_dir j, "ledger.bin") (cp_out c))) ;;
    upd_j (set_log (cp_legacy c) (j_seq j) (j_prev j) (cp_size c) (j_records j) (cp_offsets c)) ;;
    r ← try (on_disk (sys ErrOS));                        (** directory sync *)
    match r with
    | Err e => upd_j set_poisoned ;; mthrow_err e
    | Ok _ => mret tt
    end.

(** ** [Open] *)
Definition new_journal (dir : string) (b : Box) (limit : Z) : Journal :=
  mkJournal true dir false b 0 "" 0 limit false [] [] None None.

(** [if err := j.compactLocked(); err != nil { return nil, err }] *)
Definition compacted (j : Journal) : D Journal := λ d,
  let '(r, (j', d')) := compactLocked (j, d) in
  (match r with Ok _ => Ok j' | Err e => Err e end, d').

Definition Open (dir : string) (key : bytes) (limit : Z) : D Journal :=
  fail_if ((limit <? MaxRecord)%Z || (Z.shiftl 1 30 <? limit)%Z) ErrInvalidLimit ;;
  sys ErrUnsafe ;;                                        (** [securefs.Dir] *)
  b ← of_res (seal_New key);
  sys ErrUnsafe ;;                                        (** open the lock *)
  sys ErrUnavailable ;;                                   (** lock it *)
  sys ErrUnsafe ;;                                        (** open the ledger *)
  d ← get;
  let s := content dir d in
  modify (put_file (dir, "ledger.bin") s) ;;              (** [O_CREAT] *)
  sys ErrUnavailable ;;                                   (** lock it *)
  sys ErrUnavailable ;;                                   (** stat, private mode *)
  fail_if (limit <? blen s)%Z ErrUnavailable ;;
  j ← some_or (load (new_journal dir b limit) s) ErrUnavailable;
  sys ErrOS ;;                                            (** directory sync *)
  if j_legacy j && (Z.quot (j_limit j) 3 <? j_size j)%Z then
    compacted j
  else mret j.

Definition Records (j : Journal) : list JRec := j_records j.
Definition Healthy (j : Journal) : bool := negb (j_poisoned j) && j_file j.

(** [Close]; the errors of closing handles do not change the journal. *)
Fixpoint Close (j : Journal) : Journal :=
  if j_file j then
    set_recovery (match j_recovery j with Some r => Some (Close r) | None => None end)
      (set_file false j)
  else j.

(** ** The anchor (recovery.go) *)

(** [fmt.Sprintf("commit-%020d", seq)] *)
Definition commit_name (seq : Z) : string :=
  let digits := pretty (Z.to_N seq) in
  "commit-" ++ string_of (replicate (20 - String.length digits) "0"%char) ++ digits.

(** The [Sscanf] of a name and the check that printing gives it back. *)
Definition parse_commit (name : string) : option Z :=
  match digits_value 0 (drop_str 7 name) with
  | Some seq => if (seq <? 2 ^ 64)%Z && (commit_name seq == name) then Some seq else None
  | None => None
  end.

Definition initialized (a : recoveryAnchor) : D bool :=
  r ← try (securefs_Read (an_dir a) "initialized" 128);
  match r with
  | Err _ => mthrow_err ErrUnavailable
  | Ok None => mret false
  | Ok (Some enc) =>
      match Box_Open (an_box a) enc (bytes_of "initialized") with
      | Some plain => if string_of plain == "v1" then mret true else mthrow_err ErrUnavailable
      | None => mthrow_err ErrUnavailable
      end
  end.

Definition markInitialized (a : recoveryAnchor) : D unit :=
  enc ← Box_Seal (an_box a) (bytes_of "v1") (bytes_of "initialized");
  securefs_Create (an_dir a) "initialized" enc.

Definition anchor_commit (a : recoveryAnchor) (seq : Z) (hash : string) : D unit :=
  let name := commit_name seq in
  enc ← Box_Seal (an_box a) (bytes_of hash) (bytes_of name);
  securefs_Create (an_dir a) name enc.

(** The entries of a directory (it has no subdirectories here). *)
Definition ReadDir (dir : string) (d : Disk) : list string :=
  omap (λ k, if k.1.1 == dir then Some k.1.2 else None) (map_to_list (files d)).

Fixpoint latest_loop (latest : Z) (entries : list string) : option Z :=
  match entries with
  | [] => Some latest
  | name :: rest =>
      if negb (HasPrefix name "commit-") then latest_loop latest rest
      else if negb (len name =? 27)%Z then None
      else match parse_commit name with
           | Some seq => latest_loop (if (latest <? seq)%Z then seq else latest) rest
           | None => None
           end
  end.

Definition is_hex (c : ascii) : bool := is_digit c || in_range c 97 102 || in_range c 65 70.

Definition anchor_latest (a : recoveryAnchor) : D (Z * string) :=
  sys ErrOS ;;                                            (** [os.ReadDir] *)
  d ← get;
  latest ← some_or (latest_loop 0 (ReadDir (an_dir a) d)) ErrUnavailable;
  if (latest =? 0)%Z then mret (0%Z, "")
  else
    let name := commit_name latest in
    r ← try (securefs_Read (an_dir a) name 256);
    match r with
    | Ok (Some enc) =>
        plain ← some_or (Box_Open (an_box a) enc (bytes_of name)) ErrUnavailable;
        fail_if (negb (blen plain =? 64)%Z) ErrUnavailable ;;
        fail_if (negb (forallb is_hex plain)) ErrUnavailable ;;
        mret (latest, string_of plain)
    | _ => mthrow_err ErrUnavailable
    end.

(** ** [Append] *)

(** [if err := ...; err != nil { j.poisoned = true; return 0, ErrUnavailable }] *)
Definition or_poison {A} (m : JM A) : JM A :=
  r ← try m;
  match r with
  | Ok a => mret a
  | Err _ => upd_j set_poisoned ;; mthrow_err ErrUnavailable
  end.

(** The end of [Append]: write, sync, anchor, and remember. *)
Definition append_tail (j1 : Journal) (r : JRec) (plain buf : bytes) (compressed : bool) : JM Z :=
  or_poison (on_disk (write (j_dir j1) "ledger.bin" buf)) ;;
  or_poison (on_disk (sys ErrOS)) ;;
  match j_anchor j1 with
  | Some a => or_poison (on_disk (anchor_commit a (Sequence r) (sha256_hex plain)))
  | None => mret tt
  end ;;
  upd_j (λ j, set_log (if compressed then j_legacy j else true) (Sequence r) (sha256_hex plain)
                (j_size j + blen buf)%Z (j_records j ++ [r])%list
                (j_offsets j ++ [j_size j + blen buf])%list%Z j) ;;
  mret (Sequence r).

(** From the limit check on: the recovery journal comes first. *)
Definition append_rest (recover : bytes → JM unit) (r : JRec) (plain buf : bytes)
    (compressed : bool) (raw : bytes) : JM Z :=
  j1 ← get_j;
  (if (j_limit j1 <? j_size j1 + blen buf)%Z then or_poison (mthrow_err ErrUnavailable) else mret tt) ;;
  or_poison (recover raw) ;;
  append_tail j1 r plain buf compressed.

(** The body, given how to append to the recovery journal. *)
Definition append_body (recover : bytes → JM unit) (kind : string) (data : any V) : JM Z :=
  j0 ← get_j;
  fail_if (j_poisoned j0 || negb (j_file j0) || (kind == "")) ErrUnavailable ;;
  raw ← some_or (any_Marshal data) ErrMarshal;
  let r := mkJRec (u64 (j_seq j0 + 1)) (j_prev j0) kind raw in
  plain ← some_or (record_Marshal r) ErrMarshal;
  fail_if (MaxRecord <? blen plain + 28)%Z ErrTooLarge ;;
  f ← on_disk (frame (j_box j0) plain);
  let '(buf, compressed) := f : bytes * bool in
  (if (j_limit j0 <? j_size j0 + blen buf)%Z && j_legacy j0 then or_poison compactLocked else mret tt) ;;
  append_rest recover r plain buf compressed raw.

Fixpoint append_to (j : Journal) (kind : string) (data : any V) (d : Disk) {struct j} :
    res JErr Z * (Journal * Disk) :=
  append_body
    (λ raw, match j_recovery j with
            | None => mret tt
            | Some rec => λ '(j', d'),
                let '(r, (rec', d'')) := append_to rec kind (RawMessage raw) d' in
                (match r with Ok _ => Ok tt | Err e => Err e end, (set_recovery (Some rec') j', d''))
            end)
    kind data (j, d).

Definition Append (kind : string) (data : any V) : JM Z := λ '(j, d), append_to j kind data d.

(** ** Replication (recovery.go) *)

(** Run a method on a journal the caller drops when it fails. *)
Definition with_j {A} (m : JM A) (j : Journal) : D (A * Journal) := λ d,
  let '(r, (j', d')) := m (j, d) in
  (match r with Ok a => Ok (a, j') | Err e => Err e end, d').

Definition truncateTo (seq : Z) : JM unit :=
  j ← get_j;
  fail_if (j_seq j <=? seq)%Z ErrUnavailable ;;
  let n := Z.to_nat seq in
  let size := if (0 <? seq)%Z then default 0%Z (j_offsets j !! (n - 1)%nat) else 0%Z in
  let prev := if (0 <? seq)%Z then default "" (Previous <$> j_records j !! n) else "" in
  on_disk (sys ErrOS) ;;                                  (** truncate *)
  on_disk (modify (λ d, put_file (j_dir j, "ledger.bin") (take (Z.to_nat size) (content (j_dir j) d)) d)) ;;
  on_disk (sys ErrOS) ;;                                  (** sync *)
  on_disk (sys ErrOS) ;;                                  (** seek *)
  upd_j (set_log (j_legacy j) seq prev size (take n (j_records j)) (take n (j_offsets j))).

(** [json.Marshal(records[latest-1])] hashes to what the anchor holds. *)
Definition anchor_digest_ok (latest : Z) (hash : string) (records : list JRec) : bool :=
  match records !! Z.to_nat (latest - 1) with
  | Some r => match record_Marshal r with
              | Some plain => sha256_hex plain == hash
              | None => false
              end
  | None => false
  end.

Definition truncated (latest : Z) (j : Journal) : D Journal :=
  if (latest <? j_seq j)%Z then
    r ← try (with_j (truncateTo latest) j);
    match r with Ok (_, j') => mret j' | Err _ => mthrow_err ErrUnavailable end
  else mret j.

(** The part under [anchor != nil]: the recovery and the primary journal, cut to the
    anchored history. *)
Definition anchored (a : recoveryAnchor) (recovery primary : Journal) : D (Journal * Journal) :=
  l ← try (anchor_latest a);
  i ← try (initialized a);
  match l, i with
  | Ok (latest, hash), Ok init =>
      fail_if ((j_seq recovery <? latest)%Z ||
               ((latest =? 0)%Z && negb init && ((0 <? j_seq primary)%Z || (0 <? j_seq recovery)%Z)))
        ErrUnavailable ;;
      (if (latest =? 0)%Z && negb init then
         r ← try (markInitialized a);
         match r with Ok _ => mret tt | Err _ => mthrow_err ErrUnavailable end
       else mret tt) ;;
      fail_if ((0 <? latest)%Z && negb (anchor_digest_ok latest hash (j_records recovery)))
        ErrUnavailable ;;
      recovery' ← truncated latest recovery;
      primary' ← truncated latest primary;
      mret (recovery', primary')
  | _, _ => mthrow_err ErrUnavailable
  end.

(** [validPrefix] *)
Fixpoint valid_prefix (primary recovery : list JRec) : bool :=
  match primary, recovery with
  | [], _ => true
  | r :: p', o :: r' => bool_decide (r = o) && valid_prefix p' r'
  | _ :: _, [] => false
  end.

(** Catching the primary up with the recovery journal. *)
Definition catch_up (primary : Journal) (record : JRec) : D Journal :=
  if (Sequence record <=? j_seq primary)%Z then mret primary
  else
    r ← with_j (Append (Kind record) (RawMessage (Data record))) primary;
    mret r.2.

Definition openReplicated (primaryDir recoveryDir : string) (primaryKey recoveryKey : bytes)
    (limit : Z) (anchor : option recoveryAnchor) : D Journal :=
  recovery0 ← Open recoveryDir recoveryKey limit;
  primary0 ← Open primaryDir primaryKey limit;
  both ← match anchor with
         | Some a => anchored a recovery0 primary0
         | None => mret (recovery0, primary0)
         end;
  let '(recovery, primary) := both : Journal * Journal in
  fail_if (negb (valid_prefix (j_records primary) (j_records recovery))) ErrUnavailable ;;
  primary' ← for_fold (j_records recovery) primary catch_up;
  mret (set_anchor anchor (set_recovery (Some recovery) primary')).

Definition OpenReplicated (primaryDir recoveryDir : string) (primaryKey recoveryKey : bytes)
    (limit : Z) : D Journal :=
  openReplicated primaryDir recoveryDir primaryKey recoveryKey limit None.

Definition OpenReplicatedAnchored (primaryDir recoveryDir anchorDir : string)
    (primaryKey recoveryKey : bytes) (limit : Z) : D Journal :=
  sys ErrUnsafe ;;                                        (** [securefs.Dir] *)
  b ← of_res (seal_New (Derive recoveryKey "journal-anchor"));
  openReplicated primaryDir recoveryDir primaryKey recoveryKey limit (Some (mkAnchor anchorDir b)).

Definition seed_record (recovery : Journal) (record : JRec) : D Journal :=
  r ← with_j (Append (Kind record) (RawMessage (Data record))) recovery;
  mret r.2.

Definition SeedReplicatedFromOpen (primary : Journal) (recoveryDir anchorDir : string)
    (recoveryKey : bytes) (limit : Z) : D unit :=
  sys ErrUnsafe ;;                                        (** [securefs.Dir] *)
  b ← of_res (seal_New (Derive recoveryKey "journal-anchor"));
  let anchor := mkAnchor anchorDir b in
  recovery ← Open recoveryDir recoveryKey limit;
  l ← try (anchor_latest anchor);
  match l with
  | Err _ => mthrow_err ErrUnavailable
  | Ok (latest, hash) =>
      fail_if ((j_seq primary <? latest)%Z ||
               (List.length (j_records primary) <? List.length (j_records recovery))%nat) ErrUnavailable ;;
      fail_if ((0 <? latest)%Z && negb (anchor_digest_ok latest hash (j_records primary)))
        ErrUnavailable ;;
      fail_if (negb (valid_prefix (j_records recovery) (j_records primary))) ErrUnavailable ;;
      for_fold (drop (List.length (j_records recovery)) (j_records primary)) recovery seed_record ;;
      if (latest <? j_seq primary)%Z then anchor_commit anchor (j_seq primary) (j_prev primary)
      else mret tt
  end.

Definition SeedReplicated (primaryDir recoveryDir anchorDir : string)
    (primaryKey recoveryKey : bytes) (limit : Z) : D unit :=
  primary ← Open primaryDir primaryKey limit;
  SeedReplicatedFromOpen primary recoveryDir anchorDir recoveryKey limit.
End JournalOps.
