(* ===== verification/JournalProps.v ===== *)
(** The journal's frames and replay: headers and frames read back, replay of a
    file extended by more frames, the bounds of what is loaded, torn frames, and
    the hash chain. *)
From stdpp Require Import base gmap strings list pretty.
From Stdlib Require Import Ascii String.
From S2P Require Import Prelude GoStrings Journal.
Local Open Scope string_scope.
Local Open Scope list_scope.

(** * Headers *)

Lemma code_byte_of z : code (byte_of z) = (z mod 256)%Z.
Proof.
  pose proof (Z.mod_pos_bound z 256 ltac:(lia)). unfold code, byte_of.
  rewrite N_ascii_embedding; [|lia]. rewrite Z2N.id; lia.
Qed.

Lemma lor_add a b k : (0 ≤ k)%Z → (0 ≤ a < 2 ^ k)%Z → Z.lor a (Z.shiftl b k) = (a + b * 2 ^ k)%Z.
Proof.
  intros Hk Ha. rewrite <- Z.shiftl_mul_pow2 by done.
  assert (Z.land a (Z.shiftl b k) = 0)%Z as Hd.
  { apply Z.bits_inj'. intros i Hi. rewrite Z.land_spec, Z.bits_0.
    destruct (decide (i < k)%Z) as [Hlt|Hge].
    - by rewrite Z.shiftl_spec_low, andb_false_r.
    - rewrite <- (Z.mod_small a (2 ^ k)) by done. by rewrite Z.mod_pow2_bits_high by lia. }
  by rewrite Z.add_nocarry_lxor, Z.lxor_lor by done.
Qed.

Lemma Uint32_add a b c d : (code a < 256)%Z → (code b < 256)%Z → (code c < 256)%Z → (code d < 256)%Z →
  Uint32 a b c d = (code d + code c * 2 ^ 8 + code b * 2 ^ 16 + code a * 2 ^ 24)%Z.
Proof.
  intros Ha Hb Hc Hd.
  assert (∀ x, (0 ≤ code x)%Z) as Hnn by (intros x; unfold code; lia).
  pose proof (Hnn a). pose proof (Hnn b). pose proof (Hnn c). pose proof (Hnn d).
  assert (Uint32 a b c d =
    Z.lor (code d) (Z.shiftl (Z.lor (code c) (Z.shiftl (Z.lor (code b) (Z.shiftl (code a) 8)) 8)) 8))%Z as ->.
  { unfold Uint32. by rewrite !Z.shiftl_lor, !Z.shiftl_shiftl by lia. }
  rewrite !lor_add by lia. lia.
Qed.

(** A header holds a 32-bit size. *)
Lemma header_roundtrip z a b c d : (0 ≤ z < 2 ^ 32)%Z → PutUint32 z = [a; b; c; d] → Uint32 a b c d = z.
Proof.
  intros Hz [= <- <- <- <-].
  assert (∀ y, (y mod 256 < 256)%Z) by (intros y; pose proof (Z.mod_pos_bound y 256 ltac:(lia)); lia).
  rewrite Uint32_add; rewrite ?code_byte_of; try done.
  rewrite !Z.shiftr_div_pow2 by lia. Z.to_euclidean_division_equations. lia.
Qed.

(** The top bit says compressed and leaves the size alone. *)
Lemma compressed_size z : (0 ≤ z ≤ MaxRecord)%Z →
  Z.lor z CompressedBit = (z + 2 ^ 31)%Z ∧
  (Z.land (z + 2 ^ 31) CompressedBit =? 0)%Z = false ∧ Z.ldiff (z + 2 ^ 31) CompressedBit = z ∧
  (Z.land z CompressedBit =? 0)%Z = true ∧ Z.ldiff z CompressedBit = z.
Proof.
  unfold MaxRecord, CompressedBit. rewrite !Z.shiftl_mul_pow2, !Z.mul_1_l by lia. intros Hz.
  assert (Hlow : ∀ i, (31 ≤ i)%Z → Z.testbit z i = false).
  { intros i Hi. rewrite <- (Z.mod_small z (2 ^ 31)) by lia. apply Z.mod_pow2_bits_high. lia. }
  assert (Hlor : Z.lor z (2 ^ 31) = (z + 2 ^ 31)%Z).
  { pose proof (lor_add z 1 31) as Hl. rewrite Z.shiftl_mul_pow2, Z.mul_1_l in Hl by lia. apply Hl; lia. }
  assert (Hland : Z.land z (2 ^ 31) = 0%Z).
  { apply Z.bits_inj'. intros i Hi. rewrite Z.land_spec, Z.pow2_bits_eqb, Z.bits_0 by lia.
    destruct (Z.eqb_spec 31 i) as [<-|]; [by rewrite Hlow|by rewrite andb_false_r]. }
  assert (Hdiff : Z.ldiff z (2 ^ 31) = z).
  { apply Z.bits_inj'. intros i Hi. rewrite Z.ldiff_spec, Z.pow2_bits_eqb by lia.
    destruct (Z.eqb_spec 31 i) as [<-|]; [by rewrite Hlow|by rewrite andb_true_r]. }
  rewrite <- Hlor. split_and!; try done; [| |by rewrite Hland].
  - apply Z.eqb_neq. intros H0. apply (f_equal (λ x, Z.testbit x 31)) in H0.
    rewrite Z.land_spec, Z.lor_spec, Z.pow2_bits_true, Z.bits_0, orb_true_r in H0 by lia. done.
  - apply Z.bits_inj'. intros i Hi. rewrite Z.ldiff_spec, Z.lor_spec, Z.pow2_bits_eqb by lia.
    destruct (Z.eqb_spec 31 i) as [<-|]; [by rewrite Hlow|].
    by rewrite orb_false_r, andb_true_r.
Qed.

Section Replay.
Context `{AEAD} `{OS} `{Codec} `{RecordJSON V}.
Implicit Types (j k : Journal) (s t : bytes).

(** What replay builds: everything but the handle. *)
Definition log_of j : Z * string * Z * list JRec * list Z :=
  (j_seq j, j_prev j, j_size j, j_records j, j_offsets j).

Lemma read_frame_spec j s j' rest : read_frame j s = Some (j', rest) →
  ∃ hd body plain r legacy, s = hd ++ body ++ rest ∧ List.length hd = 4%nat ∧
    (28 ≤ blen body)%Z ∧ record_Decode plain = Some r ∧
    Sequence r = u64 (j_seq j + 1) ∧ Previous r = j_prev j ∧ Kind r ≠ "" ∧
    j' = set_log legacy (Sequence r) (sha256_hex plain) (j_size j + blen (hd ++ body))
           (j_records j ++ [r]) (j_offsets j ++ [j_size j + blen (hd ++ body)])%Z j.
Proof.
  destruct s as [|a [|b [|c [|e s1]]]]; try done. unfold read_frame. cbv zeta.
  set (size := Z.ldiff _ _). destruct (_ || _) eqn:Hsz; [done|].
  destruct (blen s1 <? size)%Z eqn:Hlen; [done|]. guards.
  destruct (Box_Open _ _ _) as [p0|]; [|done]. simpl.
  destruct (frame_plain _ _) as [p|]; [|done]. simpl.
  destruct (record_Decode p) as [r|] eqn:Hr; [|done]. simpl.
  destruct (_ || _) eqn:Hchk; [done|]. guards. intros [= <- <-].
  assert (Hbody : blen (take (Z.to_nat size) s1) = size).
  { unfold blen in *. rewrite length_take. lia. }
  exists [a; b; c; e], (take (Z.to_nat size) s1), p, r. eexists. split_and!; try done.
  - by rewrite take_drop.
  - lia.
  - assert (blen ([a; b; c; e] ++ take (Z.to_nat size) s1) = size + 4)%Z as ->.
    { unfold blen in *. rewrite length_app. simpl. lia. }
    by rewrite Z.add_assoc.
Qed.

Lemma read_frame_shrinks j s j' rest : read_frame j s = Some (j', rest) →
  (List.length rest + 32 ≤ List.length s)%nat.
Proof.
  intros (hd & body & ? & ? & ? & -> & Hhd & Hb & _)%read_frame_spec.
  unfold blen in Hb. rewrite !length_app. lia.
Qed.

Lemma read_frame_app j s t j' rest : read_frame j s = Some (j', rest) →
  read_frame j (s ++ t) = Some (j', rest ++ t).
Proof.
  destruct s as [|a [|b [|c [|e s1]]]]; try done. unfold read_frame. simpl. cbv zeta.
  set (size := Z.ldiff _ _). destruct (_ || _) eqn:Hsz; [done|].
  destruct (blen s1 <? size)%Z eqn:Hlen; [done|]. guards.
  assert (Z.to_nat size ≤ List.length s1)%nat by (unfold blen in *; lia).
  rewrite (proj2 (Z.ltb_ge _ _)) by (unfold blen in *; rewrite length_app; lia).
  rewrite take_app_le, drop_app_le by done.
  destruct (Box_Open _ _ _) as [p0|]; [|done]. simpl.
  destruct (frame_plain _ _) as [p|]; [|done]. simpl.
  destruct (record_Decode p) as [r|]; [|done]. simpl.
  destruct (_ || _); [done|]. by intros [= <- <-].
Qed.

(** Replay looks at the log so far and the key only. *)
Lemma read_frame_log j k s j' rest :
  log_of j = log_of k → j_box j = j_box k → read_frame j s = Some (j', rest) →
  ∃ k', read_frame k s = Some (k', rest) ∧ log_of j' = log_of k' ∧ j_box j' = j_box k'.
Proof.
  intros Hl Hb. injection Hl as E1 E2 E3 E4 E5.
  destruct s as [|a [|b [|c [|e s1]]]]; try done. unfold read_frame. cbv zeta.
  destruct (_ || _); [done|]. destruct (_ <? _)%Z; [done|]. rewrite Hb, E1, E2, E3, E4, E5.
  destruct (Box_Open _ _ _) as [p0|]; [|done]. simpl.
  destruct (frame_plain _ _) as [p|]; [|done]. simpl.
  destruct (record_Decode p) as [r|]; [|done]. simpl.
  destruct (_ || _); [done|]. intros [= <- <-]. eexists. by split_and!.
Qed.

(** Replay as a relation: [j], having read the file so far, reads [s] and ends as [k]. *)
Inductive replays : Journal → bytes → Journal → Prop :=
  | rp_done j : replays j [] j
  | rp_frame j s j1 rest k :
      read_frame j s = Some (j1, rest) → replays j1 rest k → replays j s k.

#[local] Arguments read_frame : simpl never.

Lemma replay_loop_replays fuel j s k : replay_loop fuel j s = Some k → replays j s k.
Proof.
  revert j s. induction fuel as [|fuel IH]; intros j [|c s]; simpl; try done.
  - intros [= <-]. constructor.
  - intros [= <-]. constructor.
  - destruct (read_frame j (c :: s)) as [[j1 rest]|] eqn:Hf; [|done].
    intros Hk. econstructor; eauto.
Qed.

Lemma replays_loop j s k : replays j s k → ∀ fuel, (List.length s ≤ fuel)%nat →
  replay_loop fuel j s = Some k.
Proof.
  induction 1 as [j|j s j1 rest k Hf Hr IH]; intros fuel Hfuel; [by destruct fuel|].
  pose proof (read_frame_shrinks _ _ _ _ Hf).
  destruct s as [|c s]; [done|]. destruct fuel as [|fuel]; [simpl in *; lia|].
  simpl. rewrite Hf. apply IH. simpl in *. lia.
Qed.

(** The length of the file is fuel enough, and more fuel changes nothing. *)
Lemma load_replays j s k : load j s = Some k ↔ replays j s k.
Proof. split; [apply replay_loop_replays|]. intros Hr. by apply (replays_loop _ _ _ Hr). Qed.

Lemma replays_det j s k k' : replays j s k → replays j s k' → k = k'.
Proof. rewrite <- !load_replays. congruence. Qed.

Lemma replays_app j s j1 t k : replays j s j1 → replays j1 t k → replays j (s ++ t) k.
Proof.
  induction 1 as [j|j s j1 rest k' Hf Hr IH]; [done|]. intros Ht.
  econstructor; [by apply read_frame_app|]. by apply IH.
Qed.

(** A file that starts with a complete journal is read as that journal first. *)
Lemma replays_app_inv j s j1 t k : replays j s j1 → replays j (s ++ t) k → replays j1 t k.
Proof.
  induction 1 as [j|j s j1 rest k' Hf Hr IH]; [done|]. intros Ht. apply IH.
  apply (read_frame_app _ _ t) in Hf. inversion Ht as [? Hn Hj|? ? ? ? ? Hf' Hr']; subst.
  - by rewrite <- Hj in Hf.
  - rewrite Hf in Hf'. by simplify_eq.
Qed.

Lemma replays_log j s j' k : replays j s j' → log_of j = log_of k → j_box j = j_box k →
  ∃ k', replays k s k' ∧ log_of j' = log_of k' ∧ j_box j' = j_box k'.
Proof.
  intros Hr. revert k. induction Hr as [j|j s j1 rest j' Hf Hr IH]; intros k Hl Hb.
  { exists k. split_and!; [constructor|done..]. }
  destruct (read_frame_log _ _ _ _ _ Hl Hb Hf) as (k1 & Hk1 & Hl1 & Hb1).
  destruct (IH k1 Hl1 Hb1) as (k' & Hk' & ?). exists k'. split; [|done]. by econstructor.
Qed.

Lemma replays_prefix j s k : replays j s k → j_records j `prefix_of` j_records k.
Proof.
  induction 1 as [j|j s j1 rest k Hf Hr IH]; [done|]. etrans; [|exact IH].
  apply read_frame_spec in Hf as (? & ? & ? & ? & ? & _ & _ & _ & _ & _ & _ & _ & ->).
  simpl. by apply prefix_app_r.
Qed.

Lemma replays_const j s k : replays j s k →
  j_box k = j_box j ∧ j_dir k = j_dir j ∧ j_limit k = j_limit j ∧ j_file k = j_file j ∧
  j_poisoned k = j_poisoned j ∧ j_recovery k = j_recovery j ∧ j_anchor k = j_anchor j.
Proof.
  induction 1 as [j|j s j1 rest k Hf Hr IH]; [done|].
  apply read_frame_spec in Hf as (? & ? & ? & ? & ? & _ & _ & _ & _ & _ & _ & _ & ->). done.
Qed.

(** ** What a loaded journal satisfies *)

Lemma blen_app s t : blen (s ++ t) = (blen s + blen t)%Z.
Proof. unfold blen. rewrite length_app. lia. Qed.
Lemma blen_nonneg s : (0 ≤ blen s)%Z.
Proof. unfold blen. lia. Qed.

(** Records are numbered from 1, each takes at least 32 bytes, and each has an offset. *)
Record numbered j : Prop := {
  nb_seq : j_seq j = Z.of_nat (List.length (j_records j));
  nb_offsets : List.length (j_offsets j) = List.length (j_records j);
  nb_size : (32 * j_seq j ≤ j_size j)%Z;
  nb_sequence : ∀ i r, j_records j !! i = Some r → Sequence r = (Z.of_nat i + 1)%Z ∧ Kind r ≠ "";
  nb_first : ∀ r, head (j_records j) = Some r → Previous r = "";
  nb_empty : j_records j = [] → j_prev j = "";
  nb_utf8 : utf8_valid (j_prev j) = true;
}.

Lemma numbered_new dir b limit : numbered (new_journal dir b limit).
Proof. by split. Qed.

Lemma u64_next j : numbered j → (j_size j ≤ 2 ^ 30)%Z → u64 (j_seq j + 1) = (j_seq j + 1)%Z.
Proof. intros [Hs _ Hz _ _ _ _] Hle. apply u64_id. lia. Qed.

(** One more record keeps the numbering. *)
Lemma numbered_snoc j legacy r h size :
  numbered j → (j_size j ≤ 2 ^ 30)%Z → (32 ≤ size)%Z →
  Sequence r = u64 (j_seq j + 1) → Previous r = j_prev j → Kind r ≠ "" → utf8_valid h = true →
  numbered (set_log legacy (Sequence r) h (j_size j + size)%Z (j_records j ++ [r])
              (j_offsets j ++ [j_size j + size])%Z j).
Proof.
  intros Hn Hz Hs Hseq Hprev Hk Hh. rewrite u64_next in Hseq by done. destruct Hn as [H1' H2' H3' H4' H5' H6' H7'].
  split; simpl; rewrite ?length_app; simpl; try done; try lia.
  - intros i r' [Hi|[Hi Hr]]%lookup_app_Some; [by apply H4'|].
    apply list_lookup_singleton_Some in Hr as [Hi0 <-]. split; [|done].
    lia.
  - intros r'. destruct (j_records j) eqn:Hr; simpl; [|intros [= <-]; by apply H5'].
    intros [= <-]. rewrite Hprev. by apply H6'.
  - intros Hx. by destruct (j_records j).
Qed.

Lemma read_frame_size j s j1 rest : read_frame j s = Some (j1, rest) →
  (j_size j1 + blen rest = j_size j + blen s)%Z ∧ (j_size j + 32 ≤ j_size j1)%Z.
Proof.
  intros (hd & body & ? & ? & ? & -> & Hhd & Hb & _ & _ & _ & _ & ->)%read_frame_spec. simpl.
  rewrite !blen_app. assert (blen hd = 4%Z) by (unfold blen; lia). lia.
Qed.

Lemma replays_size j s k : replays j s k → j_size k = (j_size j + blen s)%Z.
Proof.
  induction 1 as [j|j s j1 rest k Hf Hr IH]; [unfold blen; simpl; lia|].
  apply read_frame_size in Hf as [? _]. lia.
Qed.

Lemma replays_numbered j s k : replays j s k → numbered j → (j_size j + blen s ≤ 2 ^ 30)%Z → numbered k.
Proof.
  induction 1 as [j|j s j1 rest k Hf Hr IH]; intros Hn Hle; [done|].
  destruct (read_frame_size _ _ _ _ Hf) as [Hs1 Hs2]. apply IH; [|lia].
  apply read_frame_spec in Hf as (hd & body & p & r & l & -> & Hhd & Hb & _ & Hq & Hp & Hkd & ->).
  rewrite !blen_app in *. simpl in *. assert (blen hd = 4%Z) by (unfold blen; lia).
  pose proof (blen_nonneg rest). apply numbered_snoc; try done; try lia. apply sha256_utf8.
Qed.

(** ** The hash chain *)

(** A frame read, whatever follows it. *)
Definition extends j k : Prop := ∃ s rest, read_frame j s = Some (k, rest).

Lemma replays_extends j s k : replays j s k → rtc extends j k.
Proof.
  induction 1 as [j|j s j1 rest k Hf Hr IH]; [done|]. eapply rtc_l; [|exact IH]. by exists s, rest.
Qed.

Lemma extends_spec j k : extends j k → ∃ plain r, record_Decode plain = Some r ∧
  Previous r = j_prev j ∧ j_prev k = sha256_hex plain ∧ j_records k = j_records j ++ [r].
Proof.
  intros (s & rest & Hf). apply read_frame_spec in Hf
    as (? & ? & p & r & l & _ & _ & _ & Hr & _ & Hp & _ & ->). by exists p, r.
Qed.

(** The digest at the head of the chain fixes the whole chain. *)
Lemma chain_unique j0 j0' k k' :
  (∀ p q, sha256_hex p = sha256_hex q → p = q) →
  j_records j0 = [] → j_records j0' = [] →
  rtc extends j0 k → rtc extends j0' k' →
  List.length (j_records k) = List.length (j_records k') → j_prev k = j_prev k' →
  j_records k = j_records k'.
Proof.
  intros Hinj He He' Hk. revert k'. pattern k. revert k Hk.
  apply rtc_ind_r; [|intros j k Hj Hjk IH]; intros k' Hk' Hlen Hprev.
  { rewrite He in *. simpl in Hlen. by destruct (j_records k'). }
  apply extends_spec in Hjk as (p & r & Hp & Hpr & Hpk & Hrk).
  apply rtc_inv_r in Hk' as [<-|(j' & Hj' & Hjk')].
  { rewrite Hrk, He', length_app in Hlen. simpl in Hlen. lia. }
  apply extends_spec in Hjk' as (p' & r' & Hp' & Hpr' & Hpk' & Hrk').
  rewrite Hpk, Hpk' in Hprev. apply Hinj in Hprev as <-. assert (r' = r) as -> by congruence.
  rewrite Hrk, Hrk', !length_app in *. simpl in *. f_equal. apply IH; [done|lia|congruence].
Qed.
End Replay.

(** The head digest of a journal is a commitment to all of it: two ledgers, on
      whatever disks and under whatever keys, that load with equally many records and
      the same head digest hold the same records, as long as SHA-256 has no collision. *)
Theorem head_digest_commits `{AEAD} `{Codec} `{RecordJSON V} (d d' : string) b b' l l' s s' k k' :
  (∀ p q, sha256_hex p = sha256_hex q → p = q) →
  load (new_journal d b l) s = Some k → load (new_journal d' b' l') s' = Some k' →
  j_seq k = j_seq k' → (blen s ≤ 2 ^ 30)%Z → (blen s' ≤ 2 ^ 30)%Z →
  j_prev k = j_prev k' → Records k = Records k'.
Proof.
  intros Hinj Hk%load_replays Hk'%load_replays Hseq Hs Hs' Hprev.
  destruct (replays_numbered _ _ _ Hk (numbered_new _ _ _)) as [Hn _ _ _ _ _ _]; [done|].
  destruct (replays_numbered _ _ _ Hk' (numbered_new _ _ _)) as [Hn' _ _ _ _ _ _]; [done|].
  eapply chain_unique; [exact Hinj| | |eapply replays_extends, Hk|eapply replays_extends, Hk'| |done]; [done..|].
  lia.
Qed.
