(* ===== verification/JournalLog.v ===== *)
(** Appending to the journal: what [frame] writes is what replay reads, compaction
    rewrites the ledger without changing the records, and [Append] keeps the file
    and the journal in memory in step, whatever fails. *)
From stdpp Require Import base gmap strings list pretty.
From Stdlib Require Import Ascii String.
From S2P Require Import Prelude GoStrings Journal JournalProps.
Local Open Scope string_scope.
Local Open Scope list_scope.

Section Frames.
Context `{AEAD} `{OS} `{Codec} `{RecordJSON V}.
Abbreviation D := (M Disk JErr).
Implicit Types (j k : Journal) (s t : bytes) (d : Disk).
#[local] Arguments read_frame : simpl never.

Lemma wp_sys e (Q : res JErr unit → Disk → Prop) d :
  (∀ r d', files d' = files d → Q r d') → wp (sys e) Q d.
Proof. intros HQ. unfold wp, sys. destruct (io_ok (calls d)); by apply HQ. Qed.

(** A sealed text opens again, and is 28 bytes longer. *)
Lemma wp_Box_Seal b plain a (Q : res JErr bytes → Disk → Prop) d :
  (∀ enc d', files d' = files d → Box_Open b enc a = Some plain → blen enc = (blen plain + 28)%Z →
     Q (Ok enc) d') →
  (∀ e d', files d' = files d → Q (Err e) d') →
  wp (Box_Seal b plain a) Q d.
Proof.
  intros Hok Herr. unfold Box_Seal. apply wp_bind. unfold wp at 1, io_Nonce.
  destruct (io_ok (calls d)); [|by apply Herr]. apply wp_ret.
  pose proof (io_nonce_len (calls d)) as Hn. set (n := io_nonce _) in *.
  assert (blen (n ++ gcm_seal (box_key b) n plain a) = blen plain + 28)%Z as Hlen.
  { rewrite blen_app. unfold blen. rewrite gcm_overhead, Hn. lia. }
  apply Hok; [done| |done]. unfold Box_Open.
  rewrite (proj2 (Z.ltb_ge _ _)) by (rewrite Hlen; pose proof (blen_nonneg plain); lia).
  rewrite take_app_length', drop_app_length' by done. apply gcm_roundtrip.
Qed.

(** A frame: four bytes that hold the size and the flag, and a sealed body of that size. *)
Definition framed (b : Box) (plain : bytes) (compressed : bool) (buf : bytes) : Prop :=
  ∃ x y z w body p0,
    buf = x :: y :: z :: w :: body ∧
    negb (Z.land (Uint32 x y z w) CompressedBit =? 0)%Z = compressed ∧
    Z.ldiff (Uint32 x y z w) CompressedBit = blen body ∧
    (28 ≤ blen body ≤ MaxRecord)%Z ∧
    Box_Open b body aad = Some p0 ∧
    (if compressed then p0 = zlib_deflate plain else p0 = plain).

Lemma wp_frame b plain (Q : res JErr (bytes * bool) → Disk → Prop) d :
  (∀ buf c d', files d' = files d → framed b plain c buf → Q (Ok (buf, c)) d') →
  (∀ e d', files d' = files d → Q (Err e) d') →
  wp (frame b plain) Q d.
Proof.
  intros Hok Herr. unfold frame. cbv zeta. set (c := (_ <? _)%Z).
  apply wp_bind, wp_Box_Seal; [|done].
  intros enc d' Hd' Hopen Hlen. apply wp_bind, wp_fail_if; [intros _; by apply Herr|].
  intros Hmax%Z.ltb_ge. apply wp_ret, Hok; [done|].
  set (length := if c then _ else _).
  destruct (PutUint32 length) as [|x [|y [|z [|w [|]]]]] eqn:Hput; try done.
  assert (0 ≤ blen enc ≤ MaxRecord)%Z as Hb by (pose proof (blen_nonneg enc); lia).
  assert (28 ≤ blen enc)%Z by (rewrite Hlen; pose proof (blen_nonneg (if c then zlib_deflate plain else plain)); lia).
  destruct (compressed_size _ Hb) as (Hlor & C1 & C2 & C3 & C4).
  assert (MaxRecord = 2 ^ 20)%Z as HM by done.
  apply header_roundtrip in Hput; [|unfold length; rewrite Hlor; destruct c; lia].
  exists x, y, z, w, enc, (if c then zlib_deflate plain else plain). rewrite Hput. unfold length.
  rewrite Hlor. destruct c; rewrite ?C1, ?C2, ?C3, ?C4; by split_and!.
Qed.

(** A frame is read back as the record it was made of. *)
Lemma framed_read j plain c buf t r :
  framed (j_box j) plain c buf → (blen plain + 28 ≤ MaxRecord)%Z → record_Decode plain = Some r →
  Sequence r = u64 (j_seq j + 1) → Previous r = j_prev j → Kind r ≠ "" →
  read_frame j (buf ++ t) =
    Some (set_log (if c then j_legacy j else true) (Sequence r) (sha256_hex plain) (j_size j + blen buf)
            (j_records j ++ [r]) (j_offsets j ++ [j_size j + blen buf])%Z j, t).
Proof.
  intros (x & y & z & w & body & p0 & -> & Hc & Hsz & Hb & Hopen & Hp) Hmax Hr Hs Hpv Hk.
  unfold read_frame. simpl. cbv zeta. rewrite Hc, Hsz.
  rewrite (proj2 (Z.ltb_ge _ 28)), (proj2 (Z.ltb_ge MaxRecord _)) by lia. simpl.
  rewrite (proj2 (Z.ltb_ge _ _)) by (rewrite blen_app; pose proof (blen_nonneg t); lia).
  assert (Z.to_nat (blen body) = List.length body) as Hn by (unfold blen; lia).
  rewrite take_app_length', drop_app_length' by done. rewrite Hopen. simpl.
  assert (frame_plain c p0 = Some plain) as Hpl.
  { unfold frame_plain. destruct c; subst p0; [|done]. rewrite zlib_roundtrip by lia.
    rewrite (proj2 (Z.ltb_ge _ _)) by lia. done. }
  rewrite Hpl. simpl. rewrite Hr. simpl. rewrite Hs, Z.eqb_refl. simpl.
  rewrite (bool_decide_eq_true_2 (Previous r = j_prev j)), (bool_decide_eq_false_2 (Kind r = "")) by done.
  simpl. assert (blen (x :: y :: z :: w :: body) = blen body + 4)%Z as -> by (unfold blen; simpl; lia).
  by rewrite Z.add_assoc.
Qed.

Lemma framed_size b plain c buf : framed b plain c buf → (32 ≤ blen buf)%Z.
Proof.
  intros (x & y & z & w & body & p0 & -> & _ & _ & Hb & _). unfold blen in *. simpl. lia.
Qed.

(** A frame cut short is not read. *)
Lemma framed_torn j b plain c buf t u :
  framed b plain c buf → buf = t ++ u → u ≠ [] → t ≠ [] → read_frame j t = None.
Proof.
  intros (x & y & z & w & body & p0 & -> & Hc & Hsz & Hb & _) Heq Hu Ht.
  destruct t as [|x' [|y' [|z' [|w' t]]]]; try done. simpl in Heq. injection Heq as <- <- <- <- ->.
  unfold read_frame. cbv zeta. rewrite Hsz. destruct (_ || _); [done|].
  rewrite (proj2 (Z.ltb_lt _ _)); [done|]. rewrite blen_app. destruct u; [done|].
  unfold blen at 3. simpl. lia.
Qed.
End Frames.

(** C35. A ledger whose last frame was torn by a crash is refused: a complete journal
      followed by a proper, non-empty part of a frame the journal wrote does not
      load, so nothing is dropped silently. *)
Theorem torn_frame_refused `{AEAD} `{OS} `{Codec} `{RecordJSON V} dir b limit s k plain d buf c d' t u :
  load (new_journal dir b limit) s = Some k →
  frame b plain d = (Ok (buf, c), d') → buf = t ++ u → t ≠ [] → u ≠ [] →
  load (new_journal dir b limit) (s ++ t) = None.
Proof.
  intros Hk%load_replays Hf Heq Ht Hu.
  assert (framed b plain c buf) as Hfr.
  { pose proof (wp_frame b plain (λ r _, r = Ok (buf, c) → framed b plain c buf) d) as Hw.
    unfold wp in Hw. rewrite Hf in Hw. apply Hw; [|done|done]. by intros ? ? ? _ ? [= <- <-]. }
  destruct (load _ (s ++ t)) as [k'|] eqn:Hl; [|done].
  apply load_replays in Hl. apply (replays_app_inv _ _ _ _ _ Hk) in Hl.
  inversion Hl as [|? ? ? ? ? Hr]; subst; [done|].
  by rewrite (framed_torn _ _ _ _ _ _ _ Hfr eq_refl) in Hr.
Qed.

Section Log.
Context `{AEAD} `{OS} `{Codec} `{RecordJSON V}.
Abbreviation D := (M Disk JErr).
Abbreviation JM := (M (Journal * Disk) JErr).
Implicit Types (j k : Journal) (s t : bytes) (d : Disk).
#[local] Arguments read_frame : simpl never.

(** A record whose encoding reads back and fits a frame. *)
Definition canonical (r : JRec) : Prop :=
  ∃ p, record_Marshal r = Some p ∧ record_Decode p = Some r ∧ (blen p + 28 ≤ MaxRecord)%Z.

(** Nothing but the ledger of [dir] changed. *)
Definition only (dir : string) d d' : Prop :=
  ∀ key, key ≠ (dir, "ledger.bin") → files d' !! key = files d !! key.

Global Instance only_preorder dir : PreOrder (only dir).
Proof. split; [done|]. intros d1 d2 d3 H12 H23 key Hk. by rewrite H23, H12. Qed.

Lemma only_files dir d d' : files d' = files d → only dir d d'.
Proof. intros Hf key _. by rewrite Hf. Qed.

(** The bytes behind a journal: nothing, or a part of the frame of the record that
    was about to be appended. *)
Definition unfinished j (t : bytes) : Prop :=
  ∃ r p c u, record_Marshal r = Some p ∧ record_Decode p = Some r ∧ (blen p + 28 ≤ MaxRecord)%Z ∧
    Sequence r = u64 (j_seq j + 1) ∧ Previous r = j_prev j ∧ Kind r ≠ "" ∧
    framed (j_box j) p c (t ++ u).

(** The journal in memory and the bytes on disk: the ledger starts with what replay
    would make into this journal; only a poisoned journal has more behind it. *)
Record jinv j d : Prop := {
  ji_numbered : numbered j;
  ji_limit : (j_limit j ≤ 2 ^ 30)%Z;
  ji_size : (j_size j ≤ j_limit j)%Z;
  ji_canonical : Forall canonical (j_records j);
  ji_stored : ∃ s t k, content (j_dir j) d = s ++ t ∧
    replays (new_journal (j_dir j) (j_box j) (j_limit j)) s k ∧ log_of k = log_of j ∧
    (t = [] ∨ j_poisoned j = true ∧ unfinished j t);
}.

Lemma jinv_disk j d d' : content (j_dir j) d' = content (j_dir j) d → jinv j d → jinv j d'.
Proof. intros Hc [? ? ? ? ?]. split; try done. by rewrite Hc. Qed.

Lemma jinv_poison j d : jinv j d → jinv (set_poisoned j) d.
Proof.
  intros [[] Hl Hs Hc (s & t & k & Hf & Hr & Hlog & Ht)]. split; try done.
  exists s, t, k. split_and!; try done. destruct Ht as [->|[_ Ht]]; [by left|by right].
Qed.

(** A write of the next frame that failed part of the way. *)
Lemma jinv_torn j d d' t : jinv j d → j_poisoned j = false → unfinished j t →
  content (j_dir j) d' = content (j_dir j) d ++ t → jinv (set_poisoned j) d'.
Proof.
  intros [[] Hl Hs Hc (s & t0 & k & Hf & Hr & Hlog & Ht0)] Hp Ht Hd'. split; try done.
  destruct Ht0 as [->|[? _]]; [|congruence]. rewrite app_nil_r in Hf.
  exists s, t, k. split_and!; try done; [simpl; by rewrite Hd', Hf|by right].
Qed.

(** ** Compaction *)

Lemma wp_compact_record b c r dir limit k recs (Q : res JErr Compact → Disk → Prop) d :
  replays (new_journal dir b limit) (cp_out c) k →
  log_of k = (j_seq k, cp_prev c, cp_size c, recs, cp_offsets c) →
  canonical r → Sequence r = u64 (j_seq k + 1) → Kind r ≠ "" →
  (∀ e d', files d' = files d → Q (Err e) d') →
  (∀ c' d' k', files d' = files d → replays (new_journal dir b limit) (cp_out c') k' →
     log_of k' = (Sequence r, cp_prev c', cp_size c', recs ++ [r], cp_offsets c') → Q (Ok c') d') →
  wp (compact_record b c r) Q d.
Proof.
  intros Hk Hlog (p & Hp & Hdec & Hsz) Hseq Hkind Herr Hok. unfold compact_record.
  rewrite Hp. apply wp_bind, wp_ret. apply wp_bind, wp_fail_if; [intros _; by apply Herr|].
  intros Hprev. guards. apply wp_bind, wp_frame; [|done]. intros buf cm d1 Hd1 Hfr.
  apply wp_bind, wp_sys. intros [[]|e] d2 Hd2; [|apply Herr; congruence].
  apply wp_ret. injection Hlog as Eprev Esize Erecs Eoffs.
  destruct (replays_const _ _ _ Hk) as (Hbox & _).
  assert (framed (j_box k) p cm buf) as Hfr' by by rewrite Hbox.
  pose proof (framed_read k p cm buf [] r Hfr' Hsz Hdec Hseq ltac:(congruence) Hkind) as Hread.
  rewrite app_nil_r in Hread.
  eapply Hok; [congruence|eapply replays_app; [exact Hk|]|].
  - econstructor; [exact Hread|constructor].
  - unfold log_of. simpl. by rewrite Esize, Erecs, Eoffs.
Qed.

Lemma wp_compact_loop b dir limit recs c k done_ (Q : res JErr Compact → Disk → Prop) d :
  replays (new_journal dir b limit) (cp_out c) k →
  log_of k = (j_seq k, cp_prev c, cp_size c, done_, cp_offsets c) →
  Forall canonical recs →
  (0 ≤ j_seq k)%Z → (j_seq k + Z.of_nat (List.length recs) < 2 ^ 64)%Z →
  (∀ i r, recs !! i = Some r → Sequence r = (j_seq k + Z.of_nat i + 1)%Z ∧ Kind r ≠ "") →
  (∀ e d', files d' = files d → Q (Err e) d') →
  (∀ c' d' k', files d' = files d → replays (new_journal dir b limit) (cp_out c') k' →
     log_of k' = ((j_seq k + Z.of_nat (List.length recs))%Z, cp_prev c', cp_size c', done_ ++ recs, cp_offsets c') →
     Q (Ok c') d') →
  wp (for_fold recs c (compact_record b)) Q d.
Proof.
  revert c k done_ d. induction recs as [|r recs IH]; intros c k done_ d Hk Hlog Hcan Hpos Hmax Hseq Herr Hok.
  { apply wp_ret. eapply Hok; [done|exact Hk|]. by rewrite app_nil_r, Hlog, Z.add_0_r. }
  apply Forall_cons in Hcan as [Hr Hcan]. simpl. apply wp_bind.
  destruct (Hseq 0%nat r eq_refl) as [Hs Hkind]. simpl in Hmax.
  eapply wp_compact_record; [exact Hk|exact Hlog|done| |done|done|].
  { rewrite Hs, u64_id; lia. }
  intros c' d' k' Hd' Hk' Hlog'. pose proof Hlog' as E. injection E as E1 E2 E3 E4 E5.
  eapply (IH c' k' (done_ ++ [r])); [exact Hk'|by rewrite Hlog', E1|done|lia|lia| |intros; apply Herr; congruence|].
  - intros i r' Hi. destruct (Hseq (S i) r' Hi) as [-> ?]. split; [lia|done].
  - intros c2 d2 k2 Hd2 Hk2 Hl2. eapply Hok; [congruence|exact Hk2|].
    rewrite Hl2, <- app_assoc. simpl. do 4 f_equal. lia.
Qed.

Lemma wp_on_disk {A} (m : D A) (Q : res JErr A → Journal * Disk → Prop) j d :
  wp m (λ r d', Q r (j, d')) d → wp (on_disk m) Q (j, d).
Proof. unfold wp, on_disk. by destruct (m d). Qed.
Lemma wp_get_j (Q : res JErr Journal → Journal * Disk → Prop) j d : Q (Ok j) (j, d) → wp get_j Q (j, d).
Proof. done. Qed.
Lemma wp_upd_j f (Q : res JErr unit → Journal * Disk → Prop) j d : Q (Ok tt) (f j, d) → wp (upd_j f) Q (j, d).
Proof. done. Qed.

(** What compaction leaves alone. *)
Definition handle j := (j_file j, j_dir j, j_box j, j_limit j, j_recovery j, j_anchor j).
Definition memory j := (j_seq j, j_prev j, j_records j).

Lemma content_put dir b d : content dir (put_file (dir, "ledger.bin") b d) = b.
Proof. unfold content, put_file. simpl. by rewrite lookup_insert_eq. Qed.
Lemma only_put dir b d : only dir d (put_file (dir, "ledger.bin") b d).
Proof. intros key Hk. simpl. by rewrite lookup_insert_ne. Qed.
Lemma content_files dir d d' : files d' = files d → content dir d' = content dir d.
Proof. unfold content. by intros ->. Qed.
Lemma content_only dir dir' d d' : only dir d d' → dir' ≠ dir → content dir' d' = content dir' d.
Proof. intros Ho Hd. unfold content. rewrite Ho; [done|congruence]. Qed.

(** The rewritten ledger is the same journal. *)
Lemma jinv_compacted j d d' c k :
  jinv j d → replays (new_journal (j_dir j) (j_box j) (j_limit j)) (cp_out c) k →
  log_of k = (j_seq j, j_prev j, cp_size c, j_records j, cp_offsets c) → (cp_size c < j_size j)%Z →
  content (j_dir j) d' = cp_out c →
  jinv (set_log (cp_legacy c) (j_seq j) (j_prev j) (cp_size c) (j_records j) (cp_offsets c) j) d'.
Proof.
  intros [Hn Hl Hs Hc _] Hk Hlog Hlt Hcont. injection Hlog as E1 E2 E3 E4 E5.
  pose proof (replays_size _ _ _ Hk) as Hbk. simpl in Hbk.
  pose proof (replays_numbered _ _ _ Hk (numbered_new _ _ _) ltac:(simpl; lia)) as Hnk.
  split; simpl; try done; [|lia|].
  - destruct Hn, Hnk. split; simpl; congruence || lia || done.
  - exists (cp_out c), [], k. split_and!; try done; [by rewrite app_nil_r| |by left].
    unfold log_of in *. simpl. congruence.
Qed.

Lemma wp_compactLocked (Q : res JErr unit → Journal * Disk → Prop) j d :
  jinv j d → j_poisoned j = false →
  (∀ r j' d', jinv j' d' → handle j' = handle j → memory j' = memory j → only (j_dir j) d d' →
     (r = Ok tt → j_poisoned j' = false) → Q r (j', d')) →
  wp compactLocked Q (j, d).
Proof.
  intros Hinv Hp HQ. unfold compactLocked. apply wp_bind, wp_get_j.
  assert (Hsame : ∀ e d', files d' = files d → Q (Err e) (j, d')).
  { intros e d' Hd'. apply HQ; try done; [|by apply only_files]. eapply jinv_disk; [|done].
    by apply content_files. }
  do 3 (apply wp_bind, wp_on_disk, wp_sys; intros [[]|?] ? ?; [|apply Hsame; congruence]).
  apply wp_bind, wp_on_disk. pose proof Hinv as [Hn Hl Hs Hc _]. pose proof Hn as [Hseq _ Hsz Hrec _ _ _].
  eapply (wp_compact_loop _ (j_dir j) (j_limit j) _ _ (new_journal (j_dir j) (j_box j) (j_limit j)) []);
    [constructor|done|done|done|simpl; lia|simpl; intros i r Hi; destruct (Hrec i r Hi); split; [lia|done]
    |intros; apply Hsame; congruence|].
  simpl. intros c dc k Hdc Hk Hlog. apply wp_bind, wp_fail_if; [intros _; apply Hsame; congruence|].
  intros Hprev. guards. rewrite Z.add_0_l, <- Hseq in Hlog || rewrite <- Hseq in Hlog.
  rewrite Hprev in Hlog. apply wp_if; intros Hle.
  { apply wp_ret, HQ; try done; [|apply only_files; congruence].
    eapply jinv_disk; [|exact Hinv]. apply content_files. congruence. }
  guards.
  do 4 (apply wp_bind, wp_on_disk, wp_sys; intros [[]|?] ? ?; [|apply Hsame; congruence]).
  apply wp_bind, wp_on_disk, wp_modify, wp_bind, wp_upd_j, wp_bind, wp_try, wp_on_disk, wp_sys.
  intros r d9 Hd9. set (j' := set_log _ _ _ _ _ _ _).
  assert (jinv j' d9) as Hinv'.
  { eapply jinv_compacted; try done. rewrite (content_files _ _ _ Hd9). apply content_put. }
  assert (only (j_dir j) d d9).
  { intros key Hkey. rewrite Hd9. simpl. rewrite lookup_insert_ne by done. congruence. }
  destruct r as [[]|e]; [by apply wp_ret, HQ|].
  apply wp_bind, wp_upd_j, wp_throw, HQ; try done. by apply jinv_poison.
Qed.

(** ** Append *)

Lemma jinv_append j d d' legacy r p c buf :
  jinv j d → j_poisoned j = false →
  record_Marshal r = Some p → record_Decode p = Some r → (blen p + 28 ≤ MaxRecord)%Z →
  Sequence r = u64 (j_seq j + 1) → Previous r = j_prev j → Kind r ≠ "" →
  framed (j_box j) p c buf → (j_size j + blen buf ≤ j_limit j)%Z →
  content (j_dir j) d' = content (j_dir j) d ++ buf →
  jinv (set_log legacy (Sequence r) (sha256_hex p) (j_size j + blen buf)%Z
          (j_records j ++ [r]) (j_offsets j ++ [j_size j + blen buf])%Z j) d'.
Proof.
  intros [Hn Hl Hs Hc (s & t & k & Hf & Hr & Hlog & Ht)] Hp Hm Hdec Hsz Hseq Hprev Hk Hfr Hlim Hd'.
  destruct Ht as [->|[? _]]; [|congruence]. rewrite app_nil_r in Hf. split; simpl; try done.
  - apply numbered_snoc; try done; [lia|by eapply framed_size|apply sha256_utf8].
  - apply Forall_app. split; [done|]. repeat constructor. by exists p.
  - pose proof Hlog as E. injection E as E1 E2 E3 E4 E5. destruct (replays_const _ _ _ Hr) as (Hbox & _).
    simpl in Hbox. rewrite <- Hbox in Hfr. rewrite <- E1 in Hseq. rewrite <- E2 in Hprev.
    pose proof (framed_read k p c buf [] r Hfr Hsz Hdec Hseq Hprev Hk) as Hread.
    rewrite app_nil_r in Hread.
    eexists (s ++ buf), [], _. split_and!; [by rewrite Hd', Hf, app_nil_r| | |by left].
    + eapply replays_app; [exact Hr|]. econstructor; [exact Hread|constructor].
    + unfold log_of. simpl. by rewrite E3, E4, E5.
Qed.

Lemma jinv_recovery j d rec : jinv j d → jinv (set_recovery rec j) d.
Proof. by intros [[] Hl Hs Hc Hst]. Qed.

Lemma wp_or_poison {A} (m : JM A) (Q : res JErr A → Journal * Disk → Prop) j d :
  wp m (λ r '(j', d'), match r with Ok a => Q (Ok a) (j', d')
                                  | Err _ => Q (Err ErrUnavailable) (set_poisoned j', d') end) (j, d) →
  wp (or_poison m) Q (j, d).
Proof.
  intros Hm. unfold or_poison. apply wp_bind, wp_try. eapply wp_mono; [exact Hm|].
  intros [a|e] [j' d'] HQ; [by apply wp_ret|]. by apply wp_bind, wp_upd_j, wp_throw.
Qed.

Lemma wp_write dir buf (Q : res JErr unit → Disk → Prop) d :
  (∀ d', content dir d' = content dir d ++ buf → only dir d d' → Q (Ok tt) d') →
  (∀ e d' t u, buf = t ++ u → content dir d' = content dir d ++ t → only dir d d' → Q (Err e) d') →
  wp (write dir "ledger.bin" buf) Q d.
Proof.
  intros Hok Herr. unfold wp, write.
  assert (Hput : ∀ b n, content dir (mkDisk (<[(dir, "ledger.bin") := b]> (files d)) n) = b).
  { intros b n. unfold content. simpl. by rewrite lookup_insert_eq. }
  assert (Honly : ∀ b n, only dir d (mkDisk (<[(dir, "ledger.bin") := b]> (files d)) n)).
  { intros b n key Hk. simpl. by rewrite lookup_insert_ne. }
  destruct (io_ok (calls d)); [apply Hok; [apply Hput|apply Honly]|].
  eapply (Herr _ _ (take (io_short (calls d)) buf)); [by rewrite take_drop|apply Hput|apply Honly].
Qed.

(** Creating an object: it is new and complete, or it is not there, or it is complete
    and only the directory could not be synced. *)
Lemma wp_Create dir name data (Q : res JErr unit → Disk → Prop) d :
  (∀ d', files d !! (dir, name) = None → files d' = <[(dir, name) := data]> (files d) → Q (Ok tt) d') →
  (∀ e d', files d' = files d → Q (Err e) d') →
  (∀ e d', files d !! (dir, name) = None → files d' = <[(dir, name) := data]> (files d) → Q (Err e) d') →
  wp (securefs_Create dir name data) Q d.
Proof.
  intros Hok Hnone Hsync. unfold securefs_Create.
  apply wp_bind, wp_fail_if; [intros _; by apply Hnone|intros _].
  apply wp_bind, wp_get, wp_bind, wp_fail_if; [intros _; by apply Hnone|intros Hnew].
  apply bool_decide_eq_false, eq_None_not_Some in Hnew.
  apply wp_bind, wp_sys. intros [[]|e] d1 Hd1; [|by apply Hnone].
  assert (Hgone : ∀ b, delete (dir, name) (<[(dir, name) := b]> (files d1)) = files d).
  { intros b. rewrite Hd1, delete_insert_eq. by apply delete_id. }
  apply wp_bind, wp_try, wp_bind. unfold wp at 1, write.
  rewrite <- Hd1 in Hnew. unfold bytes in *. rewrite Hnew. destruct (io_ok (calls d1)); simpl.
  - apply wp_sys. intros [[]|e] d2 Hd2.
    + apply wp_sys. intros [[]|e] d3 Hd3; [apply Hok|apply Hsync]; rewrite ?Hd3, ?Hd2; simpl; congruence.
    + apply wp_bind, wp_modify, wp_throw, Hnone. simpl. rewrite Hd2. apply Hgone.
  - apply wp_bind, wp_modify, wp_throw, Hnone. simpl. apply Hgone.
Qed.

Lemma string_bytes x : string_of (bytes_of x) = x.
Proof. apply string_of_list_ascii_of_string. Qed.

Lemma blen_bytes_of x : blen (bytes_of x) = len x.
Proof. unfold blen, bytes_of, len. induction x as [|a x IH]; simpl in *; lia. Qed.

(** Reading a file that is within its limit fails only when the call does. *)
Lemma wp_Read dir name limit (Q : res JErr (option bytes) → Disk → Prop) d :
  Name name = true → (∀ x, files d !! (dir, name) = Some x → (blen x ≤ limit)%Z) →
  (∀ d', files d' = files d → Q (Ok (files d !! (dir, name))) d') →
  (∀ e, io_ok (calls d) = false → Q (Err e) (mkDisk (files d) (S (calls d)))) →
  wp (securefs_Read dir name limit) Q d.
Proof.
  intros Hn Hlim Hok Herr. unfold securefs_Read. rewrite Hn. apply wp_bind, wp_ret, wp_bind, wp_get.
  destruct (files d !! (dir, name)) as [x|] eqn:Hx; [|by apply wp_ret, Hok].
  apply wp_bind. unfold wp at 1, sys. destruct (io_ok (calls d)) eqn:Hio; simpl; [|by apply Herr].
  apply wp_bind, wp_fail_if; [intros Hl%Z.ltb_lt; specialize (Hlim x eq_refl); lia|]. intros _. apply wp_ret.
  by apply Hok.
Qed.

Lemma wp_securefs_Create dir name data (Q : res JErr unit → Disk → Prop) d :
  (∀ r d', (∀ key, key ≠ (dir, name) → files d' !! key = files d !! key) → Q r d') →
  wp (securefs_Create dir name data) Q d.
Proof.
  intros HQ. apply wp_Create; intros; apply HQ; intros key Hk;
    repeat match goal with E : files _ = _ |- _ => rewrite E end; [|done|]; by rewrite lookup_insert_ne.
Qed.

(** Committing to the anchor touches no ledger. *)
Lemma wp_anchor_commit a seq h (Q : res JErr unit → Disk → Prop) d :
  (∀ r d', (∀ dir, content dir d' = content dir d) → Q r d') →
  wp (anchor_commit a seq h) Q d.
Proof.
  intros HQ. unfold anchor_commit. apply wp_bind, wp_Box_Seal.
  2:{ intros e d' Hd'. apply HQ. intros dir. by apply content_files. }
  intros enc d1 Hd1 _ _. apply wp_securefs_Create. intros r d2 Hd2. apply HQ. intros dir.
  unfold content. rewrite Hd2; [by rewrite Hd1|]. intros E. apply (f_equal snd) in E. discriminate E.
Qed.

(** What an append never changes: the handle, except for the recovery journal. *)
Definition base j := (j_file j, j_dir j, j_box j, j_limit j, j_anchor j).

(** Data that a record of this kind carries unchanged. *)
Definition storable (kind : string) (data : any V) : Prop :=
  ∀ raw n prev, any_Marshal data = Some raw → (0 ≤ n < 2 ^ 64)%Z → utf8_valid prev = true →
    ∃ p, record_Marshal (mkJRec n prev kind raw) = Some p ∧
         record_Decode p = Some (mkJRec n prev kind raw).

Lemma storable_value kind v : utf8_valid kind = true → storable kind (Value v).
Proof. intros Hk raw n prev Hraw Hn Hp. by eapply json_record. Qed.

Lemma storable_canonical r : canonical r → storable (Kind r) (RawMessage (Data r)).
Proof.
  intros (p & Hp & Hd & _) raw n prev Hraw Hn Hprev.
  destruct (raw_record r p n prev Hp Hd Hn Hprev) as [Hr Hq]. simpl in Hraw.
  rewrite Hr in Hraw. by injection Hraw as <-.
Qed.

Lemma wp_append_tail (R : Disk → Disk → Prop) `{!PreOrder R} r p buf c
    (Q : res JErr Z → Journal * Disk → Prop) j1 j d :
  j_dir j1 = j_dir j → j_anchor j1 = j_anchor j →
  jinv j d → j_poisoned j = false →
  record_Marshal r = Some p → record_Decode p = Some r → (blen p + 28 ≤ MaxRecord)%Z →
  Sequence r = u64 (j_seq j + 1) → Previous r = j_prev j → Kind r ≠ "" →
  framed (j_box j) p c buf → (j_size j + blen buf ≤ j_limit j)%Z →
  (∀ d1 d2, only (j_dir j) d1 d2 → R d1 d2) →
  (∀ a d1 d2, j_anchor j = Some a → (∀ dir, content dir d2 = content dir d1) → R d1 d2) →
  (∀ e j' d', jinv j' d' → handle j' = handle j → memory j' = memory j → j_poisoned j' = true →
     R d d' → Q (Err e) (j', d')) →
  (∀ j' d', jinv j' d' → handle j' = handle j → j_poisoned j' = false →
     j_records j' = j_records j ++ [r] → R d d' → Q (Ok (Sequence r)) (j', d')) →
  wp (append_tail j1 r p buf c) Q (j, d).
Proof.
  intros Hdir Hanc Hinv Hp Hm Hdec Hsz Hseq Hprev Hk Hfr Hlim HRo HRa Herr Hok.
  assert (Hun : ∀ t u, buf = t ++ u → unfinished j t).
  { intros t u ->. exists r, p, c, u. by split_and!. }
  unfold append_tail. rewrite Hdir, Hanc. apply wp_bind, wp_or_poison, wp_on_disk, wp_write.
  2:{ intros e d' t u Hb Hd' Ho. apply Herr; try done; [|by apply HRo].
      eapply jinv_torn; eauto. }
  intros d1 Hd1 Ho1. assert (HR1 : R d d1) by by apply HRo.
  assert (Hbad : ∀ e d', content (j_dir j) d' = content (j_dir j) d1 → R d1 d' →
                   Q (Err e) (set_poisoned j, d')).
  { intros e d' Hd' HR'. apply Herr; try done; [|by etrans].
    eapply (jinv_torn _ _ _ buf); [done|done|eapply (Hun _ []); by rewrite app_nil_r|congruence]. }
  apply wp_bind, wp_or_poison, wp_on_disk, wp_sys. intros [[]|e] d2 Hd2.
  2:{ apply Hbad; [by apply content_files|by apply HRo, only_files]. }
  assert (HR2 : R d1 d2) by by apply HRo, only_files.
  assert (Hend : ∀ d3, content (j_dir j) d3 = content (j_dir j) d1 → R d1 d3 →
    Q (Ok (Sequence r)) (set_log (if c then j_legacy j else true) (Sequence r) (sha256_hex p)
      (j_size j + blen buf) (j_records j ++ [r]) (j_offsets j ++ [j_size j + blen buf])%Z j, d3)).
  { intros d3 Hd3 HR3. apply Hok; try done; [|by etrans].
    eapply jinv_append; try done. congruence. }
  apply wp_bind. destruct (j_anchor j) as [a|] eqn:Ha.
  - apply wp_or_poison, wp_on_disk, wp_anchor_commit. intros [[]|e] d3 Hd3.
    + apply wp_bind, wp_upd_j, wp_ret, Hend; [|etrans; [exact HR2|by eapply HRa]].
      rewrite Hd3. by apply content_files.
    + apply Hbad; [rewrite Hd3; by apply content_files|]. etrans; [exact HR2|]. by eapply HRa.
  - apply wp_ret, wp_bind, wp_upd_j, wp_ret, Hend; [by apply content_files|done].
Qed.

Lemma wp_append_body (R : option Journal * Disk → option Journal * Disk → Prop) `{!PreOrder R} recover kind data
    (Q : res JErr Z → Journal * Disk → Prop) j d :
  jinv j d → storable kind data →
  (∀ x d1 d2, only (j_dir j) d1 d2 → R (x, d1) (x, d2)) →
  (∀ a x d1 d2, j_anchor j = Some a → (∀ dir, content dir d2 = content dir d1) → R (x, d1) (x, d2)) →
  (∀ raw j1 d1, any_Marshal data = Some raw → handle j1 = handle j →
     R (j_recovery j, d) (j_recovery j1, d1) → wp (recover raw) (λ _ '(j2, d2),
     ∃ rec, j2 = set_recovery rec j1 ∧ content (j_dir j) d2 = content (j_dir j) d1 ∧
     R (j_recovery j1, d1) (rec, d2)) (j1, d1)) →
  (∀ e j' d', jinv j' d' → base j' = base j → memory j' = memory j →
     R (j_recovery j, d) (j_recovery j', d') → Q (Err e) (j', d')) →
  (∀ raw j' d', Healthy j = true → any_Marshal data = Some raw → jinv j' d' → base j' = base j →
     Healthy j' = true → j_records j' = j_records j ++ [mkJRec (j_seq j + 1) (j_prev j) kind raw] →
     R (j_recovery j, d) (j_recovery j', d') → Q (Ok (j_seq j + 1)%Z) (j', d')) →
  wp (append_body recover kind data) Q (j, d).
Proof.
  intros Hinv Hst HRo HRa Hrec Herr Hok. unfold append_body. apply wp_bind, wp_get_j.
  assert (Hsame : ∀ e d', files d' = files d → Q (Err e) (j, d')).
  { intros e d' Hd'. apply Herr; try done; [|by apply HRo, only_files].
    eapply jinv_disk; [|exact Hinv]. by apply content_files. }
  apply wp_bind, wp_fail_if; [intros _; by apply Hsame|]. intros Hg. guards. rename select (j_poisoned j = false) into Hp.
  apply wp_bind, wp_some_or; [|intros _; by apply Hsame]. intros raw Hraw.
  pose proof Hinv as [Hn Hl Hs _ _]. assert (Hu : u64 (j_seq j + 1) = (j_seq j + 1)%Z) by (apply u64_next; [done|lia]).
  set (r := mkJRec (u64 (j_seq j + 1)) (j_prev j) kind raw). cbv zeta.
  apply wp_bind, wp_some_or; [|intros _; by apply Hsame]. intros p Hm.
  assert (record_Decode p = Some r) as Hdec.
  { destruct (Hst raw (u64 (j_seq j + 1)) (j_prev j) Hraw (u64_bound _) (nb_utf8 _ Hn)) as (q & Hq & Hdq).
    unfold r in *. congruence. }
  apply wp_bind, wp_fail_if; [intros _; by apply Hsame|]. intros Hsz. guards.
  apply wp_bind, wp_on_disk, wp_frame; [|intros; by apply Hsame].
  intros buf c d1 Hd1 Hfr. cbn beta iota. apply wp_bind.
  assert (Hinv1 : jinv j d1) by (eapply jinv_disk; [by apply content_files|done]).
  assert (HR1 : R (j_recovery j, d) (j_recovery j, d1)) by by apply HRo, only_files.
  (* after a possible compaction *)
  assert (Hrest : ∀ j1 d2, jinv j1 d2 → handle j1 = handle j → memory j1 = memory j → j_poisoned j1 = false →
    R (j_recovery j, d) (j_recovery j, d2) → wp (append_rest recover r p buf c raw) Q (j1, d2)).
  { intros j1 d2 Hinv1' Hh Hmem Hp1 HR2. injection Hh as B1 B2 B3 B4 B5 B6. injection Hmem as E1 E2 E3.
    unfold append_rest. apply wp_bind, wp_get_j, wp_bind, wp_if; intros Hlim.
    { apply wp_or_poison, wp_throw, Herr; [by apply jinv_poison|unfold base; simpl; congruence
      |unfold memory; simpl; congruence|simpl; by rewrite B5]. }
    guards. apply wp_ret, wp_bind, wp_or_poison. eapply wp_mono; [apply Hrec; [done|unfold handle; congruence|by rewrite B5]|].
    intros r3 [j3 d3] (rec & -> & Hc3 & HR3).
    assert (HR : R (j_recovery j, d) (rec, d3)) by (etrans; [exact HR2|by rewrite <- B5]).
    assert (Hinv3 : jinv (set_recovery rec j1) d3).
    { apply jinv_recovery. eapply jinv_disk; [|exact Hinv1']. by rewrite B2. }
    destruct r3 as [[]|e].
    2:{ apply Herr; [by apply jinv_poison|unfold base; simpl; congruence|unfold memory; simpl; congruence|done]. }
    assert (PreOrder (λ x y, R (rec, x) (rec, y))) as Hpre.
    { split; [intros x; done|]. intros x y z Hxy Hyz. by etrans. }
    eapply (wp_append_tail (λ x y, R (rec, x) (rec, y)) r p buf c); try done; simpl; rewrite ?B2, ?B3, ?B6, ?E1, ?E2; try done.
    - intros d4 d5 Ho. by apply HRo.
    - intros a d4 d5 Ha Ho. by eapply HRa.
    - intros e j' d' Hi' Hh' Hm' _ HR'. injection Hh' as A1 A2 A3 A4 A5 A6. injection Hm' as F1 F2 F3.
      apply Herr; [done|unfold base; congruence|unfold memory; congruence|]. etrans; [exact HR|]. by rewrite A5.
    - intros j' d' Hi' Hh' Hp' Hr' HR'. injection Hh' as A1 A2 A3 A4 A5 A6. simpl. rewrite Hu.
      eapply (Hok raw); try done; [|unfold base; congruence| | |etrans; [exact HR|by rewrite A5]].
      + unfold Healthy. rewrite Hp. simpl. by guards.
      + unfold Healthy. rewrite Hp', A1, B1. by guards.
      + rewrite Hr', E3. unfold r. by rewrite Hu. }
  apply wp_if; intros Hcomp; [|by apply wp_ret, Hrest].
  apply wp_or_poison. eapply wp_compactLocked; [exact Hinv1|done|].
  intros r2 j1 d2 Hi2 Hh2 Hm2 Ho2 Hok2. assert (R (j_recovery j, d) (j_recovery j, d2)) by (etrans; [exact HR1|by apply HRo]).
  destruct r2 as [[]|e]; [by apply Hrest; auto|].
  injection Hh2 as A1 A2 A3 A4 A5 A6.
  apply Herr; [by apply jinv_poison|unfold base; simpl; congruence|done|simpl; by rewrite A5].
Qed.
End Log.
