(* ===== verification/JournalLife.v ===== *)
(** The life of a journal: single and replicated appends, reopening, and what
    becomes of acknowledged records. *)
From stdpp Require Import base gmap strings list pretty.
From Stdlib Require Import Ascii String.
From S2P Require Import Prelude GoStrings Journal JournalProps JournalLog.
Local Open Scope string_scope.
Local Open Scope list_scope.

Section Life.
Context `{AEAD} `{OS} `{Codec} `{RecordJSON V}.
Abbreviation D := (M Disk JErr).
Abbreviation JM := (M (Journal * Disk) JErr).
Implicit Types (j k : Journal) (s t : bytes) (d : Disk).
#[local] Arguments read_frame : simpl never.

Lemma append_to_eq j kind data d :
  append_to j kind data d =
    append_body
      (λ raw, match j_recovery j with
              | None => mret tt
              | Some rec => λ '(j', d'),
                  let '(r, (rec', d'')) := append_to rec kind (RawMessage raw) d' in
                  (match r with Ok _ => Ok tt | Err e => Err e end, (set_recovery (Some rec') j', d''))
              end)
      kind data (j, d).
Proof. by destruct j. Qed.

Lemma set_recovery_same j : set_recovery (j_recovery j) j = j.
Proof. by destruct j. Qed.

(** An append to a journal that is not replicated. *)
Lemma wp_append_single kind data (Q : res JErr Z → Journal * Disk → Prop) j d :
  jinv j d → storable kind data → j_recovery j = None → j_anchor j = None →
  (∀ e j' d', jinv j' d' → base j' = base j → memory j' = memory j → j_recovery j' = None →
     only (j_dir j) d d' → Q (Err e) (j', d')) →
  (∀ raw j' d', Healthy j = true → any_Marshal data = Some raw → jinv j' d' → base j' = base j →
     Healthy j' = true → j_records j' = j_records j ++ [mkJRec (j_seq j + 1) (j_prev j) kind raw] →
     j_recovery j' = None → only (j_dir j) d d' → Q (Ok (j_seq j + 1)%Z) (j', d')) →
  wp (Append kind data) Q (j, d).
Proof.
  intros Hinv Hst Hrec Hanc Herr Hok. unfold wp, Append. rewrite append_to_eq.
  set (R := λ x y : option Journal * Disk, x.1 = y.1 ∧ only (j_dir j) x.2 y.2).
  assert (PreOrder R).
  { split; [done|]. intros x y z [Ex Hxy] [Ey Hyz]. split; [congruence|by etrans]. }
  eapply (wp_append_body R); try done.
  - by rewrite Hanc.
  - intros raw j1 d1 _ Hh _. rewrite Hrec. apply wp_ret. exists (j_recovery j1).
    by rewrite set_recovery_same.
  - intros e j' d' ? ? ? [Hr ?]. simpl in *. apply Herr; try done. congruence.
  - intros raw j' d' ? ? ? ? ? ? [Hr ?]. simpl in *. eapply Hok; try done. congruence.
Qed.

(** ** Opening *)

(** What stands in a ledger that loads, when it was this journal's. *)
Lemma jinv_loaded j d k :
  jinv j d → replays (new_journal (j_dir j) (j_box j) (j_limit j)) (content (j_dir j) d) k →
  (blen (content (j_dir j) d) ≤ j_limit j)%Z →
  jinv k d ∧ j_records j `prefix_of` j_records k.
Proof.
  intros [Hn Hl Hs Hc (s & t & k0 & Hf & Hr & Hlog & Ht)] Hk Hlen.
  pose proof (replays_const _ _ _ Hk) as (B1 & B2 & B3 & B4 & B5 & B6 & B7). simpl in *.
  pose proof (replays_size _ _ _ Hk) as Hsz. simpl in Hsz.
  pose proof (replays_numbered _ _ _ Hk (numbered_new _ _ _) ltac:(simpl; lia)) as Hnk.
  pose proof Hlog as E. injection E as E1 E2 E3 E4 E5.
  assert (∀ recs, j_records k = recs → Forall canonical recs → jinv k d) as Hbuild.
  { intros recs <- Hcan. split; try done; [lia|lia|]. exists (content (j_dir j) d), [], k.
    rewrite B1, B2, B3, app_nil_r. split_and!; try done. by left. }
  rewrite Hf in Hk. pose proof (replays_app_inv _ _ _ _ _ Hr Hk) as Htail.
  destruct Ht as [->|(_ & r & p & c & u & Hm & Hdec & Hmx & Hseq & Hprev & Hkd & Hfr)].
  { inversion Htail as [|? ? ? ? ? Hb]; subst; [|done]. split; [by apply (Hbuild _ E4)|by rewrite E4]. }
  assert (j_box k0 = j_box j) as Hbox by (by destruct (replays_const _ _ _ Hr) as (? & _)).
  destruct (decide (t = [])) as [->|Hne].
  { inversion Htail as [|? ? ? ? ? Hb]; subst; [|done]. split; [by apply (Hbuild _ E4)|by rewrite E4]. }
  inversion Htail as [|? ? j1 rest ? Hread Hrest]; subst; [done|].
  destruct (decide (u = [])) as [->|Hu].
  2:{ by rewrite (framed_torn _ _ _ _ _ _ _ Hfr eq_refl Hu Hne) in Hread. }
  rewrite app_nil_r, <- Hbox in Hfr. rewrite <- E1 in Hseq. rewrite <- E2 in Hprev.
  pose proof (framed_read k0 p c t [] r Hfr Hmx Hdec Hseq Hprev Hkd) as Hread'.
  rewrite app_nil_r, Hread in Hread'. injection Hread' as -> ->.
  inversion Hrest as [|? ? ? ? ? Hb]; subst; [|done]. simpl in *.
  split; [|rewrite E4; by apply prefix_app_r]. apply (Hbuild _ eq_refl). rewrite E4. apply Forall_app. split; [done|].
  repeat constructor. by exists p.
Qed.

(** Opening loads the ledger, and may compact it; the journal it returns is in step
    with the disk if the loaded one is. *)
Lemma wp_Open dir key limit (Q : res JErr Journal → Disk → Prop) d :
  (∀ k, load (new_journal dir (mkBox key) limit) (content dir d) = Some k →
     (blen (content dir d) ≤ limit ≤ 2 ^ 30)%Z →
     jinv k d ∧ ∀ j' d', jinv j' d' → handle j' = handle k → memory j' = memory k →
       Healthy j' = true → only dir d d' → Q (Ok j') d') →
  (∀ e d', Q (Err e) d') →
  wp (Open dir key limit) Q d.
Proof.
  intros Hok Herr. unfold Open. apply wp_bind, wp_fail_if; [intros _; by apply Herr|]. intros Hlim. guards.
  apply wp_bind, wp_sys. intros [[]|e] d1 Hd1; [|by apply Herr].
  apply wp_bind. unfold wp at 1, of_res, seal_New. destruct (negb _); [by apply Herr|].
  do 3 (apply wp_bind, wp_sys; intros [[]|e] ? ?; [|by apply Herr]).
  apply wp_bind, wp_get. set (s := content dir _). assert (s = content dir d) as Hs.
  { apply content_files. congruence. }
  apply wp_bind, wp_modify.
  do 2 (apply wp_bind, wp_sys; intros [[]|e] ? ?; [|by apply Herr]).
  apply wp_bind, wp_fail_if; [intros _; by apply Herr|]. intros Hsz. guards.
  apply wp_bind, wp_some_or; [|intros _; by apply Herr]. intros k Hk.
  apply wp_bind, wp_sys. intros [[]|e] d9 Hd9; [|by apply Herr].
  rewrite Hs in Hk. destruct (Hok k Hk) as [Hinv HQ]; [rewrite <- Hs; unfold Z.shiftl in *; simpl in *; lia|].
  assert (files d9 = <[(dir, "ledger.bin") := s]> (files d)) as Hf9.
  { transitivity (files (put_file (dir, "ledger.bin") s d'1)); [congruence|]. simpl. f_equal. congruence. }
  assert (content dir d9 = content dir d) as Hc9.
  { unfold content at 1. by rewrite Hf9, lookup_insert_eq. }
  assert (only dir d d9) as Ho9.
  { intros key' Hkey. by rewrite Hf9, lookup_insert_ne. }
  apply load_replays in Hk. pose proof (replays_const _ _ _ Hk) as (B1 & B2 & B3 & B4 & B5 & B6 & B7). simpl in *.
  assert (jinv k d9) as Hinv9 by (eapply jinv_disk; [|exact Hinv]; by rewrite B2).
  apply wp_if; intros _.
  - unfold wp, compacted.
    pose proof (wp_compactLocked (λ r x, match r with Ok _ => Q (Ok x.1) x.2 | Err e => Q (Err e) x.2 end)
      k d9 Hinv9 B5) as Hw. unfold wp in Hw. destruct (compactLocked (k, d9)) as [[[]|e] [j' d10]]; apply Hw; clear Hw;
      (intros [[]|e'] j2 d2 Hi2 Hh2 Hm2 Ho2 Hp2; [|by apply Herr]).
    all: pose proof Hh2 as E; injection E as E1 E2 E3 E4 E5 E6.
    all: simpl; apply HQ; try done; [unfold Healthy; rewrite E1, B4; by rewrite Hp2|etrans; [exact Ho9|by rewrite <- B2]].
  - apply wp_ret, HQ; try done. unfold Healthy. by rewrite B4, B5.
Qed.

(** ** A life of failures and reopenings *)

Definition entry (r : JRec) : string * bytes := (Kind r, Data r).

(** A journal first opened on an empty directory, with the kinds and data of the
    appends that were acknowledged since.  Any system call may have failed at any
    point, and the process may stop and reopen the ledger at any time. *)
Inductive lifetime (dir : string) (key : bytes) (limit : Z) : Journal → Disk → list (string * bytes) → Prop :=
  | lt_first d j d' : content dir d = [] → Open dir key limit d = (Ok j, d') →
      lifetime dir key limit j d' []
  | lt_acked j d acked kind v raw n j' d' : lifetime dir key limit j d acked →
      utf8_valid kind = true → json_Marshal v = Some raw →
      Append kind (Value v) (j, d) = (Ok n, (j', d')) →
      lifetime dir key limit j' d' (acked ++ [(kind, raw)])
  | lt_failed j d acked kind v e j' d' : lifetime dir key limit j d acked →
      utf8_valid kind = true → Append kind (Value v) (j, d) = (Err e, (j', d')) →
      lifetime dir key limit j' d' acked
  | lt_reopened j d acked j' d' : lifetime dir key limit j d acked →
      Open dir key limit d = (Ok j', d') → lifetime dir key limit j' d' acked.

(** A journal of [dir] that is not replicated, in step with its disk. *)
Record single (dir : string) (key : bytes) (limit : Z) j d : Prop := {
  sg_inv : jinv j d;
  sg_dir : j_dir j = dir;
  sg_box : j_box j = mkBox key;
  sg_limit : j_limit j = limit;
  sg_recovery : j_recovery j = None;
  sg_anchor : j_anchor j = None;
}.

Lemma single_opened dir key limit d k :
  jinv k d → replays (new_journal dir (mkBox key) limit) (content dir d) k →
  ∀ j' d', jinv j' d' → handle j' = handle k → memory j' = memory k → single dir key limit j' d'.
Proof.
  intros _ Hk j' d' Hi Hh Hm. destruct (replays_const _ _ _ Hk) as (B1 & B2 & B3 & B4 & B5 & B6 & B7).
  simpl in *. injection Hh as E1 E2 E3 E4 E5 E6. split; congruence || done.
Qed.

Lemma single_append dir key limit kind data j d r j' d' :
  single dir key limit j d → storable kind data → Append kind data (j, d) = (r, (j', d')) →
  single dir key limit j' d' ∧
  match r with
  | Ok n => n = (j_seq j + 1)%Z ∧ Healthy j = true ∧ ∃ raw, any_Marshal data = Some raw ∧
              j_records j' = j_records j ++ [mkJRec n (j_prev j) kind raw]
  | Err _ => j_records j' = j_records j
  end.
Proof.
  intros [Hi Hd Hb Hl Hr Ha] Hst Hap.
  pose proof (wp_append_single kind data (λ r x, single dir key limit x.1 x.2 ∧
    match r with
    | Ok n => n = (j_seq j + 1)%Z ∧ Healthy j = true ∧ ∃ raw, any_Marshal data = Some raw ∧
                j_records x.1 = j_records j ++ [mkJRec n (j_prev j) kind raw]
    | Err _ => j_records x.1 = j_records j
    end) j d Hi Hst Hr Ha) as Hw.
  unfold wp in Hw. rewrite Hap in Hw. simpl in Hw. apply Hw.
  - intros e j1 d1 Hi1 Hbase Hmem Hrec _. simpl. injection Hbase as E1 E2 E3 E4 E5.
    injection Hmem as F1 F2 F3. split; [split; congruence || done|done].
  - intros raw j1 d1 Hh Hraw Hi1 Hbase _ Hrecs Hrec _. simpl. injection Hbase as E1 E2 E3 E4 E5.
    split; [split; congruence || done|]. split_and!; try done. by exists raw.
Qed.

(** Reopening a ledger that a journal left, in whatever condition. *)
Lemma wp_reopen dir key limit (Q : res JErr Journal → Disk → Prop) j d :
  single dir key limit j d →
  (∀ j' d', single dir key limit j' d' → Healthy j' = true → Records j `prefix_of` Records j' →
     only dir d d' → Q (Ok j') d') →
  (∀ e d', Q (Err e) d') →
  wp (Open dir key limit) Q d.
Proof.
  intros [Hi Hd Hb Hl Hr Ha] HQ Herr. apply wp_Open; [|done]. intros k Hk%load_replays Hlim.
  destruct (jinv_loaded j d k Hi) as [Hik Hpre]; [by rewrite Hd, Hb, Hl|rewrite Hd, Hl; lia|].
  split; [done|]. intros j1 d1 Hi1 Hh Hm Hhl Ho.
  apply HQ; [eapply single_opened; [exact Hik|exact Hk|done..]|done| |done].
  injection Hm as E1 E2 E3. unfold Records. by rewrite E3.
Qed.

Lemma lifetime_single dir key limit j d acked : lifetime dir key limit j d acked →
  single dir key limit j d ∧ acked `sublist_of` map entry (j_records j).
Proof.
  induction 1 as [d j d' Hempty Hop|j d acked kind v raw n j' d' Hlt [Hs Hsub] Hk Hraw Hap
    |j d acked kind v e j' d' Hlt [Hs Hsub] Hk Hap|j d acked j' d' Hlt [Hs Hsub] Hop].
  - pose proof (wp_Open dir key limit (λ r d1, ∀ j1, r = Ok j1 → single dir key limit j1 d1) d) as Hw.
    unfold wp in Hw. rewrite Hop in Hw. split; [|by apply sublist_nil_l].
    apply Hw; [|done|done]. rewrite Hempty. intros k [= <-] Hlim.
    assert (jinv (new_journal dir (mkBox key) limit) d) as Hi.
    { split; [apply numbered_new|simpl..]; try done; [lia|unfold blen in Hlim; simpl in Hlim; lia|].
      exists [], [], (new_journal dir (mkBox key) limit). rewrite Hempty. split_and!; try done; [constructor|by left]. }
    split; [done|]. intros j1 d1 Hi1 Hh Hm _ _ ? [= <-].
    eapply single_opened; [exact Hi| |done|done|done]. rewrite Hempty. constructor.
  - destruct (single_append _ _ _ _ _ _ _ _ _ _ Hs (storable_value kind v Hk) Hap)
      as (Hs' & _ & _ & raw' & Hraw' & ->). simpl in Hraw'. rewrite Hraw in Hraw'. injection Hraw' as <-.
    split; [done|]. rewrite map_app. by apply sublist_app.
  - destruct (single_append _ _ _ _ _ _ _ _ _ _ Hs (storable_value kind v Hk) Hap) as (Hs' & ->). done.
  - pose proof (wp_reopen dir key limit (λ r d1, ∀ j1, r = Ok j1 →
      single dir key limit j1 d1 ∧ acked `sublist_of` map entry (j_records j1)) j d Hs) as Hw.
    unfold wp in Hw. rewrite Hop in Hw. apply Hw; [|done|done].
    intros j1 d1 Hs1 _ [l Hpre] _ ? [= <-]. split; [done|]. etrans; [exact Hsub|].
    unfold Records in Hpre. rewrite Hpre, map_app. by apply sublist_inserts_r.
Qed.

(** The ledger of a journal in step with its disk loads to at least its records. *)
Lemma single_loads dir key limit j d : single dir key limit j d →
  (Healthy j = true → ∃ k, load (new_journal dir (mkBox key) limit) (content dir d) = Some k ∧
     Records k = Records j) ∧
  (∀ k, load (new_journal dir (mkBox key) limit) (content dir d) = Some k →
     Records j `prefix_of` Records k).
Proof.
  intros [[Hn Hl Hs Hc (s & t & k & Hf & Hr & Hlog & Ht)] <- Hb <- _ _]. rewrite Hb in Hr.
  injection Hlog as E1 E2 E3 E4 E5. split.
  - intros Hh. unfold Healthy in Hh. guards. destruct Ht as [->|[? _]]; [|congruence].
    exists k. rewrite Hf, app_nil_r. split; [by apply load_replays|done].
  - intros k' Hk'%load_replays. rewrite Hf in Hk'. apply (replays_app_inv _ _ _ _ _ Hr) in Hk'.
    apply replays_prefix in Hk'. unfold Records. by rewrite <- E4.
Qed.
End Life.

(** C34. Acknowledged records are durable.  Whatever fails and however often the
      process stops and reopens the ledger, every append that was acknowledged is
      among the journal's records, in order; a healthy journal is exactly what its
      ledger loads to; and whenever the ledger loads at all, it holds everything
      acknowledged. *)
Theorem acknowledged_survive `{AEAD} `{OS} `{Codec} `{RecordJSON V} dir key limit j d acked :
  lifetime dir key limit j d acked →
  acked `sublist_of` map entry (Records j) ∧
  (Healthy j = true → ∃ k, load (new_journal dir (mkBox key) limit) (content dir d) = Some k ∧
     Records k = Records j) ∧
  (∀ k, load (new_journal dir (mkBox key) limit) (content dir d) = Some k →
     acked `sublist_of` map entry (Records k)).
Proof.
  intros [Hs Hsub]%lifetime_single. destruct (single_loads _ _ _ _ _ Hs) as [Hh Hp].
  split_and!; [done|done|]. intros k [l Hl]%Hp. etrans; [exact Hsub|].
  rewrite Hl, map_app. by apply sublist_inserts_r.
Qed.
