(* ===== verification/JournalAnchor.v ===== *)
(** Reopening a replicated journal: cutting a ledger back to an earlier record, the
    anchor of committed digests, and catching the primary up with the recovery
    journal. *)
From stdpp Require Import base gmap strings list pretty.
From Stdlib Require Import Ascii String.
From S2P Require Import Prelude GoStrings Journal JournalProps JournalLog JournalLife.
Local Open Scope string_scope.
Local Open Scope list_scope.

Section Truncate.
Context `{AEAD} `{OS} `{Codec} `{RecordJSON V}.
Abbreviation D := (M Disk JErr).
Abbreviation JM := (M (Journal * Disk) JErr).
Implicit Types (j k : Journal) (s t : bytes) (d : Disk).
#[local] Arguments read_frame : simpl never.

(** A frame is read from its own bytes. *)
Lemma read_frame_exact j s j1 rest : read_frame j s = Some (j1, rest) →
  ∃ f, s = f ++ rest ∧ read_frame j f = Some (j1, []).
Proof.
  destruct s as [|a [|b [|c [|e s1]]]]; try done. unfold read_frame. cbv zeta.
  set (size := Z.ldiff _ _). destruct (_ || _) eqn:Hsz; [done|].
  destruct (blen s1 <? size)%Z eqn:Hlen; [done|]. guards.
  assert (Z.to_nat size ≤ List.length s1)%nat by (unfold blen in *; lia).
  destruct (Box_Open _ _ _) as [p0|] eqn:Hb; [|done]. simpl.
  destruct (frame_plain _ _) as [p|] eqn:Hp; [|done]. simpl.
  destruct (record_Decode p) as [r|] eqn:Hr; [|done]. simpl.
  destruct (_ || _) eqn:Hc; [done|]. intros [= <- <-].
  exists (a :: b :: c :: e :: take (Z.to_nat size) s1). split; [simpl; by rewrite take_drop|].
  assert (blen (take (Z.to_nat size) s1) = size) as Hl by (unfold blen in *; rewrite length_take; lia).
  fold size. rewrite (proj2 (Z.ltb_ge _ 28)), (proj2 (Z.ltb_ge MaxRecord _)) by lia. simpl.
  rewrite Hl, (proj2 (Z.ltb_ge _ _)) by lia. rewrite take_take, Nat.min_id, Hb. simpl.
  rewrite Hp. simpl. rewrite Hr. simpl. rewrite Hc. do 2 f_equal. apply drop_ge.
  rewrite length_take. lia.
Qed.

(** Reading stops at any record. *)
Lemma replays_split j s k n : replays j s k →
  (List.length (j_records j) ≤ n ≤ List.length (j_records k))%nat →
  ∃ s1 s2 k1, s = s1 ++ s2 ∧ replays j s1 k1 ∧ replays k1 s2 k ∧ List.length (j_records k1) = n.
Proof.
  induction 1 as [j|j s j1 rest k Hf Hr IH]; intros Hn.
  { exists [], [], j. split_and!; [done|constructor|constructor|lia]. }
  destruct (decide (List.length (j_records j) = n)) as [<-|Hne].
  { exists [], s, j. split_and!; [done|constructor|by econstructor|done]. }
  destruct (read_frame_exact _ _ _ _ Hf) as (f & -> & Hf').
  assert (List.length (j_records j1) = S (List.length (j_records j))) as Hlen.
  { apply read_frame_spec in Hf as (? & ? & ? & ? & ? & _ & _ & _ & _ & _ & _ & _ & ->).
    simpl. rewrite length_app. simpl. lia. }
  destruct IH as (s1 & s2 & k1 & -> & H1' & H2' & H3'); [lia|].
  exists (f ++ s1), s2, k1. split_and!; [by rewrite app_assoc| |done|done].
  econstructor; [by apply read_frame_app|done].
Qed.

(** What follows a cut. *)
Lemma replays_grows j s k : replays j s k →
  (∃ l, j_offsets k = j_offsets j ++ l) ∧
  (∀ r, j_records k !! List.length (j_records j) = Some r → Previous r = j_prev j).
Proof.
  induction 1 as [j|j s j1 rest k Hf Hr [[l IH] _]].
  { split; [exists []; by rewrite app_nil_r|]. intros r Hx. apply lookup_lt_Some in Hx. lia. }
  pose proof (replays_prefix _ _ _ Hr) as [l' Hl'].
  apply read_frame_spec in Hf as (? & ? & ? & r0 & ? & _ & _ & _ & _ & _ & Hp & _ & ->). simpl in *.
  rewrite IH, Hl', <- !app_assoc. split; [by eexists|]. intros r Hx.
  rewrite lookup_app_r, Nat.sub_diag in Hx by done. by injection Hx as <-.
Qed.

(** The last offset is the size. *)
Lemma replays_last_offset j s k : replays j s k →
  (j_records j ≠ [] → last (j_offsets j) = Some (j_size j)) →
  j_records k ≠ [] → last (j_offsets k) = Some (j_size k).
Proof.
  induction 1 as [j|j s j1 rest k Hf Hr IH]; [done|]. intros _. apply IH. intros _.
  apply read_frame_spec in Hf as (? & ? & ? & r0 & ? & _ & _ & _ & _ & _ & Hp & _ & ->). simpl.
  by rewrite last_snoc.
Qed.

(** What [truncateTo] computes is the journal that ended there. *)
Lemma cut_point dir b limit s k n :
  replays (new_journal dir b limit) s k → numbered k → (j_size k ≤ 2 ^ 30)%Z → (n < List.length (j_records k))%nat →
  ∃ k1, replays (new_journal dir b limit)
          (take (Z.to_nat (if (0 <? Z.of_nat n)%Z then default 0%Z (j_offsets k !! (n - 1)%nat) else 0%Z)) s) k1 ∧
    log_of k1 = (Z.of_nat n, if (0 <? Z.of_nat n)%Z then default "" (Previous <$> j_records k !! n) else "",
                 if (0 <? Z.of_nat n)%Z then default 0%Z (j_offsets k !! (n - 1)%nat) else 0%Z,
                 take n (j_records k), take n (j_offsets k)) ∧ (j_size k1 ≤ j_size k)%Z.
Proof.
  intros Hk Hnk Hmax Hn. destruct n as [|n].
  { exists (new_journal dir b limit). split_and!; [constructor|done|]. destruct Hnk. simpl. lia. }
  destruct (replays_split _ _ _ (S n) Hk) as (s1 & s2 & k1 & -> & Hk1 & Hk2 & Hlen); [simpl; lia|].
  pose proof (replays_size _ _ _ Hk1) as Hs1. pose proof (replays_size _ _ _ Hk2) as Hs2. simpl in Hs1.
  pose proof (blen_nonneg s2). rewrite (proj2 (Z.ltb_lt _ _)) by lia.
  destruct (replays_numbered _ _ _ Hk1 (numbered_new _ _ _)) as [N1 N2 _ _ _ _ _]; [simpl; lia|].
  destruct (replays_grows _ _ _ Hk2) as [[l Ho] Hprev]. destruct (replays_prefix _ _ _ Hk2) as [l' Hr].
  assert (j_offsets k !! (S n - 1)%nat = Some (j_size k1)) as Hoff.
  { rewrite Ho, lookup_app_l by lia. replace (S n - 1)%nat with (pred (List.length (j_offsets k1))) by lia.
    rewrite <- last_lookup. eapply replays_last_offset; [exact Hk1|done|]. by destruct (j_records k1). }
  assert (Z.to_nat (j_size k1) = List.length s1) as Hto by (rewrite Hs1; unfold blen; lia).
  rewrite Hoff. simpl. exists k1. split_and!; [|unfold log_of|lia].
  - by rewrite Hto, take_app_length.
  - destruct (lookup_lt_is_Some_2 (j_records k) (S n) Hn) as [r Hnth]. rewrite Hnth. simpl.
    rewrite (Hprev r) by (by rewrite Hlen). rewrite Ho, Hr, <- Hlen, take_app_length.
    rewrite take_app_length' by lia. rewrite N1, Hlen. done.
Qed.

(** ** [truncateTo] *)
Lemma wp_truncateTo n (Q : res JErr unit → Journal * Disk → Prop) j d :
  jinv j d → j_poisoned j = false → (Z.of_nat n < j_seq j)%Z →
  (∀ e d', only (j_dir j) d d' → Q (Err e) (j, d')) →
  (∀ j' d', jinv j' d' → handle j' = handle j → j_poisoned j' = false → j_records j' = take n (j_records j) →
     only (j_dir j) d d' → Q (Ok tt) (j', d')) →
  wp (truncateTo (Z.of_nat n)) Q (j, d).
Proof.
  intros [Hn Hl Hs Hc (s & t & k & Hf & Hr & Hlog & Ht)] Hp Hlt Herr Hok.
  destruct Ht as [->|[? _]]; [|congruence]. rewrite app_nil_r in Hf.
  pose proof Hlog as E. injection E as E1 E2 E3 E4 E5.
  pose proof (replays_size _ _ _ Hr) as Hsz. simpl in Hsz.
  pose proof (replays_numbered _ _ _ Hr (numbered_new _ _ _) ltac:(simpl; lia)) as Hnk.
  destruct (cut_point _ _ _ _ _ n Hr Hnk) as (k1 & Hk1 & Hlog1 & Hle); [lia|destruct Hnk; lia|].
  pose proof (replays_size _ _ _ Hk1) as Hsz1. simpl in Hsz1.
  pose proof (replays_numbered _ _ _ Hk1 (numbered_new _ _ _) ltac:(simpl; lia)) as Hnk1.
  unfold truncateTo. rewrite E4, E5 in *. set (size := if (0 <? Z.of_nat n)%Z then default 0%Z _ else 0%Z) in *.
  set (prev := if (0 <? Z.of_nat n)%Z then default "" _ else "") in *.
  apply wp_bind, wp_get_j, wp_bind, wp_fail_if; [intros _; by apply Herr|intros _].
  rewrite Nat2Z.id. fold size. fold prev.
  apply wp_bind, wp_on_disk, wp_sys. intros [[]|e] d1 Hd1; [|by apply Herr, only_files].
  apply wp_bind, wp_on_disk, wp_modify. rewrite (content_files _ _ _ Hd1), Hf.
  set (d2 := put_file _ _ _). assert (only (j_dir j) d d2) as Ho2.
  { intros key Hk. simpl. rewrite lookup_insert_ne by done. by rewrite Hd1. }
  apply wp_bind, wp_on_disk, wp_sys. intros [[]|e] d3 Hd3.
  2:{ apply Herr. etrans; [exact Ho2|by apply only_files]. }
  apply wp_bind, wp_on_disk, wp_sys. intros [[]|e] d4 Hd4.
  2:{ apply Herr. etrans; [exact Ho2|apply only_files; congruence]. }
  apply wp_upd_j. pose proof Hlog1 as E. injection E as F1 F2 F3 F4 F5.
  apply Hok; try done; [|etrans; [exact Ho2|apply only_files; congruence]].
  split; simpl; try done; [|lia| |].
  - destruct Hnk1 as [N1 N2 N3 N4 N5 N6 N7]. rewrite F1, F2, F3, F4, F5 in *. by split.
  - by apply Forall_take.
  - exists (take (Z.to_nat size) s), [], k1. split_and!; [|done|done|by left].
    rewrite app_nil_r. rewrite (content_files (j_dir j) d2 d4) by congruence. apply content_put.
Qed.
End Truncate.

Section Anchor.
Context `{AEAD} `{OS} `{Codec} `{RecordJSON V}.
Abbreviation D := (M Disk JErr).
Abbreviation JM := (M (Journal * Disk) JErr).
Implicit Types (j k : Journal) (s t : bytes) (d : Disk) (a : recoveryAnchor).

(** ** The anchor's latest commit *)

(** [latest] is the highest committed number, and [hash] what was committed with it. *)
Definition committed a d (latest : Z) (hash : string) : Prop :=
  (0 ≤ latest)%Z ∧
  (∀ name, is_Some (files d !! (an_dir a, name)) → HasPrefix name "commit-" = true →
     ∃ n, parse_commit name = Some n ∧ (n ≤ latest)%Z) ∧
  ((0 < latest)%Z → ∃ enc, files d !! (an_dir a, commit_name latest) = Some enc ∧
     Box_Open (an_box a) enc (bytes_of (commit_name latest)) = Some (bytes_of hash)).

Lemma committed_files a d d' latest hash :
  (∀ name, HasPrefix name "commit-" = true → files d' !! (an_dir a, name) = files d !! (an_dir a, name)) →
  committed a d latest hash → committed a d' latest hash.
Proof.
  intros Hf (Hpos & Hmax & Hc). split_and!; [done| |].
  - intros name Hn Hp. rewrite Hf in Hn by done. by apply Hmax.
  - intros Hl. rewrite Hf; [by apply Hc|]. apply prefix_append.
Qed.

Lemma ReadDir_spec dir d name : name ∈ ReadDir dir d ↔ is_Some (files d !! (dir, name)).
Proof.
  unfold ReadDir. rewrite list_elem_of_omap. split.
  - intros ([[dir' name'] b] & Hin%elem_of_map_to_list & Hif). simpl in Hif.
    destruct (bool_decide _) eqn:E; [|done]. guards. injection Hif as ->. subst. by exists b.
  - intros [b Hb]. exists ((dir, name), b). split; [by apply elem_of_map_to_list|]. simpl.
    by rewrite bool_decide_eq_true_2.
Qed.

Lemma latest_loop_spec l entries m : latest_loop l entries = Some m →
  (l ≤ m)%Z ∧
  ∀ name, name ∈ entries → HasPrefix name "commit-" = true → ∃ n, parse_commit name = Some n ∧ (n ≤ m)%Z.
Proof.
  revert l. induction entries as [|x entries IH]; intros l; simpl.
  { intros [= ->]. split; [lia|]. intros name Hn. by apply elem_of_nil in Hn. }
  destruct (HasPrefix x "commit-") eqn:Hp; simpl.
  - destruct (negb _); [done|]. destruct (parse_commit x) as [n|] eqn:Hx; [|done].
    intros [Hle Hall]%IH. split; [destruct (_ <? _)%Z eqn:E in Hle; guards; lia|].
    intros name [->|Hn]%elem_of_cons Hpn; [|by apply Hall]. exists n. split; [done|].
    destruct (_ <? _)%Z eqn:E in Hle; guards; lia.
  - intros [Hle Hall]%IH. split; [done|]. intros name [->|Hn]%elem_of_cons Hpn; [congruence|by apply Hall].
Qed.

Lemma bytes_string b : bytes_of (string_of b) = b.
Proof. apply list_ascii_of_string_of_list_ascii. Qed.

Lemma wp_securefs_Read dir name limit (Q : res JErr (option bytes) → Disk → Prop) d :
  (∀ r d', files d' = files d → (∀ b, r = Ok (Some b) → files d !! (dir, name) = Some b) → Q r d') →
  wp (securefs_Read dir name limit) Q d.
Proof.
  intros HQ. unfold securefs_Read. apply wp_bind, wp_fail_if; [intros _; by apply HQ|intros _].
  apply wp_bind, wp_get. destruct (files d !! (dir, name)) as [b|] eqn:Hb; [|by apply wp_ret, HQ].
  apply wp_bind, wp_sys. intros [[]|e] d1 Hd1; [|by apply HQ].
  apply wp_bind, wp_fail_if; [intros _; by apply HQ|intros _]. apply wp_ret, HQ; [done|]. by intros ? [= ->].
Qed.

Lemma wp_anchor_latest a (Q : res JErr (Z * string) → Disk → Prop) d :
  (∀ latest hash d', files d' = files d → committed a d latest hash → Q (Ok (latest, hash)) d') →
  (∀ e d', files d' = files d → Q (Err e) d') →
  wp (anchor_latest a) Q d.
Proof.
  intros Hok Herr. unfold anchor_latest. apply wp_bind, wp_sys. intros [[]|e] d1 Hd1; [|by apply Herr].
  apply wp_bind, wp_get, wp_bind, wp_some_or; [|intros _; by apply Herr].
  intros latest [Hpos Hmax]%latest_loop_spec.
  assert (∀ name, is_Some (files d !! (an_dir a, name)) → HasPrefix name "commit-" = true →
     ∃ n, parse_commit name = Some n ∧ (n ≤ latest)%Z) as Hall.
  { intros name Hn Hp. apply Hmax; [|done]. apply ReadDir_spec. by rewrite Hd1. }
  apply wp_if; intros Hz; guards.
  { subst. apply wp_ret, Hok; [done|]. split_and!; [done|done|lia]. }
  apply wp_bind, wp_try, wp_securefs_Read. intros [[enc|]|e] d2 Hd2 Hread;
    [|apply wp_throw, Herr; congruence..].
  apply wp_bind, wp_some_or; [|intros _; apply Herr; congruence]. intros plain Hopen.
  apply wp_bind, wp_fail_if; [intros _; apply Herr; congruence|intros _].
  apply wp_bind, wp_fail_if; [intros _; apply Herr; congruence|intros _].
  apply wp_ret, Hok; [congruence|]. split_and!; [done|done|]. intros _. exists enc.
  rewrite bytes_string. split; [|done]. rewrite <- Hd1. by apply Hread.
Qed.

Lemma wp_initialized a (Q : res JErr bool → Disk → Prop) d :
  (∀ r d', files d' = files d → Q r d') → wp (initialized a) Q d.
Proof.
  intros HQ. unfold initialized. apply wp_bind, wp_try, wp_securefs_Read. intros [[enc|]|e] d1 Hd1 _;
    [|by apply wp_ret, HQ|by apply wp_throw, HQ].
  destruct (Box_Open _ _ _); [|by apply wp_throw, HQ]. apply wp_if; intros _; [by apply wp_ret, HQ|by apply wp_throw, HQ].
Qed.

Lemma wp_markInitialized a (Q : res JErr unit → Disk → Prop) d :
  (∀ r d', (∀ key, key ≠ (an_dir a, "initialized") → files d' !! key = files d !! key) → Q r d') →
  wp (markInitialized a) Q d.
Proof.
  intros HQ. unfold markInitialized. apply wp_bind, wp_Box_Seal.
  - intros enc d1 Hd1 _ _. apply wp_securefs_Create. intros r d2 Hd2. apply HQ. intros key Hk.
    by rewrite Hd2, Hd1.
  - intros e d1 Hd1. apply HQ. intros key _. by rewrite Hd1.
Qed.

(** ** Cutting both journals to the anchored history *)

Lemma single_disk dir key limit j d d' :
  content dir d' = content dir d → single dir key limit j d → single dir key limit j d'.
Proof. intros Hc [Hi <- ? ? ? ?]. split; try done. by eapply jinv_disk. Qed.

Lemma single_handle dir key limit j d j' d' :
  single dir key limit j d → jinv j' d' → handle j' = handle j → single dir key limit j' d'.
Proof. intros [] Hi Hh. injection Hh as E1 E2 E3 E4 E5 E6. split; congruence || done. Qed.

Lemma single_seq dir key limit j d : single dir key limit j d →
  j_seq j = Z.of_nat (List.length (j_records j)).
Proof. intros [[[] _ _ _ _] _ _ _ _ _]. done. Qed.

Lemma wp_with_j {A} (m : JM A) (Q : res JErr (A * Journal) → Disk → Prop) j d :
  wp m (λ r x, Q (match r with Ok a => Ok (a, x.1) | Err e => Err e end) x.2) (j, d) →
  wp (with_j m j) Q d.
Proof. unfold wp, with_j. by destruct (m (j, d)) as [[a|e] [j' d']]. Qed.

Lemma wp_truncated dir key limit n (Q : res JErr Journal → Disk → Prop) j d :
  single dir key limit j d → Healthy j = true →
  (∀ e d', Q (Err e) d') →
  (∀ j' d', single dir key limit j' d' → Healthy j' = true → j_records j' = take n (j_records j) →
     only dir d d' → Q (Ok j') d') →
  wp (truncated (Z.of_nat n) j) Q d.
Proof.
  intros Hs Hh Herr Hok. pose proof (single_seq _ _ _ _ _ Hs) as Hseq. pose proof Hs as [Hi Hd _ _ _ _].
  unfold Healthy in Hh. guards. rename select (j_poisoned j = false) into Hp.
  unfold truncated. apply wp_if; intros Hlt; guards.
  - apply wp_bind, wp_try, wp_with_j. eapply wp_truncateTo; [done|done|done| |]; simpl.
    + intros e d' _. apply wp_throw, Herr.
    + intros j' d' Hi' Hh' Hp' Hr' Ho'. apply wp_ret, Hok; [by eapply single_handle| |done|by rewrite <- Hd].
      injection Hh' as E1 E2 E3 E4 E5 E6. unfold Healthy. rewrite Hp', E1. by guards.
  - apply wp_ret, Hok; [done| | |done].
    + unfold Healthy. rewrite Hp. by guards.
    + rewrite take_ge; [done|]. lia.
Qed.

Lemma wp_anchored a rd rk pd pk limit (Q : res JErr (Journal * Journal) → Disk → Prop) r p d :
  single rd rk limit r d → Healthy r = true → single pd pk limit p d → Healthy p = true → rd ≠ pd →
  (∀ e d', Q (Err e) d') →
  (∀ latest hash r' p' d', committed a d latest hash →
     single rd rk limit r' d' → single pd pk limit p' d' → Healthy r' = true → Healthy p' = true →
     Z.of_nat (List.length (j_records r')) = latest →
     ((0 < latest)%Z → anchor_digest_ok latest hash (j_records r') = true) →
     Q (Ok (r', p')) d') →
  wp (anchored a r p) Q d.
Proof.
  intros Hr Hhr Hp Hhp Hne Herr Hok. unfold anchored.
  apply wp_bind, wp_try, wp_anchor_latest; [|intros; apply wp_bind, wp_try, wp_initialized; intros; by apply wp_throw].
  intros latest hash d1 Hd1 Hcom. apply wp_bind, wp_try, wp_initialized. intros [init|e] d2 Hd2;
    [|by apply wp_throw].
  apply wp_bind, wp_fail_if; [intros _; by apply Herr|]. intros Hg. guards.
  rename select (latest ≤ j_seq r)%Z into Hle. destruct Hcom as (Hpos & Hcom). rewrite (single_seq _ _ _ _ _ Hr) in Hle.
  assert (∀ d3, (∀ dir, content dir d3 = content dir d) →
    wp (fail_if ((0 <? latest)%Z && negb (anchor_digest_ok latest hash (j_records r))) ErrUnavailable ;;
        recovery' ← truncated latest r; primary' ← truncated latest p; mret (recovery', primary')) Q d3) as Hrest.
  { intros d3 Hd3. apply wp_bind, wp_fail_if; [intros _; by apply Herr|]. intros Hdig.
    assert (latest = Z.of_nat (Z.to_nat latest)) as -> by lia. set (n := Z.to_nat latest) in *.
    apply wp_bind. eapply wp_truncated; [eapply single_disk; [apply Hd3|exact Hr]|done|done|].
    intros r' d4 Hr' Hhr' Hrec' Ho4.
    apply wp_bind. eapply wp_truncated;
      [eapply single_disk; [|exact Hp]; by rewrite (content_only _ _ _ _ Ho4), Hd3|done|done|].
    intros p' d5 Hp' Hhp' Hrecp' Ho5. apply wp_ret. eapply (Hok _ hash); [|eapply single_disk; [|exact Hr']|done..| |].
    - by split; [|exact Hcom].
    - by apply (content_only _ _ _ _ Ho5).
    - rewrite Hrec', length_take. lia.
    - intros Hlt. rewrite (proj2 (Z.ltb_lt _ _)) in Hdig by done. simpl in Hdig. guards.
      unfold anchor_digest_ok in *. rewrite Hrec', lookup_take_lt by lia. done. }
  apply wp_bind, wp_if; intros _.
  - apply wp_bind, wp_try, wp_markInitialized. intros [[]|e] d3 Hd3; [|by apply wp_throw].
    apply wp_ret, Hrest. intros dir. unfold content. rewrite Hd3 by congruence. by rewrite Hd2, Hd1.
  - apply wp_ret, Hrest. intros dir. apply content_files. congruence.
Qed.

(** ** Catching up *)

Lemma valid_prefix_spec p r : valid_prefix p r = true → p `prefix_of` r.
Proof.
  revert r. induction p as [|x p IH]; intros [|y r]; simpl; try done.
  - intros _. apply prefix_nil.
  - intros Hv. guards. subst. apply prefix_cons. by apply IH.
Qed.

(** Every record of the recovery journal that the primary does not have is appended
    to it with the same kind and data. *)
Lemma wp_catch_up pd pk limit recs (Q : res JErr Journal → Disk → Prop) todo_ done_ p d :
  recs = done_ ++ todo_ → Forall canonical recs →
  (∀ i r, recs !! i = Some r → Sequence r = (Z.of_nat i + 1)%Z) →
  single pd pk limit p d → map entry (j_records p) `prefix_of` map entry recs →
  (List.length done_ ≤ List.length (j_records p))%nat →
  (∀ e d', Q (Err e) d') →
  (∀ p' d', single pd pk limit p' d' → map entry (j_records p') = map entry recs → only pd d d' →
     Q (Ok p') d') →
  wp (for_fold todo_ p catch_up) Q d.
Proof.
  revert done_ p d. induction todo_ as [|r todo_ IH]; intros done_ p d Hrecs Hcan Hseq Hs Hpre Hlen Herr Hok.
  { apply wp_ret, Hok; [done| |done]. rewrite app_nil_r in Hrecs. subst.
    destruct Hpre as [l Hl]. pose proof Hl as Hl2. apply (f_equal List.length) in Hl2. rewrite length_app, !length_map in Hl2.
    destruct l; [by rewrite app_nil_r in Hl|simpl in Hl2; lia]. }
  assert (recs !! List.length done_ = Some r) as Hr.
  { rewrite Hrecs, lookup_app_r, Nat.sub_diag by done. done. }
  assert (recs = (done_ ++ [r]) ++ todo_) as Hrecs' by by rewrite <- app_assoc.
  pose proof (single_seq _ _ _ _ _ Hs) as Hps. specialize (Hseq _ _ Hr) as Hsr.
  simpl. apply wp_bind. unfold catch_up. apply wp_if; intros Hle; guards.
  { apply wp_ret. eapply (IH (done_ ++ [r])); try done. rewrite length_app. simpl. lia. }
  assert (List.length (j_records p) = List.length done_) as Hpl by lia.
  assert (canonical r) as Hcr by (by eapply Forall_lookup_1).
  apply wp_bind, wp_with_j. pose proof Hs as [Hi Hd Hb Hl Hrc Ha].
  eapply wp_append_single; [done|by apply storable_canonical|done|done| |].
  { intros e j' d' _ _ _ _ _. apply Herr. }
  intros raw p' d' _ Hraw Hi' Hbase _ Hrecp Hrc' Ho'. simpl in *.
  assert (raw = Data r) as ->.
  { destruct Hcr as (q & Hq & Hdq & _). destruct (raw_record r q 0 "" Hq Hdq) as [Hraw' _]; [done|done|]. congruence. }
  injection Hbase as E1 E2 E3 E4 E5. rewrite Hd in Ho'.
  apply wp_ret. simpl. eapply (IH (done_ ++ [r])); try done.
  - split; congruence || done.
  - rewrite Hrecp, map_app. simpl. destruct Hpre as [l Hpre].
    assert (map entry recs !! List.length (map entry (j_records p)) = Some (entry r)) as Hx.
    { rewrite list_lookup_fmap, length_map, Hpl, Hr. done. }
    rewrite Hpre, lookup_app_r, Nat.sub_diag in Hx by done. destruct l as [|x l]; [done|]. injection Hx as ->.
    exists l. rewrite Hpre, <- app_assoc. done.
  - rewrite Hrecp, !length_app. simpl. lia.
  - intros p2 d2 Hs2 He2 Ho2. apply Hok; [done|done|by etrans].
Qed.
End Anchor.

(** C37. Opening a replicated journal restores the anchored history and nothing else.
      Whatever condition the two ledgers were left in, when it succeeds the recovery
      journal holds as many records as the highest commit of the anchor says, the
      last of them has the committed digest, the primary holds the same entries, and
      both are in step with their ledgers; a ledger that lost anchored records, or
      whose anchored record was replaced, is refused. *)
Theorem anchored_history `{AEAD} `{OS} `{Codec} `{RecordJSON V} pd rd pk rk limit a jp jr d j d' :
  pd ≠ rd → single pd pk limit jp d → single rd rk limit jr d →
  openReplicated pd rd pk rk limit (Some a) d = (Ok j, d') →
  ∃ latest hash rec,
    committed a d latest hash ∧ j_recovery j = Some rec ∧ j_anchor j = Some a ∧
    Z.of_nat (List.length (Records rec)) = latest ∧
    ((0 < latest)%Z → anchor_digest_ok latest hash (Records rec) = true) ∧
    map entry (Records j) = map entry (Records rec) ∧ jinv j d' ∧ jinv rec d'.
Proof.
  intros Hne Hp Hr Hop. set (P := λ (r : res JErr Journal) d', ∀ j, r = Ok j → ∃ latest hash rec,
    committed a d latest hash ∧ j_recovery j = Some rec ∧ j_anchor j = Some a ∧
    Z.of_nat (List.length (Records rec)) = latest ∧
    ((0 < latest)%Z → anchor_digest_ok latest hash (Records rec) = true) ∧
    map entry (Records j) = map entry (Records rec) ∧ jinv j d' ∧ jinv rec d').
  assert (wp (openReplicated pd rd pk rk limit (Some a)) P d) as Hw;
    [|unfold wp in Hw; rewrite Hop in Hw; by apply Hw].
  assert (∀ e d', P (Err e) d') as Herr by done. unfold openReplicated.
  apply wp_bind. eapply wp_reopen; [exact Hr| |done]. intros r0 d1 Hr0 Hhr0 _ Ho1.
  assert (single pd pk limit jp d1) as Hp1.
  { eapply single_disk; [|exact Hp]. by eapply content_only. }
  apply wp_bind. eapply wp_reopen; [exact Hp1| |done]. intros p0 d2 Hp0 Hhp0 _ Ho2.
  assert (single rd rk limit r0 d2) as Hr2.
  { eapply single_disk; [|exact Hr0]. eapply content_only; [done|congruence]. }
  apply wp_bind. eapply (wp_anchored a rd rk pd pk limit _ r0 p0); [done..|congruence|done|].
  intros latest hash r1 p1 d3 Hcom Hr1 Hp3 Hhr1 Hhp1 Hlen Hdig. cbn beta iota.
  apply wp_bind, wp_fail_if; [intros _; by apply Herr|]. intros Hv. guards. apply valid_prefix_spec in Hv.
  apply wp_bind. pose proof Hr1 as [[Hn _ _ Hcan _] Hrd _ _ _ _].
  eapply (wp_catch_up pd pk limit (j_records r1) _ _ []); [done|done| |exact Hp3| |simpl; lia|done|].
  { intros i x Hx. by apply (nb_sequence _ Hn). }
  { destruct Hv as [l ->]. rewrite map_app. by apply prefix_app_r. }
  intros p' d4 Hp4 He Ho4. apply wp_ret. intros ? [= <-]. exists latest, hash, r1.
  split_and!; try done.
  - eapply committed_files; [|exact Hcom]. intros name Hname.
    assert ((an_dir a, name) ≠ (rd, "ledger.bin")) by (intros [= _ ->]; vm_compute in Hname; done).
    assert ((an_dir a, name) ≠ (pd, "ledger.bin")) by (intros [= _ ->]; vm_compute in Hname; done).
    by rewrite Ho2, Ho1.
  - destruct Hp4 as [[[] ? ? ? ?] ? ? ? ? ?]. done.
  - eapply jinv_disk; [|exact (sg_inv _ _ _ _ _ Hr1)]. rewrite Hrd. eapply content_only; [done|congruence].
Qed.
