(* ===== verification/JournalBroker.v ===== *)
(** The journal as the broker sees it: [JournalOps] is implemented by a journal,
    replicated and anchored or not, whose ledgers are in step with it. *)
From stdpp Require Import base gmap strings list pretty.
From Stdlib Require Import Ascii String.
From S2P Require Import Prelude GoStrings Journal JournalProps JournalLog JournalLife BrokerTypes.
Local Open Scope string_scope.
Local Open Scope list_scope.

Section Replicated.
Context `{AEAD} `{OS} `{Codec} `{RecordJSON V}.
Implicit Types (j : Journal) (d : Disk).

(** The recovery journal, if there is one, is a plain journal of its own directory,
    in step with its own ledger. *)
Definition backed (dir : string) (rec : option Journal) d : Prop :=
  match rec with
  | None => True
  | Some r => jinv r d ∧ j_recovery r = None ∧ j_anchor r = None ∧ j_dir r ≠ dir
  end.

Definition replicated (x : Journal * Disk) : Prop :=
  jinv x.1 x.2 ∧ backed (j_dir x.1) (j_recovery x.1) x.2.

(** What an append may do to the recovery journal and the disk. *)
Definition keeps (dir : string) (x y : option Journal * Disk) : Prop :=
  backed dir x.1 x.2 → backed dir y.1 y.2.

Global Instance keeps_preorder dir : PreOrder (keeps dir).
Proof. split; [intros x Hx; exact Hx|]. intros x y z Hxy Hyz Hx. by apply Hyz, Hxy. Qed.

Lemma backed_content dir rec d d' : (∀ dir', dir' ≠ dir → content dir' d' = content dir' d) →
  backed dir rec d → backed dir rec d'.
Proof.
  intros Hc. destruct rec as [r|]; [|done]. intros (Hi & ? & ? & Hd). split_and!; try done.
  eapply jinv_disk; [|exact Hi]. by apply Hc.
Qed.

Lemma storable_raw kind data raw :
  storable kind data → any_Marshal data = Some raw → storable kind (RawMessage raw).
Proof.
  intros Hst Hraw. destruct (Hst raw 1%Z "" Hraw) as (p & Hp & Hd); [lia|done|].
  intros raw' n prev Hraw' Hn Hprev. destruct (raw_record _ _ n prev Hp Hd Hn Hprev) as [Hr Hq]. simpl in *.
  rewrite Hr in Hraw'. by injection Hraw' as <-.
Qed.

(** Appending keeps the primary and its recovery journal in step with their ledgers. *)
Lemma wp_append_replicated kind data (Q : res JErr Z → Journal * Disk → Prop) j d :
  replicated (j, d) → storable kind data →
  (∀ e j' d', replicated (j', d') → j_records j' = j_records j → Q (Err e) (j', d')) →
  (∀ raw j' d', Healthy j = true → any_Marshal data = Some raw → replicated (j', d') →
     j_records j' = j_records j ++ [mkJRec (j_seq j + 1) (j_prev j) kind raw] →
     Q (Ok (j_seq j + 1)%Z) (j', d')) →
  wp (Append kind data) Q (j, d).
Proof.
  intros [Hinv Hback] Hst Herr Hok. simpl in *. unfold wp, Append. rewrite append_to_eq.
  eapply (wp_append_body (keeps (j_dir j))); try done.
  - intros x d1 d2 Ho Hx. simpl in *. eapply backed_content; [|exact Hx]. intros dir' Hd. by eapply content_only.
  - intros a x d1 d2 _ Hc Hx. simpl in *. eapply backed_content; [|exact Hx]. intros dir' _. apply Hc.
  - intros raw j1 d1 Hraw Hh HR. specialize (HR Hback). simpl in HR. injection Hh as E1 E2 E3 E4 E5 E6.
    rewrite E5 in HR. destruct (j_recovery j) as [rec|] eqn:Hrec.
    2:{ apply wp_ret. exists (j_recovery j1). rewrite set_recovery_same. split_and!; try done. }
    destruct HR as (Hi & Hrr & Hra & Hrd).
    pose proof (wp_append_single kind (RawMessage raw) (λ _ x, jinv x.1 x.2 ∧ j_recovery x.1 = None ∧
      j_anchor x.1 = None ∧ j_dir x.1 = j_dir rec ∧ only (j_dir rec) d1 x.2) rec d1 Hi
      (storable_raw _ _ _ Hst Hraw) Hrr Hra) as Hw.
    unfold wp at 1. unfold wp, Append in Hw.
    destruct (append_to rec kind (RawMessage raw) d1) as [r [rec' d2]]. simpl in *.
    destruct Hw as (Hi' & Hrr' & Hra' & Hrd' & Ho').
    { intros e j' d' Hi' Hb' _ Hr' Ho'. injection Hb' as F1 F2 F3 F4 F5. split_and!; congruence || done. }
    { intros raw' j' d' _ _ Hi' Hb' _ _ Hr' Ho'. injection Hb' as F1 F2 F3 F4 F5. split_and!; congruence || done. }
    exists (Some rec'). split_and!; [done|eapply content_only; [done|congruence]|].
    intros _. simpl. split_and!; congruence || done.
  - intros e j' d' Hi' Hb' Hm' HR. injection Hb' as F1 F2 F3 F4 F5. injection Hm' as G1 G2 G3.
    apply Herr; [|done]. split; simpl; [done|]. rewrite F2. by apply HR.
  - intros raw j' d' Hh Hraw Hi' Hb' _ Hr' HR. injection Hb' as F1 F2 F3 F4 F5.
    eapply Hok; try done. split; simpl; [done|]. rewrite F2. by apply HR.
Qed.

Lemma backed_close dir rec d : backed dir rec d → backed dir (Close <$> rec) d.
Proof.
  destruct rec as [r|]; [|done]. intros (Hi & Hr & Ha & Hd). simpl.
  destruct r as [f ? ? ? ? ? ? ? ? ? ? rr ?]. simpl in *. subst. destruct f; [|done]. simpl.
  split_and!; try done. by destruct Hi as [[] ? ? ? ?].
Qed.

Lemma replicated_close j d : replicated (j, d) → replicated (Close j, d).
Proof.
  intros [Hi Hb]. simpl in *. assert (Close j = if j_file j then set_recovery (Close <$> j_recovery j) (set_file false j) else j) as ->.
  { destruct j as [[] ? ? ? ? ? ? ? ? ? ? [] ?]; done. }
  destruct (j_file j); [|by split]. split; simpl; [|by apply backed_close].
  by destruct Hi as [[] ? ? ? ?].
Qed.
End Replicated.

(** * The broker's interface *)

(** The strict decoder of mutations reads what was marshalled. *)
Class MutationJSON `{RecordJSON mutation} := {
  mutation_Decode : bytes → option mutation;
  mutation_roundtrip : ∀ m raw, json_Marshal m = Some raw → mutation_Decode raw = Some m;
}.

Section Interface.
Context `{AEAD} `{OS} `{Codec} `{MutationJSON}.

(** A journal in step with its ledgers, with the disk it writes to. *)
Definition DiskJournal : Type := { x : Journal * Disk | replicated x }.

Definition dj_records (x : DiskJournal) : list JRecord :=
  map (λ r, mkJRecord (Sequence r) (Kind r) (mutation_Decode (Data r))) (Records (`x).1).

Lemma append_spec kind (m : mutation) j d : replicated (j, d) → utf8_valid kind = true →
  let '(r, (j', d')) := Append kind (Value m) (j, d) in
  replicated (j', d') ∧
  match r with
  | Ok n => Healthy j = true ∧ n = Z.of_nat (S (List.length (j_records j))) ∧
      ∃ r, j_records j' = j_records j ++ [r] ∧ Sequence r = n ∧ Kind r = kind ∧ mutation_Decode (Data r) = Some m
  | Err _ => j_records j' = j_records j
  end.
Proof.
  intros Hr Hk. pose proof (wp_append_replicated kind (Value m) (λ r x, replicated x ∧
    match r with
    | Ok n => Healthy j = true ∧ n = Z.of_nat (S (List.length (j_records j))) ∧
        ∃ r, j_records x.1 = j_records j ++ [r] ∧ Sequence r = n ∧ Kind r = kind ∧ mutation_Decode (Data r) = Some m
    | Err _ => j_records x.1 = j_records j
    end) j d Hr (storable_value kind m Hk)) as Hw.
  unfold wp in Hw. destruct (Append kind (Value m) (j, d)) as [r [j' d']]. apply Hw.
  - intros e j1 d1 Hr1 Hrecs. done.
  - intros raw j1 d1 Hh Hraw Hr1 Hrecs. split; [done|]. split; [done|].
    destruct Hr as [[[Hseq _ _ _ _ _ _] _ _ _ _] _]. simpl in Hseq. split; [lia|].
    eexists. split_and!; [exact Hrecs|done|done|]. simpl in *. by apply mutation_roundtrip.
Qed.

Lemma append_replicated kind (m : mutation) x : replicated x → utf8_valid kind = true →
  replicated (Append kind (Value m) x).2.
Proof.
  destruct x as [j d]. intros Hr Hk. pose proof (append_spec kind m j d Hr Hk) as Hs.
  destruct (Append kind (Value m) (j, d)) as [r [j' d']]. apply Hs.
Qed.

(** The kinds of the broker are ASCII literals; the interface has no others. *)
Definition dj_append (x : DiskJournal) (kind : string) (m : mutation) : DiskJournal * option Z :=
  match decide (utf8_valid kind = true), decide (Healthy (`x).1 = true) with
  | left Hk, left _ =>
      (exist _ (Append kind (Value m) (`x)).2 (append_replicated kind m (`x) (proj2_sig x) Hk),
       match (Append kind (Value m) (`x)).1 with Ok n => Some n | Err _ => None end)
  | _, _ => (x, None)
  end.

Lemma close_replicated x : replicated x → replicated (Close x.1, x.2).
Proof. destruct x. apply replicated_close. Qed.

Definition dj_close (x : DiskJournal) : DiskJournal :=
  exist _ (Close (`x).1, (`x).2) (close_replicated (`x) (proj2_sig x)).

Lemma dj_append_spec x kind m x' o : dj_append x kind m = (x', o) →
  match o with
  | Some n => Healthy (`x).1 = true ∧ dj_records x' = dj_records x ++ [mkJRecord n kind (Some m)] ∧
              n = Z.of_nat (S (List.length (dj_records x)))
  | None => dj_records x' = dj_records x
  end.
Proof.
  unfold dj_append. destruct (decide _) as [Hk|]; [|by intros [= <- <-]].
  destruct (decide _) as [Hh|]; [|by intros [= <- <-]]. intros [= <- <-]. unfold dj_records. simpl.
  destruct x as [[j d] Hr]. simpl in *. pose proof (append_spec kind m j d Hr Hk) as Hs.
  unfold Append in *. destruct (append_to j kind (Value m) d) as [[n|e] [j' d']]; simpl in *; unfold Records.
  - destruct Hs as (_ & _ & Hn & r & Hrecs & Hseq & Hkind & Hdec).
    rewrite Hrecs, map_app. simpl. rewrite Hseq, Hkind, Hdec, length_map. done.
  - destruct Hs as (_ & ->). done.
Qed.

(** The journal keeps what the broker relies on. *)
#[export] Instance disk_journal : JournalOps DiskJournal.
Proof.
  refine {| jr_append := dj_append; jr_healthy := λ x, Healthy (`x).1;
            jr_records := dj_records; jr_close := dj_close |}.
  - intros j k m j' n Ha. apply (dj_append_spec _ _ _ _ _ Ha).
  - intros j k m j' Ha. apply (dj_append_spec _ _ _ _ _ Ha).
  - intros [[j d] Hr]. unfold dj_records, dj_close, Records. simpl. by destruct j as [[] ? ? ? ? ? ? ? ? ? ? ? ?].
  - intros [[j d] Hr]. unfold dj_close, Healthy. simpl.
    destruct j as [[] ? ? ? ? ? ? ? [] ? ? ? ?]; done.
  - intros x k m Hh. unfold dj_append. destruct (decide _); [|done]. destruct (decide _) as [Hh'|]; [congruence|done].
Defined.
End Interface.
