(* ===== verification/JournalWitness.v ===== *)
(** The theorems about the journal at concrete disks: a toy cipher, compressor and
    codec that satisfy the laws, a life with a failed write and a reopening, and a
    replicated journal that is anchored, appended to and reopened. *)
From stdpp Require Import base gmap strings list pretty countable.
From Stdlib Require Import Ascii String.
From S2P Require Import Prelude GoStrings Journal JournalProps JournalLog JournalLife JournalAnchor JournalBroker.
Local Open Scope string_scope.
Local Open Scope list_scope.

Module JournalExample.

(** ** Toy primitives *)

Definition tag : bytes := replicate 16 "t"%char.

#[export] Instance cipher : AEAD.
Proof.
refine {| gcm_seal := λ _ _ p _, p ++ tag;
          gcm_open := λ _ _ s _, if bool_decide (drop (List.length s - 16) s = tag)
                                 then Some (take (List.length s - 16) s) else None |}.
- intros k n p a. rewrite length_app. change (List.length tag) with 16%nat.
  rewrite Nat.add_sub, drop_app_length, take_app_length. by rewrite bool_decide_eq_true_2.
- intros k n p a. by rewrite length_app.
Defined.

Definition hex_digit (b3 b2 b1 b0 : bool) : ascii :=
match b3, b2, b1, b0 with
| false, false, false, false => "0" | false, false, false, true => "1"
| false, false, true, false => "2" | false, false, true, true => "3"
| false, true, false, false => "4" | false, true, false, true => "5"
| false, true, true, false => "6" | false, true, true, true => "7"
| true, false, false, false => "8" | true, false, false, true => "9"
| true, false, true, false => "a" | true, false, true, true => "b"
| true, true, false, false => "c" | true, true, false, true => "d"
| true, true, true, false => "e" | true, true, true, true => "f"
end%char.

(** The bytes in hexadecimal. *)
Fixpoint hex (b : bytes) : string :=
match b with
| [] => ""
| Ascii b0 b1 b2 b3 b4 b5 b6 b7 :: b' =>
    String (hex_digit b7 b6 b5 b4) (String (hex_digit b3 b2 b1 b0) (hex b'))
end.

Definition is_ascii (c : ascii) : bool := (code c <? 128)%Z.
Lemma utf8_ascii s : str_forallb is_ascii s = true → utf8_valid s = true.
Proof.
induction s as [|c s IH]; [done|]. simpl. intros [Hc Hs]%andb_true_iff.
destruct c as [[] [] [] [] [] [] [] []]; try (by vm_compute in Hc); exact (IH Hs).
Qed.
Lemma hex_ascii b : str_forallb is_ascii (hex b) = true.
Proof.
induction b as [|[b0 b1 b2 b3 b4 b5 b6 b7] b IH]; [done|]. simpl. rewrite IH.
by destruct b7, b6, b5, b4, b3, b2, b1, b0.
Qed.
Lemma hex_inj a b : hex a = hex b → a = b.
Proof.
revert b. induction a as [|[a0 a1 a2 a3 a4 a5 a6 a7] a IH]; intros [|[b0 b1 b2 b3 b4 b5 b6 b7] b]; simpl; try done.
intros E. injection E as E1 E2 E3. apply IH in E3 as ->.
destruct a7, a6, a5, a4, b7, b6, b5, b4; try discriminate E1;
destruct a3, a2, a1, a0, b3, b2, b1, b0; try discriminate E2; done.
Qed.

(** Compression drops a known prefix. *)
Definition known : bytes := bytes_of "record:".
Definition deflate (p : bytes) : bytes :=
if bool_decide (take 7 p = known) then "z"%char :: drop 7 p else "p"%char :: p.
Definition inflate (n : Z) (s : bytes) : option bytes :=
match s with
| c :: s' => let p := if bool_decide (c = "z"%char) then known ++ s' else s' in Some (take (Z.to_nat n) p)
| [] => None
end.
Lemma inflate_deflate n p : (blen p < n)%Z → inflate n (deflate p) = Some p.
Proof.
intros Hn. unfold inflate, deflate.
assert (∀ q, q = p → take (Z.to_nat n) q = p) as Ht.
{ intros q ->. apply take_ge. unfold blen in Hn. lia. }
destruct (bool_decide (take 7 p = known)) eqn:E.
- apply bool_decide_eq_true in E. f_equal. apply Ht. by rewrite <- E, take_drop.
- f_equal. by apply Ht.
Qed.

Definition codec_with (sha : bytes → string) (H : ∀ p, utf8_valid (sha p) = true) : Codec :=
{| sha256_hex := sha; sha256_utf8 := H; hmac_sha256 := λ k m, take 32 k;
   zlib_deflate := deflate; zlib_inflate := inflate; zlib_roundtrip := inflate_deflate |}.

(** Without collisions. *)
Definition perfect : Codec := codec_with hex (λ p, utf8_ascii _ (hex_ascii p)).

(** Records in binary. *)
Fixpoint bits (p : positive) : bytes :=
match p with xH => [] | xO q => "0"%char :: bits q | xI q => "1"%char :: bits q end.
Fixpoint unbits (s : bytes) : positive :=
match s with [] => xH | c :: s' => if bool_decide (c = "1"%char) then xI (unbits s') else xO (unbits s') end.
Lemma unbits_bits p : unbits (bits p) = p.
Proof. induction p; simpl; congruence. Qed.

Definition put_record (r : JRec) : bytes :=
known ++ bits (encode [encode (Sequence r); encode (Previous r); encode (Kind r); encode (string_of (Data r))]).
Definition get_fields (l : list positive) : option JRec :=
match l with
| [a; b; c; e] => n ← decode a; p ← decode b; k ← decode c; s ← decode e; Some (mkJRec n p k (bytes_of s))
| _ => None
end.
Definition get_record (b : bytes) : option JRec := l ← decode (unbits (drop 7 b)); get_fields l.

Lemma get_fields_encoded (n : Z) (p k s : string) :
get_fields [encode n; encode p; encode k; encode s] = Some (mkJRec n p k (bytes_of s)).
Proof. unfold get_fields. rewrite !decode_encode. reflexivity. Qed.

Lemma get_put r : get_record (put_record r) = Some r.
Proof.
destruct r as [n p k b]. unfold get_record, put_record.
change (drop 7 (known ++ ?x)) with x. rewrite unbits_bits, decode_encode. cbn [Sequence Previous Kind Data].
change (get_fields [encode n; encode p; encode k; encode (string_of b)] = Some (mkJRec n p k b)).
rewrite get_fields_encoded. by rewrite bytes_string.
Qed.

(** The values are texts. *)
#[export] Instance text_json : RecordJSON string.
Proof.
refine {| json_Marshal := λ s, Some (bytes_of s); raw_Marshal := Some;
          record_Marshal := λ r, Some (put_record r); record_Decode := get_record |}.
- intros v raw n prev kind _ _ _ _. eexists. split; [reflexivity|]. apply get_put.
- intros r p n prev _ _ _ _. split; [done|]. eexists. split; [reflexivity|]. apply get_put.
Defined.

(** A digest of 64 hexadecimal digits. *)
Definition sha64 (p : bytes) : string := string_of (take 64 (bytes_of (hex p) ++ replicate 64 "0"%char)).
Lemma ascii_bytes l : forallb is_ascii l = true → str_forallb is_ascii (string_of l) = true.
Proof. unfold string_of. induction l as [|c l IH]; [done|]. simpl. by intros [-> ?%IH]%andb_true_iff. Qed.
Lemma bytes_ascii x : str_forallb is_ascii x = true → forallb is_ascii (bytes_of x) = true.
Proof. unfold bytes_of. induction x as [|c x IH]; [done|]. simpl. by intros [-> ?%IH]%andb_true_iff. Qed.
Lemma forallb_take {A} (f : A → bool) n l : forallb f l = true → forallb f (take n l) = true.
Proof. revert n. induction l as [|x l IH]; intros [|n]; simpl; try done. intros [-> ?]%andb_true_iff. by apply IH. Qed.
Lemma sha64_utf8 p : utf8_valid (sha64 p) = true.
Proof.
apply utf8_ascii, ascii_bytes, forallb_take. rewrite forallb_app, bytes_ascii by apply hex_ascii. done.
Qed.
#[export] Instance short : Codec := codec_with sha64 sha64_utf8.

(** A system whose call number 12 fails: the sync of the second append. *)
Definition flaky : OS.
Proof.
refine {| io_ok := λ n, negb (n =? 12)%nat; io_short := λ _, 9%nat; io_nonce := λ _, replicate 12 "n"%char |}.
done.
Defined.

(** A system without failures. *)
Definition steady : OS.
Proof.
refine {| io_ok := λ _, true; io_short := λ _, 9%nat; io_nonce := λ _, replicate 12 "n"%char |}.
done.
Defined.

Definition key1 : bytes := replicate 32 "k"%char.
Definition key2 : bytes := replicate 32 "r"%char.
Definition limit1 : Z := MaxRecord.
Definition empty_disk : Disk := mkDisk ∅ 0.
Definition ok_or {A} (a : A) (r : res JErr A) : A := match r with Ok x => x | Err _ => a end.
Definition nothing : Journal := new_journal "" (mkBox []) 0.

(** A life: open, append, append again with a failing sync, reopen. *)
Definition o1 := Open (H0 := flaky) "/j" key1 limit1 empty_disk.
Definition j1 := ok_or nothing o1.1.
Definition a1 := Append (H0 := flaky) "put" (Value "one") (j1, o1.2).
Definition a2 := Append (H0 := flaky) "put" (Value "two") a1.2.
Definition o2 := Open (H0 := flaky) "/j" key1 limit1 a2.2.2.
Definition j2 := ok_or nothing o2.1.
End JournalExample.
Import JournalExample.
Ltac run := vm_compute; reflexivity.

(** What the run does: one record acknowledged, one not, both there on reopening. *)
Example life_run :
  (ok_or 0%Z a1.1, res_ok a2.1, map entry (Records j2), Healthy j2) =
  (1%Z, false, [("put", bytes_of "one"); ("put", bytes_of "two")], true).
Proof. run. Qed.

Lemma acknowledged_survive_witness :
  lifetime (H0 := flaky) "/j" key1 limit1 j2 o2.2 [("put", bytes_of "one")] ∧
  [("put", bytes_of "one")] `sublist_of` map entry (Records j2).
Proof.
  assert (Open (H0 := flaky) "/j" key1 limit1 empty_disk = (Ok j1, o1.2)) as E1 by run.
  assert (Append (H0 := flaky) "put" (Value "one") (j1, o1.2) = (Ok 1%Z, (a1.2.1, a1.2.2))) as E2 by run.
  assert (Append (H0 := flaky) "put" (Value "two") (a1.2.1, a1.2.2) = (Err ErrUnavailable, (a2.2.1, a2.2.2))) as E3 by run.
  assert (Open (H0 := flaky) "/j" key1 limit1 a2.2.2 = (Ok j2, o2.2)) as E4 by run.
  assert (lifetime (H0 := flaky) "/j" key1 limit1 j2 o2.2 ([] ++ [("put", bytes_of "one")])) as Hl.
  { assert (utf8_valid "put" = true) as U by run.
    eapply lt_reopened; [|exact E4]. eapply lt_failed; [|exact U|exact E3].
    eapply lt_acked; [|exact U|reflexivity|exact E2]. eapply (lt_first _ _ _ empty_disk); [reflexivity|exact E1]. }
  split; [exact Hl|]. exact (proj1 (acknowledged_survive _ _ _ _ _ _ Hl)).
Defined.

(** The ledger of the first append, and a frame cut after 20 bytes. *)
Definition ledger1 : bytes := content "/j" a1.2.2.
Definition frame2 := frame (H0 := flaky) (mkBox key1) (put_record (mkJRec 2 "" "put" [])) empty_disk.
Definition buf2 : bytes := (ok_or ([], false) frame2.1).1.

Lemma torn_frame_refused_witness :
  load (new_journal "/j" (mkBox key1) limit1) (ledger1 ++ take 20 buf2) = None.
Proof.
  assert (load (new_journal "/j" (mkBox key1) limit1) ledger1 = Some a1.2.1) as E1 by run.
  assert (frame (H0 := flaky) (mkBox key1) (put_record (mkJRec 2 "" "put" [])) empty_disk =
          (Ok (buf2, (ok_or ([], false) frame2.1).2), frame2.2)) as E2 by run.
  assert (buf2 = take 20 buf2 ++ drop 20 buf2) as E3 by (symmetry; apply take_drop).
  assert (take 20 buf2 ≠ []) as E4 by (vm_compute; discriminate).
  assert (drop 20 buf2 ≠ []) as E5 by (vm_compute; discriminate).
  exact (torn_frame_refused _ _ _ _ _ _ _ _ _ _ _ _ E1 E2 E3 E4 E5).
Defined.

(** The same history in two directories, under two keys. *)
Definition p1 := Append (H0 := flaky) (H1 := perfect) "put" (Value "one")
  (ok_or nothing (Open (H0 := flaky) (H1 := perfect) "/a" key1 limit1 empty_disk).1, empty_disk).
Definition p2 := Append (H0 := flaky) (H1 := perfect) "put" (Value "one")
  (ok_or nothing (Open (H0 := flaky) (H1 := perfect) "/b" key2 limit1 empty_disk).1, empty_disk).
Definition loaded1 := load (H1 := perfect) (new_journal "/a" (mkBox key1) limit1) (content "/a" p1.2.2).
Definition loaded2 := load (H1 := perfect) (new_journal "/b" (mkBox key2) limit1) (content "/b" p2.2.2).

Lemma head_digest_commits_witness : ∃ k k', loaded1 = Some k ∧ loaded2 = Some k' ∧ Records k = Records k'.
Proof.
  destruct loaded1 as [k|] eqn:E1; [|vm_compute in E1; discriminate].
  destruct loaded2 as [k'|] eqn:E2; [|vm_compute in E2; discriminate].
  exists k, k'. split; [reflexivity|]. split; [reflexivity|].
  assert (j_seq <$> loaded1 = j_seq <$> loaded2) as F1 by run. rewrite E1, E2 in F1. injection F1 as F1.
  assert (j_prev <$> loaded1 = j_prev <$> loaded2) as F2 by run. rewrite E1, E2 in F2. injection F2 as F2.
  assert ((blen (content "/a" p1.2.2) <=? 2 ^ 30)%Z = true) as G1 by run. apply Z.leb_le in G1.
  assert ((blen (content "/b" p2.2.2) <=? 2 ^ 30)%Z = true) as G2 by run. apply Z.leb_le in G2.
  exact (head_digest_commits (H0 := perfect) _ _ _ _ _ _ _ _ _ _ hex_inj E1 E2 F1 G1 G2 F2).
Defined.

(** ** A replicated journal, anchored, appended to and reopened *)

Section Anchored.
Local Existing Instance steady.

Definition the_anchor : recoveryAnchor := mkAnchor "/anchor" (mkBox key2).
Definition first_open := openReplicated "/p" "/r" key1 key2 limit1 (Some the_anchor) empty_disk.
Definition first_j := ok_or nothing first_open.1.
Definition appended := Append "put" (Value "one") (first_j, first_open.2).
Definition second_open := openReplicated "/p" "/r" key1 key2 limit1 (Some the_anchor) appended.2.2.
Definition second_j := ok_or nothing second_open.1.

Lemma single_empty dir key : single dir key limit1 (new_journal dir (mkBox key) limit1) empty_disk.
Proof.
  split; try done. split; [apply numbered_new|done|done|constructor|].
  exists [], [], (new_journal dir (mkBox key) limit1). split_and!; [done|constructor|done|by left].
Qed.

(** The ledgers of a replicated journal are those of two journals of their own. *)
Lemma replicated_singles pd rd pk rk limit j d rec :
  replicated (j, d) → j_recovery j = Some rec → j_dir j = pd → j_box j = mkBox pk → j_limit j = limit →
  j_dir rec = rd → j_box rec = mkBox rk → j_limit rec = limit →
  single pd pk limit (set_anchor None (set_recovery None j)) d ∧ single rd rk limit rec d.
Proof.
  intros [Hi Hb] Hr Hd Hk Hl Hrd Hrk Hrl. simpl in *. rewrite Hr in Hb. destruct Hb as (Hir & Hrr & Hra & _).
  split; split; try done. by destruct Hi as [[] ? ? ? ?].
Qed.

Lemma append_keeps_replicated kind v j d : replicated (j, d) → utf8_valid kind = true →
  replicated (Append kind (Value v) (j, d)).2.
Proof.
  intros Hr Hk.
  pose proof (wp_append_replicated kind (Value v) (λ _ x, replicated x) j d Hr (storable_value kind v Hk)) as Hw.
  unfold wp in Hw. destruct (Append kind (Value v) (j, d)) as [r x]. by apply Hw.
Qed.

(** What the facts about a recovery journal are, computed. *)
Definition rec_facts (j : Journal) : option (bool * bool * string * Box * Z) :=
  (λ r, (bool_decide (is_Some (j_recovery r)), bool_decide (is_Some (j_anchor r)), j_dir r, j_box r, j_limit r))
    <$> j_recovery j.

Lemma no_some {A} (o : option A) : bool_decide (is_Some o) = false → o = None.
Proof. intros Ho%bool_decide_eq_false. by apply eq_None_not_Some. Qed.
End Anchored.

Lemma anchored_history_witness : ∃ latest hash rec,
  committed the_anchor appended.2.2 latest hash ∧ j_recovery second_j = Some rec ∧
  Z.of_nat (List.length (Records rec)) = latest ∧ map entry (Records second_j) = [("put", bytes_of "one")].
Proof.
  assert ("/p" ≠ "/r") as Hne by discriminate.
  assert (openReplicated (H0 := steady) "/p" "/r" key1 key2 limit1 (Some the_anchor) empty_disk = (Ok first_j, first_open.2)) as E1 by run.
  destruct (anchored_history (H0 := steady) _ _ _ _ _ _ _ _ _ _ _ Hne (single_empty "/p" key1) (single_empty "/r" key2) E1)
    as (l0 & h0 & rec0 & _ & Hrec0 & _ & _ & _ & _ & Hi0 & Hir0).
  assert (rec_facts first_j = Some (false, false, "/r", mkBox key2, limit1)) as F0 by run.
  unfold rec_facts in F0. rewrite Hrec0 in F0. injection F0 as F1 F2 F3 F4 F5.
  assert (replicated (first_j, first_open.2)) as R0.
  { split; [exact Hi0|]. cbn [fst snd]. rewrite Hrec0. split; [exact Hir0|].
    split; [by apply no_some|]. split; [by apply no_some|]. rewrite F3. vm_compute. discriminate. }
  assert (replicated (appended.2.1, appended.2.2)) as R1.
  { pose proof (append_keeps_replicated "put" "one" first_j first_open.2 R0 ltac:(run)) as R.
    unfold appended. destruct (Append (H0 := steady) "put" (Value "one") (first_j, first_open.2)) as [r [j d]]. exact R. }
  assert (rec_facts appended.2.1 = Some (false, false, "/r", mkBox key2, limit1)) as F0 by run.
  unfold rec_facts in F0. destruct (j_recovery appended.2.1) as [rec1|] eqn:Hrec1; [|discriminate].
  injection F0 as G1 G2 G3 G4 G5.
  destruct (replicated_singles "/p" "/r" key1 key2 limit1 _ _ _ R1 Hrec1 ltac:(run) ltac:(run) ltac:(run) G3 G4 G5) as [S1 S2].
  assert (openReplicated (H0 := steady) "/p" "/r" key1 key2 limit1 (Some the_anchor) appended.2.2 = (Ok second_j, second_open.2)) as E2 by run.
  destruct (anchored_history (H0 := steady) _ _ _ _ _ _ _ _ _ _ _ Hne S1 S2 E2)
    as (latest & hash & rec & Hc & Hrec & _ & Hlen & _).
  exists latest, hash, rec. split; [exact Hc|]. split; [exact Hrec|]. split; [exact Hlen|]. run.
Defined.
