(* ===== verification/Materialize.v ===== *)
(** The materializer (materialize/materialize.go): the files and environment a lease
    puts into its workload, and the state snapshot it takes back.

    The tree below the root holds one directory per lease, and in it a directory
    [state]; files are those of Journal.v's disk, so [securefs.Create] and
    [securefs.Read] are shared.  A failing [os.RemoveAll] may have removed any part. *)
From stdpp Require Import base gmap strings list pretty.
From Stdlib Require Import Ascii String.
From S2P Require Import Prelude GoStrings BrokerIdentity Contract BrokerTypes Journal.
Local Open Scope string_scope.

Inductive MErr := ErrMaterialize | ErrAlready | ErrStart.

(** [json.Marshal] of a map of strings, and what a failing [os.RemoveAll] leaves. *)
Class MaterialWorld := {
  strings_Marshal : gmap string string → string;
  rm_left : nat → string * string → bool;
}.

Record Manager := mkManager { mg_root : string; mg_active : gset string }.

(** The manager with the tree it works in. *)
Record Tree := mkTree { tr_man : Manager; tr_dirs : gset string; tr_disk : Disk }.

Definition set_disk (d : Disk) (w : Tree) : Tree := mkTree (tr_man w) (tr_dirs w) d.
Definition set_dirs (s : gset string) (w : Tree) : Tree := mkTree (tr_man w) s (tr_disk w).
Definition set_active (s : gset string) (w : Tree) : Tree :=
  mkTree (mkManager (mg_root (tr_man w)) s) (tr_dirs w) (tr_disk w).

(** [leaseID] *)
Definition lower_hex (c : ascii) : bool := is_digit c || in_range c 97 102.
Definition leaseID (s : string) : bool :=
  match s with
  | String c r => is_char "l" c && (len r =? 32)%Z && str_forallb lower_hex r
  | "" => false
  end.

(** [filepath.Join] of clean parts *)
Definition join (dir name : string) : string := dir ++ "/" ++ name.

(** Below a directory, or the directory itself. *)
Definition below (p d : string) : bool := (d == p) || HasPrefix d (p ++ "/").

Definition file_name (i : nat) : string := "file-" ++ pad2 i.

(** What a delivery puts into a file; [None] when its field was not given. *)
Definition delivery_bytes `{MaterialWorld} (d : Delivery) (b : Bundle) : option string :=
  if d_Type d == "json_file" then Some (strings_Marshal ((λ v, default "" (b !! v)) <$> d_Mapping d))
  else b !! d_Field d.

Section Manager.
Context `{OS} `{MaterialWorld} `{Codecs} `{Unicode}.
Abbreviation TM := (M Tree MErr).

(** A file operation; its error is reported as [e]. *)
Definition on_fs {A} (e : MErr) (m : M Disk JErr A) : TM A := λ w,
  let '(r, d) := m (tr_disk w) in
  (match r with Ok a => Ok a | Err _ => Err e end, set_disk d w).

Definition Mkdir (e : MErr) (p : string) : TM unit :=
  w ← get;
  fail_if (bool_decide (p ∈ tr_dirs w)) e ;;
  on_fs e (sys ErrOS) ;;
  modify (set_dirs ({[p]} ∪ tr_dirs w)).

Definition RemoveAll (e : MErr) (p : string) : TM unit := λ w,
  let d := tr_disk w in
  let gone := filter (λ kv, below p kv.1.1 = false) (files d) in
  let left_ := filter (λ kv, below p kv.1.1 = false ∨ rm_left (calls d) kv.1 = true) (files d) in
  if io_ok (calls d)
  then (Ok tt, mkTree (tr_man w) (filter (λ x, below p x = false) (tr_dirs w)) (mkDisk gone (S (calls d))))
  else (Err e, set_disk (mkDisk left_ (S (calls d))) w).

(** [New]: [entries] is what [os.ReadDir] lists, with whether each is a plain directory. *)
Definition New (root : string) (requireTmpfs : bool) (entries : list (string * bool)) : TM unit :=
  on_fs ErrStart (sys ErrUnsafe) ;;                       (** [securefs.Dir] *)
  (if requireTmpfs then on_fs ErrStart (sys ErrUnsafe) else mret tt) ;;
  on_fs ErrStart (sys ErrOS) ;;                           (** [os.ReadDir] *)
  for_each entries (λ entry,
    fail_if (negb (leaseID entry.1) || negb entry.2) ErrMaterialize ;;
    RemoveAll ErrStart (join root entry.1)) ;;
  modify (λ w, mkTree (mkManager root ∅) (tr_dirs w) (tr_disk w)).

(** One round of the loop over the deliveries. *)
Definition prepare_delivery (root : string) (b : Bundle) (out : Materialized) (x : nat * Delivery) : TM Materialized :=
  let '(i, d) := x in
  if d_Type d == "env" then
    mret (match b !! d_Field d with
          | Some v => mkMaterialized (m_LeaseID out) (m_ExpiresAt out) (<[d_Target d := v]> (m_Env out)) (m_Mounts out)
          | None => out
          end)
  else
    match delivery_bytes d b with
    | None => mret out
    | Some raw =>
        let name := file_name i in
        on_fs ErrMaterialize (securefs_Create root name (bytes_of raw)) ;;
        mret (mkMaterialized (m_LeaseID out) (m_ExpiresAt out)
                (if d_EnvName d != "" then <[d_EnvName d := d_Target d]> (m_Env out) else m_Env out)
                (m_Mounts out ++ [mkMount (join root name) (d_Target d) true])%list)
    end.

(** The state directory, with the files of the last snapshot. *)
Definition prepare_state (root : string) (state : Bundle) (out : Materialized) (st : CState) : TM Materialized :=
  let stateDir := join root "state" in
  Mkdir ErrMaterialize stateDir ;;
  for_each (st_Files st) (λ f,
    match state !! sf_Name f with
    | None => mret tt
    | Some value =>
        fail_if ((sf_MaxBytes f <? len value)%Z || (sf_JSON f && negb (strictjson_Valid value))) ErrMaterialize ;;
        on_fs ErrMaterialize (securefs_Create stateDir (sf_Name f) (bytes_of value))
    end) ;;
  mret (mkMaterialized (m_LeaseID out) (m_ExpiresAt out) (m_Env out)
          (m_Mounts out ++ [mkMount stateDir (st_Target st) false])%list).

Definition prepare_files (root : string) (c : Contract) (b state : Bundle) (out : Materialized) : TM Materialized :=
  out ← for_fold (imap pair (ct_Deliveries c)) out (prepare_delivery root b);
  match ct_State c with
  | Some st => prepare_state root state out st
  | None => mret out
  end.

Definition Prepare (id : string) (expires : Z) (c : Contract) (b state : Bundle) : TM Materialized :=
  fail_if (negb (leaseID id) || negb (ValidateStructure c) || negb (ValidateValues c b)) ErrMaterialize ;;
  w ← get;
  let root := join (mg_root (tr_man w)) id in
  fail_if (bool_decide (id ∈ mg_active (tr_man w))) ErrAlready ;;
  Mkdir ErrMaterialize root ;;
  r ← try (prepare_files root c b state (mkMaterialized id expires ∅ []));
  match r with
  | Err e => try (RemoveAll ErrMaterialize root) ;; mthrow_err e      (** the deferred cleanup *)
  | Ok out => modify (set_active ({[id]} ∪ mg_active (tr_man w))) ;; mret out
  end.

(** One round of the loop of [Snapshot]: the bundle so far and its size. *)
Definition snapshot_file (dir : string) (acc : Bundle * Z) (f : StateFile) : TM (Bundle * Z) :=
  let '(out, total) := acc in
  r ← on_fs ErrMaterialize (securefs_Read dir (sf_Name f) (sf_MaxBytes f));
  match r with
  | None => mret (out, total)
  | Some b =>
      fail_if (sf_JSON f && negb (strictjson_Valid (string_of b))) ErrMaterialize ;;
      let total := (total + blen b)%Z in
      fail_if (MaxBundle <? total)%Z ErrMaterialize ;;
      mret (<[sf_Name f := string_of b]> out, total)
  end.

Definition Snapshot (id : string) (c : Contract) : TM Bundle :=
  w ← get;
  fail_if (negb (ValidID id) || negb (bool_decide (id ∈ mg_active (tr_man w)))) ErrMaterialize ;;
  st ← some_or (ct_State c) ErrMaterialize;
  acc ← for_fold (st_Files st) (∅, 0%Z) (snapshot_file (join (join (mg_root (tr_man w)) id) "state"));
  mret (acc.1 : Bundle).

Definition Remove (id : string) : TM unit :=
  fail_if (negb (leaseID id)) ErrMaterialize ;;
  w ← get;
  RemoveAll ErrMaterialize (join (mg_root (tr_man w)) id) ;;
  w ← get;
  modify (set_active (mg_active (tr_man w) ∖ {[id]})).

(** [Close]: an [os.RemoveAll] that fails is reported, and does not stop the loop. *)
Definition close_one (result : bool) (id : string) : TM bool :=
  w ← get;
  r ← try (RemoveAll ErrMaterialize (join (mg_root (tr_man w)) id));
  match r with
  | Ok _ => w ← get; modify (set_active (mg_active (tr_man w) ∖ {[id]})) ;; mret result
  | Err _ => mret false
  end.

Definition Close : TM unit :=
  w ← get;
  result ← for_fold (elements (mg_active (tr_man w))) true close_one;
  fail_if (negb result) ErrMaterialize.

(** The broker's materializer. *)
#[export] Instance tree_materializer : Materializer Tree := {|
  mat_prepare := λ w id expires c b state,
    let '(r, w') := Prepare id expires c b state w in (w', match r with Ok out => Some out | Err _ => None end);
  mat_snapshot := λ w id c, let '(r, w') := Snapshot id c w in (w', match r with Ok b => Some b | Err _ => None end);
  mat_remove := λ w id, (Remove id w).2;
  mat_close := λ w, (Close w).2;
|}.
End Manager.
