(* ===== verification/MaterializeProps.v ===== *)
(** Theorems about the materializer: a lease's directory holds exactly what its contract
    delivers or nothing, and a state snapshot comes back as it was taken. *)
From stdpp Require Import base gmap strings list pretty.
From Stdlib Require Import Ascii String.
From S2P Require Import Prelude GoStrings BrokerIdentity Contract BrokerTypes Journal JournalProps JournalLog Materialize.
Local Open Scope string_scope.

(** * Paths *)

Lemma below_refl p : below p p = true.
Proof. unfold below. by rewrite bool_decide_eq_true_2. Qed.

Lemma below_join p x : below p (join p x) = true.
Proof.
  unfold below, join. apply orb_true_iff. right.
  rewrite <- append_assoc. apply prefix_append.
Qed.

Lemma join_neq p x : join p x ≠ p.
Proof.
  intros E%(f_equal len). unfold join in E. rewrite !len_append in E. unfold len in E. simpl in E. lia.
Qed.

Lemma below_parent p x d : below (join p x) d = true → below p d = true.
Proof.
  intros [Hd|Hd]%orb_true_iff; guards; [subst; apply below_join|]. apply prefix_split in Hd as [r ->].
  unfold below, join. apply orb_true_iff. right. rewrite !append_assoc. rewrite <- (append_assoc p).
  apply prefix_append.
Qed.

Lemma leaseID_len id : leaseID id = true → len id = 33%Z.
Proof.
  destruct id as [|c r]; [done|]. simpl. intros [[_ Hl]%andb_true_iff _]%andb_true_iff.
  apply Z.eqb_eq in Hl. unfold len in *. simpl. lia.
Qed.

Lemma below_split p d : below p d = true → ∃ r, d = p ++ r.
Proof.
  intros [Hd|Hd]%orb_true_iff; guards.
  - exists "". by rewrite append_empty_r.
  - apply prefix_split in Hd as [r ->]. exists ("/" ++ r). by rewrite append_assoc.
Qed.

(** The directories of two leases are apart. *)
Lemma leases_apart p id id' d : leaseID id = true → leaseID id' = true →
  below (join p id) d = true → below (join p id') d = true → id = id'.
Proof.
  intros Hl Hl' [r ->]%below_split [r' Heq]%below_split. unfold join in Heq. rewrite !append_assoc in Heq.
  apply leaseID_len in Hl, Hl'. do 2 apply append_inj_l in Heq. eapply append_eq_len; [congruence|exact Heq].
Qed.

Create HintDb paths.
#[export] Hint Resolve below_refl below_join : paths.

(** Insert a list of bindings, in order. *)
Section InsertAll.
Context `{Countable K} {V : Type}.
Implicit Types (l : list (K * V)) (m : gmap K V).

Definition insert_all l m : gmap K V := foldl (λ m kv, <[kv.1 := kv.2]> m) m l.

Lemma insert_all_snoc l kv m : insert_all (l ++ [kv])%list m = <[kv.1 := kv.2]> (insert_all l m).
Proof. unfold insert_all. by rewrite foldl_snoc. Qed.

Lemma insert_all_other l m k : (∀ kv, kv ∈ l → kv.1 ≠ k) → insert_all l m !! k = m !! k.
Proof.
  induction l as [|kv l IH] using rev_ind; intros Hl; [done|]. rewrite insert_all_snoc.
  rewrite lookup_insert_ne by (apply Hl; set_solver). apply IH. set_solver.
Qed.

Lemma insert_all_lookup l m k v :
  NoDup l.*1 → (∀ kv, kv ∈ l → m !! kv.1 = None) →
  insert_all l m !! k = Some v ↔ (k, v) ∈ l ∨ m !! k = Some v.
Proof.
  induction l as [|kv l IH] using rev_ind; intros Hnd Hm; [set_solver|]. rewrite insert_all_snoc.
  rewrite fmap_app in Hnd. apply NoDup_app in Hnd as (Hnd & Hdis & _).
  rewrite elem_of_app, list_elem_of_singleton. destruct (decide (kv.1 = k)) as [<-|Hne].
  - rewrite lookup_insert_eq. split.
    + intros [= <-]. left. right. by destruct kv.
    + intros [[Hin|Hin]|Hin]; [|by rewrite <- Hin|rewrite Hm in Hin; set_solver].
      exfalso. apply (Hdis kv.1); [|set_solver]. apply list_elem_of_fmap. by exists (kv.1, v).
  - rewrite lookup_insert_ne, IH by (done || set_solver). split; [naive_solver|].
    intros [[?|E]|?]; auto. by rewrite <- E in Hne.
Qed.

Lemma insert_all_app l l' m : insert_all (l ++ l') m = insert_all l' (insert_all l m).
Proof. unfold insert_all. by rewrite foldl_app. Qed.
End InsertAll.

(** * What a lease's directory holds *)

Section Expected.
Context `{MaterialWorld}.

(** The file of the [i]-th delivery. *)
Definition delivery_file (root : string) (b : Bundle) (x : nat * Delivery) : option ((string * string) * bytes) :=
  if d_Type x.2 == "env" then None
  else (λ raw, ((root, file_name x.1), bytes_of raw)) <$> delivery_bytes x.2 b.

Definition state_file (root : string) (state : Bundle) (f : StateFile) : option ((string * string) * bytes) :=
  (λ v, ((join root "state", sf_Name f), bytes_of v)) <$> state !! sf_Name f.

Definition lease_files (root : string) (c : Contract) (b state : Bundle) : list ((string * string) * bytes) :=
  (omap (delivery_file root b) (imap pair (ct_Deliveries c)) ++
   match ct_State c with Some st => omap (state_file root state) (st_Files st) | None => [] end)%list.

(** The variable of a delivery: its field, or the path of its file. *)
Definition env_of (b : Bundle) (x : nat * Delivery) : option (string * string) :=
  if d_Type x.2 == "env" then (λ v, (d_Target x.2, v)) <$> b !! d_Field x.2
  else delivery_bytes x.2 b ≫= λ _, if d_EnvName x.2 != "" then Some (d_EnvName x.2, d_Target x.2) else None.

Definition lease_env (c : Contract) (b : Bundle) : list (string * string) :=
  omap (env_of b) (imap pair (ct_Deliveries c)).

(** The mount of a delivery: its file, read only. *)
Definition mount_of (root : string) (b : Bundle) (x : nat * Delivery) : option Mount :=
  if d_Type x.2 == "env" then None
  else (λ _, mkMount (join root (file_name x.1)) (d_Target x.2) true) <$> delivery_bytes x.2 b.

Definition lease_mounts (root : string) (c : Contract) (b : Bundle) : list Mount :=
  (omap (mount_of root b) (imap pair (ct_Deliveries c)) ++
   match ct_State c with Some st => [mkMount (join root "state") (st_Target st) false] | None => [] end)%list.

Lemma delivery_dir root b (l : list (nat * Delivery)) kv : kv ∈ omap (delivery_file root b) l → kv.1.1 = root.
Proof.
  intros (x & _ & Hx)%list_elem_of_omap. unfold delivery_file in Hx.
  destruct (_ == _); [done|]. by apply fmap_Some in Hx as (raw & _ & ->).
Qed.

Lemma state_dir root state (l : list StateFile) kv : kv ∈ omap (state_file root state) l → kv.1.1 = join root "state".
Proof. intros (f & _ & Hf)%list_elem_of_omap. by apply fmap_Some in Hf as (v & _ & ->). Qed.

Lemma lease_files_below root c b state kv : kv ∈ lease_files root c b state → below root kv.1.1 = true.
Proof.
  unfold lease_files. rewrite elem_of_app. intros [->%delivery_dir|Hk]; [apply below_refl|].
  destruct (ct_State c) as [st|]; [|set_solver]. apply state_dir in Hk as ->. apply below_join.
Qed.

(** No two files of a lease have the same name. *)
Lemma delivery_names root b l n :
  NoDup (omap (delivery_file root b) (imap (λ i d, (n + i, d)%nat) l)).*1 ∧
  ∀ kv, kv ∈ omap (delivery_file root b) (imap (λ i d, (n + i, d)%nat) l) →
    ∃ i, (n ≤ i)%nat ∧ kv.1 = (root, file_name i).
Proof.
  revert n. induction l as [|d l IH]; intros n; simpl; [split; [constructor|set_solver]|].
  destruct (IH (S n)) as [Hnd Hnm].
  rewrite (imap_ext _ (λ i d, (S n + i, d)%nat)) by (intros; simpl; f_equal; lia).
  set (L := omap (delivery_file root b) (imap (λ i d, (S n + i, d)%nat) l)) in *.
  destruct (delivery_file root b ((n + 0)%nat, d)) as [kv|] eqn:Hkv.
  2:{ split; [done|]. intros kv (i & Hi & ?)%Hnm. exists i. split; [lia|done]. }
  assert (kv.1 = (root, file_name n)) as Hk.
  { unfold delivery_file in Hkv. simpl in Hkv. destruct (_ == _); [done|].
    apply fmap_Some in Hkv as (raw & _ & ->). simpl. do 2 f_equal. lia. }
  split.
  - simpl. constructor; [|done]. rewrite Hk. intros (kv' & Heq & (i & Hi & Hi')%Hnm)%list_elem_of_fmap.
    rewrite Hi' in Heq. injection Heq as Heq. unfold file_name in Heq. simplify_eq/=.
    apply pad2_inj in Heq. lia.
  - intros kv' [->|(i & Hi & ?)%Hnm]%elem_of_cons; [by exists n|]. exists i. split; [lia|done].
Qed.

Lemma state_files_nodup names l : state_files_loop names l = true →
  NoDup (map sf_Name l) ∧ ∀ f, f ∈ l → sf_Name f ∉ names.
Proof.
  revert names. induction l as [|f l IH]; intros names; simpl; [split; [constructor|set_solver]|].
  destruct (_ || _) eqn:Hc; [done|]. guards. intros [Hnd Hn]%IH. split.
  - constructor; [|done]. intros (g & Hg & Hgl)%list_elem_of_fmap. specialize (Hn g Hgl). set_solver.
  - intros g [->|Hg]%elem_of_cons; [done|]. specialize (Hn g Hg). set_solver.
Qed.

Lemma lease_files_nodup root c b state :
  (∀ st, ct_State c = Some st → NoDup (map sf_Name (st_Files st))) → NoDup (lease_files root c b state).*1.
Proof.
  intros Hst. unfold lease_files. rewrite fmap_app. pose proof (delivery_names root b (ct_Deliveries c) 0) as [Hnd Hnm].
  simpl in *. apply NoDup_app. split; [exact Hnd|]. split.
  - intros k (kv & -> & (i & _ & Hi)%Hnm)%list_elem_of_fmap Hk. destruct (ct_State c) as [st|]; [|set_solver].
    apply list_elem_of_fmap in Hk as (kv' & Heq & (f & _ & Hf)%list_elem_of_omap).
    apply fmap_Some in Hf as (v & _ & ->). rewrite Hi in Heq. injection Heq as Heq. by symmetry in Heq; apply join_neq in Heq.
  - destruct (ct_State c) as [st|]; [|constructor]. specialize (Hst st eq_refl).
    induction (st_Files st) as [|f l IH]; simpl in *; [constructor|]. apply NoDup_cons in Hst as [Hf Hst].
    unfold state_file at 1. destruct (state !! sf_Name f) as [v|]; simpl; [|by apply IH].
    constructor; [|by apply IH]. intros (kv & Heq & (g & Hg & Hkv)%list_elem_of_omap)%list_elem_of_fmap.
    apply fmap_Some in Hkv as (u & _ & ->). injection Heq as Heq. apply Hf. rewrite Heq.
    by apply list_elem_of_fmap_2.
Qed.
(** No two deliveries of a valid contract set the same variable. *)
Lemma env_keys fields targets targets' l n b :
  deliveries_loop fields targets l = Some targets' →
  NoDup (omap (env_of b) (imap (λ i d, (n + i, d)%nat) l)).*1 ∧
  ∀ kv, kv ∈ omap (env_of b) (imap (λ i d, (n + i, d)%nat) l) → kv.1 ∉ targets.
Proof.
  revert targets n. induction l as [|d l IH]; intros targets n Hl; simpl in *; [split; [constructor|set_solver]|].
  case_bool_decide as Hnew; [done|]. destruct (negb (delivery_rule fields d)); [done|].
  destruct (_ && _) eqn:He; [done|].
  set (ts := if d_EnvName d != "" then {[d_EnvName d]} ∪ ({[d_Target d]} ∪ targets) else {[d_Target d]} ∪ targets) in *.
  destruct (IH ts (S n) Hl) as [Hnd Hk]. clear IH.
  rewrite (imap_ext _ (λ i d, (S n + i, d)%nat)) by (intros; simpl; f_equal; lia).
  assert (Hsub : {[d_Target d]} ∪ targets ⊆ ts) by (subst ts; destruct (d_EnvName d != ""); set_solver).
  destruct (env_of b ((n + 0)%nat, d)) as [kv|] eqn:Hkv.
  2:{ split; [done|]. intros kv Hin%Hk. set_solver. }
  assert (kv.1 ∈ ts ∧ kv.1 ∉ targets) as [Hts Hnt].
  { unfold env_of in Hkv. simpl in Hkv. destruct (d_Type d == "env").
    - apply fmap_Some in Hkv as (v & _ & ->). set_solver.
    - apply bind_Some in Hkv as (raw & _ & Hkv). subst ts. destruct (d_EnvName d != ""); [|done].
      injection Hkv as <-. simpl in *. apply orb_false_iff in He as [_ He]. guards. set_solver. }
  simpl. split; [constructor; [|done]|].
  - intros (kv' & Heq & Hin%Hk)%list_elem_of_fmap. congruence.
  - intros kv' [->|Hin%Hk]%elem_of_cons; [done|]. set_solver.
Qed.
End Expected.

(** * The operations *)

Section Operations.
Context `{OS} `{MaterialWorld} `{Codecs} `{Unicode}.
Implicit Types (w : Tree) (c : Contract) (b state : Bundle).

(** Every file is in a directory of the tree, and the directories of a lease come and go
    together. *)
Record tree_ok w : Prop := {
  tk_files : ∀ key v, files (tr_disk w) !! key = Some v → below (mg_root (tr_man w)) key.1 = true →
    key.1 ∈ tr_dirs w;
  tk_dirs : ∀ id d, leaseID id = true → d ∈ tr_dirs w → below (join (mg_root (tr_man w)) id) d = true →
    join (mg_root (tr_man w)) id ∈ tr_dirs w;
}.

Lemma wp_on_fs {A} e (m : M Disk JErr A) (Q : res MErr A → Tree → Prop) w :
  wp m (λ r d, Q (match r with Ok a => Ok a | Err _ => Err e end) (set_disk d w)) (tr_disk w) →
  wp (on_fs e m) Q w.
Proof. unfold wp, on_fs. by destruct (m (tr_disk w)). Qed.

(** Nothing but the files changes. *)
Definition same_tree w w' : Prop := tr_man w' = tr_man w ∧ tr_dirs w' = tr_dirs w.

Lemma wp_Mkdir e p (Q : res MErr unit → Tree → Prop) w :
  (∀ w', tr_man w' = tr_man w → files (tr_disk w') = files (tr_disk w) → p ∉ tr_dirs w →
     tr_dirs w' = {[p]} ∪ tr_dirs w → Q (Ok tt) w') →
  (∀ w', same_tree w w' → files (tr_disk w') = files (tr_disk w) → Q (Err e) w') →
  wp (Mkdir e p) Q w.
Proof.
  intros Hok Herr. unfold Mkdir. apply wp_bind, wp_get, wp_bind, wp_fail_if; [intros _; by apply Herr|].
  intros Hn%bool_decide_eq_false. apply wp_bind, wp_on_fs, wp_sys. intros [[]|x] d Hd; simpl.
  - apply wp_modify, Hok; done.
  - by apply Herr.
Qed.

(** The files below [root] are in directories that are there, as is [root]. *)
Definition placed root w : Prop :=
  root ∈ tr_dirs w ∧
  ∀ key v, files (tr_disk w) !! key = Some v → below root key.1 = true → key.1 ∈ tr_dirs w.

(** What the tree looks like when [root] was being filled. *)
Record within root w w' : Prop := {
  wi_man : tr_man w' = tr_man w;
  wi_dirs : ∀ d, below root d = false → d ∈ tr_dirs w' ↔ d ∈ tr_dirs w;
  wi_files : ∀ key, below root key.1 = false → files (tr_disk w') !! key = files (tr_disk w) !! key;
  wi_placed : placed root w → placed root w';
}.

Global Instance within_preorder root : PreOrder (within root).
Proof.
  split; [by split|]. intros w1 w2 w3 [Hm Hd Hf Hp] [Hm' Hd' Hf' Hp']. split; [congruence| | |auto].
  - intros d Hb. by rewrite Hd', Hd.
  - intros key Hb. by rewrite Hf', Hf.
Qed.

(** New directories below [root], and files in [root] or in them. *)
Lemma within_adds root w w' (D : gset string) l :
  tr_man w' = tr_man w → tr_dirs w' = D ∪ tr_dirs w →
  files (tr_disk w') = insert_all l (files (tr_disk w)) →
  (∀ d, d ∈ D → below root d = true) → (∀ kv, kv ∈ l → kv.1.1 ∈ {[root]} ∪ D) → within root w w'.
Proof.
  intros Hm Hd Hf HD Hl.
  assert (Hlb : ∀ kv, kv ∈ l → below root kv.1.1 = true).
  { intros kv [->%elem_of_singleton|Hk]%Hl%elem_of_union; [apply below_refl|by apply HD]. }
  split; [done| | |].
  - intros d Hb. rewrite Hd, elem_of_union. split; [|by right]. intros [Hin%HD|?]; [congruence|done].
  - intros key Hk. rewrite Hf. apply insert_all_other. intros kv Hkv%Hlb <-. congruence.
  - intros [Hr Hp]. split; [set_solver|]. intros key v Hv Hk. rewrite Hf in Hv. rewrite Hd.
    destruct (decide (key ∈ l.*1)) as [(kv & -> & Hkv)%list_elem_of_fmap|Hnk].
    + apply Hl in Hkv. set_solver.
    + rewrite insert_all_other in Hv; [set_solver|]. intros kv Hkv <-. apply Hnk, list_elem_of_fmap. eauto.
Qed.

Lemma within_same root w w' :
  same_tree w w' → files (tr_disk w') = files (tr_disk w) → within root w w'.
Proof. intros [Hm Hd] Hf. apply (within_adds root w w' ∅ []); set_solver. Qed.

(** One delivery: its file, its variable and its mount. *)
Lemma wp_prepare_delivery root b out x w (R : MErr → Tree → Prop) (Q : Materialized → Tree → Prop) :
  (∀ w', same_tree w w' →
     files (tr_disk w') = insert_all (omap (delivery_file root b) [x]) (files (tr_disk w)) →
     Q (mkMaterialized (m_LeaseID out) (m_ExpiresAt out) (insert_all (omap (env_of b) [x]) (m_Env out))
          (m_Mounts out ++ omap (mount_of root b) [x])%list) w') →
  (∀ e w', within root w w' → R e w') →
  wp (prepare_delivery root b out x) (λ r w', match r with Ok o => Q o w' | Err e => R e w' end) w.
Proof.
  intros HQ Herr. destruct x as [i d]. unfold prepare_delivery, delivery_file, env_of, mount_of in *. simpl in *.
  destruct out as [l t env mounts]. simpl in *.
  destruct (d_Type d == "env") eqn:Ht; simpl in *.
  { apply wp_ret. rewrite app_nil_r in HQ. by destruct (b !! d_Field d) as [v|]; apply HQ. }
  destruct (delivery_bytes d b) as [raw|] eqn:Hraw; simpl in *.
  2:{ apply wp_ret. rewrite app_nil_r in HQ. by apply HQ. }
  apply wp_bind, wp_on_fs, wp_Create.
  - intros d' Hnew Hd'. apply wp_ret. destruct (d_EnvName d != ""); by apply HQ.
  - intros e d' Hd'. by apply Herr, within_same.
  - intros e d' Hnew Hd'. apply Herr, (within_adds _ _ _ ∅ [((root, file_name i), bytes_of raw)]); set_solver.
Qed.

(** The deliveries, all of them. *)
Lemma wp_deliveries root c b out w :
  m_Env out = ∅ → m_Mounts out = [] →
  let l := imap pair (ct_Deliveries c) in
  wp (for_fold l out (prepare_delivery root b))
    (λ r w', match r with
      | Ok o => same_tree w w' ∧ m_LeaseID o = m_LeaseID out ∧ m_ExpiresAt o = m_ExpiresAt out ∧
          files (tr_disk w') = insert_all (omap (delivery_file root b) l) (files (tr_disk w)) ∧
          m_Env o = insert_all (lease_env c b) ∅ ∧ m_Mounts o = omap (mount_of root b) l
      | Err _ => within root w w'
      end) w.
Proof.
  intros Henv Hmounts l.
  apply (wp_for_fold_prefix (λ pre o w', same_tree w w' ∧ m_LeaseID o = m_LeaseID out ∧
      m_ExpiresAt o = m_ExpiresAt out ∧
      files (tr_disk w') = insert_all (omap (delivery_file root b) pre) (files (tr_disk w)) ∧
      m_Env o = insert_all (omap (env_of b) pre) ∅ ∧ m_Mounts o = omap (mount_of root b) pre)
    (λ _ w', within root w w')).
  { by rewrite Henv, Hmounts. }
  intros pre x post o w1 _ (Ht & H1' & H2' & Hf & He & Hm). pose proof Ht as [Htm Htd].
  rewrite !omap_app, !insert_all_app. apply wp_prepare_delivery; simpl.
  - intros w2 [Hm2 Hd2] Hf2. rewrite Hf2, Hf, He, Hm. split_and!; try done. split; congruence.
  - intros _ w2 Hin. etrans; [|exact Hin]. eapply (within_adds _ _ _ ∅); [done|set_solver|exact Hf|set_solver|].
    intros kv ->%delivery_dir. set_solver.
Qed.

(** The state files handed in are within their declared bounds. *)
Definition state_fits state (l : list StateFile) : Prop :=
  ∀ f v, f ∈ l → state !! sf_Name f = Some v →
    (len v ≤ sf_MaxBytes f)%Z ∧ (sf_JSON f = true → strictjson_Valid v = true).

Lemma within_state root state (l : list StateFile) w w' :
  tr_man w' = tr_man w → tr_dirs w' = {[join root "state"]} ∪ tr_dirs w →
  files (tr_disk w') = insert_all (omap (state_file root state) l) (files (tr_disk w)) → within root w w'.
Proof.
  intros Hm Hd Hf. eapply within_adds; [exact Hm|exact Hd|exact Hf| |].
  - intros d ->%elem_of_singleton. apply below_join.
  - intros kv ->%state_dir. set_solver.
Qed.

Lemma wp_prepare_state root state out st w :
  wp (prepare_state root state out st)
    (λ r w', match r with
      | Ok o => tr_man w' = tr_man w ∧ tr_dirs w' = {[join root "state"]} ∪ tr_dirs w ∧
          files (tr_disk w') = insert_all (omap (state_file root state) (st_Files st)) (files (tr_disk w)) ∧
          state_fits state (st_Files st) ∧
          o = mkMaterialized (m_LeaseID out) (m_ExpiresAt out) (m_Env out)
                (m_Mounts out ++ [mkMount (join root "state") (st_Target st) false])%list
      | Err _ => within root w w'
      end) w.
Proof.
  unfold prepare_state. apply wp_bind, wp_Mkdir.
  2:{ intros w' Hs Hf. by apply within_same. }
  intros w1 Hm1 Hf1 _ Hd1. apply wp_bind.
  set (I := λ (pre : list StateFile) w', tr_man w' = tr_man w ∧ tr_dirs w' = {[join root "state"]} ∪ tr_dirs w ∧
    files (tr_disk w') = insert_all (omap (state_file root state) pre) (files (tr_disk w))).
  set (J := λ (pre : list StateFile) w', I pre w' ∧ state_fits state pre).
  assert (HI : ∀ pre w', I pre w' → within root w w').
  { intros pre w' (Hm & Hd & Hf). by apply (within_state root state pre). }
  eapply wp_mono.
  { apply (wp_for_each_prefix J (λ _ w', within root w w')); [split; [done|by intros ? ? ?%elem_of_nil]|].
    intros pre f post w2 _ [HI2 Hfit]. pose proof HI2 as (Hm & Hd & Hf). unfold J, I. rewrite omap_app. simpl.
    unfold state_file at 2. destruct (state !! sf_Name f) as [v|] eqn:Hv; simpl.
    2:{ apply wp_ret. rewrite app_nil_r. split; [done|].
        intros g u [Hg| ->%list_elem_of_singleton]%elem_of_app Hu; [by apply Hfit|congruence]. }
    apply wp_bind, wp_fail_if; [intros _; by eapply HI|intros Hg]. apply wp_on_fs, wp_Create; simpl.
    - intros d Hnew Hd'. split; [split_and!; try done; by rewrite insert_all_snoc, Hd', Hf|].
      intros g u [Hg'| ->%list_elem_of_singleton]%elem_of_app Hu; [by apply Hfit|].
      rewrite Hu in Hv. injection Hv as ->. apply orb_false_iff in Hg as [Hg1%Z.ltb_ge Hg2].
      split; [lia|]. intros Hj. rewrite Hj in Hg2. by apply negb_false_iff in Hg2.
    - intros e d Hd'. apply (HI pre). split_and!; try done. simpl. by rewrite Hd'.
    - intros e d Hnew Hd'. apply (HI (pre ++ [f])%list). split_and!; try done. simpl. rewrite omap_app. simpl.
      unfold state_file at 2. rewrite Hv. simpl. by rewrite insert_all_snoc, Hd', Hf. }
  intros [[]|e] w3 H3; [|done]. apply wp_ret. destruct H3 as ((? & ? & ?) & ?). done.
Qed.

Lemma wp_prepare_files root c b state out w :
  m_Env out = ∅ → m_Mounts out = [] →
  wp (prepare_files root c b state out)
    (λ r w', match r with
      | Ok o => within root w w' ∧ m_LeaseID o = m_LeaseID out ∧ m_ExpiresAt o = m_ExpiresAt out ∧
          files (tr_disk w') = insert_all (lease_files root c b state) (files (tr_disk w)) ∧
          m_Env o = insert_all (lease_env c b) ∅ ∧ m_Mounts o = lease_mounts root c b ∧
          (∀ st, ct_State c = Some st → state_fits state (st_Files st))
      | Err _ => within root w w'
      end) w.
Proof.
  intros Henv Hmounts. unfold prepare_files, lease_files, lease_mounts. apply wp_bind.
  eapply wp_mono; [by apply wp_deliveries|]. intros [o|e] w1; [|done].
  intros (Hs & Hl & He & Hf & Hev & Hmo). pose proof Hs as [Hm1 Hd1].
  assert (within root w w1) as Hin.
  { eapply (within_adds _ _ _ ∅); [done|set_solver|exact Hf|set_solver|]. intros kv ->%delivery_dir. set_solver. }
  destruct (ct_State c) as [st|] eqn:Hst.
  - eapply wp_mono; [apply wp_prepare_state|]. intros [o'|e] w2; [|by intros; etrans].
    intros (Hm2 & Hd2 & Hf2 & Hfit & ->). simpl. rewrite Hmo. split_and!; try done; [| |by intros ? [= <-]].
    + etrans; [done|]. by apply (within_state root state (st_Files st)).
    + by rewrite Hf2, Hf, insert_all_app.
  - apply wp_ret. by rewrite !app_nil_r.
Qed.

(** Removing a directory: all of it is gone, or the call failed and some of it may be. *)
Lemma wp_RemoveAll e p (Q : res MErr unit → Tree → Prop) w :
  (∀ w', tr_man w' = tr_man w → io_ok (calls (tr_disk w)) = true →
     (∀ d, d ∈ tr_dirs w' ↔ d ∈ tr_dirs w ∧ below p d = false) →
     (∀ key, files (tr_disk w') !! key = if below p key.1 then None else files (tr_disk w) !! key) →
     Q (Ok tt) w') →
  (∀ w', io_ok (calls (tr_disk w)) = false → calls (tr_disk w') = S (calls (tr_disk w)) →
     within p w w' → Q (Err e) w') →
  wp (RemoveAll e p) Q w.
Proof.
  intros Hok Herr. unfold wp, RemoveAll. destruct (io_ok (calls (tr_disk w))) eqn:Hio.
  - apply Hok; simpl; try done.
    + intros d. rewrite elem_of_filter. tauto.
    + intros key. destruct (below p key.1) eqn:Hb.
      * apply map_lookup_filter_None. right. intros v _. simpl. by rewrite Hb.
      * destruct (files (tr_disk w) !! key) as [v|] eqn:Hv.
        -- by apply map_lookup_filter_Some.
        -- apply map_lookup_filter_None. by left.
  - apply Herr; try done. split; simpl; try done.
    + intros key Hb. destruct (files (tr_disk w) !! key) as [v|] eqn:Hv.
      * apply map_lookup_filter_Some. simpl. auto.
      * apply map_lookup_filter_None. by left.
    + intros [Hr Hp]. split; [done|]. simpl. intros key v [Hv _]%map_lookup_filter_Some. by eapply Hp.
Qed.

Lemma structure_state_loop c st : ValidateStructure c = true → ct_State c = Some st → state_files_loop ∅ (st_Files st) = true.
Proof.
  unfold ValidateStructure. intros Hv Hst.
  repeat match type of Hv with
  | (if ?x then _ else _) = true => destruct x; [done|]
  | match ?x with Some _ => _ | None => _ end = true => destruct x; [|done]
  end.
  rewrite Hst in Hv. apply andb_true_iff in Hv as [Hv _]. unfold state_rule in Hv.
  destruct (_ || _); [done|]. by destruct (state_files_loop ∅ (st_Files st)).
Qed.

Lemma structure_state c st : ValidateStructure c = true → ct_State c = Some st → NoDup (map sf_Name (st_Files st)).
Proof. intros Hv Hst. pose proof (structure_state_loop c st Hv Hst) as Hl. by apply state_files_nodup in Hl as [? _]. Qed.

(** Nothing is below a lease directory that is not there. *)
Lemma tree_ok_empty w id key : tree_ok w → leaseID id = true → join (mg_root (tr_man w)) id ∉ tr_dirs w →
  below (join (mg_root (tr_man w)) id) key.1 = true → files (tr_disk w) !! key = None.
Proof.
  intros [Hf Hd] Hl Hn Hb. apply eq_None_not_Some. intros [v Hv]. apply Hn, (Hd id key.1); [done| |done].
  by apply (Hf key v), (below_parent _ id).
Qed.

(** A tree stays well formed when only what is below a lease directory changes, its files
    are in directories that are there, and so is the lease directory if anything is. *)
Lemma tree_ok_within w w' id :
  tree_ok w → leaseID id = true → within (join (mg_root (tr_man w)) id) w w' →
  (∀ key v, files (tr_disk w') !! key = Some v → below (join (mg_root (tr_man w)) id) key.1 = true → key.1 ∈ tr_dirs w') →
  (∀ d, d ∈ tr_dirs w' → below (join (mg_root (tr_man w)) id) d = true → join (mg_root (tr_man w)) id ∈ tr_dirs w') →
  tree_ok w'.
Proof.
  intros [Hf Hd] Hl [Hm Hdirs Hfiles] Hin Hcl. split; rewrite Hm.
  - intros key v Hv Hb. destruct (below (join (mg_root (tr_man w)) id) key.1) eqn:Hb'; [by eapply Hin|].
    rewrite Hfiles in Hv by done. apply Hdirs; [done|]. by eapply Hf.
  - intros id' d Hl' Hin' Hb. destruct (below (join (mg_root (tr_man w)) id) d) eqn:Hb'.
    + rewrite (leases_apart _ _ _ _ Hl' Hl Hb Hb'). by eapply Hcl.
    + destruct (below (join (mg_root (tr_man w)) id) (join (mg_root (tr_man w)) id')) eqn:Hb2.
      * rewrite (leases_apart _ _ _ _ Hl Hl' Hb2 (below_refl _)) in *. congruence.
      * apply Hdirs; [done|]. apply (Hd id' d); [done| |done]. by apply Hdirs.
Qed.
(** What a tree has below a lease directory. *)
Definition holds root w (l : list ((string * string) * bytes)) : Prop :=
  ∀ key v, below root key.1 = true → files (tr_disk w) !! key = Some v ↔ (key, v) ∈ l.

(** A file call that failed was the last one. *)
Definition last_failed w : Prop := ∃ n, calls (tr_disk w) = S n ∧ io_ok n = false.

(** Filling a lease directory that was not there, and the cleanup after an error. *)
Lemma wp_fill w1 w id c b state expires (Q : res MErr Materialized → Tree → Prop) :
  let root := join (mg_root (tr_man w)) id in
  tree_ok w → leaseID id = true → ValidateStructure c = true →
  tr_man w1 = tr_man w → files (tr_disk w1) = files (tr_disk w) → root ∉ tr_dirs w →
  tr_dirs w1 = {[root]} ∪ tr_dirs w →
  (∀ o w2, tree_ok w2 → within root w1 w2 → holds root w2 (lease_files root c b state) →
     m_LeaseID o = id → m_ExpiresAt o = expires →
     m_Env o = insert_all (lease_env c b) ∅ → m_Mounts o = lease_mounts root c b →
     (∀ st, ct_State c = Some st → state_fits state (st_Files st)) →
     Q (Ok o) (set_active ({[id]} ∪ mg_active (tr_man w)) w2)) →
  (∀ e w2, tree_ok w2 → within root w1 w2 ∧ last_failed w2 ∨
     same_tree w w2 ∧ files (tr_disk w2) = files (tr_disk w) → Q (Err e) w2) →
  wp (r ← try (prepare_files root c b state (mkMaterialized id expires ∅ []));
      match r with
      | Err e => try (RemoveAll ErrMaterialize root) ;; mthrow_err e
      | Ok out => modify (set_active ({[id]} ∪ mg_active (tr_man w))) ;; mret out
      end) Q w1.
Proof.
  intros root Hok Hl Hv Hm1 Hf1 Hn Hd1 HQ HE.
  assert (Hempty : ∀ key, below root key.1 = true → files (tr_disk w1) !! key = None).
  { intros key Hk. rewrite Hf1. by apply (tree_ok_empty w id). }
  assert (Hp1 : placed root w1). { split; [set_solver|]. intros key v Hv' Hk. rewrite Hempty in Hv'; done. }
  assert (Hok1 : tree_ok w1).
  { apply (tree_ok_within w w1 id); try done; [|by intros key v; destruct Hp1 as [_ Hp]; eapply Hp|by destruct Hp1].
    apply (within_adds _ _ _ {[root]} []); try done; [|set_solver]. intros d ->%elem_of_singleton. apply below_refl. }
  assert (Hwi : ∀ w2, within root w1 w2 → tree_ok w2).
  { intros w2 Hin. destruct (wi_placed _ _ _ Hin Hp1) as [Hr2 Hp2]. apply (tree_ok_within w1 w2 id); rewrite ?Hm1; try done. }
  apply wp_bind, wp_try. eapply wp_mono; [by apply wp_prepare_files|]. intros [o|e] w2; simpl.
  - intros (Hin & Hlid & Hex & Hf2 & Henv & Hmo & Hfit). apply wp_bind, wp_modify, wp_ret.
    apply HQ; auto. intros key v Hk. rewrite Hf2, insert_all_lookup.
    + rewrite Hempty by done. naive_solver.
    + apply lease_files_nodup. intros st. by apply structure_state.
    + intros kv Hkv%lease_files_below. by apply Hempty.
  - intros Hin. apply wp_bind, wp_try, wp_RemoveAll.
    + intros w3 Hm3 _ Hd3 Hf3. apply wp_throw.
      assert (Hs : same_tree w w3 ∧ files (tr_disk w3) = files (tr_disk w)).
      { destruct Hin as [Hm2 Hd2 Hf2 _]. split.
        - split; [congruence|]. apply set_eq. intros d. rewrite Hd3. destruct (below root d) eqn:Hb.
          + split; [by intros []|]. intros Hin'. exfalso. by apply Hn, (tk_dirs _ Hok id d).
          + rewrite Hd2, Hd1 by done. assert (d ≠ root) by (intros ->; by rewrite below_refl in Hb). set_solver.
        - apply map_eq. intros key. rewrite Hf3. destruct (below root key.1) eqn:Hb.
          + by rewrite <- Hf1, Hempty.
          + by rewrite Hf2, Hf1. }
      apply HE; [|by right]. destruct Hs as [[Hsm Hsd] Hsf], Hok as [Hokf Hokd].
      split; rewrite Hsm, Hsd; [rewrite Hsf; exact Hokf|exact Hokd].
    + intros w3 Hio Hc Hin3. apply wp_throw. assert (within root w1 w3) by by etrans.
      apply HE; [by apply Hwi|]. left. split; [done|]. by exists (calls (tr_disk w2)).
Qed.

Lemma structure_env c b : ValidateStructure c = true → NoDup (lease_env c b).*1.
Proof.
  unfold ValidateStructure. intros Hv.
  repeat match type of Hv with (if ?x then _ else _) = true => destruct x; [done|] end.
  destruct (fields_loop _ _ _) as [fields|]; [|done].
  repeat match type of Hv with (if ?x then _ else _) = true => destruct x; [done|] end.
  destruct (deliveries_loop fields ∅ (ct_Deliveries c)) as [targets|] eqn:Hd; [|done].
  by apply (env_keys _ _ _ _ 0 b) in Hd as [? _].
Qed.

Lemma prepare_spec w id expires c b state r w' :
  tree_ok w → Prepare id expires c b state w = (r, w') →
  let root := join (mg_root (tr_man w)) id in
  tree_ok w' ∧ (∀ key, below root key.1 = false → files (tr_disk w') !! key = files (tr_disk w) !! key) ∧
  match r with
  | Ok out =>
      leaseID id = true ∧ ValidateStructure c = true ∧ ValidateValues c b = true ∧
      ¬ (id ∈ mg_active (tr_man w)) ∧ tr_man w' = mkManager (mg_root (tr_man w)) ({[id]} ∪ mg_active (tr_man w)) ∧
      m_LeaseID out = id ∧ m_ExpiresAt out = expires ∧ holds root w' (lease_files root c b state) ∧
      (∀ k v, m_Env out !! k = Some v ↔ (k, v) ∈ lease_env c b) ∧ m_Mounts out = lease_mounts root c b ∧
      (∀ st, ct_State c = Some st → state_fits state (st_Files st))
  | Err _ => tr_man w' = tr_man w ∧ (tr_dirs w' = tr_dirs w ∧ files (tr_disk w') = files (tr_disk w) ∨ last_failed w')
  end.
Proof.
  intros Hok Hrun root. pattern r, w'. eapply run_wp; [exact Hrun|]. clear Hrun r w'. unfold Prepare.
  apply wp_bind, wp_fail_if; [by intros _; split_and!; auto|]. intros Hg. guards.
  apply wp_bind, wp_get, wp_bind, wp_fail_if; [by intros _; split_and!; auto|]. intros Hna%bool_decide_eq_false.
  assert (Hsame : ∀ w', same_tree w w' → files (tr_disk w') = files (tr_disk w) → tree_ok w').
  { intros w' [Hm Hd] Hf. destruct Hok as [Hkf Hkd]. split; rewrite Hm, Hd; [rewrite Hf; exact Hkf|exact Hkd]. }
  apply wp_bind, wp_Mkdir.
  2:{ intros w' Hs Hf. split; [auto|]. split; [by intros; rewrite Hf|]. destruct Hs. auto. }
  intros w1 Hm1 Hf1 Hn Hd1. assert (Hout : ∀ w2, within root w1 w2 → ∀ key, below root key.1 = false →
    files (tr_disk w2) !! key = files (tr_disk w) !! key).
  { intros w2 Hin key Hk. by rewrite (wi_files _ _ _ Hin), Hf1. }
  apply (wp_fill w1 w); try done.
  - intros o w2 Hok2 Hin Hh Hl He Henv Hmo Hfit. pose proof (wi_man _ _ _ Hin) as Hm2. split.
    { destruct Hok2 as [Ha Hb]. split; [exact Ha|exact Hb]. }
    split; [exact (Hout w2 Hin)|]. split_and!; try done.
    + simpl. by rewrite Hm2, Hm1.
    + intros k v. rewrite Henv, insert_all_lookup; [set_solver|by apply structure_env|done].
  - intros e w2 Hok2 [[Hin Hlf]|[Hs Hf]].
    + split; [done|]. split; [exact (Hout w2 Hin)|]. rewrite (wi_man _ _ _ Hin). rewrite Hm1. auto.
    + split; [done|]. split; [by intros; rewrite Hf|]. destruct Hs. auto.
Qed.

(** C15. Materialising a lease is all or nothing. When [Prepare] succeeds, the lease was
    not active and is now, its directory holds exactly the files of its contract (one
    per delivered file, and the state files there were), its environment is exactly the
    variables of the contract, each set once, and its mounts are exactly those files,
    read only, with the state directory.  When it fails, no lease became active and the
    tree is as it was, unless the cleanup itself failed.  Either way nothing outside the
    lease's directory changed. *)
Theorem prepare_all_or_nothing w id expires c b state r w' :
  tree_ok w → Prepare id expires c b state w = (r, w') →
  let root := join (mg_root (tr_man w)) id in
  tree_ok w' ∧ (∀ key, below root key.1 = false → files (tr_disk w') !! key = files (tr_disk w) !! key) ∧
  match r with
  | Ok out =>
      leaseID id = true ∧ ValidateStructure c = true ∧ ValidateValues c b = true ∧
      ¬ (id ∈ mg_active (tr_man w)) ∧ tr_man w' = mkManager (mg_root (tr_man w)) ({[id]} ∪ mg_active (tr_man w)) ∧
      m_LeaseID out = id ∧ m_ExpiresAt out = expires ∧ holds root w' (lease_files root c b state) ∧
      (∀ k v, m_Env out !! k = Some v ↔ (k, v) ∈ lease_env c b) ∧ m_Mounts out = lease_mounts root c b
  | Err _ => tr_man w' = tr_man w ∧ (tr_dirs w' = tr_dirs w ∧ files (tr_disk w') = files (tr_disk w) ∨ last_failed w')
  end.
Proof.
  intros Hok Hrun root. destruct (prepare_spec _ _ _ _ _ _ _ _ Hok Hrun) as (? & ? & Hr). split_and!; try done.
  destruct r; [|done]. by destruct Hr as (? & ? & ? & ? & ? & ? & ? & ? & ? & ? & _).
Qed.

(** * Snapshots *)

Lemma leaseID_ValidID id : leaseID id = true → ValidID id = true.
Proof.
  destruct id as [|a r]; [done|]. simpl. rewrite !andb_true_iff. intros [[Ha Hl] Hr]. split_and!.
  - revert a Ha. by_char.
  - revert Hr. apply str_forallb_mono. by_char.
  - apply Nat.leb_le. apply Z.eqb_eq in Hl. unfold len in Hl. lia.
Qed.

Lemma stateName_Name x : stateName x = true → Contains x ".." = false → Name x = true.
Proof.
  unfold stateName, match_ident, Name. destruct x as [|a r]; [done|]. intros [[Ha Hr]%andb_true_iff Hl%Nat.leb_le]%andb_true_iff Hd.
  assert (str_forallb (λ ch, is_alnum ch || is_char "_" ch || is_char "." ch || is_char "-" ch) (String a r) = true) as Hall.
  { simpl. apply andb_true_iff. split; [|done]. clear -Ha. revert a Ha. by_char. }
  rewrite !andb_true_iff. split_and!.
  - done.
  - apply negb_true_iff, bool_decide_eq_false. intros [= -> ->]. done.
  - apply negb_true_iff, bool_decide_eq_false. intros [= -> ->]. done.
  - apply Z.leb_le. unfold len. simpl. lia.
  - apply negb_true_iff. unfold str_existsb. apply negb_false_iff. revert Hall. apply str_forallb_mono. by_char.
Qed.

Lemma state_files_names names l f : state_files_loop names l = true → f ∈ l → Name (sf_Name f) = true.
Proof.
  revert names. induction l as [|g l IH]; intros names Hl Hin; [set_solver|]. simpl in Hl.
  destruct (negb (stateName (sf_Name g)) || Contains (sf_Name g) ".." || _ || _ || _) eqn:Hc; [done|].
  apply elem_of_cons in Hin as [->|Hin]; [|by eapply IH]. rewrite !orb_false_iff in Hc.
  destruct Hc as ((((Hs%negb_false_iff & Hd) & _) & _) & _). by apply stateName_Name.
Qed.

(** The part of a state bundle a contract declares, and its size. *)
Definition declared state (l : list StateFile) : Bundle := filter (λ kv, kv.1 ∈ sf_Name <$> l) state.
Definition state_size state (l : list StateFile) : Z :=
  foldl (λ n f, (n + len (default "" (state !! sf_Name f)))%Z) 0%Z l.

Lemma declared_snoc state l f : declared state (l ++ [f]) =
  match state !! sf_Name f with Some v => <[sf_Name f := v]> (declared state l) | None => declared state l end.
Proof.
  apply map_eq. intros k. apply option_eq. intros v. unfold declared.
  rewrite map_lookup_filter_Some, fmap_app, elem_of_app. simpl. rewrite list_elem_of_singleton.
  destruct (state !! sf_Name f) as [u|] eqn:Hu.
  - rewrite lookup_insert_Some, map_lookup_filter_Some. simpl. destruct (decide (sf_Name f = k)) as [<-|Hne]; naive_solver.
  - rewrite map_lookup_filter_Some. simpl. naive_solver.
Qed.

Lemma state_size_snoc state l f : state_size state (l ++ [f]) = (state_size state l + len (default "" (state !! sf_Name f)))%Z.
Proof. unfold state_size. by rewrite foldl_snoc. Qed.

Lemma state_size_mono state l l' : (state_size state l ≤ state_size state (l ++ l'))%Z.
Proof.
  induction l' as [|f l' IH] using rev_ind; [by rewrite app_nil_r|]. rewrite app_assoc, state_size_snoc. unfold len. lia.
Qed.

(** One file of a snapshot, when the directory still holds the state it was given. *)
Lemma wp_snapshot_file dir state pre f w (R : MErr → Tree → Prop) (Q : Bundle * Z → Tree → Prop) :
  Name (sf_Name f) = true → state_fits state [f] →
  files (tr_disk w) !! (dir, sf_Name f) = bytes_of <$> state !! sf_Name f →
  (∀ w', same_tree w w' → files (tr_disk w') = files (tr_disk w) → (state_size state (pre ++ [f]) ≤ MaxBundle ∨ state !! sf_Name f = None)%Z →
     Q (declared state (pre ++ [f]), state_size state (pre ++ [f])) w') →
  (∀ e w', same_tree w w' → files (tr_disk w') = files (tr_disk w) →
     last_failed w' ∨ (MaxBundle < state_size state (pre ++ [f]))%Z → R e w') →
  wp (snapshot_file dir (declared state pre, state_size state pre) f)
    (λ r w', match r with Ok a => Q a w' | Err e => R e w' end) w.
Proof.
  intros Hn Hfit Hf HQ HR. unfold snapshot_file. rewrite declared_snoc, state_size_snoc in *.
  specialize (Hfit f). apply wp_bind, wp_on_fs, wp_Read; [done| | |].
  - rewrite Hf. intros x (v & Hv & ->)%fmap_Some. rewrite blen_bytes_of. apply (Hfit v); [set_solver|done].
  - intros d' Hd'. unfold bytes in *. rewrite Hf. destruct (state !! sf_Name f) as [v|] eqn:Hv; simpl in *.
    2:{ apply wp_ret. unfold len in HQ. simpl in HQ. rewrite Z.add_0_r in HQ. apply HQ; auto. done. }
    rewrite string_bytes, blen_bytes_of. destruct (Hfit v) as [_ Hj]; [set_solver|done|].
    apply wp_bind, wp_fail_if.
    { intros [Hjs Hnv]%andb_true_iff. rewrite Hj in Hnv; done. }
    intros _. apply wp_bind, wp_fail_if; intros Ht; guards.
    + apply HR; [done..|]. right. lia.
    + apply wp_ret. apply HQ; try done. left. lia.
  - intros e Hio. apply HR; [done..|]. left. by exists (calls (tr_disk w)).
Qed.

Lemma holds_state root w c b state st f :
  holds root w (lease_files root c b state) → ct_State c = Some st → f ∈ st_Files st →
  files (tr_disk w) !! (join root "state", sf_Name f) = bytes_of <$> state !! sf_Name f.
Proof.
  intros Hh Hst Hf. apply option_eq. intros v. rewrite (Hh (join root "state", sf_Name f) v) by apply below_join.
  unfold lease_files. rewrite elem_of_app, Hst. split.
  - intros [Hd%delivery_dir|(g & _ & Hg)%list_elem_of_omap]; [by apply join_neq in Hd|].
    unfold state_file in Hg. apply fmap_Some in Hg as (u & Hu & [= Hn ->]). by rewrite Hn, Hu.
  - intros (u & Hu & ->)%fmap_Some. right. apply list_elem_of_omap. exists f. split; [done|].
    unfold state_file. by rewrite Hu.
Qed.

Lemma structure_names c st f : ValidateStructure c = true → ct_State c = Some st → f ∈ st_Files st → Name (sf_Name f) = true.
Proof.
  intros Hv Hst. apply structure_state_loop in Hst; [|done]. by apply (state_files_names ∅).
Qed.

(** A state snapshot comes back as it was given: right after [Prepare] succeeded,
    [Snapshot] with the same contract changes nothing and returns exactly the declared
    files of the state bundle, byte for byte; it fails only when the contract declares no
    state, a file call failed, or the state is larger than a bundle may be. *)
Theorem snapshot_returns_state w id expires c b state out w1 r w2 :
  tree_ok w → Prepare id expires c b state w = (Ok out, w1) → Snapshot id c w1 = (r, w2) →
  same_tree w1 w2 ∧ files (tr_disk w2) = files (tr_disk w1) ∧
  match ct_State c, r with
  | Some st, Ok got => got = declared state (st_Files st)
  | Some st, Err _ => last_failed w2 ∨ (MaxBundle < state_size state (st_Files st))%Z
  | None, Ok _ => False
  | None, Err _ => True
  end.
Proof.
  intros Hok Hprep Hrun. destruct (prepare_spec _ _ _ _ _ _ _ _ Hok Hprep) as (_ & _ & Hs).
  destruct Hs as (Hl & Hv & _ & _ & Hm & _ & _ & Hh & _ & _ & Hfit).
  pattern r, w2. eapply run_wp; [exact Hrun|]. clear Hrun r w2. unfold Snapshot.
  apply wp_bind, wp_get, wp_bind. rewrite leaseID_ValidID, bool_decide_eq_true_2 by (done || (rewrite Hm; set_solver)).
  apply wp_ret, wp_bind, wp_some_or; [|by intros ->]. intros st Hst. rewrite Hst. rewrite Hm. simpl.
  specialize (Hfit st Hst). apply wp_bind. eapply wp_mono.
  { apply (wp_for_fold_prefix (λ pre acc w', same_tree w1 w' ∧ files (tr_disk w') = files (tr_disk w1) ∧
      acc = (declared state pre, state_size state pre))
      (λ _ w', same_tree w1 w' ∧ files (tr_disk w') = files (tr_disk w1) ∧
        (last_failed w' ∨ (MaxBundle < state_size state (st_Files st))%Z))).
    - split_and!; try done. f_equal. symmetry. apply map_empty. intros k. unfold declared.
      apply map_lookup_filter_None. right. set_solver.
    - intros pre f post acc w' Heq ([Hm' Hd'] & Hf' & ->). assert (f ∈ st_Files st) as Hin by (rewrite Heq; set_solver).
      apply wp_snapshot_file.
      + by eapply structure_names.
      + intros g v ->%list_elem_of_singleton. by apply Hfit.
      + rewrite Hf'. by eapply holds_state.
      + intros w'' [Hm'' Hd''] Hf'' _. split_and!; [split|..]; congruence.
      + intros _ w'' [Hm'' Hd''] Hf'' [Hlf|Hsz]; (split; [split; congruence|]); split; try congruence; [by left|].
        right. pose proof (state_size_mono state (pre ++ [f]) post) as Hmono. rewrite <- app_assoc in Hmono.
        simpl in Hmono. rewrite <- Heq in Hmono. lia. }
  intros [acc|e] w' H'; [|exact H']. destruct H' as (? & ? & ->). by apply wp_ret.
Qed.
End Operations.
