(* ===== verification/MaterializeWitness.v ===== *)
(** The theorems about the materializer at a concrete tree: a lease with a variable, a
    file, a JSON file and a state file is prepared, snapshot and, when a call fails,
    cleaned up. *)
From stdpp Require Import base gmap strings list pretty.
From Stdlib Require Import Ascii String.
From S2P Require Import Prelude GoStrings BrokerIdentity Contract BrokerTypes BrokerExample Journal Materialize MaterializeProps.
Local Open Scope string_scope.

Module MaterializeExample.
Import Example.

#[export] Instance material : MaterialWorld := {|
strings_Marshal := λ m, String.concat "," (map fst (map_to_list m));
rm_left := λ _ _, false;
|}.

(** Every call succeeds but those listed. *)
Definition failing (bad : list nat) : OS.
Proof.
refine {| io_ok := λ n, negb (bool_decide (n ∈ bad)); io_short := λ _, 0%nat; io_nonce := λ _, replicate 12 "n"%char |}.
intros _. apply length_replicate.
Defined.

Definition lease_contract : Contract :=
mkContract "github" 1 "GitHub" "vault" [token]
  [mkDelivery "env" "token" "GITHUB_TOKEN" "" ∅;
   mkDelivery "file" "token" "/run/token" "TOKEN_FILE" ∅;
   mkDelivery "json_file" "" "/run/auth.json" "" {["key" := "token"]}]
  (Some (mkCState "/state" [mkStateFile "hosts.json" 1024 true; mkStateFile "cache" 16 false])) [] "" "" false ∅.
Definition the_bundle : Bundle := {["token" := "s3cret"]}.
Definition the_state : Bundle := {["hosts.json" := "{}"; "other" := "x"]}.
Definition lease : string := "l00112233445566778899aabbccddeeff".
Definition tree0 : Tree := mkTree (mkManager "/leases" ∅) ∅ (mkDisk ∅ 0).

Definition prepared := Prepare (H := failing []) lease 7 lease_contract the_bundle the_state tree0.
Definition cut := Prepare (H := failing [6]) lease 7 lease_contract the_bundle the_state tree0.
Definition taken := Snapshot (H := failing []) lease lease_contract prepared.2.

Lemma tree0_ok : tree_ok tree0.
Proof. split; simpl; intros *; [intros Hv; by rewrite lookup_empty in Hv|set_solver]. Qed.

Lemma prepare_all_or_nothing_witness :
  (∃ out, prepared.1 = Ok out ∧ m_Env out !! "TOKEN_FILE" = Some "/run/token" ∧
     m_Mounts out = lease_mounts "/leases/l00112233445566778899aabbccddeeff" lease_contract the_bundle ∧
     holds (join "/leases" lease) prepared.2 (lease_files (join "/leases" lease) lease_contract the_bundle the_state)) ∧
  (∃ e, cut.1 = Err e ∧ tr_man cut.2 = tr_man tree0).
Proof.
  pose proof (prepare_all_or_nothing (H := failing []) tree0 lease 7 lease_contract the_bundle the_state
    prepared.1 prepared.2 tree0_ok (surjective_pairing _)) as Hp.
  pose proof (prepare_all_or_nothing (H := failing [6]) tree0 lease 7 lease_contract the_bundle the_state
    cut.1 cut.2 tree0_ok (surjective_pairing _)) as Hc.
  split.
  - destruct (prepared.1) as [out|e] eqn:Hr; [|exfalso; vm_compute in Hr; discriminate Hr].
    exists out. destruct Hp as (_ & _ & _ & _ & _ & _ & _ & _ & _ & Hh & Henv & Hm). refine (conj eq_refl (conj _ (conj Hm Hh))).
    apply Henv. assert (bool_decide (("TOKEN_FILE", "/run/token") ∈ lease_env lease_contract the_bundle) = true) as Hd
      by (vm_compute; reflexivity). by apply bool_decide_eq_true in Hd.
  - destruct (cut.1) as [out|e] eqn:Hr; [exfalso; vm_compute in Hr; discriminate Hr|].
    exists e. destruct Hc as (_ & _ & Hm & _). exact (conj eq_refl Hm).
Defined.

Lemma snapshot_returns_state_witness :
  res_ok taken.1 = true ∧ taken.1 = Ok ({["hosts.json" := "{}"]} : Bundle).
Proof.
  assert (Hr : prepared = (prepared.1, prepared.2)) by apply surjective_pairing.
  destruct (prepared.1) as [out|e] eqn:E; [|exfalso; vm_compute in E; discriminate E].
  pose proof (snapshot_returns_state (H := failing []) tree0 lease 7 lease_contract the_bundle the_state out
    prepared.2 taken.1 taken.2 tree0_ok Hr (surjective_pairing _)) as (_ & _ & Hs).
  assert (res_ok taken.1 = true) as Hok by (vm_compute; reflexivity). split; [done|].
  destruct (taken.1) as [got|e]; [|done]. simpl in Hs. rewrite Hs. f_equal.
Defined.
End MaterializeExample.
