(* ===== verification/LocalStore.v ===== *)
(** The local secret store (provider/local.go): one sealed file per bundle, named by a
    random locator, and a copy under a second key when a recovery directory is given.

    The disk, the file calls and the seals are Journal.v's.  [ctx] is whether the
    context of the call is still live. *)
From stdpp Require Import base gmap strings list pretty.
From Stdlib Require Import Ascii String.
From S2P Require Import Prelude GoStrings Contract BrokerTypes Journal.
Local Open Scope string_scope.

Inductive PErr := PUnavailable | PNotFound | PCtx | PUnsafe.

(** [^[a-zA-Z0-9_-]{43}$] *)
Definition locatorRE (s : string) : bool :=
  str_forallb (λ c, is_alnum c || is_char "_" c || is_char "-" c) s && (String.length s =? 43)%nat.

(** The JSON of bundles ([None]: the decoder refuses it, or it is [null]), and
    [seal.Random], 32 random bytes in base64, which does not return when there is no
    randomness. *)
Class LocalWorld := {
  bundle_Marshal : Bundle → bytes;
  bundle_Decode : bytes → option Bundle;
  bundle_roundtrip : ∀ b, map_forallb (λ k _, utf8_valid k) b = true → bundle_Decode (bundle_Marshal b) = Some b;
  seal_Random : nat → string;
  seal_Random_locator : ∀ n, locatorRE (seal_Random n) = true;
}.

Record Local := mkLocal {
  l_ID : string;
  l_dir : string;
  l_box : Box;
  l_recovery : option (string * Box);          (** [recoveryDir], [recoveryBox] *)
}.

Section Local.
Context `{AEAD} `{OS} `{LocalWorld}.
Abbreviation P := (M Disk PErr).

(** A file call; its error is reported as [e]. *)
Definition fs {A} (e : PErr) (m : M Disk JErr A) : P A := λ d,
  let '(r, d') := m d in (match r with Ok a => Ok a | Err _ => Err e end, d').

(** [os.Remove]; [false] when there was no such file. *)
Definition os_Remove (dir name : string) : P bool := λ d,
  match files d !! (dir, name) with
  | None => (Ok false, d)
  | Some _ => if io_ok (calls d)
              then (Ok true, mkDisk (delete (dir, name) (files d)) (S (calls d)))
              else (Err PUnavailable, mkDisk (files d) (S (calls d)))
  end.

Definition local_aad (l : Local) (locator : string) : bytes :=
  bytes_of (l_ID l ++ "/" ++ locator ++ "/1").

Definition max_object : Z := (600 * 1024)%Z.

(** [NewLocal] *)
Definition NewLocal (id dir : string) (key : bytes) : P Local :=
  fs PUnsafe (sys ErrUnsafe) ;;                           (** [securefs.Dir] *)
  match seal_New key with
  | Err _ => mthrow_err PUnsafe
  | Ok b => mret (mkLocal id dir b None)
  end.

(** [NewRecoverableLocal] *)
Definition NewRecoverableLocal (id dir recoveryDir : string) (key recoveryKey : bytes) : P Local :=
  l ← NewLocal id dir key;
  fs PUnsafe (sys ErrUnsafe) ;;
  match seal_New recoveryKey with
  | Err _ => mthrow_err PUnsafe
  | Ok b => mret (mkLocal (l_ID l) (l_dir l) (l_box l) (Some (recoveryDir, b)))
  end.

Definition ref_ok (l : Local) (r : Ref) : bool :=
  negb ((ref_Provider r != l_ID l) || negb (locatorRE (ref_Locator r)) || (ref_Version r != "1")).

(** [Write] *)
Definition Write (l : Local) (ctx : bool) (b : Bundle) : P Ref :=
  fail_if (negb ctx) PCtx ;;
  let raw := bundle_Marshal b in
  fail_if (512 * 1024 <? blen raw)%Z PUnavailable ;;
  d ← get;
  let id := seal_Random (calls d) in
  enc ← fs PUnavailable (Box_Seal (l_box l) raw (local_aad l id));
  match l_recovery l with
  | None => mret tt
  | Some (rdir, rbox) =>
      backup ← fs PUnavailable (Box_Seal rbox raw (local_aad l id));
      fs PUnavailable (securefs_Create rdir id backup)
  end ;;
  fs PUnavailable (securefs_Create (l_dir l) id enc) ;;
  mret (mkRef (l_ID l) id "1").

(** [Read] *)
Definition Read (l : Local) (ctx : bool) (r : Ref) : P Bundle :=
  fail_if (negb ctx) PCtx ;;
  fail_if (negb (ref_ok l r)) PNotFound ;;
  first ← fs PUnavailable (securefs_Read (l_dir l) (ref_Locator r) max_object);
  second ← match first, l_recovery l with
           | None, Some (rdir, rbox) =>
               e ← fs PUnavailable (securefs_Read rdir (ref_Locator r) max_object); mret (e, rbox)
           | _, _ => mret (first, l_box l)
           end;
  let '(found, box) := second in
  enc ← some_or found PNotFound;
  raw ← some_or (Box_Open box enc (local_aad l (ref_Locator r))) PUnavailable;
  some_or (bundle_Decode raw) PUnavailable.

(** [Delete] *)
Definition Delete (l : Local) (ctx : bool) (r : Ref) : P unit :=
  fail_if (negb ctx) PCtx ;;
  fail_if (negb (ref_ok l r)) PNotFound ;;
  match l_recovery l with
  | None => mret tt
  | Some (rdir, _) =>
      os_Remove rdir (ref_Locator r) ;;
      fs PUnavailable (sys ErrOS)                          (** [SyncDir] *)
  end ;;
  there ← os_Remove (l_dir l) (ref_Locator r);
  if there : bool then fs PUnsafe (sys ErrOS) else mret tt.

(** [BackupExisting] *)
Definition BackupExisting (l : Local) (ctx : bool) (r : Ref) : P unit :=
  match l_recovery l with
  | None => mthrow_err PUnavailable
  | Some (rdir, rbox) =>
      values ← Read l ctx r;
      let raw := bundle_Marshal values in
      existing ← fs PUnavailable (securefs_Read rdir (ref_Locator r) max_object);
      match existing with
      | Some enc =>
          plain ← some_or (Box_Open rbox enc (local_aad l (ref_Locator r))) PUnavailable;
          fail_if (plain != raw) PUnavailable
      | None =>
          enc ← fs PUnavailable (Box_Seal rbox raw (local_aad l (ref_Locator r)));
          fs PUnavailable (securefs_Create rdir (ref_Locator r) enc)
      end
  end.

Definition Capabilities (_ : Local) : BrokerTypes.Capabilities := mkCapabilities true true true true.

(** The broker's registry when this is its only store. *)
Definition local_providers (l : Local) : Providers Disk :=
  let opt {A} (x : res PErr A * Disk) : Disk * option A :=
    (x.2, match x.1 with Ok a => Some a | Err _ => None end) in
  {| pv_caps := λ id, if id == l_ID l then Some (Capabilities l) else None;
     pv_read := λ d r, opt (Read l true r d);
     pv_write := λ d _ b, opt (Write l true b d);
     pv_delete := λ d _ r, let x := Delete l true r d in (x.2, res_ok x.1) |}.
End Local.
