(* ===== verification/LocalProps.v ===== *)
(** The local store implements an abstract vault: a map from locators to bundles that
    are stored, stored with a recovery copy, or deleted. *)
From stdpp Require Import base gmap strings list pretty.
From Stdlib Require Import Ascii String.
From S2P Require Import Prelude GoStrings Contract BrokerTypes Journal JournalProps JournalLog JournalAnchor LocalStore.
Local Open Scope string_scope.

(** * The vault *)

Inductive vault_op :=
  | OWrite (b : Bundle)
  | ORead (r : Ref)
  | ODelete (r : Ref)
  | OBackup (r : Ref)
  | OLose (locator : string).                   (** the primary file of an object is lost *)

Inductive vault_out := ORef (r : Ref) | OBundle (b : Bundle) | ODone | OErr (e : PErr).

(** What is known of a locator: deleted, or stored, with a recovery copy or without. *)
Abbreviation Vault := (gmap string (option (Bundle * bool))).

(** Names that survive JSON. *)
Definition bundle_text (b : Bundle) : bool := map_forallb (λ k _, utf8_valid k) b.

(** [id] is the provider, [rec] whether it keeps recovery copies, [ctx] whether the
    context was live, [failed] whether a call of the operating system failed. *)
Inductive vault_step (id : string) (rec ctx : bool) (failed : Prop) : Vault → vault_op → vault_out → Vault → Prop :=
  | vs_ctx V op : ctx = false → vault_step id rec ctx failed V op (OErr PCtx) V
  | vs_write V loc b :
      locatorRE loc = true → (∀ e, V !! loc ≠ Some (Some e)) → bundle_text b = true →
      vault_step id rec ctx failed V (OWrite b) (ORef (mkRef id loc "1")) (<[loc := Some (b, rec)]> V)
  | vs_write_failed V V' b :
      V' ⊆ V → (∀ loc e, V !! loc = Some (Some e) → V' !! loc = Some (Some e)) →
      vault_step id rec ctx failed V (OWrite b) (OErr PUnavailable) V'
  | vs_read V loc b k :
      V !! loc = Some (Some (b, k)) → vault_step id rec ctx failed V (ORead (mkRef id loc "1")) (OBundle b) V
  | vs_read_deleted V loc :
      V !! loc = Some None → vault_step id rec ctx failed V (ORead (mkRef id loc "1")) (OErr PNotFound) V
  | vs_read_failed V r : failed → vault_step id rec ctx failed V (ORead r) (OErr PUnavailable) V
  | vs_read_unknown V loc o : V !! loc = None → vault_step id rec ctx failed V (ORead (mkRef id loc "1")) o V
  | vs_delete V loc :
      vault_step id rec ctx failed V (ODelete (mkRef id loc "1")) ODone (<[loc := None]> V)
  | vs_delete_failed V r e :
      failed → vault_step id rec ctx failed V (ODelete r) (OErr e) (delete (ref_Locator r) V)
  | vs_backup V loc b k :
      rec = true → V !! loc = Some (Some (b, k)) →
      vault_step id rec ctx failed V (OBackup (mkRef id loc "1")) ODone (<[loc := Some (b, true)]> V)
  | vs_backup_error V r e : vault_step id rec ctx failed V (OBackup r) (OErr e) V
  | vs_backup_unknown V loc : V !! loc = None → vault_step id rec ctx failed V (OBackup (mkRef id loc "1")) ODone V
  | vs_bad V op r :
      (op = ORead r ∨ op = ODelete r) → r ≠ mkRef id (ref_Locator r) "1" ∨ locatorRE (ref_Locator r) = false →
      vault_step id rec ctx failed V op (OErr PNotFound) V
  | vs_lose V loc b :
      V !! loc = Some (Some (b, true)) → vault_step id rec ctx failed V (OLose loc) ODone V.

Section Refinement.
Context `{AEAD} `{OS} `{LocalWorld}.
Implicit Types (l : Local) (d : Disk) (V : Vault) (b : Bundle).

(** An operation of the store. *)
Definition vault_run l (ctx : bool) (op : vault_op) (d : Disk) : vault_out * Disk :=
  match op with
  | OWrite b => let '(r, d') := Write l ctx b d in (match r with Ok ref => ORef ref | Err e => OErr e end, d')
  | ORead ref => let '(r, d') := Read l ctx ref d in (match r with Ok b => OBundle b | Err e => OErr e end, d')
  | ODelete ref => let '(r, d') := Delete l ctx ref d in (match r with Ok _ => ODone | Err e => OErr e end, d')
  | OBackup ref => let '(r, d') := BackupExisting l ctx ref d in (match r with Ok _ => ODone | Err e => OErr e end, d')
  | OLose loc => (ODone, del_file (l_dir l, loc) d)
  end.

(** A sealed copy of a bundle. *)
Definition sealed l (box : Box) (loc : string) b (enc : bytes) : Prop :=
  (blen enc ≤ max_object)%Z ∧ Box_Open box enc (local_aad l loc) = Some (bundle_Marshal b).

(** What is on disk for an entry of the vault. *)
Definition entry_ok l d (loc : string) (e : option (Bundle * bool)) : Prop :=
  match e with
  | None => files d !! (l_dir l, loc) = None ∧
      ∀ rdir rbox, l_recovery l = Some (rdir, rbox) → files d !! (rdir, loc) = None
  | Some (b, backed) => (bundle_text b = true ∧ (blen (bundle_Marshal b) ≤ 512 * 1024)%Z) ∧
      match files d !! (l_dir l, loc) with
      | Some enc => sealed l (l_box l) loc b enc
      | None => backed = true
      end ∧
      (backed = true → ∃ rdir rbox enc, l_recovery l = Some (rdir, rbox) ∧
         files d !! (rdir, loc) = Some enc ∧ sealed l rbox loc b enc)
  end.

Definition vault_ok l V d : Prop := ∀ loc e, V !! loc = Some e → locatorRE loc = true ∧ entry_ok l d loc e.

(** The copies are not in the directory of the originals. *)
Definition apart l : Prop := ∀ rdir rbox, l_recovery l = Some (rdir, rbox) → rdir ≠ l_dir l.

(** The last call failed. *)
Definition failed_last d : Prop := ∃ n, calls d = S n ∧ io_ok n = false.

Lemma locator_Name loc : locatorRE loc = true → Name loc = true.
Proof.
  intros [Hall Hl%Nat.eqb_eq]%andb_true_iff. unfold Name. rewrite !andb_true_iff. split_and!.
  - apply negb_true_iff, bool_decide_eq_false. by intros ->.
  - apply negb_true_iff, bool_decide_eq_false. by intros ->.
  - apply negb_true_iff, bool_decide_eq_false. by intros ->.
  - apply Z.leb_le. unfold len. lia.
  - apply negb_true_iff. unfold str_existsb. apply negb_false_iff. revert Hall. apply str_forallb_mono. by_char.
Qed.

Lemma wp_fs {A} e (m : M Disk JErr A) (Q : res PErr A → Disk → Prop) d :
  wp m (λ r d', Q (match r with Ok a => Ok a | Err _ => Err e end) d') d → wp (fs e m) Q d.
Proof. unfold wp, fs. by destruct (m d). Qed.

Lemma wp_os_Remove dir name (Q : res PErr bool → Disk → Prop) d :
  (∀ d' x, files d' = delete (dir, name) (files d) → (x = false → d' = d) → Q (Ok x) d') →
  (∀ d', files d' = files d → failed_last d' → Q (Err PUnavailable) d') →
  wp (os_Remove dir name) Q d.
Proof.
  intros Hok Herr. unfold wp, os_Remove. destruct (files d !! (dir, name)) eqn:Hf.
  - destruct (io_ok (calls d)) eqn:Hio; [by apply Hok|]. apply Herr; [done|]. by exists (calls d).
  - apply Hok; [|done]. symmetry. by apply delete_id.
Qed.

Lemma wp_sys_failed e (Q : res JErr unit → Disk → Prop) d :
  (∀ d', files d' = files d → Q (Ok tt) d') →
  (∀ d', files d' = files d → failed_last d' → Q (Err e) d') →
  wp (sys e) Q d.
Proof.
  intros Hok Herr. unfold wp, sys. destruct (io_ok (calls d)) eqn:Hio; [by apply Hok|].
  apply Herr; [done|]. by exists (calls d).
Qed.

(** Only the files of [loc0] may differ. *)
Definition only_locator (loc0 : string) d d' : Prop :=
  ∀ dir loc, loc ≠ loc0 → files d' !! (dir, loc) = files d !! (dir, loc).

Lemma only_insert loc0 d d' dir x : files d' = <[(dir, loc0) := x]> (files d) → only_locator loc0 d d'.
Proof. intros Hf dir' loc Hne. rewrite Hf. apply lookup_insert_ne. congruence. Qed.

Global Instance only_locator_preorder loc0 : PreOrder (only_locator loc0).
Proof. split; [done|]. intros d1 d2 d3 H12 H23 dir loc Hne. by rewrite H23, H12. Qed.

(** Files of other locators do not matter. *)
Lemma entry_frame l d d' loc e :
  (∀ dir, files d' !! (dir, loc) = files d !! (dir, loc)) → entry_ok l d loc e → entry_ok l d' loc e.
Proof.
  intros Hf. destruct e as [[b k]|]; simpl.
  - rewrite !Hf. intros (? & ? & Hb). split; [done|]. split; [done|]. intros Hk.
    destruct (Hb Hk) as (rdir & rbox & enc & ? & ? & ?). exists rdir, rbox, enc. by rewrite Hf.
  - rewrite Hf. intros [? Hr]. split; [done|]. intros rdir rbox Hrec. rewrite Hf. by eapply Hr.
Qed.

Lemma vault_frame l V d d' : files d' = files d → vault_ok l V d → vault_ok l V d'.
Proof.
  intros Hf Hok loc e He. destruct (Hok loc e He) as [? Hen]. split; [done|].
  eapply entry_frame; [|exact Hen]. intros dir. by rewrite Hf.
Qed.

Lemma vault_delete l V d d' loc0 :
  only_locator loc0 d d' → vault_ok l V d → vault_ok l (delete loc0 V) d'.
Proof.
  intros Hf Hok loc e [Hne He]%lookup_delete_Some. destruct (Hok loc e He) as [? Hen]. split; [done|].
  eapply entry_frame; [|exact Hen]. intros dir. by apply Hf.
Qed.

Lemma vault_insert l V d d' loc0 e :
  only_locator loc0 d d' → vault_ok l V d → locatorRE loc0 = true → entry_ok l d' loc0 e → vault_ok l (<[loc0 := e]> V) d'.
Proof.
  intros Hf Hok Hl He loc e'. rewrite <- insert_delete_eq. intros [[<- <-]|[Hne He']]%lookup_insert_Some; [done|].
  by apply (vault_delete l V d d' loc0).
Qed.

Lemma ref_ok_eq l r : ref_ok l r = true → r = mkRef (l_ID l) (ref_Locator r) "1" ∧ locatorRE (ref_Locator r) = true.
Proof. destruct r as [p loc v]. unfold ref_ok. simpl. intros Hr. guards. by subst. Qed.

Lemma ref_bad l r : ref_ok l r = false → r ≠ mkRef (l_ID l) (ref_Locator r) "1" ∨ locatorRE (ref_Locator r) = false.
Proof.
  destruct r as [p loc v]. unfold ref_ok. simpl. intros Hr. destruct (locatorRE loc); [|by right]. left.
  intros [= -> ->]. rewrite !bool_decide_eq_true_2 in Hr; done.
Qed.

(** What [Read] returns for an entry of the vault. *)
Lemma wp_Read_entry l r d e (Q : res PErr Bundle → Disk → Prop) :
  ref_ok l r = true → entry_ok l d (ref_Locator r) e →
  (∀ d', files d' = files d → match e with Some (b, _) => Q (Ok b) d' | None => Q (Err PNotFound) d' end) →
  (∀ d', files d' = files d → failed_last d' → Q (Err PUnavailable) d') →
  wp (Read l true r) Q d.
Proof.
  intros Hr He HQ HF. destruct (ref_ok_eq l r Hr) as [_ Hloc%locator_Name].
  unfold Read. rewrite Hr. apply wp_bind, wp_ret, wp_bind, wp_ret. set (loc := ref_Locator r) in *.
  apply wp_bind, wp_fs, wp_Read; [done| | |].
  { intros x Hx. destruct e as [[b k]|]; simpl in He; rewrite Hx in He; [|by destruct He]. by destruct He as (_ & [? _] & _). }
  2:{ intros _ Hio. apply HF; [done|]. by exists (calls d). }
  intros d1 Hf1. destruct e as [[b k]|]; simpl in He.
  - destruct He as ([Htext _] & Hprim & Hback). destruct (files d !! (l_dir l, loc)) as [enc|].
    + destruct Hprim as [_ Hopen]. apply wp_bind, wp_ret, wp_bind, wp_ret, wp_bind. rewrite Hopen. apply wp_ret.
      rewrite bundle_roundtrip by done. apply wp_ret. by apply HQ.
    + destruct (Hback Hprim) as (rdir & rbox & enc & -> & Hrf & Hsz & Hopen).
      apply wp_bind, wp_bind, wp_fs, wp_Read; [done| | |].
      * rewrite Hf1, Hrf. by intros x [= <-].
      * intros d2 Hf2. rewrite Hf1, Hrf. apply wp_ret, wp_bind, wp_ret, wp_bind. rewrite Hopen. apply wp_ret.
        rewrite bundle_roundtrip by done. apply wp_ret. apply HQ. congruence.
      * intros _ Hio. apply HF; [done|]. by exists (calls d1).
  - destruct He as [-> Hrec]. destruct (l_recovery l) as [[rdir rbox]|].
    + specialize (Hrec rdir rbox eq_refl). apply wp_bind, wp_bind, wp_fs, wp_Read; [done| | |].
      * rewrite Hf1, Hrec. done.
      * intros d2 Hf2. rewrite Hf1, Hrec. apply wp_ret, wp_bind, wp_throw. apply HQ. congruence.
      * intros _ Hio. apply HF; [done|]. by exists (calls d1).
    + apply wp_bind, wp_ret, wp_bind, wp_throw. by apply HQ.
Qed.

Lemma wp_Read_same l r d (Q : res PErr Bundle → Disk → Prop) :
  ref_ok l r = true → (∀ x d', files d' = files d → Q x d') → wp (Read l true r) Q d.
Proof.
  intros Hr HQ. unfold Read. rewrite Hr. apply wp_bind, wp_ret, wp_bind, wp_ret.
  apply wp_bind, wp_fs, wp_securefs_Read. intros [x|e] d1 Hf1 _; [|by apply HQ].
  apply wp_bind. eapply (wp_mono _ (λ x d', files d' = files d)).
  { destruct x as [x|]; [by apply wp_ret|]. destruct (l_recovery l) as [[rdir rbox]|]; [|by apply wp_ret].
    apply wp_bind, wp_fs, wp_securefs_Read. intros [y|e] d2 Hf2 _; [apply wp_ret|]; simpl; congruence. }
  intros [[found box]|e] d2 Hf2; [|by apply HQ].
  apply wp_bind, wp_some_or; [|intros _; by apply HQ]. intros enc _.
  apply wp_bind, wp_some_or; [|intros _; by apply HQ]. intros raw _.
  apply wp_some_or; intros; by apply HQ.
Qed.

(** There is no recovery copy of [loc]. *)
Definition no_copy l d (loc : string) : Prop :=
  ∀ rdir rbox, l_recovery l = Some (rdir, rbox) → files d !! (rdir, loc) = None.

(** Without a copy, what is stored is in its primary file. *)
Lemma stored_primary l d loc b k :
  entry_ok l d loc (Some (b, k)) → no_copy l d loc → k = false ∧ files d !! (l_dir l, loc) ≠ None.
Proof.
  intros (_ & Hp & Hb) Hn. destruct k.
  - destruct (Hb eq_refl) as (rdir & rbox & enc & Hrec & Hf & _). by rewrite (Hn _ _ Hrec) in Hf.
  - split; [done|]. by destruct (files d !! (l_dir l, loc)).
Qed.

(** A write that failed may leave files under a locator nothing is stored at. *)
Definition after_failure V (loc : string) : Vault :=
  match V !! loc with Some None => delete loc V | _ => V end.

Lemma after_failure_spec V loc :
  after_failure V loc ⊆ V ∧ ∀ loc' e, V !! loc' = Some (Some e) → after_failure V loc !! loc' = Some (Some e).
Proof.
  unfold after_failure. destruct (V !! loc) as [[|]|] eqn:Hv; try done. split; [apply delete_subseteq|].
  intros loc' e He. rewrite lookup_delete_ne; [done|]. intros ->. congruence.
Qed.

Lemma vault_orphan l V d d' loc :
  vault_ok l V d → only_locator loc d d' →
  files d' = files d ∨ no_copy l d loc ∧
    (files d' !! (l_dir l, loc) = files d !! (l_dir l, loc) ∨ files d !! (l_dir l, loc) = None) →
  vault_ok l (after_failure V loc) d'.
Proof.
  intros Hok Ho Hc. unfold after_failure. destruct (V !! loc) as [[[b k]|]|] eqn:Hv.
  - destruct Hc as [Hf|[Hn Hp]]; [by eapply vault_frame|]. rewrite <- (insert_id V loc (Some (b, k))) by done.
    destruct (Hok _ _ Hv) as [Hl He]. apply (vault_insert l V d); try done.
    destruct (stored_primary _ _ _ _ _ He Hn) as [-> Hsome]. destruct Hp as [Hp|Hp]; [|done].
    destruct He as (Ht & Hp' & _). simpl. rewrite Hp. by split; [|split].
  - by eapply vault_delete.
  - rewrite <- (delete_id V loc) by done. by eapply vault_delete.
Qed.

(** Sealing a bundle and creating its file. *)
Lemma wp_seal_create l box dir loc b (Q : res PErr unit → Disk → Prop) d :
  (blen (bundle_Marshal b) ≤ 512 * 1024)%Z →
  (∀ enc d', sealed l box loc b enc → files d !! (dir, loc) = None → files d' = <[(dir, loc) := enc]> (files d) → Q (Ok tt) d') →
  (∀ d', files d' = files d ∨ files d !! (dir, loc) = None ∧ (∃ x, files d' = <[(dir, loc) := x]> (files d)) → Q (Err PUnavailable) d') →
  wp (enc ← fs PUnavailable (Box_Seal box (bundle_Marshal b) (local_aad l loc));
      fs PUnavailable (securefs_Create dir loc enc)) Q d.
Proof.
  intros Hsz Hok Herr. apply wp_bind, wp_fs, wp_Box_Seal.
  2:{ intros e d1 Hf1. apply Herr. by left. }
  intros enc d1 Hf1 Hopen Hlen. apply wp_fs, wp_Create; rewrite Hf1.
  - intros d2 Hn Hf2. apply (Hok enc); try done. split; [unfold max_object; lia|done].
  - intros e d2 Hf2. apply Herr. left. congruence.
  - intros e d2 Hn Hf2. apply Herr. right. eauto.
Qed.

Abbreviation step l := (vault_step (l_ID l) (bool_decide (is_Some (l_recovery l)))).

(** An operation that the vault allows. *)
Definition allowed l (ctx : bool) V (op : vault_op) (o : vault_out) (d' : Disk) : Prop :=
  ∃ V', step l ctx (failed_last d') V op o V' ∧ vault_ok l V' d'.

Lemma write_failed l ctx V d b d' :
  vault_ok l V d → (∃ loc, only_locator loc d d' ∧ (files d' = files d ∨ no_copy l d loc ∧
    (files d' !! (l_dir l, loc) = files d !! (l_dir l, loc) ∨ files d !! (l_dir l, loc) = None))) →
  allowed l ctx V (OWrite b) (OErr PUnavailable) d'.
Proof.
  intros Hok (loc & Ho & Hc). destruct (after_failure_spec V loc) as [Hsub Hkeep].
  exists (after_failure V loc). split; [by constructor|by eapply vault_orphan].
Qed.

Lemma write_allowed l ctx V b d :
  apart l → vault_ok l V d → bundle_text b = true →
  wp (Write l ctx b) (λ r d', allowed l ctx V (OWrite b) (match r with Ok ref => ORef ref | Err e => OErr e end) d') d.
Proof.
  intros Hap Hok Htext. assert (Hsame : ∀ d', files d' = files d → allowed l ctx V (OWrite b) (OErr PUnavailable) d').
  { intros d' Hf. apply (write_failed l ctx V d); [done|]. exists "". split; [|by left]. intros dir loc _. by rewrite Hf. }
  unfold Write. apply wp_bind, wp_fail_if; intros Hctx.
  { exists V. split; [|done]. constructor. by apply negb_true_iff. }
  apply wp_bind, wp_fail_if; intros Hsz; [by apply Hsame|]. apply Z.ltb_ge in Hsz.
  apply wp_bind, wp_get. set (loc := seal_Random (calls d)).
  apply wp_bind, wp_fs, wp_Box_Seal; [|by intros e d' Hf; apply Hsame].
  intros enc d1 Hf1 Hopen Hlen. apply wp_bind.
  assert (Henc : sealed l (l_box l) loc b enc) by (split; [unfold max_object; lia|done]).
  eapply (wp_mono _ (λ r d2, match r with
    | Ok _ => no_copy l d loc ∧ only_locator loc d d2 ∧ files d2 !! (l_dir l, loc) = files d !! (l_dir l, loc) ∧
        (∀ rdir rbox, l_recovery l = Some (rdir, rbox) → ∃ x, files d2 !! (rdir, loc) = Some x ∧ sealed l rbox loc b x)
    | Err e => e = PUnavailable ∧ allowed l ctx V (OWrite b) (OErr PUnavailable) d2 end)).
  { destruct (l_recovery l) as [[rdir rbox]|] eqn:Hrec.
    2:{ apply wp_ret. split_and!; try done; [intros ? ?; by rewrite Hrec|intros ? ? _; by rewrite Hf1|by rewrite Hf1]. }
    assert (Hd : (rdir, loc) ≠ (l_dir l, loc)) by (intros [= E]; by apply (Hap _ _ Hrec)).
    assert (Hnc : files d !! (rdir, loc) = None → no_copy l d loc) by (intros Hn ? ?; rewrite Hrec; by intros [= <- <-]).
    apply wp_seal_create; [done| |]; rewrite Hf1.
    - intros x d2 Hx Hn Hf2. split_and!; [auto|by eapply only_insert| |].
      + by rewrite Hf2, lookup_insert_ne.
      + intros ? ? [= <- <-]. exists x. by rewrite Hf2, lookup_insert_eq.
    - intros d2 [Hf2|[Hn [x Hf2]]]; (split; [done|]); [by apply Hsame|].
      apply (write_failed l ctx V d); [done|]. exists loc. split; [by eapply only_insert|]. right. split; [auto|].
      left. by rewrite Hf2, lookup_insert_ne. }
  intros [[]|e] d2; [|by intros [-> ?]]. intros (Hn & Ho & Hp & Hcopy). apply wp_bind, wp_fs, wp_Create.
  - intros d3 Hfree Hf3. apply wp_ret. rewrite Hp in Hfree.
    exists (<[loc := Some (b, bool_decide (is_Some (l_recovery l)))]> V). split.
    + constructor; [apply seal_Random_locator| |done]. intros [b' k'] He. destruct (Hok _ _ He) as [_ Hen].
      destruct (stored_primary _ _ _ _ _ Hen Hn) as [_ Hsome]. done.
    + apply (vault_insert l V d); [by etrans; [exact Ho|eapply only_insert]|done|apply seal_Random_locator|].
      simpl. split; [done|]. split; [by rewrite Hf3, lookup_insert_eq|].
      intros [[rdir rbox] Hrec]%bool_decide_eq_true. destruct (Hcopy rdir rbox Hrec) as (x & Hx & Hs).
      exists rdir, rbox, x. split_and!; [done| |done]. rewrite Hf3, lookup_insert_ne; [done|].
      intros [= E]. by apply (Hap _ _ Hrec).
  - intros e d3 Hf3. apply (write_failed l ctx V d); [done|]. exists loc. rewrite Hf3. split; [|by right; split; [|left]].
    intros dir loc' Hne. rewrite Hf3. by apply Ho.
  - intros e d3 Hfree Hf3. apply (write_failed l ctx V d); [done|]. exists loc. rewrite Hp in Hfree.
    split; [by etrans; [exact Ho|eapply only_insert]|]. auto.
Qed.

Lemma read_allowed l ctx V r d :
  vault_ok l V d →
  wp (Read l ctx r) (λ x d', allowed l ctx V (ORead r) (match x with Ok b => OBundle b | Err e => OErr e end) d') d.
Proof.
  intros Hok. destruct ctx.
  2:{ apply wp_bind, wp_throw. exists V. split; [by constructor|done]. }
  destruct (ref_ok l r) eqn:Hr.
  2:{ unfold Read. rewrite Hr. apply wp_bind, wp_ret, wp_bind, wp_throw. exists V. split; [|done].
      apply (vs_bad _ _ _ _ _ _ r); [by left|by apply ref_bad]. }
  destruct (ref_ok_eq l r Hr) as [Heq Hl]. destruct (V !! ref_Locator r) as [e|] eqn:Hv.
  - destruct (Hok _ _ Hv) as [_ He]. eapply wp_Read_entry; [done|exact He| |].
    + intros d' Hf. destruct e as [[b k]|]; (exists V; split; [rewrite Heq; by econstructor|by eapply vault_frame]).
    + intros d' Hf Hfail. exists V. split; [by constructor|by eapply vault_frame].
  - apply wp_Read_same; [done|]. intros x d' Hf. exists V. split; [|by eapply vault_frame].
    rewrite Heq. by apply vs_read_unknown.
Qed.

Lemma delete_failed l ctx V d r e d' :
  vault_ok l V d → only_locator (ref_Locator r) d d' → failed_last d' → allowed l ctx V (ODelete r) (OErr e) d'.
Proof.
  intros Hok Ho Hf. exists (delete (ref_Locator r) V). split; [by constructor|by eapply vault_delete].
Qed.

Lemma only_remove loc d d' dir : files d' = delete (dir, loc) (files d) → only_locator loc d d'.
Proof. intros Hf dir' loc' Hne. rewrite Hf. apply lookup_delete_ne. congruence. Qed.

Lemma only_same loc d d' : files d' = files d → only_locator loc d d'.
Proof. intros Hf dir loc' _. by rewrite Hf. Qed.

Lemma delete_allowed l ctx V r d :
  vault_ok l V d →
  wp (Delete l ctx r) (λ x d', allowed l ctx V (ODelete r) (match x with Ok _ => ODone | Err e => OErr e end) d') d.
Proof.
  intros Hok. unfold Delete. apply wp_bind, wp_fail_if; intros Hctx.
  { exists V. split; [|done]. constructor. by apply negb_true_iff. }
  apply wp_bind, wp_fail_if; intros Hr.
  { exists V. split; [|done]. apply (vs_bad _ _ _ _ _ _ r); [by right|]. by apply ref_bad, negb_true_iff. }
  apply negb_false_iff, ref_ok_eq in Hr as [Heq Hl]. set (loc := ref_Locator r) in *.
  apply wp_bind. eapply (wp_mono _ (λ x d', only_locator loc d d' ∧
    match x with Ok _ => no_copy l d' loc | Err _ => failed_last d' end)).
  { destruct (l_recovery l) as [[rdir rbox]|] eqn:Hrec; [|apply wp_ret; split; [done|intros ? ?; by rewrite Hrec]].
    apply wp_bind, wp_os_Remove.
    - intros d1 x Hf1 _. apply wp_fs, wp_sys_failed.
      + intros d2 Hf2. split; [by eapply only_remove; rewrite Hf2|]. intros ? ?. rewrite Hrec. intros [= <- <-].
        rewrite Hf2, Hf1. apply lookup_delete_eq.
      + intros d2 Hf2 Hfail. split; [|done]. by eapply only_remove; rewrite Hf2.
    - intros d1 Hf1 Hfail. split; [by apply only_same|done]. }
  intros [[]|e] d1 [Ho Hn]; [|by eapply delete_failed].
  assert (Hgone : ∀ d', files d' = delete (l_dir l, loc) (files d1) → allowed l ctx V (ODelete r) ODone d').
  { intros d' Hf. exists (<[loc := None]> V). split; [rewrite Heq; constructor|].
    apply (vault_insert l V d); [etrans; [exact Ho|by eapply only_remove]|done|done|].
    simpl. rewrite Hf. split; [apply lookup_delete_eq|]. intros rdir rbox Hrec.
    apply lookup_delete_None. right. by eapply Hn. }
  apply wp_bind, wp_os_Remove.
  - intros d2 x Hf2 Hx. destruct x; [|by apply wp_ret, Hgone]. apply wp_fs, wp_sys_failed.
    + intros d3 Hf3. apply Hgone. congruence.
    + intros d3 Hf3 Hfail. eapply delete_failed; [done| |done]. etrans; [exact Ho|]. apply (only_remove _ _ _ (l_dir l)). by rewrite Hf3.
  - intros d2 Hf2 Hfail. eapply delete_failed; [done| |done]. etrans; [exact Ho|by apply only_same].
Qed.

(** A fresh copy of what is stored. *)
Lemma backup_entry l V d d' loc b k rdir rbox enc :
  apart l → vault_ok l V d → V !! loc = Some (Some (b, k)) → l_recovery l = Some (rdir, rbox) →
  only_locator loc d d' → files d' !! (l_dir l, loc) = files d !! (l_dir l, loc) →
  files d' !! (rdir, loc) = Some enc → sealed l rbox loc b enc → vault_ok l (<[loc := Some (b, true)]> V) d'.
Proof.
  intros Hap Hok Hv Hrec Ho Hp Hf Hs. destruct (Hok _ _ Hv) as [Hl (Ht & Hpr & _)].
  apply (vault_insert l V d); try done. simpl. rewrite Hp. split; [done|]. split; [by destruct (files d !! (l_dir l, loc))|].
  intros _. by exists rdir, rbox, enc.
Qed.

(** What a read returns is what is there, within the limit. *)
Lemma wp_Read_ok dir name limit (Q : res JErr (option bytes) → Disk → Prop) d :
  (∀ d' x, files d' = files d → files d !! (dir, name) = x → (∀ y, x = Some y → (blen y ≤ limit)%Z) → Q (Ok x) d') →
  (∀ e d', files d' = files d → Q (Err e) d') →
  wp (securefs_Read dir name limit) Q d.
Proof.
  intros Hok Herr. unfold securefs_Read. apply wp_bind, wp_fail_if; intros Hn; [by apply Herr|].
  apply wp_bind, wp_get. destruct (files d !! (dir, name)) as [x|] eqn:Hx; [|by apply wp_ret, Hok].
  apply wp_bind, wp_sys. intros [[]|e] d1 Hd1; [|by apply Herr].
  apply wp_bind, wp_fail_if; intros Hl; [by apply Herr|]. apply Z.ltb_ge in Hl.
  apply wp_ret, Hok; [done..|]. by intros y [= <-].
Qed.

(** A fresh copy, or the one that is there. *)
Lemma backup_copy l V loc b k rdir rbox d :
  apart l → vault_ok l V d → V !! loc = Some (Some (b, k)) → l_recovery l = Some (rdir, rbox) →
  wp (existing ← fs PUnavailable (securefs_Read rdir loc max_object);
      match existing with
      | Some enc =>
          plain ← some_or (Box_Open rbox enc (local_aad l loc)) PUnavailable;
          fail_if (plain != bundle_Marshal b) PUnavailable
      | None =>
          enc ← fs PUnavailable (Box_Seal rbox (bundle_Marshal b) (local_aad l loc));
          fs PUnavailable (securefs_Create rdir loc enc)
      end)
    (λ x d', match x with Ok _ => vault_ok l (<[loc := Some (b, true)]> V) d' | Err _ => vault_ok l V d' end) d.
Proof.
  intros Hap Hok Hv Hrec. destruct (Hok _ _ Hv) as [Hl ([Ht Hsz] & Hpr & Hbk)].
  assert (Hd : (rdir, loc) ≠ (l_dir l, loc)) by (intros [= E]; by apply (Hap _ _ Hrec)).
  assert (Hnew : ∀ d' enc, files d' = <[(rdir, loc) := enc]> (files d) → sealed l rbox loc b enc →
    vault_ok l (<[loc := Some (b, true)]> V) d').
  { intros d' enc Hf Hs. eapply (backup_entry l V d); try done; [by eapply only_insert| |]; rewrite Hf.
    - by apply lookup_insert_ne.
    - apply lookup_insert_eq. }
  apply wp_bind, wp_fs, wp_Read_ok; [|by intros e d' Hf; eapply vault_frame].
  intros d1 [enc|] Hf1 Hx Hlim.
  - apply wp_bind, wp_some_or; [|by intros _; eapply vault_frame]. intros plain Hopen.
    apply wp_fail_if; intros Hg; [by eapply vault_frame|]. guards. subst plain.
    apply (vault_frame _ _ d); [done|]. eapply (backup_entry l V d); try done. split; [by apply Hlim|done].
  - apply wp_seal_create; [done| |]; rewrite Hf1.
    + intros enc d2 Hs Hn Hf2. by eapply Hnew.
    + intros d2 [Hf2|[Hn [x Hf2]]]; [by eapply vault_frame|].
      rewrite <- (insert_id V loc (Some (b, k))) by done.
      apply (vault_insert l V d); [by eapply only_insert|done|done|]. simpl. rewrite Hf2, lookup_insert_ne by done.
      split_and!; try done. intros Hk. destruct (Hbk Hk) as (rdir' & rbox' & enc & Hrec' & Hf & _). congruence.
Qed.

Lemma backup_allowed l ctx V r d :
  apart l → vault_ok l V d →
  wp (BackupExisting l ctx r) (λ x d', allowed l ctx V (OBackup r) (match x with Ok _ => ODone | Err e => OErr e end) d') d.
Proof.
  intros Hap Hok. assert (Herr : ∀ e d', vault_ok l V d' → allowed l ctx V (OBackup r) (OErr e) d').
  { intros e d' Hok'. exists V. split; [by constructor|done]. }
  unfold BackupExisting. destruct (l_recovery l) as [[rdir rbox]|] eqn:Hrec; [|by apply wp_throw, Herr].
  destruct ctx; [|by apply wp_bind, wp_bind, wp_throw, Herr].
  destruct (ref_ok l r) eqn:Hr.
  2:{ apply wp_bind. unfold Read. rewrite Hr. by apply wp_bind, wp_ret, wp_bind, wp_throw, Herr. }
  destruct (ref_ok_eq l r Hr) as [Heq Hl]. set (loc := ref_Locator r) in *.
  destruct (V !! loc) as [[[b k]|]|] eqn:Hv.
  - destruct (Hok _ _ Hv) as [_ He]. apply wp_bind. eapply wp_Read_entry; [done|exact He| |].
    2:{ intros d' Hf _. by apply Herr; eapply vault_frame. }
    intros d1 Hf1. eapply wp_mono; [apply (backup_copy l V loc b k rdir rbox); try done; by eapply vault_frame|].
    intros [[]|e] d2 H2; [|by apply Herr]. exists (<[loc := Some (b, true)]> V). split; [|done].
    rewrite Heq. eapply vs_backup; [|done]. rewrite Hrec. by apply bool_decide_eq_true_2.
  - destruct (Hok _ _ Hv) as [_ He]. apply wp_bind. eapply wp_Read_entry; [done|exact He| |].
    + intros d' Hf. by apply Herr; eapply vault_frame.
    + intros d' Hf _. by apply Herr; eapply vault_frame.
  - (** nothing is known: whatever happens to its files is allowed *)
    assert (Hany : ∀ (x : res PErr unit) d', only_locator loc d d' →
      allowed l true V (OBackup r) (match x with Ok _ => ODone | Err e => OErr e end) d').
    { intros x d' Ho. exists V. split.
      - destruct x; [rewrite Heq; by apply vs_backup_unknown|constructor].
      - rewrite <- (delete_id V loc) by done. by eapply vault_delete. }
    apply wp_bind, wp_Read_same; [done|]. intros [b|e] d1 Hf1; [|apply (Hany (Err e)); by apply only_same].
    apply wp_bind, wp_fs, wp_Read_ok; [|intros e d' Hf'; apply (Hany (Err _)), only_same; congruence].
    intros d2 [enc|] Hf2 _ _.
    + apply wp_bind, wp_some_or; [|intros _; apply (Hany (Err _)), only_same; congruence]. intros plain _.
      apply wp_fail_if; intros _; [apply (Hany (Err _))|apply (Hany (Ok tt))]; apply only_same; congruence.
    + apply wp_bind, wp_fs, wp_Box_Seal; [|intros e d3 Hf3; apply (Hany (Err _)), only_same; congruence].
      intros enc d3 Hf3 _ _. apply wp_fs, wp_Create; rewrite Hf3, Hf2, Hf1.
      * intros d4 _ Hf4. apply (Hany (Ok tt)). by eapply only_insert.
      * intros e d4 Hf4. apply (Hany (Err _)). by apply only_same.
      * intros e d4 _ Hf4. apply (Hany (Err _)). by eapply only_insert.
Qed.

(** An operation the theorem is about: the names of a written bundle are text, and only
    what has a recovery copy loses its primary file. *)
Definition op_ok V (op : vault_op) : Prop :=
  match op with
  | OWrite b => bundle_text b = true
  | OLose loc => ∃ b, V !! loc = Some (Some (b, true))
  | _ => True
  end.

(** C24. The local store is a vault: whatever the vault [V] describes is on disk, and
    every operation does to the disk what the abstract operation does to [V].  A written
    bundle gets a locator nothing is stored at and is read back unchanged until it is
    deleted, also after the primary file was lost when there is a recovery copy; what was
    deleted is not found; a failed write or backup loses nothing stored; a read of what
    is stored fails only when a call of the operating system failed. *)
Theorem local_store_refines l ctx V op d o d' :
  apart l → vault_ok l V d → op_ok V op → vault_run l ctx op d = (o, d') →
  ∃ V', vault_step (l_ID l) (bool_decide (is_Some (l_recovery l))) ctx (failed_last d') V op o V' ∧ vault_ok l V' d'.
Proof.
  intros Hap Hok Hop Hrun. destruct op as [b|r|r|r|loc]; simpl in Hrun.
  - pose proof (write_allowed l ctx V b d Hap Hok Hop) as Hw. unfold wp in Hw.
    destruct (Write l ctx b d) as [x y]. by injection Hrun as <- <-.
  - pose proof (read_allowed l ctx V r d Hok) as Hw. unfold wp in Hw.
    destruct (Read l ctx r d) as [x y]. by injection Hrun as <- <-.
  - pose proof (delete_allowed l ctx V r d Hok) as Hw. unfold wp in Hw.
    destruct (Delete l ctx r d) as [x y]. by injection Hrun as <- <-.
  - pose proof (backup_allowed l ctx V r d Hap Hok) as Hw. unfold wp in Hw.
    destruct (BackupExisting l ctx r d) as [x y]. by injection Hrun as <- <-.
  - destruct Hop as [b Hv]. injection Hrun as <- <-. exists V. split; [by econstructor|].
    destruct (Hok _ _ Hv) as [Hl (Ht & _ & Hbk)]. rewrite <- (insert_id V loc (Some (b, true))) by done.
    apply (vault_insert l V d); [by eapply only_remove|done|done|]. simpl. split; [done|].
    rewrite lookup_delete_eq. split; [done|]. intros _. destruct (Hbk eq_refl) as (rdir & rbox & enc & Hrec & Hf & Hs).
    exists rdir, rbox, enc. split_and!; [done| |done]. rewrite lookup_delete_ne; [done|].
    intros [= E]. by apply (Hap _ _ Hrec).
Qed.
End Refinement.
