(* ===== verification/LocalWitness.v ===== *)
(** The theorem about the local store at a concrete disk: a bundle is written with a
    recovery copy, loses its primary file, is read back and deleted. *)
From stdpp Require Import base gmap strings list pretty countable.
From Stdlib Require Import Ascii String.
From S2P Require Import Prelude GoStrings Contract BrokerTypes Journal JournalProps JournalWitness LocalStore LocalProps MaterializeWitness.
Local Open Scope string_scope.

Module LocalExample.
Import JournalExample MaterializeExample.

Definition bundle_bytes (b : Bundle) : bytes := bits (encode (map_to_list b)).
Definition bytes_bundle (x : bytes) : option Bundle :=
(decode (unbits x) : option (list (string * string))) ≫= λ l, Some (list_to_map l).

#[export] Instance binary : LocalWorld.
Proof.
refine {| bundle_Marshal := bundle_bytes; bundle_Decode := bytes_bundle;
          seal_Random := λ n, "abcdefghijklmnopqrstuvwxyzABCDEFGHIJKLMNOPQ" |}; [|done].
intros b _. unfold bytes_bundle, bundle_bytes. rewrite unbits_bits, decode_encode. simpl.
by rewrite list_to_map_to_list.
Defined.

#[export] Existing Instance cipher.
Definition no_failure : OS := failing [].

Definition store : Local := mkLocal "local" "/secrets" (mkBox key1) (Some ("/copies", mkBox key2)).
Definition api_token : Bundle := {["token" := "x1"]}.
Definition at_ref : Ref := mkRef "local" "abcdefghijklmnopqrstuvwxyzABCDEFGHIJKLMNOPQ" "1".

Definition run1 op d := vault_run (H0 := no_failure) store true op d.
Definition d0 : Disk := mkDisk ∅ 0.
Definition r1 := run1 (OWrite api_token) d0.
Definition r2 := run1 (OLose (ref_Locator at_ref)) r1.2.
Definition r3 := run1 (ORead at_ref) r2.2.
Definition r4 := run1 (ODelete at_ref) r3.2.

Lemma store_apart : apart store.
Proof. by intros rdir rbox [= <- <-]. Qed.

Lemma local_store_refines_witness :
  r1.1 = ORef at_ref ∧ r3.1 = OBundle api_token ∧ r4.1 = ODone ∧
  ∃ V1 V3 V4, vault_step "local" true true (failed_last (H0 := no_failure) r1.2) ∅ (OWrite api_token) r1.1 V1 ∧
    vault_step "local" true true (failed_last (H0 := no_failure) r3.2) V1 (ORead at_ref) r3.1 V3 ∧
    vault_step "local" true true (failed_last (H0 := no_failure) r4.2) V3 (ODelete at_ref) r4.1 V4 ∧
    vault_ok store V4 r4.2.
Proof.
  assert (E1 : r1.1 = ORef at_ref) by (vm_compute; reflexivity).
  assert (E3 : r3.1 = OBundle api_token) by (vm_compute; reflexivity).
  assert (E4 : r4.1 = ODone) by (vm_compute; reflexivity).
  refine (conj E1 (conj E3 (conj E4 _))).
  destruct (local_store_refines (H0 := no_failure) store true ∅ (OWrite api_token) d0 r1.1 r1.2 store_apart)
    as (V1 & S1 & K1); [by intros ? ?; rewrite lookup_empty|vm_compute; reflexivity|apply surjective_pairing|].
  assert (Hv : V1 !! ref_Locator at_ref = Some (Some (api_token, true))).
  { rewrite E1 in S1. inversion S1; subst. rewrite lookup_insert_eq. reflexivity. }
  destruct (local_store_refines (H0 := no_failure) store true V1 (OLose (ref_Locator at_ref)) r1.2 r2.1 r2.2 store_apart)
    as (V2 & S2 & K2); [exact K1|by exists api_token|apply surjective_pairing|].
  assert (V2 = V1) as ->. { change (r2.1) with ODone in S2. inversion S2; reflexivity. }
  destruct (local_store_refines (H0 := no_failure) store true V1 (ORead at_ref) r2.2 r3.1 r3.2 store_apart)
    as (V3 & S3 & K3); [exact K2|exact I|apply surjective_pairing|].
  destruct (local_store_refines (H0 := no_failure) store true V3 (ODelete at_ref) r3.2 r4.1 r4.2 store_apart)
    as (V4 & S4 & K4); [exact K3|exact I|apply surjective_pairing|].
  exists V1, V3, V4. exact (conj S1 (conj S3 (conj S4 K4))).
Defined.
End LocalExample.
