(* ===== verification/Safenet.v ===== *)
(** The fixed-authority HTTPS client (internal/safenet/net.go): which addresses it may
    connect to, and how it dials.

    [net/netip] is modelled on integers; parsing of text, name resolution and the dialling
    of an address are the environment's. *)
From stdpp Require Import base gmap strings list pretty.
From Stdlib Require Import Ascii String.
From S2P Require Import Prelude GoStrings Contract.
Local Open Scope string_scope.
Local Open Scope Z_scope.

(** * net/netip *)

(** [netip.Addr]: the zero value, an IPv4 address, an IPv6 address with a zone. *)
Inductive Addr := AInvalid | A4 (n : Z) | A6 (n : Z) (zone : string).

Definition addr_wf (ip : Addr) : bool :=
  match ip with
  | AInvalid => true
  | A4 n => (0 <=? n) && (n <? 2 ^ 32)
  | A6 n _ => (0 <=? n) && (n <? 2 ^ 128)
  end.

Definition Is4 (ip : Addr) : bool := match ip with A4 _ => true | _ => false end.
Definition Is6 (ip : Addr) : bool := match ip with A6 _ _ => true | _ => false end.
Definition Is4In6 (ip : Addr) : bool :=
  match ip with A6 n _ => Z.shiftr n 32 =? 65535 | _ => false end.
Definition Unmap (ip : Addr) : Addr :=
  match ip with
  | A6 n z => if Is4In6 (A6 n z) then A4 (Z.land n (Z.ones 32)) else A6 n z
  | _ => ip
  end.
Definition IsValid (ip : Addr) : bool := match ip with AInvalid => false | _ => true end.

(** The [i]-th byte of an IPv4 address, and 16-bit group of an IPv6 one. *)
Definition v4 (n : Z) (i : Z) : Z := Z.land (Z.shiftr n (24 - 8 * i)) 255.
Definition v6u16 (n : Z) (i : Z) : Z := Z.land (Z.shiftr n (112 - 16 * i)) 65535.

Definition IsUnspecified (ip : Addr) : bool :=
  match ip with A4 n => n =? 0 | A6 n z => (n =? 0) && (z == "") | AInvalid => false end.
Definition IsMulticast (ip : Addr) : bool :=
  match Unmap ip with
  | A4 n => Z.land (v4 n 0) 240 =? 224
  | A6 n _ => Z.shiftr n 120 =? 255
  | AInvalid => false
  end.
Definition IsLinkLocalUnicast (ip : Addr) : bool :=
  match Unmap ip with
  | A4 n => (v4 n 0 =? 169) && (v4 n 1 =? 254)
  | A6 n _ => Z.land (v6u16 n 0) 65472 =? 65152
  | AInvalid => false
  end.
Definition IsLinkLocalMulticast (ip : Addr) : bool :=
  match Unmap ip with
  | A4 n => (v4 n 0 =? 224) && (v4 n 1 =? 0) && (v4 n 2 =? 0)
  | A6 n _ => Z.land (v6u16 n 0) 65295 =? 65282
  | AInvalid => false
  end.
Definition IsLoopback (ip : Addr) : bool :=
  match Unmap ip with
  | A4 n => v4 n 0 =? 127
  | A6 n _ => n =? 1
  | AInvalid => false
  end.
Definition IsPrivate (ip : Addr) : bool :=
  match Unmap ip with
  | A4 n => (v4 n 0 =? 10) || ((v4 n 0 =? 172) && (Z.land (v4 n 1) 240 =? 16))
            || ((v4 n 0 =? 192) && (v4 n 1 =? 168))
  | A6 n _ => Z.land (Z.shiftr n 120) 254 =? 252
  | AInvalid => false
  end.
Definition IsGlobalUnicast (ip : Addr) : bool :=
  match Unmap ip with
  | AInvalid => false
  | A4 n => negb ((n =? 0) || (n =? 2 ^ 32 - 1)) &&
      negb (IsLoopback (A4 n)) && negb (IsMulticast (A4 n)) && negb (IsLinkLocalUnicast (A4 n))
  | A6 n z => negb (IsUnspecified (A6 n z)) &&
      negb (IsLoopback (A6 n z)) && negb (IsMulticast (A6 n z)) && negb (IsLinkLocalUnicast (A6 n z))
  end.

(** [netip.Prefix]; a parsed one has no zone. *)
Record Prefix := mkPrefix { p_Addr : Addr; p_Bits : Z }.

Definition mask6 (bits : Z) : Z := Z.shiftl (Z.ones bits) (128 - bits).

Definition Contains (p : Prefix) (ip : Addr) : bool :=
  match p_Addr p, ip with
  | A4 a, A4 n => (0 <=? p_Bits p) && (p_Bits p <=? 32) && (Z.shiftr (Z.lxor n a) (32 - p_Bits p) =? 0)
  | A6 a _, A6 n z => (0 <=? p_Bits p) && (p_Bits p <=? 128) && (z == "") &&
      (Z.land (Z.lxor n a) (mask6 (p_Bits p)) =? 0)
  | _, _ => false
  end.

(** [p.Masked()] *)
Definition Masked (p : Prefix) : Prefix :=
  match p_Addr p with
  | A4 a => mkPrefix (A4 (Z.shiftl (Z.shiftr a (32 - p_Bits p)) (32 - p_Bits p))) (p_Bits p)
  | A6 a _ => mkPrefix (A6 (Z.land a (mask6 (p_Bits p))) "") (p_Bits p)
  | AInvalid => p
  end.

(** * net.go *)

Inductive NErr := ErrDestination | ErrDial.

(** [a.b.c.d/bits] *)
Definition cidr4 (a b c d bits : Z) : Prefix := mkPrefix (A4 (((a * 256 + b) * 256 + c) * 256 + d)) bits.
(** A prefix whose groups after the first two are zero. *)
Definition cidr6 (g0 g1 bits : Z) : Prefix := mkPrefix (A6 (g0 * 2 ^ 112 + g1 * 2 ^ 96) "") bits.

Definition reserved : list Prefix :=
  [cidr4 0 0 0 0 8; cidr4 100 64 0 0 10;
   cidr4 192 0 0 0 24; cidr4 192 0 2 0 24;
   cidr4 198 18 0 0 15; cidr4 198 51 100 0 24;
   cidr4 203 0 113 0 24; cidr4 240 0 0 0 4;
   cidr6 8193 3512 32; cidr6 8193 0 32;
   cidr6 8194 0 16; cidr6 100 65435 96].

Definition Allowed (ip : Addr) (exceptions : list Prefix) : bool :=
  let ip := Unmap ip in
  if negb (IsValid ip) || IsUnspecified ip || IsMulticast ip || IsLinkLocalUnicast ip || IsLinkLocalMulticast ip
  then false
  else if existsb (λ p, Contains p ip) exceptions then true
  else if negb (IsGlobalUnicast ip) || IsPrivate ip || IsLoopback ip then false
  else negb (existsb (λ p, Contains p ip) reserved).

(** A parsed URL with its host, which is its host name and its port. *)
Record NetURL := mkNetURL { nu_URL : URL; nu_Host : string; nu_Port : string }.

(** [netip.ParsePrefix], [url.Parse], [net.SplitHostPort], the resolver and the dialler. *)
Class Net := {
  ParsePrefix : string → option Prefix;
  ParsePrefix_valid : ∀ s p, ParsePrefix s = Some p → addr_wf (p_Addr p) = true ∧
    match p_Addr p with
    | AInvalid => False
    | A4 _ => 0 ≤ p_Bits p ≤ 32
    | A6 _ z => z = "" ∧ 0 ≤ p_Bits p ≤ 128
    end;
  net_url_Parse : string → option NetURL;
  SplitHostPort : string → option (string * string);
  LookupNetIP : string → option (list Addr);
  dial_ok : Addr → string → bool;
}.

Fixpoint ParseExceptions `{Net} (v : list string) : option (list Prefix) :=
  match v with
  | [] => Some []
  | s :: v' =>
      match ParsePrefix s with
      | None => None
      | Some p => if (Is4 (p_Addr p) && (p_Bits p <? 24)) || (Is6 (p_Addr p) && (p_Bits p <? 64)) then None
                  else out ← ParseExceptions v'; Some (Masked p :: out)
      end
  end.

(** The fields of [tls.Config] the code reads. *)
Record TLSConfig := mkTLS { tls_MinVersion : Z; tls_ServerName : string; tls_InsecureSkipVerify : bool }.
Definition VersionTLS12 : Z := 771.

Record Policy := mkPolicy { AllowedCIDRs : list Prefix; pol_TLS : option TLSConfig }.

(** The client: its authority, the host and port it dials, its TLS settings. *)
Record Client := mkClient {
  cl_authority : string; cl_hostname : string; cl_port : string; cl_tls : TLSConfig; cl_policy : Policy }.

Section Client.
Context `{Net}.

(** [New] *)
Definition New (base : string) (p : Policy) : option Client :=
  match net_url_Parse base with
  | None => None
  | Some (mkNetURL u host uport) =>
      if (u_Scheme u != "https") || (u_Hostname u == "") || u_HasUser u || (u_Fragment u != "")
         || (u_RawQuery u != "") || HasSuffix (u_Hostname u) "." then None
      else
        let port := if uport == "" then "443" else uport in
        match pol_TLS p with
        | None => Some (mkClient host (u_Hostname u) port (mkTLS VersionTLS12 (u_Hostname u) false) p)
        | Some t =>
            if tls_InsecureSkipVerify t then None
            else Some (mkClient host (u_Hostname u) port
                   (mkTLS (if tls_MinVersion t <? VersionTLS12 then VersionTLS12 else tls_MinVersion t) (u_Hostname u)
                      (tls_InsecureSkipVerify t)) p)
        end
  end.

(** The loop over the addresses: those it dialled, and the connection. *)
Fixpoint dial_first (ips : list Addr) (port : string) : list Addr * res NErr Addr :=
  match ips with
  | [] => ([], Err ErrDial)
  | ip :: ips' =>
      if dial_ok ip port then ([ip], Ok ip)
      else let '(tried, r) := dial_first ips' port in (ip :: tried, r)
  end.

(** [tr.DialContext] *)
Definition DialContext (c : Client) (address : string) : list Addr * res NErr Addr :=
  match SplitHostPort address with
  | None => ([], Err ErrDestination)
  | Some (h, pp) =>
      if (h != cl_hostname c) || (pp != cl_port c) then ([], Err ErrDestination)
      else
        match LookupNetIP h with
        | None | Some [] => ([], Err ErrDestination)
        | Some ips =>
            if existsb (λ ip, negb (Allowed ip (AllowedCIDRs (cl_policy c)))) ips then ([], Err ErrDestination)
            else dial_first ips pp
        end
  end.

(** [fixedTransport.RoundTrip]: the address handed to the transport, which dials it. *)
Definition RoundTrip (c : Client) (u : NetURL) (address : string) : list Addr * res NErr Addr :=
  if (u_Scheme (nu_URL u) != "https") || (nu_Host u != cl_authority c) || u_HasUser (nu_URL u)
     || (u_Fragment (nu_URL u) != "")
  then ([], Err ErrDestination)
  else DialContext c address.
End Client.
