(* ===== verification/SafenetProps.v ===== *)
(** Where the broker's HTTPS clients connect: the bit tests of [Allowed] are exactly the
    special-purpose address ranges, and a client connects nowhere else. *)
From stdpp Require Import base gmap strings list pretty.
From Stdlib Require Import Ascii String Btauto.
From S2P Require Import Prelude GoStrings Contract Safenet.
Local Open Scope string_scope.
Local Open Scope Z_scope.

(** * The reference: ranges *)

(** A block of [2 ^ (w - bits)] addresses from [a]. *)
Definition in_block (w n : Z) (block : Z * Z) : bool :=
  (block.1 <=? n) && (n <? block.1 + 2 ^ (w - block.2)).

Definition dotted (a b c d : Z) : Z := ((a * 256 + b) * 256 + c) * 256 + d.
Definition group (g0 g1 : Z) : Z := g0 * 2 ^ 112 + g1 * 2 ^ 96.

(** The special-purpose blocks: this network, private use, shared space, loopback, link
    local, protocol assignments, documentation, benchmarking, multicast, reserved. *)
Definition special4 : list (Z * Z) :=
  [(dotted 0 0 0 0, 8); (dotted 10 0 0 0, 8); (dotted 100 64 0 0, 10); (dotted 127 0 0 0, 8);
   (dotted 169 254 0 0, 16); (dotted 172 16 0 0, 12); (dotted 192 0 0 0, 24); (dotted 192 0 2 0, 24);
   (dotted 192 168 0 0, 16); (dotted 198 18 0 0, 15); (dotted 198 51 100 0, 24); (dotted 203 0 113 0, 24);
   (dotted 224 0 0 0, 4); (dotted 240 0 0 0, 4)].

(** Unspecified, loopback, NAT64, Teredo, documentation, 6to4, unique local, link local,
    multicast. *)
Definition special6 : list (Z * Z) :=
  [(0, 128); (1, 128); (group 100 65435, 96); (group 8193 0, 32); (group 8193 3512, 32); (group 8194 0, 16);
   (group 64512 0, 7); (group 65152 0, 10); (group 65280 0, 8)].

(** The block of the IPv4 addresses. *)
Definition mapped : Z * Z := (65535 * 2 ^ 32, 96).

Definition public4 (n : Z) : bool := negb (existsb (in_block 32 n) special4).
Definition public (ip : Addr) : bool :=
  match ip with
  | AInvalid => false
  | A4 n => public4 n
  | A6 n _ => if in_block 128 n mapped then public4 (n - mapped.1) else negb (existsb (in_block 128 n) special6)
  end.

Definition no_zone (ip : Addr) : bool := match ip with A6 _ z => z == "" | _ => true end.

(** * Bit tests are ranges *)

Lemma shiftr_range n k c : 0 ≤ k → (Z.shiftr n k =? c) = (c * 2 ^ k <=? n) && (n <? (c + 1) * 2 ^ k).
Proof.
  intros Hk. rewrite Z.shiftr_div_pow2 by done. assert (0 < 2 ^ k) by (apply Z.pow_pos_nonneg; lia).
  apply eq_true_iff_eq. rewrite andb_true_iff, Z.eqb_eq, Z.leb_le, Z.ltb_lt. split.
  - intros <-. pose proof (Z.div_mod n (2 ^ k)). pose proof (Z.mod_pos_bound n (2 ^ k)). nia.
  - intros [? ?]. symmetry. apply (Z.div_unique _ _ _ (n - c * 2 ^ k)); lia.
Qed.

Lemma land_shiftl x m k : 0 ≤ k → Z.land x (Z.shiftl m k) = Z.shiftl (Z.land (Z.shiftr x k) m) k.
Proof.
  intros Hk. apply Z.bits_inj'. intros i Hi. rewrite Z.land_spec, !Z.shiftl_spec by done.
  destruct (Z.le_gt_cases k i).
  - rewrite Z.land_spec, Z.shiftr_spec by lia. by replace (i - k + k) with i by lia.
  - rewrite !(Z.testbit_neg_r _ (i - k)) by lia. by rewrite andb_false_r.
Qed.

Lemma land_lxor x y m : Z.land (Z.lxor x y) m = Z.lxor (Z.land x m) (Z.land y m).
Proof.
  apply Z.bits_inj'. intros i _. rewrite !Z.land_spec, !Z.lxor_spec, !Z.land_spec.
  by destruct (Z.testbit x i), (Z.testbit y i), (Z.testbit m i).
Qed.

Lemma contains4 a bits n : 0 ≤ bits ≤ 32 → a mod 2 ^ (32 - bits) = 0 →
  Contains (mkPrefix (A4 a) bits) (A4 n) = in_block 32 n (a, bits).
Proof.
  intros Hb Ha. unfold Contains, in_block. simpl. rewrite (proj2 (Z.leb_le _ _)), (proj2 (Z.leb_le bits 32)) by lia. simpl.
  assert (0 < 2 ^ (32 - bits)) by (apply Z.pow_pos_nonneg; lia).
  pose proof (Z.div_mod a (2 ^ (32 - bits))) as Hdiv.
  assert ((Z.shiftr (Z.lxor n a) (32 - bits) =? 0) = (Z.shiftr n (32 - bits) =? Z.shiftr a (32 - bits))) as ->.
  { apply eq_true_iff_eq. by rewrite !Z.eqb_eq, Z.shiftr_lxor, Z.lxor_eq_0_iff. }
  rewrite shiftr_range by lia. rewrite (Z.shiftr_div_pow2 a) by lia. f_equal; f_equal; lia.
Qed.

Lemma contains6 a bits n : 0 ≤ bits ≤ 128 → a mod 2 ^ (128 - bits) = 0 → 0 ≤ a < 2 ^ 128 → 0 ≤ n < 2 ^ 128 →
  Contains (mkPrefix (A6 a "") bits) (A6 n "") = in_block 128 n (a, bits).
Proof.
  intros Hb Ha Hra Hn. unfold Contains, in_block, mask6. simpl.
  rewrite (proj2 (Z.leb_le _ _)), (proj2 (Z.leb_le bits 128)) by lia. simpl.
  assert (0 < 2 ^ (128 - bits)) by (apply Z.pow_pos_nonneg; lia).
  pose proof (Z.div_mod a (2 ^ (128 - bits))) as Hdiv.
  rewrite land_shiftl, Z.shiftr_lxor, Z.land_ones by lia.
  assert (0 ≤ Z.shiftr n (128 - bits) < 2 ^ bits ∧ 0 ≤ Z.shiftr a (128 - bits) < 2 ^ bits) as [Hsn Hsa].
  { rewrite !Z.shiftr_div_pow2 by lia. assert (2 ^ 128 = 2 ^ (128 - bits) * 2 ^ bits) as E by (rewrite <- Z.pow_add_r by lia; f_equal; lia).
    split; split; try (apply Z.div_pos; lia); apply Z.div_lt_upper_bound; lia. }
  assert ((Z.shiftl (Z.lxor (Z.shiftr n (128 - bits)) (Z.shiftr a (128 - bits)) mod 2 ^ bits) (128 - bits) =? 0)
    = (Z.shiftr n (128 - bits) =? Z.shiftr a (128 - bits))) as ->.
  { apply eq_true_iff_eq. rewrite !Z.eqb_eq, Z.shiftl_eq_0_iff by lia. rewrite <- (Z.land_ones _ bits) by lia.
    rewrite land_lxor, Z.lxor_eq_0_iff, !Z.land_ones, !Z.mod_small by lia. done. }
  rewrite shiftr_range by lia. rewrite (Z.shiftr_div_pow2 a) by lia. f_equal; f_equal; lia.
Qed.

(** * The classes of addresses *)

(** Constant powers of two as numbers. *)
Ltac pows :=
  repeat match goal with
  | |- context [2 ^ Zpos ?k] => let v := eval vm_compute in (2 ^ Zpos k) in change (2 ^ Zpos k) with v
  | H : context [2 ^ Zpos ?k] |- _ => let v := eval vm_compute in (2 ^ Zpos k) in change (2 ^ Zpos k) with v in H
  end.

Lemma byte0 n : 0 ≤ n < 2 ^ 32 → v4 n 0 = n / 2 ^ 24.
Proof. intros Hn. unfold v4. change (24 - 8 * 0) with 24.
  rewrite (Z.land_ones _ 8), Z.shiftr_div_pow2 by lia. apply Z.mod_small. pows. zlia. Qed.

Lemma byte n i : 0 ≤ i ≤ 3 → v4 n i = (n / 2 ^ (24 - 8 * i)) mod 256.
Proof. intros Hi. unfold v4. by rewrite (Z.land_ones _ 8), Z.shiftr_div_pow2 by lia. Qed.

Lemma group0 n : 0 ≤ n < 2 ^ 128 → v6u16 n 0 = n / 2 ^ 112.
Proof. intros Hn. unfold v6u16. change (112 - 16 * 0) with 112.
  rewrite (Z.land_ones _ 16), Z.shiftr_div_pow2 by lia. apply Z.mod_small. pows. zlia. Qed.

(** A test of [b] bits from bit [k]. *)
Lemma mask_test x b k c : 0 ≤ b → 0 ≤ k →
  (Z.land x (Z.shiftl (Z.ones b) k) =? Z.shiftl c k) = ((x / 2 ^ k) mod 2 ^ b =? c).
Proof.
  intros Hb Hk. rewrite land_shiftl, Z.land_ones, Z.shiftr_div_pow2 by done. apply eq_true_iff_eq.
  rewrite !Z.eqb_eq, !Z.shiftl_mul_pow2 by done. assert (0 < 2 ^ k) by (apply Z.pow_pos_nonneg; lia). nia.
Qed.

Lemma high_nibble x c : (Z.land x 240 =? 16 * c) = ((x / 16) mod 16 =? c).
Proof.
  pose proof (mask_test x 4 4 c ltac:(lia) ltac:(lia)) as E. rewrite (Z.shiftl_mul_pow2 c), (Z.mul_comm c) in E by lia. exact E.
Qed.

Lemma link_local6 x : (Z.land x 65472 =? 65152) = ((x / 64) mod 1024 =? 1018).
Proof. exact (mask_test x 10 6 1018 ltac:(lia) ltac:(lia)). Qed.

Lemma unique_local6 x : (Z.land x 254 =? 252) = ((x / 2) mod 128 =? 126).
Proof. exact (mask_test x 7 1 126 ltac:(lia) ltac:(lia)). Qed.

Lemma link_multicast6 x : Z.land x 65295 = 65282 → (x / 256) mod 256 = 255.
Proof.
  intros E%(f_equal (λ y, Z.land y 65280)). rewrite <- Z.land_assoc in E.
  apply Z.eqb_eq. etrans; [symmetry; exact (mask_test x 8 8 255 ltac:(lia) ltac:(lia))|]. by apply Z.eqb_eq.
Qed.

(** Prove that two tests of a number agree, as facts of linear arithmetic. *)
Ltac by_ranges :=
  apply eq_true_iff_eq;
  rewrite ?negb_true_iff, ?orb_false_iff, ?andb_false_iff, ?andb_true_iff, ?orb_true_iff,
    ?Z.eqb_eq, ?Z.eqb_neq, ?Z.leb_le, ?Z.ltb_lt, ?Z.leb_gt, ?Z.ltb_ge;
  pows; zlia.

Lemma if_negb_false (a b : bool) : (if a then false else b) = negb a && b.
Proof. by destruct a. Qed.

Section Classes4.
Context (n : Z) (Hn : 0 ≤ n < 2 ^ 32).

Lemma multicast4 : IsMulticast (A4 n) = in_block 32 n (dotted 224 0 0 0, 4).
Proof.
  unfold IsMulticast, in_block, dotted. simpl Unmap. cbv iota beta. rewrite (high_nibble _ 14), byte0 by done. simpl. by_ranges.
Qed.

Lemma link_local4 : IsLinkLocalUnicast (A4 n) = in_block 32 n (dotted 169 254 0 0, 16).
Proof.
  unfold IsLinkLocalUnicast, in_block, dotted. simpl Unmap. cbv iota beta. rewrite byte0, (byte n 1) by (done || lia).
  simpl. by_ranges.
Qed.

Lemma link_multicast4 : IsLinkLocalMulticast (A4 n) = true → in_block 32 n (dotted 224 0 0 0, 4) = true.
Proof.
  unfold IsLinkLocalMulticast, in_block, dotted. simpl Unmap. cbv iota beta. rewrite byte0 by done. simpl.
  rewrite !andb_true_iff, !Z.eqb_eq, Z.leb_le, Z.ltb_lt. intros [[? _] _]. pows. zlia.
Qed.

Lemma loopback4 : IsLoopback (A4 n) = in_block 32 n (dotted 127 0 0 0, 8).
Proof.
  unfold IsLoopback, in_block, dotted. simpl Unmap. cbv iota beta. rewrite byte0 by done. simpl. by_ranges.
Qed.

Lemma private4 : IsPrivate (A4 n) = in_block 32 n (dotted 10 0 0 0, 8) || in_block 32 n (dotted 172 16 0 0, 12)
  || in_block 32 n (dotted 192 168 0 0, 16).
Proof.
  unfold IsPrivate, in_block, dotted. simpl Unmap. cbv iota beta.
  rewrite (high_nibble _ 1), byte0, !(byte n 1) by (done || lia). simpl. by_ranges.
Qed.

Lemma reserved4 : existsb (λ p, Contains p (A4 n)) reserved =
  existsb (in_block 32 n) [(dotted 0 0 0 0, 8); (dotted 100 64 0 0, 10); (dotted 192 0 0 0, 24); (dotted 192 0 2 0, 24);
    (dotted 198 18 0 0, 15); (dotted 198 51 100 0, 24); (dotted 203 0 113 0, 24); (dotted 240 0 0 0, 4)].
Proof.
  unfold reserved, cidr4. cbn [existsb]. by rewrite !contains4 by (lia || (vm_compute; reflexivity)).
Qed.

Lemma allowed_public4 : Allowed (A4 n) [] = public4 n.
Proof.
  destruct (decide (n = 0)) as [->|H0]; [vm_compute; reflexivity|].
  destruct (decide (n = 2 ^ 32 - 1)) as [->|Hm]; [vm_compute; reflexivity|].
  unfold Allowed, public4. cbn [Unmap existsb]. rewrite reserved4, link_local4, multicast4. unfold IsGlobalUnicast.
  cbn [Unmap IsValid IsUnspecified]. rewrite loopback4, multicast4, link_local4, private4.
  rewrite (proj2 (Z.eqb_neq n 0)), (proj2 (Z.eqb_neq n (2 ^ 32 - 1))) by done.
  pose proof link_multicast4 as Hlm. destruct (IsLinkLocalMulticast (A4 n)).
  { specialize (Hlm eq_refl). cbn [existsb special4]. rewrite Hlm. by rewrite ?orb_true_r. }
  cbn [existsb special4]. repeat match goal with |- context [in_block ?a ?b ?c] => generalize (in_block a b c); intro end.
  rewrite if_negb_false. btauto.
Qed.
End Classes4.

Lemma unmap6 n : 0 ≤ n < 2 ^ 128 → Is4In6 (A6 n "") = in_block 128 n mapped.
Proof. intros Hn. unfold Is4In6. by rewrite shiftr_range by lia. Qed.

Lemma unmap_low n : in_block 128 n mapped = true → Z.land n (Z.ones 32) = n - mapped.1 ∧ 0 ≤ n - mapped.1 < 2 ^ 32.
Proof.
  unfold in_block, mapped. simpl. rewrite andb_true_iff, Z.leb_le, Z.ltb_lt. intros Hn.
  rewrite (Z.land_ones _ 32) by lia. split; [|lia]. symmetry. apply (Z.mod_unique _ _ 65535); pows; lia.
Qed.

Section Classes6.
Context (n : Z) (Hn : 0 ≤ n < 2 ^ 128) (Hu : in_block 128 n mapped = false).

Lemma unmap_id : Unmap (A6 n "") = A6 n "".
Proof. unfold Unmap. by rewrite unmap6, Hu. Qed.

Lemma multicast6 : IsMulticast (A6 n "") = in_block 128 n (group 65280 0, 8).
Proof. unfold IsMulticast. rewrite unmap_id, shiftr_range by lia. unfold in_block, group. simpl. by_ranges. Qed.

Lemma link_local_6 : IsLinkLocalUnicast (A6 n "") = in_block 128 n (group 65152 0, 10).
Proof.
  unfold IsLinkLocalUnicast. rewrite unmap_id, group0, link_local6 by done. unfold in_block, group. simpl. by_ranges.
Qed.

Lemma link_multicast_6 : IsLinkLocalMulticast (A6 n "") = true → in_block 128 n (group 65280 0, 8) = true.
Proof.
  unfold IsLinkLocalMulticast. rewrite unmap_id, group0 by done. intros E%Z.eqb_eq%link_multicast6. revert E.
  unfold in_block, group. simpl. rewrite andb_true_iff, Z.leb_le, Z.ltb_lt. pows. zlia.
Qed.

Lemma loopback6 : IsLoopback (A6 n "") = in_block 128 n (1, 128).
Proof. unfold IsLoopback. rewrite unmap_id. unfold in_block. simpl. by_ranges. Qed.

Lemma private6 : IsPrivate (A6 n "") = in_block 128 n (group 64512 0, 7).
Proof.
  unfold IsPrivate. rewrite unmap_id, unique_local6, Z.shiftr_div_pow2 by lia. unfold in_block, group. simpl. by_ranges.
Qed.

Lemma unspecified6 : IsUnspecified (A6 n "") = in_block 128 n (0, 128).
Proof. unfold IsUnspecified. rewrite bool_decide_eq_true_2, andb_true_r by done. unfold in_block. simpl. by_ranges. Qed.

Lemma reserved6 : existsb (λ p, Contains p (A6 n "")) reserved =
  existsb (in_block 128 n) [(group 8193 3512, 32); (group 8193 0, 32); (group 8194 0, 16); (group 100 65435, 96)].
Proof.
  unfold reserved, cidr6. cbn [existsb]. by rewrite !contains6 by (lia || (vm_compute; reflexivity)).
Qed.

Lemma allowed_public6 : Allowed (A6 n "") [] = negb (existsb (in_block 128 n) special6).
Proof.
  unfold Allowed, IsGlobalUnicast. rewrite !unmap_id. cbn [existsb IsValid].
  rewrite reserved6, link_local_6, multicast6, loopback6, private6, unspecified6.
  pose proof link_multicast_6 as Hlm. destruct (IsLinkLocalMulticast (A6 n "")).
  { specialize (Hlm eq_refl). cbn [existsb special6]. rewrite Hlm. by rewrite ?orb_true_r. }
  cbn [existsb special6]. repeat match goal with |- context [in_block ?a ?b ?c] => generalize (in_block a b c); intro end.
  rewrite if_negb_false. btauto.
Qed.
End Classes6.

(** The bit tests of [Allowed] are the ranges of the table. *)
Lemma allowed_public ip : addr_wf ip = true → no_zone ip = true → Allowed ip [] = public ip.
Proof.
  destruct ip as [|n|n z]; cbn [addr_wf no_zone public]; [done| |]; rewrite andb_true_iff, Z.leb_le, Z.ltb_lt; intros Hn Hz.
  - by apply allowed_public4.
  - apply bool_decide_eq_true in Hz as ->. destruct (in_block 128 n mapped) eqn:Hm; [|by apply allowed_public6].
    destruct (unmap_low n Hm) as [E Hb]. rewrite <- (allowed_public4 _ Hb).
    assert (Unmap (A6 n "") = A4 (n - mapped.1)) as Hu by (unfold Unmap; by rewrite unmap6, Hm, E).
    unfold Allowed. rewrite Hu. reflexivity.
Qed.

(** An address of a small block an operator has listed, which is still no multicast,
    link-local or unspecified address. *)
Definition excepted (exceptions : list Prefix) (ip : Addr) : Prop :=
  (∃ p, p ∈ exceptions ∧ Contains p (Unmap ip) = true) ∧
  IsMulticast (Unmap ip) = false ∧ IsLinkLocalUnicast (Unmap ip) = false ∧ IsUnspecified (Unmap ip) = false.

Lemma allowed_cases ip exceptions : addr_wf ip = true → no_zone ip = true →
  Allowed ip exceptions = true → public ip = true ∨ excepted exceptions ip.
Proof.
  intros Hw Hz Ha. rewrite <- allowed_public by done. unfold Allowed in *. cbn [existsb].
  destruct (_ || _) eqn:Hc; [done|]. rewrite !orb_false_iff in Hc.
  destruct (existsb _ exceptions) eqn:He; [|by left]. right. split; [|tauto].
  apply existsb_exists in He as (p & Hp%list_elem_of_In & Hpc). by exists p.
Qed.

Section Clients.
Context `{Net}.

(** A parsed exception covers at most 256 IPv4 addresses, or one IPv6 subnet. *)
Lemma exceptions_narrow v l : ParseExceptions v = Some l →
  ∀ p, p ∈ l → match p_Addr p with A4 _ => 24 ≤ p_Bits p ≤ 32 | A6 _ z => z = "" ∧ 64 ≤ p_Bits p ≤ 128 | AInvalid => False end.
Proof.
  revert l. induction v as [|s v IH]; intros l; simpl; [intros [= <-]; set_solver|].
  destruct (ParsePrefix s) as [p|] eqn:Hp; [|done]. destruct (_ || _) eqn:Hb; [done|].
  apply orb_false_iff in Hb as [H4 H6]. intros Hl. destruct (ParseExceptions v) as [out|]; [|done]. injection Hl as <-.
  intros q [->|Hq]%elem_of_cons; [|by apply (IH out)]. apply ParsePrefix_valid in Hp as [_ Hv].
  destruct p as [[|a|a z] bits]; simpl in *; [done| |]; guards; lia || (split; [done|lia]).
Qed.

Lemma dial_first_spec ips port tried r : dial_first ips port = (tried, r) →
  (∀ ip, ip ∈ tried → ip ∈ ips) ∧ match r with Ok ip => ip ∈ tried ∧ dial_ok ip port = true | Err _ => ∀ ip, ip ∈ ips → dial_ok ip port = false end.
Proof.
  revert tried r. induction ips as [|ip ips IH]; simpl; intros tried r; [intros [= <- <-]; set_solver|].
  destruct (dial_ok ip port) eqn:Hd; [intros [= <- <-]; set_solver|].
  destruct (dial_first ips port) as [t x]. intros [= <- <-]. destruct (IH t x eq_refl) as [Ht Hx].
  split; [set_solver|]. destruct x; [set_solver|]. intros ip' [->|?]%elem_of_cons; auto.
Qed.

(** What [New] accepts and what it makes of it. *)
Lemma New_spec base pol c : New base pol = Some c →
  (∃ nu, net_url_Parse base = Some nu ∧ u_Scheme (nu_URL nu) = "https" ∧ u_Hostname (nu_URL nu) ≠ "" ∧
     HasSuffix (u_Hostname (nu_URL nu)) "." = false ∧ u_HasUser (nu_URL nu) = false ∧
     u_RawQuery (nu_URL nu) = "" ∧ u_Fragment (nu_URL nu) = "" ∧
     cl_authority c = nu_Host nu ∧ cl_hostname c = u_Hostname (nu_URL nu) ∧
     cl_port c = (if nu_Port nu == "" then "443" else nu_Port nu)) ∧
  cl_policy c = pol ∧ VersionTLS12 ≤ tls_MinVersion (cl_tls c) ∧
  tls_InsecureSkipVerify (cl_tls c) = false ∧ tls_ServerName (cl_tls c) = cl_hostname c.
Proof.
  unfold New. intros Hnew. destruct (net_url_Parse base) as [[nu host port]|]; [|done].
  destruct (_ || _) eqn:Hg; [done|]. guards.
  assert (c = mkClient host (u_Hostname nu) (if port == "" then "443" else port) (cl_tls c) pol ∧
    VersionTLS12 ≤ tls_MinVersion (cl_tls c) ∧ tls_InsecureSkipVerify (cl_tls c) = false ∧
    tls_ServerName (cl_tls c) = u_Hostname nu) as (Hc & Ht1 & Ht2 & Ht3).
  { destruct (pol_TLS pol) as [t|]; [|by injection Hnew as <-]. destruct (tls_InsecureSkipVerify t) eqn:Hi; [done|].
    injection Hnew as <-. simpl. split_and!; try done. destruct (_ <? _) eqn:E; guards; lia. }
  rewrite Hc. simpl. split; [|done]. eexists. split; [reflexivity|]. by split_and!.
Qed.

End Clients.
