(* ===== verification/SafenetWitness.v ===== *)
(** The theorem about HTTPS clients at a concrete network: a host with a public address
    that does not answer and one of a listed private block that does. *)
From stdpp Require Import base gmap strings list pretty.
From Stdlib Require Import Ascii String.
From S2P Require Import Prelude GoStrings Contract Safenet SafenetProps.
Local Open Scope string_scope.
Local Open Scope Z_scope.

Module NetExample.

Definition far : Addr := A4 (dotted 140 82 121 3).
Definition near : Addr := A6 (65535 * 2 ^ 32 + dotted 10 1 2 9) "".
Definition api : NetURL := mkNetURL (mkURL "https" "api.example" false "" "" "/v1" "") "api.example" "".

#[export] Instance net : Net.
Proof.
refine {| ParsePrefix := λ s, if s == "10.1.2.3/24" then Some (mkPrefix (A4 (dotted 10 1 2 3)) 24) else None;
          net_url_Parse := λ s, if s == "https://api.example/v1" then Some api else None;
          SplitHostPort := λ s, if s == "api.example:443" then Some ("api.example", "443") else None;
          LookupNetIP := λ h, if h == "api.example" then Some [far; near] else None;
          dial_ok := λ ip _, negb (Is4 ip) |}.
intros s p. destruct (_ == _); [|done]. intros [= <-]. split; [vm_compute; reflexivity|simpl; lia].
Defined.

Definition listed : list Prefix := default [] (ParseExceptions ["10.1.2.3/24"]).
Definition policy : Policy := mkPolicy listed (Some (mkTLS 769 "" false)).
Definition client : Client := default (mkClient "" "" "" (mkTLS 0 "" true) policy) (New "https://api.example/v1" policy).
Definition sent := RoundTrip client api "api.example:443".

End NetExample.
