(* ===== verification/Calendar.v ===== *)
(** Instants, time zones and the calendar, as the routines use package time.

    An instant is a number of nanoseconds since 1970; a location gives the offset of
    local time at every second.  The calendar is the proleptic Gregorian one. *)
From stdpp Require Import base list.
From Stdlib Require Import ZArith Lia.
From S2P Require Import Prelude.
Local Open Scope Z_scope.

(** * Instants *)

Definition Hour : Z := 60 * Minute.

(** [time.Time{}], January 1 of year 1. *)
Definition zero_time : Z := -62135596800 * Second.
Definition IsZero (t : Z) : bool := t =? zero_time.
Definition After (t u : Z) : bool := u <? t.
Definition Before (t u : Z) : bool := t <? u.

(** [t.Truncate(d)]: year 1 began on a multiple of a minute. *)
Definition Truncate (t d : Z) : Z := t - (t - zero_time) mod d.

(** [*time.Location]: the offset from UTC, in seconds, at a second. *)
Definition Location : Type := Z → Z.
Definition UTC : Location := λ _, 0.

(** [t.Unix()], and the local time in seconds. *)
Definition unix (t : Z) : Z := t / Second.
Definition local (loc : Location) (t : Z) : Z := unix t + loc (unix t).

(** * The calendar *)

Definition leap (y : Z) : bool := (y mod 4 =? 0) && (negb (y mod 100 =? 0) || (y mod 400 =? 0)).

(** Days from January 1 of year 0 to January 1 of [y]. *)
Definition days_before_year (y : Z) : Z := 365 * y + (y + 3) / 4 - (y + 99) / 100 + (y + 399) / 400.

(** Days of a year before month [m]; [m] = 13 is the next year. *)
Definition days_before_month (lp : bool) (m : Z) : Z :=
  (if m =? 1 then 0 else if m =? 2 then 31 else if m =? 3 then 59 else if m =? 4 then 90
   else if m =? 5 then 120 else if m =? 6 then 151 else if m =? 7 then 181 else if m =? 8 then 212
   else if m =? 9 then 243 else if m =? 10 then 273 else if m =? 11 then 304 else if m =? 12 then 334 else 365)
  + (if (2 <? m) && lp then 1 else 0).

Definition epoch_day : Z := 719528.

Definition year_of_day (n : Z) : Z :=
  let y := 400 * n / 146097 in
  if n <? days_before_year y then y - 1
  else if days_before_year (y + 1) <=? n then y + 1 else y.

(** The first month that is not over on day [d] of the year. *)
Definition month_of (lp : bool) (d : Z) : Z :=
  default 12 (List.find (λ m, d <? days_before_month lp (m + 1)) [1; 2; 3; 4; 5; 6; 7; 8; 9; 10; 11]).

Record Civil := mkCivil { c_year : Z; c_month : Z; c_day : Z }.

(** The date of a day counted from 1970. *)
Definition civil_of_days (days : Z) : Civil :=
  let n := days + epoch_day in
  let y := year_of_day n in
  let d := n - days_before_year y in
  let m := month_of (leap y) d in
  mkCivil y m (d - days_before_month (leap y) m + 1).

(** The day of a date; the day may be outside the month, as in [time.Date]. *)
Definition days_of_civil (c : Civil) : Z :=
  days_before_year (c_year c) + days_before_month (leap (c_year c)) (c_month c) + c_day c - 1 - epoch_day.

(** * Fields of an instant *)

Section Fields.
Context (loc : Location).

Definition days (t : Z) : Z := local loc t / 86400.
Definition clock (t : Z) : Z := local loc t mod 86400.
Definition Year (t : Z) : Z := c_year (civil_of_days (days t)).
Definition Month (t : Z) : Z := c_month (civil_of_days (days t)).
Definition Day (t : Z) : Z := c_day (civil_of_days (days t)).
Definition HourOf (t : Z) : Z := clock t / 3600.
Definition MinuteOf (t : Z) : Z := clock t mod 3600 / 60.
Definition SecondOf (t : Z) : Z := clock t mod 60.
(** 1970 began on a Thursday. *)
Definition Weekday (t : Z) : Z := (days t + 4) mod 7.

(** [time.Date] with the month in range: the offset of the local time taken as if it were
    UTC, then the offset in force at that instant. *)
Definition Date (y m d h mi s : Z) : Z :=
  let sec := days_of_civil (mkCivil y m d) * 86400 + h * 3600 + mi * 60 + s in
  let guess := loc sec in
  let sec := if guess =? 0 then sec else sec - loc (sec - guess) in
  sec * Second.

(** [t.AddDate(0, 0, n)] of a midnight. *)
Definition AddDays (t n : Z) : Z :=
  Date (Year t) (Month t) (Day t + n) (HourOf t) (MinuteOf t) (SecondOf t).
End Fields.

(** * The calendar is right *)

Lemma year_days y : days_before_year (y + 1) = days_before_year y + 365 + (if leap y then 1 else 0).
Proof.
  unfold days_before_year, leap. destruct (y mod 4 =? 0) eqn:E4, (y mod 100 =? 0) eqn:E100, (y mod 400 =? 0) eqn:E400; simpl;
    rewrite ?Z.eqb_eq, ?Z.eqb_neq in *; zlia.
Qed.

Lemma year_mono y z : y ≤ z → days_before_year y ≤ days_before_year z.
Proof. unfold days_before_year. zlia. Qed.

(** The year of a day is the one it lies in. *)
Lemma year_of_day_spec n : days_before_year (year_of_day n) ≤ n < days_before_year (year_of_day n + 1).
Proof.
  unfold year_of_day. set (y := 400 * n / 146097).
  assert (days_before_year (y - 1) ≤ n < days_before_year (y + 2)) as [Hlo Hhi]
    by (unfold y, days_before_year; zlia).
  destruct (n <? days_before_year y) eqn:E1; [apply Z.ltb_lt in E1|apply Z.ltb_ge in E1].
  - replace (y - 1 + 1) with y by lia. lia.
  - destruct (days_before_year (y + 1) <=? n) eqn:E2; [apply Z.leb_le in E2|apply Z.leb_gt in E2; lia].
    replace (y + 1 + 1) with (y + 2) by lia. lia.
Qed.

(** A fact of the first [n] numbers, by enumeration. *)
Lemma forall_below (p : Z → bool) (n : Z) : forallb p (seqZ 0 n) = true → ∀ x, 0 ≤ x < n → p x = true.
Proof.
  rewrite forallb_forall. intros Hall x Hx. apply Hall, list_elem_of_In, elem_of_seqZ. lia.
Qed.

Lemma month_of_spec (lp : bool) d : 0 ≤ d < 365 + (if lp then 1 else 0) →
  1 ≤ month_of lp d ≤ 12 ∧ days_before_month lp (month_of lp d) ≤ d < days_before_month lp (month_of lp d + 1).
Proof.
  intros Hd. assert (((1 <=? month_of lp d) && (month_of lp d <=? 12) && (days_before_month lp (month_of lp d) <=? d) &&
    (d <? days_before_month lp (month_of lp d + 1))) = true) as Hb.
  { revert d Hd. destruct lp; apply (forall_below (λ d, _)); vm_compute; reflexivity. }
  rewrite !andb_true_iff, !Z.leb_le, Z.ltb_lt in Hb. lia.
Qed.

(** A date: a month of the year and a day of the month. *)
Definition civil_ok (c : Civil) : Prop :=
  1 ≤ c_month c ≤ 12 ∧ 
  1 ≤ c_day c ≤ days_before_month (leap (c_year c)) (c_month c + 1) - days_before_month (leap (c_year c)) (c_month c).

(** Every day has one date, and every date is one day. *)
Lemma civil_of_days_ok n : civil_ok (civil_of_days n) ∧ days_of_civil (civil_of_days n) = n.
Proof.
  pose proof (year_of_day_spec (n + epoch_day)) as Hy. rewrite year_days in Hy.
  unfold civil_of_days, civil_ok, days_of_civil. set (y := year_of_day (n + epoch_day)) in *.
  pose proof (month_of_spec (leap y) (n + epoch_day - days_before_year y)) as [Hm Hd]; [lia|].
  simpl. split; [|lia]. split; [done|]. lia.
Qed.

Lemma month_mono lp m m' : 1 ≤ m → m < m' → m' ≤ 12 → days_before_month lp (m + 1) ≤ days_before_month lp m'.
Proof.
  intros H1 H2 H3. assert (Hb : ∀ x, 0 ≤ x < 169 → implb (x / 13 <? x mod 13)
    ((days_before_month lp (x / 13 + 1) <=? days_before_month lp (x mod 13)) || (x / 13 =? 0)) = true).
  { destruct lp; apply forall_below; vm_compute; reflexivity. }
  specialize (Hb (13 * m + m')). replace ((13 * m + m') / 13) with m in Hb by zlia.
  replace ((13 * m + m') mod 13) with m' in Hb by zlia.
  rewrite (proj2 (Z.ltb_lt m m')), (proj2 (Z.eqb_neq m 0)), orb_false_r in Hb by lia. apply Z.leb_le, Hb. lia.
Qed.

(** A date is the date of its day. *)
Lemma civil_unique c c' : civil_ok c → civil_ok c' → days_of_civil c = days_of_civil c' → c = c'.
Proof.
  assert (Hin : ∀ c, civil_ok c → days_before_year (c_year c) ≤ days_of_civil c + epoch_day < days_before_year (c_year c + 1)).
  { intros [y m d] [Hm Hd]. unfold days_of_civil. simpl in *. rewrite year_days.
    assert (0 ≤ days_before_month (leap y) m ∧ days_before_month (leap y) (m + 1) ≤ 365 + (if leap y then 1 else 0)); [|lia].
    assert (Hb : ∀ x, 0 ≤ x < 12 → (0 <=? days_before_month (leap y) (x + 1)) &&
      (days_before_month (leap y) (x + 1 + 1) <=? 365 + (if leap y then 1 else 0)) = true).
    { destruct (leap y); apply forall_below; vm_compute; reflexivity. }
    specialize (Hb (m - 1)). replace (m - 1 + 1) with m in Hb by lia. rewrite andb_true_iff, !Z.leb_le in Hb. apply Hb. lia. }
  intros Hc Hc' E. pose proof (Hin c Hc) as Hy. pose proof (Hin c' Hc') as Hy'. rewrite E in Hy.
  destruct c as [y m d], c' as [y' m' d']. unfold days_of_civil in *. simpl in *.
  assert (y = y') as ->.
  { destruct (Z.lt_trichotomy y y') as [Hlt|[?|Hlt]]; [|done|]; exfalso.
    - pose proof (year_mono (y + 1) y'). lia.
    - pose proof (year_mono (y' + 1) y). lia. }
  destruct Hc as [Hm Hd], Hc' as [Hm' Hd']. simpl in *.
  assert (m = m') as ->; [|f_equal; lia].
  destruct (Z.lt_trichotomy m m') as [Hlt|[?|Hlt]]; [|done|]; exfalso.
  - pose proof (month_mono (leap y') m m'). lia.
  - pose proof (month_mono (leap y') m' m). lia.
Qed.

(** The fields of an instant stay in their ranges. *)
Lemma fields_bounds loc t : 0 ≤ MinuteOf loc t ≤ 59 ∧ 0 ≤ HourOf loc t ≤ 23 ∧ 1 ≤ Day loc t ≤ 31 ∧
  1 ≤ Month loc t ≤ 12 ∧ 0 ≤ Weekday loc t ≤ 6.
Proof.
  unfold MinuteOf, HourOf, Day, Month, Weekday. assert (0 ≤ clock loc t < 86400) by (unfold clock; zlia).
  destruct (civil_of_days_ok (days loc t)) as [[Hm Hd] _].
  assert (Hb : ∀ lp x, 0 ≤ x < 12 → (days_before_month lp (x + 1 + 1) - days_before_month lp (x + 1) <=? 31) = true).
  { intros []; apply forall_below; vm_compute; reflexivity. }
  specialize (Hb (leap (c_year (civil_of_days (days loc t)))) (c_month (civil_of_days (days loc t)) - 1)).
  replace (c_month (civil_of_days (days loc t)) - 1 + 1) with (c_month (civil_of_days (days loc t))) in Hb by lia.
  rewrite Z.leb_le in Hb. specialize (Hb ltac:(lia)). split_and!; zlia.
Qed.

Example leap_day : civil_of_days 19782 = mkCivil 2024 2 29 ∧ civil_of_days (-1) = mkCivil 1969 12 31.
Proof. vm_compute. done. Qed.
