(* ===== verification/Cron.v ===== *)
(** Cron expressions (internal/routines/cron.go): parsing of the five fields and the search
    for the next minute.

    An index out of range stops the program: the error [CPanic].  [CFuel] is no outcome of
    the code; CronProps.v shows that it does not occur. *)
From stdpp Require Import base gmap strings list.
From Stdlib Require Import Ascii String.
From S2P Require Import Prelude GoStrings Calendar.
Local Open Scope string_scope.
Local Open Scope Z_scope.

Inductive CErr := CBad | CNone | CPanic | CFuel.

(** [strings.SplitN(s, x, 2)] of a string that contains [x]. *)
Fixpoint cut_at (x : ascii) (s : string) : option (string * string) :=
  match s with
  | EmptyString => None
  | String c s' => if is_char x c then Some ("", s')
                   else '(a, b) ← cut_at x s'; Some (String c a, b)
  end.

Abbreviation Atoi := ParseInt.

(** The part of [a-b/n] after the slash: the step, and what is before it. *)
Definition part_step (part : string) : option (string * Z) :=
  match cut_at "/" part with
  | Some (rangePart, n) => n ← Atoi n; if n <=? 0 then None else Some (rangePart, n)
  | None => Some (part, 1)
  end.

Definition part_bounds (rangePart : string) (min max : Z) : option (Z * Z) :=
  if rangePart == "*" then Some (min, max)
  else
    match cut_at "-" rangePart with
    | Some (x, y) =>
        a ← Atoi x; b ← Atoi y;
        if (a <? min) || (max <? b) || (b <? a) then None else Some (a, b)
    | None => a ← Atoi rangePart; if (a <? min) || (max <? a) then None else Some (a, a)
    end.

(** [for i := start; i <= end; i += step { ok[i] = true }], on 64-bit integers. *)
Fixpoint fill (fuel : nat) (ok : list bool) (i end_ step : Z) : res CErr (list bool) :=
  match fuel with
  | O => Err CFuel
  | S fuel =>
      if end_ <? i then Ok ok
      else if (0 <=? i) && (i <? Z.of_nat (List.length ok))
      then fill fuel (<[Z.to_nat i := true]> ok) (i64 (i + step)) end_ step
      else Err CPanic
  end.

Fixpoint cron_parts (parts : list string) (ok : list bool) (min max : Z) : res CErr (list bool) :=
  match parts with
  | [] => Ok ok
  | part :: parts =>
      match part_step part with
      | None => Err CBad
      | Some (rangePart, step) =>
          match part_bounds rangePart min max with
          | None => Err CBad
          | Some (start, end_) =>
              match fill (Z.to_nat (max + 3)) ok start end_ step with
              | Ok ok => cron_parts parts ok min max
              | Err e => Err e
              end
          end
      end
  end.

Definition parseCronField (field : string) (min max : Z) : res CErr (list bool) :=
  let ok := replicate (Z.to_nat (max + 1)) false in
  if field == "*" then fill (Z.to_nat (max + 3)) ok min max 1
  else cron_parts (split_on "," field) ok min max.

(** The parsed fields; a star in the day fields is remembered. *)
Record CronFields := mkCron {
  cf_minute : list bool; cf_hour : list bool; cf_dom : list bool; cf_month : list bool; cf_dow : list bool;
  cf_anyDom : bool; cf_anyDow : bool }.

Definition is_panic {A} (r : res CErr A) : bool := match r with Err CPanic | Err CFuel => true | _ => false end.

Definition parse_cron (expr : string) : res CErr CronFields :=
  match Fields expr with
  | [f0; f1; f2; f3; f4] =>
      let minute := parseCronField f0 0 59 in
      let hour := parseCronField f1 0 23 in
      let dom := parseCronField f2 1 31 in
      let month := parseCronField f3 1 12 in
      let dow := parseCronField f4 0 6 in
      if is_panic minute || is_panic hour || is_panic dom || is_panic month || is_panic dow then Err CPanic
      else
        match minute, hour, dom, month, dow with
        | Ok minute, Ok hour, Ok dom, Ok month, Ok dow =>
            Ok (mkCron minute hour dom month dow (f2 == "*") (f4 == "*"))
        | _, _, _, _, _ => Err CBad
        end
  | _ => Err CBad
  end.

Definition at_index (l : list bool) (i : Z) : bool := default false (l !! Z.to_nat i).

(** The test of the loop of [NextCron]. *)
Definition cron_match (f : CronFields) (loc : Location) (t : Z) : bool :=
  if negb (at_index (cf_minute f) (MinuteOf loc t)) then false
  else if negb (at_index (cf_hour f) (HourOf loc t)) then false
  else if negb (at_index (cf_month f) (Month loc t)) then false
  else
    if negb (cf_anyDom f) && negb (cf_anyDow f)
    then at_index (cf_dom f) (Day loc t) || at_index (cf_dow f) (Weekday loc t)
    else (cf_anyDom f || at_index (cf_dom f) (Day loc t)) && (cf_anyDow f || at_index (cf_dow f) (Weekday loc t)).

Definition cron_step (f : CronFields) (loc : Location) (limit t : Z) : Z + res CErr Z :=
  if After t limit then inr (Err CNone)
  else if cron_match f loc t then inr (Ok t)
  else inl (t + Minute).

Definition cron_start (from : Z) : Z := Truncate from Minute + Minute.
Definition cron_horizon : Z := 400 * 24 * Hour.

(** One round per minute of the 400 days. *)
Definition NextCron (expr : string) (loc : Location) (from : Z) : res CErr Z :=
  match parse_cron expr with
  | Err e => Err e
  | Ok f =>
      let t := cron_start from in
      match loop (cron_step f loc (t + cron_horizon)) 576002 t with
      | inr r => r
      | inl _ => Err CFuel
      end
  end.

(** [time.Parse(time.RFC3339, ...)] *)
Class TimeText := { parse_RFC3339 : string → option Z }.

Definition NextExpression `{TimeText} (expr : string) (loc : Location) (from : Z) : res CErr Z :=
  let expr := TrimSpace expr in
  if HasPrefix expr "once:" then
    match parse_RFC3339 (TrimPrefix expr "once:") with
    | Some due => if After due from then Ok due else Err CBad
    | None => Err CBad
    end
  else NextCron expr loc from.
