(* ===== verification/CronProps.v ===== *)
(** Theorems about cron expressions: a field denotes the numbers its parts name, and
    [NextCron] returns the first minute that matches. *)
From stdpp Require Import base gmap strings list.
From Stdlib Require Import Ascii String.
From S2P Require Import Prelude GoStrings Calendar Cron.
Local Open Scope string_scope.
Local Open Scope Z_scope.

(** * What a field denotes *)

Definition in_part (min max : Z) (i : Z) (part : string) : bool :=
  match part_step part with
  | Some (rangePart, step) =>
      match part_bounds rangePart min max with
      | Some (start, end_) => (start <=? i) && (i <=? end_) && ((i - start) mod step =? 0)
      | None => false
      end
  | None => false
  end.

Definition in_field (field : string) (min max i : Z) : bool :=
  if field == "*" then (min <=? i) && (i <=? max) else existsb (in_part min max i) (split_on "," field).

(** A part whose step can overflow the loop variable. *)
Definition wide_step (max : Z) (part : string) : bool :=
  match part_step part with Some (_, step) => 2 ^ 63 - 1 - max <? step | None => false end.

Lemma part_bounds_range rangePart min max start end_ :
  part_bounds rangePart min max = Some (start, end_) → min ≤ max → min ≤ start ∧ end_ ≤ max ∧ start ≤ end_.
Proof.
  unfold part_bounds. destruct (rangePart == "*"); [intros [= <- <-]; lia|].
  destruct (cut_at "-" rangePart) as [[x y]|].
  - destruct (Atoi x) as [a|]; [|done]. destruct (Atoi y) as [b|]; [|done]. simpl.
    destruct (_ || _) eqn:Hc; [done|]. intros [= <- <-]. guards. lia.
  - destruct (Atoi rangePart) as [a|]; [|done]. simpl. destruct (_ || _) eqn:Hc; [done|]. intros [= <- <-]. guards. lia.
Qed.

Lemma ParseInt_range s n : ParseInt s = Some n → n < 2 ^ 63.
Proof.
  unfold ParseInt. intros Hn. assert (Hb : ∀ neg s, (if s == "" then None else v ← digits_value 0 s;
    let v := if (neg : bool) then (- v)%Z else v in
    if (v <? - 2 ^ 63)%Z || (2 ^ 63 - 1 <? v)%Z then None else Some v) = Some n → n < 2 ^ 63).
  { intros neg s'. destruct (s' == ""); [done|]. destruct (digits_value 0 s') as [v|]; [|done]. simpl.
    destruct (_ || _) eqn:Hc; [done|]. intros [= <-]. guards. lia. }
  destruct s as [|c s']; [done|]. destruct (is_char "-" c); [by apply (Hb true s')|].
  destruct (is_char "+" c); [by apply (Hb false s')|by apply (Hb false (String c s'))].
Qed.

Lemma part_step_range part rangePart step : part_step part = Some (rangePart, step) → 0 < step < 2 ^ 63.
Proof.
  unfold part_step. destruct (cut_at "/" part) as [[x y]|]; [|intros [= <- <-]; lia].
  destruct (Atoi y) as [n|] eqn:Hn; [|done]. simpl. destruct (n <=? 0) eqn:H0; [done|]. intros [= <- <-].
  apply ParseInt_range in Hn. guards. lia.
Qed.

(** The multiples of [step] from [i], one by one. *)
Lemma next_multiple i j end_ step : 0 < step → i ≤ end_ →
  (i =? j) || ((i + step <=? j) && (j <=? end_) && ((j - (i + step)) mod step =? 0)) =
  (i <=? j) && (j <=? end_) && ((j - i) mod step =? 0).
Proof.
  intros Hs Hi. replace (j - (i + step)) with (j - i + (-1) * step) by lia. rewrite Z_mod_plus_full.
  destruct (i =? j) eqn:E; guards.
  - subst. rewrite Z.sub_diag, Zmod_0_l, (proj2 (Z.leb_le j end_)), Z.leb_refl by done. done.
  - simpl. destruct ((j - i) mod step =? 0) eqn:Em; [|by rewrite !andb_false_r]. rewrite !andb_true_r. f_equal.
    guards. apply eq_true_iff_eq. rewrite !Z.leb_le. split; [lia|]. intros Hij.
    apply Z.mod_divide in Em as [q Hq]; [|lia]. assert (1 ≤ q) by nia. nia.
Qed.

(** The loop that marks a range: it marks every [step]-th number, or the loop variable
    overflows. *)
Lemma fill_spec fuel ok i end_ step max :
  0 ≤ i → end_ ≤ max → max < 2 ^ 62 → 0 < step < 2 ^ 63 → Z.of_nat (List.length ok) = max + 1 →
  Z.max 0 (end_ - i + 1) + 1 ≤ Z.of_nat fuel →
  match fill fuel ok i end_ step with
  | Ok ok' => List.length ok' = List.length ok ∧
      ∀ j, 0 ≤ j ≤ max → at_index ok' j = at_index ok j || ((i <=? j) && (j <=? end_) && ((j - i) mod step =? 0))
  | Err e => e = CPanic ∧ 2 ^ 63 - 1 - max < step
  end.
Proof.
  revert ok i. induction fuel as [|fuel IH]; intros ok i Hi He Hmax Hst Hlen Hfuel; simpl fill; [lia|].
  destruct (end_ <? i) eqn:Hend; guards.
  { split; [done|]. intros j Hj. destruct ((i <=? j) && (j <=? end_)) eqn:E; guards; [lia|]. by rewrite orb_false_r. }
  rewrite (proj2 (Z.leb_le 0 i)), (proj2 (Z.ltb_lt i _)) by lia. simpl.
  set (ok1 := <[Z.to_nat i := true]> ok).
  assert (Hl : List.length ok1 = List.length ok) by apply length_insert.
  assert (Hmark : ∀ j, 0 ≤ j ≤ max → at_index ok1 j = at_index ok j || (i =? j)).
  { intros j Hj. unfold at_index, ok1. destruct (i =? j) eqn:E; guards.
    - subst. rewrite list_lookup_insert_eq by lia. by rewrite orb_true_r.
    - rewrite list_lookup_insert_ne by lia. by rewrite orb_false_r. }
  destruct (decide (i + step < 2 ^ 63)) as [Hno|Hover].
  - rewrite i64_id by (unfold in_i64; lia). specialize (IH ok1 (i + step)).
    destruct (fill fuel ok1 (i + step) end_ step) as [ok'|e]; [|apply IH; lia].
    destruct IH as [Hl' Hj']; try lia. split; [congruence|]. intros j Hj. rewrite Hj', Hmark by done.
    rewrite <- (next_multiple i j end_ step) by lia. by rewrite orb_assoc.
  - assert (i64 (i + step) = i + step - 2 ^ 64) as ->.
    { unfold i64. replace (i + step + 2 ^ 63) with (i + step - 2 ^ 63 + 1 * 2 ^ 64) by lia.
      rewrite Z_mod_plus_full, Z.mod_small by lia. lia. }
    destruct fuel as [|fuel]; [lia|]. simpl fill. rewrite (proj2 (Z.ltb_ge end_ _)), (proj2 (Z.leb_gt 0 _)) by lia. simpl.
    split; [done|]. lia.
Qed.

Lemma cron_parts_spec parts ok min max :
  0 ≤ min ≤ max → max < 2 ^ 62 → Z.of_nat (List.length ok) = max + 1 →
  match cron_parts parts ok min max with
  | Ok ok' => Z.of_nat (List.length ok') = max + 1 ∧
      ∀ j, 0 ≤ j ≤ max → at_index ok' j = at_index ok j || existsb (in_part min max j) parts
  | Err e => e = CBad ∨ e = CPanic ∧ existsb (wide_step max) parts = true
  end.
Proof.
  intros Hm Hmax. revert ok. induction parts as [|part parts IH]; intros ok Hlen; simpl.
  { split; [done|]. intros. by rewrite orb_false_r. }
  unfold in_part at 1, wide_step at 1.
  destruct (part_step part) as [[rangePart step]|] eqn:Hp; [|by left]. apply part_step_range in Hp as Hst.
  destruct (part_bounds rangePart min max) as [[start end_]|] eqn:Hb; [|by left].
  apply part_bounds_range in Hb as Hr; [|lia].
  pose proof (fill_spec (Z.to_nat (max + 3)) ok start end_ step max) as Hf.
  destruct (fill _ ok start end_ step) as [ok1|e].
  - destruct Hf as [Hl Hj]; try lia. specialize (IH ok1 ltac:(lia)). destruct (cron_parts parts ok1 min max) as [ok2|e].
    + destruct IH as [Hl2 Hj2]. split; [done|]. intros j Hjr. rewrite Hj2, Hj by done. by rewrite orb_assoc.
    + destruct IH as [?|[? Hw]]; [by left|]. right. split; [done|]. by rewrite Hw, orb_true_r.
  - right. destruct Hf as [-> Hw]; try lia. split; [done|]. by rewrite (proj2 (Z.ltb_lt _ _)) by done.
Qed.

(** A parsed field has the numbers it denotes; a field is refused, or its step is so
    large that the program stops. *)
Lemma parse_field_spec field min max : 0 ≤ min ≤ max → max < 2 ^ 62 →
  match parseCronField field min max with
  | Ok ok => ∀ j, 0 ≤ j ≤ max → at_index ok j = in_field field min max j
  | Err e => e = CBad ∨ e = CPanic ∧ existsb (wide_step max) (split_on "," field) = true
  end.
Proof.
  intros Hm Hmax. unfold parseCronField, in_field.
  assert (Hlen : Z.of_nat (List.length (replicate (Z.to_nat (max + 1)) false)) = max + 1) by (rewrite length_replicate; lia).
  assert (Hf : ∀ j, at_index (replicate (Z.to_nat (max + 1)) false) j = false).
  { intros j. unfold at_index. destruct (replicate _ _ !! _) as [x|] eqn:E; [|done]. by apply lookup_replicate in E as [-> _]. }
  destruct (field == "*") eqn:Hstar.
  - pose proof (fill_spec (Z.to_nat (max + 3)) (replicate (Z.to_nat (max + 1)) false) min max 1 max) as Hs.
    destruct (fill _ _ min max 1) as [ok|e]; [|destruct Hs; lia]. destruct Hs as [_ Hj]; try lia.
    intros j Hjr. rewrite Hj, Hf, Z.mod_1_r, andb_true_r by done. done.
  - pose proof (cron_parts_spec (split_on "," field) _ min max Hm Hmax Hlen) as Hs.
    destruct (cron_parts _ _ min max) as [ok|e]; [|done]. destruct Hs as [_ Hj]. intros j Hjr. by rewrite Hj, Hf.
Qed.

(** * When an expression is due *)

(** With both day fields given, one of them is enough. *)
Definition cron_due (fields : list string) (loc : Location) (t : Z) : bool :=
  match fields with
  | [minute; hour; dom; month; dow] =>
      in_field minute 0 59 (MinuteOf loc t) && in_field hour 0 23 (HourOf loc t) && in_field month 1 12 (Month loc t) &&
      if (dom == "*") || (dow == "*")
      then in_field dom 1 31 (Day loc t) && in_field dow 0 6 (Weekday loc t)
      else in_field dom 1 31 (Day loc t) || in_field dow 0 6 (Weekday loc t)
  | _ => false
  end.

(** Some part of a field has a step no calendar needs. *)
Definition huge_step (expr : string) : Prop :=
  ∃ field part rangePart step, field ∈ Fields expr ∧ part ∈ split_on "," field ∧
    part_step part = Some (rangePart, step) ∧ 2 ^ 63 - 60 < step.

Lemma wide_huge expr field max : field ∈ Fields expr → max ≤ 59 →
  existsb (wide_step max) (split_on "," field) = true → huge_step expr.
Proof.
  intros Hin Hmax (part & Hp%list_elem_of_In & Hw)%existsb_exists. unfold wide_step in Hw.
  destruct (part_step part) as [[r step]|] eqn:E; [|done]. guards. exists field, part, r, step. split_and!; try done. lia.
Qed.

Lemma in_star min max i : min ≤ i ≤ max → in_field "*" min max i = true.
Proof. intros Hi. unfold in_field. simpl. by rewrite !(proj2 (Z.leb_le _ _)) by lia. Qed.

Lemma parse_cron_spec expr :
  match parse_cron expr with
  | Ok f => ∀ loc t, cron_match f loc t = cron_due (Fields expr) loc t
  | Err e => e = CBad ∨ e = CPanic ∧ huge_step expr
  end.
Proof.
  unfold parse_cron. destruct (Fields expr) as [|f0 [|f1 [|f2 [|f3 [|f4 [|]]]]]] eqn:Hfs; try by left.
  pose proof (parse_field_spec f0 0 59 ltac:(lia) ltac:(lia)) as S0.
  pose proof (parse_field_spec f1 0 23 ltac:(lia) ltac:(lia)) as S1.
  pose proof (parse_field_spec f2 1 31 ltac:(lia) ltac:(lia)) as S2.
  pose proof (parse_field_spec f3 1 12 ltac:(lia) ltac:(lia)) as S3.
  pose proof (parse_field_spec f4 0 6 ltac:(lia) ltac:(lia)) as S4.
  assert (Hw : ∀ f (max : Z) e, f ∈ [f0; f1; f2; f3; f4] → max ≤ 59 →
    e = CBad ∨ e = CPanic ∧ existsb (wide_step max) (split_on "," f) = true → e = CPanic ∨ e = CFuel → huge_step expr).
  { intros f max e Hf Hm [->|[_ Hwide]]; [by intros [|]|]. intros _. eapply wide_huge; [by rewrite Hfs|done|done]. }
  destruct (is_panic _ || _ || _ || _ || _) eqn:Hpanic.
  - right. split; [done|]. rewrite !orb_true_iff in Hpanic.
    destruct Hpanic as [[[[H|H]|H]|H]|H]; unfold is_panic in H;
      [destruct (parseCronField f0 0 59) as [|[]] eqn:?|destruct (parseCronField f1 0 23) as [|[]] eqn:?
      |destruct (parseCronField f2 1 31) as [|[]] eqn:?|destruct (parseCronField f3 1 12) as [|[]] eqn:?
      |destruct (parseCronField f4 0 6) as [|[]] eqn:?]; try done; (eapply Hw; [| |eassumption|]; [set_solver|lia|auto]).
  - clear Hpanic. destruct (parseCronField f0 0 59) as [minute|], (parseCronField f1 0 23) as [hour|],
      (parseCronField f2 1 31) as [dom|], (parseCronField f3 1 12) as [month|], (parseCronField f4 0 6) as [dow|];
      try by left.
    intros loc t. pose proof (fields_bounds loc t) as (Hmi & Hh & Hd & Hmo & Hwd). unfold cron_match, cron_due.
    cbn [cf_minute cf_hour cf_dom cf_month cf_dow cf_anyDom cf_anyDow].
    rewrite S0, S1, S2, S3, S4 by lia.
    destruct (in_field f0 0 59 _), (in_field f1 0 23 _), (in_field f3 1 12 _); simpl; try done.
    destruct (f2 == "*") eqn:E2, (f4 == "*") eqn:E4; guards; subst; simpl; rewrite ?in_star by lia; done.
Qed.

(** * The search *)

Lemma minute_divides : zero_time mod Minute = 0.
Proof. vm_compute. reflexivity. Qed.

(** The starts of minutes are the multiples of a minute. *)
Definition on_minute (t : Z) : Prop := t mod Minute = 0.

Lemma truncate_spec t : on_minute (Truncate t Minute) ∧ Truncate t Minute ≤ t < Truncate t Minute + Minute.
Proof.
  unfold Truncate, on_minute. pose proof minute_divides as Hz. unfold zero_time, Minute, Second in *. split; zlia.
Qed.

Lemma next_minute t u : on_minute t → on_minute u → t < u → t + Minute ≤ u.
Proof. unfold on_minute, Minute, Second. zlia. Qed.

Lemma cron_start_spec from : on_minute (cron_start from) ∧ from < cron_start from ≤ from + Minute ∧
  ∀ u, on_minute u → from < u → cron_start from ≤ u.
Proof.
  destruct (truncate_spec from) as [Hon Hr]. unfold cron_start. split_and!; [|lia..|].
  - unfold on_minute in *. rewrite <- (Z.mul_1_l Minute) at 2. by rewrite Z_mod_plus_full.
  - intros u Hu Hfu. apply next_minute; [done..|lia].
Qed.

(** What the search leaves with. *)
Definition cron_result (f : CronFields) (loc : Location) (t : Z) (r : res CErr Z) : Prop :=
  match r with
  | Ok u => on_minute u ∧ t ≤ u ≤ t + cron_horizon ∧ cron_match f loc u = true ∧
      ∀ v, on_minute v → t ≤ v < u → cron_match f loc v = false
  | Err e => e = CNone ∧ ∀ v, on_minute v → t ≤ v ≤ t + cron_horizon → cron_match f loc v = false
  end.

(** The search over the minutes of the horizon, exhaustive and always finished. *)
Lemma cron_loop_spec f loc t : on_minute t →
  match loop (cron_step f loc (t + cron_horizon)) 576002 t with inr r => cron_result f loc t r | inl _ => False end.
Proof.
  intros Ht. set (I := λ (k : nat) u, u = t + Z.of_nat k * Minute ∧ Z.of_nat k ≤ 576001 ∧
    ∀ v, on_minute v → t ≤ v < u → cron_match f loc v = false).
  assert (Hon : ∀ k : nat, on_minute (t + Z.of_nat k * Minute)).
  { intros k. unfold on_minute in *. by rewrite Z_mod_plus_full. }
  assert (Hhor : cron_horizon = 576000 * Minute) by reflexivity. assert (0 < Minute) by reflexivity.
  assert (Hstep : ∀ k u, I k u → match cron_step f loc (t + cron_horizon) u with
    | inl u' => I (S k) u' | inr r => cron_result f loc t r end).
  { intros k u (-> & Hk & Hno). unfold cron_step, After. destruct (_ <? _) eqn:Hlim; guards.
    { split; [done|]. intros v Hv Hr. apply Hno; [done|]. lia. }
    destruct (cron_match f loc (t + Z.of_nat k * Minute)) eqn:Hm.
    { split_and!; [apply Hon|lia..|done|done]. }
    assert (Z.of_nat k ≤ 576000) by nia. split_and!; [lia..|]. intros v Hv Hr.
    destruct (decide (v < t + Z.of_nat k * Minute)) as [?|Hge]; [by apply Hno; [|lia]|].
    destruct (decide (v = t + Z.of_nat k * Minute)) as [->|Hne]; [done|].
    pose proof (next_minute (t + Z.of_nat k * Minute) v (Hon k) Hv). lia. }
  pose proof (loop_inv (cron_step f loc (t + cron_horizon)) I (cron_result f loc t) 576002 t) as Hl.
  destruct (loop _ 576002 t) as [u|r].
  - destruct Hl as (_ & Hk & _); [split_and!; [lia..|]; intros v _ ?; lia|by intros; apply Hstep|].
    assert (Z.of_nat (Pos.to_nat 576002) = 576002) by (rewrite positive_nat_Z; done). lia.
  - apply Hl; [split_and!; [lia..|]; intros v _ ?; lia|]. by intros; apply Hstep.
Qed.

(** C26. [NextCron] always returns, with the first minute after [from] that the expression
    names in the location, and within 400 days; it says there is none only when no minute
    of the 400 days is due; and it refuses an expression, or runs out of range, only when
    the expression does not parse or has a step that overflows a 64-bit loop variable. *)
Theorem next_cron_least expr loc from :
  match NextCron expr loc from with
  | Ok t => on_minute t ∧ from < t ≤ from + Minute + cron_horizon ∧ cron_due (Fields expr) loc t = true ∧
      ∀ u, on_minute u → from < u < t → cron_due (Fields expr) loc u = false
  | Err CNone => ∀ u, on_minute u → from < u ≤ from + cron_horizon → cron_due (Fields expr) loc u = false
  | Err CBad => parse_cron expr = Err CBad
  | Err CPanic => huge_step expr
  | Err CFuel => False
  end.
Proof.
  unfold NextCron. pose proof (parse_cron_spec expr) as Hp. destruct (parse_cron expr) as [f|e] eqn:Hpe.
  2:{ destruct Hp as [->|[-> ?]]; done. }
  destruct (cron_start_spec from) as (Hon & Hs & Hnext). pose proof (cron_loop_spec f loc (cron_start from) Hon) as Hl.
  destruct (loop _ 576002 (cron_start from)) as [|[t|e]]; [done| |].
  - destruct Hl as (Ht & Hr & Hm & Hno). split_and!; [done|lia..| |].
    + by rewrite <- Hp.
    + intros u Hu Hur. rewrite <- Hp. apply Hno; [done|]. split; [by apply Hnext; [|lia]|lia].
  - destruct Hl as [-> Hno]. intros u Hu Hur. rewrite <- Hp. apply Hno; [done|]. split; [by apply Hnext; [|lia]|lia].
Qed.

(** The fields and the loop are separate, so that an expression can be searched by
    reasoning. *)
Lemma NextCron_none expr loc from f :
  parse_cron expr = Ok f →
  (∀ t, on_minute t → from < t ≤ from + Minute + cron_horizon → cron_due (Fields expr) loc t = false) →
  NextCron expr loc from = Err CNone.
Proof.
  intros Hp Hno. unfold NextCron. rewrite Hp. pose proof (parse_cron_spec expr) as Hm. rewrite Hp in Hm.
  destruct (cron_start_spec from) as (Hon & Hs & _). pose proof (cron_loop_spec f loc (cron_start from) Hon) as Hl.
  destruct (loop _ _ _) as [|[t|e]]; [done| |by destruct Hl as [-> _]].
  destruct Hl as (Ht & Hr & Hmt & _). rewrite Hm, Hno in Hmt; done || lia.
Qed.

Example huge_step_panics : NextCron "0 0 */9223372036854775807 * *" UTC 0 = Err CPanic.
Proof. vm_compute. reflexivity. Qed.

Example quarter_hours : NextCron "*/15 9-17 * * 1-5" UTC (Date UTC 2024 3 1 17 50 0) = Ok (Date UTC 2024 3 4 9 0 0).
Proof. vm_compute. reflexivity. Qed.

(** After a leap day the next one is out of the horizon. *)
Definition leap_start : Z := Date UTC 2028 2 29 0 0 0.

Lemma leap_day_not_found : NextCron "0 0 29 2 *" UTC leap_start = Err CNone.
Proof.
  destruct (parse_cron "0 0 29 2 *") as [f|e] eqn:Hp; [|vm_compute in Hp; discriminate Hp].
  eapply NextCron_none; [exact Hp|]. intros t Hon Ht.
  assert (Fields "0 0 29 2 *" = ["0"; "0"; "29"; "2"; "*"]) as -> by (vm_compute; reflexivity).
  assert (Hat : ∀ x n (min max i : Z), in_field x min max i = true → split_on "," x = [x] →
    part_step x = Some (x, 1) → part_bounds x min max = Some (n, n) → x ≠ "*" → i = n).
  { intros x n min max i Hf Hs Hst Hb Hx. unfold in_field in Hf. rewrite bool_decide_eq_false_2, Hs in Hf by done.
    simpl in Hf. unfold in_part in Hf. rewrite Hst, Hb in Hf. rewrite orb_false_r, !andb_true_iff, !Z.leb_le in Hf. lia. }
  unfold cron_due. apply not_true_is_false. rewrite !andb_true_iff. intros [[[Hmi Hh] Hmo] Hd].
  change (("29" == "*") || ("*" == "*")) with true in Hd. cbv iota in Hd. apply andb_true_iff in Hd as [Hd _].
  apply (Hat _ 0) in Hmi; [|done..]. apply (Hat _ 0) in Hh; [|done..]. apply (Hat _ 2) in Hmo; [|done..].
  apply (Hat _ 29) in Hd; [|done..].
  assert (Hls : leap_start = 21243 * 86400 * Second) by (vm_compute; reflexivity).
  assert (Hdays : 21243 ≤ days UTC t ≤ 21644).
  { unfold days, local, unix, UTC, cron_horizon, Hour, Minute, Second in *. zlia. }
  assert (Hmid : days UTC t ≠ 21243).
  { intros E. unfold MinuteOf, HourOf, clock, on_minute, days, local, unix, UTC, Minute, Second in *. zlia. }
  assert (Hb : ∀ x, 0 ≤ x < 401 → negb ((c_month (civil_of_days (x + 21244)) =? 2) && (c_day (civil_of_days (x + 21244)) =? 29)) = true).
  { apply forall_below. vm_compute. reflexivity. }
  specialize (Hb (days UTC t - 21244) ltac:(lia)). replace (days UTC t - 21244 + 21244) with (days UTC t) in Hb by lia.
  unfold Month, Day in *. rewrite Hmo, Hd in Hb. done.
Qed.
