(* ===== verification/RoutineTypes.v ===== *)
(** The records of routines (commodel/routine.go, commodel/delivery.go, identity/identity.go):
    schedules, their occurrences and the jobs these carry.

    A schedule and a job share the fields that say where and for whom the work is done
    ([Routing]).  Fields that the modelled operations only carry along unread (probes,
    quiet hours, provenance) are left out. *)
From stdpp Require Import base gmap strings list.
From Stdlib Require Import Ascii String.
From S2P Require Import Prelude GoStrings Calendar.
Local Open Scope string_scope.

Record Envelope := mkEnvelope {
  e_Schema : Z;
  e_PrincipalID : string;
  e_ExternalIdentityID : string;
  e_ContextID : string;
  e_RuntimeID : string;
  e_ConversationID : string;
  e_DeliveryTargetID : string;
  e_PolicyVersion : string;
  e_Organization : string;
  e_CapabilityProfile : string;
  e_Environment : string;
  e_Generation : Z;
  e_Scopes : list string;
}.
Global Instance Envelope_eq_dec : EqDecision Envelope.
Proof. solve_decision. Defined.

Record Routing := mkRouting {
  ro_OrganizationID : string;
  ro_UserID : string;
  ro_ActorID : string;
  ro_ScopeID : string;
  ro_Channel : string;
  ro_ChatID : Z;
  ro_TaskID : string;
  ro_TopicID : Z;
  ro_SlackChannel : string;
  ro_SlackThread : string;
  ro_AssignmentID : string;
  ro_AssignmentPlanRevision : Z;
}.
Global Instance Routing_eq_dec : EqDecision Routing.
Proof. solve_decision. Defined.

Record RoutineWindow := mkWindow { w_From : string; w_To : string }.
Global Instance RoutineWindow_eq_dec : EqDecision RoutineWindow.
Proof. solve_decision. Defined.

Record RoutineTiming := mkTiming {
  t_Windows : list RoutineWindow;
  t_At : list string;
  t_Weekdays : list Z;
  t_StartAt : Z;
  t_EndAt : Z;
}.

Record Schedule := mkSchedule {
  s_ScheduleID : string;
  s_Revision : Z;
  s_Envelope : Envelope;
  s_Routing : Routing;
  s_Timezone : string;
  s_Expression : string;
  s_Timing : option RoutineTiming;
  s_IntervalAnchor : Z;
  s_JobKind : string;
  s_SnoozedUntil : Z;
  s_Input : string;
  s_Enabled : bool;
  s_Paused : bool;
  s_NextDue : Z;
  s_LastOccurrenceID : string;
  s_LastFailureSHA256 : string;
  s_PendingFailureSHA256 : string;
  s_BlockedAt : Z;
  s_BlockedReason : string;
  s_CatchUpWindow : Z;
  s_Delivery : string;
  s_UpdatedAt : Z;
}.

Record Job := mkJob {
  j_Envelope : Envelope;
  j_Routing : Routing;
  j_ID : string;
  j_Text : string;
  j_Sensitive : bool;
  j_Trigger : string;
  j_IdempotencyKey : string;
  j_CreatedAt : Z;
  j_OperationalEpoch : Z;
  j_MessageID : Z;
  j_InboundID : string;
  j_TextSHA256 : string;
  j_GoalEpoch : Z;
  j_TokenEstimate : Z;
}.

Record RoutineOccurrence := mkOccurrence {
  o_ScheduleID : string;
  o_Revision : Z;
  o_DueAt : Z;
  o_Job : Job;
  o_JobKind : string;
  o_CatchUpWindow : Z;
  o_State : string;
}.

(** [DefaultCatchUp] *)
Definition DefaultCatchUp : Z := Hour.

(** [IDPattern]: [^[A-Za-z0-9._-]+$] *)
Definition IDPattern (s : string) : bool :=
  (s != "") && str_forallb (λ c, is_lower c || is_upper c || is_digit c || is_char "." c || is_char "_" c || is_char "-" c) s.

(** SHA-256 in hexadecimal, and [strconv.FormatUint] and RFC 3339 texts. *)
Class RoutineWorld := {
  r_sha256_hex : string → string;
  format_RFC3339Nano : Z → string;
  ParseDuration : string → option Z;
}.

(** [FileID] *)
Definition FileID `{RoutineWorld} (id : string) : string :=
  if IDPattern id then id else "id-" ++ r_sha256_hex id.

(** [TerminalStatus] *)
Definition TerminalStatus (status : string) : bool :=
  (status == "completed") || (status == "failed") || (status == "cancelled") || (status == "interrupted").
