(* ===== verification/Timing.v ===== *)
(** The next slot of a schedule (internal/routines/timing.go): intervals with windows,
    weekdays, extra times and bounds, or a cron expression. *)
From stdpp Require Import base gmap strings list.
From Stdlib Require Import Ascii String.
From S2P Require Import Prelude GoStrings Calendar Cron RoutineTypes.
Local Open Scope string_scope.
Local Open Scope Z_scope.

Inductive TErr := TBad | TExhausted | TCron (e : CErr).

(** [time.Parse("15:04", s)]: one or two digits, a colon, two digits. *)
Definition parse_clock (s : string) : option (Z * Z) :=
  let digit c := if is_digit c then Some (code c - 48) else None in
  let minute s :=
    match s with
    | String a (String b EmptyString) => x ← digit a; y ← digit b; Some (10 * x + y)
    | _ => None
    end in
  let build h rest := m ← minute rest; if (h <? 24) && (m <? 60) then Some (h, m) else None in
  match s with
  | String a (String b (String c rest)) =>
      if is_char ":" b then h ← digit a; build h (String c rest)
      else if is_char ":" c then x ← digit a; y ← digit b; build (10 * x + y) rest
      else None
  | _ => None
  end.

(** [t.Format("15:04")] *)
Definition clock_text (loc : Location) (t : Z) : string :=
  pad2 (Z.to_nat (HourOf loc t)) ++ ":" ++ pad2 (Z.to_nat (MinuteOf loc t)).

(** [t.Sub(u)], which does not overflow. *)
Definition Sub (t u : Z) : Z := Z.max (- 2 ^ 63) (Z.min (2 ^ 63 - 1) (t - u)).

(** The first [t + k * d] after [from]; the distance is an [int64]. *)
Definition skip_past (t from d : Z) : Z :=
  if After t from then t else t + i64 ((Sub from t ÷ d + 1) * d).

(** The checks of a timing. *)
Definition timing_ok (every stream : bool) (tm : RoutineTiming) : bool :=
  every && negb stream &&
  (Z.of_nat (List.length (t_Windows tm)) <=? 8) && (Z.of_nat (List.length (t_At tm)) <=? 24) &&
  negb (negb (IsZero (t_EndAt tm)) && negb (IsZero (t_StartAt tm)) && negb (After (t_EndAt tm) (t_StartAt tm))) &&
  forallb (λ w, (0 <=? w) && (w <=? 6)) (t_Weekdays tm) && bool_decide (NoDup (t_Weekdays tm)) &&
  forallb (λ w, w_From w != w_To w) (t_Windows tm) && bool_decide (NoDup (t_Windows tm)) &&
  bool_decide (NoDup (t_At tm)).

Section Interval.
Context (p : RoutineTiming) (loc : Location) (from d : Z).

Definition allowed (t : Z) : bool :=
  bool_decide (t_Weekdays p = []) || existsb (λ w, Weekday loc t =? w) (t_Weekdays p).

(** [take]: the earliest slot so far; the zero time when there is none. *)
Definition take_slot (best t : Z) : Z :=
  if After t from && (IsZero (t_StartAt p) || negb (Before t (t_StartAt p)))
     && (IsZero (t_EndAt p) || Before t (t_EndAt p)) && (IsZero best || Before t best)
  then t else best.

(** The loop without windows, from the anchor on. *)
Definition anchored_step (s : Z * Z) : (Z * Z) + Z :=
  let '(n, t) := s in
  if negb ((n <? 576001) && (Sub t from <=? 401 * 24 * Hour)) then inr zero_time
  else if negb (IsZero (t_EndAt p)) && negb (Before t (t_EndAt p)) then inr zero_time
  else if allowed t then inr (take_slot zero_time t)
  else inl (n + 1, t + d).

Definition anchored (anchor : Z) : Z :=
  let t := skip_past (if IsZero anchor then from else anchor) from d in
  match loop anchored_step 576002 (0, t) with inr best => best | inl _ => zero_time end.

(** The slots of a window: local clock times from [wallStart] to before [wallEnd]. *)
Definition window_step (end_ wallStart wallEnd best t : Z) : Z + Z :=
  if negb (Before t end_) then inr best
  else
    let wall := Date UTC (Year loc t) (Month loc t) (Day loc t) (HourOf loc t) (MinuteOf loc t) (SecondOf loc t) in
    if negb (Before wall wallStart) && Before wall wallEnd then inr (take_slot best t)
    else inl (t + d).

Definition window_slot (day : Z) (best : Z) (w : RoutineWindow) : res TErr Z :=
  match parse_clock (w_From w), parse_clock (w_To w) with
  | Some (ah, am), Some (bh, bm) =>
      let at_day l dd h m := Date l (Year loc dd) (Month loc dd) (Day loc dd) h m 0 in
      let overnight := bh * 60 + bm <? ah * 60 + am in
      let start := at_day loc day ah am in
      let end_ := if overnight then at_day loc (AddDays loc day 1) bh bm else at_day loc day bh bm in
      let wallStart := at_day UTC day ah am in
      let wallEnd := at_day UTC day bh bm in
      let wallEnd := if overnight then AddDays UTC wallEnd 1 else wallEnd in
      let shift := Z.abs (loc (unix (start - 48 * Hour)) - loc (unix (end_ + 48 * Hour))) * Second in
      let end_ := end_ + shift in
      let t := skip_past start from d in
      match loop (window_step end_ wallStart wallEnd best) (Z.to_pos ((end_ - t) / d + 2)) t with
      | inr best => Ok best
      | inl _ => Ok best
      end
  | _, _ => Err TBad
  end.

(** An extra time; a local time that occurs twice or not at all is looked for around. *)
Definition extra_slot (day : Z) (best : Z) (v : string) : res TErr Z :=
  match parse_clock v with
  | None => Err TBad
  | Some (h, m) =>
      let t := Date loc (Year loc day) (Month loc day) (Day loc day) h m 0 in
      let best := if clock_text loc t == v then take_slot best t else best in
      let same_day u := (Year loc u =? Year loc day) && (Month loc u =? Month loc day) && (Day loc u =? Day loc day) in
      Ok (foldl (λ best delta,
                   let other := t + delta in
                   if same_day other && (clock_text loc other == v) then take_slot best other else best)
            best [-2 * Hour; - Hour; -30 * Minute; 30 * Minute; Hour; 2 * Hour])
  end.

Fixpoint slots {A} (step : Z → A → res TErr Z) (l : list A) (best : Z) : res TErr Z :=
  match l with
  | [] => Ok best
  | a :: l => match step best a with Ok best => slots step l best | Err e => Err e end
  end.

(** One round of the loop over the days. *)
Definition day_step (s : Z * Z) : (Z * Z) + res TErr Z :=
  let '(day, best) := s in
  if negb (IsZero best) && After day best || negb (IsZero (t_EndAt p)) && After day (t_EndAt p) then inr (Ok best)
  else if negb (allowed day) then inl (AddDays loc day 1, best)
  else
    match slots (window_slot day) (t_Windows p) best with
    | Err e => inr (Err e)
    | Ok best =>
        match slots (extra_slot day) (t_At p) best with
        | Err e => inr (Err e)
        | Ok best => inl (AddDays loc day 1, best)
        end
    end.
End Interval.

Definition zero_timing : RoutineTiming := mkTiming [] [] [] zero_time zero_time.

(** [NextSchedule] *)
Definition NextSchedule `{RoutineWorld} `{TimeText} (s : Schedule) (loc : Location) (from : Z) : res TErr Z :=
  let every := HasPrefix (TrimSpace (s_Expression s)) "every:" in
  let stream := s_Delivery s == "stream" in
  if every && stream then Err TBad
  else if match s_Timing s with Some tm => negb (timing_ok every stream tm) | None => false end then Err TBad
  else if negb every then
    match NextExpression (s_Expression s) loc from with Ok t => Ok t | Err e => Err (TCron e) end
  else
    match ParseDuration (TrimPrefix (TrimSpace (s_Expression s)) "every:") with
    | None => Err TBad
    | Some d =>
        if (d <? Minute) || (365 * 24 * Hour <? d) || negb (d mod Second =? 0) then Err TBad
        else
          let p := default zero_timing (s_Timing s) in
          let from := if negb (IsZero (t_StartAt p)) && Before from (t_StartAt p) then t_StartAt p - 1 else from in
          let day := AddDays loc (Date loc (Year loc from) (Month loc from) (Day loc from) 0 0 0) (-1) in
          let best := if bool_decide (t_Windows p = []) then anchored p loc from d (s_IntervalAnchor s) else zero_time in
          let result :=
            match loop (day_step p loc from d) 403 (day, best) with
            | inr r => r
            | inl (_, best) => Ok best
            end in
          match result with
          | Err e => Err e
          | Ok best => if IsZero best then Err TExhausted else Ok best
          end
    end.
