(* ===== verification/TimingProps.v ===== *)
(** Theorems about the next slot of a schedule: it is later than the instant asked for and
    within its bounds, its loops end, and a plain interval keeps to its anchor. *)
From stdpp Require Import base gmap strings list.
From Stdlib Require Import Ascii String.
From S2P Require Import Prelude GoStrings Calendar Cron CronProps RoutineTypes Timing.
Local Open Scope string_scope.
Local Open Scope Z_scope.

(** A slot a schedule may have: after [from], not before its start and before its end. *)
Definition slot_ok (p : RoutineTiming) (from t : Z) : Prop :=
  from < t ∧ (IsZero (t_StartAt p) = false → t_StartAt p ≤ t) ∧ (IsZero (t_EndAt p) = false → t < t_EndAt p).

Definition best_ok (p : RoutineTiming) (from best : Z) : Prop := best = zero_time ∨ slot_ok p from best.

Section Interval.
Context (p : RoutineTiming) (loc : Location) (from d : Z).

Lemma take_slot_ok best t : best_ok p from best → best_ok p from (take_slot p from best t).
Proof.
  intros Hb. unfold take_slot, After, Before. destruct (_ && _) eqn:Hc; [|done]. guards. right. split; [lia|].
  split; intros Hz; rewrite Hz in *; simpl in *; guards; lia.
Qed.

Lemma anchored_ok anchor : best_ok p from (anchored p loc from d anchor).
Proof.
  unfold anchored. set (t := skip_past _ _ _).
  pose proof (loop_inv (anchored_step p loc from d) (λ _ _, True) (best_ok p from) 576002 (0, t)) as Hl.
  destruct (loop _ _ _) as [|best]; [by left|]. apply Hl; [done|]. intros k [n u] _ _. unfold anchored_step.
  destruct (negb _); [by left|]. destruct (_ && _); [by left|]. destruct (allowed p loc u); [|done].
  apply take_slot_ok. by left.
Qed.

Lemma slots_ok {A} (step : Z → A → res TErr Z) l best :
  (∀ b a, best_ok p from b → match step b a with Ok b' => best_ok p from b' | Err _ => True end) →
  best_ok p from best → match slots step l best with Ok b' => best_ok p from b' | Err _ => True end.
Proof.
  intros Hs. revert best. induction l as [|a l IH]; intros best Hb; simpl; [done|].
  specialize (Hs best a Hb). destruct (step best a); [by apply IH|done].
Qed.

Lemma window_slot_ok day best w : best_ok p from best →
  match window_slot p loc from d day best w with Ok b' => best_ok p from b' | Err _ => True end.
Proof.
  intros Hb. unfold window_slot. destruct (parse_clock (w_From w)) as [[ah am]|]; [|done].
  destruct (parse_clock (w_To w)) as [[bh bm]|]; [|done].
  match goal with |- context [loop ?f ?n ?t] => pose proof (loop_inv f (λ _ _, True) (best_ok p from) n t) as Hl end.
  destruct (loop _ _ _) as [|best']; [done|]. apply Hl; [done|]. intros k t _ _. unfold window_step.
  destruct (negb _); [done|]. destruct (_ && _); [by apply take_slot_ok|done].
Qed.

Lemma extra_slot_ok day best v : best_ok p from best →
  match extra_slot p loc from day best v with Ok b' => best_ok p from b' | Err _ => True end.
Proof.
  intros Hb. unfold extra_slot. destruct (parse_clock v) as [[h m]|]; [|done].
  set (t := Date _ _ _ _ _ _ _). assert (Hb1 : best_ok p from (if clock_text loc t == v then take_slot p from best t else best))
    by (destruct (_ == _); [by apply take_slot_ok|done]).
  revert Hb1. generalize (if clock_text loc t == v then take_slot p from best t else best).
  generalize [-2 * Hour; - Hour; -30 * Minute; 30 * Minute; Hour; 2 * Hour].
  induction l as [|delta l IH]; intros b Hb1; simpl; [done|]. apply IH. destruct (_ && _); [by apply take_slot_ok|done].
Qed.

Lemma days_ok day best : best_ok p from best →
  match loop (day_step p loc from d) 403 (day, best) with
  | inr (Ok b') => best_ok p from b' | inr (Err _) => True | inl (_, b') => best_ok p from b' end.
Proof.
  intros Hb. pose proof (loop_inv (day_step p loc from d) (λ _ s, best_ok p from s.2)
    (λ r, match r with Ok b' => best_ok p from b' | Err _ => True end) 403 (day, best)) as Hl.
  destruct (loop _ _ _) as [[day' best']|r]; apply Hl; try done; clear Hl.
  all: intros k [day1 best1] _ Hb1; unfold day_step; simpl in Hb1; destruct (_ || _); [done|];
    destruct (negb (allowed p loc day1)); [done|];
    pose proof (slots_ok (window_slot p loc from d day1) (t_Windows p) best1 (window_slot_ok day1) Hb1) as Hw;
    destruct (slots (window_slot p loc from d day1) (t_Windows p) best1) as [best2|]; [|done];
    pose proof (slots_ok (extra_slot p loc from day1) (t_At p) best2 (extra_slot_ok day1) Hw) as He;
    by destruct (slots (extra_slot p loc from day1) (t_At p) best2).
Qed.

(** The loops leave before their fuel is used up. *)
Lemma window_finishes end_ wallStart wallEnd best t : 0 < d →
  ∃ b, loop (window_step p loc from d end_ wallStart wallEnd best) (Z.to_pos ((end_ - t) / d + 2)) t = inr b.
Proof.
  intros Hd. set (fuel := Z.to_pos ((end_ - t) / d + 2)).
  pose proof (loop_inv (window_step p loc from d end_ wallStart wallEnd best)
    (λ k u, u = t + Z.of_nat k * d ∧ (k = 0%nat ∨ t + (Z.of_nat k - 1) * d < end_)) (λ _, True) fuel t) as Hl.
  destruct (loop _ fuel t) as [last|b]; [|by exists b]. exfalso. destruct Hl as [_ Hk]; [split; [lia|by left]| |].
  { intros k u _ [-> _]. unfold window_step, Before. destruct (negb _) eqn:He; [done|]. guards.
    destruct (_ && _); [done|]. split; [lia|]. right. replace (Z.of_nat (S k) - 1) with (Z.of_nat k) by lia. lia. }
  destruct Hk as [E|Hk]; [lia|]. rewrite positive_nat_Z in Hk.
  destruct (decide (0 < (end_ - t) / d + 2)) as [Hpos|Hneg].
  - unfold fuel in Hk. rewrite Z2Pos.id in Hk by done. pose proof (Z.mod_pos_bound (end_ - t) d Hd).
    pose proof (Z.div_mod (end_ - t) d ltac:(lia)). nia.
  - assert (fuel = 1%positive) as E by (unfold fuel; destruct ((end_ - t) / d + 2); simpl; lia). rewrite E in Hk.
    assert (end_ - t < 0); [|lia]. apply Z.nle_gt. intros Hle. pose proof (Z.div_pos (end_ - t) d Hle Hd). lia.
Qed.

Lemma anchored_finishes t : ∃ b, loop (anchored_step p loc from d) 576002 (0, t) = inr b.
Proof.
  pose proof (loop_inv (anchored_step p loc from d) (λ k s, s.1 = Z.of_nat k ∧ Z.of_nat k ≤ 576001) (λ _, True) 576002 (0, t)) as Hl.
  destruct (loop _ 576002 (0, t)) as [s|b]; [|by exists b]. exfalso. destruct Hl as [_ Hk]; [done| |].
  { intros k [n u] _ [Hn Hk]. simpl in Hn. subst n. unfold anchored_step. destruct (negb _) eqn:Hc; [done|]. guards.
    destruct (_ && _); [done|]. destruct (allowed p loc u); [done|]. simpl. lia. }
  rewrite positive_nat_Z in Hk. lia.
Qed.
End Interval.

Section Next.
Context `{RoutineWorld} `{TimeText}.

(** The next slot is in the future, and a bounded schedule stays within its bounds. *)
Lemma next_schedule_after s loc from t : NextSchedule s loc from = Ok t →
  from < t ∧ (HasPrefix (TrimSpace (s_Expression s)) "every:" = true →
    ∀ p, s_Timing s = Some p → (IsZero (t_StartAt p) = false → t_StartAt p ≤ t) ∧ (IsZero (t_EndAt p) = false → t < t_EndAt p)).
Proof.
  unfold NextSchedule. destruct (HasPrefix (TrimSpace (s_Expression s)) "every:") eqn:Hev; simpl.
  - destruct (s_Delivery s == "stream"); [done|].
    destruct (match s_Timing s with Some tm => _ | None => false end); [done|].
    destruct (ParseDuration _) as [d|]; [|done]. destruct (_ || _); [done|].
    set (p := default zero_timing (s_Timing s)).
    assert (Hfrom : from ≤ (if negb (IsZero (t_StartAt p)) && Before from (t_StartAt p) then t_StartAt p - 1 else from)).
    { unfold Before. destruct (IsZero (t_StartAt p)); simpl; [lia|]. destruct (from <? t_StartAt p) eqn:E; guards; lia. }
    set (from' := if _ && _ then _ else _) in *. clearbody from'.
    set (best := if bool_decide _ then _ else _).
    assert (Hbest : best_ok p from' best) by (unfold best; case_bool_decide; [apply anchored_ok|by left]).
    set (day := AddDays _ _ _). pose proof (days_ok p loc from' d day best Hbest) as Hd.
    assert (Hend : ∀ b, best_ok p from' b → (if IsZero b then Err TExhausted else Ok b) = Ok t → slot_ok p from' t).
    { intros b [->|Hs]; [done|]. destruct (IsZero b); [done|]. by intros [= <-]. }
    assert (Hfin : slot_ok p from' t → from < t ∧ (true = true → ∀ p0, s_Timing s = Some p0 →
      (IsZero (t_StartAt p0) = false → t_StartAt p0 ≤ t) ∧ (IsZero (t_EndAt p0) = false → t < t_EndAt p0))).
    { intros (H1 & H2 & H3). split; [lia|]. intros _ p0 Hp. unfold p in *. rewrite Hp in *. done. }
    destruct (loop _ 403 (day, best)) as [[day' b]|[b|e]]; intros Hr; [by eapply Hfin, Hend| |done]. by eapply Hfin, Hend.
  - destruct (match s_Timing s with Some tm => _ | None => false end); [done|].
    destruct (NextExpression (s_Expression s) loc from) as [u|e] eqn:Hn; [|done]. intros [= <-]. split; [|done].
    unfold NextExpression in Hn. destruct (HasPrefix _ "once:").
    + destruct (parse_RFC3339 _) as [due|]; [|done]. unfold After in Hn. destruct (_ <? _) eqn:E; [|done].
      injection Hn as <-. by apply Z.ltb_lt.
    + unfold NextCron in Hn.
      destruct (parse_cron _) as [f|]; [|done]. destruct (cron_start_spec from) as (Hon & Hs & _).
      pose proof (cron_loop_spec f loc (cron_start from) Hon) as Hl.
      destruct (loop _ _ _) as [|r]; [done|]. subst r. destruct Hl as (_ & Hr & _). lia.
Qed.

(** Nothing is taken on the way through the days when there are no windows and times. *)
Lemma days_plain p loc from d day best : t_Windows p = [] → t_At p = [] →
  match loop (day_step p loc from d) 403 (day, best) with inr r => r | inl (_, b) => Ok b end = Ok best.
Proof.
  intros Hw Ha. pose proof (loop_inv (day_step p loc from d) (λ _ s, s.2 = best) (λ r, r = Ok best) 403 (day, best)) as Hl.
  assert (Hstep : ∀ s, s.2 = best → match day_step p loc from d s with inl s' => s'.2 = best | inr r => r = Ok best end).
  { intros [day1 best1] Hb. simpl in Hb. subst best1. unfold day_step. destruct (_ || _); [done|].
    destruct (negb _); [done|]. rewrite Hw, Ha. done. }
  destruct (loop _ _ _) as [[day' b]|r].
  - f_equal. apply Hl; [done|]. intros. by apply Hstep.
  - apply Hl; [done|]. intros. by apply Hstep.
Qed.

(** A plain interval: the first multiple of it after [from], counted from the anchor. *)
Lemma interval_next s loc from d :
  HasPrefix (TrimSpace (s_Expression s)) "every:" = true → s_Delivery s ≠ "stream" → s_Timing s = None →
  ParseDuration (TrimPrefix (TrimSpace (s_Expression s)) "every:") = Some d →
  Minute ≤ d ≤ 365 * 24 * Hour → d mod Second = 0 → 0 ≤ from →
  let a := if IsZero (s_IntervalAnchor s) then from else s_IntervalAnchor s in
  a ≤ from → from - a + d < 2 ^ 63 →
  ∃ k, NextSchedule s loc from = Ok (a + k * d) ∧ a + (k - 1) * d ≤ from < a + k * d.
Proof.
  intros Hev Hst Htm Hpd Hd Hds H0' a Ha Hsub. unfold NextSchedule. rewrite Hev, Htm, Hpd. cbn [andb negb].
  rewrite bool_decide_eq_false_2 by done.
  rewrite (proj2 (Z.ltb_ge d _)), (proj2 (Z.ltb_ge _ d)), (proj2 (Z.eqb_eq _ _) Hds) by lia.
  cbn [orb negb default]. cbv zeta. cbn [t_StartAt t_Windows zero_timing]. change (IsZero zero_time) with true. cbn [andb negb].
  change (bool_decide ([] = [])) with true. cbv iota.
  rewrite days_plain by done. exists ((from - a) / d + 1).
  assert (Hdp : 0 < d) by (unfold Minute, Second in *; lia).
  pose proof (Z.div_mod (from - a) d ltac:(lia)) as Hdm. pose proof (Z.mod_pos_bound (from - a) d Hdp) as Hmb.
  set (t := a + ((from - a) / d + 1) * d).
  assert (Hskip : skip_past a from d = t).
  { unfold skip_past, After, Sub. rewrite (proj2 (Z.ltb_ge from a)) by lia. unfold t.
    rewrite Z.min_r, Z.max_r by lia. rewrite Z.quot_div_nonneg by lia. rewrite i64_id; [done|]. unfold in_i64. nia. }
  assert (Ht : from < t ≤ from + d) by (unfold t; lia).
  assert (anchored zero_timing loc from d (s_IntervalAnchor s) = t) as ->.
  { unfold anchored. fold a. rewrite Hskip. rewrite (loop_first _ _ _ t); [done|]. unfold anchored_step, Sub.
    rewrite (proj2 (Z.ltb_lt _ _)), (proj2 (Z.leb_le _ _)) by (unfold Hour, Minute, Second in *; lia). cbn [andb negb].
    unfold take_slot, After, Before. rewrite (proj2 (Z.ltb_lt from t)) by lia. done. }
  unfold IsZero. rewrite (proj2 (Z.eqb_neq _ _)) by (unfold zero_time, Second; lia). split; [done|]. unfold t. lia.
Qed.
End Next.
