(* ===== verification/Schedules.v ===== *)
(** The schedule engine (internal/routines/schedules.go, occurrences.go, ids.go): ticking,
    settling, blocking, pausing, deleting and snoozing schedules.

    The spool is the part of the directory tree the engine works in, file by file; a record
    that cannot be decoded is [None].  Every file call can fail.  The queue, the outbox and
    the channels are the owner's ([RoutineDeps]). *)
From stdpp Require Import base gmap strings list pretty sorting.
From Stdlib Require Import Ascii String.
From S2P Require Import Prelude GoStrings BrokerIdentity Contract Calendar Cron RoutineTypes Timing.
Local Open Scope string_scope.
Local Open Scope Z_scope.

(** * identity.go and envstore.go *)

(** [^[a-z][a-z0-9-]{0,31}$] *)
Definition scopePattern (s : string) : bool :=
  match_ident is_lower (λ c, is_lower c || is_digit c || is_char "-" c) 31 s.

(** [Envelope.Validate] *)
Definition Envelope_Validate (e : Envelope) (principal context runtime policy : string) : bool :=
  (e_Schema e =? 1) &&
  forallb ValidID [e_PrincipalID e; e_ExternalIdentityID e; e_ContextID e; e_RuntimeID e; e_ConversationID e;
                   e_DeliveryTargetID e; e_PolicyVersion e] &&
  ((e_Organization e == "") || ValidID (e_Organization e)) &&
  (e_PrincipalID e == principal) && (e_ContextID e == context) && (e_RuntimeID e == runtime) &&
  (e_PolicyVersion e == policy) &&
  (if (e_CapabilityProfile e != "") || (e_Environment e != "") || negb (e_Generation e =? 0)
   then ValidID (e_CapabilityProfile e) && ((e_Environment e == "dev") || (e_Environment e == "prod"))
        && negb (e_Generation e =? 0)
   else true) &&
  (Z.of_nat (List.length (e_Scopes e)) <=? 8) && forallb scopePattern (e_Scopes e).

(** [keyPattern]: [^[A-Z][A-Z0-9_]*$] *)
Definition keyPattern (s : string) : bool :=
  match s with
  | String c s' => is_upper c && str_forallb (λ c, is_upper c || is_digit c || is_char "_" c) s'
  | EmptyString => false
  end.

(** [LooksLikeEnv] *)
Definition env_line (raw : string) : bool :=
  let line := TrimSpace raw in
  if (line == "") || HasPrefix line "#" then false
  else
    let key_before x := match cut_at x line with Some (key, _) => keyPattern (TrimSpace key) | None => false end in
    key_before "="%char || key_before ":"%char || (Contains line "_" && keyPattern line).
Definition LooksLikeEnv (text : string) : bool := existsb env_line (split_on LF text).

(** * The spool *)

Record Notice := mkNotice {
  n_ID : string; n_Routing : Routing; n_ConversationID : string; n_DeliveryTargetID : string;
  n_Text : string; n_CreatedAt : Z }.

Inductive SErr := SIO | SInvalid | SNotFound | SNotOwned | SRevision | SSnooze | STiming (e : TErr).

(** What [Deps.LoadMapping] says of a job. *)
Inductive Mapping := NoMapping | BadMapping | HasStatus (status : string).

Class RoutineDeps := {
  host_ok : nat → bool;                                        (** whether a file call succeeds *)
  clock_now : nat → Z;                                         (** [time.Now] *)
  LoadLocation : string → option Location;
  channelFor : string → option (RoutineOccurrence → Envelope → bool);   (** [ValidateOccurrence] *)
  RouteBlockedNotice : Schedule → Notice → Notice;
  normalizeDelivery : Notice → option Notice;
  EnqueueDelivery : Notice → bool;
  LoadMapping : string → Mapping;
  blocked_text : string → string → string → string;            (** principal, schedule, reason *)
}.

Record Spool := mkSpool {
  sp_schedules : gmap string (option Schedule);                (** schedules/<id>.json *)
  sp_deleted : gmap string Schedule;                           (** schedules/<id>.deleted *)
  sp_bad : gset string;                                        (** schedules/quarantine *)
  sp_occ : gmap string (option RoutineOccurrence);             (** occurrences/<id>.json *)
  sp_receipts : gset string;
  sp_archive : gset string;
  sp_quarantine : gset string;                                 (** occurrences/quarantine *)
  sp_jobs : gset string;                                       (** pending and running jobs *)
  sp_outbox : list Notice;
  sp_calls : nat;
}.

Definition set_schedules m w := mkSpool m (sp_deleted w) (sp_bad w) (sp_occ w) (sp_receipts w) (sp_archive w)
  (sp_quarantine w) (sp_jobs w) (sp_outbox w) (sp_calls w).
Definition set_deleted m w := mkSpool (sp_schedules w) m (sp_bad w) (sp_occ w) (sp_receipts w) (sp_archive w)
  (sp_quarantine w) (sp_jobs w) (sp_outbox w) (sp_calls w).
Definition set_bad m w := mkSpool (sp_schedules w) (sp_deleted w) m (sp_occ w) (sp_receipts w) (sp_archive w)
  (sp_quarantine w) (sp_jobs w) (sp_outbox w) (sp_calls w).
Definition set_occ m w := mkSpool (sp_schedules w) (sp_deleted w) (sp_bad w) m (sp_receipts w) (sp_archive w)
  (sp_quarantine w) (sp_jobs w) (sp_outbox w) (sp_calls w).
Definition set_quarantine m w := mkSpool (sp_schedules w) (sp_deleted w) (sp_bad w) (sp_occ w) (sp_receipts w)
  (sp_archive w) m (sp_jobs w) (sp_outbox w) (sp_calls w).
Definition set_outbox m w := mkSpool (sp_schedules w) (sp_deleted w) (sp_bad w) (sp_occ w) (sp_receipts w)
  (sp_archive w) (sp_quarantine w) (sp_jobs w) m (sp_calls w).
Definition tick_call w := mkSpool (sp_schedules w) (sp_deleted w) (sp_bad w) (sp_occ w) (sp_receipts w)
  (sp_archive w) (sp_quarantine w) (sp_jobs w) (sp_outbox w) (S (sp_calls w)).

(** * Updates of a schedule *)

Definition with_slot (enabled paused : bool) (next now : Z) (s : Schedule) : Schedule :=
  mkSchedule (s_ScheduleID s) (s_Revision s) (s_Envelope s) (s_Routing s) (s_Timezone s) (s_Expression s)
    (s_Timing s) (s_IntervalAnchor s) (s_JobKind s) (s_SnoozedUntil s) (s_Input s) enabled paused next
    (s_LastOccurrenceID s) (s_LastFailureSHA256 s) (s_PendingFailureSHA256 s) (s_BlockedAt s)
    (s_BlockedReason s) (s_CatchUpWindow s) (s_Delivery s) now.
Definition with_revision (rev now : Z) (s : Schedule) : Schedule :=
  mkSchedule (s_ScheduleID s) rev (s_Envelope s) (s_Routing s) (s_Timezone s) (s_Expression s) (s_Timing s)
    (s_IntervalAnchor s) (s_JobKind s) (s_SnoozedUntil s) (s_Input s) (s_Enabled s) (s_Paused s)
    (s_NextDue s) (s_LastOccurrenceID s) (s_LastFailureSHA256 s) (s_PendingFailureSHA256 s) (s_BlockedAt
    s) (s_BlockedReason s) (s_CatchUpWindow s) (s_Delivery s) now.
Definition with_last (id : string) (s : Schedule) : Schedule :=
  mkSchedule (s_ScheduleID s) (s_Revision s) (s_Envelope s) (s_Routing s) (s_Timezone s) (s_Expression s)
    (s_Timing s) (s_IntervalAnchor s) (s_JobKind s) (s_SnoozedUntil s) (s_Input s) (s_Enabled s)
    (s_Paused s) (s_NextDue s) id (s_LastFailureSHA256 s) (s_PendingFailureSHA256 s) (s_BlockedAt s)
    (s_BlockedReason s) (s_CatchUpWindow s) (s_Delivery s) (s_UpdatedAt s).
Definition with_block (reason : string) (now : Z) (s : Schedule) : Schedule :=
  mkSchedule (s_ScheduleID s) (s_Revision s) (s_Envelope s) (s_Routing s) (s_Timezone s) (s_Expression s)
    (s_Timing s) (s_IntervalAnchor s) (s_JobKind s) (s_SnoozedUntil s) (s_Input s) (s_Enabled s)
    (s_Paused s) (s_NextDue s) (s_LastOccurrenceID s) (s_LastFailureSHA256 s) (s_PendingFailureSHA256 s)
    now reason (s_CatchUpWindow s) (s_Delivery s) now.
Definition with_failure (last pending : string) (now : Z) (s : Schedule) : Schedule :=
  mkSchedule (s_ScheduleID s) (s_Revision s) (s_Envelope s) (s_Routing s) (s_Timezone s) (s_Expression s)
    (s_Timing s) (s_IntervalAnchor s) (s_JobKind s) (s_SnoozedUntil s) (s_Input s) (s_Enabled s)
    (s_Paused s) (s_NextDue s) (s_LastOccurrenceID s) last pending (s_BlockedAt s) (s_BlockedReason s)
    (s_CatchUpWindow s) (s_Delivery s) now.
Definition with_snooze (until : Z) (expr : string) (s : Schedule) : Schedule :=
  mkSchedule (s_ScheduleID s) (s_Revision s) (s_Envelope s) (s_Routing s) (s_Timezone s) expr (s_Timing s)
    (s_IntervalAnchor s) (s_JobKind s) until (s_Input s) (s_Enabled s) (s_Paused s) (s_NextDue s)
    (s_LastOccurrenceID s) (s_LastFailureSHA256 s) (s_PendingFailureSHA256 s) (s_BlockedAt s)
    (s_BlockedReason s) (s_CatchUpWindow s) (s_Delivery s) (s_UpdatedAt s).

(** [EffectiveNextDue] *)
Definition EffectiveNextDue (s : Schedule) : Z :=
  if negb (IsZero (s_NextDue s)) && Before (s_NextDue s) (s_SnoozedUntil s) then s_SnoozedUntil s else s_NextDue s.

(** The order of a directory listing. *)
Definition file_le (a b : string) : Prop := str_le (a ++ ".json") (b ++ ".json").
Global Instance file_le_dec : RelDecision file_le := λ a b, str_le_dec (a ++ ".json") (b ++ ".json").

(** * ids.go *)

Section Engine.
Context `{RoutineWorld} `{TimeText} `{RoutineDeps} `{Unicode}.
Abbreviation T := (M Spool SErr).

Definition NULs : string := String NUL "".

(** [occurrenceID] *)
Definition occurrence_key (id : string) (rev due : Z) : string :=
  "routine-" ++ r_sha256_hex (id ++ NULs ++ pretty rev ++ NULs ++ format_RFC3339Nano due).
Definition occurrenceID (o : RoutineOccurrence) : string :=
  occurrence_key (o_ScheduleID o) (o_Revision o) (o_DueAt o).

(** [ValidateOccurrence] *)
Definition ValidateOccurrence (o : RoutineOccurrence) (caller : Envelope) : bool :=
  let job := o_Job o in
  let env := j_Envelope job in
  if (80 <? len (o_ScheduleID o)) || negb (IDPattern (o_ScheduleID o)) || (o_Revision o =? 0) || IsZero (o_DueAt o)
     || (caller != env)
     || negb (Envelope_Validate caller (ro_UserID (j_Routing job)) (e_ContextID env) (e_RuntimeID env) (e_PolicyVersion env))
     || (ro_ActorID (j_Routing job) != e_PrincipalID caller)
     || (ro_ScopeID (j_Routing job) != "user:" ++ ro_UserID (j_Routing job)) then false
  else
    match channelFor (ro_Channel (j_Routing job)) with
    | None => false
    | Some ch =>
        if negb (ch o caller) then false
        else negb ((TrimSpace (j_Text job) == "") || (64 * 1024 <? len (j_Text job)) || j_Sensitive job
                   || LooksLikeEnv (j_Text job))
    end.

(** * Files *)

(** A file call. *)
Definition call : T unit := λ w, (if host_ok (sp_calls w) then Ok tt else Err SIO, tick_call w).

Definition now_ : T Z := λ w, (Ok (clock_now (sp_calls w)), w).

(** [LoadScheduleLocked] *)
Definition LoadScheduleLocked (id : string) : T Schedule :=
  call ;;
  w ← get;
  r ← some_or (sp_schedules w !! FileID id) SNotFound;
  item ← some_or r SInvalid;
  fail_if (s_ScheduleID item == "") SInvalid ;;
  mret item.

(** [atomicJSON]: the file is replaced by a rename, and the sync of its directory can still
    fail afterwards. *)
Definition atomicJSON (write : Spool → Spool) : T unit := call ;; modify write ;; call.

(** [atomicJSON(SchedulePath(...), item)] *)
Definition save (item : Schedule) : T unit :=
  atomicJSON (λ w, set_schedules (<[FileID (s_ScheduleID item) := Some item]> (sp_schedules w)) w).

Definition quarantineScheduleLocked (name : string) : T unit :=
  call ;; call ;; modify (λ w, set_bad ({[name]} ∪ sp_bad w) (set_schedules (delete name (sp_schedules w)) w)).

Definition quarantineOccurrenceLocked (id : string) : T unit :=
  call ;; call ;; modify (λ w, set_quarantine ({[id]} ∪ sp_quarantine w) (set_occ (delete id (sp_occ w)) w)).

(** * Settling and blocking *)

Definition is_once (item : Schedule) : bool := HasPrefix (TrimSpace (s_Expression item)) "once:".

Definition settleScheduleLocked (item : Schedule) (loc : Location) (now : Z) : T unit :=
  if is_once item then save (with_slot false true zero_time now item)
  else
    match NextSchedule item loc now with
    | Err TExhausted => save (with_slot false true zero_time now item)
    | Err e => mthrow_err (STiming e)
    | Ok next => save (with_slot (s_Enabled item) (s_Paused item) next now item)
    end.

Definition block_digest (item : Schedule) (reason : string) : string :=
  r_sha256_hex ("blocked" ++ NULs ++ s_ScheduleID item ++ NULs ++ reason).

Definition block_notice (item : Schedule) (reason : string) (now : Z) : Notice :=
  mkNotice ("routine-blocked-" ++ s_ScheduleID item ++ "-" ++ substring 0 8 (block_digest item reason))
    (s_Routing item) (e_ConversationID (s_Envelope item)) (e_DeliveryTargetID (s_Envelope item))
    (blocked_text (e_PrincipalID (s_Envelope item)) (s_ScheduleID item) reason) now.

(** [BlockScheduleLocked] *)
Definition BlockScheduleLocked (item : Schedule) (reason : string) (now : Z) : T unit :=
  let item := with_block reason now item in
  let digest := block_digest item reason in
  if s_LastFailureSHA256 item != digest then
    let item := with_failure digest (s_PendingFailureSHA256 item) now item in
    let d := block_notice item reason now in
    let d := match channelFor (ro_Channel (s_Routing item)) with Some _ => RouteBlockedNotice item d | None => d end in
    match normalizeDelivery d with
    | Some d => fail_if (negb (EnqueueDelivery d)) SIO ;; modify (λ w, set_outbox (sp_outbox w ++ [d])%list w)
    | None => mret tt
    end ;;
    save item
  else save item.

(** * Ticking *)

(** The guard of the tick. *)
Definition due_now (item : Schedule) (now : Z) : bool :=
  negb ((s_BlockedReason item != "") || Before now (s_SnoozedUntil item) || negb (s_Enabled item) || s_Paused item
        || IsZero (s_NextDue item) || Before now (s_NextDue item) || (s_Delivery item == "stream")).

Definition window_of (w : Z) : Z := if w <=? 0 then DefaultCatchUp else w.

(** Whether the last occurrence still runs. *)
Definition outstanding (last : RoutineOccurrence) (now : Z) : T bool :=
  if (o_State last == "dispatched") && (o_JobKind last == "agent") then
    match LoadMapping (j_ID (o_Job last)) with
    | BadMapping => mthrow_err SIO
    | HasStatus status => mret (negb (TerminalStatus status))
    | NoMapping => call ;; call ;; w ← get; mret (bool_decide (FileID (j_ID (o_Job last)) ∈ sp_jobs w))
    end
  else if (o_JobKind last == "reminder") && (o_State last == "pending")
  then mret (Sub now (o_DueAt last) <=? window_of (o_CatchUpWindow last))
  else mret ((o_State last == "pending") || (o_State last == "probing") || (o_State last == "scripting")).

(** What the last occurrence says: [true] when the schedule is done for this tick. *)
Definition check_last (item : Schedule) (loc : Location) (now : Z) : T bool :=
  let id := s_LastOccurrenceID item in
  if id == "" then mret false
  else if negb (IDPattern id) || (160 <? len id)
  then BlockScheduleLocked item "invalid last occurrence reference" now ;; mret true
  else
    call ;;
    w ← get;
    match sp_occ w !! id with
    | None => mret false
    | Some r =>
        match r with
        | Some last =>
            if j_ID (o_Job last) != id
            then quarantineOccurrenceLocked id ;; settleScheduleLocked item loc now ;; mret true
            else
              running ← outstanding last now;
              if (o_Revision last =? s_Revision item) && running
              then settleScheduleLocked item loc now ;; mret true
              else mret false
        | None => quarantineOccurrenceLocked id ;; settleScheduleLocked item loc now ;; mret true
        end
    end.

(** The occurrence of a slot. *)
Definition slot_occurrence (item : Schedule) (due now : Z) : RoutineOccurrence :=
  let window := window_of (s_CatchUpWindow item) in
  let id := occurrence_key (s_ScheduleID item) (s_Revision item) due in
  mkOccurrence (s_ScheduleID item) (s_Revision item) due
    (mkJob (s_Envelope item) (s_Routing item) id (s_Input item) false "cron" id due 0 0 "" "" 0 0)
    (s_JobKind item) window (if window <? Sub now due then "missed" else "pending").

(** The occurrence as it is validated, before it has its id and state. *)
Definition draft_occurrence (item : Schedule) (due : Z) : RoutineOccurrence :=
  mkOccurrence (s_ScheduleID item) (s_Revision item) due
    (mkJob (s_Envelope item) (s_Routing item) "" (s_Input item) false "cron" "" zero_time 0 0 "" "" 0 0)
    (s_JobKind item) (window_of (s_CatchUpWindow item)) "".

(** [os.Stat(...) == nil] of an occurrence; a failing call counts as absent. *)
Definition stat_occ (id : string) : T bool :=
  r ← try call;
  w ← get;
  mret (match r with Ok _ => bool_decide (is_Some (sp_occ w !! id)) | Err _ => false end).

(** Whether the occurrence was settled before, in one of three directories. *)
Definition stat_settled (id : string) : T bool :=
  call ;; w ← get;
  if bool_decide (id ∈ sp_receipts w) then mret true
  else call ;; w ← get;
       if bool_decide (id ∈ sp_archive w) then mret true
       else call ;; w ← get; mret (bool_decide (id ∈ sp_quarantine w)).

Definition fire (authorize : option (Job → bool)) (item : Schedule) (loc : Location) (due now : Z) : T unit :=
  let draft := draft_occurrence item due in
  if negb (ValidateOccurrence draft (s_Envelope item)) then mret tt
  else if match authorize with Some f => negb (f (o_Job draft)) | None => false end
  then BlockScheduleLocked item "owner authorization failed" now
  else
    let occ := slot_occurrence item due now in
    let id := j_ID (o_Job occ) in
    present ← stat_occ id;
    if present : bool then settleScheduleLocked (with_last id item) loc now
    else
      found ← stat_settled id;
      (if found : bool then mret tt
       else atomicJSON (λ w, set_occ (<[id := Some occ]> (sp_occ w)) w)) ;;
      settleScheduleLocked (with_last id item) loc now.

(** One schedule of the tick; [true] when its record was put into quarantine. *)
Definition tick_one (authorize : option (Job → bool)) (now : Z) (name : string) : T bool :=
  r ← try (LoadScheduleLocked name);
  match r with
  | Err _ => quarantineScheduleLocked name ;; mret true
  | Ok item =>
      if negb (due_now item now) then mret false
      else
        match LoadLocation (s_Timezone item) with
        | None => mret false
        | Some loc =>
            let due := if Before (s_NextDue item) (s_SnoozedUntil item) then s_SnoozedUntil item else s_NextDue item in
            done_ ← check_last item loc now;
            (if done_ : bool then mret tt else fire authorize item loc due now) ;;
            mret false
        end
  end.

(** [TickSchedules]: the records in the order of their file names.  [Ok true] is the joined
    error of the records that could not be read, after every other had its pass. *)
Definition TickSchedules (authorize : option (Job → bool)) (now : Z) (nativeCron : string) : T bool :=
  if nativeCron == "unmigrated" then mret false
  else
    call ;;
    w ← get;
    for_fold (merge_sort file_le (elements (dom (sp_schedules w)))) false
      (λ errs name, bad ← tick_one authorize now name; mret (errs || bad)).

(** * The owner's operations *)

Definition owned (item : Schedule) (caller : Envelope) : bool :=
  (e_PrincipalID (s_Envelope item) == e_PrincipalID caller) && (e_ContextID (s_Envelope item) == e_ContextID caller).

(** A schedule of the caller, at the revision expected if one is. *)
Definition stale (item : Schedule) (expected : option Z) : bool :=
  match expected with Some r => negb (r =? s_Revision item) | None => false end.

Definition PauseSchedule (id : string) (caller : Envelope) (expected : option Z) : T unit :=
  item ← LoadScheduleLocked id;
  fail_if (negb (owned item caller)) SNotOwned ;;
  fail_if (stale item expected) SRevision ;;
  now ← now_;
  save (with_revision (u64 (s_Revision item + 1)) now (with_slot (s_Enabled item) true (s_NextDue item) now item)).

Definition DeleteSchedule (id : string) (caller : Envelope) (expected : option Z) : T unit :=
  item ← LoadScheduleLocked id;
  fail_if (negb (owned item caller)) SNotOwned ;;
  fail_if (stale item expected) SRevision ;;
  now ← now_;
  let item := with_revision (u64 (s_Revision item + 1)) now (with_slot false true zero_time now item) in
  atomicJSON (λ w, set_deleted (<[FileID id := item]> (sp_deleted w)) w) ;;
  call ;; modify (λ w, set_schedules (delete (FileID id) (sp_schedules w)) w).

Definition SnoozeSchedule (id : string) (caller : Envelope) (until : Z) (expected : option Z) : T unit :=
  item ← LoadScheduleLocked id;
  fail_if (negb (owned item caller)) SNotOwned ;;
  now ← now_;
  fail_if (negb (After until now)) SSnooze ;;
  fail_if (stale item expected) SRevision ;;
  fail_if (negb (IsZero (s_NextDue item)) && negb (After until (EffectiveNextDue item))) SSnooze ;;
  let item :=
    if is_once item
    then with_slot true false until now (with_snooze until ("once:" ++ format_RFC3339Nano until) item)
    else with_slot (s_Enabled item) (s_Paused item) (if Before (s_NextDue item) until then until else s_NextDue item) now
           (with_snooze until (s_Expression item) item) in
  save (with_revision (u64 (s_Revision item + 1)) now item).

(** [RecordRoutineFailure] *)
Definition RecordRoutineFailure (id digest : string) : T bool :=
  r ← try (LoadScheduleLocked id);
  match r with
  | Err SNotFound => mret true
  | Err e => mthrow_err e
  | Ok item =>
      if (digest != "") && (s_LastFailureSHA256 item == digest) then mret false
      else now ← now_; save (with_failure digest "" now item) ;; mret true
  end.

(** [MarkRoutineFailurePending] *)
Definition MarkRoutineFailurePending (id digest : string) : T bool :=
  r ← try (LoadScheduleLocked id);
  match r with
  | Err SNotFound => mret true
  | Err e => mthrow_err e
  | Ok item =>
      if (digest != "") && ((s_LastFailureSHA256 item == digest) || (s_PendingFailureSHA256 item == digest))
      then mret false
      else now ← now_; save (with_failure (s_LastFailureSHA256 item) digest now item) ;; mret true
  end.

(** [ReleaseRoutineFailurePending] *)
Definition ReleaseRoutineFailurePending (id digest : string) : T unit :=
  item ← LoadScheduleLocked id;
  if (digest == "") || (s_PendingFailureSHA256 item != digest) then mret tt
  else now ← now_; save (with_failure (s_LastFailureSHA256 item) "" now item).

(** [ClearRoutineFailure] *)
Definition ClearRoutineFailure (id : string) : T unit :=
  r ← try (LoadScheduleLocked id);
  match r with
  | Err SNotFound => mret tt
  | Err e => mthrow_err e
  | Ok item =>
      if s_LastFailureSHA256 item == "" then mret tt
      else now ← now_; save (with_failure "" (s_PendingFailureSHA256 item) now item)
  end.

(** [OccurrenceCurrentLocked] *)
Definition OccurrenceCurrentLocked (o : RoutineOccurrence) : T bool :=
  r ← try call;
  w ← get;
  if match r with Ok _ => bool_decide (is_Some (sp_deleted w !! FileID (o_ScheduleID o))) | Err _ => true end
  then mret false
  else
    r ← try (LoadScheduleLocked (o_ScheduleID o));
    match r with
    | Err SNotFound => mret true
    | Err _ => mret false
    | Ok s => mret ((s_Revision s =? o_Revision o) && (s_Envelope s == j_Envelope (o_Job o)))
    end.
End Engine.
