(* ===== verification/SchedulesProps.v ===== *)
(** Theorems about the schedule engine: a tick fires each slot that is due once, never
    touches another occurrence, and leaves nothing due behind. *)
From stdpp Require Import base gmap strings list pretty sorting.
From Stdlib Require Import Ascii String.
From S2P Require Import Prelude GoStrings BrokerIdentity Contract Calendar Cron RoutineTypes Timing TimingProps Schedules.
Local Open Scope string_scope.
Local Open Scope Z_scope.

Section Tick.
Context `{RoutineWorld} `{TimeText} `{RoutineDeps}.
Implicit Types (w : Spool) (item : Schedule) (now : Z) (authorize : option (Job → bool)).

(** The names of the records are ids, and every readable record is the file of its
    schedule. *)
Definition spool_ok w : Prop :=
  ∀ name r, sp_schedules w !! name = Some r →
    IDPattern name = true ∧ ∀ item, r = Some item → FileID (s_ScheduleID item) = name.

(** A call failed since [w]. *)
Definition failed_since w w' : Prop := ∃ n, (sp_calls w ≤ n < sp_calls w')%nat ∧ host_ok n = false.

(** Everything but the schedules, the outbox and the number of calls is the same. *)
Record quiet w w' : Prop := {
  qu_occ : sp_occ w' = sp_occ w;
  qu_receipts : sp_receipts w' = sp_receipts w;
  qu_archive : sp_archive w' = sp_archive w;
  qu_quarantine : sp_quarantine w' = sp_quarantine w;
  qu_calls : (sp_calls w ≤ sp_calls w')%nat;
  qu_jobs : sp_jobs w' = sp_jobs w;
}.

Global Instance quiet_preorder' : PreOrder quiet.
Proof. split; [by split|]. intros w1 w2 w3 [] []. split; congruence || lia. Qed.

(** The schedule of [name] was replaced by one that is not due. *)
Definition settled (name : string) now w w' : Prop :=
  ∃ item, sp_schedules w' = <[name := Some item]> (sp_schedules w) ∧ FileID (s_ScheduleID item) = name ∧
    due_now item now = false.

Lemma wp_call (Q : res SErr unit → Spool → Prop) w :
  (∀ w', quiet w w' → sp_schedules w' = sp_schedules w → Q (Ok tt) w') →
  (∀ w', quiet w w' → sp_schedules w' = sp_schedules w → failed_since w w' → Q (Err SIO) w') →
  wp call Q w.
Proof.
  intros Hok Herr. assert (quiet w (tick_call w)) by (split; simpl; done || lia).
  unfold wp, call. destruct (host_ok (sp_calls w)) eqn:Hh; [by apply Hok|]. apply Herr; [done..|].
  exists (sp_calls w). simpl. split; [lia|done].
Qed.

Lemma failed_mono w0 w w' w1 : quiet w0 w → quiet w' w1 → failed_since w w' → failed_since w0 w1.
Proof. intros [] [] (n & Hn & Hf). exists n. split; [lia|done]. Qed.

Lemma wp_save item (Q : res SErr unit → Spool → Prop) w :
  (∀ w', quiet w w' → sp_schedules w' = <[FileID (s_ScheduleID item) := Some item]> (sp_schedules w) → Q (Ok tt) w') →
  (∀ e w', quiet w w' → sp_schedules w' = sp_schedules w ∨
     sp_schedules w' = <[FileID (s_ScheduleID item) := Some item]> (sp_schedules w) → Q (Err e) w') →
  wp (save item) Q w.
Proof.
  intros Hok Herr. unfold save, atomicJSON. apply wp_bind, wp_call; [|by intros w' ? ? _; apply Herr; auto].
  intros w1 Hq1 Hs1. apply wp_bind, wp_modify. set (w2 := set_schedules _ w1).
  assert (Hq2 : quiet w w2) by (destruct Hq1; by split). assert (Hs2 : sp_schedules w2 = <[FileID (s_ScheduleID item) := Some item]> (sp_schedules w)) by by rewrite <- Hs1.
  apply wp_call.
  - intros w3 Hq3 Hs3. apply Hok; [by etrans|congruence].
  - intros w3 Hq3 Hs3 _. apply Herr; [by etrans|]. right. congruence.
Qed.

(** What an operation that failed leaves: nothing, or a schedule that is not due. *)
Definition kept (name : string) now w w' : Prop := sp_schedules w' = sp_schedules w ∨ settled name now w w'.

(** Saving a schedule that is not due. *)
Lemma wp_save_off item now (Q : res SErr unit → Spool → Prop) w :
  (∀ w', quiet w w' → settled (FileID (s_ScheduleID item)) now w w' → Q (Ok tt) w') →
  (∀ e w', quiet w w' → kept (FileID (s_ScheduleID item)) now w w' → Q (Err e) w') →
  due_now item now = false → wp (save item) Q w.
Proof.
  intros Hok Herr Hdue. apply wp_save.
  - intros w' Hq Hs. apply Hok; [done|]. by exists item.
  - intros e w' Hq [Hs|Hs]; apply Herr; [done|by left|done|]. right. by exists item.
Qed.

(** Settling leaves the schedule off, or with a slot after [now]. *)
Lemma wp_settle item loc now (Q : res SErr unit → Spool → Prop) w :
  (∀ w', quiet w w' → settled (FileID (s_ScheduleID item)) now w w' → Q (Ok tt) w') →
  (∀ e w', quiet w w' → kept (FileID (s_ScheduleID item)) now w w' → Q (Err e) w') →
  wp (settleScheduleLocked item loc now) Q w.
Proof.
  intros Hok Herr. unfold settleScheduleLocked.
  assert (Hoff : wp (save (with_slot false true zero_time now item)) Q w).
  { apply (wp_save_off _ now); [done..|]. unfold due_now. simpl. by rewrite orb_true_r. }
  destruct (is_once item); [done|]. destruct (NextSchedule item loc now) as [next|e] eqn:Hn.
  - apply (wp_save_off _ now); [done..|]. apply next_schedule_after in Hn as [Hafter _]. unfold due_now, Before. simpl.
    rewrite (proj2 (Z.ltb_lt now next)) by done. by rewrite orb_true_r.
  - destruct e; try done; by apply wp_throw, Herr; [|left].
Qed.

Lemma settled_trans name now w w1 w2 : sp_schedules w1 = sp_schedules w → settled name now w1 w2 → settled name now w w2.
Proof. intros Hs (item & Hi & ?). exists item. by rewrite <- Hs. Qed.

Lemma kept_trans name now w w1 w2 : sp_schedules w1 = sp_schedules w → kept name now w1 w2 → kept name now w w2.
Proof. intros Hs [?|(item & Hi & ?)]; [left; congruence|]. right. exists item. by rewrite <- Hs. Qed.

Lemma wp_block item reason now (Q : res SErr unit → Spool → Prop) w :
  reason ≠ "" →
  (∀ w', quiet w w' → settled (FileID (s_ScheduleID item)) now w w' → Q (Ok tt) w') →
  (∀ e w', quiet w w' → kept (FileID (s_ScheduleID item)) now w w' → Q (Err e) w') →
  wp (BlockScheduleLocked item reason now) Q w.
Proof.
  intros Hr Hok Herr. unfold BlockScheduleLocked.
  assert (Hoff : ∀ last pending, due_now (with_failure last pending now (with_block reason now item)) now = false).
  { intros last pend. unfold due_now. simpl. by rewrite bool_decide_eq_false_2. }
  assert (Hsave : ∀ last w1, quiet w w1 → sp_schedules w1 = sp_schedules w →
    wp (save (with_failure last (s_PendingFailureSHA256 item) now (with_block reason now item))) Q w1).
  { intros last w1 Hq1 Hs1. apply (wp_save_off _ now); [| |by apply Hoff].
    - intros w' Hq Hs. apply Hok; [by etrans|by eapply settled_trans].
    - intros e w' Hq Hs. apply Herr; [by etrans|by eapply kept_trans]. }
  apply wp_if; intros _.
  2:{ apply (wp_save_off _ now); [done..|]. unfold due_now. simpl. by rewrite bool_decide_eq_false_2. }
  set (d := match channelFor _ with Some _ => _ | None => _ end). apply wp_bind. destruct (normalizeDelivery d) as [d'|].
  - apply wp_bind, wp_fail_if; [by intros _; apply Herr; [|left]|]. intros _. apply wp_modify.
    apply Hsave; [by split|done].
  - apply wp_ret. by apply Hsave.
Qed.

Lemma wp_quarantine_occ id (Q : res SErr unit → Spool → Prop) w :
  (∀ w', sp_schedules w' = sp_schedules w → sp_occ w' = delete id (sp_occ w) → sp_receipts w' = sp_receipts w →
     sp_archive w' = sp_archive w → sp_quarantine w' = {[id]} ∪ sp_quarantine w → (sp_calls w ≤ sp_calls w')%nat →
     sp_jobs w' = sp_jobs w → Q (Ok tt) w') →
  (∀ e w', quiet w w' → sp_schedules w' = sp_schedules w → Q (Err e) w') →
  wp (quarantineOccurrenceLocked id) Q w.
Proof.
  intros Hok Herr. unfold quarantineOccurrenceLocked. apply wp_bind, wp_call; [|by intros; apply Herr].
  intros w1 Hq1 Hs1. apply wp_bind, wp_call; [|intros w2 ? ? _; apply Herr; [by etrans|congruence]].
  intros w2 Hq2 Hs2. assert (quiet w w2) as [] by by etrans. apply wp_modify, Hok; simpl; congruence || done.
Qed.

(** * What a tick may do to the occurrences *)

(** The slot a schedule is due for. *)
Definition slot_due item : Z := if Before (s_NextDue item) (s_SnoozedUntil item) then s_SnoozedUntil item else s_NextDue item.

(** [x] is the occurrence of a slot that is due, valid and authorized, and was not settled. *)
Record fires authorize now w item (id : string) (x : option RoutineOccurrence) : Prop := {
  fi_due : due_now item now = true;
  fi_zone : is_Some (LoadLocation (s_Timezone item));
  fi_valid : ValidateOccurrence (draft_occurrence item (slot_due item)) (s_Envelope item) = true;
  fi_authorized : ∀ f, authorize = Some f → f (o_Job (draft_occurrence item (slot_due item))) = true;
  fi_id : id = occurrence_key (s_ScheduleID item) (s_Revision item) (slot_due item);
  fi_occ : x = Some (slot_occurrence item (slot_due item) now);
  fi_new : (id ∉ sp_receipts w) ∧ (id ∉ sp_archive w) ∧ (id ∉ sp_quarantine w);
}.

(** The file of an occurrence is not readable, or is that of another job. *)
Definition unreadable (id : string) (x : option RoutineOccurrence) : Prop :=
  match x with None => True | Some o => j_ID (o_Job o) ≠ id end.

(** New occurrences are those of [P]; the others stay, or go into quarantine. *)
Record effect (P : string → option RoutineOccurrence → Prop) w w' : Prop := {
  ef_new : ∀ id x, sp_occ w' !! id = Some x → sp_occ w !! id = Some x ∨ P id x;
  ef_old : ∀ id x, sp_occ w !! id = Some x →
    sp_occ w' !! id = Some x ∨ (id ∈ sp_quarantine w' ∧ unreadable id x) ∨ failed_since w w';
  ef_receipts : sp_receipts w' = sp_receipts w;
  ef_archive : sp_archive w' = sp_archive w;
  ef_quarantine : sp_quarantine w ⊆ sp_quarantine w';
  ef_calls : (sp_calls w ≤ sp_calls w')%nat;
  ef_jobs : sp_jobs w' = sp_jobs w;
}.

Lemma effect_trans P w1 w2 w3 : effect P w1 w2 → effect P w2 w3 → effect P w1 w3.
Proof.
  intros [N1 O1 R1 A1 Q1 C1 J1] [N2 O2 R2 A2 Q2 C2 J2]. split; [| |congruence|congruence|set_solver|lia|congruence].
  - intros id x [Hx|?]%N2; auto.
  - intros id x [Hx|[[? ?]|(n & Hn & Hf)]]%O1; [|right; left; split; [set_solver|done]|right; right; exists n; split; [lia|done]].
    apply O2 in Hx as [?|[?|(n & Hn & Hf)]]; auto. right; right. exists n. split; [lia|done].
Qed.

Lemma effect_mono (P P' : string → option RoutineOccurrence → Prop) w w' :
  (∀ id x, P id x → P' id x) → effect P w w' → effect P' w w'.
Proof. intros HP []. split; auto. intros id x Hx. edestruct ef_new0; eauto. Qed.

Lemma quiet_effect P w w' : quiet w w' → effect P w w'.
Proof. intros [Ho ? ? Hq ? ?]. split; rewrite ?Ho, ?Hq; auto. Qed.

(** What one step leaves of the schedules. *)
Definition step_schedules (name : string) now (stuck : Prop) (r : res SErr unit) w w' : Prop :=
  match r with
  | Ok _ => settled name now w w' ∨ sp_schedules w' = sp_schedules w ∧ stuck
  | Err _ => kept name now w w'
  end.

(** Whether the last occurrence still runs, with [jobs] waiting or running. *)
Definition still_running (jobs : gset string) (last : RoutineOccurrence) now : bool :=
  if (o_State last == "dispatched") && (o_JobKind last == "agent") then
    match LoadMapping (j_ID (o_Job last)) with
    | BadMapping => false
    | HasStatus status => negb (TerminalStatus status)
    | NoMapping => bool_decide (FileID (j_ID (o_Job last)) ∈ jobs)
    end
  else if (o_JobKind last == "reminder") && (o_State last == "pending")
  then Sub now (o_DueAt last) <=? window_of (o_CatchUpWindow last)
  else (o_State last == "pending") || (o_State last == "probing") || (o_State last == "scripting").

Lemma wp_outstanding last now (Q : res SErr bool → Spool → Prop) w :
  (∀ r w', quiet w w' → sp_schedules w' = sp_schedules w →
     (∀ b, r = Ok b → b = still_running (sp_jobs w) last now) → Q r w') → wp (outstanding last now) Q w.
Proof.
  intros HQ. unfold outstanding, still_running in *.
  apply wp_if; intros Hs; rewrite Hs in HQ; [|apply wp_if; intros Hr; rewrite Hr in HQ; (apply wp_ret, HQ; [done|done|by intros ? [= <-]])].
  destruct (LoadMapping _); [|by apply wp_throw, HQ|by apply wp_ret, HQ; [| |intros ? [= <-]]].
  apply wp_bind, wp_call; [|by intros; apply HQ]. intros w1 Hq1 Hs1.
  apply wp_bind, wp_call; [|intros w2 ? ? _; apply HQ; [by etrans|congruence|done]]. intros w2 Hq2 Hs2.
  apply wp_bind, wp_get, wp_ret, HQ; [by etrans|congruence|]. intros b [= <-].
  by rewrite (qu_jobs _ _ Hq2), (qu_jobs _ _ Hq1).
Qed.

(** A reference to the last occurrence that is no id. *)
Definition bad_reference item : Prop :=
  s_LastOccurrenceID item ≠ "" ∧ negb (IDPattern (s_LastOccurrenceID item)) || (160 <? len (s_LastOccurrenceID item)) = true.

(** The last occurrence [x] keeps the schedule from firing: it is not readable, or it is of
    the same revision and still runs. *)
Definition holds_back w item now (x : option RoutineOccurrence) : Prop :=
  unreadable (s_LastOccurrenceID item) x ∨
  ∃ last, x = Some last ∧ o_Revision last = s_Revision item ∧ still_running (sp_jobs w) last now = true.

(** Quarantining the last occurrence and settling. *)
Lemma wp_replace item loc now id (Q : res SErr bool → Spool → Prop) w :
  (∀ x, sp_occ w !! id = Some x → unreadable id x) →
  (∀ r w', effect (λ _ _, False) w w' →
     match r with Ok b => b = true ∧ settled (FileID (s_ScheduleID item)) now w w' | Err _ => kept (FileID (s_ScheduleID item)) now w w' end → Q r w') →
  wp (quarantineOccurrenceLocked id ;; settleScheduleLocked item loc now ;; mret true) Q w.
Proof.
  intros Hun HQ. apply wp_bind, wp_quarantine_occ; [|by intros e w' Hq Hs; apply HQ; [apply quiet_effect|left]].
  intros w1 Hs1 Ho1 Hr1 Ha1 Hqu1 Hc1 Hj1.
  assert (effect (λ _ _, False) w w1) as Hef.
  { split; try done; [| |set_solver].
    - intros id' x. rewrite Ho1. intros [_ ?]%lookup_delete_Some. by left.
    - intros id' x Hx. rewrite Ho1, Hqu1. destruct (decide (id' = id)) as [->|Hne]; [right; left; split; [set_solver|auto]|].
      left. by rewrite lookup_delete_ne. }
  apply wp_bind, wp_settle.
  - intros w2 Hq2 Hset. apply wp_ret, HQ; [by eapply effect_trans, quiet_effect|]. split; [done|]. by eapply settled_trans.
  - intros e w2 Hq2 Hs2. apply HQ; [by eapply effect_trans, quiet_effect|by eapply kept_trans].
Qed.

Lemma wp_check_last item loc now (Q : res SErr bool → Spool → Prop) w :
  (∀ r w', effect (λ _ _, False) w w' →
     match r with
     | Ok true => settled (FileID (s_ScheduleID item)) now w w' ∧
         (bad_reference item ∨ ∃ x, sp_occ w !! s_LastOccurrenceID item = Some x ∧ holds_back w item now x)
     | Ok false => sp_schedules w' = sp_schedules w
     | Err _ => kept (FileID (s_ScheduleID item)) now w w'
     end → Q r w') →
  wp (check_last item loc now) Q w.
Proof.
  intros HQ. unfold check_last. apply wp_if; intros Hne; [by apply wp_ret, HQ; [apply quiet_effect|]|].
  apply bool_decide_eq_false in Hne. apply wp_if; intros Hbad.
  { apply wp_bind, wp_block; [done| |].
    - intros w1 Hq Hs. apply wp_ret, HQ; [by apply quiet_effect|]. split; [done|]. by left.
    - intros e w1 Hq Hs. apply HQ; [by apply quiet_effect|done]. }
  apply wp_bind, wp_call; [|intros w1 Hq Hs _; apply HQ; [by apply quiet_effect|by left]].
  intros w1 Hq1 Hs1. pose proof (quiet_effect (λ _ _, False) _ _ Hq1) as He1. apply wp_bind, wp_get.
  assert (Hrep : ∀ x, sp_occ w1 !! s_LastOccurrenceID item = Some x → unreadable (s_LastOccurrenceID item) x →
    wp (quarantineOccurrenceLocked (s_LastOccurrenceID item) ;; settleScheduleLocked item loc now ;; mret true) Q w1).
  { intros x Hx Hun. apply wp_replace; [intros x'; rewrite Hx; by intros [= <-]|].
    intros r w2 He2 Hr. apply HQ; [by eapply effect_trans|].
    destruct r as [b|e]; [|by eapply kept_trans]. destruct Hr as [-> Hset]. split; [by eapply settled_trans|].
    right. exists x. rewrite <-(qu_occ _ _ Hq1). split; [done|]. by left. }
  destruct (sp_occ w1 !! s_LastOccurrenceID item) as [[last|]|] eqn:Hocc; [|by apply (Hrep None)|by apply wp_ret, HQ].
  apply wp_if; intros Hid; [apply (Hrep (Some last)); [done|]; by apply negb_true_iff, bool_decide_eq_false in Hid|].
  apply wp_bind, wp_outstanding. intros [running|e] w2 Hq2 Hs2 Hrun.
  2:{ apply HQ; [by eapply effect_trans, quiet_effect|left; congruence]. }
  pose proof (effect_trans _ _ _ _ He1 (quiet_effect _ _ _ Hq2)) as He2.
  apply wp_if; intros Hheld; [|by apply wp_ret, HQ; [|congruence]]. apply wp_bind, wp_settle.
  - intros w3 Hq3 Hset. apply wp_ret, HQ; [by eapply effect_trans, quiet_effect|].
    split; [eapply settled_trans; [|exact Hset]; congruence|]. right. exists (Some last).
    rewrite <-(qu_occ _ _ Hq1). split; [done|]. right. exists last. apply andb_true_iff in Hheld as [Hrev%Z.eqb_eq Hr].
    rewrite <-(qu_jobs _ _ Hq1), <-(Hrun running eq_refl). done.
  - intros e w3 Hq3 Hs3. apply HQ; [by eapply effect_trans, quiet_effect|]. eapply kept_trans; [|exact Hs3]. congruence.
Qed.

Lemma wp_stat_occ id (Q : res SErr bool → Spool → Prop) w :
  (∀ b w', quiet w w' → sp_schedules w' = sp_schedules w →
     (if b : bool then is_Some (sp_occ w !! id) else sp_occ w !! id = None ∨ failed_since w w') → Q (Ok b) w') →
  wp (stat_occ id) Q w.
Proof.
  intros HQ. unfold stat_occ. apply wp_bind, wp_try, wp_call.
  - intros w1 Hq Hs. apply wp_bind, wp_get, wp_ret, HQ; [done..|]. rewrite (qu_occ _ _ Hq).
    case_bool_decide as Hb; [done|]. left. by apply eq_None_not_Some.
  - intros w1 Hq Hs Hf. apply wp_bind, wp_get, wp_ret, HQ; auto.
Qed.

Lemma wp_stat_settled id (Q : res SErr bool → Spool → Prop) w :
  (∀ b w', quiet w w' → sp_schedules w' = sp_schedules w →
     (if b : bool then id ∈ sp_receipts w ∪ sp_archive w ∪ sp_quarantine w
      else (id ∉ sp_receipts w) ∧ (id ∉ sp_archive w) ∧ (id ∉ sp_quarantine w)) → Q (Ok b) w') →
  (∀ e w', quiet w w' → sp_schedules w' = sp_schedules w → failed_since w w' → Q (Err e) w') →
  wp (stat_settled id) Q w.
Proof.
  intros HQ HE. unfold stat_settled. apply wp_bind, wp_call; [|by intros; apply HE]. intros w1 Hq1 Hs1.
  apply wp_bind, wp_get. pose proof Hq1 as [? Hr1 Ha1 Hu1 _]. apply wp_if; intros Hg1; guards; [apply wp_ret, HQ; [done..|set_solver]|].
  apply wp_bind, wp_call; [|intros w2 ? ? ?; apply HE; [by etrans|congruence|eapply (failed_mono w w1 w2 w2); [done|reflexivity|done]]]. intros w2 Hq2 Hs2.
  apply wp_bind, wp_get. pose proof Hq2 as [? Hr2 Ha2 Hu2 _]. apply wp_if; intros Hg2; guards; [apply wp_ret, HQ; [by etrans|congruence|set_solver]|].
  apply wp_bind, wp_call; [|intros w3 ? ? ?; apply HE; [by do 2 (etrans; [done|])|congruence|eapply (failed_mono w w2 w3 w3); [by etrans|reflexivity|done]]]. intros w3 Hq3 Hs3.
  apply wp_bind, wp_get, wp_ret. pose proof Hq3 as [? Hr3 Ha3 Hu3 _].
  apply HQ; [by do 2 (etrans; [done|])|congruence|]. case_bool_decide as Hg3; [set_solver|]. split_and!; congruence.
Qed.

(** The id of the slot's occurrence. *)
Definition slot_id item : string := occurrence_key (s_ScheduleID item) (s_Revision item) (slot_due item).

(** The slot of [item] is to fire: it is due, its zone is known, its occurrence is valid and
    authorized. *)
Record due_slot authorize now item : Prop := {
  ds_due : due_now item now = true;
  ds_zone : is_Some (LoadLocation (s_Timezone item));
  ds_valid : ValidateOccurrence (draft_occurrence item (slot_due item)) (s_Envelope item) = true;
  ds_authorized : ∀ f, authorize = Some f → f (o_Job (draft_occurrence item (slot_due item))) = true;
}.

(** The slot has its occurrence in [w'], or it was settled before [w]. *)
Definition served w w' item : Prop :=
  is_Some (sp_occ w' !! slot_id item) ∨ slot_id item ∈ sp_receipts w ∪ sp_archive w ∪ sp_quarantine w.

(** Firing a slot: its occurrence is new, or was there, or it cannot be. *)
Lemma wp_fire authorize item loc now w :
  due_now item now = true → is_Some (LoadLocation (s_Timezone item)) →
  wp (fire authorize item loc (slot_due item) now)
    (λ r w', effect (fires authorize now w item) w w' ∧
       step_schedules (FileID (s_ScheduleID item)) now
         (ValidateOccurrence (draft_occurrence item (slot_due item)) (s_Envelope item) = false) r w w' ∧
       (res_ok r = true → due_slot authorize now item → served w w' item)) w.
Proof.
  intros Hdue Hzone. unfold fire. apply wp_if; intros Hv; guards.
  { apply wp_ret. split_and!; [by apply quiet_effect|by right|]. intros _ [_ _ Hv' _]. congruence. }
  destruct (match authorize with Some f => _ | None => false end) eqn:Hauth.
  { assert (Hno : ∀ w', due_slot authorize now item → served w w' item).
    { intros w' [_ _ _ Ha]. destruct authorize as [f|]; [|done]. by rewrite (Ha f eq_refl) in Hauth. }
    apply wp_block; [done| |].
    - intros w1 Hq Hs. split_and!; [by apply quiet_effect|by left|by intros _; apply Hno].
    - intros e w1 Hq Hs. split_and!; [by apply quiet_effect|done|done]. }
  change (j_ID (o_Job (slot_occurrence item (slot_due item) now))) with (slot_id item).
  assert (Hset : ∀ w1, effect (fires authorize now w item) w w1 → sp_schedules w1 = sp_schedules w → served w w1 item →
    wp (settleScheduleLocked (with_last (slot_id item) item) loc now) (λ r w', effect (fires authorize now w item) w w' ∧
       step_schedules (FileID (s_ScheduleID item)) now
         (ValidateOccurrence (draft_occurrence item (slot_due item)) (s_Envelope item) = false) r w w' ∧
       (res_ok r = true → due_slot authorize now item → served w w' item)) w1).
  { intros w1 He1 Hs1 Hsv. apply wp_settle.
    - intros w2 Hq2 Hst. split_and!; [by eapply effect_trans, quiet_effect|left; by eapply settled_trans|].
      intros _ _. unfold served. by rewrite (qu_occ _ _ Hq2).
    - intros e w2 Hq2 Hs2. split_and!; [by eapply effect_trans, quiet_effect|by eapply kept_trans|done]. }
  apply wp_bind, wp_stat_occ. intros present w1 Hq1 Hs1 Hp. pose proof (quiet_effect (fires authorize now w item) _ _ Hq1) as He1.
  destruct present; [apply Hset; [done|done|left; by rewrite (qu_occ _ _ Hq1)]|].
  apply wp_bind, wp_stat_settled.
  2:{ intros e w2 Hq2 Hs2 _. split_and!; [by eapply effect_trans, quiet_effect|left; congruence|done]. }
  intros found w2 Hq2 Hs2 Hf. pose proof (effect_trans _ _ _ _ He1 (quiet_effect _ _ _ Hq2)) as He2.
  pose proof Hq1 as [Ho1 Hr1 Ha1 Hu1 Hc1 Hj1]. rewrite Hr1, Ha1, Hu1 in Hf.
  apply wp_bind. destruct found; [apply wp_ret, Hset; [done|congruence|by right]|].
  apply wp_bind, wp_call.
  2:{ intros w3 Hq3 Hs3 _. split_and!; [by eapply effect_trans, quiet_effect|left; congruence|done]. }
  intros w3 Hq3 Hs3. apply wp_bind, wp_modify. pose proof Hq2 as [Ho2 Hr2 Ha2 Hu2 Hc2 Hj2].
  pose proof Hq3 as [Ho3 Hr3 Ha3 Hu3 Hc3 Hj3]. set (w4 := set_occ _ w3). assert (Hs4 : sp_schedules w4 = sp_schedules w) by (simpl; congruence).
  assert (He4 : effect (fires authorize now w item) w w4).
  2:{ apply wp_call.
      - intros w5 Hq5 Hs5. apply Hset; [by eapply effect_trans, quiet_effect|congruence|].
        left. rewrite (qu_occ _ _ Hq5). simpl. rewrite lookup_insert_eq. by eexists.
      - intros w5 Hq5 Hs5 _. split_and!; [by eapply effect_trans, quiet_effect|left; congruence|done]. }
  assert (Hocc : sp_occ w3 = sp_occ w) by congruence.
  split; simpl; [| |congruence|congruence|by rewrite Hu3, Hu2, Hu1|lia|congruence].
  - intros id' x [[<- <-]|[_ Hx]]%lookup_insert_Some; [|left; by rewrite <- Hocc]. right.
    split; [done|done|done| |done|done|exact Hf]. intros f ->. by apply negb_false_iff in Hauth.
  - intros id' x Hx. destruct (decide (id' = slot_id item)) as [->|Hne].
    + destruct Hp as [Hp'|(n & Hn & Hfl)]; [congruence|]. right; right. exists n. simpl. split; [lia|done].
    + left. rewrite lookup_insert_ne by done. by rewrite Hocc.
Qed.

(** A schedule the tick cannot advance: its zone or its occurrence is not valid. *)
Definition stuck item : Prop :=
  LoadLocation (s_Timezone item) = None ∨
  ValidateOccurrence (draft_occurrence item (slot_due item)) (s_Envelope item) = false.

Lemma wp_load name (Q : res SErr Schedule → Spool → Prop) w :
  IDPattern name = true →
  (∀ item w', sp_schedules w !! name = Some (Some item) → quiet w w' → sp_schedules w' = sp_schedules w → Q (Ok item) w') →
  (∀ e w', quiet w w' → sp_schedules w' = sp_schedules w →
     failed_since w w' ∨ (∀ item, sp_schedules w !! name = Some (Some item) → s_ScheduleID item = "") → Q (Err e) w') →
  wp (LoadScheduleLocked name) Q w.
Proof.
  intros Hid Hok Herr. unfold LoadScheduleLocked, FileID. rewrite Hid.
  apply wp_bind, wp_call; [|by intros; apply Herr; auto]. intros w1 Hq1 Hs1. apply wp_bind, wp_get. rewrite Hs1.
  apply wp_bind, wp_some_or; [|intros Hr; apply Herr; [done..|right; congruence]]. intros r Hr.
  apply wp_bind, wp_some_or; [|intros ->; apply Herr; [done..|right; congruence]]. intros item ->.
  apply wp_bind, wp_fail_if; intros Hid'; [|apply wp_ret; by apply Hok].
  apply Herr; [done..|right]. intros item' Hi. apply bool_decide_eq_true in Hid'. congruence.
Qed.

(** * A tick *)

(** What came of a slot that was to fire in [w]: a file call failed, or the reference to its
    last occurrence is malformed, or its last occurrence (there in [w], or there in [w'])
    held it back, or it is served: an occurrence with its id is there, or was settled. *)
Definition outcome now w w' item : Prop :=
  failed_since w w' ∨ bad_reference item ∨
  (∃ x, (sp_occ w !! s_LastOccurrenceID item = Some x ∨
         sp_occ w' !! s_LastOccurrenceID item = Some x ∧ ¬ unreadable (s_LastOccurrenceID item) x) ∧
        holds_back w item now x) ∨
  is_Some (sp_occ w' !! slot_id item) ∨ slot_id item ∈ sp_receipts w ∪ sp_archive w ∪ sp_quarantine w'.

Lemma failed_earlier w1 w2 w3 : failed_since w1 w2 → (sp_calls w2 ≤ sp_calls w3)%nat → failed_since w1 w3.
Proof. intros (n & Hn & Hf) Hc. exists n. split; [lia|done]. Qed.
Lemma failed_later w1 w2 w3 : failed_since w2 w3 → (sp_calls w1 ≤ sp_calls w2)%nat → failed_since w1 w3.
Proof. intros (n & Hn & Hf) Hc. exists n. split; [lia|done]. Qed.

(** What came of a slot stays so. *)
Lemma outcome_later P now w w1 w2 item :
  outcome now w w1 item → effect P w1 w2 → (sp_calls w ≤ sp_calls w1)%nat → outcome now w w2 item.
Proof.
  intros Ho [_ Hold _ _ Hq Hc _] Hc0. unfold outcome.
  destruct Ho as [Hf|[Hb|[(x & [Hx|[Hx Hr]] & Hh)|[[x Hx]|Hs]]]]; [left; by eapply failed_earlier|by auto|by eauto 10| | |set_solver].
  - destruct (Hold _ _ Hx) as [Hx'|[[_ Hu]|Hf]]; [by eauto 10|done|left; by eapply failed_later].
  - destruct (Hold _ _ Hx) as [Hx'|[[Hq' _]|Hf]]; [by eauto 10|set_solver|left; by eapply failed_later].
Qed.

(** A pass that starts later, from [w1]. *)
Lemma outcome_from authorize now w w1 w2 item :
  effect (λ id x, ∃ name item, sp_schedules w !! name = Some (Some item) ∧ fires authorize now w item id x) w w1 →
  effect (λ id x, ∃ name item, sp_schedules w !! name = Some (Some item) ∧ fires authorize now w item id x) w1 w2 →
  outcome now w1 w2 item → outcome now w w2 item.
Proof.
  intros He He2 Ho. pose proof (ef_jobs _ _ _ He) as Hj. pose proof (ef_calls _ _ _ He) as Hc.
  unfold outcome in *. rewrite (ef_receipts _ _ _ He), (ef_archive _ _ _ He) in Ho. unfold holds_back in *. rewrite Hj in Ho.
  destruct Ho as [Hf|[Hb|[(x & [Hx|Hx] & Hh)|Ho]]]; [left; by eapply failed_later|by auto| |by eauto 10|by auto].
  destruct (ef_new _ _ _ He _ _ Hx) as [Hx'|(n & i & _ & Hfi)]; [by eauto 10|].
  assert (Hread : ¬ unreadable (s_LastOccurrenceID item) x).
  { rewrite (fi_occ _ _ _ _ _ _ Hfi), (fi_id _ _ _ _ _ _ Hfi). intros Hu. by apply Hu. }
  destruct (ef_old _ _ _ He2 _ _ Hx) as [Hx2|[[_ Hu]|Hf]]; [by eauto 10|done|left; by eapply failed_later].
Qed.

(** What the pass of one schedule may do. *)
Record tick_effect authorize (name : string) now (b : bool) w w' : Prop := {
  te_occ : effect (λ id x, ∃ item, sp_schedules w !! name = Some (Some item) ∧ fires authorize now w item id x) w w';
  te_others : ∀ n, n ≠ name → sp_schedules w' !! n = sp_schedules w !! n;
  te_ok : spool_ok w';
  te_settled : b = true → ∀ item, sp_schedules w' !! name = Some (Some item) → due_now item now = true → stuck item;
  te_served : b = true → ∀ item, sp_schedules w !! name = Some (Some item) → due_slot authorize now item → outcome now w w' item;
}.

Lemma spool_same w w' : sp_schedules w' = sp_schedules w → spool_ok w → spool_ok w'.
Proof. intros Hs Hok name r. rewrite Hs. apply Hok. Qed.

Lemma spool_settled name now w w' : spool_ok w → IDPattern name = true → settled name now w w' → spool_ok w'.
Proof.
  intros Hok Hid (item & Hs & Hn & _) n r. rewrite Hs. intros [[<- <-]|[_ Hr]]%lookup_insert_Some; [|by apply Hok].
  split; [done|]. by intros ? [= <-].
Qed.

(** A schedule whose occurrence is valid has an id. *)
Lemma valid_named item due caller : ValidateOccurrence (draft_occurrence item due) caller = true → s_ScheduleID item ≠ "".
Proof. unfold ValidateOccurrence. simpl. intros Hv Hid. rewrite Hid in Hv. by destruct (_ <? len "")%Z in Hv. Qed.

Lemma wp_tick_one authorize now name w :
  spool_ok w → IDPattern name = true →
  wp (tick_one authorize now name) (λ r w', tick_effect authorize name now (res_ok r) w w') w.
Proof.
  intros Hok Hid. unfold tick_one. apply wp_bind, wp_try, wp_load; [done| |].
  2:{ intros e w1 Hq1 Hs1 Hwhy. apply wp_bind. unfold quarantineScheduleLocked.
      assert (Herr : ∀ w', quiet w1 w' → sp_schedules w' = sp_schedules w1 → tick_effect authorize name now false w w').
      { intros w' Hq Hs. split; [apply quiet_effect; by etrans|intros; by rewrite Hs, Hs1| |done|done].
        eapply spool_same; [|exact Hok]. congruence. }
      apply wp_bind, wp_call; [|by intros w2 ? ? _; apply Herr]. intros w2 Hq2 Hs2.
      apply wp_bind, wp_call; [|intros w3 ? ? _; apply Herr; [by etrans|congruence]]. intros w3 Hq3 Hs3.
      apply wp_modify, wp_ret. simpl. split; simpl.
      - assert (quiet w w3) as [] by (do 2 (etrans; [done|]); done). apply quiet_effect. by split.
      - intros n Hn. rewrite lookup_delete_ne by done. congruence.
      - intros n r. simpl. intros [_ Hr]%lookup_delete_Some. apply Hok. congruence.
      - intros _ item. by rewrite lookup_delete_eq.
      - intros _ item Hi [_ _ Hval _]. left. destruct Hwhy as [Hf|Hempty].
        + eapply (failed_earlier _ w1); [done|]. simpl. destruct Hq2, Hq3. lia.
        + destruct (valid_named _ _ _ Hval). by apply Hempty. }
  intros item w1 Hrec Hq1 Hs1. destruct (Hok _ _ Hrec) as [_ Hname]. specialize (Hname item eq_refl).
  assert (Hsame : ∀ b w', effect (λ id x, ∃ item, sp_schedules w !! name = Some (Some item) ∧ fires authorize now w item id x) w w' →
    sp_schedules w' = sp_schedules w → (b = true → due_now item now = true → stuck item) →
    (b = true → due_slot authorize now item → outcome now w w' item) → tick_effect authorize name now b w w').
  { intros b w' He Hs Hst Hsv. split; [done|by intros; rewrite Hs|by eapply spool_same| |].
    - intros Hb item' Hi. rewrite Hs, Hrec in Hi. injection Hi as <-. auto.
    - intros Hb item' Hi. rewrite Hrec in Hi. injection Hi as <-. auto. }
  assert (Hdone : ∀ b w', effect (λ id x, ∃ item, sp_schedules w !! name = Some (Some item) ∧ fires authorize now w item id x) w w' →
    settled name now w w' → (b = true → due_slot authorize now item → outcome now w w' item) →
    tick_effect authorize name now b w w').
  { intros b w' He Hset Hsv. split; [done| |by eapply spool_settled| |].
    - destruct Hset as (i' & -> & _). intros n Hn. by apply lookup_insert_ne.
    - destruct Hset as (i' & -> & _ & Hnd). intros _ item'. rewrite lookup_insert_eq. intros [= <-]. congruence.
    - intros Hb item' Hi. rewrite Hrec in Hi. injection Hi as <-. auto. }
  apply wp_if; intros Hdue; guards.
  { apply wp_ret, Hsame; [by apply quiet_effect|done|intros _; congruence|]. intros _ []. congruence. }
  destruct (LoadLocation (s_Timezone item)) as [loc|] eqn:Hloc.
  2:{ apply wp_ret, Hsame; [by apply quiet_effect|done|intros _ _; by left|]. intros _ [_ [? Hz] _ _]. congruence. }
  fold (slot_due item). apply wp_bind, wp_check_last. intros [b|e] w2 He2 Hr2.
  2:{ assert (He : effect (λ id x, ∃ item, sp_schedules w !! name = Some (Some item) ∧ fires authorize now w item id x) w w2).
      { eapply effect_trans; [by apply quiet_effect|]. eapply effect_mono; [|exact He2]. by intros ? ? []. }
      rewrite Hname in Hr2. destruct Hr2 as [Hs2|Hs2]; [apply Hsame; [done|congruence|done|done]|].
      apply Hdone; [done|by eapply settled_trans|done]. }
  assert (He12 : effect (λ id x, ∃ item, sp_schedules w !! name = Some (Some item) ∧ fires authorize now w item id x) w w2).
  { eapply effect_trans; [by apply quiet_effect|]. eapply effect_mono; [|exact He2]. by intros ? ? []. }
  apply wp_bind. destruct b.
  { destruct Hr2 as [Hr2 Hheld]. rewrite Hname in Hr2. apply wp_ret, wp_ret, Hdone; [done|by eapply settled_trans|].
    intros _ _. right. destruct Hheld as [Hb|(x & Hx & Hh)]; [by left|right; left]. exists x.
    unfold holds_back in *. rewrite <-(qu_occ _ _ Hq1), <-(qu_jobs _ _ Hq1). auto. }
  assert (Hs2 : sp_schedules w2 = sp_schedules w) by congruence.
  eapply wp_mono; [by apply wp_fire|]. intros r w3 (He3 & Hst3 & Hsv3).
  assert (He13 : effect (λ id x, ∃ item, sp_schedules w !! name = Some (Some item) ∧ fires authorize now w item id x) w w3).
  { eapply effect_trans; [exact He12|]. eapply effect_mono; [|exact He3]. intros id x Hf. exists item. split; [done|].
    destruct Hf as [F0 F1 F2 F3 F4 F5 F6]. split; try done. destruct He12 as [_ _ E1 E2 E3 _ _]. rewrite <- E1, <- E2. set_solver. }
  rewrite Hname in Hst3. destruct r as [[]|e]; simpl in Hst3.
  - assert (Hout : due_slot authorize now item → outcome now w w3 item).
    { intros Hds. do 3 right. destruct (Hsv3 eq_refl Hds) as [?|Hin]; [by left|right].
      rewrite (ef_receipts _ _ _ He12), (ef_archive _ _ _ He12) in Hin. pose proof (ef_quarantine _ _ _ He3). set_solver. }
    apply wp_ret. destruct Hst3 as [Hset|[Hs Hv]]; [apply Hdone; [done|by eapply settled_trans|by auto]|].
    apply Hsame; [done|congruence| |by auto]. intros _ _. by right.
  - destruct Hst3 as [Hs3|Hs3]; [apply Hsame; [done|congruence|done|done]|]. apply Hdone; [done|by eapply settled_trans|done].
Qed.

(** All the schedules, in the order of their files. *)
Lemma tick_spec authorize now nativeCron w r w' :
  spool_ok w → TickSchedules authorize now nativeCron w = (r, w') →
  effect (λ id x, ∃ name item, sp_schedules w !! name = Some (Some item) ∧ fires authorize now w item id x) w w' ∧
  spool_ok w' ∧
  (res_ok r = true → nativeCron ≠ "unmigrated" →
     (∀ name item, sp_schedules w' !! name = Some (Some item) → due_now item now = true → stuck item) ∧
     ∀ name item, sp_schedules w !! name = Some (Some item) → due_slot authorize now item → outcome now w w' item).
Proof.
  intros Hok Hrun. set (P := λ id x, ∃ name item, sp_schedules w !! name = Some (Some item) ∧ fires authorize now w item id x).
  pattern r, w'. eapply run_wp; [exact Hrun|]. clear Hrun r w'. unfold TickSchedules.
  apply wp_if; intros Hn; guards; [by apply wp_ret; split_and!; [apply quiet_effect|done|]|].
  apply wp_bind, wp_call.
  2:{ intros w1 Hq Hs _. split_and!; [by apply quiet_effect|by eapply spool_same|done]. }
  intros w1 Hq1 Hs1. apply wp_bind, wp_get. rewrite Hs1.
  set (names := merge_sort file_le (elements (dom (sp_schedules w)))).
  assert (Hperm : names ≡ₚ elements (dom (sp_schedules w))) by apply merge_sort_Permutation.
  assert (Hnd : NoDup names) by (rewrite Hperm; apply NoDup_elements).
  assert (Hin : ∀ n, n ∈ names ↔ is_Some (sp_schedules w !! n)).
  { intros n. rewrite Hperm, elem_of_elements. apply elem_of_dom. }
  set (I := λ (pre : list string) w', effect P w w' ∧ (∀ n, n ∉ pre → sp_schedules w' !! n = sp_schedules w !! n) ∧ spool_ok w').
  assert (Hstep : ∀ pre name post w2, names = (pre ++ name :: post)%list → I pre w2 →
    wp (tick_one authorize now name) (λ r w3, I (pre ++ [name])%list w3 ∧ effect P w2 w3 ∧
      tick_effect authorize name now (res_ok r) w2 w3) w2).
  { intros pre name post w2 Heq (He & Hout & Hk). rewrite Heq in Hnd. apply NoDup_app in Hnd as (_ & Hdis & Hnd').
    apply NoDup_cons in Hnd' as [Hnp _]. assert (Hnpre : name ∉ pre) by (intros Hp; apply (Hdis name Hp); set_solver).
    assert (is_Some (sp_schedules w !! name)) as [rec Hrec] by (apply Hin; rewrite Heq; set_solver).
    assert (Hid : IDPattern name = true) by (by apply Hok in Hrec as [? _]).
    eapply wp_mono; [by apply wp_tick_one|]. intros rr w3 Hte. pose proof Hte as [Te To Tk _ _].
    assert (Te' : effect P w2 w3).
    2:{ split; [|done]. split_and!; [by eapply effect_trans|intros n Hnn; rewrite To, Hout; set_solver|done]. }
    eapply effect_mono; [|exact Te]. intros id x (item & Hi & Hf).
    exists name, item. split; [by rewrite <- Hout|]. destruct Hf as [F0 F1 F2 F3 F4 F5 F6]. split; try done.
    destruct He as [_ _ E1 E2 E3 _ _]. rewrite <- E1, <- E2. set_solver. }
  eapply wp_mono.
  { apply (wp_for_fold_prefix (λ pre _ w2, I pre w2 ∧ (∀ n, n ∈ pre → ∀ item, sp_schedules w2 !! n = Some (Some item) →
      due_now item now = true → stuck item) ∧ ∀ n, n ∈ pre → ∀ item, sp_schedules w !! n = Some (Some item) →
      due_slot authorize now item → outcome now w w2 item) (λ e w2, effect P w w2 ∧ spool_ok w2)).
    - split; [|set_solver]. split_and!; [by apply quiet_effect|by intros; rewrite Hs1|by eapply spool_same].
    - intros pre name post errs w2 Heq (HI & Hset & Hsv). apply wp_bind. eapply wp_mono; [by eapply Hstep|].
      intros [bad|e] w3 (HI3 & Hef & [_ To _ Tset Tsv]).
      + apply wp_ret. split; [done|]. split.
        2:{ intros n [Hp|Hp]%elem_of_app item Hi Hd.
            - eapply outcome_later; [by eapply Hsv|exact Hef|]. destruct HI as ([] & _). done.
            - apply list_elem_of_singleton in Hp as ->. destruct HI as (He & Hout & _).
              apply (outcome_from authorize now w w2 w3 item He Hef), Tsv; [done| |done]. rewrite Hout; [done|].
              intros Hp. rewrite Heq in Hnd. apply NoDup_app in Hnd as (_ & Hdis & _). apply (Hdis name Hp). set_solver. }
        intros n [Hp|Hp]%elem_of_app item Hi Hd.
        * assert (n ≠ name). { intros ->. rewrite Heq in Hnd. apply NoDup_app in Hnd as (_ & Hdis & _). apply (Hdis name Hp). set_solver. }
          rewrite To in Hi by done. by eapply Hset.
        * apply list_elem_of_singleton in Hp as ->. by eapply Tset.
      + by destruct HI3 as (? & _ & ?). }
  intros [b|e] w2 H2'; [|by destruct H2']. destruct H2' as ((He & Hout & Hk) & Hset & Hsv). split_and!; try done.
  intros _ _. split.
  - intros name item Hi Hd. destruct (decide (name ∈ names)) as [Hm|Hm]; [by eapply Hset|].
    rewrite Hout in Hi by done. exfalso. apply Hm, Hin. by rewrite Hi.
  - intros name item Hi. eapply Hsv; [|exact Hi]. apply Hin. by eexists.
Qed.

(** C30. A tick fires every slot that is due, once.  Every occurrence it creates is that of
    a schedule that was enabled, not paused, blocked or snoozed and due, with its id made
    of the schedule, its revision and the slot, pending within the catch-up window and
    missed after it, authorized, and not settled before; no other occurrence changes,
    unless its file was not readable or is that of another job and it is in quarantine, or a
    file call failed.  When the tick has passed all schedules, then for every slot that was
    due, of a known zone, valid and authorized, an occurrence with the slot's id is there or
    was settled before (in the receipts, the archive or quarantine), unless a file call
    failed, the schedule's reference to its last occurrence is no id, or that last occurrence
    held it back: it was not readable or of another job, or it is of the same revision and
    still runs.  No schedule is due any more but those whose zone or occurrence is not valid,
    and another tick at the same instant creates nothing. *)
Theorem tick_fires_once authorize now nativeCron w r w' :
  spool_ok w → TickSchedules authorize now nativeCron w = (r, w') →
  spool_ok w' ∧
  (∀ id x, sp_occ w' !! id = Some x → sp_occ w !! id = Some x ∨
     ∃ name item, sp_schedules w !! name = Some (Some item) ∧ fires authorize now w item id x) ∧
  (∀ id x, sp_occ w !! id = Some x →
     sp_occ w' !! id = Some x ∨ (id ∈ sp_quarantine w' ∧ unreadable id x) ∨ failed_since w w') ∧
  (res_ok r = true → nativeCron ≠ "unmigrated" →
     (∀ name item, sp_schedules w !! name = Some (Some item) → due_slot authorize now item →
        is_Some (sp_occ w' !! slot_id item) ∨
        slot_id item ∈ sp_receipts w ∪ sp_archive w ∪ sp_quarantine w' ∨
        failed_since w w' ∨ bad_reference item ∨
        ∃ x, (sp_occ w !! s_LastOccurrenceID item = Some x ∨ sp_occ w' !! s_LastOccurrenceID item = Some x) ∧
          holds_back w item now x) ∧
     (∀ name item, sp_schedules w' !! name = Some (Some item) → due_now item now = true → stuck item) ∧
     (∀ r2 w2, TickSchedules authorize now nativeCron w' = (r2, w2) →
        ∀ id x, sp_occ w2 !! id = Some x → sp_occ w' !! id = Some x)).
Proof.
  intros Hok Hrun. destruct (tick_spec _ _ _ _ _ _ Hok Hrun) as (He & Hok' & Hdone).
  split; [done|]. split; [apply He|]. split; [apply He|]. intros Hr Hn. destruct (Hdone Hr Hn) as [Hst Hsv]. split_and!; [|done|].
  - intros name item Hi Hds. destruct (Hsv name item Hi Hds) as [?|[?|[(x & Hx & Hh)|[?|?]]]]; auto.
    do 4 right. exists x. split; [|done]. destruct Hx as [?|[? _]]; auto.
  - intros r2 w2 Hrun2 id x Hx. destruct (tick_spec _ _ _ _ _ _ Hok' Hrun2) as (He2 & _ & _).
    destruct (ef_new _ _ _ He2 id x Hx) as [?|(name & item & Hi & [F0 F1 F2 F3 F4 F5 F6])]; [done|]. exfalso.
    destruct (Hst name item Hi F0) as [Hz|Hv]; [|congruence]. rewrite Hz in F1. by destruct F1.
Qed.

(** * A schedule without a next slot *)

(** With calls that succeed, the rules for files have one outcome. *)
Lemma wp_call_ok (Q : res SErr unit → Spool → Prop) w :
  (∀ n, host_ok n = true) → (∀ w', quiet w w' → sp_schedules w' = sp_schedules w → Q (Ok tt) w') → wp call Q w.
Proof. intros Hh HQ. apply wp_call; [done|]. intros w' _ _ (n & _ & Hn). by rewrite Hh in Hn. Qed.

(** A cron expression that has no slot within the horizon of [NextCron] stops the tick: the
    error is returned at once, no schedule changes, and none that comes later in the
    directory has its pass, now or at any later tick. *)
Lemma tick_stops authorize now w name item rest loc e :
  (∀ n, host_ok n = true) → spool_ok w →
  merge_sort file_le (elements (dom (sp_schedules w))) = name :: rest →
  sp_schedules w !! name = Some (Some item) → s_ScheduleID item ≠ "" → s_LastOccurrenceID item = "" →
  due_now item now = true → LoadLocation (s_Timezone item) = Some loc → is_once item = false →
  ValidateOccurrence (draft_occurrence item (slot_due item)) (s_Envelope item) = true →
  (∀ f, authorize = Some f → f (o_Job (draft_occurrence item (slot_due item))) = true) →
  NextSchedule (with_last (occurrence_key (s_ScheduleID item) (s_Revision item) (slot_due item)) item) loc now = Err (TCron e) →
  wp (TickSchedules authorize now "migrated") (λ r w', r = Err (STiming (TCron e)) ∧ sp_schedules w' = sp_schedules w) w.
Proof.
  intros Hh Hok Hsort Hrec Hid Hlast Hdue Hloc Honce Hval Hauth Hnext. unfold TickSchedules.
  apply wp_if; intros Hn; guards; [done|]. apply wp_bind, wp_call_ok; [done|]. intros w1 Hq1 Hs1. apply wp_bind, wp_get.
  rewrite Hs1, Hsort. unfold for_fold; fold (@for_fold Spool SErr). apply wp_bind, wp_bind.
  destruct (Hok _ _ Hrec) as [Hpat _]. unfold tick_one. apply wp_bind, wp_try. unfold LoadScheduleLocked, FileID. rewrite Hpat.
  apply wp_bind, wp_call_ok; [done|]. intros w2 Hq2 Hs2. apply wp_bind, wp_get. rewrite Hs2, Hs1, Hrec.
  apply wp_bind, wp_ret, wp_bind, wp_ret, wp_bind. rewrite bool_decide_eq_false_2 by done. apply wp_ret, wp_ret.
  rewrite Hdue, Hloc. unfold negb. fold (slot_due item). unfold check_last. rewrite Hlast. apply wp_bind, wp_ret, wp_bind.
  unfold fire. rewrite Hval. unfold negb at 1.
  destruct (match authorize with Some f => _ | None => false end) eqn:Ha.
  { destruct authorize as [f|]; [|done]. by rewrite (Hauth f eq_refl) in Ha. }
  assert (Hset : ∀ w3, sp_schedules w3 = sp_schedules w →
    wp (settleScheduleLocked (with_last (occurrence_key (s_ScheduleID item) (s_Revision item) (slot_due item)) item) loc now)
      (λ r w', r = Err (STiming (TCron e)) ∧ sp_schedules w' = sp_schedules w) w3).
  { intros w3 Hs3. unfold settleScheduleLocked. change (is_once (with_last _ item)) with (is_once item).
    rewrite Honce, Hnext. by apply wp_throw. }
  eapply (wp_mono _ (λ r w', r = Err (STiming (TCron e)) ∧ sp_schedules w' = sp_schedules w)); [|by intros r w' [-> ?]].
  apply wp_bind, wp_stat_occ. intros present w3 Hq3 Hs3 _. destruct present; [apply Hset; congruence|].
  apply wp_bind, wp_stat_settled.
  2:{ intros x w4 _ _ (n & _ & Hn'). by rewrite Hh in Hn'. }
  intros found w4 Hq4 Hs4 _. apply wp_bind. destruct found; [apply wp_ret, Hset; congruence|].
  apply wp_bind, wp_call_ok; [done|]. intros w5 Hq5 Hs5. apply wp_bind, wp_modify, wp_call_ok; [done|].
  intros w6 Hq6 Hs6. apply Hset. rewrite Hs6. simpl. congruence.
Qed.
End Tick.
