(* ===== verification/SchedulesWitness.v ===== *)
(** The theorem about ticks at a concrete spool, and the schedule of a leap day, which
    stops the tick. *)
From stdpp Require Import base gmap strings list pretty sorting.
From Stdlib Require Import Ascii String.
From S2P Require Import Prelude GoStrings BrokerIdentity Contract Calendar Cron CronProps RoutineTypes Timing TimingProps Schedules SchedulesProps.
Local Open Scope string_scope.
Local Open Scope Z_scope.

Module SchedulesExample.

#[export] Instance texts : RoutineWorld := {|
r_sha256_hex := λ s, String.concat "" (map (λ c, if is_digit c then String c "" else "f") (list_ascii_of_string s));
format_RFC3339Nano := λ t, pretty t;
ParseDuration := λ s, if s == "1h" then Some Hour else None;
|}.

#[export] Instance no_times : TimeText := {| parse_RFC3339 := λ _, None |}.

#[export] Instance host : RoutineDeps := {|
host_ok := λ _, true;
clock_now := λ _, 0;
LoadLocation := λ tz, if tz == "UTC" then Some UTC else None;
channelFor := λ id, if id == "telegram" then Some (λ _ _, true) else None;
RouteBlockedNotice := λ _ d, d;
normalizeDelivery := λ d, Some d;
EnqueueDelivery := λ _, true;
LoadMapping := λ _, NoMapping;
blocked_text := λ _ id reason, id ++ ": " ++ reason;
|}.

Definition env : Envelope :=
mkEnvelope 1 "alice" "telegram-7" "alice" "rt" "telegram-7" "telegram-7" "p1" "" "" "" 0 [].
Definition route : Routing := mkRouting "" "alice" "alice" "user:alice" "telegram" 7 "" 0 "" "" "" 0.

Definition schedule (id expr kind : string) (due : Z) : Schedule :=
mkSchedule id 1 env route "UTC" expr None zero_time kind zero_time "water the plants" true false due "" "" "" zero_time ""
  0 "" 0.

Definition noon : Z := Date UTC 2024 3 4 12 0 0.
Definition spool : Spool :=
mkSpool {["a" := Some (schedule "a" "every:1h" "reminder" noon);
          "b" := Some (schedule "b" "0 9 * * *" "reminder" (noon - 3 * Hour));
          "c" := Some (schedule "c" "0 9 * * *" "reminder" (noon + 21 * Hour));
          "d" := None]} ∅ ∅ ∅ ∅ ∅ ∅ ∅ [] 0.

Definition allow_all : option (Job → bool) := Some (λ _, true).
Definition ticked := TickSchedules allow_all (noon + Minute) "migrated" spool.

Lemma spool_is_ok : spool_ok spool.
Proof.
  intros name r Hr. change (({["a" := Some (schedule "a" "every:1h" "reminder" noon);
    "b" := Some (schedule "b" "0 9 * * *" "reminder" (noon - 3 * Hour));
    "c" := Some (schedule "c" "0 9 * * *" "reminder" (noon + 21 * Hour)); "d" := None]} : gmap string (option Schedule)) !! name = Some r) in Hr.
  repeat (apply lookup_insert_Some in Hr as [[<- <-]|[_ Hr]]; [split; [reflexivity|by intros ? [= <-]]|]).
  apply lookup_singleton_Some in Hr as [<- <-]. split; [reflexivity|done].
Qed.

(** Which occurrences are there, and their states. *)
Definition states (w : Spool) : list (option string) :=
map (λ id, sp_occ w !! id ≫= λ x, x ≫= λ o, Some (o_State o))
  [occurrence_key "a" 1 noon; occurrence_key "b" 1 (noon - 3 * Hour); occurrence_key "c" 1 (noon + 21 * Hour)].

Lemma tick_fires_once_witness :
  states ticked.2 = [Some "pending"; Some "missed"; None] ∧ sp_bad ticked.2 = {["d"]} ∧
  ∀ name item, sp_schedules ticked.2 !! name = Some (Some item) → due_now item (noon + Minute) = true → stuck item.
Proof.
  destruct (tick_fires_once allow_all (noon + Minute) "migrated" spool ticked.1 ticked.2 spool_is_ok (surjective_pairing _))
    as (_ & _ & _ & Hdone).
  assert (Hr : res_ok ticked.1 = true) by (vm_compute; reflexivity).
  assert (Hs : states ticked.2 = [Some "pending"; Some "missed"; None]) by (vm_compute; reflexivity).
  assert (Hb : sp_bad ticked.2 = {["d"]}) by (vm_compute; reflexivity).
  exact (conj Hs (conj Hb (proj1 (proj2 (Hdone Hr ltac:(discriminate)))))).
Defined.

(** ** A leap day *)

Definition leap_spool : Spool :=
mkSpool {["birthday" := Some (schedule "birthday" "0 0 29 2 *" "reminder" leap_start);
          "daily" := Some (schedule "daily" "0 9 * * *" "reminder" (leap_start - 15 * Hour))]} ∅ ∅ ∅ ∅ ∅ ∅ ∅ [] 0.

(** On the leap day the schedule of that day ends the tick with an error, and a daily
    reminder after it, due for hours, is not served. *)
Example leap_day_starves : ∃ w',
  TickSchedules allow_all leap_start "migrated" leap_spool = (Err (STiming (TCron CNone)), w') ∧
  sp_schedules w' = sp_schedules leap_spool ∧
  due_now (schedule "daily" "0 9 * * *" "reminder" (leap_start - 15 * Hour)) leap_start = true.
Proof.
  pose proof (tick_stops allow_all leap_start leap_spool "birthday" (schedule "birthday" "0 0 29 2 *" "reminder" leap_start)
    ["daily"] UTC CNone) as Hw.
  unfold wp in Hw. destruct (TickSchedules allow_all leap_start "migrated" leap_spool) as [r w'] eqn:E.
  destruct Hw as [-> Hs].
  - done.
  - intros name r' Hr. change (({["birthday" := Some (schedule "birthday" "0 0 29 2 *" "reminder" leap_start);
      "daily" := Some (schedule "daily" "0 9 * * *" "reminder" (leap_start - 15 * Hour))]} : gmap string (option Schedule)) !! name = Some r') in Hr.
    apply lookup_insert_Some in Hr as [[<- <-]|[_ Hr]]; [split; [reflexivity|by intros ? [= <-]]|].
    apply lookup_singleton_Some in Hr as [<- <-]. split; [reflexivity|by intros ? [= <-]].
  - vm_compute. reflexivity.
  - vm_compute. reflexivity.
  - done.
  - done.
  - vm_compute. reflexivity.
  - reflexivity.
  - vm_compute. reflexivity.
  - vm_compute. reflexivity.
  - by intros f [= <-].
  - unfold NextSchedule. cbn [s_Expression s_Delivery s_Timing with_last schedule].
    assert (HasPrefix (TrimSpace "0 0 29 2 *") "every:" = false) as -> by (vm_compute; reflexivity). cbn [andb negb].
    unfold NextExpression. assert (TrimSpace "0 0 29 2 *" = "0 0 29 2 *") as -> by (vm_compute; reflexivity).
    assert (HasPrefix "0 0 29 2 *" "once:" = false) as -> by (vm_compute; reflexivity).
    by rewrite leap_day_not_found.
  - exists w'. refine (conj eq_refl (conj Hs _)). vm_compute. reflexivity.
Qed.
End SchedulesExample.
