(* ===== verification/SpoolTypes.v ===== *)
(** The records of the job queue (commodel/mapping.go, commodel/delivery.go, runtime/server.go,
    communication/budget.go, job_mapping.go, stream.go) and what its code computes without
    touching a file.

    A mapping is the durable account of a job.  Its struct is flat in Go; here the fields
    that are copied once, at acceptance, are the record [Binding], and the fields that are
    always written together are records of their own.  The presentation snapshot (style) is
    left out. *)
From stdpp Require Import base gmap strings list pretty.
From Stdlib Require Import Ascii String.
From S2P Require Import Prelude GoStrings BrokerIdentity Contract Calendar Cron RoutineTypes Timing Schedules.
Local Open Scope string_scope.
Local Open Scope Z_scope.

Inductive HErr := HIO | HNotExist | HCorrupt | HConflict | HOwner | HFull | HRefused | HStale | HNoSecret.

(** * Mappings *)

(** What a mapping says of the job, copied at acceptance. *)
Record Binding := mkBinding {
  b_JobID : string;
  b_IdempotencyKey : string;
  b_Fingerprint : string;
  b_OperationalEpoch : Z;
  b_RoutineOriginVersion : Z;
  b_IdentitySchema : Z;
  b_ExternalIdentityID : string;
  b_PrincipalID : string;
  b_ContextID : string;
  b_RuntimeID : string;
  b_ConversationID : string;
  b_DeliveryTargetID : string;
  b_PolicyVersion : string;
  b_OrganizationID : string;
  b_UserID : string;
  b_ActorID : string;
  b_ScopeID : string;
  b_Channel : string;
  b_Trigger : string;
  b_AssignmentID : string;
  b_TaskID : string;
  b_TopicID : Z;
  b_ChatID : Z;
  b_CreatedAt : Z;
}.
Global Instance Binding_eq_dec : EqDecision Binding.
Proof. solve_decision. Defined.

(** The run a job was admitted as. *)
Record RunRef := mkRun { r_SessionID : string; r_RunID : string; r_Generation : string }.
Global Instance RunRef_eq_dec : EqDecision RunRef.
Proof. solve_decision. Defined.

Record Approval := mkApproval { a_ID : string; a_Choices : list string; a_Deadline : Z; a_State : string }.

Record PendingControl := mkControl {
  c_NextAttemptAt : Z; c_Caller : Envelope; c_Action : string; c_RequestID : string; c_Choice : string; c_State : string }.

Record Observation := mkObservation { ob_Attempts : Z; ob_NextAt : Z; ob_UncertainSince : Z }.

Record EventTrace := mkTrace { tr_LastKnownEvent : string; tr_Position : Z; tr_LastEventID : string; tr_StatusText : string }.

Record JobMapping := mkMapping {
  m_Binding : Binding;
  m_Status : string;
  m_Run : RunRef;
  m_Result : string;
  m_Control : option PendingControl;
  m_CancelRequested : bool;
  m_Approval : Approval;
  m_Observation : Observation;
  m_Trace : EventTrace;
  m_UpdatedAt : Z;
  m_TerminalAt : Z;
}.

Definition m_JobID (m : JobMapping) : string := b_JobID (m_Binding m).

(** [terminalStatus(mapping.Status)] *)
Definition m_terminal (m : JobMapping) : bool := TerminalStatus (m_Status m).

(** A run was durably admitted. *)
Definition admitted (r : RunRef) : bool :=
  negb (r_RunID r == "") && negb (r_SessionID r == "") && negb (r_Generation r == "").

(** [mappingHoldsContext] *)
Definition mappingHoldsContext (m : JobMapping) : bool :=
  if m_terminal m then false else admitted (m_Run m).

(** [RunOutcome] *)
Record RunOutcome := mkOutcome {
  oc_Text : string; oc_JobID : string; oc_SessionID : string; oc_RunID : string; oc_Generation : string;
  oc_Status : string; oc_LastEvent : string }.

(** An outcome that only says what happened. *)
Definition plain_outcome (jobID status event : string) : RunOutcome := mkOutcome "" jobID "" "" "" status event.

(** [ConversationMapping] *)
Record ConversationMapping := mkConversation {
  cv_PrincipalID : string; cv_ContextID : string; cv_ConversationID : string; cv_SessionID : string; cv_UpdatedAt : Z }.

(** * Lanes *)

(** [jobFairKey] and [jobContextKey] *)
Definition jobFairKey (principal contextID : string) : string := principal ++ NULs ++ contextID.
Definition jobContextKey (principal contextID conversationID : string) : string :=
  if conversationID == "" then jobFairKey principal contextID
  else jobFairKey principal contextID ++ NULs ++ conversationID.

Definition job_lane (j : Job) : string :=
  jobContextKey (e_PrincipalID (j_Envelope j)) (e_ContextID (j_Envelope j)) (e_ConversationID (j_Envelope j)).
Definition job_scope (j : Job) : string := jobFairKey (e_PrincipalID (j_Envelope j)) (e_ContextID (j_Envelope j)).
Definition mapping_lane (m : JobMapping) : string :=
  jobContextKey (b_PrincipalID (m_Binding m)) (b_ContextID (m_Binding m)) (b_ConversationID (m_Binding m)).

(** * The budget ledger *)

Record reservation := mkReservation {
  rv_JobID : string; rv_ScopeID : string; rv_Principal : string; rv_Estimate : Z; rv_State : string;
  rv_Charged : Z; rv_CreatedAt : Z }.

Record scopeBudget := mkScope {
  sc_PendingJobs : Z; sc_ReservedTokens : Z; sc_SettledIn : Z; sc_SettledOut : Z; sc_Unknown : Z; sc_Day : string }.

Record budgetLedger := mkLedger { bl_Reservations : gmap string reservation; bl_Scopes : gmap string scopeBudget }.

Record usageEntry := mkUsage { u_JobID : string; u_InputTokens : option Z; u_OutputTokens : option Z }.

Record spoolLimits := mkLimits {
  MaxPendingPerScope : Z; MaxPendingTotal : Z; ScopeTokenDaily : Z; MaxBytes : Z; MaxDeliveries : Z; MaxParallelPerContext : Z }.

Definition defaultTokenEstimate : Z := 8192.
Definition installationScope : string := "_install".
Definition empty_ledger : budgetLedger := mkLedger ∅ ∅.
Definition zero_scope : scopeBudget := mkScope 0 0 0 0 0 "".

(** [t.Format("2006-01-02")] *)
Definition day_text (t : Z) : string :=
  let y := Year UTC t in
  (if y <? 10 then "000" else if y <? 100 then "00" else if y <? 1000 then "0" else "") ++ pretty y ++ "-" ++
  pad2 (Z.to_nat (Month UTC t)) ++ "-" ++ pad2 (Z.to_nat (Day UTC t)).

(** * Deliveries and stream receipts *)

Record Delivery := mkDelivery {
  d_ID : string;
  d_OccurrenceID : string;
  d_JobID : string;
  d_ConversationID : string;
  d_DeliveryTargetID : string;
  d_Channel : string;
  d_ChatID : Z;
  d_TaskID : string;
  d_TopicID : Z;
  d_SlackChannel : string;
  d_SlackThread : string;
  d_Text : string;
  d_Format : string;
  d_NotBefore : Z;
  d_Artifacts : list string;
  d_Buttons : list (string * string);
  d_ApprovalJobID : string;
  d_ApprovalID : string;
  d_ApprovalRunID : string;
  d_ApprovalGeneration : string;
  d_TelegramMessageID : Z;
  d_EditMessageID : Z;
  d_StreamPosition : Z;
  d_StatusClosed : bool;
  d_Control : bool;
  d_CreatedAt : Z;
}.

(** [ExecuteResponse] *)
Record RunEvent := mkEvent {
  ev_Text : string; ev_JobID : string; ev_SessionID : string; ev_RunID : string; ev_Generation : string;
  ev_Status : string; ev_LastEvent : string; ev_EventID : string; ev_ApprovalID : string;
  ev_ApprovalChoices : list string; ev_ApprovalSummary : string; ev_Artifacts : list string }.

Record streamReceipt := mkReceipt {
  sr_JobID : string; sr_Position : Z; sr_Event : RunEvent; sr_Delivery : option Delivery;
  sr_ApprovalDeadline : Z; sr_StatusDelivery : bool }.

Record approvalCallback := mkCallback { cb_JobID : string; cb_RequestID : string; cb_Choice : string }.

(** A conversation of its owner in a chat, with its own session. *)
Record Task := mkTask {
  tk_Schema : Z;
  tk_TaskID : string;
  tk_Name : string;
  tk_PrincipalID : string;
  tk_ContextID : string;
  tk_Channel : string;
  tk_Peer : string;
  tk_ChatID : Z;
  tk_TopicID : Z;
  tk_ConversationID : string;
  tk_Style : string;
  tk_StyleVersion : Z;
  tk_Archived : bool;
  tk_NameAuto : bool;
  tk_CreatedAt : Z;
  tk_UpdatedAt : Z;
}.

(** The directory [tasks]: the records, the current task of a chat and the task of a topic. *)
Record TaskFiles := mkTaskFiles {
  tf_tasks : gmap string (option Task);
  tf_current : gmap string (option string);
  tf_topics : gmap string (option string);
}.
Definition no_tasks : TaskFiles := mkTaskFiles ∅ ∅ ∅.

Record masterHold := mkHold { mh_PrincipalID : string; mh_ContextID : string; mh_Active : bool; mh_Epoch : Z }.

(** An assignment, as far as a wake asks ([AssignmentForWakeLocked]). *)
Record Assignment := mkAssignment {
  as_AssignmentID : string; as_State : string; as_AppliedRev : Z; as_PlanRevision : option Z }.

(** * The world of the queue *)

(** JSON of the fields a fingerprint covers, sizes of files, the order in which Go visits a
    map, what the supervisor says of holds, the channel adapters and the message catalog. *)
Class QueueWorld := {
  fingerprint_json : Z → Envelope → list string → string;
  file_size : option Job → Z;
  q_order : nat → list string → list string;
  q_order_perm : ∀ n l, q_order n l ≡ₚ l;
  refreshHolds : nat → option bool;
  holdsSnapshot : nat → option (list masterHold);
  channel_adapter : string → option (Delivery → option Delivery);
  EditableStatus : string → bool;
  locale_T : string → string → list string → string;
  RunBudget : Z;
  limitsFromEnv : spoolLimits;
}.

Section Pure.
Context `{RoutineWorld} `{QueueWorld}.

(** [JobFingerprint] *)
Definition JobFingerprint (j : Job) : string :=
  let r := j_Routing j in
  let textHash := if j_TextSHA256 j == "" then r_sha256_hex (j_Text j) else j_TextSHA256 j in
  r_sha256_hex (fingerprint_json (j_OperationalEpoch j) (j_Envelope j)
    [ro_OrganizationID r; ro_UserID r; ro_ActorID r; ro_ScopeID r; ro_Channel r; j_Trigger j; ro_SlackChannel r; ro_SlackThread r;
     textHash]).

(** [MappingFromJob] *)
Definition MappingFromJob (j : Job) (now : Z) : JobMapping :=
  let e := j_Envelope j in
  let r := j_Routing j in
  mkMapping
    (mkBinding (j_ID j) (j_IdempotencyKey j) (JobFingerprint j) (j_OperationalEpoch j) 1 (e_Schema e) (e_ExternalIdentityID e)
       (e_PrincipalID e) (e_ContextID e) (e_RuntimeID e) (e_ConversationID e) (e_DeliveryTargetID e) (e_PolicyVersion e)
       (ro_OrganizationID r) (ro_UserID r) (ro_ActorID r) (ro_ScopeID r) (ro_Channel r) (j_Trigger j) (ro_AssignmentID r)
       (ro_TaskID r) (ro_TopicID r) (ro_ChatID r) now)
    "accepted" (mkRun "" "" "") "" None false (mkApproval "" [] zero_time "") (mkObservation 0 zero_time zero_time)
    (mkTrace "job.accepted" 0 "" "") now zero_time.

(** [ownsMapping] *)
Definition ownsMapping (caller : Envelope) (m : JobMapping) : bool :=
  let b := m_Binding m in
  negb (e_Schema caller =? 0) && (e_Schema caller =? b_IdentitySchema b) && (e_ExternalIdentityID caller != "")
  && (e_ExternalIdentityID caller == b_ExternalIdentityID b) && (e_PrincipalID caller == b_PrincipalID b)
  && (e_ContextID caller == b_ContextID b) && (e_ConversationID caller == b_ConversationID b)
  && (e_DeliveryTargetID caller == b_DeliveryTargetID b) && (e_RuntimeID caller == b_RuntimeID b)
  && (e_PolicyVersion caller == b_PolicyVersion b).

(** [ownsStreamMapping] *)
Definition ownsStreamMapping (j : Job) (m : JobMapping) : bool :=
  let b := m_Binding m in
  let r := j_Routing j in
  ownsMapping (j_Envelope j) m && (ro_ActorID r == b_ActorID b) && (ro_UserID r == b_UserID b)
  && (ro_OrganizationID r == b_OrganizationID b) && (ro_ScopeID r == b_ScopeID b) && (ro_Channel r == b_Channel b)
  && (j_Trigger j == b_Trigger b) && (j_IdempotencyKey j == b_IdempotencyKey b).

(** [outcomeFromEvent] *)
Definition outcomeFromEvent (e : RunEvent) : RunOutcome :=
  mkOutcome (ev_Text e) (ev_JobID e) (ev_SessionID e) (ev_RunID e) (ev_Generation e) (ev_Status e) (ev_LastEvent e).

(** [staleReceipt] *)
Definition staleReceipt (m : JobMapping) (e : RunEvent) : bool :=
  if negb (m_terminal m) then false
  else if (ev_Status e != "") && (ev_Status e != m_Status m) then true
  else (m_Result m != "") && (ev_Text e != "") && (ev_Text e != m_Result m).

(** [failureMessage] *)
Definition failureMessage (principal jobID status : string) : string :=
  let key := if status == "cancelled" then "job.cancelled" else if status == "interrupted" then "job.interrupted" else "job.failed" in
  locale_T principal key [jobID].

(** [normalizeDelivery] *)
Definition with_channel (c : string) (d : Delivery) : Delivery :=
  mkDelivery (d_ID d) (d_OccurrenceID d) (d_JobID d) (d_ConversationID d) (d_DeliveryTargetID d) c (d_ChatID d) (d_TaskID d)
    (d_TopicID d) (d_SlackChannel d) (d_SlackThread d) (d_Text d) (d_Format d) (d_NotBefore d) (d_Artifacts d) (d_Buttons d)
    (d_ApprovalJobID d) (d_ApprovalID d) (d_ApprovalRunID d) (d_ApprovalGeneration d) (d_TelegramMessageID d) (d_EditMessageID d)
    (d_StreamPosition d) (d_StatusClosed d) (d_Control d) (d_CreatedAt d).
Definition with_control (d : Delivery) : Delivery :=
  mkDelivery (d_ID d) (d_OccurrenceID d) (d_JobID d) (d_ConversationID d) (d_DeliveryTargetID d) (d_Channel d) (d_ChatID d)
    (d_TaskID d) (d_TopicID d) (d_SlackChannel d) (d_SlackThread d) (d_Text d) (d_Format d) (d_NotBefore d) (d_Artifacts d)
    (d_Buttons d) (d_ApprovalJobID d) (d_ApprovalID d) (d_ApprovalRunID d) (d_ApprovalGeneration d) (d_TelegramMessageID d)
    (d_EditMessageID d) (d_StreamPosition d) (d_StatusClosed d) true (d_CreatedAt d).
Definition normalizeDelivery (d : Delivery) : option Delivery :=
  if (d_Format d != "") && (d_Format d != "markdown") then None
  else
    let d := if d_Channel d == "" then with_channel "telegram_bot" d else d in
    match channel_adapter (d_Channel d) with
    | None => None
    | Some normalize =>
        match normalize d with
        | None => None
        | Some d => Some (if d_ApprovalID d != "" then with_control d else d)
        end
    end.
End Pure.
