(* ===== verification/SpoolQueue.v ===== *)
(** The durable job queue (communication/spool.go, job_mapping.go, budget.go): its state, its
    mappings and the budget ledger.

    The spool is a tree of directories in which renames are the state machine of a job:
    [q_jobs] maps a directory and a file name to the job file there.  A file that cannot be
    decoded is [None].  Every file call can fail ([hcall]), and a write that replaced its
    file can fail afterwards in the sync of the directory.  What the process keeps in memory
    (the secrets, the lanes in flight, the ledger) is part of the state and is lost when the
    spool is opened again. *)
From stdpp Require Import base gmap strings list pretty sorting.
From Stdlib Require Import Ascii String.
From S2P Require Import Prelude GoStrings BrokerIdentity Contract Calendar Cron RoutineTypes Timing Schedules SpoolTypes.
Local Open Scope string_scope.
Local Open Scope Z_scope.

Record JobFile := mkJobFile { jf_Mod : Z; jf_Job : option Job }.

(** A file of the shared events directory. *)
Inductive EventFile := EvReceipt (r : streamReceipt) | EvForeign | EvBad.

Record Hub := mkHub {
  h_rt : Spool;                                          (** schedules, occurrences, the call counter *)
  q_jobs : gmap (string * string) JobFile;               (** pending, running, done, failed *)
  q_maps : gmap string (option JobMapping);              (** mappings *)
  q_index : gmap string (option string);                 (** mappings/by-key *)
  q_convs : gmap string ConversationMapping;             (** conversations *)
  q_tasks : TaskFiles;
  q_assignments : gmap string (option Assignment);
  q_cursor : option (option string);                     (** admission-cursor.json *)
  q_events : gmap string EventFile;
  q_callbacks : gmap string approvalCallback;
  q_outbox : gmap (string * string) (option Delivery);   (** pending, sending, done, failed *)
  q_usage : option (list usageEntry);                    (** usage.jsonl; [None]: not readable *)
  q_ledger : option (option budgetLedger);               (** budget.json *)
  q_secret : gmap string string;
  q_flight : gmap string string;                         (** lane to job *)
  q_active : option (gset string);
  q_budget : budgetLedger;
  q_broken : bool;
  q_limits : spoolLimits;
}.

Definition set_rt x w := mkHub x (q_jobs w) (q_maps w) (q_index w) (q_convs w) (q_tasks w) (q_assignments w) (q_cursor w) (q_events w) (q_callbacks w) (q_outbox w) (q_usage w) (q_ledger w) (q_secret w) (q_flight w) (q_active w) (q_budget w) (q_broken w) (q_limits w).
Definition set_jobs x w := mkHub (h_rt w) x (q_maps w) (q_index w) (q_convs w) (q_tasks w) (q_assignments w) (q_cursor w) (q_events w) (q_callbacks w) (q_outbox w) (q_usage w) (q_ledger w) (q_secret w) (q_flight w) (q_active w) (q_budget w) (q_broken w) (q_limits w).
Definition set_maps x w := mkHub (h_rt w) (q_jobs w) x (q_index w) (q_convs w) (q_tasks w) (q_assignments w) (q_cursor w) (q_events w) (q_callbacks w) (q_outbox w) (q_usage w) (q_ledger w) (q_secret w) (q_flight w) (q_active w) (q_budget w) (q_broken w) (q_limits w).
Definition set_index x w := mkHub (h_rt w) (q_jobs w) (q_maps w) x (q_convs w) (q_tasks w) (q_assignments w) (q_cursor w) (q_events w) (q_callbacks w) (q_outbox w) (q_usage w) (q_ledger w) (q_secret w) (q_flight w) (q_active w) (q_budget w) (q_broken w) (q_limits w).
Definition set_convs x w := mkHub (h_rt w) (q_jobs w) (q_maps w) (q_index w) x (q_tasks w) (q_assignments w) (q_cursor w) (q_events w) (q_callbacks w) (q_outbox w) (q_usage w) (q_ledger w) (q_secret w) (q_flight w) (q_active w) (q_budget w) (q_broken w) (q_limits w).
Definition set_tasks x w := mkHub (h_rt w) (q_jobs w) (q_maps w) (q_index w) (q_convs w) x (q_assignments w) (q_cursor w) (q_events w) (q_callbacks w) (q_outbox w) (q_usage w) (q_ledger w) (q_secret w) (q_flight w) (q_active w) (q_budget w) (q_broken w) (q_limits w).
Definition set_cursor x w := mkHub (h_rt w) (q_jobs w) (q_maps w) (q_index w) (q_convs w) (q_tasks w) (q_assignments w) x (q_events w) (q_callbacks w) (q_outbox w) (q_usage w) (q_ledger w) (q_secret w) (q_flight w) (q_active w) (q_budget w) (q_broken w) (q_limits w).
Definition set_events x w := mkHub (h_rt w) (q_jobs w) (q_maps w) (q_index w) (q_convs w) (q_tasks w) (q_assignments w) (q_cursor w) x (q_callbacks w) (q_outbox w) (q_usage w) (q_ledger w) (q_secret w) (q_flight w) (q_active w) (q_budget w) (q_broken w) (q_limits w).
Definition set_callbacks x w := mkHub (h_rt w) (q_jobs w) (q_maps w) (q_index w) (q_convs w) (q_tasks w) (q_assignments w) (q_cursor w) (q_events w) x (q_outbox w) (q_usage w) (q_ledger w) (q_secret w) (q_flight w) (q_active w) (q_budget w) (q_broken w) (q_limits w).
Definition set_deliveries x w := mkHub (h_rt w) (q_jobs w) (q_maps w) (q_index w) (q_convs w) (q_tasks w) (q_assignments w) (q_cursor w) (q_events w) (q_callbacks w) x (q_usage w) (q_ledger w) (q_secret w) (q_flight w) (q_active w) (q_budget w) (q_broken w) (q_limits w).
Definition set_ledger x w := mkHub (h_rt w) (q_jobs w) (q_maps w) (q_index w) (q_convs w) (q_tasks w) (q_assignments w) (q_cursor w) (q_events w) (q_callbacks w) (q_outbox w) (q_usage w) x (q_secret w) (q_flight w) (q_active w) (q_budget w) (q_broken w) (q_limits w).
Definition set_secret x w := mkHub (h_rt w) (q_jobs w) (q_maps w) (q_index w) (q_convs w) (q_tasks w) (q_assignments w) (q_cursor w) (q_events w) (q_callbacks w) (q_outbox w) (q_usage w) (q_ledger w) x (q_flight w) (q_active w) (q_budget w) (q_broken w) (q_limits w).
Definition set_flight x w := mkHub (h_rt w) (q_jobs w) (q_maps w) (q_index w) (q_convs w) (q_tasks w) (q_assignments w) (q_cursor w) (q_events w) (q_callbacks w) (q_outbox w) (q_usage w) (q_ledger w) (q_secret w) x (q_active w) (q_budget w) (q_broken w) (q_limits w).
Definition set_actives x w := mkHub (h_rt w) (q_jobs w) (q_maps w) (q_index w) (q_convs w) (q_tasks w) (q_assignments w) (q_cursor w) (q_events w) (q_callbacks w) (q_outbox w) (q_usage w) (q_ledger w) (q_secret w) (q_flight w) x (q_budget w) (q_broken w) (q_limits w).
Definition set_budget x w := mkHub (h_rt w) (q_jobs w) (q_maps w) (q_index w) (q_convs w) (q_tasks w) (q_assignments w) (q_cursor w) (q_events w) (q_callbacks w) (q_outbox w) (q_usage w) (q_ledger w) (q_secret w) (q_flight w) (q_active w) x (q_broken w) (q_limits w).

Definition with_binding (b : Binding) (m : JobMapping) : JobMapping :=
  mkMapping b (m_Status m) (m_Run m) (m_Result m) (m_Control m) (m_CancelRequested m) (m_Approval m) (m_Observation m) (m_Trace m)
    (m_UpdatedAt m) (m_TerminalAt m).
Definition with_status (s : string) (m : JobMapping) : JobMapping :=
  mkMapping (m_Binding m) s (m_Run m) (m_Result m) (m_Control m) (m_CancelRequested m) (m_Approval m) (m_Observation m) (m_Trace m)
    (m_UpdatedAt m) (m_TerminalAt m).
Definition with_ctl (c : option PendingControl) (m : JobMapping) : JobMapping :=
  mkMapping (m_Binding m) (m_Status m) (m_Run m) (m_Result m) c (m_CancelRequested m) (m_Approval m) (m_Observation m) (m_Trace m)
    (m_UpdatedAt m) (m_TerminalAt m).

Section Queue.
Context `{RoutineWorld} `{TimeText} `{RoutineDeps} `{Unicode} `{QueueWorld}.
Abbreviation Q := (M Hub HErr).

(** * Files *)

(** An operation of the routine engine on its part of the tree. *)
Definition rt_err (e : SErr) : HErr := match e with SIO => HIO | SNotFound => HNotExist | _ => HCorrupt end.
Definition on_rt {A} (m : M Spool SErr A) : Q A := λ w,
  let '(r, s) := m (h_rt w) in (match r with Ok a => Ok a | Err e => Err (rt_err e) end, set_rt s w).

Definition hcall : Q unit := on_rt call.
Definition hnow : Q Z := on_rt now_.

(** [atomicJSON] *)
Definition hwrite (f : Hub → Hub) : Q unit := hcall ;; modify f ;; hcall.

(** [os.ReadFile] and [os.Stat]: whether and what there is. *)
Definition hread {A} (look : Hub → option A) : Q (option A) := hcall ;; w ← get; mret (look w).

(** [os.Rename] of a job file. *)
Definition rename_job (from to name : string) : Q unit :=
  hcall ;; w ← get;
  f ← some_or (q_jobs w !! (from, name)) HNotExist;
  modify (set_jobs (<[(to, name) := f]> (delete (from, name) (q_jobs w)))).

(** The [.json] files of a directory, in the order of [os.ReadDir]. *)
Definition names_in {A} (dir : string) (m : gmap (string * string) A) : list string :=
  merge_sort file_le (omap (λ k, if k.1 == dir then Some k.2 else None) (map_to_list m).*1).
Definition names_of {A} (m : gmap string A) : list string := merge_sort file_le (map_to_list m).*1.

Definition job_dirs : list string := ["pending"; "running"; "done"; "failed"].

(** * Mappings *)

Definition index_name (key : string) : string := r_sha256_hex key.

Definition writeIdempotencyIndexLocked (key jobID : string) : Q unit :=
  hwrite (λ w, set_index (<[index_name key := Some jobID]> (q_index w)) w).

Definition writeMappingLocked (m : JobMapping) : Q unit :=
  hwrite (λ w, set_maps (<[FileID (m_JobID m) := Some m]> (q_maps w)) w) ;;
  modify (λ w, set_actives (match q_active w with
                            | Some s => Some (if m_terminal m then s ∖ {[m_JobID m]} else {[m_JobID m]} ∪ s)
                            | None => None
                            end) w) ;;
  if TrimSpace (b_IdempotencyKey (m_Binding m)) == "" then mret tt
  else writeIdempotencyIndexLocked (b_IdempotencyKey (m_Binding m)) (m_JobID m).

Definition loadMappingLocked (id : string) : Q JobMapping :=
  r ← hread (λ w, q_maps w !! FileID id);
  b ← some_or r HNotExist;
  m ← some_or b HCorrupt;
  fail_if (m_JobID m != id) HCorrupt ;;
  mret m.

(** [releaseInFlightLocked] *)
Definition releaseInFlightLocked (jobID : string) : Q unit :=
  modify (λ w, set_flight (filter (λ kv, kv.2 ≠ jobID) (q_flight w)) w).

(** [contextLanesHeldLocked] *)
Definition contextLanesHeldLocked (fairKey : string) (flight : gmap string string) : Z :=
  Z.of_nat (size (filter (λ kv, (kv.1 == fairKey) || HasPrefix kv.1 (fairKey ++ NULs) = true) flight)).

(** * The ledger *)

Definition saveBudgetLocked : Q unit := hwrite (λ w, set_ledger (Some (Some (q_budget w))) w).

(** [bucketLocked]: the counters of a scope, of this day. *)
Definition bucketLocked (scopeID : string) : Q scopeBudget :=
  w ← get;
  now ← hnow;
  let b := default zero_scope (bl_Scopes (q_budget w) !! scopeID) in
  let today := day_text now in
  let b := if sc_Day b != today then mkScope (sc_PendingJobs b) (sc_ReservedTokens b) 0 0 0 today else b in
  modify (set_budget (mkLedger (bl_Reservations (q_budget w)) (<[scopeID := b]> (bl_Scopes (q_budget w))))) ;;
  mret b.

Definition put_bucket (scopeID : string) (b : scopeBudget) : Q unit :=
  modify (λ w, set_budget (mkLedger (bl_Reservations (q_budget w)) (<[scopeID := b]> (bl_Scopes (q_budget w)))) w).
Definition put_reservation (jobID : string) (r : reservation) : Q unit :=
  modify (λ w, set_budget (mkLedger (<[jobID := r]> (bl_Reservations (q_budget w))) (bl_Scopes (q_budget w))) w).

(** [checkCeilingsLocked] *)
Definition checkCeilingsLocked (scopeID : string) (estimate : Z) : Q unit :=
  w ← get;
  let l := q_limits w in
  (if 0 <? MaxPendingPerScope l then
     b ← bucketLocked scopeID; fail_if (MaxPendingPerScope l <=? sc_PendingJobs b) HFull
   else mret tt) ;;
  (if 0 <? MaxPendingTotal l then
     w ← get;
     let total := map_fold (λ _ b n, i64 (n + sc_PendingJobs b)) 0 (bl_Scopes (q_budget w)) in
     fail_if (MaxPendingTotal l <=? total) HFull
   else mret tt) ;;
  (if 0 <? ScopeTokenDaily l then
     b ← bucketLocked scopeID;
     fail_if (ScopeTokenDaily l <? i64 (i64 (i64 (sc_SettledIn b + sc_SettledOut b) + sc_ReservedTokens b) + estimate)) HFull
   else mret tt) ;;
  (if 0 <? MaxBytes l then
     hcall ;; w ← get;
     let bytes := foldr (λ name n, i64 (n + match q_jobs w !! ("pending", name) with Some f => file_size (jf_Job f) | None => 0 end)) 0
                    (names_in "pending" (q_jobs w)) in
     fail_if (MaxBytes l <=? bytes) HFull
   else mret tt).

(** [reserveLocked] *)
Definition reserveLocked (j : Job) : Q unit :=
  w ← get;
  fail_if (q_broken w) HCorrupt ;;
  fail_if (j_TokenEstimate j <? 0) HRefused ;;
  match bl_Reservations (q_budget w) !! j_ID j with
  | Some _ => mret tt
  | None =>
      let estimate := if j_TokenEstimate j =? 0 then defaultTokenEstimate else j_TokenEstimate j in
      let scopeID := if ro_ScopeID (j_Routing j) == "" then installationScope else ro_ScopeID (j_Routing j) in
      checkCeilingsLocked scopeID estimate ;;
      now ← hnow;
      put_reservation (j_ID j) (mkReservation (j_ID j) scopeID (e_PrincipalID (j_Envelope j)) estimate "open" 0 now) ;;
      b ← bucketLocked scopeID;
      put_bucket scopeID (mkScope (i64 (sc_PendingJobs b + 1)) (i64 (sc_ReservedTokens b + estimate)) (sc_SettledIn b)
                            (sc_SettledOut b) (sc_Unknown b) (sc_Day b)) ;;
      saveBudgetLocked
  end.

(** What the journal says a job used: the tokens in and out, whether it metered at all and
    whether anything was measured. *)
Definition usage_of (jobID : string) (entries : list usageEntry) : Z * Z * bool * bool :=
  foldl (λ '(i, o, metered, measured) e,
           if u_JobID e != jobID then (i, o, metered, measured)
           else (match u_InputTokens e with Some n => i64 (i + n) | None => i end,
                 match u_OutputTokens e with Some n => i64 (o + n) | None => o end, true,
                 measured || bool_decide (is_Some (u_InputTokens e)) || bool_decide (is_Some (u_OutputTokens e))))
    (0, 0, false, false) entries.

(** [settleReservationLocked] *)
Definition settleReservationLocked (jobID : string) : Q unit :=
  w ← get;
  match bl_Reservations (q_budget w) !! jobID with
  | None => mret tt
  | Some res =>
      if rv_State res != "open" then mret tt
      else
        hcall ;;
        w ← get;
        entries ← some_or (q_usage w) HCorrupt;
        b ← bucketLocked (rv_ScopeID res);
        let '(i, o, metered, measured) := usage_of jobID entries in
        let pend := i64 (sc_PendingJobs b - 1) in
        let held := i64 (sc_ReservedTokens b - rv_Estimate res) in
        let close state charged := mkReservation (rv_JobID res) (rv_ScopeID res) (rv_Principal res) (rv_Estimate res) state charged (rv_CreatedAt res) in
        (if negb metered then
           put_bucket (rv_ScopeID res) (mkScope pend held (sc_SettledIn b) (sc_SettledOut b) (sc_Unknown b) (sc_Day b)) ;;
           put_reservation jobID (close "released" 0)
         else if negb measured then
           put_bucket (rv_ScopeID res) (mkScope pend held (sc_SettledIn b) (sc_SettledOut b) (i64 (sc_Unknown b + 1)) (sc_Day b)) ;;
           put_reservation jobID (close "settled" (rv_Estimate res))
         else
           put_bucket (rv_ScopeID res)
             (mkScope pend held (i64 (sc_SettledIn b + i)) (i64 (sc_SettledOut b + o)) (sc_Unknown b) (sc_Day b)) ;;
           put_reservation jobID (close "settled" (i64 (i + o)))) ;;
        saveBudgetLocked
  end.

(** One reservation of [reconcileBudgetLocked]: whether the ledger changed. *)
Definition reconcile_one (changed : bool) (jobID : string) : Q bool :=
  w ← get;
  match bl_Reservations (q_budget w) !! jobID with
  | None => mret changed
  | Some res =>
      if rv_State res != "open" then mret changed
      else
        in_pending ← try (hread (λ w, q_jobs w !! ("pending", FileID jobID)));
        in_running ← try (hread (λ w, q_jobs w !! ("running", FileID jobID)));
        let found r := match r with Ok (Some _) => true | _ => false end in
        if found in_pending || found in_running then mret changed
        else
          m ← try (loadMappingLocked jobID);
          if match m with Ok m => m_terminal m | Err _ => false end
          then settleReservationLocked jobID ;; mret true
          else
            b ← bucketLocked (rv_ScopeID res);
            put_bucket (rv_ScopeID res)
              (mkScope (i64 (sc_PendingJobs b - 1)) (i64 (sc_ReservedTokens b - rv_Estimate res)) (sc_SettledIn b)
                 (sc_SettledOut b) (sc_Unknown b) (sc_Day b)) ;;
            put_reservation jobID
              (mkReservation (rv_JobID res) (rv_ScopeID res) (rv_Principal res) (rv_Estimate res) "released" (rv_Charged res) (rv_CreatedAt res)) ;;
            mret true
  end.

(** [reconcileBudgetLocked] *)
Definition reconcileBudgetLocked : Q unit :=
  w ← get;
  changed ← for_fold (q_order (sp_calls (h_rt w)) (map_to_list (bl_Reservations (q_budget w))).*1) false reconcile_one;
  if changed : bool then saveBudgetLocked else mret tt.

(** * Recording an outcome *)

(** The checks of [updateMappingLocked]: what a runtime may say of a job. *)
Definition update_refused (m : JobMapping) (o : RunOutcome) (status : string) : bool :=
  let r := m_Run m in
  (m_terminal m && (status != "") && (status != m_Status m))
  || (m_terminal m && (m_Result m != "") && (oc_Text o != "") && (oc_Text o != m_Result m))
  || ((oc_JobID o != "") && (oc_JobID o != m_JobID m))
  || ((r_Generation r != "") && (oc_Generation o != "") && (oc_Generation o != r_Generation r))
  || ((r_RunID r != "") && (oc_RunID o != "") && (oc_RunID o != r_RunID r))
  || ((r_SessionID r != "") && (oc_SessionID o != "") && (oc_SessionID o != r_SessionID r)).

Definition or_else (x y : string) : string := if x == "" then y else x.

(** The mapping [updateMappingLocked] writes. *)
Definition updated (m : JobMapping) (o : RunOutcome) (status : string) (terminal : bool) (now : Z) : JobMapping :=
  let ob := m_Observation m in
  let t := m_Trace m in
  let since := if (status == "uncertain") && IsZero (ob_UncertainSince ob) then now else ob_UncertainSince ob in
  mkMapping (m_Binding m) (or_else status (m_Status m))
    (mkRun (or_else (oc_SessionID o) (r_SessionID (m_Run m))) (or_else (oc_RunID o) (r_RunID (m_Run m)))
       (or_else (oc_Generation o) (r_Generation (m_Run m))))
    (if (TrimSpace (oc_Text o) != "") && (len (oc_Text o) <=? 2 * 1024 * 1024) then oc_Text o else m_Result m)
    (if terminal then match m_Control m with
                      | Some c => Some (mkControl (c_NextAttemptAt c) (c_Caller c) (c_Action c) (c_RequestID c) (c_Choice c) "closed")
                      | None => None
                      end
     else m_Control m)
    (m_CancelRequested m) (m_Approval m)
    (mkObservation (ob_Attempts ob) (ob_NextAt ob) (if terminal then zero_time else since))
    (mkTrace (or_else (oc_LastEvent o) (tr_LastKnownEvent t)) (tr_Position t) (tr_LastEventID t) (tr_StatusText t))
    now (if terminal then now else m_TerminalAt m).

(** [conversationPath] *)
Definition conversation_name (principal context conversation : string) : string :=
  r_sha256_hex (principal ++ NULs ++ context ++ NULs ++ conversation).

(** [updateMappingLocked] *)
Definition updateMappingLocked (jobID : string) (o : RunOutcome) (status : string) (terminal : bool) : Q unit :=
  m ← loadMappingLocked jobID;
  fail_if (update_refused m o status) HConflict ;;
  let b := m_Binding m in
  (if oc_SessionID o == "" then mret tt
   else
     now ← hnow;
     hwrite (λ w, set_convs (<[conversation_name (b_PrincipalID b) (b_ContextID b) (b_ConversationID b) :=
       mkConversation (b_PrincipalID b) (b_ContextID b) (b_ConversationID b) (oc_SessionID o) now]> (q_convs w)) w)) ;;
  now ← hnow;
  let m' := updated m o status terminal now in
  writeMappingLocked m' ;;
  (if terminal then settleReservationLocked jobID else mret tt) ;;
  if mappingHoldsContext m' then mret tt
  else modify (λ w, if bool_decide (q_flight w !! mapping_lane m' = Some (m_JobID m'))
                    then set_flight (delete (mapping_lane m') (q_flight w)) w else w).

(** [RecordOutcome] *)
Definition RecordOutcome (jobID : string) (o : RunOutcome) : Q unit :=
  let status := or_else (oc_Status o) "completed" in
  updateMappingLocked jobID o status (TerminalStatus status).

(** * Admission *)

(** [taskPath] *)
Definition task_name (principal taskID : string) : string := r_sha256_hex (principal ++ NULs ++ taskID).

(** [loadTaskLocked] *)
Definition loadTaskLocked (principal taskID : string) : Q Task :=
  r ← hread (λ w, tf_tasks (q_tasks w) !! task_name principal taskID);
  b ← some_or r HNotExist;
  t ← some_or b HCorrupt;
  fail_if ((tk_TaskID t != taskID) || (tk_PrincipalID t != principal)) HCorrupt ;;
  mret t.

Definition defaultTaskID : string := "default".

Definition with_conversation (c : string) (j : Job) : Job :=
  let e := j_Envelope j in
  mkJob (mkEnvelope (e_Schema e) (e_PrincipalID e) (e_ExternalIdentityID e) (e_ContextID e) (e_RuntimeID e) c (e_DeliveryTargetID e)
           (e_PolicyVersion e) (e_Organization e) (e_CapabilityProfile e) (e_Environment e) (e_Generation e) (e_Scopes e))
    (j_Routing j) (j_ID j) (j_Text j) (j_Sensitive j) (j_Trigger j) (j_IdempotencyKey j) (j_CreatedAt j) (j_OperationalEpoch j)
    (j_MessageID j) (j_InboundID j) (j_TextSHA256 j) (j_GoalEpoch j) (j_TokenEstimate j).
Definition with_epoch (n : Z) (j : Job) : Job :=
  mkJob (j_Envelope j) (j_Routing j) (j_ID j) (j_Text j) (j_Sensitive j) (j_Trigger j) (j_IdempotencyKey j) (j_CreatedAt j) n
    (j_MessageID j) (j_InboundID j) (j_TextSHA256 j) (j_GoalEpoch j) (j_TokenEstimate j).
Definition with_text (text hash : string) (j : Job) : Job :=
  mkJob (j_Envelope j) (j_Routing j) (j_ID j) text (j_Sensitive j) (j_Trigger j) (j_IdempotencyKey j) (j_CreatedAt j)
    (j_OperationalEpoch j) (j_MessageID j) (j_InboundID j) hash (j_GoalEpoch j) (j_TokenEstimate j).

(** The task a job names must be its owner's, in the same chat. *)
Definition bind_task (j : Job) : Q Job :=
  let r := j_Routing j in
  if (ro_TaskID r == "") || (ro_TaskID r == defaultTaskID) then mret j
  else
    t ← try (loadTaskLocked (e_PrincipalID (j_Envelope j)) (ro_TaskID r));
    match t with
    | Err _ => mthrow_err HRefused
    | Ok t =>
        fail_if (negb (tk_ChatID t =? ro_ChatID r)) HRefused ;;
        mret (if j_Trigger j != "cron" then with_conversation (tk_ConversationID t) j else j)
    end.

(** The holds of the owner: [None] when one is active, otherwise the job with the epoch of
    the last. *)
Fixpoint apply_holds (holds : list masterHold) (j : Job) : option Job :=
  match holds with
  | [] => Some j
  | h :: holds =>
      if (mh_PrincipalID h != e_PrincipalID (j_Envelope j)) || (mh_ContextID h != e_ContextID (j_Envelope j)) then apply_holds holds j
      else if mh_Active h then None
      else apply_holds holds (with_epoch (mh_Epoch h) j)
  end.

(** [findIdempotencyLocked]: the mapping a key was used for. *)
Definition find_indexed (key : string) : Q (option JobMapping) :=
  r ← hread (λ w, q_index w !! index_name key);
  match r with
  | Some (Some jobID) =>
      if jobID == "" then mret None
      else
        m ← try (loadMappingLocked jobID);
        mret (match m with Ok m => if b_IdempotencyKey (m_Binding m) == key then Some m else None | Err _ => None end)
  | _ => mret None
  end.

Definition scan_mapping (key name : string) : Q (option JobMapping) :=
  r ← hread (λ w, q_maps w !! name);
  b ← some_or r HNotExist;
  m ← some_or b HCorrupt;
  fail_if (m_JobID m == "") HCorrupt ;;
  if b_IdempotencyKey (m_Binding m) == key
  then try (writeIdempotencyIndexLocked key (m_JobID m)) ;; mret (Some m)
  else mret None.

Definition findIdempotencyLocked (key : string) : Q (option JobMapping) :=
  hit ← find_indexed key;
  match hit with
  | Some m => mret (Some m)
  | None => hcall ;; w ← get; for_return (names_of (q_maps w)) (scan_mapping key)
  end.

(** Whether one of the directories holds the file. *)
Fixpoint stat_any (dirs : list string) (name : string) : Q bool :=
  match dirs with
  | [] => mret false
  | dir :: dirs =>
      f ← hread (λ w, q_jobs w !! (dir, name));
      match f with Some _ => mret true | None => stat_any dirs name end
  end.

(** A sensitive text stays in memory. *)
Definition hide_text (j : Job) : Q Job :=
  if j_Sensitive j then
    modify (λ w, set_secret (<[j_ID j := j_Text j]> (q_secret w)) w) ;;
    mret (with_text "" (r_sha256_hex (j_Text j)) j)
  else mret j.

(** The part of [enqueueLocked] after the idempotency checks. *)
Definition admit_job (fingerprint : string) (j : Job) : Q bool :=
  j ← hide_text j;
  reconcileBudgetLocked ;;
  reserveLocked j ;;
  now ← hnow;
  hwrite (λ w, set_jobs (<[("pending", FileID (j_ID j)) := mkJobFile now (Some j)]> (q_jobs w)) w) ;;
  (if TrimSpace (j_IdempotencyKey j) == "" then mret tt
   else
     let m := MappingFromJob j (j_CreatedAt j) in
     let b := m_Binding m in
     writeMappingLocked (with_binding
       (mkBinding (b_JobID b) (b_IdempotencyKey b) fingerprint (b_OperationalEpoch b) (b_RoutineOriginVersion b) (b_IdentitySchema b)
          (b_ExternalIdentityID b) (b_PrincipalID b) (b_ContextID b) (b_RuntimeID b) (b_ConversationID b) (b_DeliveryTargetID b)
          (b_PolicyVersion b) (b_OrganizationID b) (b_UserID b) (b_ActorID b) (b_ScopeID b) (b_Channel b) (b_Trigger b)
          (b_AssignmentID b) (b_TaskID b) (b_TopicID b) (b_ChatID b) (b_CreatedAt b)) m)) ;;
  mret true.

(** [enqueueLocked] *)
Definition enqueueLocked (j : Job) : Q bool :=
  j ← bind_task j;
  w ← get;
  match match holdsSnapshot (sp_calls (h_rt w)) with Some holds => apply_holds holds j | None => Some j end with
  | None => mret true
  | Some j =>
      let fingerprint := JobFingerprint j in
      known ← if TrimSpace (j_IdempotencyKey j) == "" then mret None else findIdempotencyLocked (j_IdempotencyKey j);
      match known with
      | Some m => fail_if (b_Fingerprint (m_Binding m) != fingerprint) HConflict ;; mret false
      | None =>
          there ← stat_any job_dirs (FileID (j_ID j));
          if there : bool then mret false else admit_job fingerprint j
      end
  end.

(** [Enqueue] *)
Definition Enqueue (j : Job) : Q bool :=
  w ← get;
  match refreshHolds (sp_calls (h_rt w)) with
  | Some false => mthrow_err HIO
  | _ => enqueueLocked j
  end.
End Queue.
