(* ===== verification/SpoolWork.v ===== *)
(** Working off the queue (communication/spool.go, control.go, recovery.go): claiming,
    completing and failing jobs, controlling them and observing them again. *)
From stdpp Require Import base gmap strings list pretty sorting.
From Stdlib Require Import Ascii String.
From S2P Require Import Prelude GoStrings BrokerIdentity Contract Calendar Cron RoutineTypes Timing Schedules SpoolTypes SpoolQueue.
Local Open Scope string_scope.
Local Open Scope Z_scope.

(** * The order of claims *)

Record candidate := mkCandidate { cd_name : string; cd_job : Job; cd_parked : Z }.

Definition str_lt (a b : string) : bool := negb (bool_decide (str_le b a)).

(** A job of a routine that was parked for less than five minutes. *)
Definition background (now : Z) (c : candidate) : bool :=
  (j_Trigger (cd_job c) == "cron") && (Sub now (cd_parked c) <? 5 * Minute).

(** The comparison of the sort in [ClaimJob]: scopes in turn after the cursor, interactive
    work first within a scope. *)
Definition claim_less (cursor : string) (now : Z) (a b : candidate) : bool :=
  let ak := job_scope (cd_job a) in
  let bk := job_scope (cd_job b) in
  if ak != bk then
    if negb (bool_decide (str_lt cursor ak = str_lt cursor bk)) then str_lt cursor ak else str_lt ak bk
  else if negb (bool_decide (background now a = background now b)) then negb (background now a)
  else str_lt (cd_name a ++ ".json") (cd_name b ++ ".json").
Definition claim_le (cursor : string) (now : Z) (a b : candidate) : Prop := claim_less cursor now b a = false.
Global Instance claim_le_dec cursor now : RelDecision (claim_le cursor now) := λ a b, decide (claim_less cursor now b a = false).

Section Work.
Context `{RoutineWorld} `{TimeText} `{RoutineDeps} `{Unicode} `{QueueWorld}.
Abbreviation Q := (M Hub HErr).

(** * Claiming *)

(** [AssignmentForWakeLocked]: the plan a job was made for is the one that applies. *)
Definition AssignmentForWakeLocked (id : string) (planRev : Z) : Q bool :=
  r ← try (hread (λ w, q_assignments w !! FileID id));
  mret (match r with
        | Ok (Some (Some a)) =>
            (as_AssignmentID a == id) && (as_State a == "active") && (as_AppliedRev a =? planRev)
            && bool_decide (as_PlanRevision a = Some planRev)
        | _ => false
        end).

(** Whether a job of a routine still stands for its slot. *)
Definition occurrence_current (id : string) : Q bool :=
  r ← try (hread (λ w, sp_occ (h_rt w) !! FileID id));
  match r with
  | Ok (Some (Some o)) => on_rt (OccurrenceCurrentLocked o)
  | _ => mret false
  end.

(** The pending jobs with their age. *)
Definition read_candidates : Q (list candidate) :=
  hcall ;; w ← get;
  for_fold (names_in "pending" (q_jobs w)) []
    (λ acc name,
       hcall ;;
       f ← hread (λ w, q_jobs w !! ("pending", name));
       f ← some_or f HNotExist;
       j ← some_or (jf_Job f) HCorrupt;
       mret (acc ++ [mkCandidate name j (jf_Mod f)])%list).

Definition read_cursor : Q string :=
  r ← hread q_cursor;
  match r with
  | None => mret ""
  | Some c => some_or c HCorrupt
  end.

(** A job that must not run any more. *)
Definition cancel_claim (name : string) (j : Job) (event : string) : Q (option Job) :=
  updateMappingLocked (j_ID j) (plain_outcome "" "cancelled" event) "cancelled" true ;;
  rename_job "pending" "failed" name ;;
  mret None.

(** The text of a claimed job: none when its run was admitted before, the one in memory when
    it is sensitive. *)
Definition claim_text (name : string) (mapping : res HErr JobMapping) (j : Job) : Q Job :=
  if match mapping with Ok m => (r_RunID (m_Run m) != "") && (r_SessionID (m_Run m) != "") | Err _ => false end
  then mret (with_text "" (j_TextSHA256 j) j)
  else if j_Sensitive j then
    w ← get;
    let text := default "" (q_secret w !! j_ID j) in
    if text == "" then try (rename_job "running" "failed" name) ;; mthrow_err HNoSecret
    else mret (with_text text (j_TextSHA256 j) j)
  else mret j.

(** What follows the rename to [running]. *)
Definition run_claim (name : string) (j : Job) : Q (option Job) :=
  mapping ← try (loadMappingLocked (j_ID j));
  match mapping with Err e => fail_if (j_IdempotencyKey j != "") e | Ok _ => mret tt end ;;
  if match mapping with Ok m => m_terminal m | Err _ => false end then
    let dir := match mapping with Ok m => if m_Status m == "completed" then "done" else "failed" | Err _ => "failed" end in
    rename_job "running" dir name ;; mret None
  else
    j' ← claim_text name mapping j;
    (if TrimSpace (j_IdempotencyKey j) == "" then mret tt
     else updateMappingLocked (j_ID j) (plain_outcome (j_ID j) "running" "job.claimed") "running" false) ;;
    modify (λ w, set_flight (<[job_lane j := j_ID j]> (q_flight w)) w) ;;
    mret (Some j').

(** One candidate of [ClaimJob]. *)
Definition claim_one (c : candidate) : Q (option Job) :=
  let j := cd_job c in
  let name := cd_name c in
  let r := j_Routing j in
  stale ← if (ro_AssignmentID r != "") && negb (ro_AssignmentPlanRevision r =? 0)
          then ok ← AssignmentForWakeLocked (ro_AssignmentID r) (ro_AssignmentPlanRevision r); mret (negb ok)
          else mret false;
  if stale : bool then cancel_claim name j "assignment.cancelled"
  else
    stale ← if (j_Trigger j == "cron") && HasPrefix (j_ID j) "routine-"
            then ok ← occurrence_current (j_ID j); mret (negb ok)
            else mret false;
    if stale : bool then cancel_claim name j "routine.cancelled"
    else
      w ← get;
      let holder := q_flight w !! job_lane j in
      let own := default "" holder == j_ID j in
      let cap := MaxParallelPerContext (q_limits w) in
      if match holder with Some h => h != j_ID j | None => false end then mret None
      else if negb own && (0 <? cap) && (cap <=? contextLanesHeldLocked (job_scope j) (q_flight w)) then mret None
      else
        hwrite (set_cursor (Some (Some (job_scope j)))) ;;
        rename_job "pending" "running" name ;;
        run_claim name j.

(** [ClaimJob] *)
Definition ClaimJob : Q (option Job) :=
  cs ← read_candidates;
  cursor ← read_cursor;
  now ← hnow;
  for_return (merge_sort (claim_le cursor now) cs) claim_one.

(** * Ending a job *)

(** [CompleteJob] *)
Definition CompleteJob (id : string) : Q unit :=
  releaseInFlightLocked id ;;
  rename_job "running" "done" (FileID id) ;;
  m ← try (loadMappingLocked id);
  match m with
  | Ok _ => updateMappingLocked id (plain_outcome "" "completed" "job.completed") "completed" true
  | Err _ => mret tt
  end.

(** The status a failed job gets: what is not known stays so, what ended stays ended. *)
Definition fail_status (m : JobMapping) : string :=
  if (m_Status m == "uncertain") || (m_Status m == "cancelled") || (m_Status m == "interrupted") then m_Status m else "failed".

(** [FailJob] *)
Definition FailJob (id : string) : Q unit :=
  modify (λ w, set_secret (delete id (q_secret w)) w) ;;
  first ← try (loadMappingLocked id);
  if match first with Ok m => m_Status m == "completed" | Err _ => false end
  then releaseInFlightLocked id ;; rename_job "running" "done" (FileID id)
  else
    moved ← try (rename_job "running" "failed" (FileID id));
    second ← try (loadMappingLocked id);
    result ← match second with
             | Ok m =>
                 let status := fail_status m in
                 up ← try (updateMappingLocked id (plain_outcome "" status ("job." ++ status)) status (status != "uncertain"));
                 mret (match moved with Ok _ => up | Err e => Err e end)
             | Err _ => releaseInFlightLocked id ;; mret moved
             end;
    match result with Ok _ => mret tt | Err e => mthrow_err e end.

(** * Control *)

(** [RequestCancel] *)
Definition RequestCancel (jobID : string) (caller : Envelope) : Q JobMapping :=
  m ← loadMappingLocked jobID;
  fail_if (negb (ownsMapping caller m)) HOwner ;;
  if m_terminal m || m_CancelRequested m then mret m
  else
    now ← hnow;
    let unclaimed := (m_Status m == "accepted") && (r_RunID (m_Run m) == "") in
    let t := m_Trace m in
    let m' := mkMapping (m_Binding m) (if unclaimed then "cancelled" else m_Status m) (m_Run m) (m_Result m)
                (Some (mkControl zero_time caller "cancel" "" "" "pending")) true (m_Approval m) (m_Observation m)
                (mkTrace (if unclaimed then "job.cancelled" else tr_LastKnownEvent t) (tr_Position t) (tr_LastEventID t) (tr_StatusText t))
                now (if unclaimed then now else m_TerminalAt m) in
    writeMappingLocked m' ;;
    mret m'.

(** [RequestApproval] *)
Definition RequestApproval (jobID : string) (caller : Envelope) (requestID choice : string) : Q unit :=
  m ← loadMappingLocked jobID;
  fail_if (negb (ownsMapping caller m)) HOwner ;;
  now ← hnow;
  let late := negb (Before now (a_Deadline (m_Approval m))) in
  match match m_Control m with
        | Some c => if (c_Action c == "approve") && (c_RequestID c == requestID) then Some c else None
        | None => None
        end with
  | Some c =>
      fail_if (((c_State c == "pending") || (c_State c == "uncertain")) && late) HRefused ;;
      fail_if (c_Choice c != choice) HConflict
  | None =>
      fail_if (m_CancelRequested m || (a_State (m_Approval m) != "pending") || (requestID == "") || (a_ID (m_Approval m) != requestID)
               || negb (bool_decide (choice ∈ a_Choices (m_Approval m))) || late) HRefused ;;
      writeMappingLocked (with_ctl (Some (mkControl zero_time caller "approve" requestID choice "pending")) m)
  end.

(** The sections of [controlOne] that hold the lock.  The intent is marked uncertain before
    the runtime is asked; [authorized] is what the group policy says of the mapping. *)
Definition control_intend (authorized : bool) (id : string) : Q (option (JobMapping * PendingControl * bool)) :=
  m ← try (loadMappingLocked id);
  match m with
  | Err _ => mret None
  | Ok m =>
      now ← hnow;
      match m_Control m with
      | None => mret None
      | Some c =>
          if negb ((c_State c == "pending") || (c_State c == "uncertain")) || Before now (c_NextAttemptAt c) || m_terminal m
             || ((c_Action c != "cancel") && negb (admitted (m_Run m)))
          then mret None
          else
            let refused := (c_Action c == "approve") && negb authorized in
            let c := if refused then mkControl zero_time (c_Caller c) "cancel" "" "" "pending" else c in
            let reconciling := (c_State c == "uncertain") && (r_RunID (m_Run m) != "") in
            let c := mkControl (now + 5 * Second) (c_Caller c) (c_Action c) (c_RequestID c) (c_Choice c) "uncertain" in
            let m := mkMapping (m_Binding m) (m_Status m) (m_Run m) (m_Result m) (Some c) (m_CancelRequested m || refused)
                       (m_Approval m) (m_Observation m) (m_Trace m) (m_UpdatedAt m) (m_TerminalAt m) in
            writeMappingLocked m ;;
            mret (Some (m, c, reconciling))
      end
  end.

Definition with_state (s : string) (c : PendingControl) : PendingControl :=
  mkControl (c_NextAttemptAt c) (c_Caller c) (c_Action c) (c_RequestID c) (c_Choice c) s.

(** A cancellation that came before a run was admitted is tried again. *)
Definition control_retry (id : string) : Q unit :=
  m ← try (loadMappingLocked id);
  match m with
  | Ok m =>
      match m_Control m with
      | Some c => if (c_Action c == "cancel") && negb (m_terminal m)
                  then try (writeMappingLocked (with_ctl (Some (with_state "pending" c)) m)) ;; mret tt else mret tt
      | None => mret tt
      end
  | Err _ => mret tt
  end.

(** The runtime applied the intent [sent]. *)
Definition control_applied (id : string) (sent : PendingControl) (reconciling : bool) : Q unit :=
  m ← try (loadMappingLocked id);
  match m with
  | Ok m =>
      match m_Control m with
      | Some c =>
          if (c_Action c == c_Action sent) && (c_RequestID c == c_RequestID sent) && (c_Choice c == c_Choice sent)
          then try (writeMappingLocked (with_ctl (Some (with_state (if reconciling || m_terminal m then "closed" else "applied") c)) m)) ;; mret tt
          else mret tt
      | None => mret tt
      end
  | Err _ => mret tt
  end.

(** * Observing again *)

(** The delay before an observation: five seconds, doubled up to thirty. *)
Fixpoint backoff (fuel : nat) (attempt attempts delay : Z) : Z :=
  match fuel with
  | O => delay
  | S fuel =>
      if attempt <? attempts then
        let delay := delay * 2 in
        if 30 * Second <=? delay then 30 * Second else backoff fuel (attempt + 1) attempts delay
      else delay
  end.

(** Whether the outbox holds the notice that a job is uncertain. *)
Fixpoint stat_outbox (dirs : list string) (name : string) : Q bool :=
  match dirs with
  | [] => mret false
  | dir :: dirs =>
      f ← hread (λ w, q_outbox w !! (dir, name));
      match f with Some _ => mret true | None => stat_outbox dirs name end
  end.

Definition outbox_dirs : list string := ["pending"; "sending"; "done"; "failed"].

(** One file of [RequeueObservations]. *)
Definition requeue_one (now : Z) (reconcileAdmissionUnknown : bool) (name : string) : Q unit :=
  f ← try (hread (λ w, q_jobs w !! ("failed", name)));
  j ← some_or (match f with Ok (Some f) => jf_Job f | _ => None end) HCorrupt;
  mapping ← try (loadMappingLocked (j_ID j));
  match mapping with
  | Err HNotExist => mret tt
  | Err e => mthrow_err e
  | Ok m =>
      let ob := m_Observation m in
      if (m_Status m != "uncertain") || Before now (ob_NextAt ob) then mret tt
      else if negb (admitted (m_Run m)) && negb reconcileAdmissionUnknown then mret tt
      else
        fail_if ((b_Fingerprint (m_Binding m) != JobFingerprint j) || (m_JobID m != j_ID j) || (name != FileID (j_ID j))) HConflict ;;
        told ← if negb (Before now (ob_UncertainSince ob + RunBudget))
               then stat_outbox outbox_dirs (FileID ("job-" ++ j_ID j ++ "-uncertain"))
               else mret false;
        if told : bool then mret tt
        else
          let attempts := if ob_Attempts ob <? 6 then ob_Attempts ob + 1 else ob_Attempts ob in
          writeMappingLocked
            (mkMapping (m_Binding m) (m_Status m) (m_Run m) (m_Result m) (m_Control m) (m_CancelRequested m) (m_Approval m)
               (mkObservation attempts (now + backoff 3 1 attempts (5 * Second)) (ob_UncertainSince ob)) (m_Trace m)
               (m_UpdatedAt m) (m_TerminalAt m)) ;;
          rename_job "failed" "pending" name
  end.

(** [RequeueObservations] *)
Definition RequeueObservations (now : Z) (reconcileAdmissionUnknown : bool) : Q unit :=
  hcall ;; w ← get;
  for_each (names_in "failed" (q_jobs w)) (requeue_one now reconcileAdmissionUnknown).
End Work.
