(* ===== verification/SpoolStream.v ===== *)
(** The outbox, the event stream of a run and the recovery of the spool
    (communication/spool_delivery.go, stream.go, spool.go). *)
From stdpp Require Import base gmap strings list pretty sorting.
From Stdlib Require Import Ascii String.
From S2P Require Import Prelude GoStrings BrokerIdentity Contract Calendar Cron RoutineTypes Timing Schedules SpoolTypes SpoolQueue SpoolWork.
Local Open Scope string_scope.
Local Open Scope Z_scope.

(** * Updates of a delivery *)

Definition with_occurrence (o : string) (d : Delivery) : Delivery :=
  mkDelivery (d_ID d) o (d_JobID d) (d_ConversationID d) (d_DeliveryTargetID d) (d_Channel d) (d_ChatID d) (d_TaskID d)
    (d_TopicID d) (d_SlackChannel d) (d_SlackThread d) (d_Text d) (d_Format d) (d_NotBefore d) (d_Artifacts d) (d_Buttons d)
    (d_ApprovalJobID d) (d_ApprovalID d) (d_ApprovalRunID d) (d_ApprovalGeneration d) (d_TelegramMessageID d) (d_EditMessageID d)
    (d_StreamPosition d) (d_StatusClosed d) (d_Control d) (d_CreatedAt d).
Definition with_edit (id text : string) (message position : Z) (d : Delivery) : Delivery :=
  mkDelivery id (d_OccurrenceID d) (d_JobID d) (d_ConversationID d) (d_DeliveryTargetID d) (d_Channel d) (d_ChatID d) (d_TaskID d)
    (d_TopicID d) (d_SlackChannel d) (d_SlackThread d) text (d_Format d) (d_NotBefore d) (d_Artifacts d) (d_Buttons d)
    (d_ApprovalJobID d) (d_ApprovalID d) (d_ApprovalRunID d) (d_ApprovalGeneration d) (d_TelegramMessageID d) message
    position (d_StatusClosed d) (d_Control d) (d_CreatedAt d).
Definition with_closed (d : Delivery) : Delivery :=
  mkDelivery (d_ID d) (d_OccurrenceID d) (d_JobID d) (d_ConversationID d) (d_DeliveryTargetID d) (d_Channel d) (d_ChatID d)
    (d_TaskID d) (d_TopicID d) (d_SlackChannel d) (d_SlackThread d) (d_Text d) (d_Format d) (d_NotBefore d) (d_Artifacts d)
    (d_Buttons d) (d_ApprovalJobID d) (d_ApprovalID d) (d_ApprovalRunID d) (d_ApprovalGeneration d) (d_TelegramMessageID d)
    (d_EditMessageID d) (d_StreamPosition d) true (d_Control d) (d_CreatedAt d).

Section Stream.
Context `{RoutineWorld} `{TimeText} `{RoutineDeps} `{Unicode} `{QueueWorld}.
Abbreviation Q := (M Hub HErr).

(** * The outbox *)

Definition put_delivery (dir name : string) (d : Delivery) : Q unit :=
  hwrite (λ w, set_deliveries (<[(dir, name) := Some d]> (q_outbox w)) w).

(** The ordinary deliveries that wait. *)
Definition count_ordinary : Q Z :=
  hcall ;; w ← get;
  for_fold (names_in "pending" (q_outbox w)) 0
    (λ n name,
       r ← hread (λ w, q_outbox w !! ("pending", name));
       r ← some_or r HNotExist;
       d ← some_or r HCorrupt;
       mret (if d_Control d then n else n + 1)).

(** [enqueueDeliveryLocked] *)
Definition enqueueDeliveryLocked (d : Delivery) : Q unit :=
  let d := if (d_OccurrenceID d == "") && HasPrefix (d_JobID d) "routine-" then with_occurrence (d_JobID d) d else d in
  there ← stat_outbox outbox_dirs (FileID (d_ID d));
  if there : bool then mret tt
  else
    w ← get;
    let cap := MaxDeliveries (q_limits w) in
    (if negb (d_Control d) && (0 <? cap)
     then n ← count_ordinary; fail_if (cap <=? n) HFull
     else mret tt) ;;
    put_delivery "pending" (FileID (d_ID d)) d.

(** [EnqueueDelivery] *)
Definition EnqueueDelivery (d : Delivery) : Q unit :=
  match normalizeDelivery d with
  | None => mthrow_err HRefused
  | Some d => enqueueDeliveryLocked d
  end.

(** [os.Rename] of a delivery. *)
Definition rename_delivery (from to name : string) : Q unit :=
  hcall ;; w ← get;
  f ← some_or (q_outbox w !! (from, name)) HNotExist;
  modify (set_deliveries (<[(to, name) := f]> (delete (from, name) (q_outbox w)))).

(** A pass of [ClaimDelivery] over the first 256 names. *)
Definition claim_pass (control : bool) (name : string) : Q (option Delivery) :=
  r ← hread (λ w, q_outbox w !! ("pending", name));
  r ← some_or r HNotExist;
  d ← some_or r HCorrupt;
  now ← hnow;
  if (control && negb (d_Control d)) || After (d_NotBefore d) now then mret None
  else rename_delivery "pending" "sending" name ;; mret (Some d).

(** [ClaimDelivery] *)
Definition ClaimDelivery : Q (option Delivery) :=
  hcall ;; w ← get;
  let names := take 256 (names_in "pending" (q_outbox w)) in
  r ← for_return names (claim_pass true);
  match r with
  | Some d => mret (Some d)
  | None => for_return names (claim_pass false)
  end.

Definition CompleteDelivery (id : string) : Q unit := rename_delivery "sending" "done" (FileID id).
Definition UncertainDelivery (id : string) : Q unit := rename_delivery "sending" "failed" (FileID id).
Definition RetryDelivery (id : string) : Q unit := rename_delivery "sending" "pending" (FileID id).

(** [UpdateSending] *)
Definition UpdateSending (d : Delivery) : Q unit :=
  r ← hread (λ w, q_outbox w !! ("sending", FileID (d_ID d)));
  match r with
  | None => mret tt
  | Some _ => put_delivery "sending" (FileID (d_ID d)) d
  end.

(** * The status message of a job *)

(** One pending edit in [UpsertStatusDelivery]; the first absorbs the newest text. *)
Definition absorb_edit (d : Delivery) (message : Z) (x : nat * string) : Q unit :=
  let '(i, name) := x in
  r ← try (hread (λ w, q_outbox w !! ("pending", name)));
  match r with
  | Ok (Some (Some p)) =>
      if d_StreamPosition d <=? d_StreamPosition p then mret tt
      else if (i =? 0)%nat
      then try (put_delivery "pending" name (with_edit (d_ID p) (d_Text d) message (d_StreamPosition d) p)) ;; mret tt
      else try (hcall ;; modify (λ w, set_deliveries (delete ("pending", name) (q_outbox w)) w)) ;; mret tt
  | _ => mret tt
  end.

(** [UpsertStatusDelivery] *)
Definition UpsertStatusDelivery (d : Delivery) : Q unit :=
  match normalizeDelivery d with
  | None => mthrow_err HRefused
  | Some d =>
      let name := FileID (d_ID d) in
      pend ← try (hread (λ w, q_outbox w !! ("pending", name)));
      match pend with
      | Ok (Some p) =>
          if match p with Some p => d_StatusClosed p | None => false end then mret tt else put_delivery "pending" name d
      | _ =>
          sending ← try (hread (λ w, q_outbox w !! ("sending", name)));
          if match sending with Ok (Some _) => true | _ => false end then mret tt
          else
            failed ← try (hread (λ w, q_outbox w !! ("failed", name)));
            if match failed with Ok (Some _) => true | _ => false end then mret tt
            else
              sent ← hread (λ w, q_outbox w !! ("done", name));
              match sent with
              | None => put_delivery "pending" name d
              | Some None => mret tt
              | Some (Some sent) =>
                  if d_StatusClosed sent || (d_TelegramMessageID sent <=? 0) then mret tt
                  else
                    w ← get;
                    let edits := filter (λ n, HasPrefix n (name ++ "-edit-") = true) (names_in "pending" (q_outbox w)) in
                    if negb (bool_decide (edits = []))
                    then for_each (imap pair edits) (absorb_edit d (d_TelegramMessageID sent))
                    else
                      let id := d_ID d ++ "-edit-" ++ pretty (d_StreamPosition d) in
                      put_delivery "pending" (FileID id) (with_edit id (d_Text d) (d_TelegramMessageID sent) (d_StreamPosition d) d)
              end
      end
  end.

(** [CloseStatusDelivery]: the chat and the message to delete, once. *)
Definition CloseStatusDelivery (jobID : string) : Q (Z * Z) :=
  let name := FileID ("job-" ++ jobID ++ "-status") in
  r ← try (hread (λ w, q_outbox w !! ("done", name)));
  match r with
  | Ok (Some (Some sent)) =>
      if d_StatusClosed sent then mret (0, 0)
      else
        r ← try (put_delivery "done" name (with_closed sent));
        mret (match r with Ok _ => (d_ChatID sent, d_TelegramMessageID sent) | Err _ => (0, 0) end)
  | _ => mret (0, 0)
  end.

(** * The events of a run *)

(** [RebindObservation] *)
Definition RebindObservation (j : Job) (e : RunEvent) : Q unit :=
  m ← loadMappingLocked (j_ID j);
  fail_if (negb (ownsStreamMapping j m) || (r_RunID (m_Run m) != ev_RunID e) || (r_SessionID (m_Run m) != ev_SessionID e)
           || (ev_JobID e != j_ID j) || (ev_Generation e == "") || m_terminal m) HConflict ;;
  writeMappingLocked
    (mkMapping (m_Binding m) (m_Status m) (mkRun (r_SessionID (m_Run m)) (r_RunID (m_Run m)) (ev_Generation e)) (m_Result m)
       (m_Control m) (m_CancelRequested m) (m_Approval m) (m_Observation m) (m_Trace m) (m_UpdatedAt m) (m_TerminalAt m)).

(** [approvalButtonsLocked] *)
Definition callback_id (jobID requestID choice : string) : string :=
  substring 0 24 (r_sha256_hex (jobID ++ NULs ++ requestID ++ NULs ++ choice)).
Definition approvalButtonsLocked (jobID requestID : string) (choices : list string) : Q (list (string * string)) :=
  for_fold choices []
    (λ acc choice,
       let id := callback_id jobID requestID choice in
       hwrite (λ w, set_callbacks (<[id := mkCallback jobID requestID choice]> (q_callbacks w)) w) ;;
       mret (acc ++ [(choice, ("a:" ++ id)%string)])%list).

(** [ApprovalCallback] *)
Definition ApprovalCallback (data : string) : Q (string * string * string) :=
  fail_if (negb (HasPrefix data "a:")) HRefused ;;
  let id := substring 2 (String.length data) data in
  fail_if (negb (len id =? 24) || negb (str_forallb (λ c, is_digit c || in_range c 97 102) id)) HRefused ;;
  r ← try (hread (λ w, q_callbacks w !! id));
  match r with
  | Ok (Some c) =>
      fail_if ((cb_JobID c == "") || (cb_RequestID c == "") || (cb_Choice c == "")) HRefused ;;
      mret (cb_JobID c, cb_RequestID c, cb_Choice c)
  | _ => mthrow_err HRefused
  end.

(** The mapping after a receipt was applied. *)
Definition receipt_mapping (r : streamReceipt) (m : JobMapping) : JobMapping :=
  let e := sr_Event r in
  let t := m_Trace m in
  let status := match sr_Delivery r with
                | Some d => if sr_StatusDelivery r && (TrimSpace (d_Text d) != "") then d_Text d else tr_StatusText t
                | None => tr_StatusText t
                end in
  let a := if ev_LastEvent e == "approval.request"
           then mkApproval (ev_ApprovalID e) (ev_ApprovalChoices e) (sr_ApprovalDeadline r) "pending" else m_Approval m in
  let a := if TerminalStatus (ev_Status e) && (a_ID a != "") then mkApproval (a_ID a) (a_Choices a) (a_Deadline a) "closed" else a in
  mkMapping (m_Binding m) (m_Status m) (m_Run m) (m_Result m) (m_Control m) (m_CancelRequested m) a (m_Observation m)
    (mkTrace (tr_LastKnownEvent t) (sr_Position r) (ev_EventID e) status) (m_UpdatedAt m) (m_TerminalAt m).

(** [applyStreamReceiptLocked] *)
Definition applyStreamReceiptLocked (r : streamReceipt) : Q unit :=
  m ← loadMappingLocked (sr_JobID r);
  let e := sr_Event r in
  fail_if ((ev_JobID e != sr_JobID r) || (ev_EventID e == "")) HConflict ;;
  fail_if (match sr_Delivery r with
           | Some d => (d_ConversationID d != b_ConversationID (m_Binding m)) || (d_DeliveryTargetID d != b_DeliveryTargetID (m_Binding m))
                       || ((d_JobID d != "") && (d_JobID d != sr_JobID r))
           | None => false
           end) HConflict ;;
  if sr_Position r <=? tr_Position (m_Trace m) then mret tt
  else
    fail_if (staleReceipt m e) HStale ;;
    updateMappingLocked (sr_JobID r) (outcomeFromEvent e) (ev_Status e) (TerminalStatus (ev_Status e)) ;;
    m ← loadMappingLocked (sr_JobID r);
    writeMappingLocked (receipt_mapping r m).

Definition projected_events : list string :=
  ["run.admitted"; "run.started"; "tool.start"; "tool.end"; "approval.request"; "run.completed"; "run.failed"; "run.cancelled";
   "run.interrupted"; "run.unknown"].
Definition progress_event (e : RunEvent) : bool :=
  (ev_LastEvent e == "tool.start") || (ev_LastEvent e == "tool.end") || (ev_LastEvent e == "run.started").

(** The checks of [RecordStreamEvent] before it looks at the mapping. *)
Definition event_refused (j : Job) (e : RunEvent) : bool :=
  (ev_JobID e != j_ID j) || (ev_EventID e == "") || (256 <? len (ev_EventID e)) || (ev_Generation e == "") || (ev_RunID e == "")
  || (ev_SessionID e == "") || (2 * 1024 * 1024 <? len (ev_Text e)) || negb (bool_decide (ev_LastEvent e ∈ projected_events))
  || (TerminalStatus (ev_Status e) && (ev_LastEvent e != "run." ++ ev_Status e))
  || ((ev_LastEvent e == "approval.request") && ((ev_ApprovalID e == "") || (256 <? len (ev_ApprovalID e)))).

(** The choices a user may be offered, and the text that may be shown. *)
Definition project_event (e : RunEvent) : RunEvent :=
  mkEvent (if (ev_Status e != "completed") && negb (progress_event e) then "" else ev_Text e) (ev_JobID e) (ev_SessionID e) (ev_RunID e)
    (ev_Generation e) (ev_Status e) (ev_LastEvent e) (ev_EventID e) (ev_ApprovalID e)
    (if ev_LastEvent e == "approval.request"
     then filter (λ c, c ∈ ["once"; "session"; "always"; "deny"]) (ev_ApprovalChoices e) else ev_ApprovalChoices e)
    (ev_ApprovalSummary e) (ev_Artifacts e).

(** What an event means for the chat: the text, the id of the delivery, whether it is
    markdown and whether it is the status message. *)
Definition event_text (j : Job) (e : RunEvent) (m : JobMapping) (hash : string) (deadline now : Z) : string * string * bool * bool :=
  let p := b_PrincipalID (m_Binding m) in
  let id := "job-" ++ j_ID j ++ "-event-" ++ hash in
  if ev_Status e == "completed" then (ev_Text e, "job-" ++ j_ID j ++ "-response", true, false)
  else if TerminalStatus (ev_Status e) then
    let expired := (ev_Status e == "cancelled") && (a_ID (m_Approval m) != "") && negb (IsZero (a_Deadline (m_Approval m)))
                   && negb (Before now (a_Deadline (m_Approval m))) in
    let denied := match m_Control m with Some c => c_Choice c == "deny" | None => false end in
    (if expired then locale_T p (if denied then "job.approval-denied" else "job.approval-expired") [j_ID j]
     else failureMessage p (j_ID j) (ev_Status e), "job-" ++ j_ID j ++ "-error", false, false)
  else if ev_LastEvent e == "approval.request" then
    (locale_T p "job.approval-needed" [] ++ (if ev_ApprovalSummary e != "" then String LF "" ++ ev_ApprovalSummary e else "")
     ++ String LF "" ++ locale_T p "job.approval-window" [clock_text UTC deadline ++ " UTC"]
     ++ String LF "" ++ locale_T p "job.approval-hint" [j_ID j; ev_ApprovalID e; String.concat ", " (ev_ApprovalChoices e); j_ID j],
     id, false, false)
  else if progress_event e then
    let text := TrimSpace (ev_Text e) in
    let text := if (text == "") && (ev_LastEvent e == "run.started") then locale_T p "chat.working" [] else text in
    let text := if text == TrimSpace (m_Result m) then "" else text in
    if (text != "") && EditableStatus (ro_Channel (j_Routing j)) then (text, "job-" ++ j_ID j ++ "-status", false, true)
    else (text, id, true, false)
  else ("", id, false, false).

(** The delivery of a receipt, if the event is one for the chat. *)
Definition event_delivery (j : Job) (e : RunEvent) (x : string * string * bool * bool) (position now : Z)
    (buttons : list (string * string)) : Delivery :=
  let '(text, id, markdown, _) := x in
  let r := j_Routing j in
  let ask := ev_LastEvent e == "approval.request" in
  mkDelivery id "" (if ev_Status e == "completed" then j_ID j else "") (e_ConversationID (j_Envelope j))
    (e_DeliveryTargetID (j_Envelope j)) (ro_Channel r) (ro_ChatID r) (ro_TaskID r) (ro_TopicID r) (ro_SlackChannel r) (ro_SlackThread r)
    text (if markdown then "markdown" else "") zero_time (if ev_Status e == "completed" then ev_Artifacts e else []) buttons
    (if ask then j_ID j else "") (if ask then ev_ApprovalID e else "") (if ask then ev_RunID e else "")
    (if ask then ev_Generation e else "") 0 0 position false false now.

(** A new receipt, written ahead of what it says. *)
Definition write_receipt (j : Job) (e : RunEvent) (m : JobMapping) (hash : string) : Q streamReceipt :=
  now ← hnow;
  let deadline := if ev_LastEvent e == "approval.request" then now + 2 * Minute else zero_time in
  let position := u64 (tr_Position (m_Trace m) + 1) in
  let x := event_text j e m hash deadline now in
  let '(text, id, markdown, status) := x in
  let quiet := (ro_AssignmentID (j_Routing j) != "") && ((TrimSpace text == "NO_ACTIONABLE_EVENT") || progress_event e) in
  d ← if (text == "") || quiet then mret None
      else
        buttons ← if ev_LastEvent e == "approval.request" then approvalButtonsLocked (j_ID j) (ev_ApprovalID e) (ev_ApprovalChoices e)
                  else mret [];
        now ← hnow;
        mret (Some (event_delivery j e x position now buttons));
  let r := mkReceipt (j_ID j) position e d deadline (match d with Some _ => status | None => false end) in
  hwrite (λ w, set_events (<[hash := EvReceipt r]> (q_events w)) w) ;;
  mret r.

(** [RecordStreamEvent] *)
Definition RecordStreamEvent (j : Job) (e : RunEvent) : Q unit :=
  if ev_LastEvent e == "run.heartbeat" then fail_if (ev_JobID e != j_ID j) HRefused
  else
    fail_if (event_refused j e) HRefused ;;
    let e := project_event e in
    m ← loadMappingLocked (j_ID j);
    let run := m_Run m in
    fail_if (negb (ownsStreamMapping j m) || ((r_Generation run != "") && (r_Generation run != ev_Generation e))
             || ((r_RunID run != "") && (r_RunID run != ev_RunID e)) || ((r_SessionID run != "") && (r_SessionID run != ev_SessionID e)))
      HConflict ;;
    fail_if (m_terminal m && (m_Status m != ev_Status e)) HConflict ;;
    fail_if (m_terminal m && (m_Result m != "") && (ev_Text e != m_Result m)) HConflict ;;
    let hash := r_sha256_hex (j_ID j ++ NULs ++ ev_EventID e) in
    known ← hread (λ w, q_events w !! hash);
    r ← match known with
        | Some (EvReceipt r) => fail_if ((sr_JobID r != j_ID j) || (ev_EventID (sr_Event r) != ev_EventID e)) HCorrupt ;; mret r
        | Some _ => mthrow_err HCorrupt
        | None => write_receipt j e m hash
        end;
    applyStreamReceiptLocked r ;;
    match sr_Delivery r with
    | Some d => if sr_StatusDelivery r then UpsertStatusDelivery d else EnqueueDelivery d
    | None => mret tt
    end.

(** * Recovery *)

(** One file of [recoverJobs].  The file name is taken for the id of the job. *)
Definition recover_job (name : string) : Q unit :=
  mapping ← try (loadMappingLocked name);
  match mapping with
  | Err HNotExist => rename_job "running" "pending" name
  | Err e => mthrow_err e
  | Ok m =>
      if m_terminal m then rename_job "running" (if m_Status m == "completed" then "done" else "failed") name
      else
        now ← hnow;
        let t := m_Trace m in
        writeMappingLocked
          (mkMapping (m_Binding m) "uncertain" (m_Run m) (m_Result m) (m_Control m) (m_CancelRequested m) (m_Approval m)
             (m_Observation m) (mkTrace "run.unknown" (tr_Position t) (tr_LastEventID t) (tr_StatusText t)) now (m_TerminalAt m)) ;;
        rename_job "running" (if (r_RunID (m_Run m) != "") && (r_SessionID (m_Run m) != "") then "pending" else "failed") name
  end.

(** [recoverJobs] *)
Definition recoverJobs : Q unit := hcall ;; w ← get; for_each (names_in "running" (q_jobs w)) recover_job.

(** [recoverFiles] of the outbox *)
Definition recoverFiles (from to : string) : Q unit :=
  hcall ;; w ← get; for_each (names_in from (q_outbox w)) (rename_delivery from to).

Definition dir_status (dir : string) : string :=
  if dir == "pending" then "accepted" else if dir == "running" then "running" else if dir == "done" then "completed" else "failed".

(** One file of [rebuildMappings]. *)
Definition rebuild_mapping (dir name : string) : Q unit :=
  f ← hread (λ w, q_jobs w !! (dir, name));
  f ← some_or f HNotExist;
  match jf_Job f with
  | None => mret tt
  | Some j =>
      if j_IdempotencyKey j == "" then mret tt
      else
        there ← try (hread (λ w, q_maps w !! FileID (j_ID j)));
        (match there with
         | Ok None => writeMappingLocked (with_status (dir_status dir) (MappingFromJob j (j_CreatedAt j)))
         | _ => mret tt
         end) ;;
        m ← try (loadMappingLocked (j_ID j));
        match m with
        | Ok m => if mappingHoldsContext m then modify (λ w, set_flight (<[mapping_lane m := j_ID j]> (q_flight w)) w) else mret tt
        | Err _ => mret tt
        end
  end.

(** [rebuildMappings] *)
Definition rebuildMappings : Q unit :=
  for_each job_dirs (λ dir, hcall ;; w ← get; for_each (names_in dir (q_jobs w)) (rebuild_mapping dir)).

(** [rebuildIdempotencyIndex] *)
Definition rebuild_index (name : string) : Q unit :=
  r ← hread (λ w, q_maps w !! name);
  r ← some_or r HNotExist;
  match r with
  | None => mret tt
  | Some m =>
      let key := b_IdempotencyKey (m_Binding m) in
      if TrimSpace key == "" then mret tt
      else
        there ← try (hread (λ w, q_index w !! index_name key));
        match there with
        | Ok (Some _) => mret tt
        | _ => writeIdempotencyIndexLocked key (m_JobID m)
        end
  end.
Definition rebuildIdempotencyIndex : Q unit := hcall ;; w ← get; for_each (names_of (q_maps w)) rebuild_index.

(** The receipts in the order of [recoverStreamEvents]. *)
Definition receipt_le (a b : streamReceipt) : Prop :=
  if sr_JobID a == sr_JobID b then sr_Position a ≤ sr_Position b else str_le (sr_JobID a) (sr_JobID b).
Global Instance receipt_le_dec : RelDecision receipt_le.
Proof. intros a b. unfold receipt_le. case_match; apply _. Defined.

Definition read_receipts : Q (list streamReceipt) :=
  hcall ;; w ← get;
  for_fold (names_of (q_events w)) []
    (λ acc name,
       r ← hread (λ w, q_events w !! name);
       r ← some_or r HNotExist;
       match r with
       | EvReceipt r => if (sr_JobID r == "") || (sr_Position r =? 0) then mthrow_err HCorrupt else mret (acc ++ [r])%list
       | EvForeign => mret acc
       | EvBad => mthrow_err HCorrupt
       end).

(** One receipt of [recoverStreamEvents]. *)
Definition recover_receipt (r : streamReceipt) : Q unit :=
  done_ ← try (applyStreamReceiptLocked r);
  match done_ with
  | Err HStale => mret tt
  | Err e => mthrow_err e
  | Ok _ => match sr_Delivery r with Some d => EnqueueDelivery d | None => mret tt end
  end.

(** [recoverStreamEvents] *)
Definition recoverStreamEvents : Q unit :=
  rs ← read_receipts;
  for_each (merge_sort receipt_le rs) recover_receipt.

(** [recover] *)
Definition recover : Q unit :=
  recoverJobs ;;
  recoverFiles "sending" "failed" ;;
  rebuildMappings ;;
  rebuildIdempotencyIndex ;;
  recoverStreamEvents ;;
  reconcileBudgetLocked.

(** [openSpool]: a fresh process on the directories of [w]. *)
Definition spool_dirs : list string :=
  ["pending"; "running"; "done"; "failed"; "outbox/pending"; "outbox/sending"; "outbox/done"; "outbox/failed"; "mappings";
   "mappings/by-key"; "conversations"; "events"; "occurrences"; "schedules"; "tasks"; "tasks/current"; "tasks/topic"; "callbacks";
   "inbound"; "watchers"; "digests"; "mock-sent"; "mock-links"; "tmp"; "goals"].

Definition reopened (b : budgetLedger) (broken : bool) (w : Hub) : Hub :=
  mkHub (h_rt w) (q_jobs w) (q_maps w) (q_index w) (q_convs w) (q_tasks w) (q_assignments w) (q_cursor w) (q_events w)
    (q_callbacks w) (q_outbox w) (q_usage w) (q_ledger w) ∅ ∅ None b broken limitsFromEnv.

Definition openSpool : Q unit :=
  r ← try (hread q_ledger);
  modify (match r with
          | Ok None => reopened empty_ledger false
          | Ok (Some (Some b)) => reopened b false
          | _ => reopened empty_ledger true
          end) ;;
  for_each spool_dirs (λ _, hcall).

(** [NewSpool]: the lock of the directory, a fresh process and its recovery. *)
Definition NewSpool : Q unit := hcall ;; hcall ;; openSpool ;; recover.
End Stream.
