(* ===== verification/SpoolFrame.v ===== *)
(** What an operation of the queue leaves alone: fields of the state it never writes. *)
From stdpp Require Import base gmap strings list pretty sorting.
From Stdlib Require Import Ascii String.
From S2P Require Import Prelude GoStrings BrokerIdentity Contract Calendar Cron RoutineTypes Timing Schedules SpoolTypes SpoolQueue SpoolWork SpoolStream.
Local Open Scope string_scope.
Local Open Scope Z_scope.

Section Frame.
Context `{RoutineWorld} `{TimeText} `{RoutineDeps} `{Unicode} `{QueueWorld} {X : Type}.
Abbreviation Q := (M Hub HErr).

(** The operation keeps [g]. *)
Definition leaves {A} (g : Hub → X) (m : Q A) : Prop := ∀ w, wp m (λ _ w', g w' = g w) w.

Lemma lv_ret {A} g (a : A) : leaves g (mret a).
Proof. done. Qed.

Lemma lv_throw {A} g e : leaves g (mthrow_err e : Q A).
Proof. done. Qed.

Lemma lv_get g : leaves g (get : Q Hub).
Proof. done. Qed.

Lemma lv_fail_if g b e : leaves g (fail_if b e).
Proof. by destruct b. Qed.

Lemma lv_some_or {A} g (o : option A) e : leaves g (some_or o e).
Proof. by destruct o. Qed.

Lemma lv_bind {A B} g (m : Q A) (f : A → Q B) : leaves g m → (∀ a, leaves g (f a)) → leaves g (m ≫= f).
Proof.
  intros Hm Hf w. apply wp_bind. eapply wp_mono; [apply Hm|]. intros [a|e] w1 H1'; [|done].
  eapply wp_mono; [apply Hf|]. intros r w2. congruence.
Qed.

Lemma lv_try {A} g (m : Q A) : leaves g m → leaves g (try m).
Proof. intros Hm w. apply wp_try, Hm. Qed.

Lemma lv_for_each {A} g (l : list A) body : (∀ x, leaves g (body x)) → leaves g (for_each l body).
Proof. intros Hb. induction l; simpl; [apply lv_ret|]. by apply lv_bind. Qed.

Lemma lv_for_return {A R} g (l : list A) (body : A → Q (option R)) : (∀ x, leaves g (body x)) → leaves g (for_return l body).
Proof. intros Hb. induction l; simpl; [apply lv_ret|]. apply lv_bind; [done|]. by intros [r|]. Qed.

Lemma lv_for_fold {A B} g (l : list A) (acc : B) body : (∀ a x, leaves g (body a x)) → leaves g (for_fold l acc body).
Proof. intros Hb. revert acc. induction l; simpl; intros acc; [apply lv_ret|]. by apply lv_bind. Qed.

Lemma lv_modify g f : (∀ w, g (f w) = g w) → leaves g (modify f : Q unit).
Proof. done. Qed.

Lemma lv_on_rt {A} g (m : M Spool SErr A) : (∀ s w, g (set_rt s w) = g w) → leaves g (on_rt m).
Proof. intros Hg w. unfold wp, on_rt. destruct (m (h_rt w)) as [r s]. apply Hg. Qed.

Lemma lv_stat_any g dirs name : (∀ s w, g (set_rt s w) = g w) → leaves g (stat_any dirs name).
Proof.
  intros Hg. induction dirs; simpl; [apply lv_ret|]. apply lv_bind; [|by intros []]. unfold hread, hcall. apply lv_bind; [by apply lv_on_rt|].
  intros _. by apply lv_bind.
Qed.

Lemma lv_stat_outbox g dirs name : (∀ s w, g (set_rt s w) = g w) → leaves g (stat_outbox dirs name).
Proof.
  intros Hg. induction dirs; simpl; [apply lv_ret|]. apply lv_bind; [|by intros []]. unfold hread, hcall. apply lv_bind; [by apply lv_on_rt|].
  intros _. by apply lv_bind.
Qed.
End Frame.

(** The structure of an operation, its writes one by one. *)
Ltac lv_step :=
  first [ apply lv_ret | apply lv_throw | apply lv_get | apply lv_fail_if | apply lv_some_or
        | apply lv_stat_any; intros; reflexivity | apply lv_stat_outbox; intros; reflexivity
        | solve [eauto 2 with leaves]
        | apply lv_on_rt; intros; reflexivity | apply lv_modify; intros; repeat case_match; reflexivity
        | apply lv_bind; [|intros ?] | apply lv_try | apply lv_for_each; intros ? | apply lv_for_return; intros ?
        | apply lv_for_fold; intros ? ? | progress cbv zeta | progress case_match ].
Ltac lv := repeat lv_step.
Create HintDb leaves.
