(* ===== verification/SpoolSpec.v ===== *)
(** The specification of the job queue: the steps its state may take, one for each kind of
    durable change, and the invariant they keep.

    A step is what one file call or one assignment of the code may do.  That every
    operation is a sequence of such steps, whatever file calls fail in between, is proved in
    the refinement of the queue; what holds of all reachable states is proved here, by
    induction on the steps. *)
From stdpp Require Import base gmap strings list pretty sorting relations.
From Stdlib Require Import Ascii String.
From S2P Require Import Prelude GoStrings BrokerIdentity Contract Calendar Cron RoutineTypes Timing Schedules SpoolTypes SpoolQueue SpoolWork SpoolStream.
Local Open Scope string_scope.
Local Open Scope Z_scope.

(** * Mappings *)

Definition keeps (x y : string) : Prop := x ≠ "" → y = x.

(** What may become of a mapping. *)
Record evolves (m m' : JobMapping) : Prop := {
  ev_binding : m_Binding m' = m_Binding m;
  ev_terminal : m_terminal m = true → m_Status m' = m_Status m;
  ev_result : m_terminal m = true → keeps (m_Result m) (m_Result m');
  ev_session : keeps (r_SessionID (m_Run m)) (r_SessionID (m_Run m'));
  ev_run : keeps (r_RunID (m_Run m)) (r_RunID (m_Run m'));
  ev_generation : m_terminal m = true → keeps (r_Generation (m_Run m)) (r_Generation (m_Run m'));
  ev_position : tr_Position (m_Trace m) ≤ tr_Position (m_Trace m');
}.

(** The mapping is that of the job. *)
Definition binds (m : JobMapping) (j : Job) : Prop :=
  let b := m_Binding m in
  let e := j_Envelope j in
  let r := j_Routing j in
  b_JobID b = j_ID j ∧ b_IdempotencyKey b = j_IdempotencyKey j ∧
  (b_PrincipalID b, b_ContextID b, b_RuntimeID b, b_ConversationID b, b_DeliveryTargetID b) =
    (e_PrincipalID e, e_ContextID e, e_RuntimeID e, e_ConversationID e, e_DeliveryTargetID e) ∧
  (b_OrganizationID b, b_UserID b, b_ActorID b, b_ScopeID b, b_Channel b, b_Trigger b) =
    (ro_OrganizationID r, ro_UserID r, ro_ActorID r, ro_ScopeID r, ro_Channel r, j_Trigger j).

(** * The ledger *)

(** The open reservations of a scope. *)
Definition open_of (scope : string) (rs : gmap string reservation) : gmap string reservation :=
  filter (λ kv, rv_State kv.2 = "open" ∧ rv_ScopeID kv.2 = scope) rs.
Definition estimates (rs : gmap string reservation) : Z := map_fold (λ _ r n, n + rv_Estimate r) 0 rs.

(** The counters of every scope are those of its open reservations. *)
Definition balanced (b : budgetLedger) : Prop :=
  ∀ scope, let s := default zero_scope (bl_Scopes b !! scope) in
    sc_PendingJobs s = i64 (Z.of_nat (size (open_of scope (bl_Reservations b)))) ∧
    sc_ReservedTokens s = i64 (estimates (open_of scope (bl_Reservations b))).

Definition bump (jobs tokens : Z) (s s' : scopeBudget) : Prop :=
  sc_PendingJobs s' = i64 (sc_PendingJobs s + jobs) ∧ sc_ReservedTokens s' = i64 (sc_ReservedTokens s + tokens).

(** What may happen to the ledger: a bucket is made or starts a new day; a job is priced,
    below the ceiling of its scope; a reservation is closed. *)
Inductive ledger_step (max : Z) (b : budgetLedger) : budgetLedger → Prop :=
  | l_roll scope s :
      sc_PendingJobs s = sc_PendingJobs (default zero_scope (bl_Scopes b !! scope)) →
      sc_ReservedTokens s = sc_ReservedTokens (default zero_scope (bl_Scopes b !! scope)) →
      ledger_step max b (mkLedger (bl_Reservations b) (<[scope := s]> (bl_Scopes b)))
  | l_open id r s :
      bl_Reservations b !! id = None → rv_State r = "open" → 0 ≤ rv_Estimate r →
      (0 < max → sc_PendingJobs (default zero_scope (bl_Scopes b !! rv_ScopeID r)) < max) →
      bump 1 (rv_Estimate r) (default zero_scope (bl_Scopes b !! rv_ScopeID r)) s →
      ledger_step max b (mkLedger (<[id := r]> (bl_Reservations b)) (<[rv_ScopeID r := s]> (bl_Scopes b)))
  | l_close id r r' s :
      bl_Reservations b !! id = Some r → rv_State r = "open" → rv_State r' ≠ "open" →
      rv_ScopeID r' = rv_ScopeID r → rv_Estimate r' = rv_Estimate r →
      bump (-1) (- rv_Estimate r) (default zero_scope (bl_Scopes b !! rv_ScopeID r)) s →
      ledger_step max b (mkLedger (<[id := r']> (bl_Reservations b)) (<[rv_ScopeID r := s]> (bl_Scopes b))).

Section Spec.
Context `{RoutineWorld} `{QueueWorld}.

(** * Steps *)

(** The renames of the state machine. *)
Definition moves : list (string * string) :=
  [("pending", "running"); ("pending", "failed"); ("running", "done"); ("running", "failed"); ("running", "pending"); ("failed", "pending")].

(** What other parts of the program write: the usage journal, tasks and assignments. *)
Definition outside (usage : option (list usageEntry)) (tasks : TaskFiles) (assignments : gmap string (option Assignment))
    (w : Hub) : Hub :=
  mkHub (h_rt w) (q_jobs w) (q_maps w) (q_index w) (q_convs w) tasks assignments (q_cursor w) (q_events w) (q_callbacks w) (q_outbox w)
    usage (q_ledger w) (q_secret w) (q_flight w) (q_active w) (q_budget w) (q_broken w) (q_limits w).

Inductive qstep (w : Hub) : Hub → Prop :=
  | s_rt s : qstep w (set_rt s w)
  | s_outside u t a : qstep w (outside u t a w)
  | s_index x : qstep w (set_index x w)
  | s_convs x : qstep w (set_convs x w)
  | s_cursor x : qstep w (set_cursor x w)
  | s_events x : qstep w (set_events x w)
  | s_callbacks x : qstep w (set_callbacks x w)
  | s_secret x : qstep w (set_secret x w)
  | s_actives x : qstep w (set_actives x w)
  | s_admit j now :
      (∀ d, d ∈ job_dirs → q_jobs w !! (d, FileID (j_ID j)) = None) →
      (j_Sensitive j = true → j_Text j = "") →
      is_Some (bl_Reservations (q_budget w) !! j_ID j) →
      qstep w (set_jobs (<[("pending", FileID (j_ID j)) := mkJobFile now (Some j)]> (q_jobs w)) w)
  | s_move d d' n f :
      (d, d') ∈ moves → q_jobs w !! (d, n) = Some f →
      qstep w (set_jobs (<[(d', n) := f]> (delete (d, n) (q_jobs w))) w)
  | s_map_new m j d f :
      q_maps w !! FileID (m_JobID m) = None →
      q_jobs w !! (d, FileID (j_ID j)) = Some f → jf_Job f = Some j → binds m j →
      qstep w (set_maps (<[FileID (m_JobID m) := Some m]> (q_maps w)) w)
  | s_map m m' :
      q_maps w !! FileID (m_JobID m) = Some (Some m) → evolves m m' →
      qstep w (set_maps (<[FileID (m_JobID m') := Some m']> (q_maps w)) w)
  | s_take lane id : qstep w (set_flight (<[lane := id]> (q_flight w)) w)
  | s_drop x : x ⊆ q_flight w → qstep w (set_flight x w)
  | s_budget b : q_broken w = false → ledger_step (MaxPendingPerScope (q_limits w)) (q_budget w) b → qstep w (set_budget b w)
  | s_save : q_broken w = false → qstep w (set_ledger (Some (Some (q_budget w))) w)
  | s_deliveries x : qstep w (set_deliveries x w)
  | s_reopen b broken :
      (broken = true ∧ b = empty_ledger ∨ broken = false ∧ (q_ledger w = None ∧ b = empty_ledger ∨ q_ledger w = Some (Some b))) →
      qstep w (reopened b broken w).

Definition steps : Hub → Hub → Prop := rtc qstep.

(** * The invariant *)

(** A ledger holds what it counts. *)
Definition ledger_ok (max : Z) (b : budgetLedger) : Prop :=
  balanced b ∧ (0 < max < 2 ^ 63 → ∀ scope, Z.of_nat (size (open_of scope (bl_Reservations b))) ≤ max).

Record queue_ok (w : Hub) : Prop := {
  qo_dir : ∀ d n f, q_jobs w !! (d, n) = Some f → d ∈ job_dirs;
  qo_place : ∀ d d' n f f', q_jobs w !! (d, n) = Some f → q_jobs w !! (d', n) = Some f' → d = d';
  qo_name : ∀ d n f j, q_jobs w !! (d, n) = Some f → jf_Job f = Some j → n = FileID (j_ID j);
  qo_secret : ∀ d n f j, q_jobs w !! (d, n) = Some f → jf_Job f = Some j → j_Sensitive j = true → j_Text j = "";
  qo_mapped : ∀ n r, q_maps w !! n = Some r → ∃ d f, q_jobs w !! (d, n) = Some f ∧
    ∀ m, r = Some m → n = FileID (m_JobID m) ∧ ∀ j, jf_Job f = Some j → binds m j;
  qo_limits : q_limits w = limitsFromEnv;
  qo_broken : q_broken w = true → q_budget w = empty_ledger;
  qo_budget : ledger_ok (MaxPendingPerScope limitsFromEnv) (q_budget w);
  qo_ledger : ∀ b, q_ledger w = Some (Some b) → ledger_ok (MaxPendingPerScope limitsFromEnv) b;
}.

(** ** The ledger *)

Lemma i64_i64_add x y : i64 (i64 x + y) = i64 (x + y).
Proof. unfold i64. replace ((x + 2 ^ 63) mod 2 ^ 64 - 2 ^ 63 + y + 2 ^ 63) with ((x + 2 ^ 63) mod 2 ^ 64 + y) by lia.
  rewrite Zplus_mod_idemp_l. do 2 f_equal. lia. Qed.

Lemma open_insert_open scope id r rs :
  rs !! id = None → rv_State r = "open" →
  open_of scope (<[id := r]> rs) = if bool_decide (rv_ScopeID r = scope) then <[id := r]> (open_of scope rs) else open_of scope rs.
Proof.
  intros Hid Ho. unfold open_of. case_bool_decide as Hs.
  - by rewrite map_filter_insert_True.
  - rewrite map_filter_insert_not' by (done || naive_solver). done.
Qed.

Lemma open_insert_closed scope id r' rs : rv_State r' ≠ "open" → open_of scope (<[id := r']> rs) = delete id (open_of scope rs).
Proof.
  intros Hc. apply map_eq. intros k. unfold open_of. apply option_eq. intros x.
  rewrite map_lookup_filter_Some, lookup_insert_Some, lookup_delete_Some, map_lookup_filter_Some. naive_solver.
Qed.

Lemma estimates_insert id r rs : rs !! id = None → estimates (<[id := r]> rs) = estimates rs + rv_Estimate r.
Proof. intros Hid. unfold estimates. rewrite map_fold_insert_L; [done| |done]. intros; lia. Qed.

Lemma estimates_delete id r rs : rs !! id = Some r → estimates (delete id rs) = estimates rs - rv_Estimate r.
Proof.
  intros Hid. rewrite <- (insert_delete_id rs id r) at 2 by done. rewrite estimates_insert by apply lookup_delete_eq. lia.
Qed.

Lemma size_delete_Z {A} id (r : A) (rs : gmap string A) : rs !! id = Some r → Z.of_nat (size (delete id rs)) = Z.of_nat (size rs) - 1.
Proof.
  intros Hid. rewrite <- (insert_delete_id rs id r) at 2 by done. rewrite map_size_insert_None by apply lookup_delete_eq. lia.
Qed.

(** The counters of a scope after a step that moves [id] in or out of its open ones. *)
Lemma ledger_ok_step max b b' : ledger_ok max b → ledger_step max b b' → ledger_ok max b'.
Proof.
  intros [Hb Hm] Hs. destruct Hs as [scope s Hp Hr | id r s Hid Ho He Hmax [Hp Hr] | id r r' s Hid Ho Hc Hsc Hes [Hp Hr]].
  - split; [|done]. intros sc. cbn [bl_Scopes bl_Reservations]. destruct (decide (sc = scope)) as [->|Hne].
    + rewrite lookup_insert_eq. change (default zero_scope (Some s)) with s. rewrite Hp, Hr. apply Hb.
    + rewrite lookup_insert_ne by done. apply Hb.
  - assert (Hopen : ∀ sc, open_of sc (<[id := r]> (bl_Reservations b)) =
      if bool_decide (rv_ScopeID r = sc) then <[id := r]> (open_of sc (bl_Reservations b)) else open_of sc (bl_Reservations b)).
    { intros sc. by apply open_insert_open. }
    assert (Hnone : ∀ sc, open_of sc (bl_Reservations b) !! id = None) by (intros sc; by apply map_lookup_filter_None_2; left).
    split; cbn [bl_Scopes bl_Reservations].
    + intros sc. cbn [bl_Scopes bl_Reservations]. rewrite Hopen. case_bool_decide as Hd.
      * subst sc. rewrite lookup_insert_eq. change (default zero_scope (Some s)) with s. destruct (Hb (rv_ScopeID r)) as [Hb1 Hb2].
        rewrite Hp, Hr, Hb1, Hb2, !i64_i64_add, map_size_insert_None, estimates_insert by done. split; [f_equal; lia|done].
      * rewrite lookup_insert_ne by done. apply Hb.
    + intros Hrange sc. rewrite Hopen. case_bool_decide as Hd; [|by apply Hm]. subst sc.
      rewrite map_size_insert_None by done. specialize (Hmax ltac:(lia)). destruct (Hb (rv_ScopeID r)) as [Hb1 _].
      specialize (Hm Hrange (rv_ScopeID r)). rewrite Hb1, i64_id in Hmax; [lia|]. unfold in_i64. lia.
  - assert (Hopen : ∀ sc, open_of sc (<[id := r']> (bl_Reservations b)) = delete id (open_of sc (bl_Reservations b))).
    { intros sc. by apply open_insert_closed. }
    assert (Hin : open_of (rv_ScopeID r) (bl_Reservations b) !! id = Some r) by (by apply map_lookup_filter_Some).
    assert (Hout : ∀ sc, sc ≠ rv_ScopeID r → delete id (open_of sc (bl_Reservations b)) = open_of sc (bl_Reservations b)).
    { intros sc Hne. apply delete_id. apply map_lookup_filter_None_2. right. intros x Hx [_ ?]. simpl in *. congruence. }
    split; cbn [bl_Scopes bl_Reservations].
    + intros sc. cbn [bl_Scopes bl_Reservations]. rewrite Hopen. destruct (decide (sc = rv_ScopeID r)) as [->|Hne].
      * rewrite lookup_insert_eq. change (default zero_scope (Some s)) with s. destruct (Hb (rv_ScopeID r)) as [Hb1 Hb2].
        rewrite Hp, Hr, Hb1, Hb2, !i64_i64_add, (size_delete_Z _ _ _ Hin), (estimates_delete _ _ _ Hin). split; f_equal; lia.
      * rewrite lookup_insert_ne, Hout by done. apply Hb.
    + intros Hrange sc. rewrite Hopen. specialize (Hm Hrange sc). destruct (decide (sc = rv_ScopeID r)) as [->|Hne].
      * rewrite (size_delete_Z _ _ _ Hin). lia.
      * by rewrite Hout.
Qed.

Lemma ledger_ok_empty max : ledger_ok max empty_ledger.
Proof. split; [|intros ? sc; unfold open_of; simpl; rewrite map_filter_empty, map_size_empty; lia]. intros sc. by vm_compute. Qed.

(** ** The directories *)

Lemma moves_dirs d d' : (d, d') ∈ moves → d ∈ job_dirs ∧ d' ∈ job_dirs ∧ d ≠ d'.
Proof.
  unfold moves, job_dirs. intros Hm. repeat (apply elem_of_cons in Hm as [[= -> ->]|Hm]; [split_and!; [set_solver..|done]|]).
  by apply elem_of_nil in Hm.
Qed.

(** A rename keeps a file, and no other changes. *)
Lemma move_lookup (jobs : gmap (string * string) JobFile) d d' n f e k g :
  <[(d', n) := f]> (delete (d, n) jobs) !! (e, k) = Some g →
  (e, k) = (d', n) ∧ g = f ∨ (k = n → e ≠ d) ∧ jobs !! (e, k) = Some g.
Proof.
  intros [[Heq <-]|[Hne Hg]]%lookup_insert_Some; [by left; naive_solver|].
  apply lookup_delete_Some in Hg as [Hne' Hg]. right. split; [|done]. intros -> ->. naive_solver.
Qed.

Lemma evolves_terminal m m' : evolves m m' → m_terminal m = true → m_terminal m' = true.
Proof. intros He Ht. unfold m_terminal in *. by rewrite (ev_terminal _ _ He Ht). Qed.

Global Instance evolves_preorder : PreOrder evolves.
Proof.
  split.
  - intros m. by split.
  - intros m1 m2 m3 H12 H23. pose proof (evolves_terminal _ _ H12) as Ht. destruct H12, H23.
    split; unfold keeps in *; naive_solver (congruence || lia).
Qed.

Lemma evolves_id m m' : evolves m m' → m_JobID m' = m_JobID m.
Proof. intros He. unfold m_JobID. by rewrite (ev_binding _ _ He). Qed.

Lemma evolves_binds m m' j : evolves m m' → binds m j → binds m' j.
Proof. unfold binds. intros He. by rewrite (ev_binding _ _ He). Qed.

(** Steps that touch neither jobs, mappings nor ledgers. *)
Lemma queue_ok_same w w' :
  q_jobs w' = q_jobs w → q_maps w' = q_maps w → q_limits w' = q_limits w → q_broken w' = q_broken w →
  q_budget w' = q_budget w → q_ledger w' = q_ledger w → queue_ok w → queue_ok w'.
Proof. intros Hj Hm Hl Hb Hu Hd []. by split; rewrite ?Hj, ?Hm, ?Hl, ?Hb, ?Hu, ?Hd. Qed.

Lemma queue_ok_admit w j now :
  queue_ok w → (∀ d, d ∈ job_dirs → q_jobs w !! (d, FileID (j_ID j)) = None) → (j_Sensitive j = true → j_Text j = "") →
  queue_ok (set_jobs (<[("pending", FileID (j_ID j)) := mkJobFile now (Some j)]> (q_jobs w)) w).
Proof.
  intros [Hd Hp Hn Hs Hm Hl Hb Hu Hq] Hfresh Htext.
  assert (Hno : ∀ d f, q_jobs w !! (d, FileID (j_ID j)) ≠ Some f).
  { intros d f Hf. rewrite Hfresh in Hf by (by eapply Hd). done. }
  split; simpl; try done.
  - intros d n f [[[= <- <-] <-]|[_ Hf]]%lookup_insert_Some; [unfold job_dirs; set_solver|by eapply Hd].
  - intros d d' n f f' [[Heq <-]|[_ Hf]]%lookup_insert_Some [[Heq' <-]|[_ Hf']]%lookup_insert_Some; [congruence| | |by eapply Hp].
    + injection Heq as <- <-. by apply Hno in Hf'.
    + injection Heq' as <- <-. by apply Hno in Hf.
  - intros d n f j' [[[= <- <-] <-]|[_ Hf]]%lookup_insert_Some; [by intros [= <-]|by eapply Hn].
  - intros d n f j' [[[= <- <-] <-]|[_ Hf]]%lookup_insert_Some; [by intros [= <-]|by eapply Hs].
  - intros n r Hr. destruct (Hm n r Hr) as (d & f & Hf & Hmm). exists d, f. split; [|done].
    rewrite lookup_insert_ne; [done|]. intros [= <- <-]. by apply Hno in Hf.
Qed.

Lemma queue_ok_move w d d' n f :
  queue_ok w → (d, d') ∈ moves → q_jobs w !! (d, n) = Some f →
  queue_ok (set_jobs (<[(d', n) := f]> (delete (d, n) (q_jobs w))) w).
Proof.
  intros [Hd Hp Hn Hs Hm Hl Hb Hu Hq] (Hi & Hi' & Hne)%moves_dirs Hf.
  assert (Hold : ∀ e k g, <[(d', n) := f]> (delete (d, n) (q_jobs w)) !! (e, k) = Some g → ∃ e', q_jobs w !! (e', k) = Some g).
  { intros e k g [[[= -> ->] ->]|[_ Hg]]%move_lookup; eauto. }
  split; simpl; try done.
  - intros e k g [[[= -> ->] ->]|[_ Hg]]%move_lookup; [done|by eapply Hd].
  - intros e e' k g g' [[Heq ->]|[Hx Hg]]%move_lookup [[Heq' ->]|[Hy Hg']]%move_lookup; [congruence| | |by eapply Hp].
    + injection Heq as -> ->. destruct (Hy eq_refl). by eapply Hp.
    + injection Heq' as -> ->. destruct (Hx eq_refl). by eapply Hp.
  - intros e k g j (e' & Hg)%Hold. by eapply Hn.
  - intros e k g j (e' & Hg)%Hold. by eapply Hs.
  - intros k r (e & g & Hg & Hgm)%Hm. destruct (decide (k = n)) as [->|Hk].
    + assert (e = d) as -> by (by eapply Hp). exists d', g. rewrite lookup_insert_eq. split; [congruence|done].
    + exists e, g. rewrite lookup_insert_ne, lookup_delete_ne by naive_solver. done.
Qed.

Lemma queue_ok_maps w m r :
  queue_ok w → (∃ d f, q_jobs w !! (d, FileID (m_JobID m)) = Some f ∧ ∀ j, jf_Job f = Some j → binds m j) → r = FileID (m_JobID m) →
  queue_ok (set_maps (<[r := Some m]> (q_maps w)) w).
Proof.
  intros [Hd Hp Hn Hs Hm Hl Hb Hu Hq] (d & f & Hf & Hj) ->. split; simpl; try done.
  intros n r [[<- <-]|[_ Hr]]%lookup_insert_Some; [|by apply Hm]. exists d, f. split; [done|]. by intros m' [= <-].
Qed.

(** Every step keeps the invariant. *)
Lemma queue_ok_step w w' : queue_ok w → qstep w w' → queue_ok w'.
Proof.
  intros Hok Hs. destruct Hs; try (by apply (queue_ok_same w)).
  - by apply queue_ok_admit.
  - by apply queue_ok_move.
  - apply queue_ok_maps; [done| |done]. exists d, f. destruct (qo_name _ Hok _ _ _ _ H2 H3).
    assert (m_JobID m = j_ID j) as -> by apply H4. split; [done|]. intros j' Hj'. congruence.
  - apply queue_ok_maps; [done| |done]. destruct (qo_mapped _ Hok _ _ H1) as (d & f & Hf & Hb).
    exists d, f. rewrite (evolves_id _ _ H2). split; [done|]. intros j Hj. eapply evolves_binds; [done|]. by apply (Hb m).
  - destruct Hok. split; simpl; try done; [|]; [congruence|]. rewrite qo_limits0 in H2. by eapply ledger_ok_step.
  - destruct Hok. split; simpl; try done. by intros b' [= <-].
  - destruct Hok. split; simpl; try done.
    + intros ->. naive_solver.
    + destruct H1 as [[_ ->]|[_ [[_ ->]|Hb]]]; [apply ledger_ok_empty..|by apply qo_ledger0].
Qed.

Lemma queue_ok_steps w w' : queue_ok w → steps w w' → queue_ok w'.
Proof. intros Hok Hs. induction Hs; [done|]. apply IHHs. by eapply queue_ok_step. Qed.

(** A mapping is never lost, and only evolves. *)
Lemma mapping_step w w' n m :
  qstep w w' → queue_ok w → q_maps w !! n = Some (Some m) → ∃ m', q_maps w' !! n = Some (Some m') ∧ evolves m m'.
Proof.
  intros Hs Hok Hm. destruct Hs; simpl; try (by exists m).
  - exists m. split; [|done]. rewrite lookup_insert_ne; [done|]. congruence.
  - destruct (decide (n = FileID (m_JobID m'))) as [->|Hne].
    + exists m'. rewrite lookup_insert_eq. split; [done|]. rewrite (evolves_id _ _ H2) in Hm. congruence.
    + exists m. by rewrite lookup_insert_ne.
Qed.

Lemma mapping_steps w w' n m :
  steps w w' → queue_ok w → q_maps w !! n = Some (Some m) → ∃ m', q_maps w' !! n = Some (Some m') ∧ evolves m m'.
Proof.
  intros Hs. revert m. induction Hs as [w|w w1 w2 H1' _ IH]; intros m Hok Hm; [by exists m|].
  destruct (mapping_step _ _ _ _ H1' Hok Hm) as (m1 & Hm1 & He1).
  destruct (IH m1 (queue_ok_step _ _ Hok H1') Hm1) as (m2 & Hm2 & He2). exists m2. split; [done|by etrans].
Qed.

(** A job file is never lost, and stays the same. *)
Lemma job_step w w' d n f : qstep w w' → queue_ok w → q_jobs w !! (d, n) = Some f → ∃ d', q_jobs w' !! (d', n) = Some f.
Proof.
  intros Hs Hok Hf. destruct Hs; simpl; try (by exists d).
  - exists d. rewrite lookup_insert_ne; [done|]. intros [= <- <-]. rewrite H1 in Hf; [done|by eapply qo_dir].
  - destruct (decide (n = n0)) as [<-|Hne].
    + assert (d = d0) as -> by (by eapply qo_place). exists d'. rewrite lookup_insert_eq. congruence.
    + exists d. rewrite lookup_insert_ne, lookup_delete_ne by naive_solver. done.
Qed.

Lemma job_steps w w' d n f : steps w w' → queue_ok w → q_jobs w !! (d, n) = Some f → ∃ d', q_jobs w' !! (d', n) = Some f.
Proof.
  intros Hs. revert d. induction Hs as [w|w w1 w2 H1' _ IH]; intros d Hok Hf; [by exists d|].
  destruct (job_step _ _ _ _ _ H1' Hok Hf) as (d1 & Hf1). by eapply IH, Hf1; eapply queue_ok_step.
Qed.
End Spec.
