(* ===== verification/SpoolRefine.v ===== *)
(** The operations of the queue are sequences of the steps of its specification, whatever
    they are given and whatever file calls fail. *)
From stdpp Require Import base gmap strings list pretty sorting relations.
From Stdlib Require Import Ascii String.
From S2P Require Import Prelude GoStrings BrokerIdentity Contract Calendar Cron RoutineTypes Timing Schedules SpoolTypes SpoolQueue SpoolWork SpoolStream SpoolSpec.
Local Open Scope string_scope.
Local Open Scope Z_scope.

(** The part of the state an operation leaves alone. *)
Record still (w w' : Hub) : Prop := {
  st_jobs : q_jobs w' = q_jobs w;
  st_maps : q_maps w' = q_maps w;
  st_broken : q_broken w' = q_broken w;
  st_limits : q_limits w' = q_limits w;
  st_flight : q_flight w' = q_flight w;
}.
Global Instance still_preorder : PreOrder still.
Proof. split; [by split|]. intros ? ? ? [] []. split; congruence. Qed.

(** ... with the counters of the ledger ... *)
Record accounts (w w' : Hub) : Prop := {
  ac_still : still w w';
  ac_reserved : bl_Reservations (q_budget w') = bl_Reservations (q_budget w);
  ac_pending : ∀ sc, sc_PendingJobs (default zero_scope (bl_Scopes (q_budget w') !! sc)) =
                     sc_PendingJobs (default zero_scope (bl_Scopes (q_budget w) !! sc));
  ac_tokens : ∀ sc, sc_ReservedTokens (default zero_scope (bl_Scopes (q_budget w') !! sc)) =
                    sc_ReservedTokens (default zero_scope (bl_Scopes (q_budget w) !! sc));
}.
Global Instance accounts_preorder : PreOrder accounts.
Proof. split; [by split|]. intros ? ? ? [] []. split; [by etrans|congruence|..]; intros sc; etrans; eauto. Qed.

(** ... and with the whole ledger. *)
Record calm (w w' : Hub) : Prop := {
  ca_still : still w w';
  ca_budget : q_budget w' = q_budget w;
}.
Global Instance calm_preorder : PreOrder calm.
Proof. split; [by split|]. intros ? ? ? [] []. split; [by etrans|congruence]. Qed.

Lemma calm_accounts w w' : calm w w' → accounts w w'.
Proof. intros [? Hb]. by split; rewrite ?Hb. Qed.

Definition anything (w w' : Hub) : Prop := True.
Global Instance anything_preorder : PreOrder anything.
Proof. by split. Qed.

(** Preconditions: none, or a ledger that was readable. *)
Definition always (w : Hub) : Prop := True.
Definition sound (w : Hub) : Prop := q_broken w = false.

Class Stable (P : Hub → Prop) (F : Hub → Hub → Prop) : Prop := stable : ∀ w w', F w w' → P w → P w'.
Global Instance stable_always F : Stable always F.
Proof. done. Qed.
Global Instance stable_sound : Stable sound still.
Proof. intros w w' [_ _ Hb _ _]. unfold sound. congruence. Qed.
Global Instance stable_sound_accounts : Stable sound accounts.
Proof. intros w w' [Hs _ _ _]. by apply stable_sound. Qed.
Global Instance stable_sound_calm : Stable sound calm.
Proof. intros w w' [Hs _]. by apply stable_sound. Qed.

Section Refine.
Context `{RoutineWorld} `{TimeText} `{RoutineDeps} `{Unicode} `{QueueWorld}.
Abbreviation Q := (M Hub HErr).

(** * Files *)

Lemma wp_on_rt {A} (m : M Spool SErr A) (P : res HErr A → Hub → Prop) w : (∀ r s, P r (set_rt s w)) → wp (on_rt m) P w.
Proof. intros HP. unfold wp, on_rt. by destruct (m (h_rt w)). Qed.

Lemma wp_hcall (P : res HErr unit → Hub → Prop) w :
  (∀ s, P (Ok tt) (set_rt s w)) → (∀ s, P (Err HIO) (set_rt s w)) → wp hcall P w.
Proof. intros Hok He. unfold wp, hcall, on_rt, call. by destruct (host_ok (sp_calls (h_rt w))). Qed.

Lemma wp_hnow (P : res HErr Z → Hub → Prop) w : (∀ t s, P (Ok t) (set_rt s w)) → wp hnow P w.
Proof. intros HP. unfold wp, hnow, on_rt, now_. apply HP. Qed.

Lemma wp_hread {A} (look : Hub → option A) (P : res HErr (option A) → Hub → Prop) w :
  (∀ s, P (Ok (look (set_rt s w))) (set_rt s w)) → (∀ s, P (Err HIO) (set_rt s w)) → wp (hread look) P w.
Proof. intros Hok He. unfold hread. apply wp_bind, wp_hcall; [|done]. intros s. by apply wp_bind, wp_get, wp_ret. Qed.

Lemma wp_hwrite f (P : res HErr unit → Hub → Prop) w :
  (∀ r s s', P r (set_rt s' (f (set_rt s w)))) → (∀ s, P (Err HIO) (set_rt s w)) → wp (hwrite f) P w.
Proof.
  intros Hd He. unfold hwrite. apply wp_bind, wp_hcall; [|done]. intros s. apply wp_bind, wp_modify, wp_hcall; intros s'; apply Hd.
Qed.

Lemma wp_load_mapping id (P : res HErr JobMapping → Hub → Prop) w :
  (∀ m s, q_maps w !! FileID id = Some (Some m) → m_JobID m = id → P (Ok m) (set_rt s w)) →
  (∀ e s, (e = HNotExist → q_maps w !! FileID id = None) → P (Err e) (set_rt s w)) →
  wp (loadMappingLocked id) P w.
Proof.
  intros Hok He. unfold loadMappingLocked. apply wp_bind, wp_hread; [|by intros s; apply He].
  intros s. apply wp_bind, wp_some_or; [|by intros ?; apply He]. intros r Hr.
  apply wp_bind, wp_some_or; [|by intros ?; apply He]. intros m ->.
  apply wp_bind, wp_fail_if; intros Hid; [by apply He|]. apply wp_ret. apply negb_false_iff, bool_decide_eq_true in Hid. by apply Hok.
Qed.

(** * Steps *)

Lemma steps_one w0 w w' : steps w0 w → qstep w w' → steps w0 w'.
Proof. apply rtc_r. Qed.

Lemma steps_trans w0 w w' : steps w0 w → steps w w' → steps w0 w'.
Proof. unfold steps. intros. by etrans. Qed.

(** An operation refines the specification, from states of [P] and within the frame [F]. *)
Definition refines {A} (P : Hub → Prop) (F : Hub → Hub → Prop) (m : Q A) : Prop :=
  ∀ w, queue_ok w → P w → wp m (λ _ w', steps w w' ∧ F w w') w.

Section Frame.
Context (P : Hub → Prop) (F : Hub → Hub → Prop) `{!PreOrder F} `{HP : !Stable P F}.

Lemma rf_ret {A} (a : A) : refines P F (mret a).
Proof. intros w _ _. apply wp_ret. split; [apply rtc_refl|done]. Qed.

Lemma rf_throw {A} e : refines P F (mthrow_err e : Q A).
Proof. intros w _ _. apply wp_throw. split; [apply rtc_refl|done]. Qed.

Lemma rf_get : refines P F (get : Q Hub).
Proof. intros w _ _. apply wp_get. split; [apply rtc_refl|done]. Qed.

Lemma rf_fail_if b e : refines P F (fail_if b e).
Proof. destruct b; [apply rf_throw|apply rf_ret]. Qed.

Lemma rf_some_or {A} (o : option A) e : refines P F (some_or o e).
Proof. destruct o; [apply rf_ret|apply rf_throw]. Qed.

Lemma rf_bind {A B} (m : Q A) (f : A → Q B) : refines P F m → (∀ a, refines P F (f a)) → refines P F (m ≫= f).
Proof.
  intros Hm Hf w Hok Hw. apply wp_bind. eapply wp_mono; [by apply Hm|]. intros [a|e] w1 [Hs1 HF1]; simpl; [|done].
  eapply wp_mono; [apply Hf; [by eapply queue_ok_steps|by eapply HP]|]. intros r w2 [Hs2 HF2].
  split; [by eapply steps_trans|by etrans].
Qed.

Lemma rf_try {A} (m : Q A) : refines P F m → refines P F (try m).
Proof. intros Hm w Hok Hw. by apply wp_try, Hm. Qed.

Lemma rf_for_each {A} (l : list A) body : (∀ x, refines P F (body x)) → refines P F (for_each l body).
Proof. intros Hb. induction l; simpl; [apply rf_ret|]. by apply rf_bind. Qed.

Lemma rf_for_return {A R} (l : list A) (body : A → Q (option R)) : (∀ x, refines P F (body x)) → refines P F (for_return l body).
Proof. intros Hb. induction l; simpl; [apply rf_ret|]. apply rf_bind; [done|]. intros [r|]; [apply rf_ret|done]. Qed.

Lemma rf_for_fold {A B} (l : list A) (acc : B) body : (∀ a x, refines P F (body a x)) → refines P F (for_fold l acc body).
Proof. intros Hb. revert acc. induction l; simpl; intros acc; [apply rf_ret|]. by apply rf_bind. Qed.
End Frame.

Lemma rf_if {A} P F (b : bool) (m1 m2 : Q A) :
  (b = true → refines P F m1) → (b = false → refines P F m2) → refines P F (if b then m1 else m2).
Proof. destruct b; auto. Qed.

(** From a weaker precondition or a tighter frame. *)
Lemma rf_weaken {A} P P' F F' (m : Q A) : refines P' F' m → (∀ w, P w → P' w) → (∀ w w', F' w w' → F w w') → refines P F m.
Proof. intros Hm HP HF w Hok Hw. eapply wp_mono; [by apply Hm; auto|]. intros r w' [? ?]. auto. Qed.

(** What is outside the jobs, the mappings, the lanes and the ledger. *)
Lemma rf_modify f : (∀ w, qstep w (f w)) → (∀ w, calm w (f w)) → refines always calm (modify f : Q unit).
Proof. intros Hs Hf w _ _. apply wp_modify. split; [|done]. by apply rtc_once. Qed.

Lemma rf_on_rt {A} (m : M Spool SErr A) : refines always calm (on_rt m).
Proof. intros w _ _. apply wp_on_rt. intros r s. split; [|done]. apply rtc_once, s_rt. Qed.

Lemma rf_hcall : refines always calm hcall.
Proof. apply rf_on_rt. Qed.

Lemma rf_hnow : refines always calm hnow.
Proof. apply rf_on_rt. Qed.

Lemma rf_hread {A} (look : Hub → option A) : refines always calm (hread look).
Proof.
  unfold hread. apply rf_bind; [apply _..|apply rf_hcall|]. intros _. apply rf_bind; [apply _..|apply rf_get, _|].
  intros w. apply rf_ret, _.
Qed.

Lemma rf_hwrite f : (∀ w, qstep w (f w)) → (∀ w, calm w (f w)) → refines always calm (hwrite f).
Proof.
  intros Hs Hf. unfold hwrite. apply rf_bind; [apply _..|apply rf_hcall|]. intros _.
  apply rf_bind; [apply _..|by apply rf_modify|]. intros _. apply rf_hcall.
Qed.
End Refine.

(** The structure of an operation, down to the operations of the hint database. *)
Create HintDb spool.
#[export] Hint Resolve rf_on_rt rf_hcall rf_hnow rf_hread : spool.
#[export] Hint Extern 1 (qstep _ _) => constructor : spool.
#[export] Hint Extern 1 (refines _ _ (hwrite _)) => apply rf_hwrite; intros ?; [by constructor|by repeat split] : spool.
#[export] Hint Extern 1 (calm _ _) => by repeat split : spool.
#[export] Hint Resolve calm_accounts ca_still ac_still : spool.
#[export] Hint Extern 1 (anything _ _) => exact I : spool.
#[export] Hint Extern 1 (always _) => exact I : spool.

Ltac rf_leaf :=
  first [ eapply rf_weaken; [solve [eauto 3 with spool]|solve [eauto 3 with spool]|solve [eauto 4 with spool]] ].
Ltac rf_step :=
  first [ apply rf_ret; apply _ | apply rf_throw; apply _ | apply rf_get; apply _ | apply rf_fail_if; apply _ | apply rf_some_or; apply _
        | rf_leaf
        | apply rf_bind; [apply _|apply _| |intros ?] | apply rf_try
        | apply rf_for_each; [apply _|apply _|intros ?] | apply rf_for_return; [apply _|apply _|intros ?]
        | apply rf_for_fold; [apply _|apply _|intros ? ?]
        | progress cbv zeta | progress case_match ].
Ltac rf := repeat rf_step.

Section Operations.
Context `{RoutineWorld} `{TimeText} `{RoutineDeps} `{Unicode} `{QueueWorld}.
Abbreviation Q := (M Hub HErr).

Lemma rf_index key id : refines always calm (writeIdempotencyIndexLocked key id).
Proof. apply rf_hwrite; auto with spool. Qed.
#[local] Hint Resolve rf_index : spool.

Lemma rf_load id : refines always calm (loadMappingLocked id).
Proof. unfold loadMappingLocked. rf. Qed.
#[local] Hint Resolve rf_load : spool.

Lemma rf_find key : refines always calm (findIdempotencyLocked key).
Proof. unfold findIdempotencyLocked, find_indexed, scan_mapping. rf. Qed.

Lemma rf_bind_task j : refines always calm (bind_task j).
Proof. unfold bind_task, loadTaskLocked. rf. Qed.

(** ** The ledger *)

(** A bucket is made or starts its day; its counters of open work stay. *)
Lemma wp_bucket_eq scope (P : res HErr scopeBudget → Hub → Prop) w :
  (∀ b s, sc_PendingJobs b = sc_PendingJobs (default zero_scope (bl_Scopes (q_budget w) !! scope)) →
     sc_ReservedTokens b = sc_ReservedTokens (default zero_scope (bl_Scopes (q_budget w) !! scope)) →
     P (Ok b) (set_budget (mkLedger (bl_Reservations (q_budget w)) (<[scope := b]> (bl_Scopes (q_budget w)))) (set_rt s w))) →
  wp (bucketLocked scope) P w.
Proof.
  intros HP. unfold bucketLocked. apply wp_bind, wp_get, wp_bind, wp_hnow. intros t s.
  set (b := if _ != _ then _ else _). apply wp_bind, wp_modify, wp_ret, HP; unfold b; by case_match.
Qed.

Lemma wp_bucket scope w :
  sound w → wp (bucketLocked scope) (λ r w', steps w w' ∧ accounts w w' ∧ ∃ b, r = Ok b ∧
    sc_PendingJobs b = sc_PendingJobs (default zero_scope (bl_Scopes (q_budget w) !! scope))) w.
Proof.
  intros Hw. apply wp_bucket_eq. intros b s Hp Hr. split_and!; [| |by exists b].
  - eapply steps_one; [apply rtc_once, s_rt|]. apply s_budget; [done|]. by apply l_roll.
  - split; [by split|done|..]; intros sc; simpl; destruct (decide (sc = scope)) as [->|Hne];
      rewrite ?lookup_insert_eq, ?lookup_insert_ne by done; done.
Qed.

Lemma rf_bucket scope : refines sound accounts (bucketLocked scope).
Proof. intros w _ Hw. eapply wp_mono; [by apply wp_bucket|]. by intros r w' (? & ? & _). Qed.
#[local] Hint Resolve rf_bucket : spool.

Lemma rf_save : refines sound accounts saveBudgetLocked.
Proof.
  unfold saveBudgetLocked, hwrite. rf. intros w Hok Hw. apply wp_modify. split; [|by repeat split].
  by apply rtc_once, s_save.
Qed.
#[local] Hint Resolve rf_save : spool.

Lemma wp_ceilings scope estimate w :
  queue_ok w → sound w →
  wp (checkCeilingsLocked scope estimate) (λ r w', steps w w' ∧ accounts w w' ∧
    (r = Ok tt → 0 < MaxPendingPerScope (q_limits w) →
       sc_PendingJobs (default zero_scope (bl_Scopes (q_budget w) !! scope)) < MaxPendingPerScope (q_limits w))) w.
Proof.
  intros Hok Hw. unfold checkCeilingsLocked. apply wp_bind, wp_get, wp_bind.
  eapply (wp_mono _ (λ r w', steps w w' ∧ accounts w w' ∧
    (r = Ok tt → 0 < MaxPendingPerScope (q_limits w) →
       sc_PendingJobs (default zero_scope (bl_Scopes (q_budget w) !! scope)) < MaxPendingPerScope (q_limits w)))).
  { apply wp_if; intros Hmax; [|apply wp_ret; split_and!; [apply rtc_refl|done|lia]]. apply wp_bind.
    eapply wp_mono; [by apply wp_bucket|]. intros r w1 (Hs1 & Ha1 & b & -> & Hp). apply wp_fail_if; intros Hf; split_and!; try done.
    lia. }
  intros [[]|e] w1 (Hs1 & Ha1 & Hmax); [|done]. specialize (Hmax eq_refl).
  assert (Hrest : ∀ m : Q unit, refines sound accounts m → wp m (λ r w', steps w w' ∧ accounts w w' ∧
    (r = Ok tt → 0 < MaxPendingPerScope (q_limits w) →
       sc_PendingJobs (default zero_scope (bl_Scopes (q_budget w) !! scope)) < MaxPendingPerScope (q_limits w))) w1).
  { intros m Hm. eapply wp_mono; [apply Hm; [by eapply queue_ok_steps|by eapply stable_sound_accounts]|].
    intros r w2 [Hs2 Ha2]. split_and!; [by eapply steps_trans|by etrans|done]. }
  apply Hrest. rf.
Qed.

(** Pricing a job opens one reservation for it, below the ceiling of its scope. *)
Lemma wp_reserve j w :
  queue_ok w →
  wp (reserveLocked j) (λ r w', steps w w' ∧ still w w' ∧ (r = Ok tt → is_Some (bl_Reservations (q_budget w') !! j_ID j))) w.
Proof.
  intros Hok. unfold reserveLocked. apply wp_bind, wp_get, wp_bind, wp_fail_if; intros Hw; [split_and!; [apply rtc_refl|done|done]|].
  apply wp_bind, wp_fail_if; intros Hneg; [split_and!; [apply rtc_refl|done|done]|].
  destruct (bl_Reservations (q_budget w) !! j_ID j) as [res|] eqn:Hres; [by apply wp_ret; split_and!; [apply rtc_refl|done|eauto]|].
  set (estimate := if _ =? 0 then _ else _). set (scope := if _ == "" then _ else _).
  assert (He : 0 ≤ estimate) by (unfold estimate, defaultTokenEstimate; case_match; lia).
  apply wp_bind. eapply wp_mono; [by apply wp_ceilings|]. intros [[]|e] w1 (Hs1 & Ha1 & Hmax).
  2:{ split_and!; [done|by apply ac_still|done]. }
  specialize (Hmax eq_refl). apply wp_bind, wp_hnow. intros t s1. apply wp_bind, wp_modify, wp_bind, wp_bucket_eq.
  intros b s2 Hp Hr. apply wp_bind, wp_modify. cbn [q_budget bl_Reservations bl_Scopes set_budget set_rt].
  rewrite insert_insert_eq. cbn [q_budget bl_Scopes set_budget set_rt] in Hp, Hr.
  set (r0 := mkReservation _ _ _ _ _ _ _). set (w2 := set_budget _ _).
  assert (Hs2 : steps w w2).
  { eapply steps_one; [eapply steps_one; [exact Hs1|apply (s_rt _ s2)]|]. apply (s_budget (set_rt s2 w1)).
    - simpl. by rewrite (st_broken _ _ (ac_still _ _ Ha1)).
    - apply (l_open _ (q_budget w1) (j_ID j) r0).
      + by rewrite (ac_reserved _ _ Ha1).
      + done.
      + done.
      + simpl. rewrite (st_limits _ _ (ac_still _ _ Ha1)), (ac_pending _ _ Ha1). exact Hmax.
      + split; simpl; by rewrite <- ?Hp, <- ?Hr. }
  assert (Ht2 : still w w2) by (etrans; [by apply ac_still|by split]).
  eapply wp_mono; [apply rf_save; [by eapply queue_ok_steps|by eapply stable_sound]|]. intros r w3 [Hs3 Ha3].
  split_and!; [by eapply steps_trans|etrans; [done|by apply ac_still]|]. intros _. rewrite (ac_reserved _ _ Ha3). simpl.
  rewrite lookup_insert_eq. eauto.
Qed.
(** A ledger with a reservation was readable. *)
Lemma reserved_sound id r w : queue_ok w → bl_Reservations (q_budget w) !! id = Some r → sound w.
Proof. intros Hok Hr. unfold sound. destruct (q_broken w) eqn:Hb; [|done]. by rewrite (qo_broken _ Hok Hb) in Hr. Qed.

(** Closing an open reservation, with the bucket [b] of its scope at hand. *)
Lemma close_steps id res res' b b' s w w' :
  w' = set_budget (mkLedger (<[id := res']> (bl_Reservations (q_budget w)))
         (<[rv_ScopeID res := b']> (<[rv_ScopeID res := b]> (bl_Scopes (q_budget w))))) (set_rt s w) →
  queue_ok w → bl_Reservations (q_budget w) !! id = Some res → rv_State res = "open" → rv_State res' ≠ "open" →
  rv_ScopeID res' = rv_ScopeID res → rv_Estimate res' = rv_Estimate res →
  sc_PendingJobs b = sc_PendingJobs (default zero_scope (bl_Scopes (q_budget w) !! rv_ScopeID res)) →
  sc_ReservedTokens b = sc_ReservedTokens (default zero_scope (bl_Scopes (q_budget w) !! rv_ScopeID res)) →
  sc_PendingJobs b' = i64 (sc_PendingJobs b - 1) → sc_ReservedTokens b' = i64 (sc_ReservedTokens b - rv_Estimate res) →
  steps w w'.
Proof.
  intros -> Hok Hres Ho Hc Hsc He Hp Hr Hp' Hr'. rewrite insert_insert_eq. eapply steps_one; [apply rtc_once, (s_rt _ s)|].
  apply (s_budget (set_rt s w)); [exact (reserved_sound id res w Hok Hres)|]. apply (l_close _ (q_budget w) id res res'); try done.
  split; rewrite <- ?Hp, <- ?Hr; [rewrite Hp'|rewrite Hr']; f_equal; lia.
Qed.

Lemma rf_settle id : refines always still (settleReservationLocked id).
Proof.
  intros w Hok _. unfold settleReservationLocked. apply wp_bind, wp_get.
  destruct (bl_Reservations (q_budget w) !! id) as [res|] eqn:Hres; [|by apply wp_ret; split; [apply rtc_refl|]].
  apply wp_if; intros Ho; [by apply wp_ret; split; [apply rtc_refl|]|]. apply negb_false_iff, bool_decide_eq_true in Ho.
  assert (Hrt : ∀ s, steps w (set_rt s w) ∧ still w (set_rt s w)) by (intros s; split; [apply rtc_once, s_rt|by split]).
  apply wp_bind, wp_hcall; [|done]. intros s1. apply wp_bind, wp_get, wp_bind, wp_some_or; [|done]. intros entries _.
  apply wp_bind, wp_bucket_eq. intros b s Hp Hr. cbn [q_budget set_rt bl_Reservations bl_Scopes] in Hp, Hr |- *.
  destruct (usage_of id entries) as [[[i o] metered] measured]. apply wp_bind.
  eapply (wp_mono _ (λ r w', r = Ok tt ∧ steps w w' ∧ still w w')).
  { repeat case_match; apply wp_bind, wp_modify, wp_modify; (split_and!; [done| |by split]); by eapply (close_steps id res); [reflexivity|..]. }
  intros r w1 (-> & Hs1 & Ht1).
  eapply wp_mono; [apply rf_save; [by eapply queue_ok_steps|eapply stable_sound; [done|by eapply reserved_sound]]|].
  intros r w2 [Hs2 Ha2]. split; [by eapply steps_trans|etrans; [done|by apply ac_still]].
Qed.
#[local] Hint Resolve rf_settle : spool.

(** The release at the end of a round of the reconciliation. *)
Lemma wp_release id res s0 w :
  queue_ok w → bl_Reservations (q_budget w) !! id = Some res → rv_State res = "open" →
  wp (b ← bucketLocked (rv_ScopeID res);
      put_bucket (rv_ScopeID res)
        (mkScope (i64 (sc_PendingJobs b - 1)) (i64 (sc_ReservedTokens b - rv_Estimate res)) (sc_SettledIn b) (sc_SettledOut b)
           (sc_Unknown b) (sc_Day b)) ;;
      put_reservation id
        (mkReservation (rv_JobID res) (rv_ScopeID res) (rv_Principal res) (rv_Estimate res) "released" (rv_Charged res) (rv_CreatedAt res)) ;;
      mret true) (λ _ w', steps w w' ∧ still w w') (set_rt s0 w).
Proof.
  intros Hok Hres Ho. apply wp_bind, wp_bucket_eq. intros b s Hp Hr. cbn [q_budget set_rt bl_Reservations bl_Scopes] in Hp, Hr |- *.
  apply wp_bind, wp_modify, wp_bind, wp_modify, wp_ret. split; [by eapply (close_steps id res); [reflexivity|..]|by split].
Qed.

Lemma rf_reconcile_one changed id : refines always still (reconcile_one changed id).
Proof.
  intros w Hok _. unfold reconcile_one. apply wp_bind, wp_get.
  destruct (bl_Reservations (q_budget w) !! id) as [res|] eqn:Hres; [|by apply wp_ret; split; [apply rtc_refl|]].
  apply wp_if; intros Ho; [by apply wp_ret; split; [apply rtc_refl|]|]. apply negb_false_iff, bool_decide_eq_true in Ho.
  assert (Hrt : ∀ s, steps w (set_rt s w) ∧ still w (set_rt s w)) by (intros s; split; [apply rtc_once, s_rt|by split]).
  apply wp_bind, wp_try, wp_hread; intros s1; (apply wp_bind, wp_try, wp_hread; intros s2);
    (apply wp_if; intros _; [by apply wp_ret, Hrt|]);
    (apply wp_bind, wp_try, wp_load_mapping; [intros m s _ _|intros e s _; exact (wp_release id res s w Hok Hres Ho)]);
    (apply wp_if; intros _; [|exact (wp_release id res s w Hok Hres Ho)]);
    (assert (Hrf : refines always still (settleReservationLocked id ;; mret true)) by rf);
    (eapply wp_mono; [apply Hrf; [exact (queue_ok_steps w _ Hok (proj1 (Hrt s)))|done]|]);
    intros r w1 [Hss Ht1]; (split; [exact (steps_trans _ _ _ (proj1 (Hrt s)) Hss)|exact (transitivity (proj2 (Hrt s)) Ht1)]).
Qed.
#[local] Hint Resolve rf_reconcile_one : spool.

Lemma rf_reconcile : refines always still reconcileBudgetLocked.
Proof.
  intros w Hok _. unfold reconcileBudgetLocked. apply wp_bind, wp_get, wp_bind. set (keys := q_order _ _).
  assert (Hk : keys = [] ∨ sound w).
  { unfold sound. destruct (q_broken w) eqn:Hb; [left|by right]. unfold keys. rewrite (qo_broken _ Hok Hb). apply Permutation_nil.
    symmetry. apply q_order_perm. }
  destruct Hk as [->|Hw]; [by apply wp_ret, wp_ret; split; [apply rtc_refl|]|].
  assert (Hrf : refines always still (for_fold keys false reconcile_one)) by rf.
  eapply wp_mono; [by apply Hrf|]. intros [changed|e] w1 [Hs1 Ht1]; [|done]. apply wp_if; intros Hch; [|by apply wp_ret].
  eapply wp_mono; [apply rf_save; [by eapply queue_ok_steps|by eapply stable_sound]|].
  intros r w2 [Hs2 Ha2]. split; [by eapply steps_trans|etrans; [done|by apply ac_still]].
Qed.
#[local] Hint Resolve rf_reconcile : spool.

(** ** Mappings *)

(** What is left alone when a mapping is written. *)
Record filed (w w' : Hub) : Prop := {
  fl_jobs : q_jobs w' = q_jobs w;
  fl_broken : q_broken w' = q_broken w;
  fl_limits : q_limits w' = q_limits w;
}.
Global Instance filed_preorder : PreOrder filed.
Proof. split; [by split|]. intros ? ? ? [] []. split; congruence. Qed.

Lemma still_filed w w' : still w w' → filed w w'.
Proof. by intros []. Qed.
#[local] Hint Resolve still_filed : spool.

(** A mapping may be written: it is an evolution of the one there, or the first of a job. *)
Definition writable (m : JobMapping) (w : Hub) : Prop :=
  (∃ m0, q_maps w !! FileID (m_JobID m) = Some (Some m0) ∧ evolves m0 m) ∨
  (q_maps w !! FileID (m_JobID m) = None ∧ ∃ j d f, q_jobs w !! (d, FileID (j_ID j)) = Some f ∧ jf_Job f = Some j ∧ binds m j).

Lemma writable_step m w : writable m w → qstep w (set_maps (<[FileID (m_JobID m) := Some m]> (q_maps w)) w).
Proof.
  intros [(m0 & Hm & He)|(Hn & j & d & f & Hf & Hj & Hb)]; [|by eapply s_map_new].
  eapply s_map; [|done]. by rewrite <- (evolves_id _ _ He).
Qed.

Lemma writable_evolves m0 m w : q_maps w !! FileID (m_JobID m0) = Some (Some m0) → evolves m0 m → writable m w.
Proof. intros Hm He. left. exists m0. by rewrite (evolves_id _ _ He). Qed.

(** Writing a mapping: the file is replaced or, when the call fails, maybe not. *)
Record wrote (m : JobMapping) (w w' : Hub) : Prop := {
  wr_filed : filed w w';
  wr_flight : q_flight w' = q_flight w;
  wr_maps : q_maps w' = q_maps w ∨ q_maps w' = <[FileID (m_JobID m) := Some m]> (q_maps w);
}.

Lemma wp_write_mapping m w :
  writable m w →
  wp (writeMappingLocked m) (λ r w', steps w w' ∧ wrote m w w' ∧
    (r = Ok tt → q_maps w' = <[FileID (m_JobID m) := Some m]> (q_maps w))) w.
Proof.
  intros Hw. unfold writeMappingLocked, hwrite.
  assert (Hw' : ∀ s, steps w (set_maps (<[FileID (m_JobID m) := Some m]> (q_maps w)) (set_rt s w))).
  { intros s. eapply steps_one; [apply rtc_once, (s_rt _ s)|]. by apply (writable_step _ (set_rt s w)). }
  apply wp_bind, wp_bind, wp_hcall; intros s; [|split_and!; [apply rtc_once, s_rt|split; [by split|done|by left]|done]].
  apply wp_bind, wp_modify, wp_hcall; intros s'.
  2:{ split_and!; [eapply steps_one; [apply (Hw' s)|apply s_rt]|split; [by split|done|by right]|done]. }
  apply wp_bind, wp_modify. set (w1 := set_actives _ _).
  assert (Hs1 : steps w w1).
  { eapply steps_one; [eapply steps_one; [apply (Hw' s)|apply (s_rt _ s')]|apply s_actives]. }
  assert (Hq1 : filed w w1 ∧ q_flight w1 = q_flight w ∧ q_maps w1 = <[FileID (m_JobID m) := Some m]> (q_maps w)) by by split.
  clearbody w1. destruct Hq1 as (Hf1 & Hl1 & Hm1).
  apply wp_if; intros _; [apply wp_ret; split_and!; [done|split; [done|done|by right]|done]|].
  apply wp_hwrite.
  - intros r s2 s3. split_and!; [|split; [by destruct Hf1; split|done|by right]|done].
    eapply steps_one; [eapply steps_one; [eapply steps_one; [exact Hs1|apply (s_rt _ s2)]|]|apply s_rt]. apply (s_index (set_rt s2 w1)).
  - intros s2. split_and!; [eapply steps_one; [exact Hs1|apply s_rt]|split; [by destruct Hf1; split|done|by right]|done].
Qed.

Lemma trim_empty : TrimSpace "" = "".
Proof. done. Qed.

Lemma updated_evolves m o status terminal now :
  update_refused m o status = false → evolves m (updated m o status terminal now).
Proof.
  unfold update_refused, updated, or_else. rewrite !orb_false_iff, !andb_false_iff, !negb_false_iff, !bool_decide_eq_true.
  intros (((((H1' & H2') & H3') & H4') & H5') & H6').
  split; unfold keeps; simpl; try done.
  - intros Ht. case_bool_decide; [done|]. naive_solver congruence.
  - intros Ht Hr. case_match eqn:Hc; [|done]. apply andb_true_iff in Hc as [Hc _]. apply negb_true_iff, bool_decide_eq_false in Hc.
    destruct H2' as [[[?|?]|Ht']|?]; [congruence|done| |done]. rewrite Ht', trim_empty in Hc. done.
  - intros Hr. case_bool_decide; [done|]. naive_solver.
  - intros Hr. case_bool_decide; [done|]. naive_solver.
  - intros _ Hr. case_bool_decide; [done|]. naive_solver.
Qed.

(** What is left alone when an ended job gives up its lane. *)
Record unlaned (id : string) (w w' : Hub) : Prop := {
  ul_filed : filed w w';
  ul_maps : q_maps w' = q_maps w;
  ul_flight : q_flight w' ⊆ q_flight w;
  ul_others : ∀ lane h, q_flight w !! lane = Some h → h ≠ id → q_flight w' !! lane = Some h;
}.
Global Instance unlaned_preorder id : PreOrder (unlaned id).
Proof. split; [by split|]. intros ? ? ? [] []. split; [by etrans|congruence|by etrans|auto]. Qed.

Lemma still_unlaned id w w' : still w w' → unlaned id w w'.
Proof. intros Hs. split; [by apply still_filed|by apply st_maps|by rewrite (st_flight _ _ Hs)..]. Qed.
#[local] Hint Resolve still_unlaned : spool.

Lemma rf_drop lane id :
  refines always (unlaned id)
    (modify (λ w, if bool_decide (q_flight w !! lane = Some id) then set_flight (delete lane (q_flight w)) w else w) : Q unit).
Proof.
  intros w _ _. apply wp_modify. case_bool_decide as Hl; [|split; [apply rtc_refl|done]].
  split; [apply rtc_once, s_drop, delete_subseteq|]. split; [by split|done|apply delete_subseteq|].
  intros lane' h Hh Hne. simpl. rewrite lookup_delete_ne; [done|]. congruence.
Qed.
#[local] Hint Resolve rf_drop : spool.

(** Recording an outcome evolves the mapping, closes the reservation of a job that ended and
    frees its lane. *)
Lemma wp_update id o status terminal w :
  queue_ok w →
  wp (updateMappingLocked id o status terminal) (λ r w', steps w w' ∧ filed w w' ∧
    (q_flight w' ⊆ q_flight w ∧ ∀ lane h, q_flight w !! lane = Some h → h ≠ id → q_flight w' !! lane = Some h) ∧
    (r = Ok tt → ∃ m now, q_maps w !! FileID id = Some (Some m) ∧ m_JobID m = id ∧ update_refused m o status = false ∧
       q_maps w' = <[FileID id := Some (updated m o status terminal now)]> (q_maps w))) w.
Proof.
  intros Hok. unfold updateMappingLocked. apply wp_bind, wp_load_mapping.
  2:{ intros e s _. split_and!; [apply rtc_once, s_rt|by split|done..]. }
  intros m s Hm Hid. apply wp_bind, wp_fail_if; intros Href; [split_and!; [apply rtc_once, s_rt|by split|done..]|].
  assert (Hs0 : steps w (set_rt s w)) by apply rtc_once, s_rt. set (w0 := set_rt s w) in *. assert (Hc0 : calm w w0) by by repeat split.
  apply wp_bind. eapply wp_mono.
  { apply (rf_weaken always always calm calm); [rf|done|done|by eapply queue_ok_steps|done]. }
  intros r w1 [Hs1 Hc1]. assert (Hs01 : steps w w1) by by eapply steps_trans. assert (Hc01 : calm w w1) by by etrans.
  clear dependent w0. destruct Hc01 as [[Hj1 Hm1 Hb1 Hl1 Hfl1] _].
  destruct r as [[]|e]; [|split_and!; [done|by split|by rewrite Hfl1..|done]].
  apply wp_bind, wp_hnow. intros now s2. apply wp_bind. eapply wp_mono.
  { apply (wp_write_mapping _ (set_rt s2 w1)). eapply (writable_evolves m); [simpl; rewrite Hm1, Hid; done|by apply updated_evolves]. }
  intros r w2 (Hs2 & [Hf2 Hfl2 _] & Hmw).
  assert (Hs02 : steps w w2) by (eapply steps_trans; [eapply steps_one; [exact Hs01|apply s_rt]|exact Hs2]).
  assert (Hf02 : filed w w2) by (destruct Hf2; split; simpl in *; congruence). assert (Hl02 : q_flight w2 = q_flight w) by (simpl in *; congruence).
  destruct r as [[]|e]; [|split_and!; [done|done|by rewrite Hl02..|done]]. specialize (Hmw eq_refl). simpl in Hmw.
  set (m' := updated m o status terminal now). set (rest := (if terminal then _ else _) ≫= _).
  assert (Hrest : refines always (unlaned id) rest) by (unfold rest, m'; rewrite <- Hid; rf).
  eapply wp_mono; [apply Hrest; [by eapply queue_ok_steps|done]|]. intros r w3 [Hs3 [Hf3 Hm3 Hl3 Ho3]].
  split_and!; [by eapply steps_trans|by etrans|by rewrite <- Hl02|by rewrite <- Hl02|]. intros _. exists m, now. split_and!; [done..|].
  rewrite Hm3, Hmw, Hm1. change (m_JobID (updated m o status terminal now)) with (m_JobID m). by rewrite Hid.
Qed.

Lemma rf_update id o status terminal : refines always filed (updateMappingLocked id o status terminal).
Proof. intros w Hok _. eapply wp_mono; [by apply wp_update|]. by intros r w' (? & ? & _). Qed.
#[local] Hint Resolve rf_update : spool.

Lemma steps_rt w0 w s : steps w0 w → steps w0 (set_rt s w).
Proof. intros Hs. by eapply steps_one, s_rt. Qed.

(** ** Composition with knowledge of a mapping *)

Definition has (m : JobMapping) (w : Hub) : Prop := q_maps w !! FileID (m_JobID m) = Some (Some m).
Global Instance stable_has m : Stable (has m) calm.
Proof. intros w w' [[_ Hm _ _ _] _]. unfold has. by rewrite Hm. Qed.

(** First something calm, which keeps the precondition ... *)
Lemma rf_bind_calm {A B} P `{!Stable P calm} F `{!PreOrder F} (m : Q A) (f : A → Q B) :
  refines always calm m → (∀ w w', calm w w' → F w w') → (∀ a, refines P F (f a)) → refines P F (m ≫= f).
Proof.
  intros Hm HF Hf w Hok Hw. apply wp_bind. eapply wp_mono; [by apply Hm|]. intros [a|e] w1 [Hs1 HF1]; simpl; [|by auto].
  eapply wp_mono; [apply Hf; [by eapply queue_ok_steps|by eapply stable]|]. intros r w2 [Hs2 HF2].
  split; [by eapply steps_trans|]. etrans; [by apply HF|done].
Qed.

(** ... or something that needs it, and then anything. *)
Lemma rf_seq {A B} P F `{!PreOrder F} (m : Q A) (f : A → Q B) :
  refines P F m → (∀ a, refines always F (f a)) → refines P F (m ≫= f).
Proof.
  intros Hm Hf w Hok Hw. apply wp_bind. eapply wp_mono; [by apply Hm|]. intros [a|e] w1 [Hs1 HF1]; simpl; [|done].
  eapply wp_mono; [apply Hf; [by eapply queue_ok_steps|done]|]. intros r w2 [Hs2 HF2].
  split; [by eapply steps_trans|by etrans].
Qed.

Lemma rf_load_bind {B} F `{!PreOrder F} id (f : JobMapping → Q B) :
  (∀ w w', calm w w' → F w w') → (∀ m, m_JobID m = id → refines (has m) F (f m)) → refines always F (loadMappingLocked id ≫= f).
Proof.
  intros HF Hf w Hok _. apply wp_bind, wp_load_mapping.
  2:{ intros e s _. split; [apply rtc_once, s_rt|apply HF; by repeat split]. }
  intros m s Hm Hid. eapply wp_mono; [apply Hf; [done|eapply (queue_ok_steps w); [done|apply rtc_once, s_rt]|by subst id]|].
  intros r w1 [Hs1 HF1]. split; [eapply steps_trans; [apply rtc_once, (s_rt _ s)|done]|]. etrans; [|done]. apply HF. by repeat split.
Qed.

Lemma rf_try_load_bind {B} F `{!PreOrder F} id (f : res HErr JobMapping → Q B) :
  (∀ w w', calm w w' → F w w') → (∀ m, m_JobID m = id → refines (has m) F (f (Ok m))) → (∀ e, refines always F (f (Err e))) →
  refines always F (try (loadMappingLocked id) ≫= f).
Proof.
  intros HF Hf He w Hok _. assert (Hrt : ∀ s, steps w (set_rt s w)) by (intros; apply rtc_once, s_rt).
  assert (Hgo : ∀ P (m : Q B) s, refines P F m → P (set_rt s w) → wp m (λ _ w', steps w w' ∧ F w w') (set_rt s w)).
  { intros P m s Hm HP. eapply wp_mono; [apply Hm; [exact (queue_ok_steps _ _ Hok (Hrt s))|done]|]. intros r w1 [Hs1 HF1].
    split; [exact (steps_trans _ _ _ (Hrt s) Hs1)|]. etrans; [|done]. apply HF. by repeat split. }
  apply wp_bind, wp_try, wp_load_mapping; [intros m s Hm Hid|intros e s _; by eapply Hgo].
  eapply (Hgo (has m)); [by apply Hf|]. by subst id.
Qed.

Lemma rf_write m m' : evolves m m' → refines (has m) filed (writeMappingLocked m').
Proof.
  intros He w Hok Hm. eapply wp_mono; [apply wp_write_mapping; by eapply writable_evolves|]. intros r w' (Hs & [Hf _ _] & _). done.
Qed.

Lemma filed_anything w w' : filed w w' → anything w w'.
Proof. done. Qed.

Lemma rf_rename from to name : (from, to) ∈ moves → refines always anything (rename_job from to name).
Proof.
  intros Hm w Hok _. unfold rename_job. apply wp_bind, wp_hcall; [|intros s; split; [apply rtc_once, s_rt|done]].
  intros s. apply wp_bind, wp_get, wp_bind, wp_some_or; [|intros _; split; [apply rtc_once, s_rt|done]].
  intros f Hf. apply wp_modify. split; [|done]. eapply steps_one; [apply rtc_once, (s_rt _ s)|]. by apply (s_move (set_rt s w)).
Qed.
Hint Extern 1 (_ ∈ moves) => unfold moves; set_solver : spool.
#[local] Hint Resolve rf_rename : spool.

Lemma rf_release id : refines always anything (releaseInFlightLocked id).
Proof. intros w _ _. apply wp_modify. split; [|done]. apply rtc_once, s_drop, map_filter_subseteq. Qed.
#[local] Hint Resolve rf_release : spool.

Lemma rf_take lane id : refines always anything (modify (λ w, set_flight (<[lane := id]> (q_flight w)) w) : Q unit).
Proof. intros w _ _. apply wp_modify. split; [|done]. apply rtc_once, s_take. Qed.
#[local] Hint Resolve rf_take : spool.

Lemma rf_forget id : refines always calm (modify (λ w, set_secret (delete id (q_secret w)) w) : Q unit).
Proof. apply rf_modify; [intros; constructor|by repeat split]. Qed.
#[local] Hint Resolve rf_forget : spool.

(** ** Admission *)

Definition fresh (id : string) (w : Hub) : Prop := ∀ d, d ∈ job_dirs → q_jobs w !! (d, FileID id) = None.
Global Instance stable_fresh id : Stable (fresh id) still.
Proof. intros w w' [Hj _ _ _ _] Hf d Hd. rewrite Hj. by apply Hf. Qed.

Lemma wp_stat_any dirs name (P : res HErr bool → Hub → Prop) w :
  (∀ s, P (Ok true) (set_rt s w)) → (∀ s, (∀ d, d ∈ dirs → q_jobs w !! (d, name) = None) → P (Ok false) (set_rt s w)) →
  (∀ s, P (Err HIO) (set_rt s w)) → wp (stat_any dirs name) P w.
Proof.
  intros Ht Hf He. assert (Hgen : ∀ l s, (∀ d, d ∈ dirs → d ∈ l ∨ q_jobs w !! (d, name) = None) → wp (stat_any l name) P (set_rt s w)).
  { induction l as [|d l IH]; intros s Hl; simpl.
    - apply wp_ret, Hf. intros d Hd. destruct (Hl d Hd) as [[]%elem_of_nil|]; done.
    - apply wp_bind, wp_hread; intros s'; [|apply He]. destruct (q_jobs _ !! (d, name)) eqn:Hd; [apply wp_ret, Ht|].
      apply IH. intros d' [[->|?]%elem_of_cons|?]%Hl; auto. }
  replace w with (set_rt (h_rt w) w) by by destruct w. apply Hgen. by left.
Qed.

Lemma wp_hide j w :
  wp (hide_text j) (λ r w', ∃ j', r = Ok j' ∧ steps w w' ∧ calm w w' ∧ j_ID j' = j_ID j ∧ (j_Sensitive j' = true → j_Text j' = "")) w.
Proof.
  unfold hide_text. apply wp_if; intros Hs.
  - apply wp_bind, wp_modify, wp_ret. eexists. split; [done|]. split_and!; [apply rtc_once, s_secret|by repeat split|done|done].
  - apply wp_ret. exists j. split; [done|]. split_and!; [apply rtc_refl|done|done|congruence].
Qed.

(** A new job: priced first, then its file, then its mapping. *)
Lemma rf_admit fingerprint j : refines (fresh (j_ID j)) anything (admit_job fingerprint j).
Proof.
  intros w Hok Hfresh. unfold admit_job. apply wp_bind. eapply wp_mono; [apply wp_hide|].
  intros r w1 (j' & -> & Hs1 & [Ht1 _] & Hid & Htext). assert (Hok1 : queue_ok w1) by by eapply queue_ok_steps.
  assert (Hf1 : fresh (j_ID j') w1) by (rewrite Hid; by eapply stable_fresh). clear Hfresh Hid j Ht1.
  apply wp_bind. eapply wp_mono; [by apply rf_reconcile|]. intros [[]|e] w2 [Hs2 Ht2]; (assert (Hs02 : steps w w2) by by eapply steps_trans); [|done].
  assert (Hok2 : queue_ok w2) by by eapply queue_ok_steps. assert (Hf2 : fresh (j_ID j') w2) by by eapply stable_fresh.
  apply wp_bind. eapply wp_mono; [by apply wp_reserve|]. intros [[]|e] w3 (Hs3 & Ht3 & Hres); (assert (Hs03 : steps w w3) by by eapply steps_trans); [|done].
  assert (Hf3 : fresh (j_ID j') w3) by by eapply stable_fresh. assert (Hok3 : queue_ok w3) by by eapply queue_ok_steps. specialize (Hres eq_refl).
  clear dependent w1 w2. apply wp_bind, wp_hnow. intros now s. apply wp_bind. pose proof (steps_rt _ _ s Hs03) as Hs04. unfold hwrite.
  apply wp_bind, wp_hcall; intros s1; [|split; [by apply steps_rt|done]].
  apply wp_bind, wp_modify. set (w4 := set_jobs _ _).
  assert (Hs4 : steps w w4).
  { eapply steps_one; [apply (steps_rt _ _ s1 Hs04)|]. by apply (s_admit (set_rt s1 (set_rt s w3))). }
  assert (Hin : q_jobs w4 !! ("pending", FileID (j_ID j')) = Some (mkJobFile now (Some j'))) by (simpl; apply lookup_insert_eq).
  assert (Hno : q_maps w4 !! FileID (j_ID j') = None).
  { simpl. destruct (q_maps w3 !! FileID (j_ID j')) as [r|] eqn:Hm; [|done]. destruct (qo_mapped _ Hok3 _ _ Hm) as (d & f & Hf & _).
    rewrite Hf3 in Hf; [done|by eapply qo_dir]. }
  clearbody w4. apply wp_hcall; intros s2; [|split; [by apply steps_rt|done]].
  apply wp_bind, wp_if; intros _; [apply wp_ret, wp_ret; split; [by apply steps_rt|done]|].
  set (m := with_binding _ _). eapply wp_mono.
  { apply (wp_write_mapping m (set_rt s2 w4)). right. split; [done|]. exists j', "pending". eexists. split_and!; [done|done|].
    by repeat split. }
  intros [[]|e] w5 (Hs5 & _ & _); (assert (Hs05 : steps w w5) by (eapply steps_trans; [eapply steps_one; [exact Hs4|apply s_rt]|exact Hs5]));
    [by apply wp_ret|done].
Qed.

Lemma apply_holds_id holds j j' : apply_holds holds j = Some j' → j_ID j' = j_ID j ∧ j_IdempotencyKey j' = j_IdempotencyKey j.
Proof.
  revert j. induction holds as [|h holds IH]; intros j; simpl; [by intros [= <-]|].
  repeat case_match; [apply IH|done|]. intros Hj%IH. done.
Qed.

Lemma rf_enqueue j : refines always anything (enqueueLocked j).
Proof.
  unfold enqueueLocked. apply rf_bind; [apply _..|eapply rf_weaken; [apply rf_bind_task|done|done]|]. intros j1.
  apply rf_bind; [apply _..|apply rf_get, _|]. intros w0. destruct (match holdsSnapshot _ with Some _ => _ | None => _ end) as [j2|]; [|rf].
  apply rf_bind; [apply _..|destruct (_ == ""); [rf|eapply rf_weaken; [apply rf_find|done|done]]|].
  intros [m|]; [rf|]. intros w Hok _. apply wp_bind, wp_stat_any.
  - intros s. apply wp_ret. split; [apply rtc_once, s_rt|done].
  - intros s Hno. eapply wp_mono; [apply rf_admit; [eapply (queue_ok_steps w); [done|apply rtc_once, s_rt]|done]|].
    intros r w1 [Hs1 _]. split; [|done]. eapply steps_trans; [apply rtc_once, (s_rt _ s)|done].
  - intros s. split; [apply rtc_once, s_rt|done].
Qed.
End Operations.

#[export] Hint Resolve rf_index rf_load rf_find rf_bind_task rf_bucket rf_save rf_settle rf_reconcile still_filed still_unlaned ul_filed rf_drop rf_update filed_anything
  rf_rename rf_release rf_take rf_forget rf_enqueue : spool.
#[export] Hint Extern 1 (_ ∈ moves) => unfold moves; set_solver : spool.
