(* ===== verification/SpoolOps.v ===== *)
(** Refinement of the operations that work off the queue, of the event stream and of the
    recovery; the system of one spool and its reachable states. *)
From stdpp Require Import base gmap strings list pretty sorting relations.
From Stdlib Require Import Ascii String.
From S2P Require Import Prelude GoStrings BrokerIdentity Contract Calendar Cron RoutineTypes Timing Schedules SpoolTypes SpoolQueue SpoolWork SpoolStream SpoolSpec SpoolRefine.
Local Open Scope string_scope.
Local Open Scope Z_scope.

Section Operations.
Context `{RoutineWorld} `{TimeText} `{RoutineDeps} `{Unicode} `{QueueWorld}.
Abbreviation Q := (M Hub HErr).

#[local] Opaque rename_job writeMappingLocked updateMappingLocked loadMappingLocked releaseInFlightLocked hread hwrite hcall hnow.

(** ** Working off *)

Lemma rf_claim_text name mapping j : refines always anything (claim_text name mapping j).
Proof. unfold claim_text. rf. Qed.

Lemma rf_run_claim name j : refines always anything (run_claim name j).
Proof. unfold run_claim, claim_text. rf. Qed.

Lemma rf_claim : refines always anything ClaimJob.
Proof.
  unfold ClaimJob, read_candidates, read_cursor, claim_one, cancel_claim, AssignmentForWakeLocked, occurrence_current, run_claim, claim_text.
  rf.
Qed.

Lemma rf_complete id : refines always anything (CompleteJob id).
Proof. unfold CompleteJob. rf. Qed.

Lemma rf_fail id : refines always anything (FailJob id).
Proof. unfold FailJob. rf. Qed.

Lemma rf_outcome id o : refines always anything (RecordOutcome id o).
Proof. unfold RecordOutcome. rf. Qed.

(** ** Control *)

(** Where a mapping is loaded and written back, only that it evolves is left to show. *)
Lemma filed_calm w w' : calm w w' → filed w w'.
Proof. intros [Hs _]. by apply still_filed. Qed.

Lemma rf_cancel id caller : refines always filed (RequestCancel id caller).
Proof.
  unfold RequestCancel. apply rf_load_bind; [apply _|apply filed_calm|]. intros m _.
  apply rf_bind_calm; [apply _..|rf|apply filed_calm|]. intros _. case_match eqn:Hc; [rf|].
  apply rf_bind_calm; [apply _..|rf|apply filed_calm|]. intros now. cbv zeta. apply rf_seq; [apply _| |rf].
  apply rf_write. apply orb_false_iff in Hc as [Hc _]. split; simpl; try done; rewrite ?Hc; done.
Qed.

Lemma rf_approval id caller request choice : refines always filed (RequestApproval id caller request choice).
Proof.
  unfold RequestApproval. apply rf_load_bind; [apply _|apply filed_calm|]. intros m _.
  apply rf_bind_calm; [apply _..|rf|apply filed_calm|]. intros _.
  apply rf_bind_calm; [apply _..|rf|apply filed_calm|]. intros now. cbv zeta.
  case_match; (apply rf_bind_calm; [apply _..|rf|apply filed_calm|]); intros _; [rf|]. apply rf_write. by split.
Qed.

Lemma rf_intend authorized id : refines always filed (control_intend authorized id).
Proof.
  unfold control_intend. apply rf_try_load_bind; [apply _|apply filed_calm| |intros; rf]. intros m _.
  apply rf_bind_calm; [apply _..|rf|apply filed_calm|]. intros now. destruct (m_Control m) as [c|]; [|rf].
  apply rf_if; intros _; [rf|]. cbv zeta. apply rf_seq; [apply _| |rf]. apply rf_write. by split.
Qed.

Lemma rf_quiet m m' : evolves m m' → refines (has m) filed (try (writeMappingLocked m') ;; mret tt).
Proof. intros He. apply rf_seq; [apply _| |rf]. intros w Hok Hm. by apply wp_try, (rf_write m). Qed.

Lemma rf_retry id : refines always filed (control_retry id).
Proof.
  unfold control_retry. apply rf_try_load_bind; [apply _|apply filed_calm| |intros; rf]. intros m _.
  destruct (m_Control m); [|rf]. apply rf_if; intros _; [|rf]. apply rf_quiet. by split.
Qed.

Lemma rf_applied id sent reconciling : refines always filed (control_applied id sent reconciling).
Proof.
  unfold control_applied. apply rf_try_load_bind; [apply _|apply filed_calm| |intros; rf]. intros m _.
  destruct (m_Control m); [|rf]. apply rf_if; intros _; [|rf]. apply rf_quiet. by split.
Qed.

Lemma rf_stat_outbox dirs name : refines always calm (stat_outbox dirs name).
Proof. induction dirs; simpl; rf. Qed.
#[local] Hint Resolve rf_stat_outbox : spool.

Lemma rf_requeue now b : refines always anything (RequeueObservations now b).
Proof.
  unfold RequeueObservations. rf_step; [rf|]. rf_step; [rf|]. rf_step. unfold requeue_one.
  rf_step; [rf|]. rf_step; [rf|]. apply rf_try_load_bind; [apply _|done| |intros []; rf]. intros m _. cbv zeta.
  apply rf_if; intros _; [rf|]. apply rf_if; intros _; [rf|].
  apply rf_bind_calm; [apply _..|rf|done|]. intros _. apply rf_bind_calm; [apply _..|rf|done|]. intros told.
  apply rf_if; intros _; [rf|]. apply rf_seq; [apply _| |intros; rf].
  eapply rf_weaken; [apply (rf_write m)|done|done]. by split.
Qed.

Lemma rf_rebind j e : refines always filed (RebindObservation j e).
Proof.
  unfold RebindObservation. apply rf_load_bind; [apply _|apply filed_calm|]. intros m _.
  intros w Hok Hm. apply wp_bind, wp_fail_if; intros Hc; [split; [apply rtc_refl|done]|].
  apply (rf_write m); [|done..]. rewrite !orb_false_iff in Hc. destruct Hc as [_ Ht]. split; simpl; try done. congruence.
Qed.

(** ** The outbox *)

Hint Extern 1 (refines _ _ (modify _)) => apply rf_modify; intros ?; [by constructor|by repeat split] : spool.

Lemma rf_put dir name d : refines always calm (put_delivery dir name d).
Proof. apply rf_hwrite; intros; [constructor|by repeat split]. Qed.
#[local] Hint Resolve rf_put : spool.

Lemma rf_rename_delivery from to name : refines always calm (rename_delivery from to name).
Proof. unfold rename_delivery. rf. Qed.
#[local] Hint Resolve rf_rename_delivery : spool.

Lemma rf_deliver d : refines always calm (SpoolStream.EnqueueDelivery d).
Proof. unfold SpoolStream.EnqueueDelivery, enqueueDeliveryLocked, count_ordinary. rf. Qed.
#[local] Hint Resolve rf_deliver : spool.

Lemma rf_claim_delivery : refines always calm ClaimDelivery.
Proof. unfold ClaimDelivery, claim_pass. rf. Qed.

Lemma rf_update_sending d : refines always calm (UpdateSending d).
Proof. unfold UpdateSending. rf. Qed.

Lemma rf_upsert d : refines always calm (UpsertStatusDelivery d).
Proof. unfold UpsertStatusDelivery, absorb_edit. rf. Qed.
#[local] Hint Resolve rf_upsert : spool.

Lemma rf_close_status id : refines always calm (CloseStatusDelivery id).
Proof. unfold CloseStatusDelivery. rf. Qed.

Lemma rf_buttons id request choices : refines always calm (approvalButtonsLocked id request choices).
Proof. unfold approvalButtonsLocked. rf. Qed.
#[local] Hint Resolve rf_buttons : spool.

Lemma rf_callback data : refines always calm (ApprovalCallback data).
Proof. unfold ApprovalCallback. rf. Qed.

(** ** The event stream *)

Lemma rf_receipt r : refines always filed (applyStreamReceiptLocked r).
Proof.
  unfold applyStreamReceiptLocked. apply rf_load_bind; [apply _|apply filed_calm|]. intros m Hid. cbv zeta.
  apply rf_bind_calm; [apply _..|rf|apply filed_calm|]. intros _. apply rf_bind_calm; [apply _..|rf|apply filed_calm|]. intros _.
  apply rf_if; intros Hp; [rf|]. apply rf_bind_calm; [apply _..|rf|apply filed_calm|]. intros _.
  intros w Hok Hm. unfold has in Hm. rewrite Hid in Hm. apply wp_bind. eapply wp_mono; [by apply wp_update|].
  intros [[]|e] w1 (Hs1 & Hf1 & _ & Hu); [|done]. destruct (Hu eq_refl) as (m0 & now & Hm0 & Hid0 & _ & Hmaps). clear Hu.
  rewrite Hm in Hm0. injection Hm0 as <-. apply wp_bind, wp_load_mapping.
  2:{ intros e s _. split; [eapply steps_one; [exact Hs1|apply s_rt]|]. etrans; [exact Hf1|by split]. }
  intros m2 s Hm2 Hid2. rewrite Hmaps, lookup_insert_eq in Hm2. injection Hm2 as <-. set (m1 := updated _ _ _ _ _) in *.
  eapply wp_mono.
  { apply (rf_write m1 (receipt_mapping r m1)).
    - split; try done; simpl; lia.
    - eapply queue_ok_steps; [|apply steps_rt, Hs1]. done.
    - unfold has. rewrite Hid2. simpl. by rewrite Hmaps, lookup_insert_eq. }
  intros x w2 [Hs2 Hf2]. split; [exact (steps_trans _ _ _ (steps_rt _ _ _ Hs1) Hs2)|]. etrans; [exact Hf1|]. destruct Hf2. by split.
Qed.
#[local] Hint Resolve rf_receipt : spool.

Lemma rf_write_receipt j e m hash : refines always calm (write_receipt j e m hash).
Proof. unfold write_receipt. rf. Qed.
#[local] Hint Resolve rf_write_receipt : spool.

Lemma rf_event j e : refines always anything (RecordStreamEvent j e).
Proof. unfold RecordStreamEvent. rf. Qed.

(** ** Recovery *)

Lemma rf_recover_job name : refines always anything (recover_job name).
Proof.
  unfold recover_job. apply rf_try_load_bind; [apply _|done| |intros []; rf]. intros m _. apply rf_if; intros Ht; [rf|].
  apply rf_bind_calm; [apply _..|rf|done|]. intros now. cbv zeta. apply rf_seq; [apply _| |intros; rf].
  eapply rf_weaken; [apply (rf_write m)|done|done]. split; simpl; try done; congruence.
Qed.
#[local] Hint Resolve rf_recover_job : spool.

Lemma rf_recover_jobs : refines always anything recoverJobs.
Proof. unfold recoverJobs. rf. Qed.

Lemma binds_status s j now : binds (with_status s (MappingFromJob j now)) j.
Proof. done. Qed.

Lemma rf_rebuild_mapping dir name : refines always anything (rebuild_mapping dir name).
Proof.
  intros w Hok _. unfold rebuild_mapping. apply wp_bind, wp_hread; intros s1; [|split; [apply rtc_once, s_rt|done]].
  apply wp_bind, wp_some_or; [|split; [apply rtc_once, s_rt|done]]. intros f Hf. simpl in Hf.
  destruct (jf_Job f) as [j|] eqn:Hj; [|apply wp_ret; split; [apply rtc_once, s_rt|done]].
  apply wp_if; intros _; [apply wp_ret; split; [apply rtc_once, s_rt|done]|].
  set (rest := λ _ : (), try (loadMappingLocked (j_ID j)) ≫= _). assert (Hrest : ∀ u, refines always anything (rest u)) by (intros u; unfold rest; rf).
  assert (Hgo : ∀ w1, steps w w1 → wp (rest tt) (λ _ w', steps w w' ∧ anything w w') w1).
  { intros w1 Hs1. eapply wp_mono; [apply Hrest; [by eapply queue_ok_steps|done]|]. intros r w2 [Hs2 _]. split; [by eapply steps_trans|done]. }
  assert (Hrt : ∀ s, steps w (set_rt s w)) by (intros; apply rtc_once, s_rt).
  apply wp_bind, wp_try, wp_hread; intros s2; [|apply wp_bind, wp_ret, (Hgo (set_rt s2 w)), Hrt]. simpl.
  destruct (q_maps w !! FileID (j_ID j)) as [x|] eqn:Hm; [apply wp_bind, wp_ret, (Hgo (set_rt s2 w)), Hrt|].
  apply wp_bind. eapply wp_mono.
  { apply (wp_write_mapping _ (set_rt s2 w)). right. split; [done|]. exists j, dir, f. split_and!; [|done|by apply binds_status].
    simpl. by rewrite <- (qo_name _ Hok _ _ _ _ Hf Hj). }
  intros r w2 (Hs2 & _ & _). assert (Hs02 : steps w w2) by (eapply steps_trans; [apply (Hrt s2)|done]).
  destruct r as [[]|e]; [by apply Hgo|done].
Qed.
#[local] Hint Resolve rf_rebuild_mapping : spool.

Lemma rf_rebuild : refines always anything rebuildMappings.
Proof. unfold rebuildMappings. rf. Qed.

Lemma rf_rebuild_index : refines always calm rebuildIdempotencyIndex.
Proof. unfold rebuildIdempotencyIndex, rebuild_index. rf. Qed.

Lemma rf_recover_receipt r : refines always filed (recover_receipt r).
Proof. unfold recover_receipt. rf. Qed.
#[local] Hint Resolve rf_recover_receipt : spool.

Lemma rf_recover_events : refines always filed recoverStreamEvents.
Proof. unfold recoverStreamEvents, read_receipts. rf. Qed.

Lemma rf_recover_files from to : refines always calm (recoverFiles from to).
Proof. unfold recoverFiles. rf. Qed.
#[local] Hint Resolve rf_recover_jobs rf_rebuild rf_rebuild_index rf_recover_events rf_recover_files : spool.

Lemma rf_recover : refines always anything recover.
Proof. unfold recover. rf. Qed.
#[local] Hint Resolve rf_recover : spool.

Lemma rf_open : refines always anything openSpool.
Proof.
  intros w Hok _. unfold openSpool.
  assert (Hgo : ∀ s b broken, qstep (set_rt s w) (reopened b broken (set_rt s w)) →
    wp (for_each spool_dirs (λ _, hcall)) (λ _ w', steps w w' ∧ anything w w') (reopened b broken (set_rt s w))).
  { intros s b broken Hq. assert (Hs : steps w (reopened b broken (set_rt s w))) by (eapply steps_one; [apply rtc_once, (s_rt _ s)|done]).
    assert (Hrf : refines always anything (for_each spool_dirs (λ _, hcall))) by rf.
    eapply wp_mono; [apply Hrf; [by eapply queue_ok_steps|done]|]. intros r w2 [Hs2 _]. split; [by eapply steps_trans|done]. }
  apply wp_bind, wp_try, wp_hread; intros s; apply wp_bind, wp_modify; simpl; [destruct (q_ledger w) as [[b|]|] eqn:Hb|];
    apply Hgo, s_reopen; simpl; auto.
Qed.
#[local] Hint Resolve rf_open : spool.

Lemma rf_new_spool : refines always anything NewSpool.
Proof. unfold NewSpool. rf. Qed.

Lemma rf_outer_enqueue j : refines always anything (Enqueue j).
Proof. unfold Enqueue. rf. Qed.
End Operations.

(** * The system *)

(** A call of the spool. *)
Inductive Op :=
  | OEnqueue (j : Job)
  | OClaim
  | OComplete (id : string)
  | OFail (id : string)
  | OOutcome (id : string) (o : RunOutcome)
  | OCancel (id : string) (caller : Envelope)
  | OApprove (id : string) (caller : Envelope) (request choice : string)
  | OIntend (authorized : bool) (id : string)
  | ORetryControl (id : string)
  | OApplied (id : string) (sent : PendingControl) (reconciling : bool)
  | ORequeue (now : Z) (unknown : bool)
  | ORebind (j : Job) (e : RunEvent)
  | OEvent (j : Job) (e : RunEvent)
  | OCallback (data : string)
  | ODeliver (d : Delivery)
  | OClaimDelivery
  | OCompleteDelivery (id : string)
  | OUncertainDelivery (id : string)
  | ORetryDelivery (id : string)
  | OUpdateSending (d : Delivery)
  | OUpsertStatus (d : Delivery)
  | OCloseStatus (id : string)
  | ORestart.

Section System.
Context `{RoutineWorld} `{TimeText} `{RoutineDeps} `{Unicode} `{QueueWorld}.
Abbreviation Q := (M Hub HErr).

Definition exec (o : Op) : Q unit :=
  match o with
  | OEnqueue j => Enqueue j ;; mret tt
  | OClaim => ClaimJob ;; mret tt
  | OComplete id => CompleteJob id
  | OFail id => FailJob id
  | OOutcome id o => RecordOutcome id o
  | OCancel id caller => RequestCancel id caller ;; mret tt
  | OApprove id caller request choice => RequestApproval id caller request choice
  | OIntend authorized id => control_intend authorized id ;; mret tt
  | ORetryControl id => control_retry id
  | OApplied id sent reconciling => control_applied id sent reconciling
  | ORequeue now unknown => RequeueObservations now unknown
  | ORebind j e => RebindObservation j e
  | OEvent j e => RecordStreamEvent j e
  | OCallback data => ApprovalCallback data ;; mret tt
  | ODeliver d => SpoolStream.EnqueueDelivery d
  | OClaimDelivery => ClaimDelivery ;; mret tt
  | OCompleteDelivery id => CompleteDelivery id
  | OUncertainDelivery id => UncertainDelivery id
  | ORetryDelivery id => RetryDelivery id
  | OUpdateSending d => UpdateSending d
  | OUpsertStatus d => UpsertStatusDelivery d
  | OCloseStatus id => CloseStatusDelivery id ;; mret tt
  | ORestart => NewSpool
  end.

(** One call, with whatever result, or a change by another part of the program.  The state a
    crash leaves is that of a call whose file calls fail from some point on.  The retention
    sweep ([Compact]), which archives what ended long ago, is not part of the system. *)
Inductive happens (w : Hub) : Hub → Prop :=
  | h_op o r w' : exec o w = (r, w') → happens w w'
  | h_outside u t a : happens w (outside u t a w).

(** A spool that was just installed. *)
Definition installed (s : Spool) (u : option (list usageEntry)) (t : TaskFiles) (a : gmap string (option Assignment)) : Hub :=
  mkHub s ∅ ∅ ∅ ∅ t a None ∅ ∅ ∅ u None ∅ ∅ None empty_ledger false limitsFromEnv.

Definition reachable (w : Hub) : Prop := ∃ s u t a, rtc happens (installed s u t a) w.

#[local] Hint Resolve rf_outer_enqueue rf_claim rf_complete rf_fail rf_outcome rf_cancel rf_approval rf_intend rf_retry rf_applied rf_requeue
  rf_rebind rf_event rf_callback rf_deliver rf_claim_delivery rf_rename_delivery rf_update_sending rf_upsert rf_close_status rf_new_spool : spool.

Lemma rf_exec o : refines always anything (exec o).
Proof. destruct o; unfold exec; rf_step; rf. Qed.

Lemma exec_steps o w r w' : queue_ok w → exec o w = (r, w') → steps w w'.
Proof. intros Hok Hx. pose proof (rf_exec o w Hok I) as Hw. unfold wp in Hw. rewrite Hx in Hw. apply Hw. Qed.

Lemma happens_steps w w' : queue_ok w → happens w w' → steps w w'.
Proof. intros Hok [o r w1 Hx|u t a]; [by eapply exec_steps|apply rtc_once, s_outside]. Qed.

Lemma queue_ok_installed s u t a : queue_ok (installed s u t a).
Proof. split; simpl; try done. apply ledger_ok_empty. Qed.

Lemma runs_steps w w' : queue_ok w → rtc happens w w' → steps w w' ∧ queue_ok w'.
Proof.
  intros Hok Hs. induction Hs as [w|w w1 w2 H1' _ IH]; [split; [apply rtc_refl|done]|].
  pose proof (happens_steps _ _ Hok H1') as Hs1. destruct IH as [Hs2 Hok2]; [by eapply queue_ok_steps|].
  split; [by eapply steps_trans|done].
Qed.

Lemma reachable_ok w : reachable w → queue_ok w.
Proof. intros (s & u & t & a & Hs). eapply runs_steps; [apply (queue_ok_installed s u t a)|done]. Qed.

Lemma reachable_runs w w' : reachable w → rtc happens w w' → reachable w'.
Proof. intros (s & u & t & a & Hs) Hr. exists s, u, t, a. by etrans. Qed.
End System.
