(* ===== verification/SpoolProps.v ===== *)
(** What the job queue promises: its refinement and its invariants, in terms of the states it
    can reach, and what its main operations do. *)
From stdpp Require Import base gmap strings list pretty sorting relations.
From Stdlib Require Import Ascii String.
From S2P Require Import Prelude GoStrings BrokerIdentity Contract Calendar Cron RoutineTypes Timing Schedules SpoolTypes SpoolQueue SpoolWork SpoolStream SpoolSpec SpoolRefine SpoolOps.
Local Open Scope string_scope.
Local Open Scope Z_scope.

Section Props.
Context `{RoutineWorld} `{TimeText} `{RoutineDeps} `{Unicode} `{QueueWorld}.
Abbreviation Q := (M Hub HErr).

(** C25. The queue refines its specification: from a reachable state every sequence of calls,
    failed and interrupted ones and restarts included, is a sequence of the specified steps. *)
Theorem queue_refines w w' : reachable w → rtc happens w w' → steps w w'.
Proof. intros Hr Hs. by eapply runs_steps; [apply reachable_ok|]. Qed.

(** C21. Every reachable queue is well formed.  A job file lies in exactly one of the four
    directories, under the name its id gives, and never holds a sensitive text.  A mapping
    file belongs to a job file of the same name, and names the job, key, owner, conversation,
    target, channel and trigger of that very job. *)
Theorem queue_well_formed w :
  reachable w →
  (∀ d n f, q_jobs w !! (d, n) = Some f →
     d ∈ job_dirs ∧ (∀ d' f', q_jobs w !! (d', n) = Some f' → d' = d) ∧
     ∀ j, jf_Job f = Some j → n = FileID (j_ID j) ∧ (j_Sensitive j = true → j_Text j = "")) ∧
  (∀ n r, q_maps w !! n = Some r → ∃ d f, q_jobs w !! (d, n) = Some f ∧
     ∀ m, r = Some m → n = FileID (m_JobID m) ∧ ∀ j, jf_Job f = Some j → binds m j).
Proof.
  intros [Hd Hp Hn Hs Hm _ _ _ _]%reachable_ok. split; [|exact Hm]. intros d n f Hf. split_and!; [by eapply Hd|by intros; eapply Hp|].
  intros j Hj. split; [by eapply Hn|by eapply Hs].
Qed.

(** C23. Nothing accepted is lost or rewritten between retention sweeps.  Whatever is called
    and fails later, a job file is still
    in the tree as it was, and a mapping is still there with the same binding, the same run
    once it has one and a position that never went back; one that ended keeps its status, a
    result once it has one and its generation. *)
Theorem accepted_is_final w w' :
  reachable w → rtc happens w w' →
  (∀ d n f, q_jobs w !! (d, n) = Some f → ∃ d', q_jobs w' !! (d', n) = Some f) ∧
  (∀ n m, q_maps w !! n = Some (Some m) → ∃ m', q_maps w' !! n = Some (Some m') ∧
     m_Binding m' = m_Binding m ∧ keeps (r_RunID (m_Run m)) (r_RunID (m_Run m')) ∧
     keeps (r_SessionID (m_Run m)) (r_SessionID (m_Run m')) ∧ tr_Position (m_Trace m) ≤ tr_Position (m_Trace m') ∧
     (m_terminal m = true → m_Status m' = m_Status m ∧ keeps (m_Result m) (m_Result m') ∧
        keeps (r_Generation (m_Run m)) (r_Generation (m_Run m')))).
Proof.
  intros Hok%reachable_ok Hr. destruct (runs_steps _ _ Hok Hr) as [Hs _]. split.
  - intros d n f. by apply job_steps.
  - intros n m Hm. destruct (mapping_steps _ _ _ _ Hs Hok Hm) as (m' & Hm' & []). exists m'. by split_and!; auto.
Qed.

(** C7. The ledger holds what it counts.  In every reachable state the counters of a scope are
    exactly the number and the estimates of its open reservations, and with a ceiling
    configured no scope ever has more of them than that; the same holds of the ledger on
    disk. *)
Theorem ledger_bounded w :
  reachable w →
  ∀ b, b = q_budget w ∨ q_ledger w = Some (Some b) → ∀ scope,
  let s := default zero_scope (bl_Scopes b !! scope) in
  let held := open_of scope (bl_Reservations b) in
  sc_PendingJobs s = i64 (Z.of_nat (size held)) ∧ sc_ReservedTokens s = i64 (estimates held) ∧
  (0 < MaxPendingPerScope limitsFromEnv < 2 ^ 63 →
   Z.of_nat (size held) ≤ MaxPendingPerScope limitsFromEnv ∧ sc_PendingJobs s = Z.of_nat (size held)).
Proof.
  intros Hok%reachable_ok b Hb scope s held.
  assert (Hl : ledger_ok (MaxPendingPerScope limitsFromEnv) b) by (destruct Hb as [->|Hb]; [apply Hok|by apply Hok]).
  destruct Hl as [Hbal Hmax]. destruct (Hbal scope) as [Hp Ht]. split_and!; [exact Hp|exact Ht|].
  intros Hrange. specialize (Hmax Hrange scope). split; [exact Hmax|]. etrans; [exact Hp|]. apply i64_id. unfold in_i64, held in *. lia.
Qed.

(** ** Admission once *)

(** A calm operation and what is known of its result. *)
Lemma wp_calm {A} (m : Q A) (P : res HErr A → Hub → Prop) w :
  queue_ok w → refines always calm m → wp m P w → wp m (λ r w', P r w' ∧ calm w w' ∧ queue_ok w') w.
Proof.
  intros Hok Hm HP. apply wp_and; [done|]. eapply wp_mono; [by apply Hm|]. intros r w' [Hs Hc]. split; [done|by eapply queue_ok_steps].
Qed.

Definition keyed (key : string) (w : Hub) (m : JobMapping) : Prop :=
  (∃ n, q_maps w !! n = Some (Some m)) ∧ b_IdempotencyKey (m_Binding m) = key.

Lemma names_of_elem {A} n (m : gmap string A) : n ∈ names_of m ↔ is_Some (m !! n).
Proof.
  unfold names_of. rewrite merge_sort_Permutation, list_elem_of_fmap. split.
  - intros ([k v] & -> & Hkv%elem_of_map_to_list). eauto.
  - intros [v Hv]. exists (n, v). by rewrite elem_of_map_to_list.
Qed.

(** The scan passes no mapping with the key. *)
Lemma wp_scan_one key n w :
  wp (scan_mapping key n) (λ r _, match r with
      | Ok (Some m) => keyed key w m
      | Ok None => ∀ m, q_maps w !! n = Some (Some m) → b_IdempotencyKey (m_Binding m) ≠ key
      | Err e => e ≠ HConflict
      end) w.
Proof.
  unfold scan_mapping. apply wp_bind, wp_hread; [|done]. intros s. apply wp_bind, wp_some_or; [|done]. intros b Hb.
  apply wp_bind, wp_some_or; [|done]. intros m ->. apply wp_bind, wp_fail_if; [done|]. intros _. apply wp_if; intros Hk.
  - apply bool_decide_eq_true in Hk. apply wp_bind, wp_try, wp_hwrite; intros; apply wp_ret; by split; [eauto|].
  - apply wp_ret. intros m' Hm'. apply bool_decide_eq_false in Hk. simpl in Hb. congruence.
Qed.

Lemma rf_scan key n : refines always calm (scan_mapping key n).
Proof. unfold scan_mapping. rf. Qed.

Lemma keyed_calm key w w' m : calm w w' → keyed key w' m ↔ keyed key w m.
Proof. intros [[_ Hm _ _ _] _]. unfold keyed. by rewrite Hm. Qed.

Lemma wp_find key w :
  queue_ok w →
  wp (findIdempotencyLocked key) (λ r w', calm w w' ∧ match r with
      | Ok (Some m) => keyed key w m
      | Ok None => ∀ m, ¬ keyed key w m
      | Err e => e ≠ HConflict
      end) w.
Proof.
  intros Hok. unfold findIdempotencyLocked. apply wp_bind.
  eapply wp_mono; [apply (wp_calm _ (λ r _, match r with Ok (Some m) => keyed key w m | Ok None => True | Err e => e ≠ HConflict end)); [done|unfold find_indexed; rf|]|].
  { unfold find_indexed. apply wp_bind, wp_hread; [|done]. intros s. destruct (q_index _ !! index_name key) as [[id|]|]; try by apply wp_ret.
    apply wp_if; intros _; [by apply wp_ret|]. apply wp_bind, wp_try, wp_load_mapping; [|by intros; apply wp_ret].
    intros m s' Hm Hid. apply wp_ret. destruct (_ == key) eqn:Hk; [|done]. apply bool_decide_eq_true in Hk. by split; [eauto|]. }
  intros [[m|]|e] w1 (Hr & Hc1 & Hok1); [by apply wp_ret| |done]. clear Hr.
  apply wp_bind, wp_hcall; intros s; [|split; [|done]; etrans; [done|by repeat split]].
  apply wp_bind, wp_get. set (w2 := set_rt s w1). assert (Hc2 : calm w w2) by (etrans; [exact Hc1|by repeat split]).
  assert (Hok2 : queue_ok w2) by (eapply queue_ok_steps; [done|apply rtc_once, s_rt]).
  eapply wp_mono.
  { apply (wp_for_return (λ w', calm w w' ∧ queue_ok w') (λ n, ∀ m, q_maps w !! n = Some (Some m) → b_IdempotencyKey (m_Binding m) ≠ key)
      (λ r w', calm w w' ∧ match r with Ok m => keyed key w m | Err e => e ≠ HConflict end)); [done|].
    intros n w3 _ [Hc3 Hok3]. eapply wp_mono; [apply wp_calm; [done|apply rf_scan|apply wp_scan_one]|].
    intros [[m|]|e] w4 (Hr & Hc4 & Hok4); (assert (Hc04 : calm w w4) by by etrans).
    - split; [done|]. by apply (keyed_calm _ _ _ _ Hc3).
    - split; [done|]. by rewrite <- (st_maps _ _ (ca_still _ _ Hc3)).
    - done. }
  intros [[m|]|e] w3 Hr; [exact Hr| |exact Hr]. destruct Hr as [[Hc3 _] Hall]. split; [done|].
  intros m [(n & Hn) Hk]. rewrite Forall_forall in Hall. refine (Hall n _ m Hn Hk). apply names_of_elem.
  rewrite (st_maps _ _ (ca_still _ _ Hc2)), Hn. eauto.
Qed.

(** A job that names a task other than the default one is bound to the task file of its
    owner with that id, in the same chat: it takes the task's conversation, unless a cron
    schedule triggered it. *)
Definition bound_to_task (w : Hub) (j j1 : Job) : Prop :=
  let id := ro_TaskID (j_Routing j) in
  if (id == "") || (id == defaultTaskID) then j1 = j
  else ∃ t, tf_tasks (q_tasks w) !! task_name (e_PrincipalID (j_Envelope j)) id = Some (Some t) ∧
    tk_TaskID t = id ∧ tk_PrincipalID t = e_PrincipalID (j_Envelope j) ∧ tk_ChatID t = ro_ChatID (j_Routing j) ∧
    j1 = (if j_Trigger j == "cron" then j else with_conversation (tk_ConversationID t) j).

(** The job under the holds in force: none when an active hold of its owner suppresses it,
    otherwise the job with the epoch of the owner's last hold. *)
Definition under_holds (holds : option (list masterHold)) (j1 : Job) : option Job :=
  match holds with Some holds => apply_holds holds j1 | None => Some j1 end.

(** The job whose fingerprint counts when [j] is enqueued in [w]. *)
Definition admitted_as (w : Hub) (j : Job) (j2 : option Job) : Prop :=
  ∃ j1 tick, bound_to_task w j j1 ∧ under_holds (holdsSnapshot tick) j1 = j2.

Lemma wp_load_task principal id w :
  wp (loadTaskLocked principal id) (λ r _, ∀ t, r = Ok t →
    tf_tasks (q_tasks w) !! task_name principal id = Some (Some t) ∧ tk_TaskID t = id ∧ tk_PrincipalID t = principal) w.
Proof.
  unfold loadTaskLocked. apply wp_bind, wp_hread; [|by intros]. intros s. apply wp_bind, wp_some_or; [|by intros]. intros b Hb.
  apply wp_bind, wp_some_or; [|by intros]. intros t ->. apply wp_bind, wp_fail_if; [by intros|]. intros Hids.
  apply wp_ret. intros t' [= <-]. apply orb_false_iff in Hids as [Hi%negb_false_iff%bool_decide_eq_true Hp%negb_false_iff%bool_decide_eq_true].
  by split_and!.
Qed.

Lemma wp_bind_task j w : queue_ok w → wp (bind_task j) (λ r w', calm w w' ∧ queue_ok w' ∧
  match r with Ok j1 => bound_to_task w j j1 | Err e => e = HRefused end) w.
Proof.
  intros Hok. eapply wp_mono; [apply (wp_calm _ (λ r _, match r with Ok j1 => bound_to_task w j j1 | Err e => e = HRefused end));
    [done|apply rf_bind_task|]|by intros r w' (? & ? & ?)].
  unfold bind_task, bound_to_task. destruct (_ || _) eqn:Hid; [by apply wp_ret|]. apply wp_bind, wp_try.
  eapply wp_mono; [apply wp_load_task|]. intros [t|e] w1 Ht; [|by apply wp_throw]. destruct (Ht t eq_refl) as (Hf & Hi & Hp).
  apply wp_bind, wp_fail_if; [done|]. intros Hchat%negb_false_iff%Z.eqb_eq. apply wp_ret. exists t. split_and!; try done.
  by destruct (_ == "cron").
Qed.

Lemma apply_holds_key holds j j' : apply_holds holds j = Some j' → j_IdempotencyKey j' = j_IdempotencyKey j.
Proof.
  revert j. induction holds as [|h holds IH]; intros j; simpl; [by intros [= <-]|].
  repeat case_match; [apply IH|done|]. by intros ->%IH.
Qed.

Lemma admitted_key w j j2 : admitted_as w j (Some j2) → j_IdempotencyKey j2 = j_IdempotencyKey j.
Proof.
  intros (j1 & tick & Hb & Hu). trans (j_IdempotencyKey j1).
  - unfold under_holds in Hu. destruct (holdsSnapshot tick); [by eapply apply_holds_key|by injection Hu as <-].
  - revert Hb. unfold bound_to_task. destruct (_ || _); [by intros ->|]. intros (t & _ & _ & _ & _ & ->). by destruct (_ == _).
Qed.

(** What the answer to the second use of a key means. *)
Definition second_answer (w : Hub) (j : Job) (r : res HErr bool) : Prop :=
  match r with
  | Ok true => admitted_as w j None
  | Ok false => ∃ m j2, keyed (j_IdempotencyKey j) w m ∧ admitted_as w j (Some j2) ∧ b_Fingerprint (m_Binding m) = JobFingerprint j2
  | Err HConflict => ∃ m j2, keyed (j_IdempotencyKey j) w m ∧ admitted_as w j (Some j2) ∧ b_Fingerprint (m_Binding m) ≠ JobFingerprint j2
  | Err _ => True
  end.

Lemma wp_enqueue_again w j :
  queue_ok w → (∃ m, keyed (j_IdempotencyKey j) w m) → TrimSpace (j_IdempotencyKey j) ≠ "" →
  wp (enqueueLocked j) (λ r w', calm w w' ∧ second_answer w j r) w.
Proof.
  intros Hok [m Hm] Htrim. unfold enqueueLocked. apply wp_bind.
  eapply wp_mono; [by apply wp_bind_task|]. intros [j1|e] w1 (Hc1 & Hok1 & Hj1); [|by rewrite Hj1].
  apply wp_bind, wp_get. change (match holdsSnapshot _ with Some _ => _ | None => _ end) with (under_holds (holdsSnapshot (sp_calls (h_rt w1))) j1).
  destruct (under_holds _ j1) as [j2|] eqn:Hh; [|apply wp_ret; split; [done|by exists j1, (sp_calls (h_rt w1))]].
  assert (Ha : admitted_as w j (Some j2)) by by exists j1, (sp_calls (h_rt w1)).
  rewrite (admitted_key _ _ _ Ha), bool_decide_eq_false_2 by done. apply wp_bind.
  eapply wp_mono; [by apply wp_find|]. intros [[m'|]|e] w2 [Hc2 Hf]; (assert (Hc : calm w w2) by by etrans).
  - assert (Hk : keyed (j_IdempotencyKey j) w m') by by apply (keyed_calm _ w w1 _ Hc1).
    apply wp_bind, wp_fail_if; intros Hfp.
    + split; [done|]. exists m', j2. apply negb_true_iff, bool_decide_eq_false in Hfp. done.
    + apply wp_ret. split; [done|]. exists m', j2. apply negb_false_iff, bool_decide_eq_true in Hfp. done.
  - destruct (Hf m). by apply (keyed_calm _ w w1 _ Hc1).
  - split; [done|]. by destruct e.
Qed.

(** C13. A key is admitted once.  When a mapping with the key of a job exists, enqueueing the
    job changes no job file, no mapping, no lane and no reservation, whatever id it carries
    and whatever fails.  The answer that it is a duplicate is given only when the job's own
    fingerprint, as [JobFingerprint] computes it after the job is bound to its task and takes
    the epoch of its owner's holds, is the fingerprint of a mapping with that key; the answer
    that the key was used with a different payload only when it is not; and a job is accepted
    only in appearance, because an active hold of its owner suppresses it. *)
Theorem enqueue_once w j n m r w' :
  reachable w → q_maps w !! n = Some (Some m) → b_IdempotencyKey (m_Binding m) = j_IdempotencyKey j →
  TrimSpace (j_IdempotencyKey j) ≠ "" → Enqueue j w = (r, w') →
  q_jobs w' = q_jobs w ∧ q_maps w' = q_maps w ∧ q_flight w' = q_flight w ∧ q_budget w' = q_budget w ∧
  match r with
  | Ok true => admitted_as w j None
  | Ok false => ∃ m' j2, keyed (j_IdempotencyKey j) w m' ∧ admitted_as w j (Some j2) ∧ b_Fingerprint (m_Binding m') = JobFingerprint j2
  | Err HConflict => ∃ m' j2, keyed (j_IdempotencyKey j) w m' ∧ admitted_as w j (Some j2) ∧ b_Fingerprint (m_Binding m') ≠ JobFingerprint j2
  | Err _ => True
  end.
Proof.
  intros Hok%reachable_ok Hm Hk Htrim Hx.
  cut (calm w w' ∧ second_answer w j r); [by intros [[[] Hb] Hr]|].
  refine (run_wp _ (λ r w', calm w w' ∧ second_answer w j r) _ _ _ Hx _). unfold Enqueue. apply wp_bind, wp_get.
  assert (Hkey : ∃ m, keyed (j_IdempotencyKey j) w m) by (exists m; by split; [eauto|]).
  destruct (refreshHolds _) as [[]|]; [by apply wp_enqueue_again|by apply wp_throw|by apply wp_enqueue_again].
Qed.

(** The delay of an observation reaches its limit within three rounds. *)
Lemma backoff_fuel n attempts : backoff (3 + n) 1 attempts (5 * Second) = backoff 3 1 attempts (5 * Second).
Proof. by simpl; repeat (case_match; simpl). Qed.
End Props.
