(* ===== verification/SpoolClaim.v ===== *)
(** Claiming a job: the order in which jobs are considered, what a claim does and when there
    is nothing to claim. *)
From stdpp Require Import base gmap strings list pretty sorting relations.
From Stdlib Require Import Ascii String.
From S2P Require Import Prelude GoStrings BrokerIdentity Contract ContractProps Calendar Cron RoutineTypes Timing Schedules SpoolTypes SpoolQueue SpoolWork SpoolStream SpoolSpec SpoolRefine SpoolOps.
Local Open Scope string_scope.
Local Open Scope Z_scope.

(** * The order *)

Lemma sorted_lookup {A} (R : relation A) l i k a b : StronglySorted R l → l !! i = Some a → l !! k = Some b → (i < k)%nat → R a b.
Proof.
  intros Hs Ha Hb Hik. rewrite <- (take_drop k l) in Hs. eapply StronglySorted_app_1_elem_of; [done| |].
  - apply list_elem_of_lookup. exists i. by rewrite lookup_take_lt.
  - apply list_elem_of_lookup. exists 0%nat. by rewrite lookup_drop, Nat.add_0_r.
Qed.

Lemma str_lt_le a b : str_lt a b = false ↔ str_le b a.
Proof. unfold str_lt. by rewrite negb_false_iff, bool_decide_eq_true. Qed.

Definition after (cursor : string) (c : candidate) : bool := str_lt cursor (job_scope (cd_job c)).
Definition file_of (c : candidate) : string := cd_name c ++ ".json".

(** The order, by scope, urgency and name. *)
Lemma claim_le_iff cursor now a b :
  claim_le cursor now a b ↔
    after cursor a = true ∧ after cursor b = false ∨
    after cursor a = after cursor b ∧
      (job_scope (cd_job a) ≠ job_scope (cd_job b) ∧ str_le (job_scope (cd_job a)) (job_scope (cd_job b)) ∨
       job_scope (cd_job a) = job_scope (cd_job b) ∧
         (background now a = false ∧ background now b = true ∨
          background now a = background now b ∧ str_le (file_of a) (file_of b))).
Proof.
  unfold claim_le, claim_less, after, file_of. destruct (decide (job_scope (cd_job b) = job_scope (cd_job a))) as [He|Hne].
  - rewrite bool_decide_eq_true_2, He by done. simpl. pose proof (str_lt_le (cd_name b ++ ".json") (cd_name a ++ ".json")) as Hn.
    destruct (background now a) eqn:Ha, (background now b) eqn:Hb; simpl; destruct (str_lt cursor _); naive_solver.
  - rewrite bool_decide_eq_false_2 by done. simpl. pose proof (str_lt_le (job_scope (cd_job b)) (job_scope (cd_job a))) as Hn.
    destruct (str_lt cursor (job_scope (cd_job a))) eqn:Ha, (str_lt cursor (job_scope (cd_job b))) eqn:Hb; simpl; naive_solver.
Qed.

Global Instance claim_le_total cursor now : Total (claim_le cursor now).
Proof.
  intros a b. rewrite !claim_le_iff. destruct (after cursor a), (after cursor b); [|by auto..|].
  all: destruct (decide (job_scope (cd_job a) = job_scope (cd_job b))) as [He|Hne];
    [|destruct (str_le_total (job_scope (cd_job a)) (job_scope (cd_job b))); auto 10].
  all: destruct (background now a), (background now b); [|by auto 10..|]; destruct (str_le_total (file_of a) (file_of b)); auto 10.
Qed.

Global Instance claim_le_trans cursor now : Transitive (claim_le cursor now).
Proof.
  intros a b c. rewrite !claim_le_iff.
  intros [[Ha1 Hb1]|[Hab Hr1]] [[Ha2 Hb2]|[Hbc Hr2]]; try (left; split; congruence); right; (split; [congruence|]).
  destruct Hr1 as [[Hn1 Hl1]|[He1 Hk1]], Hr2 as [[Hn2 Hl2]|[He2 Hk2]].
  - left. split; [|by etrans]. intros He. apply Hn1. apply str_le_antisymm; [done|]. by rewrite He.
  - left. rewrite <- He2. done.
  - left. rewrite He1. done.
  - right. split; [congruence|]. destruct Hk1 as [[? ?]|[? ?]], Hk2 as [[? ?]|[? ?]]; try (left; split; congruence).
    right. split; [congruence|by etrans].
Qed.

(** The order of [ClaimJob] is one: its comparison is total and transitive, so the sort is
    a permutation in which each job stands before all it should.  Scopes behind the cursor
    come first and the scope served last comes after every other; within a scope a job of a
    routine that waits for less than five minutes comes after everything else. *)
Theorem claim_order cursor now cs :
  let l := merge_sort (claim_le cursor now) cs in
  l ≡ₚ cs ∧
  ∀ i k a b, l !! i = Some a → l !! k = Some b → (i < k)%nat →
    let sa := job_scope (cd_job a) in
    let sb := job_scope (cd_job b) in
    (str_lt cursor sb = true → str_lt cursor sa = true) ∧ (sa = cursor → sb = cursor) ∧
    (sa = sb → background now a = true → background now b = true).
Proof.
  intros l. split; [apply merge_sort_Permutation|]. intros i k a b Ha Hb Hik sa sb.
  assert (Hle : claim_le cursor now a b).
  { pose proof (StronglySorted_merge_sort (claim_le cursor now) cs) as Hs.
    by eapply sorted_lookup. }
  apply claim_le_iff in Hle. fold sa sb in Hle. unfold after in Hle. fold sa sb in Hle.
  assert (Hself : str_lt cursor cursor = false) by (apply str_lt_le; by destruct (str_le_total cursor cursor)).
  split_and!.
  - intros Hb1. destruct Hle as [[? ?]|[? _]]; congruence.
  - intros Hsa. rewrite Hsa in Hle. destruct Hle as [[? _]|[Hs [[Hn Hl]|[? _]]]]; [congruence| |done].
    rewrite Hself in Hs. symmetry in Hs. apply str_lt_le in Hs. by apply str_le_antisymm.
  - intros He Hbg. destruct Hle as [[Ht Hf]|[_ [[Hn _]|[_ [[? _]|[? _]]]]]]; congruence.
Qed.

(** * Claims *)

Section Claim.
Context `{RoutineWorld} `{TimeText} `{RoutineDeps} `{Unicode} `{QueueWorld}.
Abbreviation Q := (M Hub HErr).

(** What happens while candidates are passed over: nothing leaves [done] or [failed], and a
    lane is freed only by a job that is cancelled. *)
Record scanned (w w' : Hub) : Prop := {
  sk_steps : steps w w';
  sk_settled : queue_ok w → ∀ d n f, d = "done" ∨ d = "failed" → q_jobs w !! (d, n) = Some f → q_jobs w' !! (d, n) = Some f;
  sk_flight : q_flight w' ⊆ q_flight w;
  sk_shed : queue_ok w → ∀ lane h, q_flight w !! lane = Some h →
    q_flight w' !! lane = Some h ∨ ∃ m, q_maps w' !! FileID h = Some (Some m) ∧ m_Status m = "cancelled";
  sk_limits : q_limits w' = q_limits w;
}.

(** A cancelled job stays so. *)
Lemma cancelled_steps w w' n m :
  steps w w' → queue_ok w → q_maps w !! n = Some (Some m) → m_Status m = "cancelled" →
  ∃ m', q_maps w' !! n = Some (Some m') ∧ m_Status m' = "cancelled".
Proof.
  intros Hs Hok Hm Hc. destruct (mapping_steps _ _ _ _ Hs Hok Hm) as (m' & Hm' & He). exists m'. split; [done|].
  rewrite (ev_terminal _ _ He); [done|]. unfold m_terminal. by rewrite Hc.
Qed.

Global Instance scanned_preorder : PreOrder scanned.
Proof.
  split; [split; [apply rtc_refl|by auto..]|]. intros w1 w2 w3 [S1 D1 F1 L1 M1] [S2 D2 F2 L2 M2].
  split; [by eapply steps_trans| |by etrans| |congruence].
  - intros Hok d n f Hd Hf. apply D2; [by eapply queue_ok_steps|done|by apply D1].
  - intros Hok lane h Hh. assert (Hok2 : queue_ok w2) by by eapply queue_ok_steps.
    destruct (L1 Hok _ _ Hh) as [Hh2|(m & Hm & Hc)]; [by apply L2|]. right. by eapply cancelled_steps.
Qed.

Lemma scanned_calm w w' : steps w w' → calm w w' → scanned w w'.
Proof. intros Hs [[Hj Hm _ Hl Hf] _]. split; [done|by rewrite Hj|by rewrite Hf|rewrite Hf; by left|done]. Qed.

Lemma scanned_rt s w : scanned w (set_rt s w).
Proof. apply scanned_calm; [apply rtc_once, s_rt|by repeat split]. Qed.

(** A file leaves [pending] or [running]. *)
Lemma scanned_move s d d' n f w :
  (d, d') ∈ moves → d ≠ "failed" → q_jobs w !! (d, n) = Some f →
  scanned w (set_jobs (<[(d', n) := f]> (delete (d, n) (q_jobs w))) (set_rt s w)).
Proof.
  intros Hm Hd Hf. assert (Hdd : d ≠ "done") by (intros ->; unfold moves in Hm; set_solver).
  split; simpl; [|intros Hok e k g He Hg|done|by left|done].
  - eapply steps_one; [apply rtc_once, (s_rt _ s)|]. by apply (s_move (set_rt s w)).
  - destruct (decide (k = n)) as [->|Hne]; [|by rewrite lookup_insert_ne, lookup_delete_ne by congruence].
    destruct Hd. assert (d = e) by (by eapply qo_place). naive_solver.
Qed.

Lemma wp_rename from to name (P : res HErr unit → Hub → Prop) w :
  (∀ f s, q_jobs w !! (from, name) = Some f → P (Ok tt) (set_jobs (<[(to, name) := f]> (delete (from, name) (q_jobs w))) (set_rt s w))) →
  (∀ e s, P (Err e) (set_rt s w)) → wp (rename_job from to name) P w.
Proof.
  intros Hok He. unfold rename_job. apply wp_bind, wp_hcall; [|done]. intros s. apply wp_bind, wp_get, wp_bind, wp_some_or; [|done].
  intros f Hf. by apply wp_modify, Hok.
Qed.

(** A candidate is a pending file and its job. *)
Definition pending_file (w : Hub) (c : candidate) (f : JobFile) : Prop :=
  q_jobs w !! ("pending", cd_name c) = Some f ∧ jf_Job f = Some (cd_job c) ∧ cd_name c = FileID (j_ID (cd_job c)).

(** What was pending is the same file wherever it is found later. *)
Lemma pending_same w w1 c f d g :
  queue_ok w → steps w w1 → pending_file w c f → q_jobs w1 !! (d, cd_name c) = Some g → g = f.
Proof.
  intros Hok Hs (Hf & _) Hg. destruct (job_steps _ _ _ _ _ Hs Hok Hf) as (d' & Hd').
  assert (d = d') as -> by (eapply qo_place; [by eapply queue_ok_steps|done|done]). congruence.
Qed.

(** Why a candidate is passed over. *)
Definition waits (w : Hub) (j : Job) : Prop :=
  (∃ h, h ≠ j_ID j ∧ q_flight w !! job_lane j = Some h) ∨
  0 < MaxParallelPerContext (q_limits w) ≤ contextLanesHeldLocked (job_scope j) (q_flight w).
Definition retired (w' : Hub) (name : string) (f : JobFile) : Prop := ∃ d, (d = "done" ∨ d = "failed") ∧ q_jobs w' !! (d, name) = Some f.
Definition passed (w : Hub) (c : candidate) (w' : Hub) : Prop :=
  waits w (cd_job c) ∨ ∃ f, pending_file w c f ∧ retired w' (cd_name c) f.

Lemma held_mono scope (f f' : gmap string string) : f' ⊆ f → contextLanesHeldLocked scope f' ≤ contextLanesHeldLocked scope f.
Proof. intros Hs. unfold contextLanesHeldLocked. apply inj_le, map_subseteq_size, map_filter_subseteq_mono, Hs. Qed.

Lemma held_insert scope lane id (f f' : gmap string string) :
  f' ⊆ f → contextLanesHeldLocked scope (<[lane := id]> f') ≤ contextLanesHeldLocked scope f + 1.
Proof.
  intros Hs. apply (held_mono scope) in Hs. etrans; [|apply Z.add_le_mono_r, Hs]. unfold contextLanesHeldLocked.
  rewrite <- (Nat2Z.inj_add _ 1). apply inj_le. destruct (decide (((lane == scope) || HasPrefix lane (scope ++ NULs)) = true)) as [Hp|Hp].
  - rewrite map_filter_insert_True by done. rewrite map_size_insert. case_match; unfold Datatypes.id; lia.
  - rewrite map_filter_insert_False by done. etrans; [apply map_subseteq_size, map_filter_subseteq_mono, delete_subseteq|]. lia.
Qed.

(** The text a claim hands out. *)
Definition claim_shows (j j' : Job) (m : JobMapping) : Prop :=
  if (r_RunID (m_Run m) != "") && (r_SessionID (m_Run m) != "") then j_Text j' = ""
  else if j_Sensitive j then j_Text j' ≠ "" else j_Text j' = j_Text j.

(** What a claim of [j'] does. *)
Definition claimed (w : Hub) (j' : Job) (w' : Hub) : Prop := ∃ j f,
  q_jobs w !! ("pending", FileID (j_ID j)) = Some f ∧ jf_Job f = Some j ∧ q_jobs w' !! ("running", FileID (j_ID j)) = Some f ∧
  j' = with_text (j_Text j') (j_TextSHA256 j) j ∧
  q_flight w' !! job_lane j = Some (j_ID j) ∧
  (∀ h, q_flight w !! job_lane j = Some h → h = j_ID j ∨ ∃ m, q_maps w' !! FileID h = Some (Some m) ∧ m_Status m = "cancelled") ∧
  (0 < MaxParallelPerContext (q_limits w) →
     contextLanesHeldLocked (job_scope j) (q_flight w') ≤ MaxParallelPerContext (q_limits w) ∨
     q_flight w !! job_lane j = Some (j_ID j) ∨ j_ID j = "") ∧
  (j_IdempotencyKey j ≠ "" → ∃ m, q_maps w' !! FileID (j_ID j) = Some (Some m) ∧ m_JobID m = j_ID j ∧ m_terminal m = false ∧
     (TrimSpace (j_IdempotencyKey j) ≠ "" → m_Status m = "running") ∧ claim_shows j j' m).

Lemma wp_claim_text name mapping j w :
  wp (claim_text name mapping j) (λ r w', ∀ j', r = Ok j' → w' = w ∧ j' = with_text (j_Text j') (j_TextSHA256 j) j ∧
    ∀ m, mapping = Ok m → claim_shows j j' m) w.
Proof.
  unfold claim_text, claim_shows. apply wp_if; intros Hrun.
  { apply wp_ret. intros j' [= <-]. split_and!; [done|done|]. intros m ->. by rewrite Hrun. }
  apply wp_if; intros Hs.
  - apply wp_bind, wp_get. cbv zeta. apply wp_if; intros Ht.
    + apply wp_bind, wp_try, wp_rename; intros; by apply wp_throw.
    + apply wp_ret. intros j' [= <-]. split_and!; [done|done|]. intros m ->. rewrite Hrun, Hs. by apply bool_decide_eq_false in Ht.
  - apply wp_ret. intros j' [= <-]. split_and!; [done|by destruct j|]. intros m ->. by rewrite Hrun, Hs.
Qed.

(** The state in which a claimed job waits for its text. *)
Record claiming (w : Hub) (c : candidate) (f : JobFile) (w1 : Hub) : Prop := {
  cg_scanned : scanned w w1;
  cg_pending : pending_file w c f;
  cg_running : q_jobs w1 !! ("running", cd_name c) = Some f;
  cg_free : ∀ h, q_flight w1 !! job_lane (cd_job c) = Some h → h = j_ID (cd_job c);
  cg_cap : 0 < MaxParallelPerContext (q_limits w) →
    contextLanesHeldLocked (job_scope (cd_job c)) (q_flight w1) + 1 ≤ MaxParallelPerContext (q_limits w) ∨
    q_flight w !! job_lane (cd_job c) = Some (j_ID (cd_job c)) ∨ j_ID (cd_job c) = "";
}.

Lemma claiming_rt s w c f w1 : claiming w c f w1 → claiming w c f (set_rt s w1).
Proof. intros []. split; try done. etrans; [done|apply scanned_rt]. Qed.

(** The last step of a claim: the lane is taken. *)
Lemma claimed_intro w c f w1 j' w2 :
  queue_ok w → claiming w c f w1 → j' = with_text (j_Text j') (j_TextSHA256 (cd_job c)) (cd_job c) →
  steps w1 w2 → filed w1 w2 → q_flight w2 ⊆ q_flight w1 →
  (j_IdempotencyKey (cd_job c) ≠ "" → ∃ m, q_maps w2 !! FileID (j_ID (cd_job c)) = Some (Some m) ∧ m_JobID m = j_ID (cd_job c) ∧
     m_terminal m = false ∧ (TrimSpace (j_IdempotencyKey (cd_job c)) ≠ "" → m_Status m = "running") ∧ claim_shows (cd_job c) j' m) →
  claimed w j' (set_flight (<[job_lane (cd_job c) := j_ID (cd_job c)]> (q_flight w2)) w2).
Proof.
  intros Hok [Hsc (Hf & Hj & Hn) Hrun Hfree Hcap] Hj' Hs Hfl Hsub Hm. exists (cd_job c), f. rewrite <- Hn. split_and!; simpl; try done.
  - by rewrite (fl_jobs _ _ Hfl).
  - apply lookup_insert_eq.
  - intros h Hh. destruct (sk_shed _ _ Hsc Hok _ _ Hh) as [Hh1|(m & Hm1 & Hc)]; [left; by apply Hfree|right].
    eapply cancelled_steps; [exact Hs| |done|done]. eapply queue_ok_steps; [done|apply Hsc].
  - intros Hpos. destruct (Hcap Hpos) as [Hle|Hown]; [left|by right]. etrans; [by apply held_insert|done].
  - by rewrite Hn.
Qed.

(** The mapping is marked running and the lane taken. *)
Definition take_lane (j j' : Job) : Q (option Job) :=
  (if TrimSpace (j_IdempotencyKey j) == "" then mret tt
   else updateMappingLocked (j_ID j) (plain_outcome (j_ID j) "running" "job.claimed") "running" false) ;;
  modify (λ w, set_flight (<[job_lane j := j_ID j]> (q_flight w)) w) ;;
  mret (Some j').

Definition claim_post (w : Hub) (c : candidate) (w1 : Hub) (r : res HErr (option Job)) (w' : Hub) : Prop :=
  match r with
  | Ok None => scanned w1 w' ∧ passed w c w'
  | Ok (Some j') => claimed w j' w'
  | Err _ => True
  end.

Lemma wp_take_lane w c f w1 (mapping : res HErr JobMapping) j' :
  queue_ok w → claiming w c f w1 → j' = with_text (j_Text j') (j_TextSHA256 (cd_job c)) (cd_job c) →
  match mapping with
  | Ok m => q_maps w1 !! FileID (j_ID (cd_job c)) = Some (Some m) ∧ m_JobID m = j_ID (cd_job c) ∧ m_terminal m = false ∧ claim_shows (cd_job c) j' m
  | Err _ => j_IdempotencyKey (cd_job c) = ""
  end →
  wp (take_lane (cd_job c) j') (claim_post w c w1) w1.
Proof.
  intros Hok Hcl Hj' Hmap. unfold take_lane. apply wp_bind, wp_if; intros Htrim.
  - apply bool_decide_eq_true in Htrim. apply wp_ret, wp_bind, wp_modify, wp_ret. apply (claimed_intro w c f w1); try done.
    intros Hkey. destruct mapping as [m|e]; [|done]. exists m. destruct Hmap as (? & ? & ? & ?). by split_and!.
  - apply bool_decide_eq_false in Htrim. assert (Hok1 : queue_ok w1) by (eapply queue_ok_steps; [done|apply Hcl]).
    eapply wp_mono; [by apply wp_update|]. intros [[]|e] w2 (Hs2 & Hf2 & [Hfl2 _] & Hu); [|done].
    destruct (Hu eq_refl) as (m0 & now & Hm0 & Hid & _ & Hmaps). apply wp_bind, wp_modify, wp_ret.
    apply (claimed_intro w c f w1); try done. intros Hkey. destruct mapping as [m|e]; [|done]. destruct Hmap as (Hm & Hid' & Ht & Hshow).
    rewrite Hm in Hm0. injection Hm0 as <-. eexists. rewrite Hmaps, lookup_insert_eq. by split_and!.
Qed.

Lemma claim_post_trans w c w1 w2 r w' : scanned w1 w2 → claim_post w c w2 r w' → claim_post w c w1 r w'.
Proof. intros Hs. destruct r as [[j'|]|e]; [done| |done]. intros [Hs' Hp]. split; [by etrans|done]. Qed.

Lemma wp_run_claim w c f w1 :
  queue_ok w → claiming w c f w1 → wp (run_claim (cd_name c) (cd_job c)) (claim_post w c w1) w1.
Proof.
  intros Hok Hcl. unfold run_claim. apply wp_bind, wp_try, wp_load_mapping.
  - intros m s Hm Hid. apply (claiming_rt s) in Hcl. apply wp_bind, wp_ret. apply wp_if; intros Ht.
    + destruct Hcl as [Hsc Hp Hrun _ _]. apply wp_bind. set (dir := if m_Status m == "completed" then "done" else "failed").
      assert (Hdir : dir = "done" ∨ dir = "failed") by (unfold dir; case_match; auto).
      apply wp_rename; [|done]. intros g s2 Hg. apply wp_ret. assert (g = f) as -> by (eapply (pending_same w); [done|apply Hsc|done|exact Hg]).
      split; [etrans; [apply (scanned_rt s)|apply scanned_move; [destruct Hdir as [->| ->]; unfold moves; set_solver|done|done]]|].
      right. exists f. split; [done|]. exists dir. split; [done|]. apply lookup_insert_eq.
    + apply wp_bind. eapply wp_mono; [apply wp_claim_text|]. intros [j'|e] w2 Hj'; [|done]. destruct (Hj' j' eq_refl) as (-> & Hj & Hshow).
      eapply wp_mono; [|intros r w'; apply (claim_post_trans _ _ w1), (scanned_rt s)].
      apply (wp_take_lane w c f _ (Ok m)); [done..|]. split_and!; [done..|by apply Hshow].
  - intros e s _. apply (claiming_rt s) in Hcl. apply wp_bind, wp_fail_if; [done|]. intros Hkey.
    apply negb_false_iff, bool_decide_eq_true in Hkey. apply wp_bind. eapply wp_mono; [apply wp_claim_text|].
    intros [j'|e'] w2 Hj'; [|done]. destruct (Hj' j' eq_refl) as (-> & Hj & Hshow).
    eapply wp_mono; [by apply (wp_take_lane w c f _ (Err e))|intros r w'; apply (claim_post_trans _ _ w1), (scanned_rt s)].
Qed.

Lemma wp_cancel_claim w c f w1 event :
  queue_ok w → scanned w w1 → pending_file w c f → wp (cancel_claim (cd_name c) (cd_job c) event) (claim_post w c w1) w1.
Proof.
  intros Hok Hsc Hp. assert (Hok1 : queue_ok w1) by (eapply queue_ok_steps; [done|apply Hsc]).
  unfold cancel_claim. apply wp_bind. eapply wp_mono; [by apply wp_update|].
  intros [[]|e] w2 (Hs2 & Hf2 & [Hfl2 Ho2] & Hu); [|done]. destruct (Hu eq_refl) as (m & now & Hm & Hid & _ & Hmaps).
  assert (Hs12 : scanned w1 w2).
  { split; [done|by rewrite (fl_jobs _ _ Hf2)|done| |by apply Hf2]. intros _ lane h Hh.
    destruct (decide (h = j_ID (cd_job c))) as [->|Hne]; [right|left; by apply Ho2]. eexists. rewrite Hmaps, lookup_insert_eq. done. }
  apply wp_bind, wp_rename; [|done]. intros g s Hg. apply wp_ret.
  assert (Hs02 : scanned w w2) by by etrans.
  assert (g = f) as -> by (eapply (pending_same w); [done|apply Hs02|done|exact Hg]).
  split; [etrans; [exact Hs12|apply scanned_move; [unfold moves; set_solver|done|done]]|].
  right. exists f. split; [done|]. exists "failed". split; [by right|]. apply lookup_insert_eq.
Qed.

Lemma wp_stale w c w1 (ask : Q bool) (b : bool) (k : bool → Q (option Job)) :
  queue_ok w → scanned w w1 → refines always calm ask →
  (∀ stale w2, scanned w1 w2 → wp (k stale) (claim_post w c w2) w2) →
  wp ((if b then ok ← ask; mret (negb ok) else mret false) ≫= k) (claim_post w c w1) w1.
Proof.
  intros Hok Hsc Hask Hk. apply wp_bind.
  assert (Hif : refines always calm (if b then ok ← ask; mret (negb ok) else mret false)).
  { destruct b; [|apply rf_ret, _]. apply rf_bind; [apply _..|done|]. intros ok. apply rf_ret, _. }
  eapply wp_mono; [apply Hif; [|done]; eapply queue_ok_steps; [done|apply Hsc]|].
  intros [stale|e] w2 [Hs Hc]; [|done]. assert (Hs12 : scanned w1 w2) by by apply scanned_calm.
  eapply wp_mono; [by apply Hk|]. intros r w'. by apply claim_post_trans.
Qed.

Lemma wp_claim_one w c f w1 :
  queue_ok w → scanned w w1 → pending_file w c f → wp (claim_one c) (claim_post w c w1) w1.
Proof.
  intros Hok Hsc1 Hp. unfold claim_one. cbv zeta.
  apply wp_stale; [done|done|unfold AssignmentForWakeLocked; rf|]. intros stale w2 Hs2.
  assert (Hsc2 : scanned w w2) by by etrans. apply wp_if; intros _; [by eapply wp_cancel_claim|].
  apply wp_stale; [done|done|unfold occurrence_current; rf|]. intros stale' w3 Hs3.
  assert (Hsc3 : scanned w w3) by by etrans. apply wp_if; intros _; [by eapply wp_cancel_claim|].
  clear dependent w1 w2. apply wp_bind, wp_get.
  apply wp_if; intros Hbusy.
  { apply wp_ret. split; [done|]. left. left. destruct (q_flight w3 !! _) as [h|] eqn:Hh; [|done].
    apply negb_true_iff, bool_decide_eq_false in Hbusy. exists h. split; [done|]. eapply lookup_weaken; [exact Hh|apply Hsc3]. }
  apply wp_if; intros Hcap.
  { apply wp_ret. split; [done|]. left. right. rewrite !andb_true_iff in Hcap. destruct Hcap as [[_ Hpos] Hle].
    rewrite (sk_limits _ _ Hsc3) in Hpos, Hle. split; [lia|]. etrans; [apply Z.leb_le, Hle|apply held_mono, Hsc3]. }
  assert (Hok3 : queue_ok w3) by (eapply queue_ok_steps; [done|apply Hsc3]).
  apply wp_bind. eapply wp_mono; [apply (rf_hwrite (set_cursor (Some (Some (job_scope (cd_job c)))))); [constructor|by repeat split|done|done]|].
  intros [[]|e] w4 [Hs4 Hc4]; [|done]. assert (Hsc34 : scanned w3 w4) by by apply scanned_calm.
  apply wp_bind, wp_rename; [|done]. intros g s Hg.
  assert (g = f) as -> by (eapply (pending_same w); [done|apply (transitivity Hsc3 Hsc34)|done|exact Hg]). set (w5 := set_jobs _ _).
  assert (Hsc35 : scanned w3 w5) by (etrans; [exact Hsc34|apply scanned_move; [unfold moves; set_solver|done|done]]).
  assert (Hfl : q_flight w5 = q_flight w3) by (simpl; apply Hc4).
  eapply wp_mono; [apply (wp_run_claim w c f); [done|]|intros r w'; by apply claim_post_trans].
  split; [by etrans|done|apply lookup_insert_eq| |]; rewrite Hfl.
  - intros h Hh. rewrite Hh in Hbusy. by apply negb_false_iff, bool_decide_eq_true in Hbusy.
  - intros Hpos. rewrite !andb_false_iff, negb_false_iff, bool_decide_eq_true, (sk_limits _ _ Hsc3) in Hcap.
    destruct Hcap as [[Hown|?]|?]; [right|lia|left; lia].
    destruct (q_flight w3 !! job_lane (cd_job c)) as [h|] eqn:Hh; [left|by right]. simpl in Hown. subst h.
    eapply lookup_weaken; [exact Hh|apply Hsc3].
Qed.

Lemma names_in_elem {A} (dir n : string) (m : gmap (string * string) A) : n ∈ names_in dir m ↔ is_Some (m !! (dir, n)).
Proof.
  unfold names_in. rewrite merge_sort_Permutation, list_elem_of_omap. split.
  - intros ([d k] & ([k' v] & -> & Hkv%elem_of_map_to_list)%list_elem_of_fmap & Hd). simpl in *. case_bool_decide; [|done]. subst. naive_solver.
  - intros [v Hv]. exists (dir, n). split; [|simpl; by rewrite bool_decide_eq_true_2]. apply list_elem_of_fmap. exists (dir, n, v).
    by rewrite elem_of_map_to_list.
Qed.

(** The candidates are the pending jobs. *)
Lemma wp_candidates w :
  queue_ok w →
  wp read_candidates (λ r w', steps w w' ∧ calm w w' ∧ ∀ cs, r = Ok cs →
    Forall (λ c, ∃ f, pending_file w c f) cs ∧
    ∀ n f, q_jobs w !! ("pending", n) = Some f → ∃ c, c ∈ cs ∧ cd_name c = n ∧ jf_Job f = Some (cd_job c)) w.
Proof.
  intros Hok. unfold read_candidates. apply wp_bind, wp_hcall; intros s; [|split_and!; [apply rtc_once, s_rt|by repeat split|done]].
  apply wp_bind, wp_get. eapply wp_mono.
  { apply (wp_for_fold_prefix (λ pre cs w1, (steps w w1 ∧ calm w w1) ∧ Forall (λ c, ∃ f, pending_file w c f) cs ∧ ∀ n f, n ∈ pre →
      q_jobs w !! ("pending", n) = Some f → ∃ c, c ∈ cs ∧ cd_name c = n ∧ jf_Job f = Some (cd_job c)) (λ _ w1, steps w w1 ∧ calm w w1)).
    - split_and!; [apply rtc_once, s_rt|by repeat split|done|set_solver].
    - intros pre n post cs w1 _ ([Hs1 Hc1] & Hall & Hpre).
      assert (Hrt : ∀ s, steps w (set_rt s w1) ∧ calm w (set_rt s w1)).
      { intros s'. split; [by apply steps_rt|etrans; [done|by repeat split]]. }
      apply wp_bind, wp_hcall; intros s1; [|apply Hrt]. apply wp_bind, wp_hread; intros s2; [|apply Hrt].
      apply wp_bind, wp_some_or; [|intros _; apply Hrt]. intros f Hf. simpl in Hf. rewrite (st_jobs _ _ (ca_still _ _ Hc1)) in Hf.
      apply wp_bind, wp_some_or; [|intros _; apply Hrt]. intros j Hj. apply wp_ret. split; [apply Hrt|].
      split; [apply Forall_app_2; [done|]; apply Forall_singleton; exists f; split_and!; [done|done|by eapply qo_name]|].
      intros n' f' [Hin|Hin]%elem_of_app Hf'; [destruct (Hpre _ _ Hin Hf') as (c & Hc & Hc'); exists c; set_solver|].
      apply list_elem_of_singleton in Hin as ->. exists (mkCandidate n j (jf_Mod f)). split_and!; [set_solver|done|simpl; congruence]. }
  intros [cs|e] w1; [|intros [? ?]; by split_and!]. intros ([? ?] & Hall & Hpre). split_and!; [done..|]. intros cs' [= <-]. split; [done|].
  intros n f Hf. apply (Hpre n f); [|done]. apply names_in_elem. simpl. eauto.
Qed.

Lemma passed_mono w c w1 w2 : queue_ok w1 → scanned w1 w2 → passed w c w1 → passed w c w2.
Proof.
  intros Hok Hs [Hw|(f & Hp & d & Hd & Hf)]; [by left|right]. exists f. split; [done|]. exists d. split; [done|]. by apply (sk_settled _ _ Hs Hok).
Qed.

(** C17. A claim hands out a job that was pending, exactly once: its file is in [running], its
    lane is its own (it was free, held by the job itself, or by a job that was cancelled on
    the way), the lanes of its context are within the configured number, its mapping is not
    terminal and says running, and the text is blank when its run was admitted before, and
    there when it is sensitive.  When nothing is handed out, every pending job waits for its
    lane or for the number of lanes of its context, or was retired. *)
Theorem claim_job w r w' :
  reachable w → ClaimJob w = (r, w') →
  match r with
  | Ok (Some j') => claimed w j' w'
  | Ok None => ∀ n f, q_jobs w !! ("pending", n) = Some f → ∃ j, jf_Job f = Some j ∧ (waits w j ∨ retired w' n f)
  | Err _ => True
  end.
Proof.
  intros Hok%reachable_ok Hx. refine (run_wp _ (λ r w', match r with Ok (Some j') => claimed w j' w' | Ok None => _ | Err _ => True end) _ _ _ Hx _).
  clear Hx. unfold ClaimJob. apply wp_bind. eapply wp_mono; [by apply wp_candidates|]. intros [cs|e] w1 (Hs1 & Hc1 & Hcs); [|done].
  destruct (Hcs cs eq_refl) as [Hall Hcov]. assert (Hok1 : queue_ok w1) by by eapply queue_ok_steps. apply wp_bind.
  assert (Hcur : refines always calm read_cursor) by (unfold read_cursor; rf).
  eapply wp_mono; [by apply Hcur|]. intros [cursor|e] w2 [Hs2 Hc2]; [|done]. apply wp_bind, wp_hnow. intros now s.
  set (w3 := set_rt s w2). assert (Hsc : scanned w w3) by (etrans; [by apply scanned_calm|etrans; [by apply scanned_calm|apply scanned_rt]]).
  set (G := λ (r : res HErr Job) w', match r with Ok j' => claimed w j' w' | Err _ => True end).
  set (R := λ a b, scanned a b ∧ (queue_ok a → queue_ok b)).
  assert (PreOrder R) by (unfold R; split; [by split|intros ? ? ? [? ?] [? ?]; split; [by etrans|auto]]).
  eapply wp_mono.
  { apply (wp_for_return_all R (λ c w', queue_ok w' ∧ passed w c w') G).
    - intros c wa wb [Hs Hq] [Hqa Hp]. split; [auto|]. by eapply passed_mono.
    - intros c w4 Hin [Hs4 Hq4]. rewrite merge_sort_Permutation in Hin. rewrite Forall_forall in Hall. destruct (Hall c Hin) as (f & Hp).
      assert (Hs04 : scanned w w4) by by etrans. eapply wp_mono; [by apply (wp_claim_one w c f)|]. intros [[j'|]|e] w5; [done| |done]. intros [Hs5 Hp5].
      assert (Hs05 : scanned w w5) by by etrans. assert (queue_ok w5) by (eapply queue_ok_steps; [exact Hok|apply Hs05]). split; by split. }
  intros [[j'|]|e] w4; [done| |done]. intros [_ Hpass] n f Hf. destruct (Hcov n f Hf) as (c & Hin & <- & Hj). exists (cd_job c). split; [done|].
  rewrite <- (merge_sort_Permutation (claim_le cursor now)) in Hin.
  destruct (Hpass c Hin) as [_ [Hw|(f' & (Hf' & _) & Hret)]]; [by left|right]. congruence.
Qed.
End Claim.
