(* ===== verification/SpoolRestart.v ===== *)
(** Opening the spool again: where the jobs and deliveries of the process before are put. *)
From stdpp Require Import base gmap strings list pretty sorting relations.
From Stdlib Require Import Ascii String.
From S2P Require Import Prelude GoStrings BrokerIdentity Contract Calendar Cron RoutineTypes Timing Schedules SpoolTypes SpoolQueue SpoolWork SpoolStream SpoolFrame SpoolSpec SpoolRefine SpoolOps SpoolClaim.
Local Open Scope string_scope.
Local Open Scope Z_scope.

Section Restart.
Context `{RoutineWorld} `{TimeText} `{RoutineDeps} `{Unicode} `{QueueWorld}.
Abbreviation Q := (M Hub HErr).

(** ** What recovery leaves alone *)

(** The deliveries that are not waiting, and the secrets; with these, the job files. *)
Definition unsent (w : Hub) : gmap (string * string) (option Delivery) * gmap string string :=
  (filter (λ kv, kv.1.1 ≠ "pending") (q_outbox w), q_secret w).
Definition placed (w : Hub) := (q_jobs w, unsent w).

Lemma lv_placed_write m : leaves placed (writeMappingLocked m).
Proof. unfold writeMappingLocked, writeIdempotencyIndexLocked, hwrite, hcall. lv. Qed.
#[local] Hint Resolve lv_placed_write : leaves.

Lemma lv_placed_load id : leaves placed (loadMappingLocked id).
Proof. unfold loadMappingLocked, hread, hcall. lv. Qed.
#[local] Hint Resolve lv_placed_load : leaves.

Lemma lv_placed_settle id : leaves placed (settleReservationLocked id).
Proof. unfold settleReservationLocked, bucketLocked, put_bucket, put_reservation, saveBudgetLocked, hwrite, hnow, hcall. lv. Qed.
#[local] Hint Resolve lv_placed_settle : leaves.

Lemma lv_placed_update id o status terminal : leaves placed (updateMappingLocked id o status terminal).
Proof. unfold updateMappingLocked, hread, hwrite, hnow, hcall. lv. Qed.
#[local] Hint Resolve lv_placed_update : leaves.

Lemma lv_unsent {A} (m : Q A) : leaves placed m → leaves unsent m.
Proof. intros Hm w. eapply wp_mono; [apply Hm|]. intros r w'. unfold placed. congruence. Qed.

Lemma lv_unsent_write m : leaves unsent (writeMappingLocked m).
Proof. apply lv_unsent, lv_placed_write. Qed.
Lemma lv_unsent_load id : leaves unsent (loadMappingLocked id).
Proof. apply lv_unsent, lv_placed_load. Qed.
#[local] Hint Resolve lv_unsent_write lv_unsent_load : leaves.

Lemma lv_unsent_jobs : leaves unsent recoverJobs.
Proof. unfold recoverJobs, recover_job, rename_job, hnow, hcall. lv. Qed.

Lemma lv_placed_put name d : leaves placed (put_delivery "pending" name d).
Proof.
  unfold put_delivery, hwrite, hcall. lv. intros w. apply wp_modify. unfold placed, unsent. simpl. do 2 f_equal. apply map_filter_insert_not. naive_solver.
Qed.
#[local] Hint Resolve lv_placed_put : leaves.

Lemma lv_placed_deliver d : leaves placed (SpoolStream.EnqueueDelivery d).
Proof. unfold SpoolStream.EnqueueDelivery, enqueueDeliveryLocked, count_ordinary, hread, hcall. lv. Qed.
#[local] Hint Resolve lv_placed_deliver : leaves.

Lemma lv_placed_events : leaves placed recoverStreamEvents.
Proof. unfold recoverStreamEvents, read_receipts, recover_receipt, applyStreamReceiptLocked, hread, hcall. lv. Qed.

Lemma lv_placed_rebuild : leaves placed rebuildMappings.
Proof. unfold rebuildMappings, rebuild_mapping, hread, hcall. lv. Qed.

Lemma lv_placed_index : leaves placed rebuildIdempotencyIndex.
Proof. unfold rebuildIdempotencyIndex, rebuild_index, writeIdempotencyIndexLocked, hread, hwrite, hcall. lv. Qed.

Lemma lv_placed_reconcile : leaves placed reconcileBudgetLocked.
Proof.
  unfold reconcileBudgetLocked, reconcile_one, bucketLocked, put_bucket, put_reservation, saveBudgetLocked, hread, hwrite, hnow, hcall. lv.
Qed.

#[local] Hint Resolve lv_placed_rebuild lv_placed_index lv_placed_events lv_placed_reconcile : leaves.

(** What follows the moves of the recovery. *)
Lemma lv_recover_rest : leaves placed (rebuildMappings ;; rebuildIdempotencyIndex ;; recoverStreamEvents ;; reconcileBudgetLocked).
Proof. lv. Qed.

(** ** Where things are put *)

(** The directory of a job that was running: one without a mapping is taken up again, one that
    ended is filed, one with a run is observed again and any other is left as failed. *)
Definition recovered_dir (r : option (option JobMapping)) : string :=
  match r with
  | None => "pending"
  | Some None => "failed"
  | Some (Some m) =>
      if m_terminal m then if m_Status m == "completed" then "done" else "failed"
      else if (r_RunID (m_Run m) != "") && (r_SessionID (m_Run m) != "") then "pending" else "failed"
  end.

Lemma recovered_elsewhere r : recovered_dir r ≠ "running".
Proof. unfold recovered_dir. by repeat case_match. Qed.

Definition put_back (w : Hub) (pre : list string) (d n : string) : string :=
  if bool_decide (d = "running" ∧ n ∈ pre) then recovered_dir (q_maps w !! FileID n) else d.

(** The state when the files of [pre] are recovered. *)
Record recovering (w : Hub) (pre : list string) (w1 : Hub) : Prop := {
  rc_steps : steps w w1;
  rc_files : ∀ d n f, q_jobs w !! (d, n) = Some f → q_jobs w1 !! (put_back w pre d n, n) = Some f;
  rc_back : ∀ d n f, q_jobs w1 !! (d, n) = Some f → ∃ d0, q_jobs w !! (d0, n) = Some f;
  rc_maps : ∀ k, q_maps w1 !! k = q_maps w !! k ∨ ∃ m, q_maps w1 !! k = Some (Some m) ∧ m_JobID m ∈ pre;
  rc_own : ∀ n f r, n ∈ pre → q_jobs w !! ("running", n) = Some f → q_maps w !! FileID n = Some r → ∃ m, r = Some m ∧ m_JobID m = n;
}.

(** A file that is put elsewhere. *)
Lemma recovering_move w pre n f w1 w2 s :
  queue_ok w → recovering w pre w1 → steps w1 w2 → filed w1 w2 → n ∉ pre →
  (∀ k, q_maps w2 !! k = q_maps w1 !! k ∨ ∃ m, q_maps w2 !! k = Some (Some m) ∧ m_JobID m = n) →
  (∀ r, q_maps w !! FileID n = Some r → ∃ m, r = Some m ∧ m_JobID m = n) →
  q_jobs w2 !! ("running", n) = Some f → ("running", recovered_dir (q_maps w !! FileID n)) ∈ moves →
  recovering w (pre ++ [n]) (set_jobs (<[(recovered_dir (q_maps w !! FileID n), n) := f]> (delete ("running", n) (q_jobs w2))) (set_rt s w2)).
Proof.
  intros Hok [Hs Hfiles Hback Hmaps Hown] Hs2 Hf2 Hn Hm2 Hid Hf Hmv. assert (Hs02 : steps w w2) by by eapply steps_trans.
  assert (Hok2 : queue_ok w2) by by eapply queue_ok_steps. rewrite <- (fl_jobs _ _ Hf2) in Hfiles, Hback. split.
  - eapply steps_one; [eapply steps_one; [exact Hs02|apply (s_rt _ s)]|]. by apply (s_move (set_rt s w2)).
  - intros d k g Hg. simpl. specialize (Hfiles d k g Hg). unfold put_back in *. destruct (decide (k = n)) as [->|Hne].
    + rewrite (bool_decide_eq_false_2 (_ ∧ n ∈ pre)) in Hfiles by naive_solver.
      assert (d = "running") as -> by (eapply qo_place; [exact Hok2|done|done]). rewrite bool_decide_eq_true_2 by set_solver.
      rewrite lookup_insert_eq. congruence.
    + rewrite (bool_decide_ext _ (d = "running" ∧ k ∈ pre)) by set_solver. by rewrite lookup_insert_ne, lookup_delete_ne by congruence.
  - intros d k g [[[= -> ->] ->]|[_ Hg]]%move_lookup; by eapply Hback.
  - intros k. simpl. destruct (Hm2 k) as [->|(m & Hm & <-)]; [|right; exists m; split; [done|set_solver]].
    destruct (Hmaps k) as [?|(m & Hm & Hp)]; [by left|right]. exists m. split; [done|set_solver].
  - intros k g r [Hk| ->%list_elem_of_singleton]%elem_of_app Hg Hr; [by eapply Hown|by apply Hid].
Qed.

(** A file recovered before is not there any more. *)
Lemma recovering_once w pre n f w1 w2 :
  queue_ok w → recovering w pre w1 → steps w1 w2 → filed w1 w2 → is_Some (q_jobs w !! ("running", n)) →
  q_jobs w2 !! ("running", n) = Some f → n ∉ pre.
Proof.
  intros Hok Hr Hs2 Hf2 [g Hg] Hf Hn. pose proof (rc_files _ _ _ Hr _ _ _ Hg) as Hp. unfold put_back in Hp.
  rewrite bool_decide_eq_true_2 in Hp by done. rewrite (fl_jobs _ _ Hf2) in Hf.
  apply (recovered_elsewhere (q_maps w !! FileID n)). eapply qo_place; [eapply (queue_ok_steps w); [done|apply Hr]|exact Hp|exact Hf].
Qed.

Lemma wp_recover_job w pre n w1 :
  queue_ok w → recovering w pre w1 → is_Some (q_jobs w !! ("running", n)) →
  wp (recover_job n) (λ r w', r = Ok tt → recovering w (pre ++ [n]) w') w1.
Proof.
  intros Hok Hrc Hin. assert (Hok1 : queue_ok w1) by (eapply queue_ok_steps; [done|apply Hrc]).
  unfold recover_job. apply wp_bind, wp_try, wp_load_mapping.
  - intros m s Hm Hid. assert (Hfil : ∀ s, filed w1 (set_rt s w1)) by by split. assert (Hst : ∀ s, steps w1 (set_rt s w1)) by (intros; apply rtc_once, s_rt).
    assert (Hmap : n ∉ pre → q_maps w !! FileID n = Some (Some m)).
    { intros Hn. destruct (rc_maps _ _ _ Hrc (FileID n)) as [<-|(m' & Hm' & Hp)]; [done|]. assert (m' = m) as -> by congruence. by rewrite Hid in Hp. }
    assert (Hown : n ∉ pre → ∀ r, q_maps w !! FileID n = Some r → ∃ m, r = Some m ∧ m_JobID m = n).
    { intros Hn r. rewrite Hmap by done. intros [= <-]. eauto. }
    apply wp_if; intros Ht.
    + apply wp_rename; [|done]. intros f s2 Hf _. assert (Hn : n ∉ pre) by (eapply (recovering_once w pre n f w1 (set_rt s w1)); eauto).
      assert (Hd : (if m_Status m == "completed" then "done" else "failed") = recovered_dir (q_maps w !! FileID n)).
      { unfold recovered_dir. by rewrite Hmap, Ht. }
      rewrite Hd. eapply (recovering_move w pre n f w1 (set_rt s w1)); eauto. rewrite <- Hd. case_match; unfold moves; set_solver.
    + apply wp_bind, wp_hnow. intros now s2. cbv zeta. set (m' := mkMapping _ _ _ _ _ _ _ _ _ _ _). apply wp_bind. eapply wp_mono.
      { apply (wp_write_mapping m' (set_rt s2 (set_rt s w1))). eapply (writable_evolves m); [simpl; by rewrite Hid|]. split; simpl; try done; congruence. }
      intros [[]|e] w2 (Hs2 & [Hf2 _ Hw2] & _); [|done]. assert (Hs12 : steps w1 w2) by (eapply steps_trans; [apply (Hst s2)|done]).
      assert (Hf12 : filed w1 w2) by (etrans; [apply (Hfil s2)|done]).
      apply wp_rename; [|done]. intros f s3 Hf _. assert (Hn : n ∉ pre) by (eapply (recovering_once w pre n f w1 w2); eauto).
      assert (Hd : (if (r_RunID (m_Run m) != "") && (r_SessionID (m_Run m) != "") then "pending" else "failed") = recovered_dir (q_maps w !! FileID n)).
      { unfold recovered_dir. by rewrite Hmap, Ht. }
      rewrite Hd. eapply (recovering_move w pre n f w1 w2); eauto; [|rewrite <- Hd; case_match; unfold moves; set_solver].
      intros k. simpl in Hw2. destruct Hw2 as [->| ->]; [by left|]. change (m_JobID m') with (m_JobID m).
      destruct (decide (k = FileID (m_JobID m))) as [->|Hne]; [right; exists m'; rewrite lookup_insert_eq; done|left; by rewrite lookup_insert_ne].
  - intros e s He. destruct e; try done. apply wp_rename; [|done]. intros f s2 Hf _.
    assert (Hn : n ∉ pre) by (eapply (recovering_once w pre n f w1 (set_rt s w1)); eauto; [apply rtc_once, s_rt|by split]).
    assert (Hnone : q_maps w !! FileID n = None).
    { destruct (rc_maps _ _ _ Hrc (FileID n)) as [<-|(m & Hm & _)]; [by apply He|]. rewrite He in Hm; done. }
    pose proof (recovering_move w pre n f w1 (set_rt s w1) s2 Hok Hrc) as Hmove. rewrite Hnone in Hmove. apply Hmove; try done.
    + apply rtc_once, s_rt.
    + by left.
    + unfold moves. simpl. set_solver.
Qed.


Lemma wp_recover_jobs w w0 :
  queue_ok w → recovering w [] w0 → q_jobs w0 = q_jobs w →
  wp recoverJobs (λ r w', r = Ok tt → recovering w (names_in "running" (q_jobs w)) w') w0.
Proof.
  intros Hok Hrc Hj. unfold recoverJobs. apply wp_bind, wp_hcall; intros s; [|done]. apply wp_bind, wp_get. simpl. rewrite Hj.
  eapply wp_mono.
  { apply (wp_for_each_prefix (recovering w) (λ _ _, True)).
    - destruct Hrc as [Hs Hf Hb Hm Ho]. split; [by apply steps_rt|done..].
    - intros pre n post w1 Heq Hrc1. eapply wp_mono; [apply wp_recover_job; [done|done|]|].
      + apply names_in_elem. rewrite Heq. set_solver.
      + intros [[]|e] w2 Hr; [by apply Hr|done]. }
  intros [[]|e] w1 Hr; [done|]. done.
Qed.

(** Deliveries in flight when the process ended are not sent again. *)
Lemma wp_recover_files w :
  wp (recoverFiles "sending" "failed") (λ r w', q_jobs w' = q_jobs w ∧ q_secret w' = q_secret w ∧ q_maps w' = q_maps w ∧ (r = Ok tt →
    ∀ n, q_outbox w' !! ("sending", n) = None ∧ ∀ x, q_outbox w !! ("sending", n) = Some x → q_outbox w' !! ("failed", n) = Some x)) w.
Proof.
  unfold recoverFiles. apply wp_bind, wp_hcall; intros s; [|by split_and!]. apply wp_bind, wp_get. simpl.
  set (same := λ w', q_jobs w' = q_jobs w ∧ q_secret w' = q_secret w ∧ q_maps w' = q_maps w).
  eapply wp_mono.
  { apply (wp_for_each_prefix (λ pre w1, same w1 ∧ ∀ n, if bool_decide (n ∈ pre)
      then q_outbox w1 !! ("sending", n) = None ∧ q_outbox w1 !! ("failed", n) = q_outbox w !! ("sending", n)
      else q_outbox w1 !! ("sending", n) = q_outbox w !! ("sending", n)) (λ _ w1, same w1)).
    - split; [done|]. intros n. by rewrite bool_decide_eq_false_2 by set_solver.
    - intros pre n post w1 _ [Hsame Hbox]. unfold rename_delivery. apply wp_bind, wp_hcall; intros s1; [|done].
      apply wp_bind, wp_get, wp_bind, wp_some_or; [|done]. intros x Hx. apply wp_modify. split; [done|]. intros k. simpl in *.
      specialize (Hbox k). destruct (decide (k = n)) as [->|Hne].
      + rewrite bool_decide_eq_true_2 by set_solver. rewrite lookup_insert_ne, lookup_delete_eq, lookup_insert_eq by done. split; [done|].
        case_bool_decide; [destruct Hbox; congruence|congruence].
      + rewrite (bool_decide_ext _ (k ∈ pre)) by set_solver.
        by rewrite (lookup_insert_ne _ _ ("sending", k)), (lookup_insert_ne _ _ ("failed", k)), !lookup_delete_ne by congruence. }
  intros [[]|e] w1 Hr; [destruct Hr as [Hsame Hbox]|by destruct Hr as (? & ? & ?)]. destruct Hsame as (? & ? & ?). split_and!; [done..|]. intros _ n. specialize (Hbox n).
  case_bool_decide as Hn.
  - destruct Hbox as [Hs Hf]. split; [done|]. intros x Hx. by rewrite Hf.
  - assert (Hnone : q_outbox w !! ("sending", n) = None) by (apply eq_None_not_Some; intros Hx; by apply Hn, names_in_elem).
    rewrite Hbox, Hnone. done.
Qed.

Lemma wp_open w :
  queue_ok w →
  wp openSpool (λ r w', r = Ok tt → recovering w [] w' ∧ q_jobs w' = q_jobs w ∧ q_outbox w' = q_outbox w ∧ q_secret w' = ∅) w.
Proof.
  intros Hok. eapply wp_mono.
  { apply wp_and; [by apply rf_open|].
    assert (Hlv : leaves (λ w, (q_jobs w, q_maps w, q_outbox w, q_secret w)) (for_each spool_dirs (λ _, hcall))) by (unfold hcall; lv).
    assert (Hgo : ∀ s b broken, wp (for_each spool_dirs (λ _, hcall))
      (λ _ w', q_jobs w' = q_jobs w ∧ q_maps w' = q_maps w ∧ q_outbox w' = q_outbox w ∧ q_secret w' = ∅) (reopened b broken (set_rt s w))).
    { intros s b broken. eapply wp_mono; [apply Hlv|]. intros r w'. simpl. intros [= -> -> -> ->]. done. }
    unfold openSpool. apply wp_bind, wp_try, wp_hread; intros s; apply wp_bind, wp_modify; simpl; [destruct (q_ledger w) as [[b|]|]|]; apply Hgo. }
  intros r w' [[Hs _] (Hj & Hm & Ho & Hsec)] _. split; [|done]. split; [done| | | |set_solver].
  - intros d n f Hf. unfold put_back. rewrite bool_decide_eq_false_2 by set_solver. congruence.
  - intros d n f. rewrite Hj. eauto.
  - left. by rewrite Hm.
Qed.

Lemma recovering_empty w w' n : queue_ok w → recovering w (names_in "running" (q_jobs w)) w' → q_jobs w' !! ("running", n) = None.
Proof.
  intros Hok Hrc. apply eq_None_not_Some. intros [f Hf]. destruct (rc_back _ _ _ Hrc _ _ _ Hf) as (d & Hd).
  pose proof (rc_files _ _ _ Hrc _ _ _ Hd) as Hp.
  assert (He : put_back w (names_in "running" (q_jobs w)) d n = "running").
  { eapply qo_place; [eapply (queue_ok_steps w); [done|apply Hrc]|exact Hp|exact Hf]. }
  unfold put_back in He. case_bool_decide as Hc; [by apply recovered_elsewhere in He|]. apply Hc. split; [done|]. subst d. apply names_in_elem. eauto.
Qed.

Lemma recovering_rt s w pre w1 : recovering (set_rt s w) pre w1 → recovering w pre w1.
Proof. intros []. split; [eapply steps_trans; [apply rtc_once, (s_rt _ s)|done]|done..]. Qed.

Lemma unsent_lookup w w' d n :
  filter (λ kv, kv.1.1 ≠ "pending") (q_outbox w) = filter (λ kv, kv.1.1 ≠ "pending") (q_outbox w') → d ≠ "pending" →
  q_outbox w !! (d, n) = q_outbox w' !! (d, n).
Proof.
  intros He Hd. apply option_eq. intros x. assert (Hx : ∀ v, q_outbox v !! (d, n) = Some x ↔ filter (λ kv, kv.1.1 ≠ "pending") (q_outbox v) !! (d, n) = Some x).
  { intros v. rewrite map_lookup_filter_Some. naive_solver. }
  by rewrite !Hx, He.
Qed.

Lemma wp_fst_ok {A} (m : Q A) w (P : Prop) a : (m w).1 = Ok a → wp m (λ r _, r = Ok a → P) w → P.
Proof. unfold wp. destruct (m w) as [r w']. simpl. auto. Qed.

Lemma wp_true {A} (m : Q A) (P : res HErr A → Prop) w : (∀ r, P r) → wp m (λ r _, P r) w.
Proof. unfold wp. by destruct (m w). Qed.

Definition recovered_place (w : Hub) (d n : string) : string := if d == "running" then recovered_dir (q_maps w !! FileID n) else d.

(** C8. After a restart no job is running and no delivery is being sent.  Every job file is
    where it was, except that those in [running] are put back: without a mapping into
    [pending], ended as their mapping says, with an admitted run into [pending] to be observed
    again, and otherwise into [failed].  A delivery that was being sent is in [failed], so it
    is not sent twice, and no secret text is left in memory. *)
Theorem restart_settles w w' :
  reachable w → NewSpool w = (Ok tt, w') →
  (∀ d n f, q_jobs w !! (d, n) = Some f → q_jobs w' !! (recovered_place w d n, n) = Some f) ∧
  (∀ n, q_jobs w' !! ("running", n) = None) ∧
  (∀ n, q_outbox w' !! ("sending", n) = None ∧ ∀ x, q_outbox w !! ("sending", n) = Some x → q_outbox w' !! ("failed", n) = Some x) ∧
  q_secret w' = ∅.
Proof.
  intros Hok%reachable_ok Hx. cut (∃ w1, recovering w (names_in "running" (q_jobs w)) w1 ∧ q_jobs w' = q_jobs w1 ∧
    (∀ n, q_outbox w' !! ("sending", n) = None ∧ ∀ x, q_outbox w !! ("sending", n) = Some x → q_outbox w' !! ("failed", n) = Some x) ∧ q_secret w' = ∅).
  { intros (w1 & Hrc & Hj & Ho & Hs). rewrite Hj. split_and!; [|intros n; by eapply recovering_empty|done|done].
    intros d n f Hf. pose proof (rc_files _ _ _ Hrc d n f Hf) as Hp. unfold recovered_place, put_back in *. case_bool_decide as Hc.
    - destruct Hc as [-> _]. by rewrite bool_decide_eq_true_2.
    - rewrite bool_decide_eq_false_2; [done|]. intros ->. apply Hc. split; [done|]. apply names_in_elem. eauto. }
  refine (run_wp _ (λ r w', r = Ok tt → _) _ _ _ Hx _ eq_refl). clear Hx w'.
  unfold NewSpool, recover. apply wp_bind, wp_hcall; intros s1; [|done]. apply wp_bind, wp_hcall; intros s2; [|done].
  assert (Hok2 : queue_ok (set_rt s2 w)) by (eapply queue_ok_steps; [done|apply rtc_once, s_rt]).
  apply wp_bind. eapply wp_mono; [exact (wp_open _ Hok2)|]. intros [[]|e] w1 Hop; [|done].
  destruct (Hop eq_refl) as (Hrc1%recovering_rt & Hj1 & Ho1 & Hs1). clear Hop.
  apply wp_bind. eapply wp_mono; [apply wp_and; [by apply (wp_recover_jobs w)|apply lv_unsent_jobs]|].
  intros [[]|e] w2 [Hrc2 Hu2]; [|done]. specialize (Hrc2 eq_refl). injection Hu2 as Hu2 Hs2.
  apply wp_bind. eapply wp_mono; [apply wp_recover_files|]. intros [[]|e] w3 (Hj3 & Hs3 & Hm3 & Ho3); [|done]. specialize (Ho3 eq_refl).
  eapply wp_mono; [apply lv_recover_rest|]. intros r w4 [= Hj4 Hu4 Hs4] _. exists w2. split_and!; [done|congruence| |congruence].
  intros n. destruct (Ho3 n) as [Hnone Hfail].
  rewrite (unsent_lookup w4 w3 "sending" n), (unsent_lookup w4 w3 "failed" n) by done. split; [done|].
  intros x Hx. apply Hfail. rewrite (unsent_lookup w2 w1 "sending" n) by done. by rewrite Ho1.
Qed.

(** A job whose id is no file name is not recovered: its file carries the hash of the id, which
    the recovery takes for the id, and the mapping it finds there says otherwise.  The spool
    then cannot be opened while the file is in [running]. *)
Theorem hashed_job_blocks_restart w id f m :
  reachable w → q_jobs w !! ("running", FileID id) = Some f → q_maps w !! FileID (FileID id) = Some (Some m) → m_JobID m = id →
  FileID id ≠ id → (NewSpool w).1 ≠ Ok tt.
Proof.
  intros Hok%reachable_ok Hf Hm Hid Hne Hx. apply Hne. refine (wp_fst_ok _ w _ _ Hx _). clear Hx.
  unfold NewSpool, recover. apply wp_bind, wp_hcall; intros s1; [|done]. apply wp_bind, wp_hcall; intros s2; [|done].
  assert (Hok2 : queue_ok (set_rt s2 w)) by (eapply queue_ok_steps; [done|apply rtc_once, s_rt]).
  apply wp_bind. eapply wp_mono; [exact (wp_open _ Hok2)|]. intros [[]|e] w1 Hop; [|done].
  destruct (Hop eq_refl) as (Hrc1%recovering_rt & Hj1 & _ & _). apply wp_bind. eapply wp_mono; [by apply (wp_recover_jobs w)|].
  intros [[]|e] w2 Hrc2; [|done]. specialize (Hrc2 eq_refl). apply wp_true. intros r _.
  destruct (rc_own _ _ _ Hrc2 (FileID id) f (Some m)) as (m' & Heq & Hm'); [apply names_in_elem; eauto|done|done|congruence].
Qed.
End Restart.
