(* ===== verification/SpoolWitness.v ===== *)
(** The theorems about the job queue at concrete spools, and two runs that show what the code
    does when a write fails at a bad moment. *)
From stdpp Require Import base gmap strings list pretty sorting relations.
From Stdlib Require Import Ascii String.
From S2P Require Import Prelude GoStrings BrokerIdentity Contract Calendar Cron RoutineTypes Timing Schedules SchedulesProps SchedulesWitness SpoolTypes SpoolQueue SpoolWork SpoolStream SpoolFrame SpoolSpec SpoolRefine SpoolOps SpoolProps SpoolClaim SpoolRestart.
Local Open Scope string_scope.
Local Open Scope Z_scope.

Module SpoolExample.
Import SchedulesExample.

#[export] Instance queue : QueueWorld := {|
fingerprint_json := λ epoch _ fields, String.concat "|" (pretty epoch :: fields);
file_size := λ _, 100;
q_order := λ _ l, l;
q_order_perm := λ _ l, Permutation_refl l;
refreshHolds := λ _, Some true;
holdsSnapshot := λ _, Some [];
channel_adapter := λ c, if c == "telegram" then Some Some else None;
EditableStatus := λ _, false;
locale_T := λ _ key _, key;
RunBudget := Hour;
limitsFromEnv := mkLimits 2 10 0 0 0 2;
|}.

Definition job (id key text : string) (sensitive : bool) : Job := mkJob env route id text sensitive "" key 0 0 0 "" "" 0 0.
Definition day : Spool := mkSpool ∅ ∅ ∅ ∅ ∅ ∅ ∅ ∅ [] 0.
Definition w0 : Hub := installed day (Some []) no_tasks ∅.

Definition run (ops : list Op) (w : Hub) : Hub := foldl (λ w o, (exec o w).2) w ops.

Lemma run_happens ops w : rtc happens w (run ops w).
Proof.
  revert w. induction ops as [|o ops IH]; intros w; simpl; [done|]. eapply rtc_l; [|apply IH]. eapply (h_op _ o). apply surjective_pairing.
Qed.

Lemma run_reachable ops : reachable (run ops w0).
Proof. exists day, (Some []), no_tasks, ∅. apply run_happens. Qed.

Definition morning : list Op := [OEnqueue (job "a" "k-a" "hello" false); OEnqueue (job "b" "k-b" "pin 1" true)].
Definition w1 : Hub := run morning w0.
Definition w2 : Hub := run [OClaim] w1.
Definition w3 : Hub := (NewSpool w2).2.

Lemma w1_reachable : reachable w1.
Proof. apply run_reachable. Qed.
Lemma w2_reachable : reachable w2.
Proof. eapply reachable_runs; [apply w1_reachable|apply run_happens]. Qed.

(** The directory of a job, and what its mapping says. *)
Definition where_is (n : string) (w : Hub) : list string :=
filter (λ d, is_Some (q_jobs w !! (d, n))) job_dirs.
Definition says (n : string) (w : Hub) : option string := q_maps w !! n ≫= λ r, r ≫= λ m, Some (m_Status m).

Lemma queue_refines_witness : where_is "a" w2 = ["running"] ∧ where_is "b" w2 = ["pending"] ∧ steps w0 w2.
Proof.
  assert (Hs : steps w0 w2).
  { apply (queue_refines w0 w2 (run_reachable [])). etrans; apply run_happens. }
  assert (Ha : where_is "a" w2 = ["running"]) by (vm_compute; reflexivity).
  assert (Hb : where_is "b" w2 = ["pending"]) by (vm_compute; reflexivity).
  exact (conj Ha (conj Hb Hs)).
Defined.

Lemma queue_well_formed_witness :
  (q_jobs w1 !! ("pending", "b") ≫= jf_Job) ≫= (λ j, Some (j_Sensitive j, j_Text j, q_secret w1 !! j_ID j)) = Some (true, "", Some "pin 1") ∧
  ∀ d f, q_jobs w1 !! (d, "b") = Some f → d = "pending".
Proof.
  split; [vm_compute; reflexivity|]. intros d f Hf. destruct (queue_well_formed w1 w1_reachable) as [Hfiles _].
  destruct (Hfiles d "b" f Hf) as (_ & Hone & _).
  destruct (q_jobs w1 !! ("pending", "b")) as [g|] eqn:Hg; [exact (eq_sym (Hone "pending" g Hg))|].
  exfalso. revert Hg. vm_compute. discriminate.
Defined.

(** A job that was completed stays so, whatever is tried. *)
Definition finished : Hub := run [OComplete "a"] w2.
Definition later : Hub := run [OFail "a"; OOutcome "a" (mkOutcome "x" "a" "" "" "" "failed" ""); ORestart; OEnqueue (job "a" "k-a" "hello" false)] finished.

Lemma accepted_is_final_witness : says "a" finished = Some "completed" ∧ says "a" later = Some "completed" ∧ where_is "a" later = ["done"].
Proof.
  destruct (q_maps finished !! "a") as [[m|]|] eqn:Hm; [|exfalso; revert Hm; vm_compute; discriminate..].
  assert (Hr : reachable finished) by (eapply reachable_runs; [apply w2_reachable|apply run_happens]).
  destruct (accepted_is_final finished later Hr (run_happens _ _)) as [_ Hmaps].
  destruct (Hmaps "a" m Hm) as (m' & Hm' & _ & _ & _ & _ & Hend).
  assert (Hs : says "a" finished = Some "completed") by (vm_compute; reflexivity). refine (conj Hs (conj _ _)).
  - unfold says in *. rewrite Hm in Hs. rewrite Hm'. cbn [mbind option_bind] in Hs |- *. injection Hs as Hs.
    rewrite (proj1 (Hend ltac:(unfold m_terminal; rewrite Hs; reflexivity))). by rewrite Hs.
  - vm_compute. reflexivity.
Defined.

(** The ceiling of the scope is two: the third job is refused. *)
Lemma ledger_bounded_witness :
  size (open_of "user:alice" (bl_Reservations (q_budget w1))) = 2%nat ∧
  Z.of_nat (size (open_of "user:alice" (bl_Reservations (q_budget w1)))) ≤ 2 ∧
  (Enqueue (job "c" "k-c" "more" false) w1).1 = Err HFull.
Proof.
  destruct (ledger_bounded w1 w1_reachable (q_budget w1) (or_introl eq_refl) "user:alice") as (_ & _ & Hmax).
  destruct (Hmax ltac:(split; reflexivity)) as [Hle _]. refine (conj _ (conj Hle _)); vm_compute; reflexivity.
Defined.

(** The same key under another id is a duplicate, and with another text a conflict. *)
Lemma enqueue_once_witness :
  (Enqueue (job "other" "k-a" "hello" false) w1).1 = Ok false ∧
  (Enqueue (job "other" "k-a" "goodbye" false) w1).1 = Err HConflict ∧
  q_jobs (Enqueue (job "other" "k-a" "hello" false) w1).2 = q_jobs w1.
Proof.
  split; [vm_compute; reflexivity|]. split; [vm_compute; reflexivity|].
  destruct (q_maps w1 !! "a") as [[m|]|] eqn:Hm; [|exfalso; revert Hm; vm_compute; discriminate..].
  refine (proj1 (enqueue_once w1 (job "other" "k-a" "hello" false) "a" m _ _ w1_reachable Hm _ _ (surjective_pairing _))).
  - assert (Hk : (q_maps w1 !! "a") ≫= (λ r, r ≫= λ m, Some (b_IdempotencyKey (m_Binding m))) = Some "k-a") by (vm_compute; reflexivity).
    rewrite Hm in Hk. cbn [mbind option_bind] in Hk. by injection Hk.
  - vm_compute. discriminate.
Defined.

Lemma claim_job_witness :
  (ClaimJob w1).1 = Ok (Some (job "a" "k-a" "hello" false)) ∧ claimed w1 (job "a" "k-a" "hello" false) (ClaimJob w1).2 ∧
  (ClaimJob w2).1 = Ok None ∧ waits w2 (with_text "" "f1" (job "b" "k-b" "" true)).
Proof.
  assert (Hr : (ClaimJob w1).1 = Ok (Some (job "a" "k-a" "hello" false))) by (vm_compute; reflexivity).
  pose proof (claim_job w1 (ClaimJob w1).1 (ClaimJob w1).2 w1_reachable (surjective_pairing _)) as Hc. rewrite Hr in Hc.
  refine (conj Hr (conj Hc (conj _ _))); [vm_compute; reflexivity|]. left. exists "a". split; [discriminate|]. vm_compute. reflexivity.
Defined.

(** The first job was running without a run when the process ended; the second one waits. *)
Lemma restart_settles_witness :
  (NewSpool w2).1 = Ok tt ∧ where_is "a" w3 = ["failed"] ∧ says "a" w3 = Some "uncertain" ∧ where_is "b" w3 = ["pending"] ∧
  ∀ n, q_jobs w3 !! ("running", n) = None.
Proof.
  assert (Hr : (NewSpool w2).1 = Ok tt) by (vm_compute; reflexivity).
  assert (Hx : NewSpool w2 = (Ok tt, w3)) by (rewrite <- Hr; apply surjective_pairing).
  destruct (restart_settles w2 w3 w2_reachable Hx) as (_ & Hrun & _).
  refine (conj Hr (conj _ (conj _ (conj _ Hrun)))); vm_compute; reflexivity.
Defined.

(** ** Two runs *)

(** A running job whose id is no file name keeps the spool from opening. *)
Example hashed_id_run :
  let w := run [OEnqueue (job "x/1" "k-x" "hello" false); OClaim] w0 in
  where_is "id-ff1" w = ["running"] ∧ (NewSpool w).1 = Err HCorrupt.
Proof. vm_compute. done. Qed.

(** A host whose call number [k] fails. *)
Definition flaky (k : nat) : RoutineDeps := {|
host_ok := λ n, negb (n =? k)%nat;
clock_now := λ _, 0;
LoadLocation := λ _, None;
channelFor := λ _, None;
RouteBlockedNotice := λ _ d, d;
Schedules.normalizeDelivery := λ d, Some d;
Schedules.EnqueueDelivery := λ _, true;
LoadMapping := λ _, NoMapping;
blocked_text := λ _ id _, id;
|}.

(** The write of the job file fails after the ledger was saved; the retry releases the
    reservation, finds it and admits the job without an open one. *)
Example unpriced_retry :
  let enqueue := @Enqueue texts (flaky 8) queue (job "a" "k-a" "hello" false) in
  let failed := enqueue w0 in
  let again := enqueue failed.2 in
  failed.1 = Err HIO ∧ again.1 = Ok true ∧ where_is "a" again.2 = ["pending"] ∧
  rv_State <$> bl_Reservations (q_budget again.2) !! "a" = Some "released" ∧
  sc_PendingJobs <$> bl_Scopes (q_budget again.2) !! "user:alice" = Some 0.
Proof. vm_compute. done. Qed.
End SpoolExample.
