(* ===== verification/Tasks.v ===== *)
(** The tasks of a chat (communication/tasks.go, commodel/task.go): conversations an owner
    names, binds to topics, switches between, archives and deletes.

    A task is a file under the hash of its owner and id; the current task of a chat and the
    task of a topic are pointer files under hashes of their own.  All are part of the tree of
    the job queue, and every call on them can fail. *)
From stdpp Require Import base gmap strings list pretty sorting.
From Stdlib Require Import Ascii String.
From S2P Require Import Prelude GoStrings BrokerIdentity Contract Calendar Cron RoutineTypes Timing Schedules SpoolTypes SpoolQueue.
Local Open Scope string_scope.
Local Open Scope Z_scope.

(** The user of a message, as far as tasks ask. *)
Record User := mkUser { us_ID : string; us_TelegramIDs : list Z; us_WorkspaceDir : string }.

(** Random task ids, the name of an unnamed task and [sort.Slice], which is not stable. *)
Class TaskWorld := {
  task_random : nat → string;
  auto_name : string → Z → string;
  sort_tasks : list Task → list Task;
  sort_tasks_perm : ∀ l, sort_tasks l ≡ₚ l;
}.

(** * Names and records *)

(** [validTaskName] *)
Definition taskNameLimit : Z := 64.
Definition taskStyleLimit : Z := 1024.
Definition control_char (c : ascii) : bool := in_range c 0 31 || in_range c 127 127.
Definition validTaskName (name : string) : bool :=
  negb ((name == "") || (taskNameLimit <? len name) || negb (utf8_valid name)) && str_forallb (λ c, negb (control_char c)) name.

(** [strings.ReplaceAll(text, "\r\n", "\n")] *)
Fixpoint unix_lines (s : string) : string :=
  match s with
  | EmptyString => EmptyString
  | String c s' =>
      match s' with
      | String d s'' => if is_char CR c && is_char LF d then String LF (unix_lines s'') else String c (unix_lines s')
      | EmptyString => s
      end
  end.

Definition TAB : ascii := ascii_of_nat 9.

(** [cleanTaskStyle] *)
Definition cleanTaskStyle (text : string) : option string :=
  let text := TrimSpace (unix_lines text) in
  if (text == "") || (taskStyleLimit <? len text) || negb (utf8_valid text) then None
  else if str_forallb (λ c, negb (control_char c) || is_char LF c || is_char TAB c) text then Some text else None.

(** [taskConversation] *)
Definition taskConversation (chatID : Z) (taskID : string) : string :=
  let base := "telegram-" ++ pretty chatID in
  if (taskID == "") || (taskID == defaultTaskID) then base else base ++ "-" ++ taskID.

(** [taskPeer] *)
Definition taskPeer (user : User) (chatID : Z) : string :=
  "telegram-" ++ pretty (match us_TelegramIDs user with id :: _ => id | [] => chatID end).

(** [defaultTask] *)
Definition defaultTask (user : User) (chatID : Z) : Task :=
  mkTask 1 defaultTaskID "default" (us_ID user) (us_ID user) "telegram_bot" "" chatID 0 (taskConversation chatID defaultTaskID) "" 0 false false
    zero_time zero_time.

Definition new_task (user : User) (taskID name : string) (auto : bool) (chatID topicID now : Z) : Task :=
  mkTask 1 taskID name (us_ID user) (us_ID user) "telegram_bot" (taskPeer user chatID) chatID topicID (taskConversation chatID taskID) "" 0
    false auto now now.

(** Updates of a task. *)
Definition with_name (name : string) (t : Task) : Task :=
  mkTask (tk_Schema t) (tk_TaskID t) name (tk_PrincipalID t) (tk_ContextID t) (tk_Channel t) (tk_Peer t) (tk_ChatID t) (tk_TopicID t)
    (tk_ConversationID t) (tk_Style t) (tk_StyleVersion t) (tk_Archived t) false (tk_CreatedAt t) (tk_UpdatedAt t).
Definition with_topic (topic : Z) (t : Task) : Task :=
  mkTask (tk_Schema t) (tk_TaskID t) (tk_Name t) (tk_PrincipalID t) (tk_ContextID t) (tk_Channel t) (tk_Peer t) (tk_ChatID t) topic
    (tk_ConversationID t) (tk_Style t) (tk_StyleVersion t) (tk_Archived t) (tk_NameAuto t) (tk_CreatedAt t) (tk_UpdatedAt t).
Definition with_archived (b : bool) (t : Task) : Task :=
  mkTask (tk_Schema t) (tk_TaskID t) (tk_Name t) (tk_PrincipalID t) (tk_ContextID t) (tk_Channel t) (tk_Peer t) (tk_ChatID t) (tk_TopicID t)
    (tk_ConversationID t) (tk_Style t) (tk_StyleVersion t) b (tk_NameAuto t) (tk_CreatedAt t) (tk_UpdatedAt t).
Definition with_style (style : string) (version : Z) (t : Task) : Task :=
  mkTask (tk_Schema t) (tk_TaskID t) (tk_Name t) (tk_PrincipalID t) (tk_ContextID t) (tk_Channel t) (tk_Peer t) (tk_ChatID t) (tk_TopicID t)
    (tk_ConversationID t) style version (tk_Archived t) (tk_NameAuto t) (tk_CreatedAt t) (tk_UpdatedAt t).
Definition with_updated (now : Z) (t : Task) : Task :=
  mkTask (tk_Schema t) (tk_TaskID t) (tk_Name t) (tk_PrincipalID t) (tk_ContextID t) (tk_Channel t) (tk_Peer t) (tk_ChatID t) (tk_TopicID t)
    (tk_ConversationID t) (tk_Style t) (tk_StyleVersion t) (tk_Archived t) (tk_NameAuto t) (tk_CreatedAt t) now.

Section Tasks.
Context `{RoutineWorld} `{TimeText} `{RoutineDeps} `{Unicode} `{QueueWorld} `{TaskWorld}.
Abbreviation Q := (M Hub HErr).

(** * Files *)

(** [currentTaskPath] and [topicTaskPath] *)
Definition current_name (principal : string) (chatID : Z) : string := r_sha256_hex (principal ++ NULs ++ pretty chatID).
Definition topic_name (principal : string) (chatID topicID : Z) : string :=
  r_sha256_hex (principal ++ NULs ++ pretty chatID ++ NULs ++ pretty topicID).

Definition put_task (n : string) (t : Task) (w : Hub) : Hub :=
  let f := q_tasks w in set_tasks (mkTaskFiles (<[n := Some t]> (tf_tasks f)) (tf_current f) (tf_topics f)) w.
Definition drop_task (n : string) (w : Hub) : Hub :=
  let f := q_tasks w in set_tasks (mkTaskFiles (delete n (tf_tasks f)) (tf_current f) (tf_topics f)) w.
Definition put_current (n id : string) (w : Hub) : Hub :=
  let f := q_tasks w in set_tasks (mkTaskFiles (tf_tasks f) (<[n := Some id]> (tf_current f)) (tf_topics f)) w.
Definition drop_current (n : string) (w : Hub) : Hub :=
  let f := q_tasks w in set_tasks (mkTaskFiles (tf_tasks f) (delete n (tf_current f)) (tf_topics f)) w.
Definition put_topic (n id : string) (w : Hub) : Hub :=
  let f := q_tasks w in set_tasks (mkTaskFiles (tf_tasks f) (tf_current f) (<[n := Some id]> (tf_topics f))) w.
Definition drop_topic (n : string) (w : Hub) : Hub :=
  let f := q_tasks w in set_tasks (mkTaskFiles (tf_tasks f) (tf_current f) (delete n (tf_topics f))) w.

(** [os.Remove], where a file that is not there is no error. *)
Definition remove_file (f : Hub → Hub) : Q unit := hcall ;; modify f.

Definition writeTaskLocked (t : Task) : Q unit :=
  now ← hnow; hwrite (put_task (task_name (tk_PrincipalID t) (tk_TaskID t)) (with_updated now t)).

(** [currentTaskLocked] and [topicTaskLocked]: the id, empty when there is none. *)
Definition pointer (look : Hub → option (option string)) : Q string :=
  r ← hread look;
  match r with None => mret "" | Some p => some_or p HCorrupt end.
Definition currentTaskLocked (principal : string) (chatID : Z) : Q string :=
  pointer (λ w, tf_current (q_tasks w) !! current_name principal chatID).
Definition topicTaskLocked (principal : string) (chatID topicID : Z) : Q string :=
  pointer (λ w, tf_topics (q_tasks w) !! topic_name principal chatID topicID).

(** [materializeTaskLocked] *)
Definition materializeTaskLocked (t : Task) : Q unit :=
  writeTaskLocked t ;;
  if tk_TopicID t =? 0 then mret tt
  else hwrite (put_topic (topic_name (tk_PrincipalID t) (tk_ChatID t) (tk_TopicID t)) (tk_TaskID t)).

(** [setCurrentLocked]: the pointer of the chat the task belongs to. *)
Definition setCurrentLocked (t : Task) : Q unit :=
  hwrite (put_current (current_name (tk_PrincipalID t) (tk_ChatID t)) (tk_TaskID t)).

Definition newTaskID : Q string := w ← get; mret ("t-" ++ task_random (sp_calls (h_rt w))).

(** [listTasksLocked] *)
Definition listTasksLocked (principal : string) : Q (list Task) :=
  hcall ;; w ← get;
  ts ← for_fold (names_of (tf_tasks (q_tasks w))) []
         (λ acc n,
            r ← hread (λ w, tf_tasks (q_tasks w) !! n);
            r ← some_or r HNotExist;
            mret (match r with
                  | Some t => if (tk_TaskID t == "") || (tk_PrincipalID t != principal) then acc else (acc ++ [t])%list
                  | None => acc
                  end));
  mret (sort_tasks ts).

(** * Finding a task *)

(** A live task by id; [None] when there is none or it is archived. *)
Definition live_task (principal taskID : string) : Q (option Task) :=
  t ← try (loadTaskLocked principal taskID);
  match t with
  | Ok t => mret (if tk_Archived t then None else Some t)
  | Err HNotExist => mret None
  | Err e => mthrow_err e
  end.

(** The current task of a chat, or its default. *)
Definition follow_current (user : User) (chatID : Z) : Q Task :=
  id ← currentTaskLocked (us_ID user) chatID;
  t ← if id == "" then mret None else live_task (us_ID user) id;
  mret (default (defaultTask user chatID) t).

(** [ResolveTask] *)
Definition ResolveTask (user : User) (chatID topicID : Z) (adoptTopic : bool) : Q Task :=
  if topicID =? 0 then follow_current user chatID
  else
    id ← topicTaskLocked (us_ID user) chatID topicID;
    t ← if id == "" then mret None else live_task (us_ID user) id;
    match t with
    | Some t => mret t
    | None =>
        if negb adoptTopic then follow_current user chatID
        else
          now ← hnow;
          id ← newTaskID;
          let t := new_task user id ("topic-" ++ pretty topicID) false chatID topicID now in
          materializeTaskLocked t ;;
          setCurrentLocked t ;;
          mret t
    end.

(** [taskByIDLocked] *)
Definition taskByIDLocked (user : User) (chatID : Z) (taskID : string) : Q Task :=
  if (taskID == "") || (taskID == defaultTaskID) then
    t ← live_task (us_ID user) defaultTaskID;
    mret (default (defaultTask user chatID) t)
  else
    t ← loadTaskLocked (us_ID user) taskID;
    fail_if (tk_Archived t) HStale ;;
    mret t.

(** The only one of a list. *)
Definition the_only (ts : list Task) : Q Task :=
  match ts with [t] => mret t | [] => mthrow_err HRefused | _ => mthrow_err HConflict end.

(** [findTaskLocked] *)
Definition findTaskLocked (user : User) (chatID : Z) (selector : string) : Q Task :=
  if (selector == defaultTaskID) || (selector == "") then taskByIDLocked user chatID defaultTaskID
  else
    t ← try (loadTaskLocked (us_ID user) selector);
    match match t with Ok t => if tk_Archived t then None else Some t | Err _ => None end with
    | Some t => mret t
    | None =>
        ts ← listTasksLocked (us_ID user);
        the_only (List.filter (λ t, negb (tk_Archived t) && (tk_Name t == selector)) ts)
    end.

(** [ListTasks] and [ListArchivedTasks] *)
Definition ListTasks (user : User) (chatID : Z) : Q (list Task) :=
  ts ← listTasksLocked (us_ID user);
  let out := List.filter (λ t, negb (tk_Archived t)) ts in
  mret (if existsb (λ t, tk_TaskID t == defaultTaskID) ts then out else defaultTask user chatID :: out).
Definition ListArchivedTasks (user : User) : Q (list Task) :=
  ts ← listTasksLocked (us_ID user);
  mret (List.filter tk_Archived ts).

(** [taskByConversationLocked] *)
Definition taskByConversationLocked (user : User) (chatID : Z) (conversationID : string) : Q Task :=
  ts ← try (listTasksLocked (us_ID user));
  mret (match ts with
        | Ok ts => default (defaultTask user chatID) (List.find (λ t, negb (tk_Archived t) && (tk_ConversationID t == conversationID)) ts)
        | Err _ => defaultTask user chatID
        end).

(** [taskForMutationLocked] *)
Definition taskForMutationLocked (user : User) (chatID : Z) (taskID : string) : Q Task :=
  t ← taskByIDLocked user chatID taskID;
  fail_if (negb (tk_ChatID t =? chatID)) HOwner ;;
  mret t.

(** * Changing tasks *)

(** A fresh id: the first of eight that is not taken, or the last. *)
Fixpoint fresh_id (fuel : nat) (principal last : string) : Q string :=
  match fuel with
  | O => mret last
  | S fuel =>
      id ← newTaskID;
      t ← try (loadTaskLocked principal id);
      match t with
      | Err HNotExist => mret id
      | Err e => mthrow_err e
      | Ok _ => fresh_id fuel principal id
      end
  end.

(** A topic of a new task must be free or that of an archived one. *)
Definition topic_free (principal : string) (chatID topicID : Z) : Q unit :=
  if topicID =? 0 then mret tt
  else
    bound ← topicTaskLocked principal chatID topicID;
    if bound == "" then mret tt
    else
      t ← try (loadTaskLocked principal bound);
      fail_if (match t with Ok t => negb (tk_Archived t) | Err _ => false end) HConflict.

(** [CreateTask]: the task and whether it is new. *)
Definition CreateTask (user : User) (chatID topicID : Z) (name : string) (makeCurrent : bool) : Q (Task * bool) :=
  let name := TrimSpace name in
  let auto := name == "" in
  now ← hnow;
  let name := if auto then auto_name (us_WorkspaceDir user) now else name in
  fail_if (negb (validTaskName name)) HRefused ;;
  ts ← listTasksLocked (us_ID user);
  match List.find (λ t, negb (tk_Archived t) && (tk_TaskID t != defaultTaskID) && (tk_Name t == name)) ts with
  | Some t => (if makeCurrent then setCurrentLocked t else mret tt) ;; mret (t, false)
  | None =>
      now ← hnow;
      id ← fresh_id 8 (us_ID user) "";
      topic_free (us_ID user) chatID topicID ;;
      let t := new_task user id name auto chatID topicID now in
      materializeTaskLocked t ;;
      (if makeCurrent then setCurrentLocked t else mret tt) ;;
      mret (t, true)
  end.

(** [UseTask] *)
Definition UseTask (user : User) (chatID : Z) (selector : string) : Q Task :=
  t ← findTaskLocked user chatID selector;
  setCurrentLocked t ;;
  mret t.

(** [RenameTask] *)
Definition RenameTask (user : User) (chatID : Z) (taskID name : string) : Q Task :=
  let name := TrimSpace name in
  fail_if (negb (validTaskName name)) HRefused ;;
  t ← taskForMutationLocked user chatID taskID;
  let t := with_name name t in
  materializeTaskLocked t ;;
  mret t.

(** [RebindTaskTopic] *)
Definition RebindTaskTopic (user : User) (chatID : Z) (taskID : string) (newTopic : Z) : Q unit :=
  fail_if (newTopic =? 0) HRefused ;;
  t ← taskForMutationLocked user chatID taskID;
  bound ← topicTaskLocked (us_ID user) chatID newTopic;
  fail_if ((bound != "") && (bound != taskID)) HConflict ;;
  (if negb (tk_TopicID t =? 0) && negb (tk_TopicID t =? newTopic)
   then remove_file (drop_topic (topic_name (us_ID user) chatID (tk_TopicID t))) else mret tt) ;;
  materializeTaskLocked (with_topic newTopic t).

(** [RenameTopicTask] and [FixTopicPlaceholder]: the name of a topic becomes that of its task
    when [accept] allows it. *)
Definition rename_bound (user : User) (chatID topicID : Z) (name : string) (accept : Task → bool) : Q unit :=
  let name := TrimSpace name in
  if (topicID =? 0) || negb (validTaskName name) then mret tt
  else
    id ← topicTaskLocked (us_ID user) chatID topicID;
    if id == "" then mret tt
    else
      t ← try (loadTaskLocked (us_ID user) id);
      match t with
      | Err HNotExist => mret tt
      | Err e => mthrow_err e
      | Ok t => if tk_Archived t || negb (accept t) then mret tt else writeTaskLocked (with_name name t)
      end.
Definition RenameTopicTask (user : User) (chatID topicID : Z) (name : string) : Q unit :=
  rename_bound user chatID topicID name (λ t, tk_Name t != TrimSpace name).
Definition FixTopicPlaceholder (user : User) (chatID topicID : Z) (name : string) : Q unit :=
  rename_bound user chatID topicID name (λ t, tk_Name t == "topic-" ++ pretty topicID).

(** The pointers of a task that is retired. *)
Definition release_topic (user : User) (chatID : Z) (t : Task) : Q unit :=
  if tk_TopicID t =? 0 then mret tt else remove_file (drop_topic (topic_name (us_ID user) chatID (tk_TopicID t))).
Definition release_current (user : User) (chatID : Z) (t : Task) : Q unit :=
  current ← currentTaskLocked (us_ID user) chatID;
  if current == tk_TaskID t then remove_file (drop_current (current_name (us_ID user) chatID)) else mret tt.

(** [ArchiveTask] *)
Definition ArchiveTask (user : User) (chatID : Z) (taskID : string) : Q Task :=
  t ← taskForMutationLocked user chatID taskID;
  fail_if (tk_TaskID t == defaultTaskID) HRefused ;;
  let t := with_archived true t in
  writeTaskLocked t ;;
  release_topic user chatID t ;;
  release_current user chatID t ;;
  mret t.

(** [deleteTaskLocked] *)
Definition deleteTaskLocked (user : User) (chatID : Z) (t : Task) : Q Task :=
  fail_if (negb (tk_ChatID t =? chatID)) HOwner ;;
  fail_if (tk_TaskID t == defaultTaskID) HRefused ;;
  release_topic user chatID t ;;
  release_current user chatID t ;;
  remove_file (drop_task (task_name (us_ID user) (tk_TaskID t))) ;;
  mret t.

(** [DeleteTask] *)
Definition DeleteTask (user : User) (chatID : Z) (taskID : string) : Q Task :=
  t ← try (loadTaskLocked (us_ID user) taskID);
  match t with Ok t => deleteTaskLocked user chatID t | Err _ => mthrow_err HRefused end.

(** [DeleteTaskBySelector] *)
Definition DeleteTaskBySelector (user : User) (chatID : Z) (selector : string) : Q Task :=
  let selector := TrimSpace selector in
  fail_if (selector == "") HRefused ;;
  t ← try (findTaskLocked user chatID selector);
  match t with
  | Ok t => deleteTaskLocked user chatID t
  | Err _ =>
      ts ← listTasksLocked (us_ID user);
      t ← the_only (List.filter (λ t, tk_Archived t && ((tk_TaskID t == selector) || (tk_Name t == selector))) ts);
      deleteTaskLocked user chatID t
  end.

(** [UnarchiveTask]: the task and whether it got its topic back. *)
Definition UnarchiveTask (user : User) (chatID : Z) (selector : string) : Q (Task * bool) :=
  t ← try (loadTaskLocked (us_ID user) selector);
  t ← match match t with Ok t => if tk_Archived t then Some t else None | Err _ => None end with
      | Some t => mret t
      | None =>
          ts ← listTasksLocked (us_ID user);
          the_only (List.filter (λ t, tk_Archived t && (tk_Name t == selector)) ts)
      end;
  fail_if (negb (tk_ChatID t =? chatID)) HOwner ;;
  t ← if tk_TopicID t =? 0 then mret t
      else
        bound ← topicTaskLocked (us_ID user) chatID (tk_TopicID t);
        mret (if (bound != "") && (bound != tk_TaskID t) then with_topic 0 t else t);
  let t := with_archived false t in
  materializeTaskLocked t ;;
  setCurrentLocked t ;;
  mret (t, negb (tk_TopicID t =? 0)).

(** [AutoTitleTask] *)
Definition AutoTitleTask (principal taskID title : string) : Q bool :=
  let title := TrimSpace title in
  if negb (validTaskName title) || (taskID == "") || (taskID == defaultTaskID) then mret false
  else
    t ← try (loadTaskLocked principal taskID);
    match t with
    | Ok t =>
        if tk_Archived t || negb (tk_NameAuto t) then mret false
        else r ← try (writeTaskLocked (with_name title t)); mret (match r with Ok _ => true | Err _ => false end)
    | Err _ => mret false
    end.

(** [TaskNameAuto] *)
Definition TaskNameAuto (principal taskID : string) : Q bool :=
  if (taskID == "") || (taskID == defaultTaskID) then mret false
  else
    t ← try (loadTaskLocked principal taskID);
    mret (match t with Ok t => tk_NameAuto t && negb (tk_Archived t) | Err _ => false end).

(** [SetTaskStyle] *)
Definition SetTaskStyle (user : User) (chatID : Z) (taskID style : string) : Q Task :=
  style ← if style == "" then mret "" else some_or (cleanTaskStyle style) HRefused;
  t ← taskForMutationLocked user chatID taskID;
  let t := with_style style (u64 (tk_StyleVersion t + 1)) t in
  materializeTaskLocked t ;;
  mret t.
End Tasks.
