(* ===== verification/TasksProps.v ===== *)
(** What the tasks of a chat promise: records that say whose they are, conversations that no
    two tasks share, and owners that cannot touch each other's tasks. *)
From stdpp Require Import base gmap strings list pretty sorting relations.
From Stdlib Require Import Ascii String.
From S2P Require Import Prelude GoStrings BrokerIdentity Contract Calendar Cron RoutineTypes Timing Schedules SpoolTypes SpoolQueue SpoolWork SpoolStream SpoolFrame SpoolSpec SpoolRefine SpoolOps Tasks.
Local Open Scope string_scope.
Local Open Scope Z_scope.

Create HintDb tasks.
Create HintDb acts.

(** * Conversations *)

(** What follows a number in the name of a conversation. *)
Definition suffix (s : string) : Prop := s = "" ∨ ∃ s', s = String "-" s'.

Lemma digits_split a b x y :
  str_forallb is_digit a = true → str_forallb is_digit b = true → suffix x → suffix y → a ++ x = b ++ y → a = b ∧ x = y.
Proof.
  revert b. induction a as [|c a IH]; intros [|d b] Ha Hb Hx Hy Heq; simpl in *.
  - done.
  - destruct Hx as [->|(x' & ->)]; [done|]. injection Heq as <- _. done.
  - destruct Hy as [->|(y' & ->)]; [done|]. injection Heq as -> _. done.
  - apply andb_true_iff in Ha as [_ Ha], Hb as [_ Hb]. injection Heq as <- Heq. destruct (IH b Ha Hb Hx Hy Heq) as [-> ->]. done.
Qed.

Lemma digits_value_digits v s r : digits_value v s = Some r → str_forallb is_digit s = true.
Proof.
  revert v. induction s as [|c s IH]; intros v; simpl; [done|]. destruct (is_digit c); [|done]. apply IH.
Qed.

Lemma pretty_N_digits (n : N) : str_forallb is_digit (pretty n) = true.
Proof. eapply digits_value_digits, digits_value_pretty. Qed.

Lemma pretty_Z_shape (z : Z) : ∃ sg ds, pretty z = sg ++ ds ∧ (sg = "" ∨ sg = "-") ∧ str_forallb is_digit ds = true ∧ ds ≠ "".
Proof.
  assert (Hne : ∀ n : N, pretty n ≠ "").
  { intros n He. pose proof (digits_value_pretty n) as Hv. rewrite He in Hv. injection Hv as Hv. assert (n = 0%N) as -> by lia. done. }
  destruct z as [|p|p].
  - exists "", "0". by auto.
  - exists "", (pretty (Npos p)). split_and!; [done|by left|apply pretty_N_digits|apply Hne].
  - exists "-", (pretty (Npos p)). split_and!; [done|by right|apply pretty_N_digits|apply Hne].
Qed.

Lemma pretty_Z_split (c c' : Z) x y : suffix x → suffix y → pretty c ++ x = pretty c' ++ y → c = c' ∧ x = y.
Proof.
  intros Hx Hy Heq. assert (Hinj : ∀ z z' : Z, pretty z = pretty z' → z = z') by (intros z z'; apply (inj pretty)).
  cut (pretty c = pretty c' ∧ x = y); [intros [?%Hinj ?]; done|].
  destruct (pretty_Z_shape c) as (sg & ds & E & Hsg & Hd & Hne), (pretty_Z_shape c') as (sg' & ds' & E' & Hsg' & Hd' & Hne').
  rewrite E, E' in *. rewrite !append_assoc in Heq. destruct ds as [|d ds]; [done|]. destruct ds' as [|d' ds']; [done|].
  destruct Hsg as [->| ->], Hsg' as [->| ->]; simpl in *.
  - by destruct (digits_split (String d ds) (String d' ds') x y Hd Hd' Hx Hy Heq) as [-> ->].
  - injection Heq as -> _. done.
  - injection Heq as <- _. done.
  - injection Heq as Hdd Heq. destruct (digits_split (String d ds) (String d' ds') x y Hd Hd' Hx Hy) as [Hds ->]; [exact (f_equal2 String Hdd Heq)|].
    by rewrite Hds.
Qed.

(** The name of a conversation says which chat and which task it is. *)
Lemma taskConversation_inj c c' id id' :
  id ≠ "" → id' ≠ "" → taskConversation c id = taskConversation c' id' → c = c' ∧ id = id'.
Proof.
  intros Hn Hn' Heq. unfold taskConversation in Heq. rewrite !(bool_decide_eq_false_2 (_ = "")) in Heq by done. simpl in Heq.
  set (sfx := λ i, if i == defaultTaskID then "" else "-" ++ i).
  assert (Hform : ∀ (ch : Z) i, (if i == defaultTaskID then "telegram-" ++ pretty ch else ("telegram-" ++ pretty ch) ++ "-" ++ i)
    = "telegram-" ++ (pretty ch ++ sfx i)).
  { clear Heq. intros ch i. unfold sfx. case_bool_decide; [by rewrite append_empty_r|by rewrite append_assoc]. }
  rewrite !Hform in Heq. apply append_inj_l in Heq.
  assert (Hsfx : ∀ i, suffix (sfx i)) by (clear Heq; intros i; unfold sfx; case_bool_decide; [by left|right; by exists i]).
  destruct (pretty_Z_split c c' _ _ (Hsfx id) (Hsfx id') Heq) as [-> Hs]. split; [done|]. unfold sfx in Hs.
  clear Heq Hform Hsfx. do 2 case_bool_decide; [congruence|discriminate Hs|discriminate Hs|by injection Hs].
Qed.

Section Moves.
Context `{RoutineWorld} `{TimeText} `{RoutineDeps} `{Unicode} `{QueueWorld} `{TaskWorld}.
Abbreviation Q := (M Hub HErr).

(** * Well-formed files *)

Record task_ok (t : Task) : Prop := {
  to_conversation : tk_ConversationID t = taskConversation (tk_ChatID t) (tk_TaskID t);
  to_context : tk_ContextID t = tk_PrincipalID t;
  to_id : tk_TaskID t ≠ "";
  to_default : tk_TaskID t = defaultTaskID → tk_Archived t = false;
  to_style : len (tk_Style t) ≤ taskStyleLimit;
}.

Definition pointers_ok (m : gmap string (option string)) : Prop := ∀ n p, m !! n = Some p → ∃ id, p = Some id ∧ id ≠ "".

Record files_ok (f : TaskFiles) : Prop := {
  fo_tasks : ∀ n b, tf_tasks f !! n = Some b → ∃ t, b = Some t ∧ task_ok t ∧ n = task_name (tk_PrincipalID t) (tk_TaskID t);
  fo_current : pointers_ok (tf_current f);
  fo_topics : pointers_ok (tf_topics f);
}.

(** What an owner may do to the files. *)
Inductive tmove (u : string) (f : TaskFiles) : TaskFiles → Prop :=
  | tm_put t : tk_PrincipalID t = u → task_ok t →
      tmove u f (mkTaskFiles (<[task_name u (tk_TaskID t) := Some t]> (tf_tasks f)) (tf_current f) (tf_topics f))
  | tm_drop id : tmove u f (mkTaskFiles (delete (task_name u id) (tf_tasks f)) (tf_current f) (tf_topics f))
  | tm_put_current chat id : id ≠ "" →
      tmove u f (mkTaskFiles (tf_tasks f) (<[current_name u chat := Some id]> (tf_current f)) (tf_topics f))
  | tm_drop_current chat : tmove u f (mkTaskFiles (tf_tasks f) (delete (current_name u chat) (tf_current f)) (tf_topics f))
  | tm_put_topic chat topic id : id ≠ "" →
      tmove u f (mkTaskFiles (tf_tasks f) (tf_current f) (<[topic_name u chat topic := Some id]> (tf_topics f)))
  | tm_drop_topic chat topic : tmove u f (mkTaskFiles (tf_tasks f) (tf_current f) (delete (topic_name u chat topic) (tf_topics f))).

Lemma pointers_ok_insert m n id : id ≠ "" → pointers_ok m → pointers_ok (<[n := Some id]> m).
Proof. intros Hid Hm k p. rewrite lookup_insert_Some. intros [[_ <-]|[_ Hp]]; [by exists id|by eapply Hm]. Qed.

Lemma pointers_ok_delete m n : pointers_ok m → pointers_ok (delete n m).
Proof. intros Hm k p. rewrite lookup_delete_Some. intros [_ Hp]. by eapply Hm. Qed.

Lemma files_ok_none : files_ok no_tasks.
Proof. split; by intros ? ?. Qed.

Lemma files_ok_move u f f' : files_ok f → tmove u f f' → files_ok f'.
Proof.
  intros [Ht Hc Hp] []; split; simpl; auto using pointers_ok_insert, pointers_ok_delete.
  - intros n b. rewrite lookup_insert_Some. intros [[<- <-]|[_ Hb]]; [|by apply Ht]. exists t. by subst u.
  - intros n b. rewrite lookup_delete_Some. intros [_ Hb]. by apply Ht.
Qed.

Lemma files_ok_moves u f f' : files_ok f → rtc (tmove u) f f' → files_ok f'.
Proof. intros Hf Hm. induction Hm; eauto using files_ok_move. Qed.

(** * What an operation of an owner does *)

(** Nothing but the task files and the count of file calls. *)
Definition only_tasks (w w' : Hub) : Prop := ∃ n, w' = set_tasks (q_tasks w') (set_rt (Nat.iter n tick_call (h_rt w)) w).

(** From well-formed files the operation moves as [u] may, touches nothing else, and what it
    returns satisfies [P]. *)
Definition acts (u : string) {A} (P : A → Prop) (m : Q A) : Prop := ∀ w, files_ok (q_tasks w) →
  wp m (λ r w', rtc (tmove u) (q_tasks w) (q_tasks w') ∧ only_tasks w w' ∧ match r with Ok a => P a | Err _ => True end) w.

Lemma only_refl w : only_tasks w w.
Proof. exists 0%nat. by destruct w. Qed.

Lemma iter_iter {A} (f : A → A) n k x : Nat.iter n f (Nat.iter k f x) = Nat.iter (n + k) f x.
Proof. induction n; simpl; congruence. Qed.

Lemma only_trans w1 w2 w3 : only_tasks w1 w2 → only_tasks w2 w3 → only_tasks w1 w3.
Proof. intros [n Hn] [k Hk]. exists (k + n)%nat. rewrite Hk, Hn. simpl. by rewrite iter_iter. Qed.

Lemma only_call w : only_tasks w (set_rt (tick_call (h_rt w)) w).
Proof. exists 1%nat. by destruct w. Qed.

Lemma ac_ret {A} u (P : A → Prop) a : P a → acts u P (mret a).
Proof. intros Ha w Hf. apply wp_ret. split_and!; [done|apply only_refl|done]. Qed.

Lemma ac_throw {A} u (P : A → Prop) e : acts u P (mthrow_err e).
Proof. intros w Hf. apply wp_throw. split_and!; [done|apply only_refl|done]. Qed.

Lemma ac_get u : acts u (λ _, True) (get : Q Hub).
Proof. intros w Hf. apply wp_get. split_and!; [done|apply only_refl|done]. Qed.

Lemma ac_fail_if u b e : acts u (λ _, b = false) (fail_if b e).
Proof. destruct b; [apply ac_throw|by apply ac_ret]. Qed.

Lemma ac_some_or {A} u (o : option A) e : acts u (λ a, o = Some a) (some_or o e).
Proof. destruct o; [by apply ac_ret|apply ac_throw]. Qed.

Lemma ac_weaken {A} u (P R : A → Prop) m : acts u P m → (∀ a, P a → R a) → acts u R m.
Proof. intros Hm Hr w Hf. eapply wp_mono; [by apply Hm|]. intros [a|e] w' (? & ? & ?); auto. Qed.

Lemma ac_bind {A B} u (P : A → Prop) (R : B → Prop) m f : acts u P m → (∀ a, P a → acts u R (f a)) → acts u R (m ≫= f).
Proof.
  intros Hm Hf w Hw. apply wp_bind. eapply wp_mono; [by apply Hm|]. intros [a|e] w1 (Hr1 & Ho1 & Ha); [|done].
  eapply wp_mono; [apply Hf; [done|by eapply files_ok_moves]|]. intros r w2 (Hr2 & Ho2 & Hr).
  split_and!; [by etrans|by eapply only_trans|done].
Qed.

Definition got {A} (P : A → Prop) (r : res HErr A) : Prop := match r with Ok a => P a | Err _ => True end.

Lemma ac_try {A} u (P : A → Prop) m : acts u P m → acts u (got P) (try m).
Proof. intros Hm w Hf. apply wp_try. eapply wp_mono; [by apply Hm|]. by intros [a|e] w' (? & ? & ?). Qed.

Lemma ac_for_fold {A B} u (I : B → Prop) (l : list A) acc body :
  I acc → (∀ a x, I a → acts u I (body a x)) → acts u I (for_fold l acc body).
Proof. revert acc. induction l as [|x l IH]; simpl; intros acc Ha Hb; [by apply ac_ret|]. eapply ac_bind; eauto. Qed.

Lemma ac_modify u (f : Hub → Hub) :
  (∀ w, tmove u (q_tasks w) (q_tasks (f w)) ∧ f w = set_tasks (q_tasks (f w)) w) → acts u (λ _, True) (modify f).
Proof.
  intros Hf w _. apply wp_modify. destruct (Hf w) as [Hm He]. split_and!; [by apply rtc_once| |done].
  exists 0%nat. rewrite He at 1. by destruct w.
Qed.

Lemma ac_hcall u : acts u (λ _, True) hcall.
Proof.
  intros w _. unfold wp, hcall, on_rt, call. by destruct (host_ok _); (split_and!; [done|apply only_call|]).
Qed.

Lemma ac_hnow u : acts u (λ _, True) hnow.
Proof. intros w _. unfold wp, hnow, on_rt, now_. split_and!; [done| |done]. exists 0%nat. by destruct w. Qed.

Lemma ac_hread {A} u (P : option A → Prop) look : (∀ w, files_ok (q_tasks w) → P (look w)) → acts u P (hread look).
Proof.
  intros Hl w Hf. unfold hread. apply wp_bind. unfold wp at 1, hcall, on_rt, call. destruct (host_ok _).
  - apply wp_bind, wp_get, wp_ret. split_and!; [done|apply only_call|by apply Hl].
  - split_and!; [done|apply only_call|done].
Qed.

Lemma ac_hwrite u (f : Hub → Hub) :
  (∀ w, tmove u (q_tasks w) (q_tasks (f w)) ∧ f w = set_tasks (q_tasks (f w)) w) → acts u (λ _, True) (hwrite f).
Proof.
  intros Hf. unfold hwrite. eapply ac_bind; [apply ac_hcall|]. intros _ _.
  eapply ac_bind; [by apply ac_modify|]. intros _ _. apply ac_hcall.
Qed.

(** * The operations *)

(** A task of the owner, as it may be stored. *)
Definition own (u : string) (t : Task) : Prop := tk_PrincipalID t = u ∧ task_ok t.

Lemma own_default user chat : own (us_ID user) (defaultTask user chat).
Proof. by split. Qed.

Lemma own_new user id name auto chat topic now : id ≠ "" → own (us_ID user) (new_task user id name auto chat topic now).
Proof. by split. Qed.

Lemma own_named u name t : own u t → own u (with_name name t).
Proof. by intros [? []]. Qed.

Lemma own_topic u topic t : own u t → own u (with_topic topic t).
Proof. by intros [? []]. Qed.

Lemma own_updated u now t : own u t → own u (with_updated now t).
Proof. by intros [? []]. Qed.

Lemma own_live u t : own u t → own u (with_archived false t).
Proof. by intros [? []]. Qed.

Lemma own_archived u t : own u t → (tk_TaskID t == defaultTaskID) = false → own u (with_archived true t).
Proof. intros [? []] Hd. apply bool_decide_eq_false in Hd. by repeat split. Qed.

Lemma own_styled u style version t : own u t → len style ≤ taskStyleLimit → own u (with_style style version t).
Proof. by intros [? []]. Qed.

Lemma clean_style_bound text style : cleanTaskStyle text = Some style → len style ≤ taskStyleLimit.
Proof.
  unfold cleanTaskStyle. cbv zeta. destruct (_ || _ || _) eqn:Hc; [done|]. rewrite !orb_false_iff in Hc. destruct Hc as [[_ Hl] _].
  destruct (str_forallb _ _); [|done]. intros [= <-]. apply Z.ltb_ge in Hl. done.
Qed.
#[local] Hint Resolve own_default own_new own_named own_topic own_updated own_live own_archived own_styled clean_style_bound : tasks.

Lemma ac_load u id : acts u (λ t, own u t ∧ tk_TaskID t = id) (loadTaskLocked u id).
Proof.
  unfold loadTaskLocked. eapply ac_bind; [apply (ac_hread u (λ b, ∀ t, b = Some (Some t) → task_ok t))|].
  { intros w Hf t Ht. destruct (fo_tasks _ Hf _ _ Ht) as (t' & [= <-] & Hok & _). done. }
  intros r Hr. eapply ac_bind; [apply ac_some_or|]. intros b Hb. eapply ac_bind; [apply ac_some_or|]. intros t Ht. cbv beta in *. subst b r.
  eapply ac_bind; [apply ac_fail_if|]. intros [] Hc. apply ac_ret. rewrite orb_false_iff, !negb_false_iff, !bool_decide_eq_true in Hc.
  destruct Hc as [Hid Hu]. split; [split; [done|by apply Hr]|done].
Qed.

Lemma ac_write u t : own u t → acts u (λ _, True) (writeTaskLocked t).
Proof.
  intros Ho. unfold writeTaskLocked. eapply ac_bind; [apply ac_hnow|]. intros now _. apply ac_hwrite. intros w. split; [|by destruct w].
  destruct (own_updated u now t Ho) as [Hu Hok]. destruct Ho as [<- _]. simpl. by apply (tm_put _ _ (with_updated now t)).
Qed.

Lemma ac_pointer u look : acts u (λ _, True) (pointer look).
Proof.
  unfold pointer. eapply ac_bind; [by apply (ac_hread u (λ _, True))|]. intros [p|] _; [|by apply ac_ret].
  eapply ac_weaken; [apply ac_some_or|done].
Qed.

Lemma ac_current u principal chat : acts u (λ _, True) (currentTaskLocked principal chat).
Proof. apply ac_pointer. Qed.

Lemma ac_topic u principal chat topic : acts u (λ _, True) (topicTaskLocked principal chat topic).
Proof. apply ac_pointer. Qed.

Lemma ac_set_current u t : own u t → acts u (λ _, True) (setCurrentLocked t).
Proof. intros [<- []]. apply ac_hwrite. intros w. split; [by apply tm_put_current|by destruct w]. Qed.

Lemma ac_materialize u t : own u t → acts u (λ _, True) (materializeTaskLocked t).
Proof.
  intros Ho. unfold materializeTaskLocked. eapply ac_bind; [by apply ac_write|]. intros _ _. case_match; [by apply ac_ret|].
  destruct Ho as [<- []]. apply ac_hwrite. intros w. split; [by apply tm_put_topic|by destruct w].
Qed.

Lemma ac_remove u f : (∀ w, tmove u (q_tasks w) (q_tasks (f w)) ∧ f w = set_tasks (q_tasks (f w)) w) → acts u (λ _, True) (remove_file f).
Proof. intros Hf. unfold remove_file. eapply ac_bind; [apply ac_hcall|]. intros _ _. by apply ac_modify. Qed.

Lemma ac_drop u id : acts u (λ _, True) (remove_file (drop_task (task_name u id))).
Proof. apply ac_remove. intros w. split; [by apply tm_drop|by destruct w]. Qed.

Lemma ac_drop_current u chat : acts u (λ _, True) (remove_file (drop_current (current_name u chat))).
Proof. apply ac_remove. intros w. split; [by apply tm_drop_current|by destruct w]. Qed.

Lemma ac_drop_topic u chat topic : acts u (λ _, True) (remove_file (drop_topic (topic_name u chat topic))).
Proof. apply ac_remove. intros w. split; [by apply tm_drop_topic|by destruct w]. Qed.

Lemma ac_new_id u : acts u (λ id, id ≠ "") newTaskID.
Proof. unfold newTaskID. eapply ac_bind; [apply ac_get|]. intros w _. by apply ac_ret. Qed.

Lemma ac_list u : acts u (Forall (own u)) (listTasksLocked u).
Proof.
  unfold listTasksLocked. eapply ac_bind; [apply ac_hcall|]. intros _ _. eapply ac_bind; [apply ac_get|]. intros w0 _.
  eapply ac_bind; [apply (ac_for_fold u (Forall (own u)))|]; [constructor| |].
  - intros acc n Hacc. eapply ac_bind; [apply (ac_hread u (λ b, ∀ t, b = Some (Some t) → task_ok t))|].
    { intros w Hf t Ht. destruct (fo_tasks _ Hf _ _ Ht) as (t' & [= <-] & Hok & _). done. }
    intros r Hr. eapply ac_bind; [apply ac_some_or|]. intros b Hb. cbv beta in *. subst r. apply ac_ret. destruct b as [t|]; [|done].
    case_match eqn:Hc; [done|]. apply orb_false_iff in Hc as [_ Hc]. apply negb_false_iff, bool_decide_eq_true in Hc.
    apply Forall_app. split; [done|]. constructor; [|constructor]. by split; auto.
  - intros ts Hts. apply ac_ret. by rewrite sort_tasks_perm.
Qed.
#[local] Hint Resolve ac_load ac_write ac_current ac_topic ac_set_current ac_materialize ac_drop ac_drop_current ac_drop_topic ac_new_id ac_list
  ac_hnow ac_hcall ac_get ac_fail_if ac_some_or ac_throw ac_try : acts.

Ltac ac_facts :=
  cbv beta in *;
  repeat match goal with
    | H : True |- _ => clear H
    | H : got _ _ |- _ => unfold got in H
    | H : _ ∧ _ |- _ => destruct H
    end; simplify_eq.
Ltac ac_close := repeat first [done | progress intros | progress ac_facts | progress case_match]; split_and?; eauto 5 with tasks.
Ltac ac_step :=
  first
    [ apply ac_throw | solve [apply ac_ret; ac_close] | solve [eapply ac_weaken; [solve [eauto 5 with acts tasks]|intros ? ?; ac_close]]
    | eapply ac_bind; [solve [eauto 5 with acts tasks]|intros ? ?; ac_facts]
    | progress cbv zeta | progress case_match; ac_facts | eapply ac_bind; [|intros ? ?; ac_facts] ].
Ltac ac := repeat ac_step.

Lemma ac_live u id : acts u (λ o, ∀ t, o = Some t → own u t ∧ tk_TaskID t = id ∧ tk_Archived t = false) (live_task u id).
Proof. unfold live_task. ac. Qed.

Lemma own_option user chat o : (∀ t, o = Some t → own (us_ID user) t) → own (us_ID user) (default (defaultTask user chat) o).
Proof. destruct o; simpl; eauto with tasks. Qed.

Lemma ac_follow user chat : acts (us_ID user) (own (us_ID user)) (follow_current user chat).
Proof.
  unfold follow_current. ac_step. eapply (ac_bind _ (λ o, ∀ t, o = Some t → own (us_ID user) t)).
  - case_match; [by apply ac_ret|]. eapply ac_weaken; [apply ac_live|]. naive_solver.
  - intros o Ho. by apply ac_ret, own_option.
Qed.
#[local] Hint Resolve ac_follow : acts.
#[local] Hint Resolve own_option : tasks.

Lemma ac_try_live user id :
  acts (us_ID user) (λ o, ∀ t, o = Some t → own (us_ID user) t) (if id == "" then mret None else live_task (us_ID user) id).
Proof. case_match; [by apply ac_ret|]. eapply ac_weaken; [apply ac_live|]. naive_solver. Qed.
#[local] Hint Resolve ac_try_live : acts.

Lemma ac_resolve user chat topic adopt : acts (us_ID user) (own (us_ID user)) (ResolveTask user chat topic adopt).
Proof. unfold ResolveTask. ac. Qed.

Lemma ac_by_id user chat id : acts (us_ID user) (own (us_ID user)) (taskByIDLocked user chat id).
Proof.
  unfold taskByIDLocked. case_match; [|ac]. eapply ac_bind; [apply ac_live|]. intros o Ho. apply ac_ret, own_option. intros t Ht. by destruct (Ho t Ht).
Qed.
#[local] Hint Resolve ac_by_id : acts.

Lemma ac_only u (f : Task → bool) ts : Forall (own u) ts → acts u (λ t, own u t ∧ f t = true) (the_only (List.filter f ts)).
Proof.
  intros Hts. unfold the_only. case_match eqn:He; [ac|]. case_match; [|ac]. apply ac_ret. subst.
  assert (Hin : In t (List.filter f ts)) by (rewrite He; by left). apply filter_In in Hin as [Hin Hf]. split; [|done].
  rewrite List.Forall_forall in Hts. by apply Hts.
Qed.
#[local] Hint Resolve ac_only : acts.

Lemma ac_find user chat selector : acts (us_ID user) (own (us_ID user)) (findTaskLocked user chat selector).
Proof. unfold findTaskLocked. ac. Qed.
#[local] Hint Resolve ac_find : acts.

Lemma ac_mutation user chat id : acts (us_ID user) (λ t, own (us_ID user) t ∧ tk_ChatID t = chat) (taskForMutationLocked user chat id).
Proof.
  unfold taskForMutationLocked. ac_step. ac_step. apply ac_ret. split; [done|]. by apply Z.eqb_eq, negb_false_iff.
Qed.
#[local] Hint Resolve ac_mutation : acts.

Lemma ac_list_tasks user chat : acts (us_ID user) (Forall (own (us_ID user))) (ListTasks user chat).
Proof.
  unfold ListTasks. ac_step. apply ac_ret.
  assert (Hl : Forall (own (us_ID user)) (List.filter (λ t, negb (tk_Archived t)) a)).
  { rewrite List.Forall_forall in *. intros t [Ht _]%filter_In. by apply H5. }
  case_match; [done|]. constructor; [apply own_default|done].
Qed.

Lemma ac_list_archived user : acts (us_ID user) (Forall (own (us_ID user))) (ListArchivedTasks user).
Proof.
  unfold ListArchivedTasks. ac_step. apply ac_ret. rewrite List.Forall_forall in *. intros t [Ht _]%filter_In. by apply H5.
Qed.

Lemma ac_by_conversation user chat conv :
  acts (us_ID user) (λ t, own (us_ID user) t ∧ (t = defaultTask user chat ∨ tk_ConversationID t = conv)) (taskByConversationLocked user chat conv).
Proof.
  unfold taskByConversationLocked. ac_step. apply ac_ret. destruct a as [ts|e]; [|by split; [apply own_default|left]].
  destruct (List.find _ ts) as [t|] eqn:Hf; simpl; [|by split; [apply own_default|left]]. apply find_some in Hf as [Hin Hc].
  apply andb_true_iff in Hc as [_ Hc]. apply bool_decide_eq_true in Hc. rewrite List.Forall_forall in H5. auto.
Qed.

Lemma ac_unit u : acts u (λ _, True) (mret tt).
Proof. by apply ac_ret. Qed.
#[local] Hint Resolve ac_unit : acts.

Lemma ac_fresh u fuel last : last ≠ "" ∨ (0 < fuel)%nat → acts u (λ id, id ≠ "") (fresh_id fuel u last).
Proof.
  revert last. induction fuel as [|fuel IH]; simpl; intros last Hl; [apply ac_ret; destruct Hl; [done|lia]|].
  ac_step. ac_step. case_match; [|ac]. apply IH. by left.
Qed.

Lemma ac_topic_free u chat topic : acts u (λ _, True) (topic_free u chat topic).
Proof. unfold topic_free. ac. Qed.
#[local] Hint Resolve ac_topic_free : acts.

Lemma ac_switch u t (b : bool) : own u t → acts u (λ _, True) (if b then setCurrentLocked t else mret tt).
Proof. intros Ho. destruct b; ac. Qed.
#[local] Hint Resolve ac_switch : acts.

Lemma ac_create user chat topic name cur : acts (us_ID user) (λ r, own (us_ID user) r.1) (CreateTask user chat topic name cur).
Proof.
  unfold CreateTask. cbv zeta. ac_step. ac_step. ac_step. destruct (List.find _ _) as [t|] eqn:Hf.
  - apply find_some in Hf as [Hin _]. rewrite List.Forall_forall in *. ac.
  - ac_step. eapply ac_bind; [apply ac_fresh; right; lia|]. intros id Hid. ac.
Qed.

Lemma ac_use user chat selector : acts (us_ID user) (own (us_ID user)) (UseTask user chat selector).
Proof. unfold UseTask. ac. Qed.

Lemma ac_rename user chat id name : acts (us_ID user) (own (us_ID user)) (RenameTask user chat id name).
Proof. unfold RenameTask. ac. Qed.

Lemma ac_rebind user chat id topic : acts (us_ID user) (λ _, True) (RebindTaskTopic user chat id topic).
Proof. unfold RebindTaskTopic. ac. Qed.

Lemma ac_rename_bound user chat topic name accept : acts (us_ID user) (λ _, True) (rename_bound user chat topic name accept).
Proof. unfold rename_bound. ac. Qed.

Lemma ac_release_topic user chat t : acts (us_ID user) (λ _, True) (release_topic user chat t).
Proof. unfold release_topic. ac. Qed.

Lemma ac_release_current user chat t : acts (us_ID user) (λ _, True) (release_current user chat t).
Proof. unfold release_current. ac. Qed.
#[local] Hint Resolve ac_release_topic ac_release_current : acts.

Lemma ac_archive user chat id : acts (us_ID user) (λ t, own (us_ID user) t ∧ tk_Archived t = true) (ArchiveTask user chat id).
Proof. unfold ArchiveTask. ac. Qed.

Lemma ac_delete_found user chat t : own (us_ID user) t → acts (us_ID user) (own (us_ID user)) (deleteTaskLocked user chat t).
Proof. intros Ho. unfold deleteTaskLocked. ac. Qed.
#[local] Hint Resolve ac_delete_found : acts.

Lemma ac_delete user chat id : acts (us_ID user) (own (us_ID user)) (DeleteTask user chat id).
Proof. unfold DeleteTask. ac. Qed.

Lemma ac_delete_by user chat selector : acts (us_ID user) (own (us_ID user)) (DeleteTaskBySelector user chat selector).
Proof. unfold DeleteTaskBySelector. ac. Qed.

Lemma ac_unarchive user chat selector : acts (us_ID user) (λ r, own (us_ID user) r.1) (UnarchiveTask user chat selector).
Proof.
  unfold UnarchiveTask. ac_step. eapply (ac_bind _ (own (us_ID user))); [ac|]. intros t Ht. ac_step.
  eapply (ac_bind _ (own (us_ID user))); [ac|]. intros t' Ht'. ac.
Qed.

Lemma ac_autotitle u id title : acts u (λ _, True) (AutoTitleTask u id title).
Proof. unfold AutoTitleTask. ac. Qed.

Lemma ac_name_auto u id : acts u (λ _, True) (TaskNameAuto u id).
Proof. unfold TaskNameAuto. ac. Qed.

Lemma ac_style user chat id style : acts (us_ID user) (own (us_ID user)) (SetTaskStyle user chat id style).
Proof.
  unfold SetTaskStyle. eapply (ac_bind _ (λ s, len s ≤ taskStyleLimit)).
  - case_match; [by apply ac_ret|]. eapply ac_weaken; [apply ac_some_or|]. intros s Hs. exact (clean_style_bound _ _ Hs).
  - intros s Hs. ac.
Qed.
End Moves.
