(* ===== verification/TasksSystem.v ===== *)
(** The queue and the tasks as one system: owners act on their tasks, the gateway on the
    queue, in any order and with any file call failing; what then holds of the tasks. *)
From stdpp Require Import base gmap strings list pretty sorting relations.
From Stdlib Require Import Ascii String.
From S2P Require Import Prelude GoStrings BrokerIdentity Contract Calendar Cron RoutineTypes Timing Schedules SpoolTypes SpoolQueue SpoolWork SpoolStream SpoolFrame SpoolSpec SpoolRefine SpoolOps SpoolProps Tasks TasksProps.
Local Open Scope string_scope.
Local Open Scope Z_scope.

(** A call of an owner. *)
Inductive TaskOp :=
  | TResolve (chat topic : Z) (adopt : bool)
  | TById (chat : Z) (id : string)
  | TBySelector (chat : Z) (selector : string)
  | TByConversation (chat : Z) (conversation : string)
  | TList (chat : Z)
  | TListArchived
  | TCreate (chat topic : Z) (name : string) (current : bool)
  | TUse (chat : Z) (selector : string)
  | TRename (chat : Z) (id name : string)
  | TRebind (chat : Z) (id : string) (topic : Z)
  | TRenameTopic (chat topic : Z) (name : string)
  | TFixPlaceholder (chat topic : Z) (name : string)
  | TArchive (chat : Z) (id : string)
  | TDelete (chat : Z) (id : string)
  | TDeleteBy (chat : Z) (selector : string)
  | TUnarchive (chat : Z) (selector : string)
  | TAutoTitle (id title : string)
  | TNameAuto (id : string)
  | TStyle (chat : Z) (id style : string).

Section System.
Context `{RoutineWorld} `{TimeText} `{RoutineDeps} `{Unicode} `{QueueWorld} `{TaskWorld}.
Abbreviation Q := (M Hub HErr).

Definition texec (user : User) (o : TaskOp) : Q unit :=
  match o with
  | TResolve chat topic adopt => ResolveTask user chat topic adopt ;; mret tt
  | TById chat id => taskByIDLocked user chat id ;; mret tt
  | TBySelector chat selector => findTaskLocked user chat selector ;; mret tt
  | TByConversation chat conversation => taskByConversationLocked user chat conversation ;; mret tt
  | TList chat => ListTasks user chat ;; mret tt
  | TListArchived => ListArchivedTasks user ;; mret tt
  | TCreate chat topic name current => CreateTask user chat topic name current ;; mret tt
  | TUse chat selector => UseTask user chat selector ;; mret tt
  | TRename chat id name => RenameTask user chat id name ;; mret tt
  | TRebind chat id topic => RebindTaskTopic user chat id topic
  | TRenameTopic chat topic name => RenameTopicTask user chat topic name
  | TFixPlaceholder chat topic name => FixTopicPlaceholder user chat topic name
  | TArchive chat id => ArchiveTask user chat id ;; mret tt
  | TDelete chat id => DeleteTask user chat id ;; mret tt
  | TDeleteBy chat selector => DeleteTaskBySelector user chat selector ;; mret tt
  | TUnarchive chat selector => UnarchiveTask user chat selector ;; mret tt
  | TAutoTitle id title => AutoTitleTask (us_ID user) id title ;; mret tt
  | TNameAuto id => TaskNameAuto (us_ID user) id ;; mret tt
  | TStyle chat id style => SetTaskStyle user chat id style ;; mret tt
  end.

Lemma ac_done {A} u (P : A → Prop) m : acts u P m → acts u (λ _, True) (m ;; mret tt).
Proof. intros Hm. eapply ac_bind; [exact Hm|]. intros a _. by apply ac_ret. Qed.

Lemma ac_texec user o : acts (us_ID user) (λ _, True) (texec user o).
Proof.
  destruct o; simpl; try (eapply ac_done; eauto using ac_resolve, ac_by_id, ac_find, ac_by_conversation, ac_list_tasks, ac_list_archived,
    ac_create, ac_use, ac_rename, ac_archive, ac_delete, ac_delete_by, ac_unarchive, ac_autotitle, ac_name_auto, ac_style).
  - apply ac_rebind.
  - apply ac_rename_bound.
  - apply ac_rename_bound.
Qed.

(** ** The queue leaves the tasks alone *)

Ltac head_of t := match t with ?f _ => head_of f | _ => t end.
Ltac lv_unfold := match goal with |- leaves _ ?m => let h := head_of m in unfold h end.
Ltac lv_all := repeat first [lv_step | lv_unfold].

Lemma lv_tasks_write m : leaves q_tasks (writeMappingLocked m).
Proof. lv_all. Qed.
Lemma lv_tasks_load id : leaves q_tasks (loadMappingLocked id).
Proof. lv_all. Qed.
Lemma lv_tasks_settle id : leaves q_tasks (settleReservationLocked id).
Proof. lv_all. Qed.
#[local] Hint Resolve lv_tasks_write lv_tasks_load lv_tasks_settle : leaves.

Lemma lv_tasks_update id o status terminal : leaves q_tasks (updateMappingLocked id o status terminal).
Proof. lv_all. Qed.
Lemma lv_tasks_deliver d : leaves q_tasks (SpoolStream.EnqueueDelivery d).
Proof. lv_all. Qed.
#[local] Hint Resolve lv_tasks_update lv_tasks_deliver : leaves.

Lemma lv_tasks_exec o : leaves q_tasks (exec o).
Proof. destruct o; lv_all. Qed.

(** ** Runs *)

(** One call on the queue or on the tasks, with whatever result. *)
Inductive acted (w : Hub) : Hub → Prop :=
  | a_queue o r w' : exec o w = (r, w') → acted w w'
  | a_task user o r w' : texec user o w = (r, w') → acted w w'.

Definition alive (w : Hub) : Prop := ∃ s u a, rtc acted (installed s u no_tasks a) w.

Lemma texec_acts user o w r w' : files_ok (q_tasks w) → texec user o w = (r, w') →
  rtc (tmove (us_ID user)) (q_tasks w) (q_tasks w') ∧ only_tasks w w'.
Proof. intros Hf Hx. pose proof (run_wp _ _ _ _ _ Hx (ac_texec user o w Hf)) as (Hm & Ho & _). done. Qed.

Lemma acted_files w w' : files_ok (q_tasks w) → acted w w' → files_ok (q_tasks w').
Proof.
  intros Hf [o r w1 Hx|user o r w1 Hx].
  - by rewrite (run_wp _ _ _ _ _ Hx (lv_tasks_exec o w)).
  - destruct (texec_acts _ _ _ _ _ Hf Hx) as [Hm _]. by eapply files_ok_moves.
Qed.

Lemma alive_files w : alive w → files_ok (q_tasks w).
Proof.
  intros (s & u & a & Hr). assert (Hf : files_ok (q_tasks (installed s u no_tasks a))) by apply files_ok_none.
  induction Hr; eauto using acted_files.
Qed.

Lemma only_tasks_steps w w' : only_tasks w w' → steps w w'.
Proof.
  intros [n ->]. eapply rtc_l; [apply (s_rt _ (Nat.iter n tick_call (h_rt w)))|]. apply rtc_once.
  apply (s_outside (set_rt _ w) (q_usage w) _ (q_assignments w)).
Qed.

(** Owners at work on their tasks are steps of the queue's specification, so what holds of
    the queue holds with them as well. *)
Theorem alive_queue_ok w : alive w → queue_ok w.
Proof.
  intros (s & u & a & Hr). cut (queue_ok w ∧ files_ok (q_tasks w)); [by intros []|].
  assert (H0' : queue_ok (installed s u no_tasks a) ∧ files_ok (q_tasks (installed s u no_tasks a)))
    by (split; [apply queue_ok_installed|apply files_ok_none]).
  induction Hr as [w|w w1 w2 Ha _ IH]; [done|]. destruct H0' as [Hq Hf]. apply IH. split; [|by eapply acted_files].
  eapply queue_ok_steps; [exact Hq|]. destruct Ha as [o r w1 Hx|user o r w1 Hx]; [by eapply exec_steps|].
  apply only_tasks_steps. by eapply texec_acts.
Qed.

(** * What holds of the tasks *)

(** The jobs of a task run in its conversation. *)
Lemma bind_task_conversation j w r w' :
  files_ok (q_tasks w) → bind_task j w = (r, w') → got (λ j', ro_TaskID (j_Routing j) ≠ "" → ro_TaskID (j_Routing j) ≠ defaultTaskID →
    j_Trigger j ≠ "cron" → e_ConversationID (j_Envelope j') = taskConversation (ro_ChatID (j_Routing j)) (ro_TaskID (j_Routing j))) r.
Proof.
  intros Hf Hx. eapply (run_wp _ (λ r _, got _ r)); [exact Hx|]. unfold bind_task. apply wp_if; intros Hc.
  { apply wp_ret. rewrite orb_true_iff, !bool_decide_eq_true in Hc. simpl. by destruct Hc. }
  apply wp_bind, wp_try. eapply wp_mono; [by apply ac_load|]. intros [t|e] w1 (_ & _ & Ht); [|done]. destruct Ht as [[_ Hok] Hid].
  apply wp_bind, wp_fail_if; intros Hchat; [done|]. apply wp_ret. apply negb_false_iff, Z.eqb_eq in Hchat. simpl.
  intros _ _ Hcron. rewrite bool_decide_eq_false_2 by done. simpl. by rewrite (to_conversation _ Hok), Hchat, Hid.
Qed.

(** ** Listing and looking up *)

(** The tasks [listTasksLocked] is to find. *)
Definition listed (u : string) (f : TaskFiles) (t : Task) : Prop :=
  (∃ n, tf_tasks f !! n = Some (Some t)) ∧ tk_TaskID t ≠ "" ∧ tk_PrincipalID t = u.

(** One file of the directory. *)
Lemma listed_one u acc (b : option Task) t :
  In t (match b with
        | Some x => if (tk_TaskID x == "") || (tk_PrincipalID x != u) then acc else (acc ++ [x])%list
        | None => acc
        end) ↔ In t acc ∨ (b = Some t ∧ tk_TaskID t ≠ "" ∧ tk_PrincipalID t = u).
Proof.
  destruct b as [x|]; [|naive_solver]. destruct (_ || _) eqn:Hc.
  - rewrite orb_true_iff, negb_true_iff, bool_decide_eq_true, bool_decide_eq_false in Hc. naive_solver.
  - rewrite orb_false_iff, negb_false_iff, bool_decide_eq_true, bool_decide_eq_false in Hc. rewrite in_app_iff. simpl. naive_solver.
Qed.

(** One of the file calls between the two states failed. *)
Definition call_failed (w w' : Hub) : Prop :=
  ∃ k, (sp_calls (h_rt w) ≤ k < sp_calls (h_rt w'))%nat ∧ host_ok k = false.

(** The state after [k] file calls that changed nothing else. *)
Definition after_calls (k : nat) (w : Hub) : Hub := set_rt (Nat.iter k tick_call (h_rt w)) w.

Lemma calls_after k s : sp_calls (Nat.iter k tick_call s) = (k + sp_calls s)%nat.
Proof. induction k as [|k IH]; simpl; [done|]. by rewrite IH. Qed.

Lemma wp_hcall_counted (P : res HErr unit → Hub → Prop) k w :
  P (Ok tt) (after_calls (S k) w) → (call_failed w (after_calls (S k) w) → P (Err HIO) (after_calls (S k) w)) →
  wp hcall P (after_calls k w).
Proof.
  intros Hok He. unfold wp, hcall, on_rt, call, after_calls in *. simpl in *.
  destruct (host_ok (sp_calls (Nat.iter k tick_call (h_rt w)))) eqn:Hh; [exact Hok|]. apply He.
  exists (sp_calls (Nat.iter k tick_call (h_rt w))). split; [|done]. simpl. rewrite calls_after. lia.
Qed.

Lemma wp_hread_counted {A} (look : Hub → option A) (P : res HErr (option A) → Hub → Prop) k w :
  P (Ok (look (after_calls (S k) w))) (after_calls (S k) w) →
  (call_failed w (after_calls (S k) w) → P (Err HIO) (after_calls (S k) w)) → wp (hread look) P (after_calls k w).
Proof. intros Hok He. unfold hread. apply wp_bind, wp_hcall_counted; [|done]. by apply wp_bind, wp_get, wp_ret. Qed.

(** The listing finds every task of the owner, unless a file call fails. *)
Lemma wp_list u (P : res HErr (list Task) → Hub → Prop) w :
  (∀ ts k, (∀ t, In t ts ↔ listed u (q_tasks w) t) → P (Ok ts) (after_calls k w)) →
  (∀ e w', call_failed w w' → P (Err e) w') → wp (listTasksLocked u) P w.
Proof.
  intros HP Herr. unfold listTasksLocked. assert (Hw0 : after_calls 0 w = w) by by destruct w. rewrite <-Hw0. clear Hw0.
  apply wp_bind, wp_hcall_counted; [|by apply Herr]. apply wp_bind, wp_get, wp_bind.
  set (l := names_of _). eapply wp_mono.
  - apply (wp_for_fold_prefix (λ pre acc w', (∃ k, w' = after_calls k w) ∧
      ∀ t, In t acc ↔ (∃ n, n ∈ pre ∧ tf_tasks (q_tasks w) !! n = Some (Some t)) ∧ tk_TaskID t ≠ "" ∧ tk_PrincipalID t = u)
      (λ _ w', call_failed w w')).
    + split; [by exists 1%nat|]. intros t. split; [done|]. intros [(n & Hn & _) _]. by apply elem_of_nil in Hn.
    + intros pre x post acc w' Hl [[k ->] Hacc]. apply wp_bind, wp_hread_counted; [|done].
      assert (Hin : x ∈ l) by (rewrite Hl; set_solver). apply names_of_elem in Hin as [b Hb]. simpl in *. rewrite Hb.
      apply wp_bind, wp_ret, wp_ret. split; [by exists (S k)|]. intros t. rewrite listed_one, Hacc.
      setoid_rewrite elem_of_app. setoid_rewrite list_elem_of_singleton. naive_solver.
  - intros [ts|e] w' Hw; [|by apply Herr]. destruct Hw as [[k ->] Hts]. apply wp_ret, HP. intros t.
    rewrite (Permutation_in' eq_refl (sort_tasks_perm ts)), Hts. unfold listed. split; [naive_solver|]. intros [[n Hn] Hrest].
    split; [|done]. exists n. split; [|done]. apply names_of_elem. by exists (Some t).
Qed.

(** A live task of the owner in a conversation. *)
Definition live_in (u conv : string) (f : TaskFiles) (t : Task) : Prop :=
  listed u f t ∧ tk_Archived t = false ∧ tk_ConversationID t = conv.

Lemma wp_by_conversation user chat conv w :
  wp (taskByConversationLocked user chat conv) (λ r w', match r with
      | Ok t => live_in (us_ID user) conv (q_tasks w) t ∨
          t = defaultTask user chat ∧ (call_failed w w' ∨ ∀ t', ¬ live_in (us_ID user) conv (q_tasks w) t')
      | Err _ => False
      end) w.
Proof.
  unfold taskByConversationLocked. apply wp_bind, wp_try, wp_list; [|intros e w' Hf; apply wp_ret; by right; split; [|left]].
  intros ts k Hts. apply wp_ret. destruct (List.find _ ts) as [t|] eqn:Hfind; simpl.
  - left. apply find_some in Hfind as [Hin Hc]. apply andb_true_iff in Hc as [Ha%negb_true_iff Hc%bool_decide_eq_true].
    split; [by apply Hts|done].
  - right. split; [done|right]. intros t' (Hl & Ha & Hc). apply Hts in Hl. pose proof (find_none _ _ Hfind _ Hl) as Hn.
    simpl in Hn. by rewrite Ha, Hc, bool_decide_eq_true_2 in Hn.
Qed.

(** C32. Tasks are well formed in every state the system reaches. Each file of the directory
    is a readable record under the hash of its owner and id; the record says its owner twice,
    the default task is never archived, a style is within its limit, and the conversation is
    that of the chat and the task. No two tasks of an owner have the same conversation. A
    lookup by conversation always answers: with the live (not archived) task of the owner
    whose file has that conversation, in the chat the conversation names; with the default
    task of the chat only when the owner has no live task in that conversation, or a file
    call of the lookup failed. A job that is bound to a task other than the default one runs
    in the conversation of that task in the job's chat, unless a cron schedule triggered it:
    a cron job stays as it is, with the conversation it came with. *)
Theorem tasks_well_formed w : alive w →
  (∀ n b, tf_tasks (q_tasks w) !! n = Some b → ∃ t, b = Some t ∧ task_ok t ∧ n = task_name (tk_PrincipalID t) (tk_TaskID t)) ∧
  (∀ n n' t t', tf_tasks (q_tasks w) !! n = Some (Some t) → tf_tasks (q_tasks w) !! n' = Some (Some t') →
     tk_PrincipalID t = tk_PrincipalID t' → tk_ConversationID t = tk_ConversationID t' → n = n' ∧ t = t') ∧
  (∀ user chat conv r w', taskByConversationLocked user chat conv w = (r, w') → ∃ t, r = Ok t ∧
     ((∃ n, tf_tasks (q_tasks w) !! n = Some (Some t)) ∧ tk_PrincipalID t = us_ID user ∧ tk_Archived t = false ∧
        tk_ConversationID t = conv ∧ conv = taskConversation (tk_ChatID t) (tk_TaskID t) ∨
      t = defaultTask user chat ∧ (call_failed w w' ∨
        ∀ n t', tf_tasks (q_tasks w) !! n = Some (Some t') → tk_PrincipalID t' = us_ID user →
          tk_ConversationID t' = conv → tk_Archived t' = true))) ∧
  (∀ j j' w', bind_task j w = (Ok j', w') → ro_TaskID (j_Routing j) ≠ "" → ro_TaskID (j_Routing j) ≠ defaultTaskID →
     (j_Trigger j ≠ "cron" →
        e_ConversationID (j_Envelope j') = taskConversation (ro_ChatID (j_Routing j)) (ro_TaskID (j_Routing j))) ∧
     (j_Trigger j = "cron" → j' = j)).
Proof.
  intros Hal. pose proof (alive_files _ Hal) as Hf. split_and!.
  - apply (fo_tasks _ Hf).
  - intros n n' t t' Hn Hn' Hu Hc.
    destruct (fo_tasks _ Hf _ _ Hn) as (x & [= <-] & Hok & Hname), (fo_tasks _ Hf _ _ Hn') as (y & [= <-] & Hok' & Hname').
    rewrite (to_conversation _ Hok), (to_conversation _ Hok') in Hc.
    destruct (taskConversation_inj _ _ _ _ (to_id _ Hok) (to_id _ Hok') Hc) as [_ Hid].
    assert (Heq : n = n') by (rewrite Hname, Hname', Hu; by f_equal). split; [done|]. rewrite Heq in Hn. congruence.
  - intros user chat conv r w' Hx. pose proof (run_wp _ _ _ _ _ Hx (wp_by_conversation user chat conv w)) as Hr.
    destruct r as [t|]; [|done]. exists t. split; [done|]. destruct Hr as [(((n & Hn) & _ & Hu) & Ha & Hc)|[-> Hno]]; [left|right].
    + destruct (fo_tasks _ Hf _ _ Hn) as (x & [= <-] & Hok & _). split_and!; [by exists n|done|done|done|]. by rewrite <-Hc, (to_conversation _ Hok).
    + split; [done|]. destruct Hno as [|Hno]; [by left|right]. intros n t' Hn Hu Hc. apply not_false_is_true. intros Ha.
      destruct (fo_tasks _ Hf _ _ Hn) as (x & [= <-] & Hok & _). destruct (Hno t'). by repeat split; [exists n|apply Hok|..].
  - intros j j' w' Hx Hid Hdef. split.
    + intros Hcron. exact (bind_task_conversation _ _ _ _ Hf Hx Hid Hdef Hcron).
    + intros Hcron. destruct (run_wp _ _ _ _ _ Hx (wp_bind_task j w (alive_queue_ok _ Hal))) as (_ & _ & Hb).
      revert Hb. unfold bound_to_task. rewrite (bool_decide_eq_false_2 _ Hid), (bool_decide_eq_false_2 _ Hdef). simpl.
      intros (t & _ & _ & _ & _ & ->). by rewrite bool_decide_eq_true_2.
Qed.

(** ** Owners are apart *)

Definition no_nul (s : string) : Prop := str_forallb (λ c, negb (is_char NUL c)) s = true.

Lemma nul_split a b x y : no_nul a → no_nul b → a ++ NULs ++ x = b ++ NULs ++ y → a = b ∧ x = y.
Proof.
  unfold no_nul. revert b. induction a as [|c a IH]; intros [|d b] Ha Hb Heq; simpl in *.
  - by injection Heq.
  - injection Heq as <- _. done.
  - injection Heq as -> _. done.
  - apply andb_true_iff in Ha as [_ Ha], Hb as [_ Hb]. injection Heq as <- Heq. by destruct (IH b Ha Hb Heq) as [-> ->].
Qed.

(** All that the tasks of [v] are. *)
Definition same_tasks (v : string) (f f' : TaskFiles) : Prop :=
  (∀ id, tf_tasks f' !! task_name v id = tf_tasks f !! task_name v id) ∧
  (∀ chat, tf_current f' !! current_name v chat = tf_current f !! current_name v chat) ∧
  (∀ chat topic, tf_topics f' !! topic_name v chat topic = tf_topics f !! topic_name v chat topic).

Lemma moves_apart u v f f' : Inj (=) (=) r_sha256_hex → no_nul u → no_nul v → u ≠ v → rtc (tmove u) f f' → same_tasks v f f'.
Proof.
  intros Hinj Hu Hv Hne Hm.
  assert (Hapart : ∀ x y, r_sha256_hex (u ++ NULs ++ x) ≠ r_sha256_hex (v ++ NULs ++ y)).
  { intros x y Heq%Hinj. destruct (nul_split _ _ _ _ Hu Hv Heq). done. }
  induction Hm as [f|f f1 f2 H1' _ IH]; [done|]. destruct IH as (It & Ic & Ip). unfold same_tasks.
  destruct H1'; simpl in *; split_and!; intros; rewrite ?It, ?Ic, ?Ip; try done;
    by rewrite ?lookup_insert_ne, ?lookup_delete_ne by apply Hapart.
Qed.

(** C6. Owners cannot touch each other's tasks, nor the queue. When SHA-256 has no collisions
    and the ids of users have no NUL byte, then whatever a user calls, in any state the system
    reaches and with any outcome, every record, current pointer and topic binding of any other
    user is as it was; and all the rest of the state is too, but for the number of file calls
    that were made. *)
Theorem tasks_isolated user o w r w' v :
  Inj (=) (=) r_sha256_hex → no_nul (us_ID user) → no_nul v → us_ID user ≠ v → alive w → texec user o w = (r, w') →
  same_tasks v (q_tasks w) (q_tasks w') ∧ only_tasks w w'.
Proof.
  intros Hinj Hu Hv Hne Hf%alive_files Hx. destruct (texec_acts _ _ _ _ _ Hf Hx) as [Hm Ho].
  split; [exact (moves_apart _ _ _ _ Hinj Hu Hv Hne Hm)|done].
Qed.

(** ** When no file call fails *)

Section Quiet.
Hypothesis quiet : ∀ n, host_ok n = true.

Lemma wq_hcall (P : res HErr unit → Hub → Prop) w : (∀ s, P (Ok tt) (set_rt s w)) → wp hcall P w.
Proof. intros HP. unfold wp, hcall, on_rt, call. by rewrite quiet. Qed.

Lemma wq_hread {A} (look : Hub → option A) (P : res HErr (option A) → Hub → Prop) w :
  (∀ s, P (Ok (look (set_rt s w))) (set_rt s w)) → wp (hread look) P w.
Proof. intros HP. unfold hread. apply wp_bind, wq_hcall. intros s. by apply wp_bind, wp_get, wp_ret. Qed.

Lemma wq_hwrite f (P : res HErr unit → Hub → Prop) w : (∀ s s', P (Ok tt) (set_rt s' (f (set_rt s w)))) → wp (hwrite f) P w.
Proof. intros HP. unfold hwrite. apply wp_bind, wq_hcall. intros s. by apply wp_bind, wp_modify, wq_hcall. Qed.

Lemma wq_remove f (P : res HErr unit → Hub → Prop) w : (∀ s, P (Ok tt) (f (set_rt s w))) → wp (remove_file f) P w.
Proof. intros HP. unfold remove_file. apply wp_bind, wq_hcall. intros s. by apply wp_modify. Qed.

Lemma wq_load u id t (P : res HErr Task → Hub → Prop) w :
  tf_tasks (q_tasks w) !! task_name u id = Some (Some t) → tk_PrincipalID t = u → tk_TaskID t = id →
  (∀ s, P (Ok t) (set_rt s w)) → wp (loadTaskLocked u id) P w.
Proof.
  intros Ht Hu Hid HP. unfold loadTaskLocked. apply wp_bind, wq_hread. intros s. simpl. rewrite Ht.
  apply wp_bind, wp_ret, wp_bind, wp_ret. rewrite Hu, Hid, !bool_decide_eq_true_2 by done. by apply wp_bind, wp_ret, wp_ret.
Qed.

Lemma wq_write t (P : res HErr unit → Hub → Prop) w :
  (∀ now s s', P (Ok tt) (set_rt s' (put_task (task_name (tk_PrincipalID t) (tk_TaskID t)) (with_updated now t) (set_rt s w)))) →
  wp (writeTaskLocked t) P w.
Proof. intros HP. unfold writeTaskLocked. apply wp_bind, wp_hnow. intros now s. apply wq_hwrite. intros s1 s2. apply HP. Qed.

(** What a pointer file says. *)
Definition pointed (p : option (option string)) : string := match p with Some (Some id) => id | _ => "" end.

Lemma wq_pointer look (P : res HErr string → Hub → Prop) w :
  (∀ s, look (set_rt s w) ≠ Some None) → (∀ s, P (Ok (pointed (look (set_rt s w)))) (set_rt s w)) → wp (pointer look) P w.
Proof.
  intros Hl HP. unfold pointer. apply wp_bind, wq_hread. intros s. specialize (Hl s). specialize (HP s).
  destruct (look (set_rt s w)) as [[id|]|]; [by apply wp_ret|done|by apply wp_ret].
Qed.

Lemma wq_materialize t (P : res HErr unit → Hub → Prop) w :
  (∀ now s, P (Ok tt) (set_rt s (set_tasks (mkTaskFiles
     (<[task_name (tk_PrincipalID t) (tk_TaskID t) := Some (with_updated now t)]> (tf_tasks (q_tasks w))) (tf_current (q_tasks w))
     (if tk_TopicID t =? 0 then tf_topics (q_tasks w)
      else <[topic_name (tk_PrincipalID t) (tk_ChatID t) (tk_TopicID t) := Some (tk_TaskID t)]> (tf_topics (q_tasks w)))) w))) →
  wp (materializeTaskLocked t) P w.
Proof.
  intros HP. unfold materializeTaskLocked. apply wp_bind, wq_write. intros now s s'. specialize (HP now).
  apply wp_if; intros Ht; rewrite Ht in HP; [apply wp_ret, HP|]. apply wq_hwrite. intros s1 s2. apply HP.
Qed.

Lemma archive_ok user chat id t w :
  files_ok (q_tasks w) → tf_tasks (q_tasks w) !! task_name (us_ID user) id = Some (Some t) →
  tk_PrincipalID t = us_ID user → tk_TaskID t = id → tk_ChatID t = chat → id ≠ "" → id ≠ defaultTaskID → tk_Archived t = false →
  wp (ArchiveTask user chat id) (λ r w', r = Ok (with_archived true t) ∧ ∃ now,
    tf_tasks (q_tasks w') = <[task_name (us_ID user) id := Some (with_updated now (with_archived true t))]> (tf_tasks (q_tasks w)) ∧
    tf_topics (q_tasks w') = (if tk_TopicID t =? 0 then tf_topics (q_tasks w)
                              else delete (topic_name (us_ID user) chat (tk_TopicID t)) (tf_topics (q_tasks w))) ∧
    tf_current (q_tasks w') = (if pointed (tf_current (q_tasks w) !! current_name (us_ID user) chat) == id
                               then delete (current_name (us_ID user) chat) (tf_current (q_tasks w)) else tf_current (q_tasks w))) w.
Proof.
  intros Hf Ht Hu Hid Hchat Hne Hnd Hlive.
  assert (Hcur : tf_current (q_tasks w) !! current_name (us_ID user) chat ≠ Some None).
  { intros Hn. destruct (fo_current _ Hf _ _ Hn) as (x & [=] & _). }
  unfold ArchiveTask, taskForMutationLocked, taskByIDLocked. rewrite !(bool_decide_eq_false_2 (id = _)) by done. simpl.
  apply wp_bind, wp_bind, wp_bind. eapply wq_load; [done..|]. intros s. rewrite Hlive. apply wp_bind, wp_ret, wp_ret.
  rewrite Hchat, Z.eqb_refl. apply wp_bind, wp_ret, wp_ret, wp_bind. rewrite Hid, bool_decide_eq_false_2 by done. apply wp_ret. cbv zeta.
  apply wp_bind, wq_write. intros now s1 s2. apply wp_bind. unfold release_topic. simpl. rewrite Hu, Hid.
  apply (wp_mono _ (λ r w1, r = Ok tt ∧ tf_tasks (q_tasks w1) = <[task_name (us_ID user) id := Some (with_updated now (with_archived true t))]> (tf_tasks (q_tasks w))
    ∧ tf_current (q_tasks w1) = tf_current (q_tasks w) ∧ tf_topics (q_tasks w1) = (if tk_TopicID t =? 0 then tf_topics (q_tasks w)
                              else delete (topic_name (us_ID user) chat (tk_TopicID t)) (tf_topics (q_tasks w))))).
  { case_match; [by apply wp_ret|]. apply wq_remove. by intros s3. }
  intros r w1 (-> & Htasks & Hcurrent & Htopics). apply wp_bind. unfold release_current. simpl.
  apply wp_bind, wq_pointer; [intros s3; simpl; by rewrite Hcurrent|]. intros s3. simpl. rewrite Hcurrent, Hid.
  apply wp_if; intros Hp; rewrite Hp.
  - apply wq_remove. intros s4. apply wp_ret. split; [done|]. exists now. simpl. by rewrite Hcurrent.
  - apply wp_ret, wp_ret. split; [done|]. by exists now.
Qed.

Lemma unarchive_ok user id t w :
  files_ok (q_tasks w) → tf_tasks (q_tasks w) !! task_name (us_ID user) id = Some (Some t) →
  tk_PrincipalID t = us_ID user → tk_TaskID t = id → tk_Archived t = true →
  (tk_TopicID t ≠ 0 → pointed (tf_topics (q_tasks w) !! topic_name (us_ID user) (tk_ChatID t) (tk_TopicID t)) ∈ [""; id]) →
  wp (UnarchiveTask user (tk_ChatID t) id) (λ r w', r = Ok (with_archived false t, negb (tk_TopicID t =? 0)) ∧ ∃ now,
    tf_tasks (q_tasks w') = <[task_name (us_ID user) id := Some (with_updated now (with_archived false t))]> (tf_tasks (q_tasks w)) ∧
    tf_topics (q_tasks w') = (if tk_TopicID t =? 0 then tf_topics (q_tasks w)
                              else <[topic_name (us_ID user) (tk_ChatID t) (tk_TopicID t) := Some id]> (tf_topics (q_tasks w))) ∧
    tf_current (q_tasks w') = <[current_name (us_ID user) (tk_ChatID t) := Some id]> (tf_current (q_tasks w))) w.
Proof.
  intros Hf Ht Hu Hid Harch Hfree. unfold UnarchiveTask. apply wp_bind, wp_try. eapply wq_load; [done..|]. intros s. rewrite Harch.
  apply wp_bind, wp_ret. rewrite Z.eqb_refl. apply wp_bind, wp_ret, wp_bind.
  apply (wp_mono _ (λ r w1, r = Ok t ∧ q_tasks w1 = q_tasks w)).
  { apply wp_if; intros Hz; [by apply wp_ret|]. apply Z.eqb_neq in Hz. specialize (Hfree Hz). apply wp_bind, wq_pointer.
    - intros s1 Hn. destruct (fo_topics _ Hf _ _ Hn) as (x & [=] & _).
    - intros s1. apply wp_ret. split; [|done]. simpl. rewrite Hid.
      rewrite elem_of_cons, list_elem_of_singleton in Hfree. destruct Hfree as [-> | ->]; [done|].
      by rewrite (bool_decide_eq_true_2 (id = id)), andb_false_r. }
  intros r w1 (-> & Heq). cbv zeta. apply wp_bind, wq_materialize. intros now s1. simpl. rewrite Hu, Hid, Heq.
  unfold setCurrentLocked. apply wp_bind, wq_hwrite. intros s2 s3. apply wp_ret. split; [done|]. exists now. simpl. by rewrite Hu, Hid.
Qed.

(** Archiving is reversible. When no file call fails, a live task that is not the default one
    is archived from its chat: its topic and the chat's pointer to it are released.  Restoring
    it by its id gives the very same task back but for the time of its last update, bound to its
    topic, as the current task of the chat; no other task, topic or pointer is touched by the
    two calls. *)
Theorem archive_unarchive user t w :
  alive w → tf_tasks (q_tasks w) !! task_name (us_ID user) (tk_TaskID t) = Some (Some t) →
  tk_PrincipalID t = us_ID user → tk_TaskID t ≠ defaultTaskID → tk_Archived t = false →
  let topic := topic_name (us_ID user) (tk_ChatID t) (tk_TopicID t) in
  let current := current_name (us_ID user) (tk_ChatID t) in
  (tk_TopicID t ≠ 0 → tf_topics (q_tasks w) !! topic = Some (Some (tk_TaskID t))) →
  ∃ w1 w2 now now',
    ArchiveTask user (tk_ChatID t) (tk_TaskID t) w = (Ok (with_archived true t), w1) ∧
    (tk_TopicID t ≠ 0 → tf_topics (q_tasks w1) !! topic = None) ∧
    tf_current (q_tasks w1) !! current ≠ Some (Some (tk_TaskID t)) ∧
    UnarchiveTask user (tk_ChatID t) (tk_TaskID t) w1 = (Ok (with_updated now t, negb (tk_TopicID t =? 0)), w2) ∧
    tf_tasks (q_tasks w2) = <[task_name (us_ID user) (tk_TaskID t) := Some (with_updated now' t)]> (tf_tasks (q_tasks w)) ∧
    tf_topics (q_tasks w2) = tf_topics (q_tasks w) ∧
    tf_current (q_tasks w2) = <[current := Some (tk_TaskID t)]> (tf_current (q_tasks w)).
Proof.
  intros Hf%alive_files Ht Hu Hnd Hlive topic current Hbound. destruct (fo_tasks _ Hf _ _ Ht) as (x & [= <-] & Hok & _).
  pose proof (ac_archive user (tk_ChatID t) (tk_TaskID t) w Hf) as Hac.
  pose proof (archive_ok user _ _ t w Hf Ht Hu eq_refl eq_refl (to_id _ Hok) Hnd Hlive) as Ha.
  destruct (ArchiveTask user (tk_ChatID t) (tk_TaskID t) w) as [r w1] eqn:Hx1. unfold wp in Ha, Hac. rewrite Hx1 in Ha, Hac.
  destruct Ha as (-> & now & Htasks & Htopics & Hcurrent), Hac as (Hm & _). assert (Hf1 := files_ok_moves _ _ _ Hf Hm).
  assert (Hfree : tk_TopicID t ≠ 0 → tf_topics (q_tasks w1) !! topic = None).
  { intros Hz. rewrite Htopics. apply Z.eqb_neq in Hz. rewrite Hz. apply lookup_delete_eq. }
  set (t1 := with_updated now (with_archived true t)) in *.
  assert (Ht' : tf_tasks (q_tasks w1) !! task_name (us_ID user) (tk_TaskID t) = Some (Some t1)) by by rewrite Htasks, lookup_insert_eq.
  assert (Hfree' : tk_TopicID t ≠ 0 → pointed (tf_topics (q_tasks w1) !! topic) ∈ [""; tk_TaskID t]) by (intros Hz; rewrite (Hfree Hz); by left).
  assert (Hpost := unarchive_ok user (tk_TaskID t) t1 w1 Hf1 Ht' Hu eq_refl eq_refl Hfree').
  destruct (UnarchiveTask user (tk_ChatID t1) (tk_TaskID t) w1) as [r w2] eqn:Hx2. unfold wp in Hpost. rewrite Hx2 in Hpost.
  destruct Hpost as (-> & now2 & Htasks2 & Htopics2 & Hcurrent2).
  assert (Ht1 : with_archived false t1 = with_updated now t) by (subst t1; destruct t; simpl in *; by subst).
  exists w1, w2, now, now2. split_and!; [done|done| | | | |].
  - rewrite Hcurrent. case_bool_decide as Hp; [by rewrite lookup_delete_eq|]. intros Hn. unfold current in Hn. by rewrite Hn in Hp.
  - by rewrite <- Ht1.
  - rewrite Htasks2, Htasks, insert_insert_eq, Ht1. by destruct t.
  - rewrite Htopics2, Htopics. change (tk_TopicID t1) with (tk_TopicID t). change (tk_ChatID t1) with (tk_ChatID t).
    destruct (tk_TopicID t =? 0) eqn:Hz; [done|]. apply Z.eqb_neq in Hz.
    rewrite insert_delete_eq. apply insert_id, Hbound, Hz.
  - rewrite Hcurrent2, Hcurrent. unfold current. change (tk_ChatID t1) with (tk_ChatID t).
    case_bool_decide; [apply insert_delete_eq|done].
Qed.
End Quiet.
End System.
