(* ===== verification/TasksCreate.v ===== *)
(** Creating a task: the task is found again, by its name and through its topic. *)
From stdpp Require Import base gmap strings list pretty sorting relations.
From Stdlib Require Import Ascii String.
From S2P Require Import Prelude GoStrings BrokerIdentity Contract Calendar Cron RoutineTypes Timing Schedules SpoolTypes SpoolQueue SpoolWork SpoolStream SpoolFrame SpoolSpec SpoolRefine SpoolOps SpoolProps Tasks TasksProps TasksSystem.
Local Open Scope string_scope.
Local Open Scope Z_scope.

Section Create.
Context `{RoutineWorld} `{TimeText} `{RoutineDeps} `{Unicode} `{QueueWorld} `{TaskWorld}.
Abbreviation Q := (M Hub HErr).
Hypothesis quiet : ∀ n, host_ok n = true.

Lemma wq_list u (P : res HErr (list Task) → Hub → Prop) w :
  (∀ ts s, (∀ t, In t ts ↔ listed u (q_tasks w) t) → P (Ok ts) (set_rt s w)) → wp (listTasksLocked u) P w.
Proof.
  intros HP. apply wp_list; [intros ts k Hts; by apply HP|]. intros e w' (k & _ & Hk). by rewrite quiet in Hk.
Qed.

(** The task a name stands for. *)
Definition named (name : string) (t : Task) : bool := negb (tk_Archived t) && (tk_TaskID t != defaultTaskID) && (tk_Name t == name).

Lemma wq_fresh u fuel last w :
  wp (fresh_id fuel u last) (λ r w', q_tasks w' = q_tasks w ∧ ∀ id, r = Ok id → fuel = O ∧ id = last ∨ ∃ x, id = "t-" ++ x) w.
Proof.
  revert last w. induction fuel as [|fuel IH]; intros last w; simpl.
  { apply wp_ret. split; [done|]. intros id [= <-]. by left. }
  unfold newTaskID. apply wp_bind, wp_bind, wp_get, wp_ret. set (x := task_random _). apply wp_bind, wp_try. unfold loadTaskLocked.
  apply wp_bind, wq_hread; [done|]. intros s. apply wp_bind, wp_some_or.
  2:{ intros _. apply wp_ret. split; [done|]. intros id [= <-]. right. by exists x. }
  intros b _. apply wp_bind, wp_some_or; [|intros _; by apply wp_throw]. intros t _.
  apply wp_bind, wp_fail_if; intros _; [by apply wp_throw|]. apply wp_ret. eapply wp_mono; [apply IH|].
  intros r w' [-> Hr]. split; [done|]. intros id ->. right. destruct (Hr id eq_refl) as [[_ ->]|]; [by exists x|done].
Qed.

Lemma wq_topic_free u chat topic w : wp (topic_free u chat topic) (λ r w', q_tasks w' = q_tasks w) w.
Proof.
  assert (Hlv : leaves q_tasks (topic_free u chat topic)); [|apply Hlv]. unfold topic_free, topicTaskLocked, pointer, loadTaskLocked, hread, hcall. lv.
Qed.

Lemma wq_switch t (b : bool) (P : res HErr unit → Hub → Prop) w :
  (∀ s f, P (Ok tt) (set_rt s (set_tasks (mkTaskFiles (tf_tasks (q_tasks w)) f (tf_topics (q_tasks w))) w))) →
  wp (if b then setCurrentLocked t else mret tt) P w.
Proof.
  intros HP. apply wp_if; intros _; [unfold setCurrentLocked; apply wq_hwrite; [done|]; intros s s'; apply HP|].
  apply wp_ret. specialize (HP (h_rt w) (tf_current (q_tasks w))). destruct w as [? ? ? ? ? []]. exact HP.
Qed.

(** A task that is made is stored, under a name no other live task of the owner has. *)
Lemma create_new user chat topic name cur w : TrimSpace name ≠ "" →
  wp (CreateTask user chat topic name cur) (λ r w', ∀ t, r = Ok (t, true) →
    validTaskName (TrimSpace name) = true ∧ named (TrimSpace name) t = true ∧ tk_TaskID t ≠ "" ∧
    tk_PrincipalID t = us_ID user ∧ tk_ChatID t = chat ∧ tk_TopicID t = topic ∧
    (∀ x, listed (us_ID user) (q_tasks w) x → named (TrimSpace name) x = false) ∧
    ∃ now, tf_tasks (q_tasks w') = <[task_name (us_ID user) (tk_TaskID t) := Some (with_updated now t)]> (tf_tasks (q_tasks w)) ∧
      (topic ≠ 0 → tf_topics (q_tasks w') !! topic_name (us_ID user) chat topic = Some (Some (tk_TaskID t)))) w.
Proof.
  intros Hne. unfold CreateTask. cbv zeta. rewrite bool_decide_eq_false_2 by done. apply wp_bind, wp_hnow. intros now0 s0.
  apply wp_bind, wp_fail_if; intros Hv; [by intros ?|]. apply negb_false_iff in Hv. apply wp_bind, wq_list. intros ts s1 Hts.
  change (λ t, negb (tk_Archived t) && (tk_TaskID t != defaultTaskID) && (tk_Name t == TrimSpace name)) with (named (TrimSpace name)).
  destruct (List.find _ ts) as [t0|] eqn:Hfind; [apply wp_bind, wq_switch; intros s f; by apply wp_ret; intros t [=]|].
  apply wp_bind, wp_hnow. intros now s2. apply wp_bind. eapply wp_mono; [apply wq_fresh|]. intros [id|e] w1 [Hw1 Hid]; [|by intros ?].
  specialize (Hid id eq_refl). apply wp_bind. eapply wp_mono; [apply wq_topic_free|]. intros [[]|e] w2 Hw2; [|by intros ?].
  assert (Hn : id ≠ "" ∧ id ≠ defaultTaskID) by (destruct Hid as [[]|(x & ->)]; done).
  set (t := new_task user id (TrimSpace name) false chat topic now).
  apply wp_bind, wq_materialize; [done|]. intros now1 s3. apply wp_bind, wq_switch. intros s4 f. apply wp_ret. intros t' [= <-].
  split_and!; [done| |apply Hn|done..| |].
  - unfold named. simpl. by rewrite bool_decide_eq_false_2, bool_decide_eq_true_2 by naive_solver.
  - intros x Hx. apply (find_none _ _ Hfind), Hts, Hx.
  - exists now1. simpl. rewrite Hw2, Hw1. split; [done|]. intros Hz. apply Z.eqb_neq in Hz. by rewrite Hz, lookup_insert_eq.
Qed.

Lemma create_again user name t w w1 now :
  TrimSpace name ≠ "" → validTaskName (TrimSpace name) = true → named (TrimSpace name) t = true → tk_TaskID t ≠ "" →
  tk_PrincipalID t = us_ID user → (∀ x, listed (us_ID user) (q_tasks w) x → named (TrimSpace name) x = false) →
  tf_tasks (q_tasks w1) = <[task_name (us_ID user) (tk_TaskID t) := Some (with_updated now t)]> (tf_tasks (q_tasks w)) →
  ∀ chat topic cur, ∃ w2, CreateTask user chat topic name cur w1 = (Ok (with_updated now t, false), w2) ∧
    tf_tasks (q_tasks w2) = tf_tasks (q_tasks w1) ∧ tf_topics (q_tasks w2) = tf_topics (q_tasks w1).
Proof.
  intros Hne Hv Hname Hid Hu Hnone Htasks chat topic cur.
  assert (Honly : ∀ x, listed (us_ID user) (q_tasks w1) x → named (TrimSpace name) x = true → x = with_updated now t).
  { intros x [[n Hn] Hx] Hnx. rewrite Htasks, lookup_insert_Some in Hn. destruct Hn as [[_ [= <-]]|[_ Hn]]; [done|].
    rewrite (Hnone x) in Hnx; [done|]. split; [by exists n|done]. }
  cut (wp (CreateTask user chat topic name cur) (λ r w2, r = Ok (with_updated now t, false) ∧
    tf_tasks (q_tasks w2) = tf_tasks (q_tasks w1) ∧ tf_topics (q_tasks w2) = tf_topics (q_tasks w1)) w1).
  { unfold wp. destruct (CreateTask _ _ _ _ _ w1) as [r w2]. intros [-> Hrest]. by exists w2. }
  unfold CreateTask. cbv zeta. rewrite bool_decide_eq_false_2 by done. apply wp_bind, wp_hnow. intros now0 s0.
  rewrite Hv. apply wp_bind, wp_ret, wp_bind, wq_list. intros ts s1 Hts.
  change (λ t, negb (tk_Archived t) && (tk_TaskID t != defaultTaskID) && (tk_Name t == TrimSpace name)) with (named (TrimSpace name)).
  destruct (List.find _ ts) as [x|] eqn:Hfind.
  - apply find_some in Hfind as [Hin Hnx]. apply Hts in Hin. rewrite (Honly x Hin Hnx). apply wp_bind, wq_switch. intros s f. by apply wp_ret.
  - exfalso. pose proof (find_none _ _ Hfind (with_updated now t)) as Hc. change (named (TrimSpace name) (with_updated now t)) with
      (named (TrimSpace name) t) in Hc. rewrite Hname in Hc. discriminate Hc. apply Hts. split; [|done].
    exists (task_name (us_ID user) (tk_TaskID t)). simpl. by rewrite Htasks, lookup_insert_eq.
Qed.

Lemma resolve_new user chat topic t w1 now tasks :
  tk_PrincipalID t = us_ID user → tk_TaskID t ≠ "" → tk_Archived t = false → topic ≠ 0 →
  tf_tasks (q_tasks w1) = <[task_name (us_ID user) (tk_TaskID t) := Some (with_updated now t)]> tasks →
  tf_topics (q_tasks w1) !! topic_name (us_ID user) chat topic = Some (Some (tk_TaskID t)) →
  ∀ adopt, ∃ w2, ResolveTask user chat topic adopt w1 = (Ok (with_updated now t), w2) ∧ q_tasks w2 = q_tasks w1.
Proof.
  intros Hu Hid Hlive Hz Htasks Hbound adopt.
  cut (wp (ResolveTask user chat topic adopt) (λ r w2, r = Ok (with_updated now t) ∧ q_tasks w2 = q_tasks w1) w1).
  { unfold wp. destruct (ResolveTask _ _ _ _ w1) as [r w2]. intros [-> Hrest]. by exists w2. }
  unfold ResolveTask. apply Z.eqb_neq in Hz. rewrite Hz. apply wp_bind, wq_pointer; [done|by intros s; simpl; rewrite Hbound|].
  intros s. simpl. rewrite Hbound. simpl. rewrite bool_decide_eq_false_2 by done. apply wp_bind. unfold live_task.
  apply wp_bind, wp_try. eapply wq_load; [done|simpl; rewrite Htasks; apply lookup_insert_eq|done..|]. intros s1. simpl. rewrite Hlive.
  apply wp_ret. by apply wp_ret.
Qed.

(** Creating is idempotent by name. When no file call fails and a call made a task with a
    name, then the same call again, from any chat and topic, makes no second: it returns the
    stored task and changes neither a record nor a topic.  A message in the topic of the new
    task is resolved to it, and that changes nothing. *)
Theorem create_replayed user chat topic name cur w t w1 :
  TrimSpace name ≠ "" → CreateTask user chat topic name cur w = (Ok (t, true), w1) →
  ∃ now, tf_tasks (q_tasks w1) = <[task_name (us_ID user) (tk_TaskID t) := Some (with_updated now t)]> (tf_tasks (q_tasks w)) ∧
    (∀ chat' topic' cur', ∃ w2, CreateTask user chat' topic' name cur' w1 = (Ok (with_updated now t, false), w2) ∧
       tf_tasks (q_tasks w2) = tf_tasks (q_tasks w1) ∧ tf_topics (q_tasks w2) = tf_topics (q_tasks w1)) ∧
    (topic ≠ 0 → ∀ adopt, ∃ w2, ResolveTask user chat topic adopt w1 = (Ok (with_updated now t), w2) ∧ q_tasks w2 = q_tasks w1).
Proof.
  intros Hne Hx. destruct (run_wp _ _ _ _ _ Hx (create_new user chat topic name cur w Hne) t eq_refl)
    as (Hv & Hname & Hid & Hu & Hchat & Htopic & Hnone & now & Htasks & Hbound).
  exists now. split_and!; [done|by eapply create_again|].
  intros Hz. eapply resolve_new; eauto. unfold named in Hname. by destruct (tk_Archived t).
Qed.
End Create.
