(* ===== verification/TasksWitness.v ===== *)
(** The theorems about tasks at a concrete hub, and a topic lost to an archived task. *)
From stdpp Require Import base gmap strings list pretty sorting relations.
From Stdlib Require Import Ascii String.
From S2P Require Import Prelude GoStrings BrokerIdentity Contract Calendar Cron RoutineTypes Timing Schedules SchedulesWitness SpoolTypes SpoolQueue SpoolWork SpoolStream SpoolFrame SpoolSpec SpoolRefine SpoolOps SpoolProps SpoolWitness Tasks TasksProps TasksSystem TasksCreate.
Local Open Scope string_scope.
Local Open Scope Z_scope.

Module TasksExample.
Import SchedulesExample SpoolExample.

(** A hash without collisions. *)
#[export] Instance plain : RoutineWorld := {|
r_sha256_hex := λ s, s;
format_RFC3339Nano := λ t, pretty t;
ParseDuration := λ _, None;
|}.

#[export] Instance ids : TaskWorld := {|
task_random := λ n, pretty n;
auto_name := λ _ _, "session";
sort_tasks := λ l, l;
sort_tasks_perm := λ l, Permutation_refl l;
|}.

Definition alice : User := mkUser "alice" [7] "".
Definition bob : User := mkUser "bob" [9] "".

Definition act (w : Hub) (c : User * TaskOp) : Hub := (texec c.1 c.2 w).2.
Definition acts_of (cs : list (User * TaskOp)) (w : Hub) : Hub := foldl act w cs.

Lemma acts_alive cs w : alive w → alive (acts_of cs w).
Proof.
  revert w. induction cs as [|[u o] cs IH]; intros w Hw; simpl; [done|]. apply IH. destruct Hw as (s & us & a & Hr). exists s, us, a.
  eapply rtc_r; [exact Hr|]. eapply (a_task _ u o). apply surjective_pairing.
Qed.

Definition start : Hub := installed day (Some []) no_tasks ∅.
Lemma start_alive : alive start.
Proof. by exists day, (Some []), ∅. Qed.

(** Two owners, each with a task. *)
Definition both : Hub := acts_of [(alice, TCreate 7 5 "plans" true); (bob, TCreate 9 0 "plans" true)] start.
Lemma both_alive : alive both.
Proof. apply acts_alive, start_alive. Qed.

Definition stored (w : Hub) : list (string * string * string) :=
map (λ t, (tk_PrincipalID t, tk_TaskID t, tk_ConversationID t)) (omap id (map_to_list (tf_tasks (q_tasks w))).*2).

Lemma tasks_well_formed_witness :
  stored both = [("alice", "t-1", "telegram-7-t-1"); ("bob", "t-11", "telegram-9-t-11")] ∧
  ∀ n t, tf_tasks (q_tasks both) !! n = Some (Some t) → tk_PrincipalID t = "alice" → tk_ConversationID t = "telegram-7-t-1" →
    n = task_name "alice" "t-1".
Proof.
  split; [vm_compute; reflexivity|]. intros n t Ht Hu Hc. destruct (tasks_well_formed both both_alive) as (_ & Hone & _).
  destruct (tf_tasks (q_tasks both) !! task_name "alice" "t-1") as [[t'|]|] eqn:Ht'; [|exfalso; revert Ht'; vm_compute; discriminate..].
  assert (Hs : (tk_PrincipalID t', tk_ConversationID t') = ("alice", "telegram-7-t-1")).
  { revert Ht'. vm_compute. intros [= <-]. reflexivity. }
  injection Hs as Hu' Hc'. apply (Hone n _ t t' Ht Ht'); congruence.
Defined.

(** Bob deletes his task of the same name. *)
Definition deleted : Hub := act both (bob, TDeleteBy 9 "plans").

Lemma tasks_isolated_witness :
  stored deleted = [("alice", "t-1", "telegram-7-t-1")] ∧ same_tasks "alice" (q_tasks both) (q_tasks deleted).
Proof.
  split; [vm_compute; reflexivity|].
  assert (Hinj : Inj (=) (=) (r_sha256_hex : string → string)) by (intros x y Hxy; exact Hxy).
  assert (Hx : texec bob (TDeleteBy 9 "plans") both = ((texec bob (TDeleteBy 9 "plans") both).1, deleted)) by apply surjective_pairing.
  exact (proj1 (tasks_isolated bob (TDeleteBy 9 "plans") both _ deleted "alice" Hinj eq_refl eq_refl (ltac:(discriminate)) both_alive Hx)).
Defined.

(** Deleting an archived task releases the topic it had, whoever holds it now: the live task
    still says topic 5, but a message in that topic no longer reaches it. *)
Definition moved_on : Hub :=
acts_of [(alice, TCreate 7 5 "plans" true); (alice, TArchive 7 "t-1"); (alice, TCreate 7 5 "next" false)] start.
Definition cleaned : Hub := acts_of [(alice, TDelete 7 "t-1")] moved_on.
Definition topic_of (w : Hub) : option (option string) := tf_topics (q_tasks w) !! topic_name "alice" 7 5.
Definition topics (w : Hub) : list (string * Z) := map (λ t, (tk_Name t, tk_TopicID t)) (omap id (map_to_list (tf_tasks (q_tasks w))).*2).

Example topic_lost :
  topics moved_on = [("next", 5); ("plans", 5)] ∧ is_Some (topic_of moved_on) ∧ topics cleaned = [("next", 5)] ∧ topic_of cleaned = None.
Proof. split_and!; [vm_compute; reflexivity|vm_compute; by eexists|vm_compute; reflexivity|vm_compute; reflexivity]. Qed.

(** The default task of a chat, once it was styled, is the default task of every chat: using
    it in another chat moves the pointer of the first. *)
Definition styled : Hub := acts_of [(alice, TStyle 7 "default" "brief"); (alice, TCreate 7 0 "plans" true); (alice, TUse 8 "default")] start.

Example other_chat_switched :
  tf_current (q_tasks styled) !! current_name "alice" 7 = Some (Some "default") ∧ tf_current (q_tasks styled) !! current_name "alice" 8 = None.
Proof. split; vm_compute; reflexivity. Qed.
End TasksExample.
