(* ===== verification/Governance.v ===== *)
(** Tool governance (internal/toolhub/api/governance.go, governance_grants.go and
    the catalog part of governance_io.go): the policy document, its validation, the
    evaluation of one (principal, section), and the life of a grant from a
    host-confirmed record to an in-conversation activation.

    Instants are nanoseconds in UTC, the zero [time.Time] being year 1.  Maps are
    [gmap]s; a missing key reads as the empty string, as in Go. *)
From stdpp Require Import base gmap strings list sorting.
From Stdlib Require Import Ascii String.
From S2P Require Import Prelude GoStrings.
Local Open Scope string_scope.

(** * Constants *)

Definition OwnerHermes := "hermes".
Definition OwnerHub := "hub".
Definition OwnerOrg := "org".
Definition OwnerUser := "user".
Definition OwnerExternal := "external".

Definition EffectRead := "read".
Definition EffectMutate := "mutate".
Definition EffectExec := "exec".
Definition EffectCredential := "credential".

Definition ScopeGlobal := "global".
Definition ScopeOrg := "org".
Definition ScopeUser := "user".
Definition ScopeDefault := "default".

Definition RuleAllow := "allow".
Definition RuleDeny := "deny".
Definition RuleCapRead := "cap:read".

Definition SectionUserMCP := "user_mcp".
Definition SectionOrgMCP := "org_mcp".
Definition SectionToolHub := "toolhub".
Definition SectionHubTools := "hub:tools".
Definition SectionHubBrowser := "hub:browser".

Definition GrantPending := "pending".
Definition GrantActive := "active".
Definition GrantRevoked := "revoked".

Definition ActiveStatus := "active".
Definition DisabledStatus := "disabled".
Definition RevokedStatus := "revoked".

Definition SchemaVersion : Z := 1.

(** [time.Time{}], and the first instant of year 10000. *)
Definition ZeroTime : Z := (-62135596800 * Second)%Z.
Definition Year10000 : Z := (253402300800 * Second)%Z.
Definition year_ok (t : Z) : bool := (ZeroTime <=? t)%Z && (t <? Year10000)%Z.

(** * Data *)

Record ToolSection := mkSection {
  s_ID : string; s_Owner : string; s_Official : bool; s_Dynamic : bool; s_Prepared : bool;
  s_Effect : string; s_Default : string;
}.

Record PolicyRule := mkRule {
  pr_RuleID : string; pr_Scope : string; pr_Subject : string; pr_Section : string;
  pr_Match : gmap string string; pr_Effect : string; pr_Reason : string; pr_GrantedBy : string;
  pr_GrantID : string; pr_ExpiresAt : Z; pr_Status : string; pr_Revision : Z;
}.

Record Confirmation := mkConfirmation {
  cf_Digest : string; cf_IssuedBy : string; cf_ConfirmedAt : Z;
}.

Record ToolGrant := mkToolGrant {
  tg_Schema : Z; tg_GrantID : string; tg_PrincipalID : string; tg_Section : string;
  tg_Match : gmap string string; tg_Reason : string; tg_GrantedBy : string; tg_ExpiresAt : Z;
  tg_Status : string; tg_Revision : Z; tg_RequestNonce : string; tg_RequestExpires : Z;
  tg_RequestedAt : Z; tg_AckedAt : Z; tg_CreatedAt : Z; tg_Confirmation : option Confirmation;
}.

Record GovChange := mkChange {
  gc_At : Z; gc_By : string; gc_Kind : string; gc_ID : string; gc_Revision : Z; gc_Reason : string;
}.

Record Governance := mkGovernance {
  gv_Schema : Z; gv_Revision : Z; gv_Inventory : list ToolSection; gv_Rules : list PolicyRule;
  gv_Grants : list ToolGrant; gv_History : list GovChange;
}.

Record PolicyDecision := mkDecision { dc_Effect : string; dc_Via : string; dc_Reason : string }.

Inductive GErr := ErrInvalid | ErrUnauthorized | ErrConflict | ErrNotFound | ErrRandom.

Global Instance ToolSection_eq_dec : EqDecision ToolSection.
Proof. solve_decision. Defined.
Global Instance PolicyRule_eq_dec : EqDecision PolicyRule.
Proof. solve_decision. Defined.
Global Instance Confirmation_eq_dec : EqDecision Confirmation.
Proof. solve_decision. Defined.
Global Instance ToolGrant_eq_dec : EqDecision ToolGrant.
Proof. solve_decision. Defined.

Definition Allowed (d : PolicyDecision) : bool := (dc_Effect d == RuleAllow) || (dc_Effect d == RuleCapRead).

Definition AllowsToolEffect (d : PolicyDecision) (effect : string) : bool :=
  if dc_Effect d == RuleAllow then true
  else if dc_Effect d == RuleCapRead then (effect == "") || (effect == EffectRead)
  else false.

(** * Patterns *)

Definition lower_digit (c : ascii) : bool := is_lower c || is_digit c.
Definition id_char (c : ascii) : bool := lower_digit c || is_char "_" c || is_char "-" c.

(** [identity.ValidID]: [^[a-z][a-z0-9_-]{0,39}$] *)
Definition ValidID (id : string) : bool := match_ident is_lower id_char 39 id.

(** [SectionIDPattern] *)
Definition section_head (s : string) : bool :=
  match s with
  | "" => false
  | String c s' => is_lower c && str_forallb (λ x, lower_digit x || is_char "_" x) s'
  end.
Definition section_part (s : string) : bool := match_ident is_lower id_char 39 s.
Definition SectionIDPattern (s : string) : bool :=
  match split_on ":" s with
  | [h] => section_head h
  | [h; p] => section_head h && section_part p
  | [h; p; q] => section_head h && section_part p && section_part q
  | _ => false
  end.

(** [attrKeyPattern] and [attrValuePattern] *)
Definition attrKey (s : string) : bool :=
  match_ident is_lower (λ x, lower_digit x || is_char "_" x) 39 s.
Definition attrValue (s : string) : bool :=
  str_forallb (λ c, lower_digit c || is_upper c || is_char "_" c || is_char "." c || is_char ":" c
                    || is_char "*" c || is_char "-" c) s
  && (1 <=? len s)%Z && (len s <=? 128)%Z.

(** [attrs[key]] *)
Definition attr (attrs : gmap string string) (k : string) : string := default "" (attrs !! k).

(** Every pair of a map. *)
Definition pairs_all (f : string → string → bool) (m : gmap string string) : bool :=
  forallb (λ p, f p.1 p.2) (map_to_list m).

(** * Sections *)

Definition Trust (t : ToolSection) : string :=
  if (s_Owner t == OwnerHermes) && s_Official t && negb (s_Dynamic t) then "platform"
  else if (s_Owner t == OwnerHub) && s_Official t then "hub"
  else if (s_Owner t == OwnerOrg) && s_Prepared t then "prepared"
  else if s_Owner t == OwnerUser then "user"
  else "external".

(** A check that fails with an error; [None] is [nil]. *)
Definition check (bad : bool) (e : GErr) (rest : option GErr) : option GErr :=
  if bad then Some e else rest.

Definition one_of (x : string) (l : list string) : bool := existsb (λ y, x == y) l.

Definition ToolSection_Validate (s : ToolSection) : option GErr :=
  check (negb (SectionIDPattern (s_ID s)) || (96 <? len (s_ID s))%Z) ErrInvalid
  (check (negb (one_of (s_Owner s) [OwnerHermes; OwnerHub; OwnerOrg; OwnerUser; OwnerExternal])) ErrInvalid
  (check (negb (one_of (s_Effect s) [EffectRead; EffectMutate; EffectExec; EffectCredential])) ErrInvalid
  (check ((s_Default s != RuleAllow) && (s_Default s != RuleDeny)) ErrInvalid None))).

(** * Rules *)

Definition validRuleTarget (r : PolicyRule) : option GErr :=
  check (Bool.eqb (pr_Section r == "") (bool_decide (pr_Match r = ∅))) ErrInvalid
  (check ((pr_Section r != "") && negb (SectionIDPattern (pr_Section r))) ErrInvalid
  (check (8 <? Z.of_nat (size (pr_Match r)))%Z ErrInvalid
  (check (negb (pairs_all (λ k v, attrKey k && attrValue v) (pr_Match r))) ErrInvalid None))).

Definition model_issuer (by_ : string) : bool := (by_ == "model") || (by_ == "hermes").
Definition bad_reason (reason : string) : bool :=
  (TrimSpace reason == "") || (512 <? len reason)%Z || ContainsAny reason crlfnul.

Definition PolicyRule_Validate (r : PolicyRule) : option GErr :=
  check (negb (ValidID (pr_RuleID r)) || (pr_Revision r =? 0)%Z) ErrInvalid
  (check (negb (if one_of (pr_Scope r) [ScopeGlobal; ScopeDefault] then pr_Subject r == ""
                else if one_of (pr_Scope r) [ScopeOrg; ScopeUser] then ValidID (pr_Subject r)
                else false)) ErrInvalid
  (match validRuleTarget r with
   | Some e => Some e
   | None =>
  check (negb (if one_of (pr_Effect r) [RuleAllow; RuleCapRead] then true
               else if pr_Effect r == RuleDeny
                    then negb ((pr_Scope r == ScopeDefault) && (pr_Section r == SectionUserMCP))
                    else false)) ErrInvalid
  (check (negb (ValidID (pr_GrantedBy r)) || model_issuer (pr_GrantedBy r)) ErrUnauthorized
  (check (bad_reason (pr_Reason r)) ErrInvalid
  (check (negb (pr_ExpiresAt r =? ZeroTime)%Z && negb (year_ok (pr_ExpiresAt r))) ErrInvalid
  (check (negb (one_of (pr_Status r) [ActiveStatus; DisabledStatus; RevokedStatus])) ErrInvalid
  (check ((pr_GrantID r != "") && negb (ValidID (pr_GrantID r))) ErrInvalid None)))))
   end)).

Definition PolicyRule_matches (r : PolicyRule) (section : string) (attrs : gmap string string) : bool :=
  if pr_Section r != "" then pr_Section r == section
  else pairs_all (λ key want, attr attrs key == want) (pr_Match r).

Definition ruleApplies (rule : PolicyRule) (scope subject section : string)
    (attrs : gmap string string) (now : Z) : bool :=
  if (pr_Scope rule != scope) || (pr_Status rule != ActiveStatus) then false
  else if ((scope == ScopeUser) || (scope == ScopeOrg)) && (pr_Subject rule != subject) then false
  else if negb (pr_ExpiresAt rule =? ZeroTime)%Z && (pr_ExpiresAt rule <=? now)%Z then false
  else PolicyRule_matches rule section attrs.

(** * Grants *)

Definition ToolGrant_Validate (t : ToolGrant) : option GErr :=
  check (negb (tg_Schema t =? SchemaVersion)%Z || negb (ValidID (tg_GrantID t))
         || negb (ValidID (tg_PrincipalID t)) || negb (SectionIDPattern (tg_Section t))
         || negb (ValidID (tg_GrantedBy t)) || (tg_Revision t =? 0)%Z) ErrInvalid
  (check (model_issuer (tg_GrantedBy t)) ErrUnauthorized
  (check ((tg_ExpiresAt t =? ZeroTime)%Z || negb (year_ok (tg_ExpiresAt t))) ErrInvalid
  (check (bad_reason (tg_Reason t)) ErrInvalid
  (check (negb (one_of (tg_Status t) [GrantPending; GrantActive; GrantRevoked])) ErrInvalid
  (check (negb (pairs_all (λ k v, attrKey k && (len v <=? 128)%Z && negb (ContainsAny v crlfnul)) (tg_Match t)))
     ErrInvalid
  (check (8 <? Z.of_nat (size (tg_Match t)))%Z ErrInvalid None)))))).

Definition ToolGrant_matches (t : ToolGrant) (principal section : string) (attrs : gmap string string) : bool :=
  if (tg_PrincipalID t != principal) || (tg_Section t != section) then false
  else pairs_all (λ key want, attr attrs key == want) (tg_Match t).

Definition grant_active (t : ToolGrant) (now : Z) : bool :=
  (tg_Status t == GrantActive) && (now <? tg_ExpiresAt t)%Z.

Definition grantAwaitingAck (t : ToolGrant) (now : Z) : bool :=
  (tg_Status t == GrantPending) && (tg_RequestNonce t != "") && (now <? tg_RequestExpires t)%Z
  && (now <? tg_ExpiresAt t)%Z.

(** * Evaluation *)

(** [strings.Compare] *)
Definition strings_Compare (a b : string) : Z :=
  match String.compare a b with Lt => (-1)%Z | Eq => 0%Z | Gt => 1%Z end.

(** The insertion sort [slices.SortFunc] uses on at most 12 elements; the prefix
    sorted so far is kept with its last element first. *)
Section Sort.
Context {A : Type} (cmp : A → A → Z).

Fixpoint sift (x : A) (sorted_rev : list A) : list A :=
  match sorted_rev with
  | [] => [x]
  | y :: rest => if (cmp x y <? 0)%Z then y :: sift x rest else x :: y :: rest
  end.

Definition insertion_sort (l : list A) : list A :=
  reverse (fold_left (λ acc x, sift x acc) l []).
End Sort.

(** [slices.SortFunc] beyond 12 elements: some permutation. *)
Class LargeSort := {
  pdqsort : ∀ {A : Type}, (A → A → Z) → list A → list A;
  pdqsort_perm : ∀ {A : Type} cmp (l : list A), pdqsort cmp l ≡ₚ l;
}.

Definition SortFunc `{LargeSort} {A} (cmp : A → A → Z) (l : list A) : list A :=
  if (List.length l <=? 12)%nat then insertion_sort cmp l else pdqsort cmp l.

(** The comparison of rules of the same scope and kind. *)
Definition rule_cmp (a b : PolicyRule) : Z :=
  if (pr_Effect a != pr_Effect b) && (pr_Effect a == RuleDeny) then (-1)%Z
  else if (pr_Effect a != pr_Effect b) && (pr_Effect b == RuleDeny) then 1%Z
  else if (pr_Effect a != pr_Effect b) && (pr_Effect a == RuleCapRead) then (-1)%Z
  else strings_Compare (pr_RuleID a) (pr_RuleID b).

Section Evaluate.
Context `{LargeSort}.
Variables (g : Governance) (principal org section : string) (attrs : gmap string string) (now : Z).

(** [subjects[scope]] *)
Definition subject_of (scope : string) : string :=
  if scope == ScopeUser then principal else if scope == ScopeOrg then org else "".

Definition applies (scope : string) (rule : PolicyRule) : bool :=
  ruleApplies rule scope (subject_of scope) section attrs now.

(** Phase 1 *)
Fixpoint deny_phase (scopes : list string) : option PolicyDecision :=
  match scopes with
  | [] => None
  | scope :: rest =>
      match List.find (λ rule, (pr_Effect rule == RuleDeny) && applies scope rule) (gv_Rules g) with
      | Some rule => Some (mkDecision RuleDeny "deny" (pr_Reason rule))
      | None => deny_phase rest
      end
  end.

(** Phase 2 *)
Definition grant_phase : option PolicyDecision :=
  match List.find (λ t, grant_active t now && ToolGrant_matches t principal section attrs) (gv_Grants g) with
  | Some t => Some (mkDecision RuleAllow "grant" (tg_Reason t))
  | None => None
  end.

(** Phase 3: at one scope, section rules before attribute rules. *)
Definition candidates (scope : string) : list (list PolicyRule) :=
  let here := List.filter (applies scope) (gv_Rules g) in
  [List.filter (λ r, pr_Section r != "") here; List.filter (λ r, pr_Section r == "") here].

Fixpoint first_candidate (scope : string) (cs : list (list PolicyRule)) : option PolicyDecision :=
  match cs with
  | [] => None
  | c :: rest =>
      match SortFunc rule_cmp c with
      | [] => first_candidate scope rest
      | rule :: _ => Some (mkDecision (pr_Effect rule) scope (pr_Reason rule))
      end
  end.

Fixpoint scope_phase (scopes : list string) : option PolicyDecision :=
  match scopes with
  | [] => None
  | scope :: rest =>
      match first_candidate scope (candidates scope) with
      | Some d => Some d
      | None => scope_phase rest
      end
  end.

(** Phase 4 *)
Definition default_phase : PolicyDecision :=
  match List.find (λ s, s_ID s == section) (gv_Inventory g) with
  | Some s => mkDecision (s_Default s) "section" "inventory default"
  | None => mkDecision RuleDeny "unknown" "section not in the tool inventory"
  end.

Definition evaluate : PolicyDecision :=
  match deny_phase [ScopeUser; ScopeOrg; ScopeGlobal] with
  | Some d => d
  | None =>
      match grant_phase with
      | Some d => d
      | None =>
          match scope_phase [ScopeUser; ScopeOrg; ScopeGlobal; ScopeDefault] with
          | Some d => d
          | None => default_phase
          end
      end
  end.
End Evaluate.

(** [Evaluate], on a document that may be nil. *)
Definition Evaluate `{LargeSort} (g : option Governance) (principal org section : string)
    (attrs : gmap string string) (now : Z) : PolicyDecision :=
  match g with
  | None => mkDecision RuleDeny "unknown" "no governance document"
  | Some g => evaluate g principal org section attrs now
  end.

(** * The document *)

Fixpoint unique_valid {A} (validate : A → option GErr) (id : A → string) (seen : gset string)
    (l : list A) : option GErr :=
  match l with
  | [] => None
  | x :: rest =>
      match validate x with
      | Some e => Some e
      | None => if bool_decide (id x ∈ seen) then Some ErrInvalid
                else unique_valid validate id ({[id x]} ∪ seen) rest
      end
  end.

Definition or_else (a b : option GErr) : option GErr := match a with Some e => Some e | None => b end.

Definition Governance_Validate (o : option Governance) : option GErr :=
  match o with
  | None => Some ErrInvalid
  | Some g =>
      check (negb (gv_Schema g =? SchemaVersion)%Z || (gv_Revision g =? 0)%Z) ErrInvalid
      (check ((List.length (gv_Inventory g) =? 0)%nat || (4096 <? Z.of_nat (List.length (gv_Inventory g)))%Z
              || (4096 <? Z.of_nat (List.length (gv_Rules g)))%Z
              || (4096 <? Z.of_nat (List.length (gv_Grants g)))%Z) ErrInvalid
      (or_else (unique_valid ToolSection_Validate s_ID ∅ (gv_Inventory g))
      (check (negb (forallb (λ id, one_of id (map s_ID (gv_Inventory g)))
                [SectionUserMCP; SectionOrgMCP; SectionToolHub; SectionHubTools; SectionHubBrowser])) ErrInvalid
      (or_else (unique_valid PolicyRule_Validate pr_RuleID ∅ (gv_Rules g))
      (or_else (unique_valid ToolGrant_Validate tg_GrantID ∅ (gv_Grants g))
      (check (8192 <? Z.of_nat (List.length (gv_History g)))%Z ErrInvalid None))))))
  end.

Definition set_rules (r : list PolicyRule) (g : Governance) : Governance :=
  mkGovernance (gv_Schema g) (gv_Revision g) (gv_Inventory g) r (gv_Grants g) (gv_History g).
Definition set_grants (t : list ToolGrant) (g : Governance) : Governance :=
  mkGovernance (gv_Schema g) (gv_Revision g) (gv_Inventory g) (gv_Rules g) t (gv_History g).

(** [g.History[len(g.History)-8192:]] *)
Definition newest (n : nat) {A} (l : list A) : list A := drop (List.length l - n) l.

Definition record (kind id by_ reason : string) (now : Z) (g : Governance) : Governance :=
  let rev := u64 (gv_Revision g + 1) in
  mkGovernance (gv_Schema g) rev (gv_Inventory g) (gv_Rules g) (gv_Grants g)
    (newest (Z.to_nat 8192) (gv_History g ++ [mkChange now by_ kind id rev reason])%list).

Abbreviation GM := (M Governance GErr).

(** [for i, x := range l { if p(x) { ... } }]: the first element that matches, and its index. *)
Definition find_index {A} (p : A → bool) (l : list A) : option (nat * A) :=
  list_find (λ x, Is_true (p x)) l.

Definition validated (o : option GErr) : GM unit :=
  match o with Some e => mthrow_err e | None => mret tt end.

Definition PutRule (rule : PolicyRule) (now : Z) : GM unit :=
  validated (PolicyRule_Validate rule) ;;
  g ← get;
  match find_index (λ x, pr_RuleID x == pr_RuleID rule) (gv_Rules g) with
  | Some (i, existing) =>
      fail_if (pr_Revision rule <=? pr_Revision existing)%Z ErrConflict ;;
      modify (set_rules (<[i := rule]> (gv_Rules g)))
  | None => modify (set_rules (gv_Rules g ++ [rule])%list)
  end ;;
  modify (record "rule" (pr_RuleID rule) (pr_GrantedBy rule) (pr_Reason rule) now).

(** * The life of a grant *)

Definition NewToolGrant (clock : Z) (grantID principal section reason grantedBy : string) (expiresAt : Z)
    (m : gmap string string) : ToolGrant :=
  mkToolGrant SchemaVersion grantID principal section m reason grantedBy expiresAt GrantPending 1
    "" ZeroTime ZeroTime ZeroTime clock None.

(** What the grants use of the standard library: [encoding/json], [crypto/sha256] and
    [crypto/rand].  [grant_object] is the JSON object of a record, its values kept raw. *)
Class GrantWorld := {
  sha256_hex : string → string;
  grant_object : ToolGrant → option (gmap string string);
  object_Marshal : gmap string string → string;
  hex_nonce : nat → option string;             (** [None] when the random source fails *)
  hex_nonce_set : ∀ n s, hex_nonce n = Some s → s ≠ "";
}.

(** The digest a host operator confirms: of the record without its confirmation. *)
Definition ConfirmationDigest `{GrantWorld} (t : ToolGrant) : string :=
  match grant_object t with
  | None => ""
  | Some shadow => "sha256:" ++ sha256_hex (object_Marshal (delete "confirmation" shadow))
  end.

Definition set_confirmation (c : option Confirmation) (t : ToolGrant) : ToolGrant :=
  mkToolGrant (tg_Schema t) (tg_GrantID t) (tg_PrincipalID t) (tg_Section t) (tg_Match t) (tg_Reason t)
    (tg_GrantedBy t) (tg_ExpiresAt t) (tg_Status t) (tg_Revision t) (tg_RequestNonce t) (tg_RequestExpires t)
    (tg_RequestedAt t) (tg_AckedAt t) (tg_CreatedAt t) c.

Definition newConfirmation `{GrantWorld} (t : ToolGrant) (issuer : string) (now : Z) : res GErr Confirmation :=
  if negb (ValidID issuer) || model_issuer issuer then Err ErrUnauthorized
  else
    let digest := ConfirmationDigest t in
    if digest == "" then Err ErrInvalid else Ok (mkConfirmation digest issuer now).

(** [Confirm] on a tool grant; the stamped record, or the error. *)
Definition Confirm `{GrantWorld} (t : ToolGrant) (issuer : string) (now : Z) : res GErr ToolGrant :=
  let issuer := if issuer == "" then tg_GrantedBy t else issuer in
  match newConfirmation (set_confirmation None t) issuer now with
  | Err e => Err e
  | Ok c => Ok (set_confirmation (Some c) t)
  end.

(** [DeterministicID] *)
Definition DeterministicID `{GrantWorld} (prefix : string) (values : list string) : string :=
  prefix ++ "-" ++ String.substring 0 24
    (sha256_hex (String.concat "" (map (λ v, v ++ String NUL "") values))).

Definition validConfirmation `{GrantWorld} (c : option Confirmation) (t : ToolGrant) (issuer : string) : bool :=
  match c with
  | None => false
  | Some c => (cf_IssuedBy c == issuer) && (cf_Digest c != "") && (cf_Digest c == ConfirmationDigest t)
              && negb (cf_ConfirmedAt c =? ZeroTime)%Z && (cf_ConfirmedAt c <? Year10000)%Z
  end.

Section Grants.
Context `{GrantWorld}.

Definition PutToolGrant (grant : ToolGrant) (now : Z) : GM unit :=
  fail_if ((tg_Status grant != GrantPending) && (tg_Status grant != GrantRevoked)) ErrInvalid ;;
  validated (ToolGrant_Validate grant) ;;
  fail_if ((tg_Status grant == GrantPending)
           && negb (validConfirmation (tg_Confirmation grant) grant (tg_GrantedBy grant))) ErrUnauthorized ;;
  g ← get;
  match find_index (λ x, tg_GrantID x == tg_GrantID grant) (gv_Grants g) with
  | Some (i, existing) =>
      fail_if (tg_Revision grant <=? tg_Revision existing)%Z ErrConflict ;;
      modify (set_grants (<[i := grant]> (gv_Grants g)))
  | None => modify (set_grants (gv_Grants g ++ [grant])%list)
  end ;;
  modify (record "grant" (tg_GrantID grant) (tg_GrantedBy grant) (tg_Reason grant) now).

Definition PendingToolGrants `{LargeSort} (g : Governance) (principal section : string) (now : Z) : list ToolGrant :=
  SortFunc (λ a b, (tg_CreatedAt b - tg_CreatedAt a)%Z)
    (List.filter (λ t, (tg_Status t == GrantPending) && (tg_PrincipalID t == principal)
                  && ((section == "") || (tg_Section t == section)) && (now <? tg_ExpiresAt t)%Z) (gv_Grants g)).

Definition with_request (nonce : string) (now : Z) (t : ToolGrant) : ToolGrant :=
  mkToolGrant (tg_Schema t) (tg_GrantID t) (tg_PrincipalID t) (tg_Section t) (tg_Match t) (tg_Reason t)
    (tg_GrantedBy t) (tg_ExpiresAt t) (tg_Status t) (u64 (tg_Revision t + 1)) nonce (now + 15 * Minute)
    now (tg_AckedAt t) (tg_CreatedAt t) (tg_Confirmation t).

Definition with_status (status : string) (acked : Z) (t : ToolGrant) : ToolGrant :=
  mkToolGrant (tg_Schema t) (tg_GrantID t) (tg_PrincipalID t) (tg_Section t) (tg_Match t) (tg_Reason t)
    (tg_GrantedBy t) (tg_ExpiresAt t) status (u64 (tg_Revision t + 1)) "" (tg_RequestExpires t)
    (tg_RequestedAt t) acked (tg_CreatedAt t) (tg_Confirmation t).

(** The nonce drawn is the [n]-th of the random source. *)
Definition RequestToolGrant (n : nat) (principal grantID : string) (now : Z) : GM ToolGrant :=
  g ← get;
  match find_index (λ t, (tg_GrantID t == grantID) && (tg_PrincipalID t == principal)) (gv_Grants g) with
  | None => mthrow_err ErrNotFound
  | Some (i, grant) =>
      fail_if ((tg_Status grant != GrantPending) || negb (now <? tg_ExpiresAt grant)%Z) ErrInvalid ;;
      nonce ← some_or (hex_nonce n) ErrRandom;
      let grant' := with_request nonce now grant in
      modify (set_grants (<[i := grant']> (gv_Grants g))) ;;
      modify (record "request" (tg_GrantID grant) principal (tg_Section grant) now) ;;
      mret grant'
  end.

Definition AcknowledgeToolGrant (principal grantID nonce : string) (now : Z) : GM ToolGrant :=
  g ← get;
  match find_index (λ t, (tg_GrantID t == grantID) && (tg_PrincipalID t == principal)) (gv_Grants g) with
  | None => mthrow_err ErrNotFound
  | Some (i, grant) =>
      fail_if (negb (grantAwaitingAck grant now)) ErrInvalid ;;
      fail_if ((nonce == "") || (nonce != tg_RequestNonce grant)) ErrUnauthorized ;;
      let grant' := with_status GrantActive now grant in
      modify (set_grants (<[i := grant']> (gv_Grants g))) ;;
      modify (record "acknowledge" (tg_GrantID grant) principal ("grant activated: " ++ tg_Section grant) now) ;;
      mret grant'
  end.

Definition RevokeToolGrant (grantID by_ reason : string) (now : Z) : GM unit :=
  fail_if (negb (ValidID by_) || model_issuer by_) ErrUnauthorized ;;
  g ← get;
  match find_index (λ t, tg_GrantID t == grantID) (gv_Grants g) with
  | None => mthrow_err ErrNotFound
  | Some (i, grant) =>
      modify (set_grants (<[i := with_status GrantRevoked (tg_AckedAt grant) grant]> (gv_Grants g))) ;;
      modify (record "revoke" (tg_GrantID grant) by_ reason now)
  end.
End Grants.

(** * The shipped catalog (governance_io.go) *)

Definition native (name effect : string) : ToolSection :=
  mkSection ("native:" ++ name) OwnerHermes true false false effect RuleDeny.
Definition hub (id effect : string) : ToolSection :=
  mkSection id OwnerHub true false true effect RuleAllow.

Definition SeedInventory : list ToolSection :=
  [native "terminal" EffectExec;
   native "code_execution" EffectExec;
   native "file" EffectMutate;
   native "web" EffectRead;
   native "search" EffectRead;
   native "x_search" EffectRead;
   native "skills" EffectRead;
   native "todo" EffectMutate;
   native "cronjob" EffectMutate;
   native "messaging" EffectMutate;
   native "memory" EffectMutate;
   native "session_search" EffectRead;
   native "browser" EffectMutate;
   native "image_gen" EffectMutate;
   native "video" EffectRead;
   native "video_gen" EffectMutate;
   native "vision" EffectRead;
   native "kanban" EffectMutate;
   native "spotify" EffectMutate;
   native "homeassistant" EffectMutate;
   native "tts" EffectRead;
   native "feishu_doc" EffectMutate;
   native "feishu_drive" EffectMutate;
   native "clarify" EffectRead;
   native "debugging" EffectRead;
   native "project" EffectMutate;
   native "safe" EffectRead;
   native "meet" EffectMutate;
   native "transcription" EffectRead;
   native "deep_research" EffectRead;
   hub SectionHubTools EffectMutate;
   hub SectionHubBrowser EffectMutate;
   hub "hub:browser_guest" EffectMutate;
   hub "hub:github" EffectMutate;
   hub "hub:gitlab" EffectMutate;
   hub "hub:google" EffectMutate;
   hub "hub:slack" EffectMutate;
   hub "hub:atlassian" EffectMutate;
   hub "hub:telegram_user" EffectMutate;
   hub "hub:desktop" EffectMutate;
   hub "hub:drafts" EffectMutate;
   hub "hub:files" EffectMutate;
   hub "hub:documents" EffectMutate;
   hub "hub:images" EffectMutate;
   hub "hub:artifacts" EffectMutate;
   hub "hub:routines" EffectMutate;
   hub "hub:assignments" EffectMutate;
   hub "hub:services" EffectMutate;
   hub "hub:settings" EffectMutate;
   hub "hub:image_gen" EffectMutate;
   hub "hub:hh" EffectMutate;
   hub "hub:ssh" EffectExec;
   hub "hub:hosting" EffectExec;
   hub "hub:exposure" EffectExec;
   hub "hub:terminal" EffectExec;
   hub "hub:web" EffectMutate;
   hub "hub:skills" EffectRead;
   hub "hub:skills_manage" EffectMutate;
   mkSection SectionUserMCP OwnerUser false false false EffectCredential RuleDeny;
   mkSection SectionOrgMCP OwnerOrg true false true EffectMutate RuleAllow;
   mkSection SectionToolHub OwnerOrg true true true EffectMutate RuleAllow].

Definition DefaultRules : list PolicyRule :=
  [mkRule "default-external-deny" ScopeDefault "" "" {["owner" := OwnerExternal]} RuleDeny
     "shipped default: external/unprepared installs require a grant" "operator" "" ZeroTime ActiveStatus 1].

Definition NewGovernance : Governance :=
  mkGovernance SchemaVersion 1 SeedInventory DefaultRules [] [].

Definition migration_rule `{GrantWorld} (principal section : string) : PolicyRule :=
  mkRule (DeterministicID "govrule" [ScopeUser; principal; section; "migration"]) ScopeUser principal section ∅
    RuleAllow "migration: section was reachable before governance existed" "migration" "" ZeroTime ActiveStatus 1.

Definition MigrationSeed `{GrantWorld} (principal : string) (preserve : list string) (now : Z) : Governance :=
  let rules := map (migration_rule principal) preserve in
  mkGovernance SchemaVersion 1 SeedInventory (DefaultRules ++ rules)%list []
    (mkChange now "migration" "seed" "inventory" 1 ""
     :: map (λ r, mkChange now "migration" "migrate" (pr_RuleID r) 1 (pr_Section r)) rules)%list.

Definition find_section (g : Governance) (id : string) : option ToolSection :=
  List.find (λ s, s_ID s == id) (gv_Inventory g).

(** [byID]: the last index of each id in the inventory the loop starts from. *)
Definition by_id (inv : list ToolSection) : gmap string nat :=
  fold_left (λ m p, <[s_ID p.2 := p.1]> m) (imap pair inv) ∅.

Definition set_default (default_ : string) (s : ToolSection) : ToolSection :=
  mkSection (s_ID s) (s_Owner s) (s_Official s) (s_Dynamic s) (s_Prepared s) (s_Effect s) default_.

Definition reconcile_section (byID : gmap string nat) (inv : list ToolSection) (section : ToolSection) :
    list ToolSection :=
  match byID !! s_ID section with
  | Some i => alter (set_default (s_Default section)) i inv
  | None => (inv ++ [section])%list
  end.

Definition reconcileInventory (g : Governance) : Governance :=
  mkGovernance (gv_Schema g) (gv_Revision g)
    (fold_left (reconcile_section (by_id (gv_Inventory g))) SeedInventory (gv_Inventory g))
    (gv_Rules g) (gv_Grants g) (gv_History g).

Definition Sprint (b : bool) : string := if b then "true" else "false".

Definition SectionAttrs (s : ToolSection) : gmap string string :=
  <["owner" := s_Owner s]> (<["official" := Sprint (s_Official s)]> (<["dynamic" := Sprint (s_Dynamic s)]>
    (<["prepared" := Sprint (s_Prepared s)]> {["effect" := s_Effect s]}))).

(** The extract handed to the executors. *)
Record ToolPolicySnapshot := mkSnapshot {
  tp_Schema : Z; tp_Revision : Z; tp_Principal : string; tp_DenyAll : bool;
  tp_Deny : list string; tp_ReadOnly : list string;
}.

Definition Denied (p : option ToolPolicySnapshot) (family : string) : bool :=
  match p with None => false | Some p => tp_DenyAll p || one_of family (tp_Deny p) end.
Definition CappedReadOnly (p : option ToolPolicySnapshot) (family : string) : bool :=
  match p with None => false | Some p => negb (tp_DenyAll p) && one_of family (tp_ReadOnly p) end.
