(* ===== verification/GovernanceProps.v ===== *)
(** Theorems about tool governance: what a decision means, that denials cannot be
    widened, and that a grant becomes active in one way only. *)
From stdpp Require Import base gmap strings list sorting.
From Stdlib Require Import Ascii String.
From S2P Require Import Prelude GoStrings Governance.
Local Open Scope string_scope.

(** * Sorting *)

Section Sorting.
Context `{LargeSort}.

Lemma sift_perm {A} (cmp : A → A → Z) x l : sift cmp x l ≡ₚ x :: l.
Proof.
  induction l as [|y l IH]; simpl; [done|]. destruct (_ <? _)%Z; [|done].
  rewrite IH. apply Permutation_swap.
Qed.

Lemma SortFunc_perm {A} (cmp : A → A → Z) l : SortFunc cmp l ≡ₚ l.
Proof.
  unfold SortFunc. destruct (_ <=? _)%nat; [|apply pdqsort_perm]. unfold insertion_sort.
  rewrite reverse_Permutation.
  assert (∀ acc, fold_left (λ acc x, sift cmp x acc) l acc ≡ₚ l ++ acc)%list as Hl.
  { induction l as [|x l IH]; intros acc; simpl; [done|]. rewrite IH, sift_perm. by rewrite Permutation_middle. }
  by rewrite Hl, app_nil_r.
Qed.
End Sorting.

(** * Decisions *)

Section Decisions.
Context `{LargeSort}.
Implicit Types (g : Governance) (attrs : gmap string string) (r : PolicyRule).

Lemma find_some {A} (p : A → bool) l x : List.find p l = Some x → x ∈ l ∧ p x = true.
Proof. intros [Hin Hp]%List.find_some. by rewrite list_elem_of_In. Qed.
Lemma find_none {A} (p : A → bool) l : List.find p l = None → ∀ x, x ∈ l → p x = false.
Proof. intros Hn x Hx%list_elem_of_In. by eapply List.find_none. Qed.

(** A denial in force at one of the real scopes. *)
Definition denies g principal org section attrs now r : Prop :=
  r ∈ gv_Rules g ∧ pr_Effect r = RuleDeny ∧
  ∃ scope, scope ∈ [ScopeUser; ScopeOrg; ScopeGlobal] ∧
    applies principal org section attrs now scope r = true.

Lemma deny_phase_some g p o s a n scopes d : deny_phase g p o s a n scopes = Some d →
  dc_Effect d = RuleDeny ∧ ∃ r scope, r ∈ gv_Rules g ∧ pr_Effect r = RuleDeny ∧ scope ∈ scopes ∧
    applies p o s a n scope r = true ∧ d = mkDecision RuleDeny "deny" (pr_Reason r).
Proof.
  induction scopes as [|scope scopes IH]; simpl; [done|].
  destruct (List.find _ _) as [r|] eqn:Hf.
  - intros [= <-]. split; [done|]. apply find_some in Hf as [Hin Hr]. guards. exists r, scope. set_solver.
  - intros (? & r & sc & ? & ? & ? & ? & ?)%IH. split; [done|]. exists r, sc. set_solver.
Qed.

Lemma deny_phase_none g p o s a n scopes : deny_phase g p o s a n scopes = None →
  ∀ r scope, r ∈ gv_Rules g → pr_Effect r = RuleDeny → scope ∈ scopes → applies p o s a n scope r = false.
Proof.
  induction scopes as [|sc scopes IH]; simpl; [set_solver|].
  destruct (List.find _ _) eqn:Hf; [done|]. intros Hn r scope Hr He [->|Hs]%elem_of_cons; [|by eapply IH].
  pose proof (find_none _ _ Hf r Hr) as Hx. cbn beta in Hx. by rewrite bool_decide_eq_true_2 in Hx.
Qed.

Lemma first_candidate_spec scope cs d : first_candidate scope cs = Some d →
  ∃ c r, c ∈ cs ∧ r ∈ c ∧ d = mkDecision (pr_Effect r) scope (pr_Reason r).
Proof.
  induction cs as [|c cs IH]; simpl; [done|]. destruct (SortFunc rule_cmp c) as [|r l] eqn:Hs.
  - intros (c' & r & ? & ? & ?)%IH. exists c', r. set_solver.
  - intros [= <-]. exists c, r. split_and!; [set_solver| |done].
    rewrite <- (SortFunc_perm rule_cmp c), Hs. set_solver.
Qed.

Lemma first_candidate_none scope cs : first_candidate scope cs = None → ∀ c, c ∈ cs → c = [].
Proof.
  induction cs as [|c cs IH]; simpl; [set_solver|]. destruct (SortFunc rule_cmp c) as [|r l] eqn:Hs; [|done].
  intros Hn c' [->|Hc]%elem_of_cons; [|by apply IH].
  apply Permutation_nil. by rewrite <- (SortFunc_perm rule_cmp c), Hs.
Qed.

Lemma elem_of_lfilter {A} (f : A → bool) l x : x ∈ List.filter f l ↔ x ∈ l ∧ f x = true.
Proof. rewrite !list_elem_of_In. apply filter_In. Qed.

Lemma candidates_spec g p o s a n scope r :
  (∃ c, c ∈ candidates g p o s a n scope ∧ r ∈ c) ↔ r ∈ gv_Rules g ∧ applies p o s a n scope r = true.
Proof.
  unfold candidates. split.
  - intros (c & [->|[->|Hc]%elem_of_cons]%elem_of_cons & Hr); [| |set_solver];
      apply elem_of_lfilter in Hr as [[? ?]%elem_of_lfilter _]; done.
  - intros [Hin Ha]. destruct (bool_decide (pr_Section r = "")) eqn:Hs.
    + eexists. split; [right; left|]. apply elem_of_lfilter. split; [by apply elem_of_lfilter|done].
    + eexists. split; [left|]. apply elem_of_lfilter. split; [by apply elem_of_lfilter|by rewrite Hs].
Qed.

#[local] Arguments first_candidate : simpl never.

(** The rule that decides: in force at [scope], with nothing in force at the scopes before. *)
Lemma scope_phase_spec g p o s a n scopes d : scope_phase g p o s a n scopes = Some d →
  ∃ before scope after r, scopes = (before ++ scope :: after)%list ∧ r ∈ gv_Rules g ∧
    applies p o s a n scope r = true ∧ d = mkDecision (pr_Effect r) scope (pr_Reason r) ∧
    ∀ r' sc, r' ∈ gv_Rules g → sc ∈ before → applies p o s a n sc r' = false.
Proof.
  induction scopes as [|scope scopes IH]; simpl; [done|].
  destruct (first_candidate _ _) as [d'|] eqn:Hf.
  - intros [= <-]. apply first_candidate_spec in Hf as (c & r & Hc & Hr & ->).
    destruct (proj1 (candidates_spec g p o s a n scope r)) as [Hin Ha]; [by exists c|].
    exists [], scope, scopes, r. split_and!; try done. set_solver.
  - intros (before & sc & after & r & -> & Hr & Ha & -> & Hb)%IH. exists (scope :: before), sc, after, r.
    split_and!; try done. intros r' sc' Hr' [->|Hsc]%elem_of_cons; [|by apply Hb].
    destruct (applies p o s a n scope r') eqn:Hx; [|done]. exfalso.
    destruct (proj2 (candidates_spec g p o s a n scope r')) as (c & Hc & Hrc); [done|].
    rewrite (first_candidate_none _ _ Hf c Hc) in Hrc. set_solver.
Qed.

Lemma scope_phase_none g p o s a n scopes : scope_phase g p o s a n scopes = None →
  ∀ r sc, r ∈ gv_Rules g → sc ∈ scopes → applies p o s a n sc r = false.
Proof.
  induction scopes as [|scope scopes IH]; simpl; [set_solver|].
  destruct (first_candidate _ _) eqn:Hf; [done|]. intros Hn r sc Hr [->|Hsc]%elem_of_cons; [|by apply IH].
  destruct (applies p o s a n scope r) eqn:Hx; [|done]. exfalso.
  destruct (proj2 (candidates_spec g p o s a n scope r)) as (c & Hc & Hrc); [done|].
  rewrite (first_candidate_none _ _ Hf c Hc) in Hrc. set_solver.
Qed.
End Decisions.

(** C38. A denial at user, organization or global scope is absolute: while such a rule
      is in force for the principal and section, no grant, no rule and no default
      makes the section reachable; and without a document nothing is. *)
Theorem deny_is_absolute `{LargeSort} (g : option Governance) principal org section attrs now :
  (∀ doc, g = Some doc → ∃ r, denies doc principal org section attrs now r) →
  dc_Effect (Evaluate g principal org section attrs now) = RuleDeny ∧
  Allowed (Evaluate g principal org section attrs now) = false ∧
  ∀ effect, AllowsToolEffect (Evaluate g principal org section attrs now) effect = false.
Proof.
  intros Hd. assert (dc_Effect (Evaluate g principal org section attrs now) = RuleDeny) as He.
  { destruct g as [doc|]; [|done]. destruct (Hd doc eq_refl) as (r & Hr & Heff & scope & Hs & Ha).
    simpl. unfold evaluate. destruct (deny_phase _ _ _ _ _ _ _) eqn:Hp.
    - by apply deny_phase_some in Hp as [? _].
    - by rewrite (deny_phase_none _ _ _ _ _ _ _ Hp r scope) in Ha. }
  unfold Allowed, AllowsToolEffect. by rewrite He.
Qed.

(** Every way to reach a section: when a decision allows anything, no denial is in
      force at a real scope, and it comes from an active grant of this very principal
      and section, or from an allowing rule in force at the most specific scope that
      has any rule in force, or, with no rule in force at all, from an inventoried
      section whose default is to allow. *)
Theorem allowed_only_by `{LargeSort} g principal org section attrs now :
  Allowed (Evaluate (Some g) principal org section attrs now) = true →
  (∀ r, ¬ denies g principal org section attrs now r) ∧
  ((∃ t, t ∈ gv_Grants g ∧ tg_Status t = GrantActive ∧ (now < tg_ExpiresAt t)%Z ∧
      tg_PrincipalID t = principal ∧ tg_Section t = section) ∨
   (∃ before scope after r,
      [ScopeUser; ScopeOrg; ScopeGlobal; ScopeDefault] = (before ++ scope :: after)%list ∧
      r ∈ gv_Rules g ∧ applies principal org section attrs now scope r = true ∧
      (pr_Effect r = RuleAllow ∨ pr_Effect r = RuleCapRead) ∧
      ∀ r' sc, r' ∈ gv_Rules g → sc ∈ before → applies principal org section attrs now sc r' = false) ∨
   (∃ s, s ∈ gv_Inventory g ∧ s_ID s = section ∧ (s_Default s = RuleAllow ∨ s_Default s = RuleCapRead) ∧
      ∀ r sc, r ∈ gv_Rules g → sc ∈ [ScopeUser; ScopeOrg; ScopeGlobal; ScopeDefault] →
        applies principal org section attrs now sc r = false)).
Proof.
  simpl. unfold evaluate. destruct (deny_phase _ _ _ _ _ _ _) as [d|] eqn:Hd.
  { apply deny_phase_some in Hd as [He _]. unfold Allowed. rewrite He. done. }
  intros Hal. split.
  { intros r (Hr & He & scope & Hs & Ha). by rewrite (deny_phase_none _ _ _ _ _ _ _ Hd r scope) in Ha. }
  assert (Hcases : ∀ e v m, Allowed (mkDecision e v m) = true → e = RuleAllow ∨ e = RuleCapRead).
  { intros e v m. unfold Allowed. simpl. intros [Hx|Hx]%orb_true_iff; guards; auto. }
  destruct (grant_phase _ _ _ _ _) as [d|] eqn:Hg.
  { left. unfold grant_phase in Hg. destruct (List.find _ _) as [t|] eqn:Hf; [|done].
    apply find_some in Hf as [Hin Ht]. unfold grant_active, ToolGrant_matches in Ht.
    destruct (_ || _) eqn:Hm in Ht; [by rewrite andb_false_r in Ht|]. guards. exists t. done. }
  right. destruct (scope_phase _ _ _ _ _ _ _) as [d|] eqn:Hs.
  - left. apply scope_phase_spec in Hs as (before & scope & after & r & Hsc & Hr & Ha & -> & Hb).
    apply Hcases in Hal. by exists before, scope, after, r.
  - right. unfold default_phase in Hal. destruct (List.find _ _) as [s|] eqn:Hf; [|done].
    apply find_some in Hf as [Hin Hid]. guards. apply Hcases in Hal. exists s. split_and!; try done.
    by apply scope_phase_none.
Qed.

(** * Where active grants come from *)

Section Provenance.
Context `{GrantWorld}.
Implicit Types (g : Governance) (t c : ToolGrant).

(** Everything that changes the document. *)
Inductive gop :=
  | GPutRule (rule : PolicyRule) (now : Z)
  | GPutGrant (grant : ToolGrant) (now : Z)
  | GRequest (n : nat) (principal grantID : string) (now : Z)
  | GAcknowledge (principal grantID nonce : string) (now : Z)
  | GRevoke (grantID by_ reason : string) (now : Z).

Definition run_gop (op : gop) (g : Governance) : Governance :=
  match op with
  | GPutRule rule now => (PutRule rule now g).2
  | GPutGrant grant now => (PutToolGrant grant now g).2
  | GRequest n p id now => (RequestToolGrant n p id now g).2
  | GAcknowledge p id nonce now => (AcknowledgeToolGrant p id nonce now g).2
  | GRevoke id by_ reason now => (RevokeToolGrant id by_ reason now g).2
  end.

(** The document after a sequence of operations, successful or not. *)
Definition run_gops (ops : list gop) (g : Governance) : Governance := fold_left (λ g op, run_gop op g) ops g.

(** What a grant is for; no operation changes it. *)
Definition terms t := (tg_GrantID t, tg_PrincipalID t, tg_Section t, tg_Match t, tg_Reason t,
                       tg_GrantedBy t, tg_ExpiresAt t).

(** Confirmed by the host operator that issued it. *)
Definition confirmed c : Prop :=
  tg_Status c = GrantPending ∧ ToolGrant_Validate c = None ∧
  validConfirmation (tg_Confirmation c) c (tg_GrantedBy c) = true.

Definition issued (ops : list gop) t : Prop :=
  ∃ c now, GPutGrant c now ∈ ops ∧ confirmed c ∧ terms c = terms t.

(** The nonce was drawn for a request of the grant's own principal, or came with the
    confirmed record. *)
Definition requested (ops : list gop) t (nonce : string) (until : Z) : Prop :=
  (∃ n now, GRequest n (tg_PrincipalID t) (tg_GrantID t) now ∈ ops ∧ hex_nonce n = Some nonce ∧
     until = (now + 15 * Minute)%Z) ∨
  (∃ c now, GPutGrant c now ∈ ops ∧ confirmed c ∧ terms c = terms t ∧
     tg_RequestNonce c = nonce ∧ tg_RequestExpires c = until).

Definition acknowledged (ops : list gop) t : Prop :=
  ∃ nonce now until, GAcknowledge (tg_PrincipalID t) (tg_GrantID t) nonce now ∈ ops ∧
    nonce ≠ "" ∧ (now < until)%Z ∧ requested ops t nonce until.

Record grant_ok (ops : list gop) t : Prop := {
  go_issued : tg_Status t ≠ GrantRevoked → issued ops t;
  go_requested : tg_Status t = GrantPending → tg_RequestNonce t ≠ "" →
    requested ops t (tg_RequestNonce t) (tg_RequestExpires t);
  go_acknowledged : tg_Status t = GrantActive → acknowledged ops t;
  go_status : tg_Status t ∈ [GrantPending; GrantActive; GrantRevoked];
}.

Lemma issued_mono ops ops' t : ops ⊆ ops' → issued ops t → issued ops' t.
Proof. intros Hs (c & now & ? & ?). exists c, now. split; [by apply Hs|done]. Qed.
Lemma requested_mono ops ops' t n u : ops ⊆ ops' → requested ops t n u → requested ops' t n u.
Proof.
  intros Hs [(k & now & ? & ?)|(c & now & ? & ?)]; [left; exists k, now|right; exists c, now];
    split; try done; by apply Hs.
Qed.
Lemma grant_ok_mono ops ops' t : ops ⊆ ops' → grant_ok ops t → grant_ok ops' t.
Proof.
  intros Hs [Hi Hr Ha Hst]. split; [| | |done].
  - intros. by eapply issued_mono, Hi.
  - intros. by eapply requested_mono, Hr.
  - intros Hact. destruct (Ha Hact) as (n & now & u & ? & ? & ? & ?). exists n, now, u.
    split_and!; try done; [by apply Hs|by eapply requested_mono].
Qed.

Lemma find_index_spec {A} (p : A → bool) l i x : find_index p l = Some (i, x) →
  l !! i = Some x ∧ p x = true.
Proof. unfold find_index. intros (Hi & Hp & _)%list_find_Some. split; [done|]. by apply Is_true_eq_true. Qed.

Lemma elem_of_update {A} (l : list A) i x y : y ∈ <[i := x]> l → y = x ∨ y ∈ l.
Proof.
  rewrite !list_elem_of_lookup. intros [k Hk]. destruct (decide (k = i)) as [->|Hne].
  - left. apply list_lookup_insert_Some in Hk. naive_solver.
  - right. exists k. by rewrite list_lookup_insert_ne in Hk.
Qed.

Lemma record_grants kind id by_ reason now g : gv_Grants (record kind id by_ reason now g) = gv_Grants g.
Proof. done. Qed.

Lemma put_grant_ok ops grant now g :
  GPutGrant grant now ∈ ops → Forall (grant_ok ops) (gv_Grants g) →
  wp (PutToolGrant grant now) (λ _ g', Forall (grant_ok ops) (gv_Grants g')) g.
Proof.
  intros Hop Hall. unfold PutToolGrant. apply wp_bind, wp_fail_if; [done|]. intros Hst.
  apply wp_bind. unfold validated. destruct (ToolGrant_Validate grant) eqn:Hv; [done|]. apply wp_ret.
  apply wp_bind, wp_fail_if; [done|]. intros Hcf. apply wp_bind, wp_get.
  assert (grant_ok ops grant) as Hok.
  { assert (tg_Status grant = GrantPending → confirmed grant) as Hc.
    { intros Hp. split_and!; try done. rewrite bool_decide_eq_true_2 in Hcf by done. simpl in Hcf. by guards. }
    apply andb_false_iff in Hst. assert (tg_Status grant = GrantPending ∨ tg_Status grant = GrantRevoked) as Hs.
    { destruct Hst as [Hst|Hst]; guards; auto. }
    split.
    - intros Hne. destruct Hs as [Hs|Hs]; [|done]. exists grant, now. auto.
    - intros Hp _. right. exists grant, now. auto.
    - intros Ha. exfalso. rewrite Ha in Hs. by destruct Hs.
    - set_solver. }
  apply wp_bind. destruct (find_index _ _) as [[i existing]|].
  - apply wp_bind, wp_fail_if; [done|intros _]. apply wp_modify, wp_modify. rewrite record_grants. simpl.
    apply Forall_forall. intros t [->|Ht]%elem_of_update; [done|]. by eapply Forall_forall in Hall.
  - apply wp_modify, wp_modify. rewrite record_grants. simpl. apply Forall_app. split; [done|]. by apply Forall_singleton.
Qed.

Lemma request_ok ops n p id now g :
  GRequest n p id now ∈ ops → Forall (grant_ok ops) (gv_Grants g) →
  wp (RequestToolGrant n p id now) (λ _ g', Forall (grant_ok ops) (gv_Grants g')) g.
Proof.
  intros Hop Hall. unfold RequestToolGrant. apply wp_bind, wp_get.
  destruct (find_index _ _) as [[i t]|] eqn:Hf; [|done]. apply find_index_spec in Hf as [Hi Hp]. guards. subst.
  apply wp_bind, wp_fail_if; [done|]. intros Hg. guards.
  apply wp_bind, wp_some_or; [|done]. intros nonce Hn.
  apply wp_bind, wp_modify, wp_bind, wp_modify, wp_ret. rewrite record_grants. simpl.
  apply Forall_forall. intros t' [->|Ht]%elem_of_update; [|by eapply Forall_forall in Hall].
  pose proof (Forall_lookup_1 _ _ _ _ Hall Hi) as [Gi Gr Ga Gs].
  split; simpl; try done.
  intros _ _. left. by exists n, now.
Qed.

Lemma acknowledge_ok ops p id nonce now g :
  GAcknowledge p id nonce now ∈ ops → Forall (grant_ok ops) (gv_Grants g) →
  wp (AcknowledgeToolGrant p id nonce now) (λ _ g', Forall (grant_ok ops) (gv_Grants g')) g.
Proof.
  intros Hop Hall. unfold AcknowledgeToolGrant. apply wp_bind, wp_get.
  destruct (find_index _ _) as [[i t]|] eqn:Hf; [|done]. apply find_index_spec in Hf as [Hi Hp]. guards. subst.
  apply wp_bind, wp_fail_if; [done|]. intros Hg. apply wp_bind, wp_fail_if; [done|]. intros Hn. guards.
  unfold grantAwaitingAck in Hg. guards. subst.
  apply wp_bind, wp_modify, wp_bind, wp_modify, wp_ret. rewrite record_grants. simpl.
  apply Forall_forall. intros t' [->|Ht]%elem_of_update; [|by eapply Forall_forall in Hall].
  pose proof (Forall_lookup_1 _ _ _ _ Hall Hi) as [Gi Gr Ga Gs].
  rename select (tg_Status t = GrantPending) into Hpend.
  split; simpl; try done; [| |set_solver].
  - intros _. apply Gi. by rewrite Hpend.
  - intros _. exists (tg_RequestNonce t), now, (tg_RequestExpires t). simpl. split_and!; try done. by apply Gr.
Qed.

Lemma revoke_ok ops id by_ reason now g :
  Forall (grant_ok ops) (gv_Grants g) →
  wp (RevokeToolGrant id by_ reason now) (λ _ g', Forall (grant_ok ops) (gv_Grants g')) g.
Proof.
  intros Hall. unfold RevokeToolGrant. apply wp_bind, wp_fail_if; [done|intros _]. apply wp_bind, wp_get.
  destruct (find_index _ _) as [[i t]|]; [|done].
  apply wp_bind, wp_modify, wp_modify. rewrite record_grants. simpl.
  apply Forall_forall. intros t' [->|Ht]%elem_of_update; [|by eapply Forall_forall in Hall].
  split; simpl; try done. set_solver.
Qed.

Lemma put_rule_grants rule now g : wp (PutRule rule now) (λ _ g', gv_Grants g' = gv_Grants g) g.
Proof.
  unfold PutRule. apply wp_bind. destruct (PolicyRule_Validate rule); [done|]. apply wp_ret.
  apply wp_bind, wp_get, wp_bind. destruct (find_index _ _) as [[i x]|]; [|done].
  apply wp_bind, wp_fail_if; [done|intros _]. done.
Qed.

Lemma run_grants_ok all ops g : ops ⊆ all → Forall (grant_ok all) (gv_Grants g) →
  Forall (grant_ok all) (gv_Grants (run_gops ops g)).
Proof.
  revert g. induction ops as [|op ops IH]; intros g Hsub Hall; [done|]. simpl. apply IH; [set_solver|].
  assert (op ∈ all) as Hop by set_solver.
  destruct op; simpl; apply (wp_snd _ (λ g, Forall (grant_ok all) (gv_Grants g))).
  - eapply wp_mono; [apply put_rule_grants|]. by intros _ g' ->.
  - by apply put_grant_ok.
  - by apply request_ok.
  - by apply acknowledge_ok.
  - by apply revoke_ok.
Qed.
End Provenance.

(** C40. A grant can only become active the intended way.  However the operations are
      interleaved on a document that started without grants, an active grant was
      confirmed by the host operator who issued it, on the very terms it still has, and
      acknowledged by its own principal, in time, with the non-empty nonce of a request
      of that principal (or of the confirmed record). *)
Theorem active_grant_provenance `{GrantWorld} ops g t :
  gv_Grants g = [] → t ∈ gv_Grants (run_gops ops g) → tg_Status t = GrantActive →
  issued ops t ∧ acknowledged ops t.
Proof.
  intros Hg Ht Hact. pose proof (run_grants_ok ops ops g (λ x Hx, Hx)) as Hall.
  rewrite Hg in Hall. specialize (Hall (Forall_nil_2 _)). rewrite Forall_forall in Hall.
  destruct (Hall t Ht) as [Hi _ Ha _]. split; [apply Hi; by rewrite Hact|by apply Ha].
Qed.

(** * Two observations about the shipped code *)

(** Rules of one scope and kind: the comparison puts a cap before an allow whichever
    way it is asked only when the cap has the smaller id, so it is not an order. *)
Definition cap_b : PolicyRule :=
  mkRule "b" ScopeOrg "acme" SectionHubTools ∅ RuleCapRead "read only" "operator" "" ZeroTime ActiveStatus 1.
Definition allow_a : PolicyRule :=
  mkRule "a" ScopeOrg "acme" SectionHubTools ∅ RuleAllow "open" "operator" "" ZeroTime ActiveStatus 1.
Definition doc_with (rules : list PolicyRule) : Governance :=
  mkGovernance SchemaVersion 1 SeedInventory rules [] [].

(** Two rules of one organization for one section, a cap to reading and an allow:
    the decision depends on the order they are stored in, and stored as the cap
    first, the cap is lost. *)
Theorem cap_lost_to_storage_order `{LargeSort} :
  Governance_Validate (Some (doc_with [cap_b; allow_a])) = None ∧
  Governance_Validate (Some (doc_with [allow_a; cap_b])) = None ∧
  dc_Effect (Evaluate (Some (doc_with [cap_b; allow_a])) "alice" "acme" SectionHubTools ∅ 0) = RuleAllow ∧
  dc_Effect (Evaluate (Some (doc_with [allow_a; cap_b])) "alice" "acme" SectionHubTools ∅ 0) = RuleCapRead.
Proof. split_and!; vm_compute; reflexivity. Qed.

(** A fresh document lets everyone use the terminal and public endpoints of the hub. *)
Theorem shipped_exec_sections_open `{LargeSort} principal org now :
  Governance_Validate (Some NewGovernance) = None ∧
  Evaluate (Some NewGovernance) principal org "hub:terminal" ∅ now =
    mkDecision RuleAllow "section" "inventory default" ∧
  Evaluate (Some NewGovernance) principal org "hub:exposure" ∅ now =
    mkDecision RuleAllow "section" "inventory default".
Proof. split_and!; vm_compute; reflexivity. Qed.
