(* ===== verification/GovernanceWitness.v ===== *)
(** Concrete policy documents that meet the hypotheses of the governance theorems. *)
From stdpp Require Import base gmap strings list sorting.
From Stdlib Require Import Ascii String.
From S2P Require Import Prelude GoStrings Governance GovernanceProps.
Local Open Scope string_scope.

Module GovernanceExample.
Definition identity_sort : LargeSort :=
  {| pdqsort := λ A cmp l, l; pdqsort_perm := λ A cmp l, reflexivity l |}.

Definition world : GrantWorld.
Proof.
  refine {| sha256_hex := λ s, s;
            grant_object := λ t, Some {["grant_id" := tg_GrantID t; "confirmation" := "set"]};
            object_Marshal := λ m, default "" (m !! "grant_id");
            hex_nonce := λ n, Some "5f3a" |}.
  intros n s [= <-]. done.
Defined.

(** Grants for web reading by [alice], confirmed by [operator]. *)
Definition confirmed_grant : ToolGrant :=
  mkToolGrant SchemaVersion "grant-1" "alice" "native:web" ∅ "needs the web" "operator" (3600 * Second)
    GrantPending 1 "" ZeroTime ZeroTime ZeroTime 0 (Some (mkConfirmation "sha256:grant-1" "operator" 0)).

Definition story : list gop :=
  [GPutGrant confirmed_grant 0; GRequest 0 "alice" "grant-1" (10 * Second);
   GAcknowledge "alice" "grant-1" "5f3a" (20 * Second)].

Definition active_grant : ToolGrant :=
  with_status GrantActive (20 * Second) (with_request "5f3a" (10 * Second) confirmed_grant).

Definition deny_terminal : PolicyRule :=
  mkRule "no-terminal" ScopeGlobal "" "hub:terminal" ∅ RuleDeny "not here" "operator" "" ZeroTime ActiveStatus 1.

Definition denied_doc : Governance := doc_with [deny_terminal].
End GovernanceExample.
Import GovernanceExample.

Lemma deny_is_absolute_witness :
  ∃ r, denies denied_doc "alice" "acme" "hub:terminal" ∅ 0 r ∧
  Allowed (@Evaluate identity_sort (Some denied_doc) "alice" "acme" "hub:terminal" ∅ 0) = false.
Proof.
  assert (denies denied_doc "alice" "acme" "hub:terminal" ∅ 0 deny_terminal) as Hd.
  { split; [left|]. split; [done|]. exists ScopeGlobal. split; [by right; right; left|by vm_compute]. }
  exists deny_terminal. split; [done|].
  apply (@deny_is_absolute identity_sort (Some denied_doc) "alice" "acme" "hub:terminal" ∅ 0).
  intros doc [= <-]. by exists deny_terminal.
Defined.

Lemma allowed_only_by_witness :
  Allowed (@Evaluate identity_sort (Some NewGovernance) "alice" "acme" "hub:web" ∅ 0) = true ∧
  (∀ r, ¬ denies NewGovernance "alice" "acme" "hub:web" ∅ 0 r).
Proof.
  split; [by vm_compute|]. apply (@allowed_only_by identity_sort NewGovernance "alice" "acme" "hub:web" ∅ 0). by vm_compute.
Defined.

Lemma active_grant_provenance_witness :
  active_grant ∈ gv_Grants (@run_gops world story NewGovernance) ∧
  @issued world story active_grant ∧ @acknowledged world story active_grant.
Proof.
  assert (active_grant ∈ gv_Grants (@run_gops world story NewGovernance)) as Hin.
  { replace (gv_Grants (@run_gops world story NewGovernance)) with [active_grant] by (vm_compute; reflexivity). left. }
  split; [exact Hin|]. apply (@active_grant_provenance world story NewGovernance); [done|exact Hin|done].
Defined.
