(* ===== verification/ToolTypes.v ===== *)
(** The records of the tool registry (internal/toolhub/api: types.go, grants.go, validate.go,
    definition.go, labels.go) and what their validation asks.

    Instants are nanoseconds; a Go map is a [gmap], whose missing keys read as the zero
    value.  Two records are equal when their fields are, which is what comparing their JSON
    decides.  Of a tool definition only what the registry reads is spelled out; the rest is
    one opaque field. *)
From stdpp Require Import base gmap strings list pretty sorting.
From Stdlib Require Import Ascii String.
From S2P Require Import Prelude GoStrings Governance RoutineTypes Schedules.
Local Open Scope string_scope.
Local Open Scope Z_scope.

Inductive TErr := TInvalid | TNotFound | TConflict | TUnauthorized | TStale | TRevoked | TDegraded | TIO.

(** * Constants *)

Definition DeletingStatus := "deleting".
Definition DegradedStatus := "degraded".
Definition ReauthStatus := "reauth".
Definition StartingStatus := "starting".
Definition RunningStatus := "running".
Definition StoppedStatus := "stopped".
Definition FailedStatus := "failed".
Definition ExpiredStatus := "expired".

Definition Shared := "shared".
Definition PerUser := "per-user".
Definition PerJob := "per-job".

Definition PrincipalOwner := "principal".
Definition ContextOwner := "context".
Definition TeamOwner := "team".

Definition GrantCatalogDefault := "catalog-default".
Definition GrantDefinition := "definition".
Definition GrantSelfInstall := "self-install".
Definition GrantSharedCredential := "shared-credential".
Definition GrantControlOperation := "control-operation".
Definition PublicationCatalog := "catalog".
Definition PublicationUser := "user".
Definition OnboardingCatalog := "catalog".
Definition OnboardingSelfInstall := "self-install".
Definition OnboardingRemote := "remote-mcp".
Definition PhasePreparing := "preparing".
Definition PhaseConfirmed := "confirmed".
Definition PhaseEnabled := "enabled".
Definition PhaseDisabled := "disabled".
Definition PhaseRemoved := "removed".
Definition PhaseRevoked := "revoked".
Definition PhaseFailed := "failed".
Definition OpStateDone := "done".
Definition OpStateFailed := "failed".
Definition onboarding_phases : list string :=
  [PhasePreparing; "review"; "awaiting-credentials"; "awaiting-confirm"; "awaiting-oauth"; PhaseConfirmed; PhaseEnabled; PhaseDisabled;
   PhaseRevoked; PhaseRemoved; "cleanup_incomplete"; PhaseFailed].

Definition LabelRecipe := "hermes-hub.recipe".
Definition LabelCredentialRecipe := "hermes-hub.credential-recipe".
Definition LabelAcceptSurface := "hermes-hub.accept-surface".
Definition LabelAcceptRecipe := "hermes-hub.accept-recipe".
Definition LabelAcceptCredential := "hermes-hub.accept-credential".

Definition MaxExecutionTimeout : Z := 300.
Definition MaxOutputBytes : Z := 8 * 1024 * 1024.

Definition ControlOperations : list string :=
  ["discover"; "prepare_source"; "status"; "required_credentials"; "confirm"; "enable"; "rotate"; "disable"; "revoke"; "remove";
   "diagnostics"; "grant_request"; "install_shared"].
Definition ValidControlOperation (operation : string) : bool := (operation == "invoke") || one_of operation ControlOperations.

(** * Patterns *)

(** [VersionPattern]: three numbers without leading zeros, then nothing or [-] or [+] and a
    rest. *)
Fixpoint span_digits (s : string) : string * string :=
  match s with
  | String c s' => if is_digit c then let '(d, r) := span_digits s' in (String c d, r) else ("", s)
  | EmptyString => ("", "")
  end.
Definition plain_number (d : string) : bool :=
  (d != "") && ((d == "0") || negb (HasPrefix d "0")).
Definition dotted (s : string) : option string :=
  let '(d, r) := span_digits s in
  match r with String c r' => if plain_number d && is_char "." c then Some r' else None | EmptyString => None end.
Definition VersionPattern (s : string) : bool :=
  match dotted s with
  | None => false
  | Some s =>
      match dotted s with
      | None => false
      | Some s =>
          let '(d, r) := span_digits s in
          plain_number d &&
          match r with
          | EmptyString => true
          | String c r => (is_char "-" c || is_char "+" c) && (r != "")
                          && str_forallb (λ c, is_digit c || is_upper c || is_lower c || is_char "." c || is_char "-" c) r
          end
      end
  end.

Definition DigestPattern (s : string) : bool :=
  HasPrefix s "sha256:" && (len s =? 71) && str_forallb (λ c, is_digit c || in_range c 97 102) (drop_str 7 s).
Definition CredentialPattern (s : string) : bool := match_ident is_upper (λ c, is_upper c || is_digit c || is_char "_" c) 63 s.
Definition low_name (c : ascii) : bool := is_lower c || is_digit c || is_char "_" c || is_char "." c || is_char "-" c.
Definition toolNamePattern (s : string) : bool := match_ident is_lower low_name 63 s.
Definition McpToolNamePattern (s : string) : bool :=
  match_ident (λ c, is_lower c || is_upper c || is_digit c) (λ c, low_name c || is_upper c) 127 s.
Definition HostPattern (s : string) : bool :=
  let host h := match_ident (λ c, is_lower c || is_digit c) (λ c, is_lower c || is_digit c || is_char "." c || is_char "-" c) 252 h in
  match split_on ":" s with
  | [h] => host h
  | [h; p] => host h && (1 <=? len p) && (len p <=? 5) && str_forallb is_digit p
  | _ => false
  end.

(** * Records *)

Record OwnerRef := mkOwner { ow_Type : string; ow_ID : string }.

Record CapabilityUse := mkUse { cu_Action : string; cu_Resource : string; cu_PathArgument : string }.

Record ToolSpec := mkTool {
  ts_Name : string; ts_Description : string; ts_Effect : string; ts_CapabilityID : string; ts_Uses : list CapabilityUse;
  ts_ArgumentEquals : gmap string string; ts_Rest : string;
}.

Record CredentialInput := mkInput { ci_Name : string; ci_Required : bool; ci_Rest : string }.

Record ToolDefinition := mkDefinition {
  td_DefinitionID : string; td_Version : string; td_Class : string; td_Shareable : string;
  td_Tools : list ToolSpec; td_Toolsets : gmap string (list string); td_DefaultEnabled : list string; td_DefaultExcluded : list string;
  td_Credentials : list CredentialInput; td_CredentialGroups : list (list string);
  td_ContractID : string; td_ContractRevision : Z; td_ContractEnv : gmap string string;
  td_OutputBytes : Z; td_TimeoutSeconds : Z; td_Rest : string;
}.

Record CredentialReference := mkReference {
  cr_Schema : Z; cr_CredentialRefID : string; cr_ConnectionID : string; cr_Revision : Z; cr_Backend : string; cr_Locator : string;
  cr_Keys : list string; cr_BrokerGrantID : string; cr_BrokerGrantPolicy : string; cr_BrokerGrantBinding : string;
  cr_BrokerContractID : string; cr_BrokerContractRevision : Z; cr_BrokerEnv : gmap string string; cr_BrokerContextID : string;
  cr_LegacyLocator : string; cr_MigrateRequestID : string; cr_Status : string;
}.

(** When a failed check is tried again, and how often it failed. *)
Record Retry := mkRetry { rt_At : Z; rt_Count : Z }.
Definition no_retry : Retry := mkRetry ZeroTime 0.

Record Connection := mkConnection {
  c_Schema : Z; c_ConnectionID : string; c_Owner : OwnerRef; c_DefinitionID : string; c_CredentialRefID : string; c_Revision : Z;
  c_Status : string; c_CredentialVisibility : string; c_CredentialCheckedAt : Z; c_HealthCause : string;
  c_CredentialRetry : Retry; c_RecipeRetry : Retry; c_CredRecipeRetry : Retry; c_SurfaceRetry : Retry;
  c_RecoveryWindowStart : Z; c_RecoveryCount : Z; c_TerminalExposure : bool; c_Metadata : gmap string string;
}.

Record BrokerBindingGrant := mkBrokerGrant {
  bg_BindingID : string; bg_ConnectionID : string; bg_CredentialRefID : string; bg_ContextID : string; bg_GrantID : string;
  bg_PolicyVersion : string;
}.

Record ToolBinding := mkBinding {
  b_Schema : Z; b_ToolBindingID : string; b_PrincipalID : string; b_ContextID : string; b_RuntimeID : string;
  b_DefinitionID : string; b_DefinitionVersion : string; b_ConnectionID : string; b_ConnectionRevision : Z; b_CredentialRefID : string;
  b_CredentialRevision : Z; b_PolicyVersion : string; b_WorkloadClass : string; b_Status : string; b_Revision : Z;
  b_ProjectionRevision : Z; b_ToolDigest : string; b_EnabledToolsets : list string;
}.

Record WorkloadInstance := mkWorkload {
  w_Schema : Z; w_WorkloadID : string; w_BindingID : string; w_DefinitionID : string; w_DefinitionVersion : string; w_Class : string;
  w_Owner : option OwnerRef; w_RuntimeID : string; w_JobID : string; w_Generation : Z; w_Status : string; w_StartedAt : Z; w_ExpiresAt : Z;
}.

Record Team := mkTeam {
  t_Schema : Z; t_TeamID : string; t_Members : list string; t_WriteMembers : list string; t_AllowWrites : bool; t_Revision : Z;
  t_IssuedBy : string; t_IssuedAt : Z; t_Status : string; t_Confirmation : option Confirmation;
}.

Record Grant := mkGrant {
  g_Schema : Z; g_GrantID : string; g_Kind : string; g_PrincipalID : string; g_DefinitionID : string; g_DefinitionVersion : string;
  g_Operation : string; g_IssuedBy : string; g_Status : string; g_Revision : Z; g_Confirmation : option Confirmation;
}.

Record DefinitionPublication := mkPublication {
  pb_DefinitionID : string; pb_Version : string; pb_Visibility : string; pb_OwnerPrincipalID : string;
}.

Record SharedCredentialPolicy := mkSharedPolicy {
  sp_Schema : Z; sp_PolicyID : string; sp_DefinitionID : string; sp_Locator : string; sp_StoreOwner : string; sp_Principals : list string;
  sp_IssuedBy : string; sp_Status : string;
}.

(** The resolution of a recipe, as its content. *)
Definition RecipeResolution := string.

(** An onboarding, as far as the registry reads it. *)
Record Onboarding := mkOnboarding {
  ob_Schema : Z; ob_OnboardingID : string; ob_PrincipalID : string; ob_ContextID : string; ob_RuntimeID : string; ob_PolicyVersion : string;
  ob_Mode : string; ob_DefinitionID : string; ob_DefinitionVersion : string; ob_Phase : string; ob_BindingID : string; ob_ConnectionID : string;
  ob_IdempotencyKey : string; ob_SupersededBy : string; ob_AdmissionPending : bool; ob_RecipeDigest : string;
  ob_EmbeddedRecipe : option RecipeResolution; ob_WritesEnabled : bool; ob_Revision : Z; ob_CreatedAt : Z;
  ob_Definition : option ToolDefinition; ob_Rest : string;
}.

(** A step and an operation of the connector journal. *)
Record OperationStep := mkOpStep { os_Name : string; os_State : string }.
Record Operation := mkOperation {
  op_Schema : Z; op_OperationID : string; op_Intent : string; op_Target : string; op_PrincipalID : string; op_ContextID : string;
  op_RuntimeID : string; op_PolicyVersion : string; op_RequestKey : string; op_State : string; op_Steps : list OperationStep;
  op_OnboardingID : string; op_SupersededBy : string; op_ErrorCode : string; op_CreatedAt : Z; op_UpdatedAt : Z;
}.

(** The move of a binding to another policy version. *)
Record bindingChange := mkBindingChange { bc_BindingID : string; bc_FromPolicy : string; bc_ToPolicy : string; bc_Revision : Z }.

Record RefreshLease := mkLease { rl_ConnectionID : string; rl_Provider : string; rl_Holder : string; rl_ExpiresAt : Z }.

Global Instance OwnerRef_eq_dec : EqDecision OwnerRef.
Proof. solve_decision. Defined.
Global Instance CapabilityUse_eq_dec : EqDecision CapabilityUse.
Proof. solve_decision. Defined.
Global Instance ToolSpec_eq_dec : EqDecision ToolSpec.
Proof. solve_decision. Defined.
Global Instance CredentialInput_eq_dec : EqDecision CredentialInput.
Proof. solve_decision. Defined.
Global Instance ToolDefinition_eq_dec : EqDecision ToolDefinition.
Proof. solve_decision. Defined.
Global Instance CredentialReference_eq_dec : EqDecision CredentialReference.
Proof. solve_decision. Defined.
Global Instance Retry_eq_dec : EqDecision Retry.
Proof. solve_decision. Defined.
Global Instance Connection_eq_dec : EqDecision Connection.
Proof. solve_decision. Defined.
Global Instance ToolBinding_eq_dec : EqDecision ToolBinding.
Proof. solve_decision. Defined.
Global Instance WorkloadInstance_eq_dec : EqDecision WorkloadInstance.
Proof. solve_decision. Defined.
Global Instance Grant_eq_dec : EqDecision Grant.
Proof. solve_decision. Defined.
Global Instance OperationStep_eq_dec : EqDecision OperationStep.
Proof. solve_decision. Defined.

(** ** Capability records *)

Record CapabilityLimits := mkCapLimits { cl_OutputBytes : Z; cl_TimeoutSeconds : Z }.

Record CapabilityRule := mkCapRule {
  ru_CapabilityID : string; ru_ImplementationDigest : string; ru_Action : string; ru_Resource : string; ru_ConnectionID : string;
  ru_PathPrefix : string; ru_Limits : CapabilityLimits; ru_ExpiresAt : Z;
}.

Record CapabilityGroup := mkGroup { gp_GroupID : string; gp_Revision : Z; gp_Members : list CapabilityRule }.

Record CapabilityPolicy := mkPolicy {
  po_Schema : Z; po_PolicyID : string; po_Organization : string; po_Members : list string; po_Revision : Z; po_IssuedBy : string;
  po_IssuedAt : Z; po_Reason : string; po_Status : string; po_Ceiling : list CapabilityRule; po_Defaults : list CapabilityRule;
  po_DefaultGroups : list CapabilityGroup; po_Denies : list CapabilityRule; po_Confirmation : option Confirmation;
}.

Record CapabilitySelection := mkSelection {
  se_CapabilityID : string; se_DefinitionID : string; se_DefinitionVersion : string; se_ImplementationDigest : string;
  se_ToolName : string; se_Name : string; se_ConnectionID : string;
}.

Record CapabilityProfile := mkProfile {
  pf_Schema : Z; pf_ProfileID : string; pf_PrincipalID : string; pf_ContextID : string; pf_RuntimeID : string; pf_Environment : string;
  pf_Generation : Z; pf_PolicyVersion : string; pf_PolicyID : string; pf_PolicyRevision : Z; pf_Revision : Z; pf_IssuedBy : string;
  pf_IssuedAt : Z; pf_Reason : string; pf_Status : string; pf_Selections : list CapabilitySelection; pf_Allows : list CapabilityRule;
  pf_AllowGroups : list CapabilityGroup; pf_Denies : list CapabilityRule; pf_ControlOperations : list string; pf_SelfInstall : bool;
  pf_Connectors : string; pf_Confirmation : option Confirmation;
}.

Inductive CapabilityChange := ChPolicy (p : CapabilityPolicy) | ChProfile (p : CapabilityProfile) | ChGrant (g : Grant).

Global Instance CapabilityLimits_eq_dec : EqDecision CapabilityLimits.
Proof. solve_decision. Defined.
Global Instance CapabilityRule_eq_dec : EqDecision CapabilityRule.
Proof. solve_decision. Defined.
Global Instance CapabilityGroup_eq_dec : EqDecision CapabilityGroup.
Proof. solve_decision. Defined.
Global Instance CapabilityPolicy_eq_dec : EqDecision CapabilityPolicy.
Proof. solve_decision. Defined.
Global Instance CapabilitySelection_eq_dec : EqDecision CapabilitySelection.
Proof. solve_decision. Defined.
Global Instance CapabilityProfile_eq_dec : EqDecision CapabilityProfile.
Proof. solve_decision. Defined.

(** What validation uses of other code: SHA-256 and JSON digests, the validation of a whole
    definition, and the parsing of endpoints and address prefixes. *)
Class ToolWorld := {
  t_sha256_hex : string → string;
  record_digest : CapabilityChange → string;
  definition_digest : ToolDefinition → string;
  definition_check : ToolDefinition → option TErr;
  endpoint_check : string → option TErr;
  prefix_parses : string → bool;
  resolution_digest : RecipeResolution → option string;
}.

(** * Validation *)

Definition refuse (bad : bool) (e : TErr) (rest : option TErr) : option TErr := if bad then Some e else rest.

(** Each of a list is new to the ones before it and passes. *)
Fixpoint distinct_and (ok : string → bool) (seen l : list string) : bool :=
  match l with
  | [] => true
  | x :: l => ok x && negb (one_of x seen) && distinct_and ok (x :: seen) l
  end.

(** [OwnerRef.Validate] and [OwnerRef.Matches] *)
Definition OwnerRef_Validate (o : OwnerRef) : option TErr :=
  refuse (negb (one_of (ow_Type o) [PrincipalOwner; ContextOwner; TeamOwner]) || negb (ValidID (ow_ID o))) TInvalid None.
Definition Matches (o : OwnerRef) (e : Envelope) : bool :=
  if ow_Type o == PrincipalOwner then ow_ID o == e_PrincipalID e
  else if ow_Type o == ContextOwner then ow_ID o == e_ContextID e
  else false.

(** [ToolDefinition.CredentialsSatisfied] *)
Definition CredentialsSatisfied (d : ToolDefinition) (present : string → bool) : bool :=
  let inGroup name := existsb (one_of name) (td_CredentialGroups d) in
  let groupComplete := existsb (λ g, negb (Nat.eqb (List.length g) 0) && forallb present g) (td_CredentialGroups d) in
  forallb (λ i, negb (ci_Required i && negb (present (ci_Name i)) && negb (inGroup (ci_Name i) && groupComplete))) (td_Credentials d).

(** [ToolDefinition.ProjectedToolSpecs] *)
Definition ProjectedToolSpecs (d : ToolDefinition) (b : ToolBinding) : list ToolSpec :=
  let staged := List.concat (map (λ set, default [] (td_Toolsets d !! set)) (b_EnabledToolsets b)) in
  if bool_decide (td_Toolsets d = ∅) && bool_decide (td_DefaultEnabled d = []) && bool_decide (td_DefaultExcluded d = []) then td_Tools d
  else List.filter (λ t, (one_of (ts_Name t) (td_DefaultEnabled d) || one_of (ts_Name t) staged)
                         && negb (one_of (ts_Name t) (td_DefaultExcluded d) && negb (one_of (ts_Name t) staged))) (td_Tools d).

(** [Team.Validate], [Team.IsMember] and [Team.CanWrite] *)
Definition Team_Validate (t : Team) : option TErr := refuse (bool_decide (t_Confirmation t = None)) TInvalid None.
Definition IsMember (t : Team) (principal : string) : bool := (t_Status t == ActiveStatus) && one_of principal (t_Members t).
Definition CanWrite (t : Team) (principal : string) : bool := IsMember t principal && (t_AllowWrites t || one_of principal (t_WriteMembers t)).

Section Validation.
Context `{ToolWorld} `{Unicode}.

(** [DeterministicID] *)
Definition deterministic_id (prefix : string) (values : list string) : string :=
  prefix ++ "-" ++ substring 0 24 (t_sha256_hex (String.concat "" (map (λ v, v ++ String NUL "") values))).
Definition CredentialReferenceID (connectionID : string) (revision : Z) : string :=
  deterministic_id "cred" [connectionID; pretty revision].
Definition DeterministicBindingID (principal context runtime definition version connection credential : string) : string :=
  deterministic_id "bind" [principal; context; runtime; definition; version; connection; credential].
Definition WorkloadInstanceID (definition class owner job : string) : string := deterministic_id "work" [definition; class; owner; job].

(** [CredentialReference.Validate] *)
Definition CredentialReference_Validate (r : CredentialReference) : option TErr :=
  refuse (negb (cr_Schema r =? SchemaVersion) || negb (ValidID (cr_CredentialRefID r)) || negb (ValidID (cr_ConnectionID r))
          || (cr_Revision r =? 0) || (cr_Backend r == "") || (cr_Locator r == "") || bool_decide (cr_Keys r = [])
          || negb (one_of (cr_Status r) [ActiveStatus; RevokedStatus])) TInvalid
  (refuse (ContainsAny (cr_Locator r) (String CR (String LF "=")) || (256 <? len (cr_Locator r))) TInvalid
  (refuse ((cr_Backend r == "credential-broker") &&
           (((cr_BrokerGrantID r != "") && negb (ValidID (cr_BrokerGrantID r))) || negb (ValidID (cr_BrokerContractID r))
            || (cr_BrokerContractRevision r <? 1)
            || ((cr_BrokerContextID r != "") && negb (ValidID (cr_BrokerContextID r)))
            || existsb (λ kv, negb (CredentialPattern kv.1) || negb (CredentialPattern kv.2)) (map_to_list (cr_BrokerEnv r)))) TInvalid
  (refuse (negb (distinct_and CredentialPattern [] (cr_Keys r))) TInvalid None))).

(** [ParseEgressList]: whether the list parses. *)
Definition ParseEgressList (raw : string) : bool :=
  let raw := TrimSpace raw in
  if raw == "" then true
  else
    let parts := split_on "," raw in
    (Z.of_nat (List.length parts) <=? 32) &&
    forallb (λ p, let e := ToLower (TrimSpace p) in (e != "") && (prefix_parses e || HostPattern e)) parts.

Definition retry_ok (r : Retry) : bool := (0 <=? rt_Count r) && (rt_Count r <=? 5) && negb ((rt_Count r =? 0) && negb (rt_At r =? ZeroTime)).

Definition meta (c : Connection) (key : string) : string := default "" (c_Metadata c !! key).

Definition metadata_ok (kv : string * string) : bool :=
  let key := ToLower kv.1 in
  match_ident is_lower low_name 63 kv.1 && (len kv.2 <=? 256) && negb (ContainsAny kv.2 (String CR (String LF "")))
  && negb (Contains key "token") && negb (Contains key "secret") && negb (Contains key "password").

(** [Connection.Validate] *)
Definition Connection_Validate (c : Connection) : option TErr :=
  refuse (negb (c_Schema c =? SchemaVersion) || negb (ValidID (c_ConnectionID c)) || negb (ValidID (c_DefinitionID c)) || (c_Revision c =? 0)
          || negb (one_of (c_Status c) [ActiveStatus; DisabledStatus; RevokedStatus; DegradedStatus; DeletingStatus; ReauthStatus])) TInvalid
  (match OwnerRef_Validate (c_Owner c) with
   | Some e => Some e
   | None =>
       refuse ((c_CredentialRefID c != "") && negb (ValidID (c_CredentialRefID c))) TInvalid
       (refuse (negb (one_of (c_CredentialVisibility c) [""; "active"; "inactive"; "unknown"])) TInvalid
       (refuse ((c_CredentialVisibility c != "") && (c_CredentialCheckedAt c =? ZeroTime)) TInvalid
       (refuse (negb (one_of (c_HealthCause c) [""; "credential_visibility_unknown"; "credential_check_unavailable"; "credential_inactive"])) TInvalid
       (refuse ((c_HealthCause c != "") && (c_CredentialVisibility c == "")) TInvalid
       (refuse (negb (forallb retry_ok [c_CredentialRetry c; c_RecipeRetry c; c_CredRecipeRetry c; c_SurfaceRetry c])) TInvalid
       (refuse (32 <? Z.of_nat (size (c_Metadata c))) TInvalid
       (refuse (negb (forallb metadata_ok (map_to_list (c_Metadata c)))) TInvalid
       (match (if meta c "mcp_endpoint" == "" then None else endpoint_check (meta c "mcp_endpoint")) with
        | Some e => Some e
        | None => refuse (negb (ParseEgressList (meta c "egress_allow")) || negb (ParseEgressList (meta c "egress_deny"))) TInvalid None
        end))))))))
   end).

(** [ToolBinding.Validate] *)
Definition ToolBinding_Validate (b : ToolBinding) : option TErr :=
  refuse (negb (b_Schema b =? SchemaVersion)
          || negb (forallb ValidID [b_ToolBindingID b; b_PrincipalID b; b_ContextID b; b_RuntimeID b; b_DefinitionID b])
          || negb (VersionPattern (b_DefinitionVersion b)) || negb (ValidID (b_PolicyVersion b)) || (b_Revision b =? 0)
          || (b_ProjectionRevision b =? 0)) TInvalid
  (refuse (negb (one_of (b_WorkloadClass b) [Shared; PerUser; PerJob])) TInvalid
  (refuse (negb (one_of (b_Status b) [ActiveStatus; DisabledStatus; RevokedStatus])) TInvalid
  (refuse ((b_ConnectionID b == "") && (negb (b_ConnectionRevision b =? 0) || (b_CredentialRefID b != "") || negb (b_CredentialRevision b =? 0))) TInvalid
  (refuse ((b_ConnectionID b != "") && (negb (ValidID (b_ConnectionID b)) || (b_ConnectionRevision b =? 0))) TInvalid
  (refuse ((b_CredentialRefID b != "") && (negb (ValidID (b_CredentialRefID b)) || (b_CredentialRevision b =? 0))) TInvalid None))))).

(** [WorkloadInstance.Validate] *)
Definition owned_by_context (o : option OwnerRef) : bool :=
  match o with Some o => (ow_Type o == ContextOwner) && ValidID (ow_ID o) | None => false end.
Definition WorkloadInstance_Validate (w : WorkloadInstance) : option TErr :=
  refuse (negb (w_Schema w =? SchemaVersion) || negb (ValidID (w_WorkloadID w)) || negb (ValidID (w_BindingID w)) || negb (ValidID (w_DefinitionID w))
          || negb (VersionPattern (w_DefinitionVersion w)) || (w_Generation w =? 0)) TInvalid
  (refuse (negb (one_of (w_Class w) [Shared; PerUser; PerJob])) TInvalid
  (refuse (negb (one_of (w_Status w) [StartingStatus; RunningStatus; StoppedStatus; FailedStatus; ExpiredStatus])) TInvalid
  (if w_Class w == Shared then refuse (bool_decide (is_Some (w_Owner w)) || (w_RuntimeID w != "") || (w_JobID w != "")) TInvalid None
   else if w_Class w == PerUser then
     refuse (negb (owned_by_context (w_Owner w)) || negb (ValidID (w_RuntimeID w)) || (w_JobID w != "")) TInvalid None
   else refuse (negb (owned_by_context (w_Owner w)) || negb (ValidID (w_RuntimeID w)) || negb (ValidID (w_JobID w)) || (w_ExpiresAt w =? ZeroTime))
          TInvalid None))).

(** [validConfirmation]; [record] is the record without its confirmation. *)
Definition confirmed (c : option Confirmation) (record : CapabilityChange) (issuer : string) : bool :=
  match c with
  | None => false
  | Some c => (cf_IssuedBy c == issuer) && (cf_Digest c != "") && (cf_Digest c == record_digest record)
              && negb (cf_ConfirmedAt c =? ZeroTime) && (cf_ConfirmedAt c <? Year10000)
  end.

(** [Grant.Validate] *)
Definition unstamped_grant (g : Grant) : Grant :=
  mkGrant (g_Schema g) (g_GrantID g) (g_Kind g) (g_PrincipalID g) (g_DefinitionID g) (g_DefinitionVersion g) (g_Operation g) (g_IssuedBy g)
    (g_Status g) (g_Revision g) None.
Definition grant_target_ok (g : Grant) : bool :=
  let bare := (g_DefinitionID g == "") && (g_DefinitionVersion g == "") in
  if g_Kind g == GrantControlOperation then ValidControlOperation (g_Operation g) && bare
  else if (g_Kind g == GrantCatalogDefault) || (g_Kind g == GrantSelfInstall) then bare
  else if g_Kind g == GrantDefinition then ValidID (g_DefinitionID g) && VersionPattern (g_DefinitionVersion g)
  else if g_Kind g == GrantSharedCredential then ValidID (g_DefinitionID g)
  else false.
Definition Grant_Validate (g : Grant) : option TErr :=
  refuse (negb (g_Schema g =? SchemaVersion) || negb (ValidID (g_GrantID g)) || negb (ValidID (g_PrincipalID g)) || negb (ValidID (g_IssuedBy g))
          || (g_Revision g =? 0)) TInvalid
  (refuse (model_issuer (g_IssuedBy g)) TUnauthorized
  (refuse (negb (one_of (g_Status g) [ActiveStatus; DisabledStatus; RevokedStatus])) TInvalid
  (refuse ((g_Kind g != GrantControlOperation) && (g_Operation g != "")) TInvalid
  (refuse (negb (grant_target_ok g)) TInvalid
  (refuse (negb (confirmed (g_Confirmation g) (ChGrant (unstamped_grant g)) (g_IssuedBy g))) TUnauthorized None))))).

(** [DefinitionPublication.Validate] *)
Definition DefinitionPublication_Validate (p : DefinitionPublication) : option TErr :=
  refuse (negb (ValidID (pb_DefinitionID p)) || negb (VersionPattern (pb_Version p))) TInvalid
  (if pb_Visibility p == PublicationCatalog then None
   else if pb_Visibility p == PublicationUser then refuse (negb (ValidID (pb_OwnerPrincipalID p))) TInvalid None
   else Some TInvalid).

(** [SharedCredentialPolicy.Validate] *)
Definition SharedCredentialPolicy_Validate (p : SharedCredentialPolicy) : option TErr :=
  refuse (negb (sp_Schema p =? SchemaVersion) || negb (forallb ValidID [sp_PolicyID p; sp_DefinitionID p; sp_StoreOwner p; sp_IssuedBy p])) TInvalid
  (refuse (model_issuer (sp_IssuedBy p)) TUnauthorized
  (refuse ((sp_Locator p == "") || ContainsAny (sp_Locator p) (String CR (String LF "=")) || (256 <? len (sp_Locator p))) TInvalid
  (refuse (negb (one_of (sp_Status p) [ActiveStatus; DisabledStatus; RevokedStatus])) TInvalid
  (refuse (bool_decide (sp_Principals p = []) || (256 <? Z.of_nat (List.length (sp_Principals p)))) TInvalid
  (refuse (negb (distinct_and ValidID [] (sp_Principals p))) TInvalid None))))).

(** [Onboarding.Validate] *)
Definition Onboarding_Validate (o : Onboarding) : option TErr :=
  refuse (negb (ob_Schema o =? SchemaVersion)
          || negb (forallb ValidID [ob_OnboardingID o; ob_PrincipalID o; ob_ContextID o; ob_RuntimeID o; ob_PolicyVersion o]) || (ob_Revision o =? 0))
    TInvalid
  (refuse (negb (one_of (ob_Mode o) [OnboardingCatalog; OnboardingSelfInstall; OnboardingRemote])) TInvalid
  (refuse (negb (one_of (ob_Phase o) onboarding_phases)) TInvalid
  (refuse ((ob_DefinitionID o != "") && negb (ValidID (ob_DefinitionID o))) TInvalid
  (refuse ((ob_DefinitionVersion o != "") && negb (VersionPattern (ob_DefinitionVersion o))) TInvalid None)))).

(** [Operation.Validate] *)
Definition Operation_Validate (o : Operation) : option TErr :=
  refuse (negb (ValidID (op_PrincipalID o))) TInvalid
  (refuse ((op_Target o == "") || negb (one_of (op_Intent o) ["install"; "enable"; "disable"; "reauth"; "allow_writes"; "remove"])) TInvalid
  (refuse (negb (one_of (op_State o) ["queued"; "awaiting_user"; "awaiting_confirm"; "running"; OpStateDone; OpStateFailed])) TInvalid
  (refuse (negb (distinct_and (λ _, true) [] (map os_Name (op_Steps o))) || negb (forallb (λ st, one_of (os_State st) ["pending"; "done"]) (op_Steps o)))
     TInvalid
  (refuse (negb (one_of (op_ErrorCode o) [""; "ambiguous_target"; "ambiguous_entrypoint"; "ambiguous_credential_contract"; "unsupported_auth";
                                          "probe_failed"; "cleanup_incomplete"; "not_permitted"; "quota"])) TInvalid None)))).

(** [RefreshLease.Validate] *)
Definition RefreshLease_Validate (l : RefreshLease) : option TErr :=
  refuse (negb (ValidID (rl_ConnectionID l)) || (rl_Provider l == "") || (rl_Holder l == "") || (rl_ExpiresAt l =? ZeroTime)) TInvalid None.
End Validation.

Example version_ex : map VersionPattern ["1.0.0"; "0.10.2-rc.1"; "01.0.0"; "1.0"; "1.0.0-"; "1.2.3+b"] = [true; true; false; false; false; true].
Proof. vm_compute. reflexivity. Qed.
