(* ===== verification/Capability.v ===== *)
(** Capability policies (internal/toolhub/api/capability_policy.go): the validation of
    policies and profiles, and the decision whether a managed call of a tool is admitted,
    with the limits and path boundaries it runs under. *)
From stdpp Require Import base gmap strings list sorting.
From Stdlib Require Import Ascii String.
From S2P Require Import Prelude GoStrings Governance RoutineTypes Schedules ToolTypes.
Local Open Scope string_scope.
Local Open Scope Z_scope.

Definition ConnectorsNone := "none".
Definition ConnectorsPersonal := "personal".
Definition ConnectorsPersonalTeam := "personal+team".
Definition ConnectorTools : list string :=
  ["connector_search"; "connector_install"; "connector_list"; "connector_status"; "connector_enable"; "connector_disable";
   "connector_allow_writes"; "connector_reauth"; "connector_remove"].

(** * Paths and rules *)

Definition capabilityIDPattern (s : string) : bool := match_ident is_lower low_name 95 s.

(** [ValidCapabilityPath] *)
Definition ValidCapabilityPath (value : string) : bool :=
  (value == "") ||
  ((len value <=? 4096) && (value != ".") && negb (HasPrefix value "/")
   && negb (ContainsAny value (String "\" (String ":" crlfnul))) && (path_Clean value == value)
   && (value != "..") && negb (HasPrefix value "../")).

(** [prefixContains] *)
Definition prefixContains (prefix value : string) : bool := (prefix == "") || (value == prefix) || HasPrefix value (prefix ++ "/").

(** [validPolicyRecord] *)
Definition validPolicyRecord (schema : Z) (id : string) (revision : Z) (issuer reason : string) (issuedAt : Z) (status : string) : bool :=
  (schema =? SchemaVersion) && ValidID id && (0 <? revision) && ValidID issuer && negb (issuedAt =? ZeroTime) && year_ok issuedAt
  && negb (model_issuer issuer) && (TrimSpace reason != "") && (len reason <=? 512)
  && negb (ContainsAny reason crlfnul) && one_of status [ActiveStatus; DisabledStatus; RevokedStatus].

Definition rule_ok (deny : bool) (r : CapabilityRule) : bool :=
  let l := ru_Limits r in
  capabilityIDPattern (ru_CapabilityID r) && DigestPattern (ru_ImplementationDigest r) && ValidID (ru_Action r) && ValidID (ru_Resource r)
  && ValidCapabilityPath (ru_PathPrefix r) && ((ru_ConnectionID r == "") || ValidID (ru_ConnectionID r))
  && ((ru_ExpiresAt r =? ZeroTime) || year_ok (ru_ExpiresAt r))
  && (if deny then l == mkCapLimits 0 0
      else (0 <? cl_OutputBytes l) && (cl_OutputBytes l <=? MaxOutputBytes) && (0 <? cl_TimeoutSeconds l)
           && (cl_TimeoutSeconds l <=? MaxExecutionTimeout)).

(** [validateCapabilityRules] *)
Definition validateCapabilityRules (rules : list CapabilityRule) (deny : bool) : option TErr :=
  refuse ((4096 <? Z.of_nat (List.length rules)) || negb (forallb (rule_ok deny) rules)) TInvalid None.

(** [sameCapabilityTuple] *)
Definition sameCapabilityTuple (a b : CapabilityRule) : bool :=
  (ru_CapabilityID a == ru_CapabilityID b) && (ru_ImplementationDigest a == ru_ImplementationDigest b) && (ru_Action a == ru_Action b)
  && (ru_Resource a == ru_Resource b) && (ru_ConnectionID a == ru_ConnectionID b).

(** No member repeats an earlier one. *)
Fixpoint members_distinct (seen l : list CapabilityRule) : bool :=
  match l with
  | [] => true
  | m :: l => negb (existsb (λ p, sameCapabilityTuple m p && (ru_PathPrefix m == ru_PathPrefix p)) seen) && members_distinct (m :: seen) l
  end.

Definition group_ok (g : CapabilityGroup) : bool :=
  ValidID (gp_GroupID g) && negb (gp_Revision g =? 0) && negb (Nat.eqb (List.length (gp_Members g)) 0)
  && (Z.of_nat (List.length (gp_Members g)) <=? 256) && forallb (rule_ok false) (gp_Members g) && members_distinct [] (gp_Members g).

(** [validateCapabilityGroups] *)
Definition validateCapabilityGroups (groups : list CapabilityGroup) : option TErr :=
  refuse ((256 <? Z.of_nat (List.length groups)) || negb (forallb group_ok groups)
          || negb (distinct_and (λ _, true) [] (map gp_GroupID groups))) TInvalid None.

(** [CheckGroupRevisions] *)
Definition CheckGroupRevisions (previous next : list CapabilityGroup) : option TErr :=
  refuse (existsb (λ old, existsb (λ cur, (gp_GroupID old == gp_GroupID cur) &&
            ((gp_Revision cur <? gp_Revision old) || ((gp_Revision cur =? gp_Revision old) && negb (gp_Members old == gp_Members cur)))) next) previous)
    TConflict None.

(** [RuleInside] *)
Definition RuleInside (outer inner : CapabilityRule) : bool :=
  sameCapabilityTuple outer inner && prefixContains (ru_PathPrefix outer) (ru_PathPrefix inner)
  && (cl_OutputBytes (ru_Limits inner) <=? cl_OutputBytes (ru_Limits outer))
  && (cl_TimeoutSeconds (ru_Limits inner) <=? cl_TimeoutSeconds (ru_Limits outer))
  && ((ru_ExpiresAt outer =? ZeroTime) || (negb (ru_ExpiresAt inner =? ZeroTime) && (ru_ExpiresAt inner <=? ru_ExpiresAt outer))).

Definition GroupRuleSets (groups : list CapabilityGroup) : list (list CapabilityRule) := map gp_Members groups.
Definition policyDefaultRuleSets (p : CapabilityPolicy) : list (list CapabilityRule) := po_Defaults p :: GroupRuleSets (po_DefaultGroups p).
Definition allowedRuleSets (profile : CapabilityProfile) (policy : CapabilityPolicy) : list (list CapabilityRule) :=
  (policyDefaultRuleSets policy ++ [pf_Allows profile] ++ GroupRuleSets (pf_AllowGroups profile))%list.
Definition inside_some (ceiling : list CapabilityRule) (r : CapabilityRule) : bool := existsb (λ c, RuleInside c r) ceiling.

(** * Validation of the records *)

Definition orelse_err (a b : option TErr) : option TErr := match a with Some e => Some e | None => b end.

Section Validate.
Context `{ToolWorld} `{Unicode}.

Definition unstamped_policy (p : CapabilityPolicy) : CapabilityPolicy :=
  mkPolicy (po_Schema p) (po_PolicyID p) (po_Organization p) (po_Members p) (po_Revision p) (po_IssuedBy p) (po_IssuedAt p) (po_Reason p)
    (po_Status p) (po_Ceiling p) (po_Defaults p) (po_DefaultGroups p) (po_Denies p) None.
Definition unstamped_profile (p : CapabilityProfile) : CapabilityProfile :=
  mkProfile (pf_Schema p) (pf_ProfileID p) (pf_PrincipalID p) (pf_ContextID p) (pf_RuntimeID p) (pf_Environment p) (pf_Generation p)
    (pf_PolicyVersion p) (pf_PolicyID p) (pf_PolicyRevision p) (pf_Revision p) (pf_IssuedBy p) (pf_IssuedAt p) (pf_Reason p) (pf_Status p)
    (pf_Selections p) (pf_Allows p) (pf_AllowGroups p) (pf_Denies p) (pf_ControlOperations p) (pf_SelfInstall p) (pf_Connectors p) None.

(** [CapabilityPolicy.Validate] *)
Definition CapabilityPolicy_Validate (p : CapabilityPolicy) : option TErr :=
  refuse (negb (validPolicyRecord (po_Schema p) (po_PolicyID p) (po_Revision p) (po_IssuedBy p) (po_Reason p) (po_IssuedAt p) (po_Status p))
          || ((po_Organization p != "") && negb (ValidID (po_Organization p))) || Nat.eqb (List.length (po_Members p)) 0
          || (4096 <? Z.of_nat (List.length (po_Members p)))) TInvalid
  (refuse (negb (distinct_and ValidID [] (po_Members p))) TInvalid
  (refuse ((po_Organization p == "") && negb (Nat.eqb (List.length (po_Members p)) 1)) TInvalid
  (orelse_err (validateCapabilityRules (po_Ceiling p) false)
  (orelse_err (validateCapabilityRules (po_Defaults p) false)
  (orelse_err (validateCapabilityRules (po_Denies p) true)
  (orelse_err (validateCapabilityGroups (po_DefaultGroups p))
  (refuse (negb (forallb (forallb (inside_some (po_Ceiling p))) (policyDefaultRuleSets p))) TUnauthorized
  (refuse (negb (confirmed (po_Confirmation p) (ChPolicy (unstamped_policy p)) (po_IssuedBy p))) TUnauthorized None)))))))).

(** [ValidateProjectedName] *)
Definition ValidateProjectedName (s : string) : bool :=
  (s != "") && (len s <=? 128) && toolNamePattern s && negb (ContainsAny s (String CR (String LF ""))).

Definition selection_ok (s : CapabilitySelection) : bool :=
  capabilityIDPattern (se_CapabilityID s) && ValidID (se_DefinitionID s) && VersionPattern (se_DefinitionVersion s)
  && DigestPattern (se_ImplementationDigest s) && ValidateProjectedName (se_Name s) && McpToolNamePattern (se_ToolName s)
  && ((se_ConnectionID s == "") || ValidID (se_ConnectionID s)) && negb (ValidControlOperation (se_Name s)).

(** [CapabilityProfile.ValidateStructure] *)
Definition ValidateProfileStructure (p : CapabilityProfile) : option TErr :=
  refuse (negb (validPolicyRecord (pf_Schema p) (pf_ProfileID p) (pf_Revision p) (pf_IssuedBy p) (pf_Reason p) (pf_IssuedAt p) (pf_Status p))
          || negb (forallb ValidID [pf_PolicyID p; pf_PrincipalID p; pf_ContextID p; pf_RuntimeID p; pf_PolicyVersion p])
          || (pf_PolicyRevision p =? 0) || (pf_Generation p =? 0) || negb (one_of (pf_Environment p) ["dev"; "prod"])
          || (1024 <? Z.of_nat (List.length (pf_Selections p)))) TInvalid
  (orelse_err (validateCapabilityRules (pf_Allows p) false)
  (orelse_err (validateCapabilityRules (pf_Denies p) true)
  (orelse_err (validateCapabilityGroups (pf_AllowGroups p))
  (refuse (negb (forallb selection_ok (pf_Selections p)) || negb (distinct_and (λ _, true) [] (map se_Name (pf_Selections p)))
           || negb (distinct_and (λ _, true) [] (map (λ s, se_CapabilityID s ++ String NUL "" ++ se_ConnectionID s) (pf_Selections p)))) TInvalid
  (refuse (Nat.ltb (List.length ControlOperations) (List.length (pf_ControlOperations p))) TInvalid
  (refuse (negb (distinct_and (λ o, one_of o ControlOperations) [] (pf_ControlOperations p))) TInvalid
  (refuse (negb (one_of (pf_Connectors p) [""; ConnectorsNone; ConnectorsPersonal; ConnectorsPersonalTeam])) TInvalid None))))))).

(** [CapabilityProfile.Validate] *)
Definition CapabilityProfile_Validate (p : CapabilityProfile) : option TErr :=
  orelse_err (ValidateProfileStructure p)
    (refuse (negb (confirmed (pf_Confirmation p) (ChProfile (unstamped_profile p)) (pf_IssuedBy p))) TUnauthorized None).
End Validate.

(** * The decision *)

Definition rule_active (now : Z) (r : CapabilityRule) : bool := (ru_ExpiresAt r =? ZeroTime) || (now <? ru_ExpiresAt r).

(** The boundary of an allow and a ceiling: the narrower of the two, if they are nested. *)
Definition joined_prefix (allow ceiling : string) : option string :=
  if prefixContains allow ceiling then Some ceiling else if prefixContains ceiling allow then Some allow else None.

Definition denied (profile : CapabilityProfile) (policy : CapabilityPolicy) (tuple : CapabilityRule) (candidate : string) (now : Z) : bool :=
  existsb (λ d, rule_active now d && sameCapabilityTuple d tuple && prefixContains (ru_PathPrefix d) candidate) (po_Denies policy ++ pf_Denies profile)%list.

(** One allow under one ceiling: the limits and the boundary. *)
Definition allow_under (profile : CapabilityProfile) (policy : CapabilityPolicy) (tuple : CapabilityRule) (actual : option string) (now : Z)
    (allow ceiling : CapabilityRule) : option (CapabilityLimits * string) :=
  if negb (rule_active now ceiling) || negb (sameCapabilityTuple allow ceiling) then None
  else
    match joined_prefix (ru_PathPrefix allow) (ru_PathPrefix ceiling) with
    | None => None
    | Some prefix =>
        let candidate := default prefix actual in
        if match actual with Some p => negb (prefixContains prefix p) | None => false end then None
        else if denied profile policy tuple candidate now then None
        else Some (mkCapLimits (Z.min (cl_OutputBytes (ru_Limits allow)) (cl_OutputBytes (ru_Limits ceiling)))
                     (Z.min (cl_TimeoutSeconds (ru_Limits allow)) (cl_TimeoutSeconds (ru_Limits ceiling))), prefix)
    end.

(** The first of a list that gives something. *)
Fixpoint first_some {A B} (f : A → option B) (l : list A) : option B :=
  match l with
  | [] => None
  | x :: l => match f x with Some y => Some y | None => first_some f l end
  end.

(** [CapabilityRuleDecision] *)
Definition CapabilityRuleDecision (profile : CapabilityProfile) (policy : CapabilityPolicy) (tuple : CapabilityRule) (actual : option string)
    (now : Z) : option (CapabilityLimits * string) :=
  first_some (first_some (λ allow,
    if negb (rule_active now allow) || negb (sameCapabilityTuple allow tuple) then None
    else first_some (allow_under profile policy tuple actual now allow) (po_Ceiling policy))) (allowedRuleSets profile policy).

(** The value of a call's argument, as [encoding/json] decodes it. *)
Inductive ArgValue := ArgString (s : string) | ArgList (l : list ArgValue) | ArgStrings (l : list string) | ArgNull | ArgOther.

Record CapabilityScope := mkScope { sc_Resource : string; sc_PathArgument : string; sc_PathPrefix : string }.

(** The paths a use of the tool names in a call; [None] when the argument is no path. *)
Definition path_values (arguments : gmap string ArgValue) (argument : string) : option (list string) :=
  let values :=
    match arguments !! argument with
    | None => Some [""]
    | Some (ArgString s) => Some [s]
    | Some (ArgList l) => mapM (λ v, match v with ArgString s => Some s | _ => None end) l
    | Some (ArgStrings l) => Some l
    | Some _ => None
    end in
  match values with
  | Some l => if Nat.eqb (List.length l) 0 || (8192 <? Z.of_nat (List.length l)) then None else Some l
  | None => None
  end.

Definition use_tuple (s : CapabilitySelection) (u : CapabilityUse) : CapabilityRule :=
  mkCapRule (se_CapabilityID s) (se_ImplementationDigest s) (cu_Action u) (cu_Resource u) (se_ConnectionID s) "" (mkCapLimits 0 0) ZeroTime.

Section Decide.
Variables (profile : CapabilityProfile) (policy : CapabilityPolicy) (selection : CapabilitySelection).
Variables (arguments : gmap string ArgValue) (projection : bool).
(** [time.Now] at the decision of a value of a use. *)
Variable clock : nat → nat → Z.

Definition limit_by (a b : CapabilityLimits) : CapabilityLimits :=
  mkCapLimits (Z.min (cl_OutputBytes a) (cl_OutputBytes b)) (Z.min (cl_TimeoutSeconds a) (cl_TimeoutSeconds b)).

(** One value of a use. *)
Definition decide_value (u : CapabilityUse) (now : Z) (value : string) : option (CapabilityLimits * list CapabilityScope) :=
  let value := if value == "." then "" else value in
  let actual := if negb projection || (cu_PathArgument u == "") then Some value else None in
  if match actual with Some v => negb (ValidCapabilityPath v) | None => false end then None
  else
    match CapabilityRuleDecision profile policy (use_tuple selection u) actual now with
    | None => None
    | Some (bound, prefix) =>
        Some (bound, if cu_PathArgument u == "" then [] else [mkScope (cu_Resource u) (cu_PathArgument u) prefix])
    end.

Fixpoint decide_values (u : CapabilityUse) (i j : nat) (values : list string) (acc : CapabilityLimits * list CapabilityScope)
    : option (CapabilityLimits * list CapabilityScope) :=
  match values with
  | [] => Some acc
  | v :: values =>
      match decide_value u (clock i j) v with
      | None => None
      | Some (bound, scopes) => decide_values u i (S j) values (limit_by acc.1 bound, acc.2 ++ scopes)%list
      end
  end.

Definition use_values (u : CapabilityUse) : option (list string) :=
  if negb projection && (cu_PathArgument u != "") then path_values arguments (cu_PathArgument u) else Some [""].

Fixpoint decide_uses (i : nat) (uses : list CapabilityUse) (acc : CapabilityLimits * list CapabilityScope)
    : option (CapabilityLimits * list CapabilityScope) :=
  match uses with
  | [] => Some acc
  | u :: uses =>
      match use_values u with
      | None => None
      | Some values =>
          match decide_values u i 0 values acc with
          | None => None
          | Some acc => decide_uses (S i) uses acc
          end
      end
  end.

(** [CapabilityDecision] *)
Definition CapabilityDecision (tool : ToolSpec) : option (CapabilityLimits * list CapabilityScope) :=
  if negb projection && existsb (λ kv, match arguments !! kv.1 with Some (ArgString s) => s != kv.2 | _ => true end)
                          (map_to_list (ts_ArgumentEquals tool)) then None
  else
    match decide_uses 0 (ts_Uses tool) (mkCapLimits MaxOutputBytes MaxExecutionTimeout, []) with
    | None => None
    | Some r => if Nat.eqb (List.length (ts_Uses tool)) 0 then None else Some r
    end.
End Decide.
