(* ===== verification/CapabilityProps.v ===== *)
(** Theorems about capability policies: the decision is that some allow and some ceiling
    both cover the call and no denial does, whatever the order of the rules; an admitted
    call names only plain relative paths, each inside the boundary of its grant. *)
From stdpp Require Import base gmap strings list sorting.
From Stdlib Require Import Ascii String.
From S2P Require Import Prelude GoStrings Governance ContractProps RoutineTypes Schedules ToolTypes Capability.
Local Open Scope string_scope.
Local Open Scope Z_scope.

(** * Paths *)

(** The stack of an unrooted clean: plain segments on top of leading [..]s. *)
Definition clean_stack (stack : list string) : Prop :=
  ∃ l n, Forall plain_segment l ∧ stack = (l ++ replicate n "..")%list.

Lemma clean_unrooted_stack l stack :
  Forall (λ p, sep_free "/" p = true) l → clean_stack stack → clean_stack (fold_left (clean_step false) l stack).
Proof.
  revert stack. induction l as [|p l IH]; intros stack Hl Hs; simpl; [done|].
  apply Forall_cons in Hl as [Hp Hl]. apply IH; [done|]. destruct Hs as (a & n & Ha & ->).
  unfold clean_step. repeat case_bool_decide; simpl; try by exists a, n.
  - destruct Ha as [|top a Htop Ha]; simpl.
    + destruct n as [|n]; simpl; [by exists [], 1%nat|by exists [], (S (S n))].
    + destruct Htop as (? & ? & ? & ?). rewrite bool_decide_eq_false_2 by done. by exists a, n.
  - exists (p :: a), n. split; [|done]. constructor; [by repeat split|done].
Qed.

(** A path of a rule or of a call is empty or a sequence of plain segments. *)
Lemma ValidCapabilityPath_plain v : ValidCapabilityPath v = true → v = "" ∨ Forall plain_segment (split_on "/" v).
Proof.
  unfold ValidCapabilityPath. intros [Hv|Hv]%orb_true_iff; [left; by apply bool_decide_eq_true in Hv|right]. guards.
  rename select (path_Clean v = v) into Hfix. unfold path_Clean in Hfix.
  rename select (HasPrefix v "/" = false) into Hnr. rewrite Hnr in Hfix.
  case_bool_decide as He; [by subst|]. set (stack := fold_left _ _ _) in Hfix.
  assert (clean_stack stack) as (l & n & Hl & Hst).
  { apply clean_unrooted_stack; [apply split_on_sep_free|]. by exists [], 0%nat. }
  rewrite Hst, reverse_app, reverse_replicate in Hfix. destruct n as [|n]; simpl in Hfix.
  - case_bool_decide as Hj; [by subst|]. rewrite <-Hfix.
    assert (Hp : Forall plain_segment (reverse l)) by (by rewrite reverse_Permutation).
    change "/" with (String "/" ""). rewrite split_on_concat; [done| |].
    + intros E. rewrite E in Hj. done.
    + eapply Forall_impl; [exact Hp|]. by intros ? [].
  - exfalso. destruct (replicate n ".." ++ reverse l)%list as [|q rest] eqn:E; simpl in Hfix; [by subst|].
    rename select (HasPrefix v "../" = false) into Hnp. rewrite <-Hfix, <-append_assoc in Hnp.
    change (".." ++ "/") with "../" in Hnp. by rewrite prefix_append in Hnp.
Qed.

Lemma ValidCapabilityPath_no_dotdot v : ValidCapabilityPath v = true → ".." ∉ split_on "/" v.
Proof.
  intros [->|Hv]%ValidCapabilityPath_plain; [vm_compute; set_solver|].
  intros Hin. rewrite Forall_forall in Hv. by apply Hv in Hin as (_ & _ & _ & ?).
Qed.

(** [v] lies in the tree of [prefix]: the empty prefix is the whole tree. *)
Definition under (prefix v : string) : Prop := prefix = "" ∨ split_on "/" prefix `prefix_of` split_on "/" v.

Lemma prefixContains_iff prefix v : prefixContains prefix v = true ↔ under prefix v.
Proof.
  unfold prefixContains, under. rewrite !orb_true_iff, !bool_decide_eq_true. split.
  - intros [[->| ->]|Hp]; [by left|by right|right]. apply prefix_split in Hp as [rest ->].
    exists (split_on "/" rest). rewrite <-split_on_app. f_equal. by rewrite append_assoc.
  - intros [->|[rest Hpre]]; [by left; left|].
    assert (Hv : v = String.concat "/" (split_on "/" prefix ++ rest)%list) by (rewrite <-Hpre; symmetry; apply concat_split).
    destruct rest as [|h rest].
    + left; right. by rewrite app_nil_r, (concat_split "/" prefix) in Hv.
    + right. destruct (split_on_cons "/" prefix) as (h' & t' & Heq).
      rewrite concat_app_ne in Hv; [|by rewrite Heq|done].
      rewrite (concat_split "/" prefix) in Hv. rewrite Hv, <-append_assoc. apply prefix_append.
Qed.


(** * One decision *)

Lemma first_some_spec {A B} (f : A → option B) l y : first_some f l = Some y → ∃ x, x ∈ l ∧ f x = Some y.
Proof.
  induction l as [|x l IH]; simpl; [done|]. destruct (f x) eqn:E.
  - intros [= <-]. exists x. set_solver.
  - intros (z & ? & ?)%IH. exists z. set_solver.
Qed.

Lemma first_some_none {A B} (f : A → option B) l : first_some f l = None ↔ ∀ x, x ∈ l → f x = None.
Proof.
  induction l as [|x l IH]; simpl; [set_solver|]. destruct (f x) eqn:E.
  - split; [done|]. intros Hn. rewrite (Hn x) in E; [done|set_solver].
  - rewrite IH. set_solver.
Qed.

Section Rules.
Implicit Types (profile : CapabilityProfile) (policy : CapabilityPolicy) (tuple r d : CapabilityRule).

Definition same_tuple (a b : CapabilityRule) : Prop := sameCapabilityTuple a b = true.

Global Instance same_tuple_equiv : Equivalence same_tuple.
Proof.
  unfold same_tuple, sameCapabilityTuple. split.
  - intros a. by rewrite !bool_decide_eq_true_2.
  - intros a b E. guards. by rewrite !bool_decide_eq_true_2 by congruence.
  - intros a b c E E'. guards. by rewrite !bool_decide_eq_true_2 by congruence.
Qed.

(** A rule in force at [now] for the tool, the action, the resource and the connection of [tuple]. *)
Definition in_force (now : Z) tuple r : Prop := (ru_ExpiresAt r = ZeroTime ∨ now < ru_ExpiresAt r) ∧ same_tuple r tuple.

Lemma rule_active_iff now r : rule_active now r = true ↔ ru_ExpiresAt r = ZeroTime ∨ now < ru_ExpiresAt r.
Proof. unfold rule_active. rewrite orb_true_iff, Z.eqb_eq, Z.ltb_lt. done. Qed.

(** The reference: the pair [allow], [ceiling] admits the path, or some path of its boundary
    when the call is only projected. *)
Record admits profile policy tuple (actual : option string) (now : Z) (allow ceiling : CapabilityRule) (prefix : string) : Prop := {
  ad_allow : allow ∈ mjoin (allowedRuleSets profile policy);
  ad_ceiling : ceiling ∈ po_Ceiling policy;
  ad_allow_force : in_force now tuple allow;
  ad_ceiling_force : in_force now tuple ceiling;
  ad_prefix : prefix = ru_PathPrefix allow ∧ under (ru_PathPrefix ceiling) prefix ∨
              prefix = ru_PathPrefix ceiling ∧ under (ru_PathPrefix allow) prefix;
  ad_path : under prefix (default prefix actual);
  ad_not_denied : ∀ d, d ∈ (po_Denies policy ++ pf_Denies profile)%list → in_force now tuple d →
                  ¬ under (ru_PathPrefix d) (default prefix actual);
}.

Lemma under_refl p : under p p.
Proof. by right. Qed.

Lemma under_empty p : under p "" → p = "".
Proof.
  intros [->|[k Hk]]; [done|]. destruct (split_on_cons "/" p) as (h & t & E). change (split_on "/" "") with [""] in Hk.
  rewrite E in Hk. simplify_list_eq. destruct t; [|done]. by rewrite <-(concat_split "/" p), E.
Qed.

Lemma under_antisym p q : under p q → under q p → p = q.
Proof.
  intros [->|[k Hk]]; [by intros ->%under_empty|]. intros [->|[k' Hk']]; [by apply under_empty; right; exists k|].
  rewrite Hk' in Hk. rewrite <-app_assoc in Hk. apply (f_equal List.length) in Hk as Hl. rewrite !length_app in Hl.
  destruct k, k'; simpl in *; try lia. rewrite app_nil_r in Hk'.
  by rewrite <-(concat_split "/" p), <-(concat_split "/" q), Hk'.
Qed.

Lemma joined_prefix_iff allow ceiling prefix :
  joined_prefix allow ceiling = Some prefix ↔
  prefix = allow ∧ under ceiling prefix ∨ prefix = ceiling ∧ under allow prefix.
Proof.
  unfold joined_prefix. destruct (prefixContains allow ceiling) eqn:E1; [|destruct (prefixContains ceiling allow) eqn:E2].
  - apply prefixContains_iff in E1. split; [intros [= <-]; by right|].
    intros [[-> H]|[-> _]]; [f_equal; by apply under_antisym|done].
  - apply prefixContains_iff in E2. split; [intros [= <-]; by left|].
    intros [[-> _]|[-> H]]; [done|]. apply prefixContains_iff in H. congruence.
  - split; [done|]. intros [[-> H]|[-> H]]; apply prefixContains_iff in H; congruence.
Qed.

Lemma denied_iff profile policy tuple candidate now :
  denied profile policy tuple candidate now = true ↔
  ∃ d, d ∈ (po_Denies policy ++ pf_Denies profile)%list ∧ in_force now tuple d ∧ under (ru_PathPrefix d) candidate.
Proof.
  unfold denied, in_force, same_tuple. rewrite existsb_exists. split; intros (d & Hd & H); exists d.
  - rewrite !andb_true_iff, rule_active_iff, prefixContains_iff in H. rewrite list_elem_of_In. naive_solver.
  - rewrite !andb_true_iff, rule_active_iff, prefixContains_iff. rewrite <-list_elem_of_In. naive_solver.
Qed.

Definition pair_limits (allow ceiling : CapabilityRule) : CapabilityLimits :=
  mkCapLimits (Z.min (cl_OutputBytes (ru_Limits allow)) (cl_OutputBytes (ru_Limits ceiling)))
    (Z.min (cl_TimeoutSeconds (ru_Limits allow)) (cl_TimeoutSeconds (ru_Limits ceiling))).

Lemma allow_under_iff profile policy tuple actual now allow ceiling limits prefix :
  allow ∈ mjoin (allowedRuleSets profile policy) → ceiling ∈ po_Ceiling policy → in_force now tuple allow →
  allow_under profile policy tuple actual now allow ceiling = Some (limits, prefix) ↔
  admits profile policy tuple actual now allow ceiling prefix ∧ limits = pair_limits allow ceiling.
Proof.
  intros Ha Hc Hf. unfold allow_under. split.
  - destruct (negb _ || negb _) eqn:Hg; [done|]. guards. destruct (joined_prefix _ _) as [pre|] eqn:Hj; [|done].
    apply joined_prefix_iff in Hj. destruct (match actual with Some _ => _ | None => _ end) eqn:Hp; [done|].
    destruct (denied _ _ _ _ _) eqn:Hd; [done|]. intros [= <- <-]. split; [|done].
    constructor; try done.
    + split; [by apply rule_active_iff|]. etrans; [|exact (proj2 Hf)]. by symmetry.
    + destruct actual as [p|]; simpl; [|apply under_refl]. apply negb_false_iff in Hp. by apply prefixContains_iff.
    + intros d Hin Hfd Hu. apply not_true_iff_false in Hd. apply Hd. apply denied_iff. eauto.
  - intros [[_ _ _ [Hca Hcs] Hpre Hpath Hnd] ->]. apply rule_active_iff in Hca as ->.
    assert (sameCapabilityTuple allow ceiling = true) as ->. { change (same_tuple allow ceiling). rewrite (proj2 Hf). by symmetry. }
    apply joined_prefix_iff in Hpre as ->. simpl.
    assert (match actual with Some p => negb (prefixContains prefix p) | None => false end = false) as ->.
    { destruct actual; [|done]. apply negb_false_iff. by apply prefixContains_iff. }
    destruct (denied _ _ _ _ _) eqn:Hd; [|done]. apply denied_iff in Hd as (d & ? & ? & ?). by destruct (Hnd d).
Qed.

Lemma decision_sound profile policy tuple actual now limits prefix :
  CapabilityRuleDecision profile policy tuple actual now = Some (limits, prefix) →
  ∃ allow ceiling, admits profile policy tuple actual now allow ceiling prefix ∧ limits = pair_limits allow ceiling.
Proof.
  unfold CapabilityRuleDecision. intros (set & Hset & (allow & Hin & Ha)%first_some_spec)%first_some_spec.
  destruct (negb _ || negb _) eqn:Hg; [done|]. guards. apply first_some_spec in Ha as (ceiling & Hc & Hu).
  exists allow, ceiling. apply allow_under_iff in Hu; [done| |done|].
  - apply list_elem_of_join. eauto.
  - split; [by apply rule_active_iff|done].
Qed.

Lemma decision_complete profile policy tuple actual now allow ceiling prefix :
  admits profile policy tuple actual now allow ceiling prefix → is_Some (CapabilityRuleDecision profile policy tuple actual now).
Proof.
  intros Had. apply not_eq_None_Some. intros Hn. unfold CapabilityRuleDecision in Hn. rewrite first_some_none in Hn.
  pose proof Had as []. apply list_elem_of_join in ad_allow0 as (set & Hal & Hset).
  specialize (Hn _ Hset). rewrite first_some_none in Hn. specialize (Hn _ Hal).
  destruct ad_allow_force0 as [Hact Hsame]. apply rule_active_iff in Hact. rewrite Hact in Hn.
  unfold same_tuple in Hsame. rewrite Hsame in Hn. simpl in Hn. rewrite first_some_none in Hn. specialize (Hn _ ad_ceiling0).
  assert (∃ limits, allow_under profile policy tuple actual now allow ceiling = Some (limits, prefix)) as [? ?]; [|congruence].
  eexists. apply allow_under_iff; eauto using ad_allow, ad_ceiling, ad_allow_force.
Qed.
End Rules.

(** C33. Equivalence with a reference: a rule decision admits exactly when some allow of the
    policy's defaults or the profile, and some ceiling of the policy, both in force for this
    very tuple, have nested path prefixes whose narrower one contains the path, and no denial
    in force covers it, so the order of the rules, the groups and the two denial lists does
    not matter; the limits and the boundary it answers are those of one such pair. *)
Theorem capability_decision_iff profile policy tuple actual now :
  (is_Some (CapabilityRuleDecision profile policy tuple actual now) ↔
   ∃ allow ceiling prefix, admits profile policy tuple actual now allow ceiling prefix) ∧
  ∀ limits prefix, CapabilityRuleDecision profile policy tuple actual now = Some (limits, prefix) →
    ∃ allow ceiling, admits profile policy tuple actual now allow ceiling prefix ∧ limits = pair_limits allow ceiling.
Proof.
  split; [split|by apply decision_sound].
  - intros [[l p] Hd]. apply decision_sound in Hd as (? & ? & ? & _). eauto.
  - intros (? & ? & ? & Had). by eapply decision_complete.
Qed.

(** An allow inside the ceiling, as publication demands of every allow, is effective: while it
    is in force each path of its tree that no denial covers is admitted. *)
Lemma allow_effective profile policy tuple now allow v :
  allow ∈ mjoin (allowedRuleSets profile policy) → inside_some (po_Ceiling policy) allow = true → in_force now tuple allow →
  under (ru_PathPrefix allow) v → denied profile policy tuple v now = false →
  is_Some (CapabilityRuleDecision profile policy tuple (Some v) now).
Proof.
  intros Ha (ceiling & Hc%list_elem_of_In & Hin)%existsb_exists [Hact Hsame] Hu Hd. unfold RuleInside in Hin. guards.
  rename select (prefixContains _ _ = true) into Hp. apply prefixContains_iff in Hp.
  eapply (decision_complete _ _ _ _ _ allow ceiling (ru_PathPrefix allow)). constructor; try done.
  - split.
    + rename select (_ || _ = true) into He. apply orb_true_iff in He as [He|He]; guards; [by left|right].
      rename select (ru_ExpiresAt allow ≤ _) into Hle. destruct Hact as [E|?]; [|lia]. by rewrite E in *.
    + etrans; [|exact Hsame]. done.
  - by left.
  - intros d Hin Hf Hud. apply not_true_iff_false in Hd. apply Hd, denied_iff. eauto.
Qed.

(** * A call *)

Definition limits_le (a b : CapabilityLimits) : Prop :=
  cl_OutputBytes a ≤ cl_OutputBytes b ∧ cl_TimeoutSeconds a ≤ cl_TimeoutSeconds b.

Global Instance limits_le_preorder : PreOrder limits_le.
Proof. split; [done|]. unfold limits_le. intros a b c ? ?. lia. Qed.

Lemma limit_by_le a b : limits_le (limit_by a b) a ∧ limits_le (limit_by a b) b.
Proof. unfold limits_le, limit_by. simpl. lia. Qed.

(** The path a value names: [.] is the root of the tree. *)
Definition named_path (v : string) : string := if v == "." then "" else v.

Section Calls.
Context (profile : CapabilityProfile) (policy : CapabilityPolicy) (selection : CapabilitySelection).
Context (arguments : gmap string ArgValue) (projection : bool) (clock : nat → nat → Z).
Notation decide_value := (decide_value profile policy selection projection).
Notation decide_values := (decide_values profile policy selection projection clock).
Notation decide_uses := (decide_uses profile policy selection arguments projection clock).
Notation use_values := (use_values arguments projection).

(** What the result of a decision covers: within its limits, with its scopes recorded. *)
Definition covers (r : CapabilityLimits * list CapabilityScope) (bound : CapabilityLimits * list CapabilityScope) : Prop :=
  limits_le r.1 bound.1 ∧ bound.2 ⊆ r.2.

Global Instance covers_preorder : PreOrder covers.
Proof. split; [done|]. intros a b c [? ?] [? ?]. split; [by etrans|set_solver]. Qed.

Lemma decide_values_spec u i j values acc r :
  decide_values u i j values acc = Some r →
  covers r acc ∧ ∀ k v, values !! k = Some v → ∃ b, decide_value u (clock i (j + k)) v = Some b ∧ covers r b.
Proof.
  revert j acc. induction values as [|v values IH]; intros j acc; simpl; [by intros [= <-]|].
  destruct (decide_value u (clock i j) v) as [[bound scopes]|] eqn:E; [|done]. intros [Hc Hall]%IH.
  destruct (limit_by_le acc.1 bound) as [Hl Hr]. split.
  - etrans; [exact Hc|]. split; simpl; [done|set_solver].
  - intros [|k] w; simpl.
    + intros [= <-]. rewrite Nat.add_0_r. eexists. split; [done|]. etrans; [exact Hc|]. split; simpl; [done|set_solver].
    + rewrite Nat.add_succ_r. apply Hall.
Qed.

Lemma decide_uses_spec i uses acc r :
  decide_uses i uses acc = Some r →
  covers r acc ∧ ∀ k u, uses !! k = Some u → ∃ values, use_values u = Some values ∧
    ∀ j v, values !! j = Some v → ∃ b, decide_value u (clock (i + k) j) v = Some b ∧ covers r b.
Proof.
  revert i acc. induction uses as [|u uses IH]; intros i acc; simpl; [by intros [= <-]|].
  destruct (use_values u) as [values|] eqn:Ev; [|done].
  destruct (decide_values u i 0 values acc) as [acc'|] eqn:Ed; [|done]. intros [Hc Hall]%IH.
  apply decide_values_spec in Ed as [Hc' Hv]. split; [by etrans|]. intros [|k] w; simpl.
  - intros [= <-]. rewrite Nat.add_0_r. exists values. split; [done|]. intros j v Hj.
    destruct (Hv j v Hj) as (b & ? & ?). exists b. split; [done|by etrans].
  - rewrite Nat.add_succ_r. apply Hall.
Qed.

(** A value is let through only where a pair of rules admits its path. *)
Lemma decide_value_admits u now v b :
  decide_value u now v = Some b → projection = false →
  ValidCapabilityPath (named_path v) = true ∧
  ∃ allow ceiling prefix, admits profile policy (use_tuple selection u) (Some (named_path v)) now allow ceiling prefix ∧
    b.1 = pair_limits allow ceiling ∧ (cu_PathArgument u ≠ "" → mkScope (cu_Resource u) (cu_PathArgument u) prefix ∈ b.2).
Proof.
  unfold Capability.decide_value. intros Hv ->. simpl in Hv. fold (named_path v) in Hv.
  destruct (negb (ValidCapabilityPath _)) eqn:Hp in Hv; [done|]. apply negb_false_iff in Hp. split; [done|].
  destruct (CapabilityRuleDecision _ _ _ _ _) as [[bound prefix]|] eqn:E; [|done]. simplify_eq.
  apply decision_sound in E as (allow & ceiling & Had & ->). exists allow, ceiling, prefix. split; [done|]. split; [done|].
  intros Hne. simpl. rewrite bool_decide_eq_false_2 by done. set_solver.
Qed.
End Calls.

(** C39. Safety: when a managed call is admitted, the tool's fixed arguments have their
    values, and every path of every use of the tool is a relative path without [..] that
    lies in the boundary of an allow under a ceiling, both in force for this very capability,
    implementation, action, resource and connection, and under no denial in force; the
    boundary is recorded in the scopes handed to the executor, and the call's limits exceed
    neither the hub's maxima nor those of any rule it was admitted by. *)
Theorem capability_call_confined profile policy selection arguments clock tool limits scopes :
  CapabilityDecision profile policy selection arguments false clock tool = Some (limits, scopes) →
  ts_Uses tool ≠ [] ∧ limits_le limits (mkCapLimits MaxOutputBytes MaxExecutionTimeout) ∧
  (∀ k v, ts_ArgumentEquals tool !! k = Some v → arguments !! k = Some (ArgString v)) ∧
  ∀ i u, ts_Uses tool !! i = Some u → ∃ values, use_values arguments false u = Some values ∧ values ≠ [] ∧
    ∀ j v, values !! j = Some v →
      (".." ∉ split_on "/" (named_path v)) ∧ HasPrefix (named_path v) "/" = false ∧
      ∃ allow ceiling prefix,
        admits profile policy (use_tuple selection u) (Some (named_path v)) (clock i j) allow ceiling prefix ∧
        limits_le limits (ru_Limits allow) ∧ limits_le limits (ru_Limits ceiling) ∧
        (cu_PathArgument u ≠ "" → mkScope (cu_Resource u) (cu_PathArgument u) prefix ∈ scopes).
Proof.
  unfold CapabilityDecision. destruct (_ && _) eqn:Hargs; [done|]. simpl in Hargs.
  destruct (decide_uses _ _ _ _ _ _ _ _ _) as [r|] eqn:Hd; [|done]. destruct (Nat.eqb _ _) eqn:Hn; [done|]. intros [= ->].
  apply decide_uses_spec in Hd as [[Hmax _] Hall]. split_and!; [|done| |].
  - intros E. by rewrite E in Hn.
  - intros k v Hk. apply not_true_iff_false in Hargs. rewrite existsb_exists in Hargs.
    destruct (arguments !! k) as [[s| | | |]|] eqn:Ha; try destruct (decide (s = v)) as [->|Hne]; [done|..];
      exfalso; apply Hargs; exists (k, v); simpl; rewrite Ha; (split; [by apply list_elem_of_In, elem_of_map_to_list|]); try done.
    by rewrite bool_decide_eq_false_2.
  - intros i u Hu. destruct (Hall i u Hu) as (values & Huv & Hv). exists values. split; [done|]. split.
    { unfold use_values, path_values in Huv. intros ->. by repeat case_match; simplify_eq. }
    intros j v Hj. destruct (Hv j v Hj) as (b & Hb & [Hlim Hsc]). apply decide_value_admits in Hb as (Hpath & a & c & p & Had & El & Hscope); [|done].
    split_and!; [by apply ValidCapabilityPath_no_dotdot| |].
    + unfold ValidCapabilityPath in Hpath. apply orb_true_iff in Hpath as [Hpath|Hpath]; guards; [|done]. by rewrite Hpath.
    + exists a, c, p. rewrite El in Hlim. unfold pair_limits, limits_le in *. simpl in *. split_and!; [done|lia..|]. intros Hne. apply Hsc. auto.
Qed.
