(* ===== verification/RegStore.v ===== *)
(** The state of the tool registry (internal/toolhub/store.go): its tables, the file that holds
    its snapshot and the calls it makes to other components; how it is stored (store_io.go);
    and the operations that put a record into it (store.go, grants.go, capability_store.go,
    operations_store.go). *)
From stdpp Require Import base gmap strings list sorting.
From Stdlib Require Import Ascii String.
From S2P Require Import Prelude GoStrings Governance RoutineTypes Schedules ToolTypes Capability.
Local Open Scope string_scope.
Local Open Scope Z_scope.

(** * State *)

(** [snapshot]: the contents of the registry file. *)
Record Snap := mkSnap {
  sn_Schema : Z; sn_Definitions : list ToolDefinition; sn_Connections : list Connection; sn_Credentials : list CredentialReference;
  sn_Bindings : list ToolBinding; sn_Workloads : list WorkloadInstance; sn_Projections : gmap string Z; sn_Grants : list Grant;
  sn_Onboardings : list Onboarding; sn_Operations : list Operation; sn_Recipes : gmap string RecipeResolution;
  sn_Publications : list DefinitionPublication; sn_SharedPolicies : list SharedCredentialPolicy; sn_Teams : list Team;
  sn_BrokerGrants : list BrokerBindingGrant; sn_Changes : list CapabilityChange; sn_BindingChanges : list bindingChange;
}.

(** [Store].  [r_path]: whether it is backed by a file; [r_disk]: the file, with its
    modification time and size; [r_seen] and [r_stamp]: the digest and the stamp of the file
    at the last load or save; [r_reconnect]: the reconnect controller, with the last revision
    it announced; [r_stops] and [r_revokes]: the calls of the workload stopper and of the
    broker so far. *)
Record Reg := mkReg {
  r_definitions : gmap string ToolDefinition; r_connections : gmap string Connection; r_credentials : gmap string CredentialReference;
  r_bindings : gmap string ToolBinding; r_workloads : gmap string WorkloadInstance; r_projections : gmap string Z;
  r_grants : gmap string Grant; r_onboardings : gmap string Onboarding; r_operations : gmap string Operation;
  r_recipes : gmap string RecipeResolution; r_publications : gmap string DefinitionPublication;
  r_sharedPolicies : gmap string SharedCredentialPolicy; r_teams : gmap string Team; r_brokerGrants : gmap string BrokerBindingGrant;
  r_connStatus : gmap string string; r_policies : gmap string CapabilityPolicy; r_profiles : gmap string CapabilityProfile;
  r_changes : list CapabilityChange; r_bindingChanges : list bindingChange; r_path : bool; r_seen : option string; r_stamp : Z * Z;
  r_disk : option (Snap * (Z * Z)); r_reconnect : option (Envelope * Z); r_stops : list string; r_revokes : list BrokerBindingGrant;
}.

(** A record with one field replaced: [eta] rebuilds the record from its fields. *)
Ltac set_field eta f v :=
  let body := eval unfold eta in eta in
  lazymatch eval pattern f in body with
  | ?g _ => let r := eval cbv beta in (g (λ _, v)) in exact r
  end.

Definition Reg_eta (s : Reg) : Reg :=
  mkReg (r_definitions s) (r_connections s) (r_credentials s) (r_bindings s) (r_workloads s) (r_projections s) (r_grants s)
    (r_onboardings s) (r_operations s) (r_recipes s) (r_publications s) (r_sharedPolicies s) (r_teams s) (r_brokerGrants s)
    (r_connStatus s) (r_policies s) (r_profiles s) (r_changes s) (r_bindingChanges s) (r_path s) (r_seen s) (r_stamp s) (r_disk s)
    (r_reconnect s) (r_stops s) (r_revokes s).
Definition set_r_definitions (v : gmap string ToolDefinition) : Reg → Reg := ltac:(set_field Reg_eta r_definitions v).
Definition set_r_connections (v : gmap string Connection) : Reg → Reg := ltac:(set_field Reg_eta r_connections v).
Definition set_r_credentials (v : gmap string CredentialReference) : Reg → Reg := ltac:(set_field Reg_eta r_credentials v).
Definition set_r_bindings (v : gmap string ToolBinding) : Reg → Reg := ltac:(set_field Reg_eta r_bindings v).
Definition set_r_workloads (v : gmap string WorkloadInstance) : Reg → Reg := ltac:(set_field Reg_eta r_workloads v).
Definition set_r_projections (v : gmap string Z) : Reg → Reg := ltac:(set_field Reg_eta r_projections v).
Definition set_r_grants (v : gmap string Grant) : Reg → Reg := ltac:(set_field Reg_eta r_grants v).
Definition set_r_onboardings (v : gmap string Onboarding) : Reg → Reg := ltac:(set_field Reg_eta r_onboardings v).
Definition set_r_operations (v : gmap string Operation) : Reg → Reg := ltac:(set_field Reg_eta r_operations v).
Definition set_r_recipes (v : gmap string RecipeResolution) : Reg → Reg := ltac:(set_field Reg_eta r_recipes v).
Definition set_r_publications (v : gmap string DefinitionPublication) : Reg → Reg := ltac:(set_field Reg_eta r_publications v).
Definition set_r_sharedPolicies (v : gmap string SharedCredentialPolicy) : Reg → Reg := ltac:(set_field Reg_eta r_sharedPolicies v).
Definition set_r_teams (v : gmap string Team) : Reg → Reg := ltac:(set_field Reg_eta r_teams v).
Definition set_r_brokerGrants (v : gmap string BrokerBindingGrant) : Reg → Reg := ltac:(set_field Reg_eta r_brokerGrants v).
Definition set_r_connStatus (v : gmap string string) : Reg → Reg := ltac:(set_field Reg_eta r_connStatus v).
Definition set_r_policies (v : gmap string CapabilityPolicy) : Reg → Reg := ltac:(set_field Reg_eta r_policies v).
Definition set_r_profiles (v : gmap string CapabilityProfile) : Reg → Reg := ltac:(set_field Reg_eta r_profiles v).
Definition set_r_changes (v : list CapabilityChange) : Reg → Reg := ltac:(set_field Reg_eta r_changes v).
Definition set_r_bindingChanges (v : list bindingChange) : Reg → Reg := ltac:(set_field Reg_eta r_bindingChanges v).
Definition set_r_path (v : bool) : Reg → Reg := ltac:(set_field Reg_eta r_path v).
Definition set_r_seen (v : option string) : Reg → Reg := ltac:(set_field Reg_eta r_seen v).
Definition set_r_stamp (v : Z * Z) : Reg → Reg := ltac:(set_field Reg_eta r_stamp v).
Definition set_r_disk (v : option (Snap * (Z * Z))) : Reg → Reg := ltac:(set_field Reg_eta r_disk v).
Definition set_r_reconnect (v : option (Envelope * Z)) : Reg → Reg := ltac:(set_field Reg_eta r_reconnect v).
Definition set_r_stops (v : list string) : Reg → Reg := ltac:(set_field Reg_eta r_stops v).
Definition set_r_revokes (v : list BrokerBindingGrant) : Reg → Reg := ltac:(set_field Reg_eta r_revokes v).

(** ** Updates of records *)

Definition Connection_eta (c : Connection) : Connection :=
  mkConnection (c_Schema c) (c_ConnectionID c) (c_Owner c) (c_DefinitionID c) (c_CredentialRefID c) (c_Revision c) (c_Status c)
    (c_CredentialVisibility c) (c_CredentialCheckedAt c) (c_HealthCause c) (c_CredentialRetry c) (c_RecipeRetry c)
    (c_CredRecipeRetry c) (c_SurfaceRetry c) (c_RecoveryWindowStart c) (c_RecoveryCount c) (c_TerminalExposure c) (c_Metadata c).
Definition set_c_CredentialRefID (v : string) : Connection → Connection := ltac:(set_field Connection_eta c_CredentialRefID v).
Definition set_c_Revision (v : Z) : Connection → Connection := ltac:(set_field Connection_eta c_Revision v).
Definition set_c_Status (v : string) : Connection → Connection := ltac:(set_field Connection_eta c_Status v).
Definition set_c_CredentialVisibility (v : string) : Connection → Connection := ltac:(set_field Connection_eta c_CredentialVisibility v).
Definition set_c_CredentialCheckedAt (v : Z) : Connection → Connection := ltac:(set_field Connection_eta c_CredentialCheckedAt v).
Definition set_c_HealthCause (v : string) : Connection → Connection := ltac:(set_field Connection_eta c_HealthCause v).
Definition set_c_CredentialRetry (v : Retry) : Connection → Connection := ltac:(set_field Connection_eta c_CredentialRetry v).
Definition set_c_RecipeRetry (v : Retry) : Connection → Connection := ltac:(set_field Connection_eta c_RecipeRetry v).
Definition set_c_CredRecipeRetry (v : Retry) : Connection → Connection := ltac:(set_field Connection_eta c_CredRecipeRetry v).
Definition set_c_SurfaceRetry (v : Retry) : Connection → Connection := ltac:(set_field Connection_eta c_SurfaceRetry v).
Definition set_c_RecoveryCount (v : Z) : Connection → Connection := ltac:(set_field Connection_eta c_RecoveryCount v).
Definition set_c_TerminalExposure (v : bool) : Connection → Connection := ltac:(set_field Connection_eta c_TerminalExposure v).
Definition set_c_Metadata (v : gmap string string) : Connection → Connection := ltac:(set_field Connection_eta c_Metadata v).
Definition CredentialReference_eta (r : CredentialReference) : CredentialReference :=
  mkReference (cr_Schema r) (cr_CredentialRefID r) (cr_ConnectionID r) (cr_Revision r) (cr_Backend r) (cr_Locator r) (cr_Keys r)
    (cr_BrokerGrantID r) (cr_BrokerGrantPolicy r) (cr_BrokerGrantBinding r) (cr_BrokerContractID r) (cr_BrokerContractRevision r)
    (cr_BrokerEnv r) (cr_BrokerContextID r) (cr_LegacyLocator r) (cr_MigrateRequestID r) (cr_Status r).
Definition set_cr_Schema (v : Z) : CredentialReference → CredentialReference := ltac:(set_field CredentialReference_eta cr_Schema v).
Definition set_cr_Status (v : string) : CredentialReference → CredentialReference := ltac:(set_field CredentialReference_eta cr_Status v).
Definition set_cr_MigrateRequestID (v : string) : CredentialReference → CredentialReference := ltac:(set_field CredentialReference_eta cr_MigrateRequestID v).
Definition ToolBinding_eta (b : ToolBinding) : ToolBinding :=
  mkBinding (b_Schema b) (b_ToolBindingID b) (b_PrincipalID b) (b_ContextID b) (b_RuntimeID b) (b_DefinitionID b)
    (b_DefinitionVersion b) (b_ConnectionID b) (b_ConnectionRevision b) (b_CredentialRefID b) (b_CredentialRevision b)
    (b_PolicyVersion b) (b_WorkloadClass b) (b_Status b) (b_Revision b) (b_ProjectionRevision b) (b_ToolDigest b)
    (b_EnabledToolsets b).
Definition set_b_ToolBindingID (v : string) : ToolBinding → ToolBinding := ltac:(set_field ToolBinding_eta b_ToolBindingID v).
Definition set_b_ConnectionRevision (v : Z) : ToolBinding → ToolBinding := ltac:(set_field ToolBinding_eta b_ConnectionRevision v).
Definition set_b_PolicyVersion (v : string) : ToolBinding → ToolBinding := ltac:(set_field ToolBinding_eta b_PolicyVersion v).
Definition set_b_Status (v : string) : ToolBinding → ToolBinding := ltac:(set_field ToolBinding_eta b_Status v).
Definition set_b_Revision (v : Z) : ToolBinding → ToolBinding := ltac:(set_field ToolBinding_eta b_Revision v).
Definition set_b_ProjectionRevision (v : Z) : ToolBinding → ToolBinding := ltac:(set_field ToolBinding_eta b_ProjectionRevision v).
Definition set_b_ToolDigest (v : string) : ToolBinding → ToolBinding := ltac:(set_field ToolBinding_eta b_ToolDigest v).
Definition set_b_EnabledToolsets (v : list string) : ToolBinding → ToolBinding := ltac:(set_field ToolBinding_eta b_EnabledToolsets v).
Definition WorkloadInstance_eta (w : WorkloadInstance) : WorkloadInstance :=
  mkWorkload (w_Schema w) (w_WorkloadID w) (w_BindingID w) (w_DefinitionID w) (w_DefinitionVersion w) (w_Class w) (w_Owner w)
    (w_RuntimeID w) (w_JobID w) (w_Generation w) (w_Status w) (w_StartedAt w) (w_ExpiresAt w).
Definition set_w_Status (v : string) : WorkloadInstance → WorkloadInstance := ltac:(set_field WorkloadInstance_eta w_Status v).
Definition Onboarding_eta (o : Onboarding) : Onboarding :=
  mkOnboarding (ob_Schema o) (ob_OnboardingID o) (ob_PrincipalID o) (ob_ContextID o) (ob_RuntimeID o) (ob_PolicyVersion o)
    (ob_Mode o) (ob_DefinitionID o) (ob_DefinitionVersion o) (ob_Phase o) (ob_BindingID o) (ob_ConnectionID o)
    (ob_IdempotencyKey o) (ob_SupersededBy o) (ob_AdmissionPending o) (ob_RecipeDigest o) (ob_EmbeddedRecipe o)
    (ob_WritesEnabled o) (ob_Revision o) (ob_CreatedAt o) (ob_Definition o) (ob_Rest o).
Definition set_ob_Phase (v : string) : Onboarding → Onboarding := ltac:(set_field Onboarding_eta ob_Phase v).
Definition set_ob_RecipeDigest (v : string) : Onboarding → Onboarding := ltac:(set_field Onboarding_eta ob_RecipeDigest v).
Definition set_ob_EmbeddedRecipe (v : option RecipeResolution) : Onboarding → Onboarding := ltac:(set_field Onboarding_eta ob_EmbeddedRecipe v).
Definition set_ob_Revision (v : Z) : Onboarding → Onboarding := ltac:(set_field Onboarding_eta ob_Revision v).
Definition set_ob_Definition (v : option ToolDefinition) : Onboarding → Onboarding := ltac:(set_field Onboarding_eta ob_Definition v).
Definition ToolDefinition_eta (d : ToolDefinition) : ToolDefinition :=
  mkDefinition (td_DefinitionID d) (td_Version d) (td_Class d) (td_Shareable d) (td_Tools d) (td_Toolsets d) (td_DefaultEnabled d)
    (td_DefaultExcluded d) (td_Credentials d) (td_CredentialGroups d) (td_ContractID d) (td_ContractRevision d) (td_ContractEnv d)
    (td_OutputBytes d) (td_TimeoutSeconds d) (td_Rest d).
Definition set_td_OutputBytes (v : Z) : ToolDefinition → ToolDefinition := ltac:(set_field ToolDefinition_eta td_OutputBytes v).
Definition set_td_TimeoutSeconds (v : Z) : ToolDefinition → ToolDefinition := ltac:(set_field ToolDefinition_eta td_TimeoutSeconds v).
Definition ToolSpec_eta (t : ToolSpec) : ToolSpec :=
  mkTool (ts_Name t) (ts_Description t) (ts_Effect t) (ts_CapabilityID t) (ts_Uses t) (ts_ArgumentEquals t) (ts_Rest t).
Definition set_ts_Description (v : string) : ToolSpec → ToolSpec := ltac:(set_field ToolSpec_eta ts_Description v).

(** [NewStore] *)
Definition NewStore : Reg :=
  mkReg ∅ ∅ ∅ ∅ ∅ ∅ ∅ ∅ ∅ ∅ ∅ ∅ ∅ ∅ ∅ ∅ ∅ [] [] false None (0, 0) None None [] [].

(** One scan of the onboardings: the loop it serves, the binding it asks about and which of the
    loop's rounds it is. *)
Definition Scan : Type := string * string * nat.

(** What one operation meets: the clock, the order a [range] over a map takes at each of its
    loops ([rw_range]; [rw_scan] where one operation runs the same loop several times, which may
    take another order each time), whether the stopper and the broker are wired and when they fail, which file
    operations of a save fail, the stamp the new file gets, and the reconnect callback. *)
Class RegWorld := {
  rw_now : Z;
  rw_range : ∀ {A}, nat → gmap string A → list (string * A);
  rw_range_perm : ∀ {A} (site : nat) (m : gmap string A), rw_range site m ≡ₚ map_to_list m;
  rw_scan : ∀ {A}, Scan → gmap string A → list (string * A);
  rw_scan_perm : ∀ {A} (scan : Scan) (m : gmap string A), rw_scan scan m ≡ₚ map_to_list m;
  rw_stopper : option (string → bool);
  rw_broker : option (BrokerBindingGrant → bool);
  rw_lock_fails : bool;
  rw_read_fails : bool;
  rw_write_fails : bool;
  rw_stamp : Z * Z;
  rw_onchange : Z → bool;
}.

(** The digest of a registry file: SHA-256 of the JSON of its snapshot. *)
Class SnapDigest := { snap_digest : Snap → string }.

Definition RM := M Reg TErr.

(** A validator's verdict as a statement. *)
Definition valid_or (v : option TErr) : RM unit := match v with Some e => mthrow_err e | None => mret tt end.

Definition definitionKey (id version : string) : string := id ++ "@" ++ version.
Definition projectionKey (principal context runtime : string) : string := principal ++ String NUL context ++ String NUL runtime.
Definition binding_scope (b : ToolBinding) : string := projectionKey (b_PrincipalID b) (b_ContextID b) (b_RuntimeID b).

(** The revision of a projection: a missing one reads as 0. *)
Definition revision_of (m : gmap string Z) (key : string) : Z := default 0 (m !! key).

Definition hasDefinitionID (s : Reg) (id : string) : bool :=
  existsb (λ kv, HasPrefix kv.1 (id ++ "@")) (map_to_list (r_definitions s)).

Definition running (w : WorkloadInstance) : bool := (w_Status w == RunningStatus) || (w_Status w == StartingStatus).

(** [noteConnectionStatusLocked] and [forgetConnectionStatusLocked] *)
Definition noteConnectionStatusLocked (c : Connection) (s : Reg) : Reg := set_r_connStatus (<[c_ConnectionID c := c_Status c]> (r_connStatus s)) s.
Definition forgetConnectionStatusLocked (id : string) (s : Reg) : Reg := set_r_connStatus (delete id (r_connStatus s)) s.

Definition put_connection (c : Connection) (s : Reg) : Reg :=
  noteConnectionStatusLocked c (set_r_connections (<[c_ConnectionID c := c]> (r_connections s)) s).

(** * Saving *)

Section Save.
Context `{LargeSort} `{SnapDigest} `{RegWorld}.

(** [compactLocked] *)
Definition compactLocked (now : Z) (s : Reg) : Reg :=
  let day := 24 * 3600 * 1000000000 in
  let s := set_r_onboardings (filter (λ kv, negb ((ob_Phase kv.2 == PhaseRemoved) && (30 * day <? now - ob_CreatedAt kv.2)) = true) (r_onboardings s)) s in
  set_r_operations (filter (λ kv, negb (one_of (op_State kv.2) [OpStateDone; OpStateFailed] && (7 * day <? now - op_UpdatedAt kv.2)) = true)
    (r_operations s)) s.

(** A table as the file lists it, in the order of its keys. *)
Definition listed {A} (site : nat) (key : A → string) (m : gmap string A) : list A :=
  SortFunc (λ a b, strings_Compare (key a) (key b)) (map snd (rw_range site m)).

(** A registered definition is not stored again with its onboarding. *)
Definition stored_onboarding (s : Reg) (o : Onboarding) : Onboarding :=
  if bool_decide (is_Some (ob_Definition o)) && negb (ob_AdmissionPending o)
     && bool_decide (is_Some (r_definitions s !! definitionKey (ob_DefinitionID o) (ob_DefinitionVersion o)))
  then set_ob_Definition None o else o.

Definition snapshot_of (s : Reg) : Snap :=
  mkSnap SchemaVersion (listed 0 (λ d, definitionKey (td_DefinitionID d) (td_Version d)) (r_definitions s)) (listed 1 c_ConnectionID (r_connections s))
    (listed 2 cr_CredentialRefID (r_credentials s)) (listed 3 b_ToolBindingID (r_bindings s)) (listed 4 w_WorkloadID (r_workloads s))
    (r_projections s) (listed 5 g_GrantID (r_grants s)) (listed 6 ob_OnboardingID (stored_onboarding s <$> r_onboardings s))
    (listed 7 op_OperationID (r_operations s)) (r_recipes s)
    (listed 8 (λ p, definitionKey (pb_DefinitionID p) (pb_Version p)) (r_publications s)) (listed 9 sp_PolicyID (r_sharedPolicies s))
    (listed 10 t_TeamID (r_teams s)) (listed 11 bg_BindingID (r_brokerGrants s)) (r_changes s) (r_bindingChanges s).

(** [saveLocked]: nothing is written over a file that someone else changed. *)
Definition saveLocked : RM unit :=
  fail_if rw_lock_fails TIO ;;
  fail_if rw_read_fails TIO ;;
  s ← get;
  fail_if (match r_disk s with Some (d, _) => negb (bool_decide (r_seen s = Some (snap_digest d))) | None => false end) TConflict ;;
  modify (compactLocked rw_now) ;;
  fail_if rw_write_fails TIO ;;
  modify (λ s, let d := snapshot_of s in set_r_stamp rw_stamp (set_r_seen (Some (snap_digest d)) (set_r_disk (Some (d, rw_stamp)) s))).

(** [persist] *)
Definition persist : RM unit := s ← get; if r_path s then saveLocked else mret tt.

(** [ReconnectController.Reconcile] *)
Definition Reconcile (auth : Envelope) (last : Z) : RM unit :=
  fail_if (negb (Envelope_Validate auth (e_PrincipalID auth) (e_ContextID auth) (e_RuntimeID auth) (e_PolicyVersion auth))) TUnauthorized ;;
  s ← get;
  let revision := revision_of (r_projections s) (projectionKey (e_PrincipalID auth) (e_ContextID auth) (e_RuntimeID auth)) in
  if revision <=? last then mret tt
  else fail_if (rw_onchange revision) TIO ;; modify (set_r_reconnect (Some (auth, revision))).

(** [persistAndNotify] *)
Definition persistAndNotify : RM unit :=
  persist ;;
  s ← get;
  match r_reconnect s with None => mret tt | Some (auth, last) => Reconcile auth last end.

(** [stopWorkloads] and [revokeGrants]: every one is called; the answer is whether one failed. *)
Definition stopWorkloads (ids : list string) : RM bool :=
  match rw_stopper with
  | None => mret false
  | Some fails => modify (λ s, set_r_stops (r_stops s ++ ids)%list s) ;; mret (existsb fails ids)
  end.
Definition revokeGrants (grants : list BrokerBindingGrant) : RM bool :=
  match rw_broker with
  | None => mret false
  | Some fails => modify (λ s, set_r_revokes (r_revokes s ++ grants)%list s) ;; mret (existsb fails grants)
  end.

(** How a change ends once the lock is released: the stopped workloads, the saved registry,
    the retired grants. *)
Definition settle (save : RM unit) (stopped : list string) (retired : list BrokerBindingGrant) : RM unit :=
  stopErr ← stopWorkloads stopped;
  save ;;
  revokeErr ← revokeGrants retired;
  fail_if (stopErr || revokeErr) TIO.
End Save.

(** * Putting records *)

Section Put.
Context `{ToolWorld} `{Unicode} `{LargeSort} `{SnapDigest} `{RegWorld}.

(** [RegisterDefinition] *)
Definition RegisterDefinition (definition : ToolDefinition) : RM unit :=
  valid_or (definition_check definition) ;;
  s ← get;
  let key := definitionKey (td_DefinitionID definition) (td_Version definition) in
  fail_if (match r_definitions s !! key with Some existing => existing != definition | None => false end) TConflict ;;
  modify (set_r_definitions (<[key := definition]> (r_definitions s))).

(** [PutCredentialReference] *)
Definition PutCredentialReference (reference : CredentialReference) : RM unit :=
  valid_or (CredentialReference_Validate reference) ;;
  s ← get;
  fail_if (match r_credentials s !! cr_CredentialRefID reference with Some existing => existing != reference | None => false end) TConflict ;;
  modify (set_r_credentials (<[cr_CredentialRefID reference := reference]> (r_credentials s))).

(** The credential a connection names is one of its own. *)
Definition credential_of (s : Reg) (c : Connection) : bool :=
  (c_CredentialRefID c == "") ||
  match r_credentials s !! c_CredentialRefID c with Some r => cr_ConnectionID r == c_ConnectionID c | None => false end.

(** [PutConnection] *)
Definition PutConnection (connection : Connection) : RM unit :=
  valid_or (Connection_Validate connection) ;;
  s ← get;
  fail_if (negb (hasDefinitionID s (c_DefinitionID connection))) TNotFound ;;
  fail_if (negb (credential_of s connection)) TInvalid ;;
  fail_if (match r_connections s !! c_ConnectionID connection with Some existing => existing != connection | None => false end) TConflict ;;
  modify (put_connection connection).

(** [PutBinding] *)
Definition binding_id_of (b : ToolBinding) : string :=
  DeterministicBindingID (b_PrincipalID b) (b_ContextID b) (b_RuntimeID b) (b_DefinitionID b) (b_DefinitionVersion b) (b_ConnectionID b) (b_CredentialRefID b).

Definition binding_credential_current (s : Reg) (b : ToolBinding) (c : Connection) : bool :=
  match r_credentials s !! b_CredentialRefID b with
  | Some r => (cr_ConnectionID r == c_ConnectionID c) && (cr_Revision r =? b_CredentialRevision b) && (c_CredentialRefID c == cr_CredentialRefID r)
  | None => false
  end.

Definition binding_connection_check (s : Reg) (d : ToolDefinition) (b : ToolBinding) : option TErr :=
  let bearing := negb (bool_decide (td_Credentials d = [])) in
  if b_ConnectionID b != "" then
    match r_connections s !! b_ConnectionID b with
    | None => Some TInvalid
    | Some c =>
        refuse (c_DefinitionID c != b_DefinitionID b) TInvalid
        (refuse (negb (b_ConnectionRevision b =? c_Revision c)) TStale
        (if b_CredentialRefID b != "" then refuse (negb (binding_credential_current s b c)) TStale None
         else refuse bearing TInvalid None))
    end
  else refuse bearing TInvalid (refuse (b_CredentialRefID b != "") TInvalid None).

Definition raise_projection (b : ToolBinding) (m : gmap string Z) : gmap string Z :=
  if revision_of m (binding_scope b) <? b_ProjectionRevision b then <[binding_scope b := b_ProjectionRevision b]> m else m.

Definition PutBinding (binding : ToolBinding) : RM unit :=
  let binding := if b_ToolBindingID binding == "" then set_b_ToolBindingID (binding_id_of binding) binding else binding in
  valid_or (ToolBinding_Validate binding) ;;
  s ← get;
  definition ← some_or (r_definitions s !! definitionKey (b_DefinitionID binding) (b_DefinitionVersion binding)) TNotFound;
  fail_if (td_Class definition != b_WorkloadClass binding) TInvalid ;;
  valid_or (binding_connection_check s definition binding) ;;
  fail_if (b_ToolBindingID binding != binding_id_of binding) TInvalid ;;
  fail_if (match r_bindings s !! b_ToolBindingID binding with Some existing => existing != binding | None => false end) TConflict ;;
  modify (λ s, set_r_bindings (<[b_ToolBindingID binding := binding]> (r_bindings s)) (set_r_projections (raise_projection binding (r_projections s)) s)).

(** [PutWorkloadInstance] *)
Definition workload_fits (b : ToolBinding) (w : WorkloadInstance) : bool :=
  (b_DefinitionID b == w_DefinitionID w) && (b_DefinitionVersion b == w_DefinitionVersion w).
Definition PutWorkloadInstance (workload : WorkloadInstance) : RM unit :=
  valid_or (WorkloadInstance_Validate workload) ;;
  s ← get;
  fail_if (match r_bindings s !! w_BindingID workload with
           | Some b => negb (workload_fits b workload && (b_WorkloadClass b == w_Class workload)) | None => true end) TInvalid ;;
  fail_if (match r_workloads s !! w_WorkloadID workload with Some existing => existing != workload | None => false end) TConflict ;;
  modify (set_r_workloads (<[w_WorkloadID workload := workload]> (r_workloads s))).

(** [PutPublication], [PutSharedCredentialPolicy], [PutOnboarding], [PutOperation] *)
Definition PutPublication (pub : DefinitionPublication) : RM unit :=
  valid_or (DefinitionPublication_Validate pub) ;;
  s ← get;
  fail_if (negb (hasDefinitionID s (pb_DefinitionID pub))) TNotFound ;;
  modify (set_r_publications (<[definitionKey (pb_DefinitionID pub) (pb_Version pub) := pub]> (r_publications s))) ;;
  persist.
Definition PutSharedCredentialPolicy (policy : SharedCredentialPolicy) : RM unit :=
  valid_or (SharedCredentialPolicy_Validate policy) ;;
  modify (λ s, set_r_sharedPolicies (<[sp_PolicyID policy := policy]> (r_sharedPolicies s)) s) ;;
  persist.
Definition PutOnboarding (onboarding : Onboarding) : RM unit :=
  valid_or (Onboarding_Validate onboarding) ;;
  modify (λ s, set_r_onboardings (<[ob_OnboardingID onboarding := onboarding]> (r_onboardings s)) s) ;;
  persist.
Definition PutOperation (op : Operation) : RM unit :=
  valid_or (Operation_Validate op) ;;
  modify (λ s, set_r_operations (<[op_OperationID op := op]> (r_operations s)) s) ;;
  persist.

(** [ClaimPreparingOnboarding] *)
Definition ClaimPreparingOnboarding (onboarding : Onboarding) (maxAge now : Z) : RM (Onboarding * bool) :=
  valid_or (Onboarding_Validate onboarding) ;;
  s ← get;
  match r_onboardings s !! ob_OnboardingID onboarding with
  | Some existing =>
      if (ob_Phase existing == PhasePreparing) && (now <? ob_CreatedAt existing + maxAge) then mret (existing, true)
      else modify (set_r_onboardings (<[ob_OnboardingID onboarding := onboarding]> (r_onboardings s))) ;; persist ;; mret (onboarding, false)
  | None => modify (set_r_onboardings (<[ob_OnboardingID onboarding := onboarding]> (r_onboardings s))) ;; persist ;; mret (onboarding, false)
  end.

(** [PromoteToCatalog] *)
Definition PromoteToCatalog (definitionID version operator : string) : RM unit :=
  fail_if (negb (ValidID operator) || model_issuer operator) TUnauthorized ;;
  s ← get;
  let key := definitionKey definitionID version in
  fail_if (negb (bool_decide (is_Some (r_definitions s !! key)))) TNotFound ;;
  let pub := mkPublication definitionID version PublicationCatalog (default "" (pb_OwnerPrincipalID <$> r_publications s !! key)) in
  valid_or (DefinitionPublication_Validate pub) ;;
  modify (set_r_publications (<[key := pub]> (r_publications s))) ;;
  persist.

(** [PutRecipe] *)
Definition PutRecipe (resolution : RecipeResolution) : RM string :=
  digest ← some_or (resolution_digest resolution) TInvalid;
  s ← get;
  if bool_decide (is_Some (r_recipes s !! digest)) then mret digest
  else
    modify (set_r_recipes (<[digest := resolution]> (r_recipes s))) ;;
    saved ← try persist;
    match saved with
    | Ok _ => mret digest
    | Err e => modify (λ s, set_r_recipes (delete digest (r_recipes s)) s) ;; mthrow_err e
    end.

(** [SweepConnectionOnboardings] *)
Definition swept (connectionID except : string) (o : Onboarding) : Onboarding :=
  if (ob_ConnectionID o != connectionID) || (ob_OnboardingID o == except) || one_of (ob_Phase o) [PhaseRemoved; PhaseFailed; PhaseRevoked]
     || (ob_SupersededBy o != "") then o
  else set_ob_Revision (u64 (ob_Revision o + 1)) (set_ob_Phase PhaseRemoved o).
Definition SweepConnectionOnboardings (connectionID except : string) : RM unit :=
  if connectionID == "" then mret tt
  else
    modify (λ s, set_r_onboardings (swept connectionID except <$> r_onboardings s) s) ;;
    persist.

(** ** Authority records: a change is taken back when it cannot be saved *)

(** [if s.path != "" { if err := s.saveLocked(s.path); err != nil { undo; return err } }] *)
Definition save_or (undo : Reg → Reg) : RM unit :=
  saved ← try persist;
  match saved with Ok _ => mret tt | Err e => modify undo ;; mthrow_err e end.

(** [PutGrant] *)
Definition PutGrant (grant : Grant) : RM unit :=
  valid_or (Grant_Validate grant) ;;
  s ← get;
  let old := r_grants s !! g_GrantID grant in
  match old with
  | Some existing =>
      if (g_Revision grant =? g_Revision existing) && (existing == grant) then persist
      else
        fail_if (g_Revision grant <=? g_Revision existing) TConflict ;;
        modify (λ s, set_r_grants (<[g_GrantID grant := grant]> (r_grants s)) (set_r_changes (r_changes s ++ [ChGrant grant])%list s)) ;;
        save_or (λ s', set_r_grants (<[g_GrantID grant := existing]> (r_grants s')) (set_r_changes (r_changes s) s'))
  | None =>
      modify (λ s, set_r_grants (<[g_GrantID grant := grant]> (r_grants s)) (set_r_changes (r_changes s ++ [ChGrant grant])%list s)) ;;
      save_or (λ s', set_r_grants (delete (g_GrantID grant) (r_grants s')) (set_r_changes (r_changes s) s'))
  end.

(** The first refusal of the group revisions a record's history asks for. *)
Definition group_history (groups_of : CapabilityChange → option (list CapabilityGroup)) (next : list CapabilityGroup) (changes : list CapabilityChange)
    : option TErr :=
  first_some (λ change, match groups_of change with Some previous => CheckGroupRevisions previous next | None => None end) changes.
Definition policy_groups (id : string) (change : CapabilityChange) : option (list CapabilityGroup) :=
  match change with ChPolicy p => if po_PolicyID p == id then Some (po_DefaultGroups p) else None | _ => None end.
Definition profile_groups (id : string) (change : CapabilityChange) : option (list CapabilityGroup) :=
  match change with ChProfile p => if pf_ProfileID p == id then Some (pf_AllowGroups p) else None | _ => None end.

(** [PutCapabilityPolicy] *)
Definition PutCapabilityPolicy (policy : CapabilityPolicy) : RM unit :=
  valid_or (CapabilityPolicy_Validate policy) ;;
  s ← get;
  let id := po_PolicyID policy in
  let put s := set_r_policies (<[id := policy]> (r_policies s)) (set_r_changes (r_changes s ++ [ChPolicy policy])%list s) in
  valid_or (group_history (policy_groups id) (po_DefaultGroups policy) (r_changes s)) ;;
  match r_policies s !! id with
  | Some old =>
      if po_Revision policy <=? po_Revision old then if old == policy then persist else mthrow_err TConflict
      else modify put ;; save_or (λ s', set_r_policies (<[id := old]> (r_policies s')) (set_r_changes (r_changes s) s'))
  | None => modify put ;; save_or (λ s', set_r_policies (delete id (r_policies s')) (set_r_changes (r_changes s) s'))
  end.

(** [validateProfileAdmissionLocked] *)
Definition selection_reviewed (s : Reg) (selection : CapabilitySelection) : bool :=
  match r_definitions s !! definitionKey (se_DefinitionID selection) (se_DefinitionVersion selection) with
  | None => false
  | Some d =>
      (definition_digest d == se_ImplementationDigest selection) &&
      existsb (λ t, (ts_Name t == se_ToolName selection) && (ts_CapabilityID t == se_CapabilityID selection) && negb (Nat.eqb (List.length (ts_Uses t)) 0))
        (td_Tools d)
  end.
Definition validateProfileAdmissionLocked (s : Reg) (profile : CapabilityProfile) : res TErr CapabilityPolicy :=
  match r_policies s !! pf_PolicyID profile with
  | None => Err TUnauthorized
  | Some policy =>
      if negb (po_Revision policy =? pf_PolicyRevision profile) || negb (one_of (pf_PrincipalID profile) (po_Members policy)) then Err TUnauthorized
      else if negb (forallb (forallb (inside_some (po_Ceiling policy))) (pf_Allows profile :: GroupRuleSets (pf_AllowGroups profile))) then Err TUnauthorized
      else if negb (forallb (selection_reviewed s) (pf_Selections profile)) then Err TUnauthorized
      else Ok policy
  end.

(** [PutCapabilityProfile] *)
Definition PutCapabilityProfile (profile : CapabilityProfile) : RM unit :=
  valid_or (CapabilityProfile_Validate profile) ;;
  s ← get;
  let id := pf_ProfileID profile in
  let put s := set_r_profiles (<[id := profile]> (r_profiles s)) (set_r_changes (r_changes s ++ [ChProfile profile])%list s) in
  (match validateProfileAdmissionLocked s profile with Ok _ => mret tt | Err e => mthrow_err e end) ;;
  valid_or (group_history (profile_groups id) (pf_AllowGroups profile) (r_changes s)) ;;
  match r_profiles s !! id with
  | Some old =>
      if pf_Revision profile <=? pf_Revision old then if old == profile then persist else mthrow_err TConflict
      else modify put ;; save_or (λ s', set_r_profiles (<[id := old]> (r_profiles s')) (set_r_changes (r_changes s) s'))
  | None => modify put ;; save_or (λ s', set_r_profiles (delete id (r_profiles s')) (set_r_changes (r_changes s) s'))
  end.
End Put.
