(* ===== verification/RegOps.v ===== *)
(** The life of connections, bindings and teams in the tool registry
    (internal/toolhub/store.go). *)
From stdpp Require Import base gmap strings list sorting.
From Stdlib Require Import Ascii String.
From S2P Require Import Prelude GoStrings Calendar Governance RoutineTypes Schedules ToolTypes Capability RegStore.
Local Open Scope string_scope.
Local Open Scope Z_scope.

(** [touchProjectionLocked] *)
Definition touchProjectionLocked (m : gmap string Z) (b : ToolBinding) : gmap string Z * ToolBinding :=
  let key := binding_scope b in
  let next := u64 (revision_of m key + 1) in
  let next := if next <=? b_ProjectionRevision b then u64 (b_ProjectionRevision b + 1) else next in
  (<[key := next]> m, set_b_ProjectionRevision next b).

(** [s.touchProjectionLocked(&binding); s.bindings[id] = binding] *)
Definition touch_binding (id : string) (b : ToolBinding) (s : Reg) : Reg :=
  let '(m, b) := touchProjectionLocked (r_projections s) b in
  set_r_bindings (<[id := b]> (r_bindings s)) (set_r_projections m s).

Definition stopped_workload (w : WorkloadInstance) : WorkloadInstance := set_w_Status StoppedStatus w.

Section Lifecycle.
Context `{ToolWorld} `{Unicode} `{LargeSort} `{SnapDigest} `{RegWorld}.

(** The bindings [f] picks and changes, each with the next revision of its projection. *)
Definition touch_where (site : nat) (f : ToolBinding → option ToolBinding) (s : Reg) : Reg :=
  fold_left (λ s '(id, b), match f b with Some b => touch_binding id b s | None => s end) (rw_range site (r_bindings s)) s.

Definition on_connection (connectionID : string) (b : ToolBinding) : option ToolBinding :=
  if b_ConnectionID b == connectionID then Some b else None.

(** The running workloads that [p] picks stop: their identifiers, and the registry. *)
Definition stop_where (site : nat) (p : WorkloadInstance → bool) (s : Reg) : list string * Reg :=
  (map (λ kv, w_WorkloadID kv.2) (List.filter (λ kv, p kv.2 && running kv.2) (rw_range site (r_workloads s))),
   set_r_workloads ((λ w, if p w && running w then stopped_workload w else w) <$> r_workloads s) s).

(** Whether the binding of a workload is on a connection. *)
Definition workload_on (s : Reg) (connectionID : string) (w : WorkloadInstance) : bool :=
  match r_bindings s !! w_BindingID w with Some b => b_ConnectionID b == connectionID | None => false end.

(** [stopAffectedLocked] *)
Definition stopAffectedLocked (connectionID : string) (s : Reg) : list string * Reg := stop_where 20 (workload_on s connectionID) s.

(** The shared connection a binding is on. *)
Definition shared_connection (s : Reg) (bindingID : string) : option string :=
  match r_bindings s !! bindingID with
  | Some b =>
      if b_ConnectionID b == "" then None
      else match r_connections s !! b_ConnectionID b with
           | Some c => if meta c "shared_policy" == "" then None else Some (b_ConnectionID b)
           | None => None
           end
  | None => None
  end.

(** [stopBindingLocked]: what a shared connection runs goes on while another member uses it. *)
Definition stopBindingLocked (bindingID : string) (s : Reg) : list string * Reg :=
  match shared_connection s bindingID with
  | Some connectionID =>
      if existsb (λ kv, (b_ToolBindingID kv.2 != bindingID) && (b_ConnectionID kv.2 == connectionID) && (b_Status kv.2 == ActiveStatus))
           (map_to_list (r_bindings s))
      then ([], s)
      else stop_where 21 (λ w, (w_BindingID w == bindingID) || workload_on s connectionID w) s
  | None => stop_where 21 (λ w, w_BindingID w == bindingID) s
  end.

(** [retireBindingGrantsLocked] and [retireConnectionGrantsLocked] *)
Definition retireBindingGrantsLocked (bindingID : string) (s : Reg) : list BrokerBindingGrant * Reg :=
  match r_brokerGrants s !! bindingID with
  | None => ([], s)
  | Some g => ([g], set_r_brokerGrants (delete bindingID (r_brokerGrants s)) s)
  end.
Definition retires (connectionID staleRefOnly : string) (g : BrokerBindingGrant) : bool :=
  negb ((bg_ConnectionID g != connectionID) || ((staleRefOnly != "") && (bg_CredentialRefID g != staleRefOnly))).
Definition retireConnectionGrantsLocked (connectionID staleRefOnly : string) (s : Reg) : list BrokerBindingGrant * Reg :=
  (List.filter (retires connectionID staleRefOnly) (map snd (rw_range 22 (r_brokerGrants s))),
   set_r_brokerGrants (filter (λ kv, retires connectionID staleRefOnly kv.2 = false) (r_brokerGrants s)) s).

(** A change of the registry under its lock. *)
Definition locked {A} (f : Reg → A * Reg) : RM A := λ s, let '(a, s') := f s in (Ok a, s').

(** [BrokerGrantFor] and [RecordBrokerGrant] *)
Definition BrokerGrantFor (s : Reg) (bindingID refID : string) : option BrokerBindingGrant :=
  match r_brokerGrants s !! bindingID with Some g => if bg_CredentialRefID g == refID then Some g else None | None => None end.
Definition broker_grant_ok (g : BrokerBindingGrant) : bool :=
  forallb (λ f, f != "") [bg_BindingID g; bg_GrantID g; bg_CredentialRefID g; bg_ConnectionID g; bg_ContextID g].
Definition RecordBrokerGrant (grant : BrokerBindingGrant) : RM string :=
  fail_if (negb (broker_grant_ok grant)) TInvalid ;;
  s ← get;
  match BrokerGrantFor s (bg_BindingID grant) (bg_CredentialRefID grant) with
  | Some existing => mret (bg_GrantID existing)
  | None => modify (set_r_brokerGrants (<[bg_BindingID grant := grant]> (r_brokerGrants s))) ;; mret (bg_GrantID grant)
  end.

(** ** Teams *)

(** The members an update drops: those of the old team that the new one lists nowhere. *)
Definition dropped_member (existing : option Team) (team : Team) (principal : string) : bool :=
  match existing with
  | Some old => one_of principal (t_Members old) && negb (one_of principal (t_Members team)) && negb (one_of principal (t_WriteMembers team))
  | None => false
  end.

(** The seat of a dropped member: the binding is on a connection of the team. *)
Definition seat_dropped (s : Reg) (existing : option Team) (team : Team) (b : ToolBinding) : bool :=
  (b_ConnectionID b != "") && dropped_member existing team (b_PrincipalID b) &&
  match r_connections s !! b_ConnectionID b with
  | Some c => (ow_Type (c_Owner c) == TeamOwner) && (ow_ID (c_Owner c) == t_TeamID team)
  | None => false
  end.

Definition cut_seat (acc : list string * list BrokerBindingGrant * Reg) (id : string) : list string * list BrokerBindingGrant * Reg :=
  let '(stopped, retired, s) := acc in
  let '(ids, s) := stopBindingLocked id s in
  let '(grants, s) := retireBindingGrantsLocked id s in
  (stopped ++ ids, retired ++ grants, s)%list.

(** [PutTeam] *)
Definition PutTeam (team : Team) : RM unit :=
  valid_or (Team_Validate team) ;;
  s ← get;
  let existing := r_teams s !! t_TeamID team in
  fail_if (match existing with Some old => t_Revision team <=? t_Revision old | None => false end) TConflict ;;
  '(stopped, retired) ← locked (λ s,
     let s := set_r_teams (<[t_TeamID team := team]> (r_teams s)) s in
     fold_left (λ acc '(id, b), if seat_dropped acc.2 existing team b then cut_seat acc id else acc) (rw_range 23 (r_bindings s)) ([], [], s));
  settle persist stopped retired.

(** [ShareTeamConnection] *)
Definition ShareTeamConnection (teamID definitionID version backend locator brokerContext : string) (keys : list string)
    : RM (Connection * CredentialReference) :=
  s ← get;
  fail_if (match r_teams s !! teamID with Some team => t_Status team != ActiveStatus | None => true end) TNotFound ;;
  definition ← some_or (r_definitions s !! definitionKey definitionID version) TNotFound;
  fail_if (negb (one_of (td_Shareable definition) ["credential"; "connection"])) TUnauthorized ;;
  let brokered := backend == "credential-broker" in
  fail_if (brokered && negb (ValidID brokerContext)) TInvalid ;;
  fail_if (brokered && ((td_ContractID definition == "") || (td_ContractRevision definition <? 1))) TInvalid ;;
  let connectionID := deterministic_id "conn" ["team"; teamID; definitionID; version] in
  let reference := mkReference SchemaVersion (CredentialReferenceID connectionID 1) connectionID 1 backend locator keys "" "" ""
    (if brokered then td_ContractID definition else "") (if brokered then td_ContractRevision definition else 0)
    (if brokered then td_ContractEnv definition else ∅) brokerContext "" "" ActiveStatus in
  let connection := mkConnection SchemaVersion connectionID (mkOwner TeamOwner teamID) definitionID (cr_CredentialRefID reference) 1 ActiveStatus ""
    ZeroTime "" no_retry no_retry no_retry no_retry ZeroTime 0 false {["shareable" := td_Shareable definition]} in
  valid_or (CredentialReference_Validate reference) ;;
  valid_or (Connection_Validate connection) ;;
  modify (λ s, put_connection connection (set_r_credentials (<[cr_CredentialRefID reference := reference]> (r_credentials s)) s)) ;;
  persist ;;
  mret (connection, reference).

(** The rows of a connection, and those of its credentials. *)
Definition drop_connection (connectionID : string) (s : Reg) : Reg :=
  forgetConnectionStatusLocked connectionID
    (set_r_connections (delete connectionID (r_connections s))
      (set_r_credentials (filter (λ kv, cr_ConnectionID kv.2 ≠ connectionID) (r_credentials s)) s)).

(** One member binding of [DropTeamConnection]. *)
Definition drop_binding (acc : list string * list BrokerBindingGrant * Reg) (id : string) (b : ToolBinding) : list string * list BrokerBindingGrant * Reg :=
  let '(stopped, retired, s) := acc in
  let s := touch_binding id (set_b_Status RevokedStatus b) s in
  let '(ids, s) := stopBindingLocked id s in
  let s := set_r_bindings (delete id (r_bindings s)) s in
  let '(grants, s) := retireBindingGrantsLocked id s in
  (stopped ++ ids, retired ++ grants, s)%list.

(** [DropTeamConnection] *)
Definition DropTeamConnection (connectionID : string) : RM unit :=
  s ← get;
  connection ← some_or (r_connections s !! connectionID) TNotFound;
  fail_if (ow_Type (c_Owner connection) != TeamOwner) TInvalid ;;
  '(stopped, retired) ← locked (λ s,
     let '(stopped, retired, s) :=
       fold_left (λ acc '(id, b), if b_ConnectionID b == connectionID then drop_binding acc id b else acc) (rw_range 24 (r_bindings s)) ([], [], s) in
     (stopped, retired, drop_connection connectionID s));
  settle persistAndNotify stopped retired.

(** ** Connections *)

(** A connection at its next revision, every binding of it with a new projection. *)
Definition advance_connection (site : nat) (c : Connection) (s : Reg) : Reg :=
  touch_where site (on_connection (c_ConnectionID c)) (put_connection c s).
Definition next_status (status : string) (c : Connection) : Connection := set_c_Revision (u64 (c_Revision c + 1)) (set_c_Status status c).

(** [SetConnectionStatus] *)
Definition SetConnectionStatus (connectionID status : string) : RM unit :=
  fail_if (negb (one_of status [ActiveStatus; DisabledStatus; RevokedStatus; DeletingStatus; ReauthStatus])) TInvalid ;;
  s ← get;
  connection ← some_or (r_connections s !! connectionID) TNotFound;
  fail_if ((c_Status connection == RevokedStatus) && (status == ActiveStatus)) TRevoked ;;
  '(stopped, retired) ← locked (λ s,
     let s := advance_connection 25 (next_status status connection) s in
     let '(stopped, s) := stopAffectedLocked connectionID s in
     if status != ActiveStatus then let '(retired, s) := retireConnectionGrantsLocked connectionID "" s in (stopped, retired, s)
     else (stopped, [], s));
  settle persistAndNotify stopped retired.

(** The connection is still the one that was observed. *)
Definition is_current (expected c : Connection) : bool :=
  (c_Status c == c_Status expected) && (c_Revision c =? c_Revision expected) && (c_CredentialRefID c == c_CredentialRefID expected).

(** The connection an observation is about; [Ok None] when it has moved on. *)
Definition current_connection (connectionID : string) (expected : option Connection) : RM (option Connection) :=
  s ← get;
  match r_connections s !! connectionID, expected with
  | None, Some _ => mret None
  | None, None => mthrow_err TNotFound
  | Some c, Some e => mret (if is_current e c then Some c else None)
  | Some c, None => mret (Some c)
  end.

Definition label_metadata (label value : string) (c : Connection) : Connection :=
  if label == "" then c else set_c_Metadata (<[label := value]> (c_Metadata c)) c.

(** [markDegradedIfCurrent] *)
Definition markDegradedIfCurrent (connectionID : string) (expected : option Connection) (label observed : string) : RM bool :=
  current ← current_connection connectionID expected;
  match current with
  | None => mret false
  | Some connection =>
      stopped ← locked (λ s, stopAffectedLocked connectionID (advance_connection 26 (next_status DegradedStatus (label_metadata label observed connection)) s));
      settle persistAndNotify stopped [] ;;
      mret true
  end.
Definition MarkDegraded (connectionID : string) : RM unit := markDegradedIfCurrent connectionID None "" "" ;; mret tt.

(** [markReauthIfCurrent] *)
Definition revoke_reference (refID : string) (s : Reg) : Reg :=
  match r_credentials s !! refID with
  | Some r => set_r_credentials (<[refID := set_cr_Status RevokedStatus r]> (r_credentials s)) s
  | None => s
  end.
Definition markReauthIfCurrent (connectionID : string) (expected : option Connection) (observed : string) : RM bool :=
  current ← current_connection connectionID expected;
  match current with
  | None => mret false
  | Some connection =>
      let connection := next_status ReauthStatus
        (if observed == "" then connection else set_c_Metadata (<[LabelAcceptCredential := observed]> (c_Metadata connection)) connection) in
      stopped ← locked (λ s,
        let s := put_connection connection s in
        let s := if c_CredentialRefID connection == "" then s else revoke_reference (c_CredentialRefID connection) s in
        stopAffectedLocked connectionID (touch_where 27 (on_connection connectionID) s));
      settle persistAndNotify stopped [] ;;
      mret true
  end.
Definition MarkReauth (connectionID : string) : RM unit := markReauthIfCurrent connectionID None "" ;; mret tt.

(** [rotatableConnectionLocked] *)
Definition rotatableConnectionLocked (c : Connection) : option TErr :=
  refuse (negb (one_of (c_Status c) [ActiveStatus; ReauthStatus; DegradedStatus])) TRevoked
  (refuse ((c_Status c != ActiveStatus) && ((meta c LabelAcceptSurface != "") || (meta c LabelAcceptRecipe != ""))) TRevoked None).

Definition zero_reference : CredentialReference := mkReference 0 "" "" 0 "" "" [] "" "" "" "" 0 ∅ "" "" "" "".

(** The connection of fresh credentials: back in service, its checks forgotten, the observed
    credential recipe its pin. *)
Definition rotated (reference : CredentialReference) (c : Connection) : Connection :=
  let c := set_c_Revision (cr_Revision reference) (set_c_CredentialRefID (cr_CredentialRefID reference) c) in
  let c := set_c_HealthCause "" (set_c_CredentialCheckedAt ZeroTime (set_c_CredentialVisibility "" c)) in
  let c := set_c_SurfaceRetry no_retry (set_c_CredRecipeRetry no_retry (set_c_RecipeRetry no_retry (set_c_CredentialRetry no_retry c))) in
  let c := if one_of (c_Status c) [ReauthStatus; DegradedStatus] then set_c_Status ActiveStatus c else c in
  if meta c LabelAcceptCredential == "" then c
  else set_c_Metadata (delete LabelAcceptCredential (<[LabelCredentialRecipe := meta c LabelAcceptCredential]> (c_Metadata c))) c.

(** The reference a rotation supersedes is revoked, and the grants minted against it retire. *)
Definition supersede (connection : Connection) (s : Reg) : list BrokerBindingGrant * Reg :=
  if c_CredentialRefID connection == "" then ([], s)
  else
    let old := set_cr_Status RevokedStatus (default zero_reference (r_credentials s !! c_CredentialRefID connection)) in
    retireConnectionGrantsLocked (c_ConnectionID connection) (cr_CredentialRefID old)
      (set_r_credentials (<[cr_CredentialRefID old := old]> (r_credentials s)) s).

(** [rotateCredentialLocked] *)
Definition rotateCredentialLocked (connection : Connection) (reference : CredentialReference) : RM CredentialReference :=
  valid_or (CredentialReference_Validate reference) ;;
  '(stopped, retired) ← locked (λ s,
     let '(retired, s) := supersede connection s in
     let s := set_r_credentials (<[cr_CredentialRefID reference := reference]> (r_credentials s)) s in
     let s := advance_connection 28 (rotated reference connection) s in
     let '(stopped, s) := stopAffectedLocked (c_ConnectionID connection) s in
     (stopped, retired, s));
  stopErr ← stopWorkloads stopped;
  saved ← try persistAndNotify;
  match saved with
  | Err e => try (MarkDegraded (c_ConnectionID connection)) ;; mthrow_err e
  | Ok _ =>
      revokeErr ← revokeGrants retired;
      fail_if (stopErr || revokeErr) TIO ;;
      mret reference
  end.

(** [RotateCredential] and [RotateCredentialRecord] *)
Definition RotateCredential (connectionID backend locator : string) (keys : list string) : RM CredentialReference :=
  s ← get;
  connection ← some_or (r_connections s !! connectionID) TNotFound;
  valid_or (rotatableConnectionLocked connection) ;;
  let next := u64 (c_Revision connection + 1) in
  rotateCredentialLocked connection
    (mkReference SchemaVersion (CredentialReferenceID connectionID next) connectionID next backend locator keys "" "" "" "" 0 ∅ "" "" "" ActiveStatus).
Definition RotateCredentialRecord (reference : CredentialReference) : RM CredentialReference :=
  s ← get;
  connection ← some_or (r_connections s !! cr_ConnectionID reference) TNotFound;
  valid_or (rotatableConnectionLocked connection) ;;
  let next := u64 (c_Revision connection + 1) in
  fail_if (negb (cr_Revision reference =? next) || (cr_CredentialRefID reference != CredentialReferenceID (cr_ConnectionID reference) next)) TConflict ;;
  rotateCredentialLocked connection (set_cr_Status ActiveStatus (set_cr_Schema SchemaVersion reference)).

(** [setMigrateRequest] *)
Definition setMigrateRequest (refID requestID : string) : RM unit :=
  fail_if (negb (ValidID requestID)) TInvalid ;;
  s ← get;
  match r_credentials s !! refID with
  | Some r =>
      fail_if (cr_Status r != ActiveStatus) TNotFound ;;
      modify (set_r_credentials (<[refID := set_cr_MigrateRequestID requestID r]> (r_credentials s))) ;;
      persistAndNotify
  | None => mthrow_err TNotFound
  end.

(** ** Observations of the reconciler *)

(** One more failed check: minutes for the first five, then hours. *)
Definition retry_again (r : Retry) (at_ : Z) : Retry :=
  let count := if rt_Count r <? 5 then rt_Count r + 1 else rt_Count r in
  mkRetry (at_ + (if 5 <=? count then Hour else Minute)) count.

(** An observation of the connection [expected], if it has not moved on. *)
Definition observe_current (expected : Connection) (f : Connection → option Connection) : RM bool :=
  current ← current_connection (c_ConnectionID expected) (Some expected);
  match current with
  | None => mret false
  | Some c =>
      match f c with
      | None => mret true
      | Some c => modify (λ s, set_r_connections (<[c_ConnectionID c := c]> (r_connections s)) s) ;; persistAndNotify ;; mret true
      end
  end.

(** [observeCredentialCheckIfCurrent] *)
Definition observeCredentialCheckIfCurrent (expected : Connection) (visibility cause : string) (at_ : Z) : RM bool :=
  observe_current expected (λ c,
    let c := set_c_HealthCause cause (set_c_CredentialCheckedAt at_ (set_c_CredentialVisibility visibility c)) in
    Some (set_c_CredentialRetry (if visibility == "unknown" then retry_again (c_CredentialRetry c) at_ else no_retry) c)).

(** [retryState], [deferCheckIfCurrent] and [clearCheckRetryIfCurrent] *)
Inductive Stage := StageRecipe | StageCredentialRecipe | StageSurface.
Definition retryState (stage : Stage) (c : Connection) : Retry :=
  match stage with StageRecipe => c_RecipeRetry c | StageCredentialRecipe => c_CredRecipeRetry c | StageSurface => c_SurfaceRetry c end.
Definition set_retryState (stage : Stage) (r : Retry) (c : Connection) : Connection :=
  match stage with
  | StageRecipe => set_c_RecipeRetry r c | StageCredentialRecipe => set_c_CredRecipeRetry r c | StageSurface => set_c_SurfaceRetry r c
  end.
Definition deferCheckIfCurrent (expected : Connection) (stage : Stage) (at_ : Z) : RM bool :=
  observe_current expected (λ c, Some (set_retryState stage (retry_again (retryState stage c) at_) c)).
Definition clearCheckRetryIfCurrent (expected : Connection) (stage : Stage) : RM bool :=
  observe_current expected (λ c, if rt_Count (retryState stage c) =? 0 then None else Some (set_retryState stage no_retry c)).

(** [observeDriftIfCurrent] *)
Definition observeDriftIfCurrent (connectionID : string) (expected : option Connection) (label value : string) : RM bool :=
  current ← current_connection connectionID expected;
  match current with
  | None => mret false
  | Some c =>
      modify (λ s, set_r_connections (<[connectionID := set_c_Metadata (<[label := value]> (c_Metadata c)) c]> (r_connections s)) s) ;;
      persistAndNotify ;;
      mret true
  end.

(** [restoreApprovedSurfaceIfCurrent] *)
Definition restoreApprovedSurfaceIfCurrent (expected : Connection) (pinned : ToolBinding) : RM bool :=
  s ← get;
  match r_connections s !! c_ConnectionID expected, r_bindings s !! b_ToolBindingID pinned with
  | Some c, Some b =>
      if negb (c_Revision c =? c_Revision expected) || (c_Status c != DegradedStatus) || (meta c LabelAcceptSurface == "")
         || (meta c LabelAcceptRecipe != "") || (b_ConnectionID b != c_ConnectionID c) || (b_Status b != ActiveStatus)
         || (b_ToolDigest b != b_ToolDigest pinned) then mret false
      else
        let c := next_status ActiveStatus (set_c_Metadata (delete LabelAcceptSurface (c_Metadata c)) c) in
        modify (λ s, touch_where 29 (λ b,
          if b_ConnectionID b == c_ConnectionID c then
            Some (if (b_Status b == ActiveStatus) && (b_ToolDigest b == b_ToolDigest pinned)
                  then set_b_Revision (u64 (b_Revision b + 1)) (set_b_ConnectionRevision (c_Revision c) b) else b)
          else None) (put_connection c s)) ;;
        persistAndNotify ;;
        mret true
  | _, _ => mret false
  end.

(** [AcceptConnectionDrift] *)
Definition accept_surface (connectionID observed : string) (b : ToolBinding) : option ToolBinding :=
  if (b_ConnectionID b != connectionID) || (b_Status b != ActiveStatus) then None
  else Some (set_b_Revision (u64 (b_Revision b + 1)) (set_b_ToolDigest observed b)).
Definition AcceptConnectionDrift (connectionID : string) : RM unit :=
  s ← get;
  c ← some_or (r_connections s !! connectionID) TNotFound;
  fail_if (c_Status c != DegradedStatus) TInvalid ;;
  stopped ← locked (λ s,
    let s := if meta c LabelAcceptSurface == "" then s else touch_where 30 (accept_surface connectionID (meta c LabelAcceptSurface)) s in
    let md := if meta c LabelAcceptSurface == "" then c_Metadata c else delete LabelAcceptSurface (c_Metadata c) in
    let md := if meta c LabelAcceptRecipe == "" then md else delete LabelAcceptRecipe (<[LabelRecipe := meta c LabelAcceptRecipe]> md) in
    stopAffectedLocked connectionID (advance_connection 31 (next_status ActiveStatus (set_c_Metadata md c)) s));
  settle persistAndNotify stopped [].

(** [SetTerminalExposure] *)
Definition SetTerminalExposure (connectionID : string) (enabled : bool) : RM unit :=
  s ← get;
  c ← some_or (r_connections s !! connectionID) TNotFound;
  modify (set_r_connections (<[connectionID := set_c_Revision (u64 (c_Revision c + 1)) (set_c_TerminalExposure enabled c)]> (r_connections s))) ;;
  persistAndNotify.

(** ** Bindings *)

(** [SetBindingStatus] *)
Definition SetBindingStatus (bindingID status : string) : RM unit :=
  fail_if (negb (one_of status [ActiveStatus; DisabledStatus; RevokedStatus])) TInvalid ;;
  s ← get;
  binding ← some_or (r_bindings s !! bindingID) TNotFound;
  fail_if ((b_Status binding == RevokedStatus) && (status == ActiveStatus)) TRevoked ;;
  '(stopped, retired) ← locked (λ s,
     let s := touch_binding bindingID (set_b_Revision (u64 (b_Revision binding + 1)) (set_b_Status status binding)) s in
     let '(stopped, s) := stopBindingLocked bindingID s in
     if status != ActiveStatus then let '(retired, s) := retireBindingGrantsLocked bindingID s in (stopped, retired, s) else (stopped, [], s));
  settle persistAndNotify stopped retired.

(** [RemoveBindingRecords] *)
Definition RemoveBindingRecords (bindingID : string) : RM unit :=
  s ← get;
  match r_bindings s !! bindingID with
  | None => mret tt
  | Some binding =>
      '(stopped, retired) ← locked (λ s,
         let s := touch_binding bindingID (set_b_Status RevokedStatus binding) s in
         let '(stopped, s) := stopBindingLocked bindingID s in
         let s := set_r_bindings (delete bindingID (r_bindings s)) s in
         let referenced := existsb (λ kv, (b_ConnectionID kv.2 != "") && (b_ConnectionID kv.2 == b_ConnectionID binding)) (map_to_list (r_bindings s)) in
         let team := match r_connections s !! b_ConnectionID binding with Some c => ow_Type (c_Owner c) == TeamOwner | None => false end in
         let s := if (b_ConnectionID binding != "") && negb referenced && negb team then drop_connection (b_ConnectionID binding) s else s in
         let s := set_r_workloads (filter (λ kv, w_BindingID kv.2 ≠ bindingID) (r_workloads s)) s in
         let '(retired, s) := retireBindingGrantsLocked bindingID s in
         (stopped, retired, s));
      settle persistAndNotify stopped retired
  end.

(** [EnableToolsets] *)
Definition EnableToolsets (auth : Envelope) (bindingID : string) (sets : list string) : RM unit :=
  s ← get;
  match r_bindings s !! bindingID with
  | None => mthrow_err TNotFound
  | Some b =>
      fail_if ((b_PrincipalID b != e_PrincipalID auth) || (b_ContextID b != e_ContextID auth) || (b_RuntimeID b != e_RuntimeID auth)) TNotFound ;;
      let next := u64 (revision_of (r_projections s) (binding_scope b) + 1) in
      let b' := set_b_ProjectionRevision next (set_b_Revision (u64 (b_Revision b + 1)) (set_b_EnabledToolsets (SortFunc strings_Compare sets) b)) in
      modify (λ s, set_r_bindings (<[bindingID := b']> (r_bindings s)) (set_r_projections (<[binding_scope b := next]> (r_projections s)) s)) ;;
      persistAndNotify
  end.
End Lifecycle.
