(* ===== verification/RegLoad.v ===== *)
(** Loading the tool registry (internal/toolhub/store_io.go), and the migration of bindings to
    another policy version, which saves and reloads it (migrate.go). *)
From stdpp Require Import base gmap strings list sorting.
From Stdlib Require Import Ascii String.
From S2P Require Import Prelude GoStrings Governance RoutineTypes Schedules ToolTypes Capability RegStore RegOps.
Local Open Scope string_scope.
Local Open Scope Z_scope.

Section Load.
Context `{ToolWorld} `{Unicode} `{LargeSort} `{SnapDigest} `{RegWorld}.

(** [validateLocked] *)
Definition binding_linked (s : Reg) (b : ToolBinding) : bool :=
  match r_definitions s !! definitionKey (b_DefinitionID b) (b_DefinitionVersion b) with
  | Some d => td_Class d == b_WorkloadClass b
  | None => false
  end &&
  ((b_ConnectionID b == "") ||
   match r_connections s !! b_ConnectionID b with Some c => c_DefinitionID c == b_DefinitionID b | None => false end).
Definition workload_linked (s : Reg) (w : WorkloadInstance) : bool :=
  match r_bindings s !! w_BindingID w with Some b => workload_fits b w | None => false end.
Definition validateLocked (s : Reg) : bool :=
  forallb (λ kv, binding_linked s kv.2) (map_to_list (r_bindings s)) && forallb (λ kv, workload_linked s kv.2) (map_to_list (r_workloads s)).

(** Each record of the file, as [Load] takes it. *)
Definition load_change (change : CapabilityChange) : RM unit :=
  before ← get;
  match change with ChPolicy p => PutCapabilityPolicy p | ChProfile p => PutCapabilityProfile p | ChGrant g => PutGrant g end ;;
  after ← get;
  fail_if (negb (Nat.eqb (List.length (r_changes after)) (S (List.length (r_changes before))))) TInvalid.
Definition load_credential (r : CredentialReference) : RM unit :=
  valid_or (CredentialReference_Validate r) ;; modify (λ s, set_r_credentials (<[cr_CredentialRefID r := r]> (r_credentials s)) s).
Definition load_connection (c : Connection) : RM unit :=
  valid_or (Connection_Validate c) ;;
  s ← get;
  fail_if (negb (hasDefinitionID s (c_DefinitionID c))) TNotFound ;;
  fail_if (negb (credential_of s c)) TInvalid ;;
  modify (put_connection c).
Definition load_binding (b : ToolBinding) : RM unit :=
  valid_or (ToolBinding_Validate b) ;; modify (λ s, set_r_bindings (<[b_ToolBindingID b := b]> (r_bindings s)) s).
Definition load_workload (w : WorkloadInstance) : RM unit :=
  valid_or (WorkloadInstance_Validate w) ;; modify (λ s, set_r_workloads (<[w_WorkloadID w := w]> (r_workloads s)) s).
Definition load_projection (kv : string * Z) : RM unit :=
  fail_if (kv.2 =? 0) TInvalid ;; modify (λ s, set_r_projections (<[kv.1 := kv.2]> (r_projections s)) s).
Definition load_binding_change (c : bindingChange) : RM unit :=
  fail_if (negb (ValidID (bc_BindingID c)) || (bc_FromPolicy c == "") || (bc_ToPolicy c == "") || (bc_Revision c =? 0)) TInvalid ;;
  modify (λ s, set_r_bindingChanges (r_bindingChanges s ++ [c])%list s).
Definition load_grant (g : Grant) : RM unit :=
  valid_or (Grant_Validate g) ;; modify (λ s, set_r_grants (<[g_GrantID g := g]> (r_grants s)) s).
(** A resolution stored inline moves under its digest. *)
Definition load_onboarding (o : Onboarding) : RM unit :=
  valid_or (Onboarding_Validate o) ;;
  match ob_EmbeddedRecipe o with
  | None => modify (λ s, set_r_onboardings (<[ob_OnboardingID o := o]> (r_onboardings s)) s)
  | Some recipe =>
      digest ← some_or (resolution_digest recipe) TInvalid;
      let o := set_ob_EmbeddedRecipe None (if ob_RecipeDigest o == "" then set_ob_RecipeDigest digest o else o) in
      modify (λ s, let s := if bool_decide (is_Some (r_recipes s !! digest)) then s else set_r_recipes (<[digest := recipe]> (r_recipes s)) s in
                   set_r_onboardings (<[ob_OnboardingID o := o]> (r_onboardings s)) s)
  end.
Definition load_operation (o : Operation) : RM unit :=
  valid_or (Operation_Validate o) ;; modify (λ s, set_r_operations (<[op_OperationID o := o]> (r_operations s)) s).
Definition load_recipe (kv : string * RecipeResolution) : RM unit :=
  fail_if (negb (bool_decide (resolution_digest kv.2 = Some kv.1))) TInvalid ;; modify (λ s, set_r_recipes (<[kv.1 := kv.2]> (r_recipes s)) s).
Definition load_publication (p : DefinitionPublication) : RM unit :=
  valid_or (DefinitionPublication_Validate p) ;;
  modify (λ s, set_r_publications (<[definitionKey (pb_DefinitionID p) (pb_Version p) := p]> (r_publications s)) s).
Definition load_shared_policy (p : SharedCredentialPolicy) : RM unit :=
  valid_or (SharedCredentialPolicy_Validate p) ;; modify (λ s, set_r_sharedPolicies (<[sp_PolicyID p := p]> (r_sharedPolicies s)) s).
Definition load_team (t : Team) : RM unit := valid_or (Team_Validate t) ;; modify (λ s, set_r_teams (<[t_TeamID t := t]> (r_teams s)) s).
Definition load_broker_grant (g : BrokerBindingGrant) : RM unit :=
  fail_if (negb (broker_grant_ok g)) TInvalid ;;
  s ← get;
  fail_if (negb (bool_decide (is_Some (r_bindings s !! bg_BindingID g)))) TInvalid ;;
  fail_if (bool_decide (is_Some (r_brokerGrants s !! bg_BindingID g))) TInvalid ;;
  modify (set_r_brokerGrants (<[bg_BindingID g := g]> (r_brokerGrants s))).
Definition raise_projections (s : Reg) : Reg :=
  set_r_projections (fold_left (λ m '(_, b), raise_projection b m) (rw_range 40 (r_bindings s)) (r_projections s)) s.

(** The rows of a file, and its tables with the projections raised and the links checked. *)
Definition load_rows (d : Snap) : RM unit :=
  fail_if (negb (sn_Schema d =? SchemaVersion)) TInvalid ;;
  for_each (sn_Definitions d) RegisterDefinition ;;
  for_each (sn_Changes d) load_change ;;
  for_each (sn_Credentials d) load_credential ;;
  for_each (sn_Connections d) load_connection ;;
  for_each (sn_Bindings d) load_binding ;;
  for_each (sn_Workloads d) load_workload ;;
  for_each (rw_range 41 (sn_Projections d)) load_projection ;;
  for_each (sn_BindingChanges d) load_binding_change ;;
  for_each (sn_Grants d) load_grant ;;
  for_each (sn_Onboardings d) load_onboarding ;;
  for_each (sn_Operations d) load_operation ;;
  for_each (rw_range 42 (sn_Recipes d)) load_recipe ;;
  for_each (sn_Publications d) load_publication ;;
  for_each (sn_SharedPolicies d) load_shared_policy ;;
  for_each (sn_Teams d) load_team ;;
  for_each (sn_BrokerGrants d) load_broker_grant.
Definition load_tables (d : Snap) : RM unit :=
  load_rows d ;;
  modify raise_projections ;;
  s ← get;
  fail_if (negb (validateLocked s)) TInvalid.

(** [Load] *)
Definition Load (file : option (Snap * (Z * Z))) : res TErr Reg :=
  if rw_read_fails then Err TIO
  else
    match file with
    | None => Err TIO
    | Some (d, stamp) =>
        match load_tables d NewStore with
        | (Err e, _) => Err e
        | (Ok _, s) => Ok (set_r_path true (set_r_seen (Some (snap_digest d)) (set_r_stamp stamp (set_r_disk file s))))
        end
    end.

(** The tables [Reload] takes over from a fresh load. *)
Definition adopt (fresh s : Reg) : Reg :=
  let s := set_r_workloads (r_workloads fresh) (set_r_bindings (r_bindings fresh) (set_r_credentials (r_credentials fresh)
             (set_r_connections (r_connections fresh) (set_r_definitions (r_definitions fresh) s)))) in
  let s := set_r_teams (r_teams fresh) (set_r_sharedPolicies (r_sharedPolicies fresh) (set_r_publications (r_publications fresh)
             (set_r_onboardings (r_onboardings fresh) (set_r_grants (r_grants fresh) (set_r_projections (r_projections fresh) s))))) in
  let s := set_r_bindingChanges (r_bindingChanges fresh) (set_r_changes (r_changes fresh) (set_r_profiles (r_profiles fresh)
             (set_r_policies (r_policies fresh) (set_r_brokerGrants (r_brokerGrants fresh) s)))) in
  set_r_connStatus (r_connStatus fresh) (set_r_stamp (r_stamp fresh) (set_r_seen (r_seen fresh) s)).

(** The workloads that ran here and no longer run in the file. *)
Definition vanished (fresh s : Reg) : list string :=
  map fst (List.filter (λ kv, running kv.2 && negb (match r_workloads fresh !! kv.1 with Some w => running w | None => false end))
    (rw_range 43 (r_workloads s))).

(** [Reload] *)
Definition unchanged_stamp (s : Reg) : bool :=
  match r_disk s with Some (_, stamp) => bool_decide (is_Some (r_seen s)) && bool_decide (stamp = r_stamp s) | None => false end.
Definition Reload : RM unit :=
  s ← get;
  if negb (r_path s) || unchanged_stamp s then mret tt
  else
    match Load (r_disk s) with
    | Err e => mthrow_err e
    | Ok fresh =>
        if bool_decide (r_seen fresh = r_seen s) then mret tt
        else
          modify (adopt fresh) ;;
          stopErr ← stopWorkloads (vanished fresh s);
          fail_if stopErr TIO
    end.

(** ** Migration *)

(** The bindings [pick] chooses move to policy [to]: how many, and the registry. *)
Definition migrate_where (site : nat) (pick : ToolBinding → bool) (to : string) (s : Reg) : Z * Reg :=
  fold_left (λ '(moved, s) '(id, b),
    if pick b then
      let b' := set_b_Revision (u64 (b_Revision b + 1)) (set_b_PolicyVersion to b) in
      let s := touch_binding id b' s in
      (moved + 1, set_r_bindingChanges (r_bindingChanges s ++ [mkBindingChange (b_ToolBindingID b') (b_PolicyVersion b) to (b_Revision b')])%list s)
    else (moved, s)) (rw_range site (r_bindings s)) (0, s).

Definition in_projection (principal context runtime : string) (b : ToolBinding) : bool :=
  (b_PrincipalID b == principal) && (b_ContextID b == context) && (b_RuntimeID b == runtime).

(** [if err := s.persist(); err != nil { _ = s.Reload(); return err }] *)
Definition persist_or_reload : RM unit :=
  saved ← try persist;
  match saved with Ok _ => mret tt | Err e => try Reload ;; mthrow_err e end.

(** [migrateOnce] *)
Definition migrateOnce (principal context runtime from to : string) : RM Z :=
  moved ← locked (migrate_where 44 (λ b, in_projection principal context runtime b && (b_Status b == ActiveStatus) && (b_PolicyVersion b == from)) to);
  persist_or_reload ;;
  mret moved.

(** [migrateProjectionOnce] *)
Definition profile_blocked (principal context runtime to : string) (p : CapabilityProfile) : bool :=
  (pf_PrincipalID p == principal) && (pf_ContextID p == context) && (pf_RuntimeID p == runtime) && (pf_Status p == ActiveStatus) && (pf_PolicyVersion p != to).
Definition migrateProjectionOnce (principal context runtime to : string) : RM (Z * list string) :=
  moved ← locked (migrate_where 45 (λ b, in_projection principal context runtime b && (b_Status b == ActiveStatus) && (b_PolicyVersion b != to)) to);
  s ← get;
  let blocked := map fst (List.filter (λ kv, profile_blocked principal context runtime to kv.2) (rw_range 46 (r_profiles s))) in
  if moved =? 0 then mret (moved, blocked) else persist_or_reload ;; mret (moved, blocked).
End Load.

Section Migrate.
Context `{ToolWorld} `{Unicode} `{LargeSort} `{SnapDigest}.
(** What each attempt meets, and what another process has written before it. *)
Context (worlds : nat → RegWorld) (foreign : nat → option (Snap * (Z * Z))).

Definition migrateMaxAttempts : nat := 8.

Definition foreign_write (i : nat) (s : Reg) : Reg := match foreign i with Some f => set_r_disk (Some f) s | None => s end.

(** The retry loop of [MigrateBindings] and [MigrateProjection]. *)
Fixpoint attempts {A} (once : RegWorld → RM A) (n i : nat) : RM A :=
  match n with
  | O => mthrow_err TConflict
  | S n =>
      modify (foreign_write i) ;;
      r ← try (once (worlds i));
      match r with
      | Ok a => mret a
      | Err e =>
          if match e with TConflict | TStale => true | _ => false end then
            reloaded ← try (@Reload _ _ _ _ (worlds i));
            match reloaded with Ok _ => attempts once n (S i) | Err _ => mthrow_err e end
          else mthrow_err e
      end
  end.

(** [MigrateBindings] and [MigrateProjection] *)
Definition MigrateBindings (principal context runtime from to : string) : RM Z :=
  fail_if (negb (forallb ValidID [principal; context; runtime])) TInvalid ;;
  fail_if (negb (ValidID from) || negb (ValidID to) || (from == to)) TInvalid ;;
  attempts (λ w, @migrateOnce _ _ _ _ w principal context runtime from to) migrateMaxAttempts 0.
Definition MigrateProjection (principal context runtime to : string) : RM (Z * list string) :=
  attempts (λ w, @migrateProjectionOnce _ _ _ _ w principal context runtime to) migrateMaxAttempts 0.
End Migrate.
