(* ===== verification/RegAccess.v ===== *)
(** What a caller may use of the tool registry: grants and publications (grants.go), the
    resolution of a binding and its admission (store.go), projected tools (projection.go) and
    the managed calls of capability profiles (capability_store.go). *)
From stdpp Require Import base gmap strings list sorting.
From Stdlib Require Import Ascii String.
From S2P Require Import Prelude GoStrings Governance RoutineTypes Schedules ToolTypes Capability RegStore RegOps RegLoad.
Local Open Scope string_scope.
Local Open Scope Z_scope.

Record EffectiveBinding := mkEffective {
  ef_Binding : ToolBinding; ef_Definition : ToolDefinition; ef_Connection : option Connection; ef_Credential : option CredentialReference;
  ef_WorkloadID : string; ef_CapabilityID : string; ef_ImplementationDigest : string; ef_PolicyID : string; ef_ProfileID : string;
  ef_PolicyRevision : Z; ef_ProfileRevision : Z; ef_Scopes : list CapabilityScope;
}.
Definition plain_effective (b : ToolBinding) (d : ToolDefinition) (c : option Connection) (r : option CredentialReference) (workload : string)
    : EffectiveBinding := mkEffective b d c r workload "" "" "" "" 0 0 [].

Record ProjectedTool := mkProjected {
  pt_Name : string; pt_BindingID : string; pt_DefinitionID : string; pt_Version : string; pt_Tool : ToolSpec;
}.

Definition WriteEffect := "write".

(** The envelope names itself consistently. *)
Definition auth_ok (auth : Envelope) : bool :=
  Envelope_Validate auth (e_PrincipalID auth) (e_ContextID auth) (e_RuntimeID auth) (e_PolicyVersion auth).

(** * Grants *)

(** A loop over grants that refuses at the first inactive one that matches. *)
Fixpoint grants_allow (matches : Grant → bool) (allowed : bool) (l : list Grant) : bool :=
  match l with
  | [] => allowed
  | g :: l => if negb (matches g) then grants_allow matches allowed l
              else if g_Status g != ActiveStatus then false else grants_allow matches true l
  end.

Section Access.
Context `{ToolWorld} `{Unicode} `{LargeSort} `{SnapDigest} `{RegWorld}.

(** [hasCatalogAccessLocked], [selfInstallAllowedLocked] and [controlAllowedLocked] *)
Definition catalog_grant (principal definitionID version : string) (g : Grant) : bool :=
  (g_PrincipalID g == principal) &&
  ((g_Kind g == GrantCatalogDefault) || ((g_Kind g == GrantDefinition) && (g_DefinitionID g == definitionID) && (g_DefinitionVersion g == version))).
Definition hasCatalogAccessLocked (s : Reg) (auth : Envelope) (definitionID version : string) : bool :=
  grants_allow (catalog_grant (e_PrincipalID auth) definitionID version) false (map snd (rw_range 50 (r_grants s))).
Definition selfInstallAllowedLocked (s : Reg) (auth : Envelope) : bool :=
  grants_allow (λ g, (g_Kind g == GrantSelfInstall) && (g_PrincipalID g == e_PrincipalID auth)) false (map snd (rw_range 51 (r_grants s))).
Definition controlAllowedLocked (s : Reg) (auth : Envelope) (operation : string) : bool :=
  grants_allow (λ g, (g_Kind g == GrantControlOperation) && (g_PrincipalID g == e_PrincipalID auth) && (g_Operation g == operation)) false
    (map snd (rw_range 52 (r_grants s))).

(** [publicationLocked] and [visibleDefinitionLocked] *)
Definition publicationLocked (s : Reg) (d : ToolDefinition) : DefinitionPublication :=
  default (mkPublication (td_DefinitionID d) (td_Version d) PublicationCatalog "") (r_publications s !! definitionKey (td_DefinitionID d) (td_Version d)).
Definition visibleDefinitionLocked (s : Reg) (auth : Envelope) (d : ToolDefinition) : bool :=
  let pub := publicationLocked s d in
  if pb_Visibility pub == PublicationUser then pb_OwnerPrincipalID pub == e_PrincipalID auth
  else hasCatalogAccessLocked s auth (td_DefinitionID d) (td_Version d).

(** [sharedPolicyLocked]: a policy that lets the caller share a definition's credential. *)
Definition sharedPolicyLocked (s : Reg) (auth : Envelope) (definitionID : string) : option SharedCredentialPolicy :=
  List.find (λ p, (sp_Status p == ActiveStatus) && (sp_DefinitionID p == definitionID) && one_of (e_PrincipalID auth) (sp_Principals p))
    (map snd (rw_range 53 (r_sharedPolicies s))).

(** [sharedConnectionCoversLocked] *)
Definition sharedConnectionCoversLocked (s : Reg) (auth : Envelope) (c : Connection) : bool :=
  if meta c "shared_policy" == "" then false
  else match r_sharedPolicies s !! meta c "shared_policy" with
       | None => false
       | Some p => (sp_Status p == ActiveStatus) && (sp_DefinitionID p == c_DefinitionID c) && (sp_StoreOwner p == ow_ID (c_Owner c))
                   && one_of (e_PrincipalID auth) (sp_Principals p)
       end.

(** [sharedForeignConnection] *)
Definition sharedForeignConnection (s : Reg) (principal connectionID : string) : bool :=
  (connectionID != "") &&
  match r_connections s !! connectionID with
  | Some c => (meta c "shared_policy" != "") && (ow_ID (c_Owner c) != principal)
  | None => false
  end.

(** [teamConnectionCoversLocked] and [teamMemberWritesLocked] *)
Definition teamConnectionCoversLocked (s : Reg) (auth : Envelope) (c : Connection) : bool :=
  (ow_Type (c_Owner c) == TeamOwner) && match r_teams s !! ow_ID (c_Owner c) with Some t => IsMember t (e_PrincipalID auth) | None => false end.
Definition teamMemberWritesLocked (s : Reg) (auth : Envelope) (e : EffectiveBinding) : bool :=
  match ef_Connection e with
  | Some c => if ow_Type (c_Owner c) == TeamOwner
              then match r_teams s !! ow_ID (c_Owner c) with Some t => CanWrite t (e_PrincipalID auth) | None => false end
              else true
  | None => true
  end.

(** * Resolution of a binding *)

(** The credential a call uses: the binding's pins, or for a team member the connection's
    current reference. *)
Definition resolve_credential (s : Reg) (d : ToolDefinition) (b : ToolBinding) (c : Connection) (teamCovered : bool)
    : res TErr (option CredentialReference) :=
  if bool_decide (td_Credentials d = []) then Ok None
  else
    let refID := if teamCovered then c_CredentialRefID c else b_CredentialRefID b in
    let refRevision := if teamCovered then 1 else b_CredentialRevision b in
    if (refID == "") || (refRevision =? 0) then Err TStale
    else match r_credentials s !! refID with
         | None => Err TStale
         | Some r =>
             if (cr_Status r != ActiveStatus) || (cr_ConnectionID r != c_ConnectionID c) then Err TStale
             else if negb teamCovered && negb (cr_Revision r =? refRevision) then Err TStale
             else if negb (CredentialsSatisfied d (λ name, one_of name (cr_Keys r))) then Err TUnauthorized
             else Ok (Some r)
         end.

(** The part of [resolveLocked] on a connection. *)
Definition resolve_connection (s : Reg) (auth : Envelope) (b : ToolBinding) (d : ToolDefinition) (c : Connection) : res TErr EffectiveBinding :=
  let teamCovered := teamConnectionCoversLocked s auth c in
  if negb (Matches (c_Owner c) auth) && negb (sharedConnectionCoversLocked s auth c) && negb teamCovered then Err TUnauthorized
  else if c_Status c == RevokedStatus then Err TRevoked
  else if c_Status c == DegradedStatus then Err TDegraded
  else if negb teamCovered && ((c_Status c != ActiveStatus) || negb (c_Revision c =? b_ConnectionRevision b) || (c_DefinitionID c != td_DefinitionID d))
       then Err TStale
  else if teamCovered && ((c_Status c != ActiveStatus) || (c_DefinitionID c != td_DefinitionID d)) then Err TStale
  else match resolve_credential s d b c teamCovered with
       | Err e => Err e
       | Ok r =>
           let owner := if td_Class d == Shared then "" else e_ContextID auth in
           let owner := if td_Class d == PerUser then owner ++ ":" ++ e_PrincipalID auth ++ ":" ++ c_ConnectionID c else owner in
           Ok (plain_effective b d (Some c) r (WorkloadInstanceID (td_DefinitionID d) (td_Class d) owner ""))
       end.

(** [resolveLocked] *)
Definition resolveLocked (s : Reg) (auth : Envelope) (bindingID : string) : res TErr EffectiveBinding :=
  if negb (auth_ok auth) then Err TUnauthorized
  else if negb (ValidID bindingID) then Err TInvalid
  else match r_bindings s !! bindingID with
  | None => Err TNotFound
  | Some b =>
      if b_Status b == RevokedStatus then Err TRevoked
      else if b_Status b != ActiveStatus then Err TUnauthorized
      else if (b_PrincipalID b != e_PrincipalID auth) || (b_ContextID b != e_ContextID auth) || (b_RuntimeID b != e_RuntimeID auth)
              || (b_PolicyVersion b != e_PolicyVersion auth) then Err TUnauthorized
      else match r_definitions s !! definitionKey (b_DefinitionID b) (b_DefinitionVersion b) with
      | None => Err TStale
      | Some d =>
          if td_Class d != b_WorkloadClass b then Err TStale
          else if b_ConnectionID b == "" then
            if negb (bool_decide (td_Credentials d = [])) then Err TUnauthorized
            else Ok (plain_effective b d None None
                       (WorkloadInstanceID (td_DefinitionID d) (td_Class d) (if td_Class d == PerUser then b_ToolBindingID b else "") ""))
          else match r_connections s !! b_ConnectionID b with
               | None => Err TStale
               | Some c => resolve_connection s auth b d c
               end
      end
  end.

Definition of_res {A} (r : res TErr A) : RM A := match r with Ok a => mret a | Err e => mthrow_err e end.

(** [Resolve] *)
Definition Resolve (auth : Envelope) (bindingID : string) : RM EffectiveBinding :=
  fail_if (e_CapabilityProfile auth != "") TUnauthorized ;;
  Reload ;;
  s ← get;
  of_res (resolveLocked s auth bindingID).

(** [noteRecovery] *)
Definition recoveryBudget : Z := 3.
Definition noteRecovery (e : EffectiveBinding) : RM unit :=
  match ef_Connection e with
  | None => mret tt
  | Some c0 =>
      if ef_WorkloadID e == "" then mret tt
      else
        s ← get;
        match r_workloads s !! ef_WorkloadID e with
        | None => mret tt
        | Some w =>
            if running w then mret tt
            else match r_connections s !! c_ConnectionID c0 with
            | None => mret tt
            | Some c =>
                let c := set_c_RecoveryCount (c_RecoveryCount c + 1) c in
                modify (λ s, set_r_connections (<[c_ConnectionID c := c]> (r_connections s)) s) ;;
                if recoveryBudget <=? c_RecoveryCount c then
                  try (markDegradedIfCurrent (c_ConnectionID c) (Some c) "" "") ;; mthrow_err TDegraded
                else persist
            end
        end
  end.

(** [Authorize]: what the admission callback is given. *)
Definition Authorize (auth : Envelope) (bindingID : string) : RM EffectiveBinding :=
  fail_if (e_CapabilityProfile auth != "") TUnauthorized ;;
  Reload ;;
  s ← get;
  e ← of_res (resolveLocked s auth bindingID);
  noteRecovery e ;;
  s ← get;
  of_res (resolveLocked s auth bindingID).

(** * Projected tools *)

(** [slug], [shortHash] and [ProjectedToolName]; the names are ASCII. *)
Definition slug (value : string) : string :=
  let mapped := str_map (λ c, if is_lower c || is_digit c || is_char "-" c then c else "-"%char) (ToLower value) in
  let result := Trim "-" mapped in
  if result == "" then "tool" else substring 0 20 result.
Definition shortHash (values : list string) : string := substring 0 8 (t_sha256_hex (String.concat (String NUL "") values)).
Definition ProjectedToolName (definitionID version toolName : string) : string :=
  "hub-" ++ slug definitionID ++ "-" ++ slug toolName ++ "-" ++ shortHash [definitionID; toolName].

Definition projected_of (name : string) (e : EffectiveBinding) (t : ToolSpec) : ProjectedTool :=
  mkProjected name (b_ToolBindingID (ef_Binding e)) (td_DefinitionID (ef_Definition e)) (td_Version (ef_Definition e)) t.
Definition tool_name (e : EffectiveBinding) (t : ToolSpec) : string :=
  ProjectedToolName (td_DefinitionID (ef_Definition e)) (td_Version (ef_Definition e)) (ts_Name t).

(** The tools of a resolved binding the caller may use without a profile. *)
Definition open_tools (s : Reg) (auth : Envelope) (e : EffectiveBinding) : list ToolSpec :=
  List.filter (λ t, negb ((ts_Effect t == WriteEffect) && negb (teamMemberWritesLocked s auth e))) (ProjectedToolSpecs (ef_Definition e) (ef_Binding e)).

(** [ListProjectedTools] without a profile; what it notes of the excluded bindings is left out. *)
Fixpoint note_names (seen names : list string) : option (list string) :=
  match names with
  | [] => Some seen
  | n :: l => if one_of n seen then None else note_names (n :: seen) l
  end.
Fixpoint project_bindings (s : Reg) (auth : Envelope) (seen : list string) (l : list ToolBinding) : res TErr (list ProjectedTool) :=
  match l with
  | [] => Ok []
  | b :: l =>
      if (b_PrincipalID b != e_PrincipalID auth) || (b_ContextID b != e_ContextID auth) || (b_RuntimeID b != e_RuntimeID auth)
      then project_bindings s auth seen l
      else
        match resolveLocked s auth (b_ToolBindingID b) with
        | Err e => if match e with TUnauthorized | TNotFound | TStale | TRevoked | TDegraded => true | _ => false end
                   then project_bindings s auth seen l else Err e
        | Ok e =>
            let tools := map (λ t, projected_of (tool_name e t) e t) (open_tools s auth e) in
            match note_names seen (map pt_Name tools) with
            | None => Err TConflict
            | Some seen => match project_bindings s auth seen l with Ok rest => Ok (tools ++ rest)%list | Err e => Err e end
            end
        end
  end.
Definition by_name (a b : ProjectedTool) : Z := strings_Compare (pt_Name a) (pt_Name b).

(** [findProjectedLocked] without a profile. *)
Fixpoint find_projected (found : option (ProjectedTool * EffectiveBinding)) (l : list (EffectiveBinding * ToolSpec)) (name : string)
    : res TErr (ProjectedTool * EffectiveBinding) :=
  match l with
  | [] => match found with Some r => Ok r | None => Err TNotFound end
  | (e, t) :: l =>
      if tool_name e t != name then find_projected found l name
      else match found with Some _ => Err TConflict | None => find_projected (Some (projected_of name e t, e)) l name end
  end.
Definition open_candidates (s : Reg) (auth : Envelope) : list (EffectiveBinding * ToolSpec) :=
  flat_map (λ kv, match resolveLocked s auth (b_ToolBindingID kv.2) with Ok e => map (pair e) (open_tools s auth e) | Err _ => [] end)
    (rw_range 54 (r_bindings s)).

(** * Managed calls *)

(** [capabilityProfileLocked] *)
Definition profile_scope (auth : Envelope) (p : CapabilityProfile) : bool :=
  (pf_Status p == ActiveStatus) && (pf_PrincipalID p == e_PrincipalID auth) && (pf_ContextID p == e_ContextID auth) && (pf_RuntimeID p == e_RuntimeID auth)
  && (pf_Environment p == e_Environment auth) && (pf_Generation p =? e_Generation auth) && (pf_PolicyVersion p == e_PolicyVersion auth).
Definition policy_current (auth : Envelope) (profile : CapabilityProfile) (p : CapabilityPolicy) : bool :=
  (po_Status p == ActiveStatus) && (po_Revision p =? pf_PolicyRevision profile) && one_of (e_PrincipalID auth) (po_Members p).
Definition capabilityProfileLocked (s : Reg) (auth : Envelope) : res TErr (CapabilityProfile * CapabilityPolicy) :=
  if negb (auth_ok auth) then Err TUnauthorized
  else match r_profiles s !! e_CapabilityProfile auth with
  | None => Err TUnauthorized
  | Some profile =>
      if negb (profile_scope auth profile) then Err TUnauthorized
      else match r_policies s !! pf_PolicyID profile with
           | None => Err TUnauthorized
           | Some policy => if policy_current auth profile policy then Ok (profile, policy) else Err TUnauthorized
           end
  end.

(** [selfInstallOnboardingLocked]: the confirmed onboarding a binding comes from, its own or
    that of a revoked predecessor.  Where several qualify, the order of this scan decides. *)
Definition install_confirmed (o : Onboarding) : bool :=
  one_of (ob_Mode o) [OnboardingSelfInstall; OnboardingRemote] && one_of (ob_Phase o) [PhaseConfirmed; PhaseEnabled; PhaseDisabled].
Definition succeeds (s : Reg) (o : Onboarding) (b : ToolBinding) : bool :=
  match r_bindings s !! ob_BindingID o with
  | None => false
  | Some old =>
      (b_Status old == RevokedStatus) && (ob_Phase o != PhaseDisabled) && (b_ConnectionID old != "") && (b_ConnectionID old == b_ConnectionID b)
      && (b_DefinitionID old == b_DefinitionID b) && (b_DefinitionVersion old == b_DefinitionVersion b) && (b_PrincipalID old == b_PrincipalID b)
      && (b_ContextID old == b_ContextID b) && (b_RuntimeID old == b_RuntimeID b) && (b_PolicyVersion old == b_PolicyVersion b)
      && (b_CredentialRevision old <? b_CredentialRevision b)
  end.
Fixpoint find_install (s : Reg) (bindingID : string) (b : ToolBinding) (inherited : option Onboarding) (l : list Onboarding) : option Onboarding :=
  match l with
  | [] => inherited
  | o :: l =>
      if negb (install_confirmed o) then find_install s bindingID b inherited l
      else if ob_BindingID o == bindingID then Some o
      else if succeeds s o b && (bool_decide (inherited = None) || negb (ob_WritesEnabled o)) then find_install s bindingID b (Some o) l
      else find_install s bindingID b inherited l
  end.
Definition selfInstallOnboardingLocked (scan : Scan) (s : Reg) (bindingID : string) : option Onboarding :=
  match r_bindings s !! bindingID with
  | None => None
  | Some b => find_install s bindingID b None (map snd (rw_scan scan (r_onboardings s)))
  end.
Definition selfInstallWritesLocked (scan : Scan) (s : Reg) (bindingID : string) : bool :=
  match selfInstallOnboardingLocked scan s bindingID with Some o => ob_WritesEnabled o | None => false end.

(** [managedSelfInstallsLocked]: whether a binding is an installation of the caller's own. *)
Definition managed_self_install (s : Reg) (auth : Envelope) (profile : CapabilityProfile) (id : string) (b : ToolBinding) : bool :=
  pf_SelfInstall profile && (b_Status b == ActiveStatus) &&
  match selfInstallOnboardingLocked ("owner", id, 0%nat) s id with
  | Some o => (ob_PrincipalID o == e_PrincipalID auth) && (ob_ContextID o == e_ContextID auth) && (ob_RuntimeID o == e_RuntimeID auth)
              && (ob_PolicyVersion o == e_PolicyVersion auth)
  | None => false
  end.

(** What an installation of the caller's own offers. *)
Definition under_profile (profile : CapabilityProfile) (e : EffectiveBinding) : EffectiveBinding :=
  mkEffective (ef_Binding e) (ef_Definition e) (ef_Connection e) (ef_Credential e) (ef_WorkloadID e) (ef_CapabilityID e) (definition_digest (ef_Definition e))
    (pf_PolicyID profile) (pf_ProfileID profile) (pf_PolicyRevision profile) (pf_Revision profile) (ef_Scopes e).
Definition install_tools (s : Reg) (auth : Envelope) (profile : CapabilityProfile) (b : ToolBinding) : list (EffectiveBinding * ToolSpec) :=
  if managed_self_install s auth profile (b_ToolBindingID b) b then
    match resolveLocked s auth (b_ToolBindingID b) with
    | Err _ => []
    | Ok e =>
        omap (λ '(k, t), if (ts_Effect t == WriteEffect) && negb (selfInstallWritesLocked ("writes", b_ToolBindingID b, k) s (b_ToolBindingID b))
                         then None else Some (under_profile profile e, t))
          (imap pair (ProjectedToolSpecs (ef_Definition e) (ef_Binding e)))
    end
  else [].

(** [managedSelfInstallToolLocked] *)
Definition managedSelfInstallToolLocked (s : Reg) (auth : Envelope) (profile : CapabilityProfile) (name : string) : res TErr (ProjectedTool * EffectiveBinding) :=
  match List.find (λ et, tool_name et.1 et.2 == name) (flat_map (λ kv, install_tools s auth profile kv.2) (rw_range 56 (r_bindings s))) with
  | Some (e, t) => Ok (projected_of name e t, e)
  | None => Err TNotFound
  end.

(** The one binding of a selection that resolves. *)
Fixpoint selected_binding (found : option EffectiveBinding) (l : list (res TErr EffectiveBinding)) : res TErr (option EffectiveBinding) :=
  match l with
  | [] => Ok found
  | Err _ :: l => selected_binding found l
  | Ok e :: l => match found with Some _ => Err TConflict | None => selected_binding (Some e) l end
  end.
Definition selects (selection : CapabilitySelection) (b : ToolBinding) : bool :=
  (b_DefinitionID b == se_DefinitionID selection) && (b_DefinitionVersion b == se_DefinitionVersion selection) && (b_ConnectionID b == se_ConnectionID selection).

(** The description a projection shows: the tool's own, and the boundaries it is admitted in. *)
Definition scoped_description (scopes : list CapabilityScope) (t : ToolSpec) : ToolSpec :=
  set_ts_Description (fold_left (λ d sc, if sc_PathPrefix sc == "" then d
    else TrimSpace (d ++ " Scoped to " ++ sc_Resource sc ++ " under " ++ sc_PathPrefix sc ++ ".")) scopes (ts_Description t)) t.

(** The binding as the capability admits it. *)
Definition capped (e : EffectiveBinding) (profile : CapabilityProfile) (policy : CapabilityPolicy) (selection : CapabilitySelection)
    (limits : CapabilityLimits) (scopes : list CapabilityScope) : EffectiveBinding :=
  let d := ef_Definition e in
  mkEffective (ef_Binding e)
    (set_td_TimeoutSeconds (Z.min (td_TimeoutSeconds d) (cl_TimeoutSeconds limits)) (set_td_OutputBytes (Z.min (td_OutputBytes d) (cl_OutputBytes limits)) d))
    (ef_Connection e) (ef_Credential e) (ef_WorkloadID e) (se_CapabilityID selection) (se_ImplementationDigest selection) (po_PolicyID policy)
    (pf_ProfileID profile) (po_Revision policy) (pf_Revision profile) scopes.

(** [managedSelectionLocked] *)
Definition managedSelectionLocked (scan : Scan) (clock : nat → nat → Z) (s : Reg) (auth : Envelope) (profile : CapabilityProfile) (policy : CapabilityPolicy)
    (selection : CapabilitySelection) (arguments : gmap string ArgValue) (projection : bool) : res TErr (ProjectedTool * EffectiveBinding) :=
  match selected_binding None (map (λ kv, resolveLocked s auth (b_ToolBindingID kv.2)) (List.filter (λ kv, selects selection kv.2) (rw_range 57 (r_bindings s)))) with
  | Err e => Err e
  | Ok None => Err TUnauthorized
  | Ok (Some e) =>
      if definition_digest (ef_Definition e) != se_ImplementationDigest selection then Err TUnauthorized
      else
        match List.find (λ t, (ts_Name t == se_ToolName selection) && (ts_CapabilityID t == se_CapabilityID selection))
                (ProjectedToolSpecs (ef_Definition e) (ef_Binding e)) with
        | None => Err TUnauthorized
        | Some t =>
            if match selfInstallOnboardingLocked scan s (b_ToolBindingID (ef_Binding e)) with
               | Some o => (ts_Effect t == WriteEffect) && negb (ob_WritesEnabled o) | None => false end then Err TUnauthorized
            else match CapabilityDecision profile policy selection arguments projection clock t with
                 | None => Err TUnauthorized
                 | Some (limits, scopes) =>
                     Ok (mkProjected (se_Name selection) (b_ToolBindingID (ef_Binding e)) (se_DefinitionID selection) (se_DefinitionVersion selection)
                           (if projection then scoped_description scopes t else t), capped e profile policy selection limits scopes)
                 end
        end
  end.

(** [managedToolLocked] *)
Definition managedToolLocked (clock : nat → nat → Z) (s : Reg) (auth : Envelope) (name : string) (arguments : gmap string ArgValue) (projection : bool)
    : res TErr (ProjectedTool * EffectiveBinding) :=
  match capabilityProfileLocked s auth with
  | Err e => Err e
  | Ok (profile, policy) =>
      match List.find (λ selection, se_Name selection == name) (pf_Selections profile) with
      | None => managedSelfInstallToolLocked s auth profile name
      | Some selection =>
          match managedSelectionLocked ("call", name, 0%nat) clock s auth profile policy selection arguments projection with
          | Err TUnauthorized => managedSelfInstallToolLocked s auth profile name
          | r => r
          end
      end
  end.

(** [managedToolsLocked]; [clock k] is the clock at the decision of the [k]th selection. *)
Fixpoint managed_selections (clock : nat → nat → nat → Z) (k : nat) (s : Reg) (auth : Envelope) (profile : CapabilityProfile) (policy : CapabilityPolicy)
    (l : list CapabilitySelection) : res TErr (list ProjectedTool) :=
  match l with
  | [] => Ok []
  | selection :: l =>
      match managedSelectionLocked ("projection", "", k) (clock k) s auth profile policy selection ∅ true with
      | Err TUnauthorized => managed_selections clock (S k) s auth profile policy l
      | Err e => Err e
      | Ok (t, _) => match managed_selections clock (S k) s auth profile policy l with Ok r => Ok (t :: r) | Err e => Err e end
      end
  end.
Fixpoint add_new (seen : list string) (l : list ProjectedTool) : list ProjectedTool :=
  match l with
  | [] => []
  | t :: l => if one_of (pt_Name t) seen then add_new seen l else t :: add_new (pt_Name t :: seen) l
  end.
Definition managedToolsLocked (clock : nat → nat → nat → Z) (s : Reg) (auth : Envelope) : res TErr (list ProjectedTool) :=
  match capabilityProfileLocked s auth with
  | Err e => Err e
  | Ok (profile, policy) =>
      match managed_selections clock 0 s auth profile policy (pf_Selections profile) with
      | Err e => Err e
      | Ok result =>
          let installed := map (λ et, projected_of (tool_name et.1 et.2) et.1 et.2)
            (flat_map (λ kv, install_tools s auth profile kv.2) (rw_range 58 (r_bindings s))) in
          Ok (SortFunc by_name (result ++ add_new (map pt_Name result) installed)%list)
      end
  end.

(** [ListProjectedTools] *)
Definition ListProjectedTools (clock : nat → nat → nat → Z) (auth : Envelope) : RM (list ProjectedTool) :=
  Reload ;;
  s ← get;
  fail_if (negb (auth_ok auth)) TUnauthorized ;;
  if e_CapabilityProfile auth != "" then of_res (managedToolsLocked clock s auth)
  else
    l ← of_res (project_bindings s auth [] (map snd (rw_range 59 (r_bindings s))));
    mret (SortFunc by_name l).

(** [lockCapabilityAdmission]: the registry in memory is the one of the file. *)
Definition lockCapabilityAdmission : RM unit :=
  s ← get;
  if negb (r_path s) then mret tt
  else
    fail_if (rw_lock_fails || rw_read_fails) TIO ;;
    match r_disk s with
    | None => mthrow_err TIO
    | Some (d, _) => fail_if (negb (bool_decide (r_seen s = Some (snap_digest d)))) TStale
    end.

(** [AuthorizeProjectedCall]: what the admission callback is given. *)
Definition AuthorizeProjectedCall (clock : nat → nat → Z) (auth : Envelope) (name : string) (arguments : gmap string ArgValue)
    : RM (ProjectedTool * EffectiveBinding) :=
  fail_if (negb (ValidateProjectedName name)) TInvalid ;;
  Reload ;;
  if e_CapabilityProfile auth != "" then
    lockCapabilityAdmission ;;
    s ← get;
    of_res (managedToolLocked clock s auth name arguments false)
  else
    s ← get;
    fail_if (negb (auth_ok auth)) TUnauthorized ;;
    of_res (find_projected None (open_candidates s auth) name).

(** [ReverifyEffective] *)
Definition ReverifyEffective (s : Reg) (e : EffectiveBinding) : bool :=
  match r_bindings s !! b_ToolBindingID (ef_Binding e) with
  | None => false
  | Some b =>
      (b_Status b == ActiveStatus) && (b_Revision b =? b_Revision (ef_Binding e)) && (b_ProjectionRevision b =? b_ProjectionRevision (ef_Binding e)) &&
      if ef_ProfileID e == "" then (ef_ProfileRevision e =? 0) && (ef_PolicyID e == "") && (ef_PolicyRevision e =? 0)
      else match r_profiles s !! ef_ProfileID e with
           | None => false
           | Some profile =>
               (pf_Status profile == ActiveStatus) && (pf_Revision profile =? ef_ProfileRevision e) &&
               match r_policies s !! pf_PolicyID profile with
               | Some policy => (po_Status policy == ActiveStatus) && (po_Revision policy =? ef_PolicyRevision e)
               | None => false
               end
           end
  end.

(** ** Requirements *)

(** [RequireCatalogAccess] *)
Definition RequireCatalogAccess (clock : nat → nat → nat → Z) (auth : Envelope) (d : ToolDefinition) : RM unit :=
  fail_if (negb (auth_ok auth)) TUnauthorized ;;
  Reload ;;
  s ← get;
  if e_CapabilityProfile auth != "" then
    tools ← of_res (managedToolsLocked clock s auth);
    fail_if (negb (existsb (λ t, (pt_DefinitionID t == td_DefinitionID d) && (pt_Version t == td_Version d)) tools)) TUnauthorized
  else
    fail_if (negb (visibleDefinitionLocked s auth d)) TUnauthorized.

(** [RequireSelfInstall] *)
Definition RequireSelfInstall (auth : Envelope) : RM unit :=
  fail_if (negb (auth_ok auth)) TUnauthorized ;;
  Reload ;;
  s ← get;
  if e_CapabilityProfile auth != "" then
    match capabilityProfileLocked s auth with Ok (profile, _) => fail_if (negb (pf_SelfInstall profile)) TUnauthorized | Err _ => mthrow_err TUnauthorized end
  else fail_if (negb (selfInstallAllowedLocked s auth)) TUnauthorized.

(** [AllowedControlOperations] *)
Definition allowed_operations (s : Reg) (auth : Envelope) : res TErr (list string) :=
  if e_CapabilityProfile auth != "" then
    match capabilityProfileLocked s auth with
    | Err e => Err e
    | Ok (profile, _) =>
        Ok (if one_of (pf_Connectors profile) [ConnectorsPersonal; ConnectorsPersonalTeam] then "invoke" :: ConnectorTools
            else if pf_Connectors profile == ConnectorsNone then []
            else List.filter (λ o, one_of o ControlOperations) (pf_ControlOperations profile))
    end
  else Ok (List.filter (controlAllowedLocked s auth) (ControlOperations ++ ["invoke"])%list).
Definition AllowedControlOperations (auth : Envelope) : RM (list string) :=
  fail_if (negb (auth_ok auth)) TUnauthorized ;;
  Reload ;;
  s ← get;
  of_res (allowed_operations s auth).

(** [RequireControlOperation] and [RequireConnectorTool] *)
Definition RequireControlOperation (auth : Envelope) (operation : string) : RM unit :=
  fail_if (negb (ValidControlOperation operation)) TInvalid ;;
  allowed ← AllowedControlOperations auth;
  fail_if (negb (one_of operation allowed)) TUnauthorized.
Definition RequireConnectorTool (auth : Envelope) (tool : string) : RM unit :=
  fail_if (negb (one_of tool ConnectorTools)) TInvalid ;;
  allowed ← AllowedControlOperations auth;
  fail_if (negb (one_of tool allowed)) TUnauthorized.
End Access.
