(* ===== verification/RegInv.v ===== *)
(** The invariant of the tool registry, and what the building blocks of its operations do to
    the state. *)
From stdpp Require Import base gmap strings list sorting.
From Stdlib Require Import Ascii String.
From S2P Require Import Prelude GoStrings Governance GovernanceProps RoutineTypes Schedules ToolTypes Capability RegStore RegOps RegLoad.
Local Open Scope string_scope.
Local Open Scope Z_scope.

(** * Ranging over a map *)

Section Range.
Context `{RegWorld}.

Lemma range_elem {A} site (m : gmap string A) k v : (k, v) ∈ rw_range site m ↔ m !! k = Some v.
Proof. by rewrite rw_range_perm, elem_of_map_to_list. Qed.

Lemma scan_elem {A} scan (m : gmap string A) k v : (k, v) ∈ rw_scan scan m ↔ m !! k = Some v.
Proof. by rewrite rw_scan_perm, elem_of_map_to_list. Qed.

Lemma range_nodup {A} site (m : gmap string A) : NoDup (rw_range site m).*1.
Proof. rewrite rw_range_perm. apply NoDup_fst_map_to_list. Qed.

Lemma range_length {A} site (m : gmap string A) : List.length (rw_range site m) = size m.
Proof. by rewrite rw_range_perm, length_map_to_list. Qed.
End Range.

(** * The invariant *)

(** Every row lies under its own key. *)
Definition keyed {A} (key : A → string) (m : gmap string A) : Prop := ∀ k a, m !! k = Some a → k = key a.

(** Every projection can still advance [n] times for every binding, and once more, before it
    reaches the end of its 64 bits. *)
Definition roomy (n : nat) (s : Reg) : Prop :=
  ∀ k, revision_of (r_projections s) k + Z.of_nat n * (Z.of_nat (size (r_bindings s)) + 1) < 2 ^ 64.

(** Projections only grow, and lead those of their bindings. *)
Definition leads (bindings : gmap string ToolBinding) (projections : gmap string Z) : Prop :=
  (∀ k, 0 ≤ revision_of projections k) ∧
  ∀ id b, bindings !! id = Some b → b_ProjectionRevision b ≤ revision_of projections (binding_scope b).

(** The tables beside those of the bindings: every row under its key. *)
Definition books (s : Reg) : Prop :=
  keyed po_PolicyID (r_policies s) ∧ keyed pf_ProfileID (r_profiles s) ∧ keyed g_GrantID (r_grants s) ∧
  keyed ob_OnboardingID (r_onboardings s) ∧ keyed op_OperationID (r_operations s) ∧
  keyed (λ p, definitionKey (pb_DefinitionID p) (pb_Version p)) (r_publications s) ∧ keyed sp_PolicyID (r_sharedPolicies s) ∧
  keyed t_TeamID (r_teams s) ∧ keyed bg_BindingID (r_brokerGrants s).
Lemma books_all s : books s →
  keyed po_PolicyID (r_policies s) ∧ keyed pf_ProfileID (r_profiles s) ∧ keyed g_GrantID (r_grants s) ∧
  keyed ob_OnboardingID (r_onboardings s) ∧ keyed op_OperationID (r_operations s) ∧
  keyed (λ p, definitionKey (pb_DefinitionID p) (pb_Version p)) (r_publications s) ∧ keyed sp_PolicyID (r_sharedPolicies s) ∧
  keyed t_TeamID (r_teams s) ∧ keyed bg_BindingID (r_brokerGrants s).
Proof. done. Qed.
Definition shelf (s : Reg) :=
  (r_policies s, r_profiles s, r_grants s, r_onboardings s, r_operations s, r_publications s, r_sharedPolicies s, r_teams s, r_brokerGrants s).

(** Whether the runs considered keep the lock-free mirror in step: those in which a [Reload]
    is not overtaken between its two critical sections do. *)
Class Mirrored := mirrored : Prop.

Record reg_inv {MM : Mirrored} (s : Reg) : Prop := {
  ri_definitions : keyed (λ d, definitionKey (td_DefinitionID d) (td_Version d)) (r_definitions s);
  ri_connections : keyed c_ConnectionID (r_connections s);
  ri_credentials : keyed cr_CredentialRefID (r_credentials s);
  ri_bindings : keyed b_ToolBindingID (r_bindings s);
  ri_workloads : keyed w_WorkloadID (r_workloads s);
  ri_books : books s;
  ri_linked : ∀ id b, r_bindings s !! id = Some b → binding_linked s b = true;
  ri_mirror : mirrored → r_connStatus s = c_Status <$> r_connections s;
  ri_projections : leads (r_bindings s) (r_projections s);
  ri_disk : ∀ d stamp, r_disk s = Some (d, stamp) → ∀ k v, sn_Projections d !! k = Some v → 0 ≤ v;
}.

Lemma keyed_empty {A} (key : A → string) : keyed key ∅.
Proof. intros k a Hk. by rewrite lookup_empty in Hk. Qed.
Lemma keyed_insert {A} (key : A → string) m a : keyed key m → keyed key (<[key a := a]> m).
Proof. intros Hm k b. rewrite lookup_insert_Some. intros [[<- <-]|[_ Hk]]; [done|by apply Hm]. Qed.
Lemma keyed_insert_same {A} (key : A → string) m k a : keyed key m → key a = k → keyed key (<[k := a]> m).
Proof. intros Hm <-. by apply keyed_insert. Qed.
Lemma keyed_delete {A} (key : A → string) m k : keyed key m → keyed key (delete k m).
Proof. intros Hm k' b [_ Hk]%lookup_delete_Some. by apply Hm. Qed.
Lemma keyed_filter {A} (key : A → string) (P : string * A → Prop) `{∀ x, Decision (P x)} m : keyed key m → keyed key (filter P m).
Proof. intros Hm k b [Hk _]%map_lookup_filter_Some. by apply Hm. Qed.
Lemma keyed_fmap {A} (key : A → string) (f : A → A) m : (∀ a, key (f a) = key a) → keyed key m → keyed key (f <$> m).
Proof. intros Hf Hm k b. rewrite lookup_fmap_Some. intros (a & <- & Hk). rewrite Hf. by apply Hm. Qed.

(** A change outside these tables. *)
Lemma shelf_books s s' : shelf s' = shelf s → books s → books s'.
Proof. destruct s, s'. intros Hs Hb. unfold shelf in Hs. unfold books in *. simpl in *. by simplify_eq. Qed.
Lemma books_same {MM : Mirrored} s s' : reg_inv s → shelf s' = shelf s → books s'.
Proof. intros Hi Hs. eapply shelf_books; [exact Hs|exact (ri_books _ Hi)]. Qed.

Create HintDb reg.
#[export] Hint Extern 2 (books _) => eapply books_same; [eassumption|reflexivity] : reg.
(** The tables one by one. *)
Ltac shelves := repeat match goal with Hb : books _ |- _ => apply books_all in Hb as (? & ? & ? & ? & ? & ? & ? & ? & ?) end.
Ltac books_tac := unfold books; simpl; split_and!; eauto with reg.
#[export] Hint Resolve keyed_empty keyed_insert keyed_insert_same keyed_delete keyed_filter keyed_fmap : reg.
#[export] Hint Resolve ri_definitions ri_connections ri_credentials ri_bindings ri_workloads ri_books ri_linked ri_mirror ri_projections ri_disk : reg.

Lemma NewStore_books : books NewStore.
Proof. books_tac. Qed.
Lemma NewStore_inv {MM : Mirrored} : reg_inv NewStore.
Proof. constructor; simpl; eauto using NewStore_books with reg; done. Qed.

(** * Revisions *)

Lemma revision_insert m k k' v : revision_of (<[k := v]> m) k' = if decide (k = k') then v else revision_of m k'.
Proof. unfold revision_of. destruct (decide (k = k')) as [->|Hne]; [by rewrite lookup_insert_eq|by rewrite lookup_insert_ne]. Qed.

Lemma touch_next m b :
  0 ≤ revision_of m (binding_scope b) → b_ProjectionRevision b ≤ revision_of m (binding_scope b) → revision_of m (binding_scope b) + 1 < 2 ^ 64 →
  touchProjectionLocked m b =
    (<[binding_scope b := revision_of m (binding_scope b) + 1]> m, set_b_ProjectionRevision (revision_of m (binding_scope b) + 1) b).
Proof.
  intros H0 Hb Hr. unfold touchProjectionLocked. rewrite u64_id by lia.
  assert ((revision_of m (binding_scope b) + 1 <=? b_ProjectionRevision b) = false) as -> by (apply Z.leb_gt; lia). done.
Qed.

(** * Touching bindings *)

Lemma set_same_bindings s : set_r_bindings (r_bindings s) (set_r_projections (r_projections s) s) = s.
Proof. by destruct s. Qed.

Section Touch.
Context (f : ToolBinding → option ToolBinding).
(** What [f] leaves alone of a binding. *)
Hypothesis f_scope : ∀ b b', f b = Some b' → binding_scope b' = binding_scope b ∧ b_ProjectionRevision b' = b_ProjectionRevision b.

Definition touch_all (l : list (string * ToolBinding)) (s : Reg) : Reg :=
  fold_left (λ s '(id, b), match f b with Some b => touch_binding id b s | None => s end) l s.

Lemma touch_all_spec l s :
  NoDup l.*1 → (∀ id b, (id, b) ∈ l → r_bindings s !! id = Some b) → leads (r_bindings s) (r_projections s) →
  (∀ k, revision_of (r_projections s) k + Z.of_nat (List.length l) < 2 ^ 64) →
  let s' := touch_all l s in
  leads (r_bindings s') (r_projections s') ∧
  (∀ k, revision_of (r_projections s) k ≤ revision_of (r_projections s') k ≤ revision_of (r_projections s) k + Z.of_nat (List.length l)) ∧
  (∀ id b b', (id, b) ∈ l → f b = Some b' → ∃ p, r_bindings s' !! id = Some (set_b_ProjectionRevision p b') ∧
     revision_of (r_projections s) (binding_scope b) < p ≤ revision_of (r_projections s') (binding_scope b)) ∧
  (∀ id, (∀ b b', (id, b) ∈ l → f b = Some b' → False) → r_bindings s' !! id = r_bindings s !! id) ∧
  s' = set_r_bindings (r_bindings s') (set_r_projections (r_projections s') s).
Proof.
  revert s. induction l as [|[id b] l IH]; intros s Hnd Hl Hlead Hroom; simpl.
  { split_and!; try done; [intros k; lia|set_solver|by rewrite set_same_bindings]. }
  apply NoDup_cons in Hnd as [Hnew Hnd]. simpl in Hroom.
  destruct (f b) as [b'|] eqn:Hf; cycle 1.
  { destruct (IH s) as (H1 & H2 & H3 & H4 & H5); try done; [set_solver|intros k; specialize (Hroom k); lia|].
    split_and!; [done|intros k; specialize (H2 k); lia| | |done].
    - intros i c c' [[= -> ->]|Hin]%elem_of_cons Hc; [congruence|eauto].
    - intros i Hi. apply H4. intros c c' Hc. apply Hi. set_solver. }
  destruct (f_scope _ _ Hf) as [Hsc Hpr]. destruct Hlead as [Hpos Hdom].
  assert (Hb : r_bindings s !! id = Some b) by (apply Hl; set_solver).
  pose proof (Hdom _ _ Hb) as Hbd. unfold touch_binding. rewrite touch_next; rewrite ?Hsc, ?Hpr; try done; [|specialize (Hroom (binding_scope b)); lia].
  set (rev := revision_of (r_projections s) (binding_scope b)) in *.
  set (s1 := set_r_bindings _ _). destruct (IH s1) as (H1 & H2 & H3 & H4 & H5); [done| | | |].
  - intros i c Hc. simpl. rewrite lookup_insert_ne; [apply Hl; set_solver|]. intros ->. apply Hnew. apply list_elem_of_fmap. by exists (i, c).
  - split; simpl.
    + intros k. rewrite revision_insert. pose proof (Hpos (binding_scope b)) as Hp0. fold rev in Hp0. case_decide; [lia|apply Hpos].
    + intros i c. rewrite lookup_insert_Some. intros [[<- <-]|[_ Hc]]; simpl.
      * change (binding_scope (set_b_ProjectionRevision (rev + 1) b')) with (binding_scope b'). rewrite Hsc, revision_insert, decide_True by done. lia.
      * rewrite revision_insert. case_decide as E; [|by eapply Hdom]. pose proof (Hdom _ _ Hc). rewrite <-E in *. lia.
  - intros k. simpl. rewrite revision_insert. specialize (Hroom k). case_decide as E; [|lia]. subst k. fold rev in Hroom. lia.
  - assert (Hs1 : ∀ k, revision_of (r_projections s) k ≤ revision_of (r_projections s1) k ≤ revision_of (r_projections s) k + 1).
    { intros k. simpl. rewrite revision_insert. case_decide as E; [|lia]. subst k. fold rev. lia. }
    assert (Hrev1 : revision_of (r_projections s1) (binding_scope b) = rev + 1) by (simpl; by rewrite revision_insert, decide_True).
    split_and!; [done| | | |].
    + intros k. specialize (H2 k). specialize (Hs1 k). lia.
    + intros i c c' [[= -> ->]|Hin]%elem_of_cons Hc.
      * assert (c' = b') as -> by congruence. exists (rev + 1). split; [|specialize (H2 (binding_scope b)); lia].
        rewrite H4; [simpl; by rewrite lookup_insert_eq|]. intros c c'' Hc2 _. apply Hnew. apply list_elem_of_fmap. by exists (id, c).
      * destruct (H3 _ _ _ Hin Hc) as (p & ? & ?). exists p. split; [done|]. specialize (Hs1 (binding_scope c)). lia.
    + intros i Hi. rewrite H4; [|intros c c' Hc; apply Hi; set_solver]. simpl. rewrite lookup_insert_ne; [done|].
      intros <-. eapply Hi; [apply list_elem_of_here|done].
    + rewrite H5 at 1. done.
Qed.
End Touch.

(** The bindings [f] picks are changed and get a new revision of their projection; nothing
    else changes. *)
Record touched (f : ToolBinding → option ToolBinding) (s s' : Reg) : Prop := {
  tc_none : ∀ id, r_bindings s !! id = None → r_bindings s' !! id = None;
  tc_same : ∀ id b, r_bindings s !! id = Some b → f b = None → r_bindings s' !! id = Some b;
  tc_new : ∀ id b b', r_bindings s !! id = Some b → f b = Some b' →
    ∃ p, r_bindings s' !! id = Some (set_b_ProjectionRevision p b') ∧
         revision_of (r_projections s) (binding_scope b) < p ≤ revision_of (r_projections s') (binding_scope b);
  tc_leads : leads (r_bindings s') (r_projections s');
  tc_mono : ∀ k, revision_of (r_projections s) k ≤ revision_of (r_projections s') k ≤
                 revision_of (r_projections s) k + Z.of_nat (size (r_bindings s));
  tc_frame : s' = set_r_bindings (r_bindings s') (set_r_projections (r_projections s') s);
}.

(** What a change of a binding leaves alone: its identity, its links, its projection. *)
Record same_link (b b' : ToolBinding) : Prop := {
  sl_id : b_ToolBindingID b' = b_ToolBindingID b;
  sl_scope : binding_scope b' = binding_scope b;
  sl_projection : b_ProjectionRevision b' = b_ProjectionRevision b;
  sl_definition : b_DefinitionID b' = b_DefinitionID b ∧ b_DefinitionVersion b' = b_DefinitionVersion b ∧ b_WorkloadClass b' = b_WorkloadClass b;
  sl_connection : b_ConnectionID b' = b_ConnectionID b;
}.
Definition keeps_link (f : ToolBinding → option ToolBinding) : Prop := ∀ b b', f b = Some b' → same_link b b'.

Section Blocks.
Context `{RegWorld} {MM : Mirrored}.
Implicit Types (s : Reg) (f : ToolBinding → option ToolBinding).

Lemma touch_where_spec site f s :
  keeps_link f → leads (r_bindings s) (r_projections s) → roomy 1 s → touched f s (touch_where site f s).
Proof.
  intros Hf Hlead Hroom.
  destruct (touch_all_spec f (λ b b' E, conj (sl_scope _ _ (Hf b b' E)) (sl_projection _ _ (Hf b b' E))) (rw_range site (r_bindings s)) s)
    as (H1 & H2 & H3 & H4 & H5); [apply range_nodup|by intros id b ?%range_elem|done| |].
  { intros k. specialize (Hroom k). rewrite range_length. lia. }
  change (touch_all f _ s) with (touch_where site f s) in *. constructor; try done.
  - intros id Hn. rewrite H4; [done|]. intros b b' Hb%range_elem. congruence.
  - intros id b Hb Hn. rewrite H4; [done|]. intros c c' Hc%range_elem. congruence.
  - intros id b b' Hb Hfb. apply H3; [by apply range_elem|done].
  - by rewrite range_length in H2.
Qed.

(** A binding of a touched registry comes from one of the same links. *)
Lemma touched_back f s s' id b : keeps_link f → touched f s s' → r_bindings s' !! id = Some b →
  ∃ b0, r_bindings s !! id = Some b0 ∧ (f b0 = None ∧ b = b0 ∨ ∃ b1 p, f b0 = Some b1 ∧ b = set_b_ProjectionRevision p b1).
Proof.
  intros Hf [] Hb. destruct (r_bindings s !! id) as [b0|] eqn:E; [|rewrite tc_none0 in Hb; done].
  exists b0. split; [done|]. destruct (f b0) as [b1|] eqn:Ef.
  - destruct (tc_new0 _ _ _ E Ef) as (p & Hp & _). right. exists b1, p. split; [done|]. congruence.
  - left. rewrite (tc_same0 _ _ E Ef) in Hb. split; congruence.
Qed.

Lemma touched_size f s s' : touched f s s' → size (r_bindings s') = size (r_bindings s).
Proof.
  intros []. rewrite <-!size_dom. f_equal. apply set_eq. intros id. rewrite !elem_of_dom. split.
  - intros [b Hb]. apply not_eq_None_Some. intros Hn. rewrite tc_none0 in Hb; done.
  - intros [b Hb]. destruct (f b) eqn:E; [destruct (tc_new0 _ _ _ Hb E) as (p & -> & _); eauto|rewrite (tc_same0 _ _ Hb E); eauto].
Qed.

Lemma touched_room f s s' n : touched f s s' → roomy (S n) s → roomy n s'.
Proof. intros Ht Hr k. rewrite (touched_size _ _ _ Ht). pose proof (tc_mono _ _ _ Ht k). specialize (Hr k). lia. Qed.

Lemma linked_same s s' b b' :
  same_link b b' → r_definitions s' = r_definitions s → r_connections s' = r_connections s → binding_linked s b = true → binding_linked s' b' = true.
Proof. intros [_ _ _ (E1 & E2 & E3) E4] Ed Ec. unfold binding_linked. by rewrite Ed, Ec, E1, E2, E3, E4. Qed.

Lemma touched_inv f s s' : keeps_link f → reg_inv s → touched f s s' → reg_inv s'.
Proof.
  intros Hf Hi Ht. pose proof (tc_frame _ _ _ Ht) as Hfr.
  assert (Hback : ∀ id b, r_bindings s' !! id = Some b → ∃ b0, r_bindings s !! id = Some b0 ∧ b_ToolBindingID b = b_ToolBindingID b0 ∧
            (binding_linked s b0 = true → binding_linked s' b = true)).
  { intros id b Hb. destruct (touched_back _ _ _ _ _ Hf Ht Hb) as (b0 & H0 & [[_ ->]|(b1 & p & H1 & ->)]); exists b0; split_and!; try done.
    - rewrite Hfr. done.
    - by apply Hf in H1 as [].
    - rewrite Hfr. apply Hf in H1. intros Hl. by eapply (linked_same s _ b0 b1) in Hl. }
  constructor; rewrite Hfr; simpl; eauto with reg.
  - intros id b Hb. destruct (Hback _ _ Hb) as (b0 & H0 & -> & _). by apply (ri_bindings _ Hi).
  - intros id b Hb. destruct (Hback _ _ Hb) as (b0 & H0 & _ & Hl). rewrite <-Hfr. by apply Hl, (ri_linked _ Hi id).
  - apply (tc_leads _ _ _ Ht).
Qed.

Lemma touch_where_inv site f s n : keeps_link f → reg_inv s → roomy (S n) s →
  reg_inv (touch_where site f s) ∧ roomy n (touch_where site f s).
Proof.
  intros Hf Hi Hr. assert (Ht : touched f s (touch_where site f s)).
  { apply touch_where_spec; eauto with reg. intros k. specialize (Hr k). lia. }
  split; [by eapply touched_inv|by eapply touched_room].
Qed.

(** One binding. *)
Lemma touch_binding_eq id b b' s : leads (r_bindings s) (r_projections s) → revision_of (r_projections s) (binding_scope b) + 1 < 2 ^ 64 →
  r_bindings s !! id = Some b → same_link b b' →
  let next := revision_of (r_projections s) (binding_scope b) + 1 in
  touch_binding id b' s = set_r_bindings (<[id := set_b_ProjectionRevision next b']> (r_bindings s))
                            (set_r_projections (<[binding_scope b := next]> (r_projections s)) s).
Proof. intros [Hpos Hdom] Hr Hb [_ Hs Hp _ _]. unfold touch_binding. rewrite touch_next; rewrite ?Hs, ?Hp; eauto. Qed.

Lemma leads_touch id b b' s : leads (r_bindings s) (r_projections s) → r_bindings s !! id = Some b → same_link b b' →
  let next := revision_of (r_projections s) (binding_scope b) + 1 in
  leads (<[id := set_b_ProjectionRevision next b']> (r_bindings s)) (<[binding_scope b := next]> (r_projections s)).
Proof.
  intros [Hpos Hdom] Hb [_ Hs Hp _ _] next. split.
  - intros k. rewrite revision_insert. pose proof (Hpos (binding_scope b)). case_decide; [lia|apply Hpos].
  - intros i c. rewrite lookup_insert_Some. intros [[<- <-]|[_ Hc]]; simpl.
    + change (binding_scope (set_b_ProjectionRevision next b')) with (binding_scope b'). rewrite Hs, revision_insert, decide_True by done. lia.
    + rewrite revision_insert. pose proof (Hdom _ _ Hc). case_decide as E; [rewrite <-E in *; lia|done].
Qed.

Lemma touch_binding_inv id b b' s : reg_inv s → revision_of (r_projections s) (binding_scope b) + 1 < 2 ^ 64 → r_bindings s !! id = Some b →
  same_link b b' → reg_inv (touch_binding id b' s).
Proof.
  intros Hi Hr Hb Hl. rewrite (touch_binding_eq id b b' s); eauto with reg. constructor; simpl; eauto with reg.
  - apply keyed_insert_same; eauto with reg. simpl. rewrite (sl_id _ _ Hl). symmetry. by apply (ri_bindings _ Hi).
  - intros i c. rewrite lookup_insert_Some. intros [[<- <-]|[_ Hc]].
    + pose proof (ri_linked _ Hi _ _ Hb) as Hlk. by eapply (linked_same s _ b b') in Hlk.
    + by apply (ri_linked _ Hi i).
  - apply leads_touch; eauto with reg.
Qed.

(** Connections, workloads and the grant ledger. *)
Lemma put_connection_inv c s : reg_inv s → (∀ c0, r_connections s !! c_ConnectionID c = Some c0 → c_DefinitionID c0 = c_DefinitionID c) →
  reg_inv (put_connection c s).
Proof.
  intros Hi Hc. constructor; simpl; eauto with reg.
  - intros id b Hb. pose proof (ri_linked _ Hi _ _ Hb) as Hl. unfold binding_linked in *. simpl. guards.
    apply andb_true_iff. split; [done|]. rename select (_ || _ = true) into Hlc. apply orb_true_iff. apply orb_true_iff in Hlc as [?|Hlc]; [by left|right].
    destruct (decide (c_ConnectionID c = b_ConnectionID b)) as [E|E]; [|by rewrite lookup_insert_ne].
    rewrite <-E in *. rewrite lookup_insert_eq. destruct (r_connections s !! _) as [c0|] eqn:E0; [|done]. by rewrite <-(Hc _ eq_refl).
  - intros Hm. rewrite fmap_insert. f_equal. by apply (ri_mirror _ Hi).
Qed.

Lemma put_connection_room c s n : roomy n s → roomy n (put_connection c s).
Proof. done. Qed.

Lemma stop_where_inv site p s : reg_inv s → reg_inv (stop_where site p s).2.
Proof.
  intros Hi. constructor; simpl; eauto with reg; [|exact (ri_linked _ Hi)].
  apply keyed_fmap; eauto with reg. intros w. by destruct (p w && running w).
Qed.

Lemma stopBinding_inv id s : reg_inv s → reg_inv (stopBindingLocked id s).2.
Proof. intros Hi. unfold stopBindingLocked. repeat case_match; first [exact Hi|by apply stop_where_inv]. Qed.

Lemma broker_ledger_inv m s : reg_inv s → keyed bg_BindingID m → reg_inv (set_r_brokerGrants m s).
Proof. intros Hi Hm. destruct Hi. shelves. by constructor. Qed.

Lemma retireBinding_inv id s : reg_inv s → reg_inv (retireBindingGrantsLocked id s).2.
Proof. intros Hi. unfold retireBindingGrantsLocked. case_match; simpl; [|done]. pose proof (ri_books _ Hi). shelves. apply broker_ledger_inv; eauto with reg. Qed.

Lemma retireConnection_inv id stale s : reg_inv s → reg_inv (retireConnectionGrantsLocked id stale s).2.
Proof. intros Hi. unfold retireConnectionGrantsLocked. simpl. pose proof (ri_books _ Hi). shelves. apply broker_ledger_inv; eauto with reg. Qed.

(** Removing rows. *)
Lemma delete_binding_inv id s : reg_inv s → reg_inv (set_r_bindings (delete id (r_bindings s)) s).
Proof.
  intros Hi. constructor; simpl; eauto with reg.
  - intros i b [_ Hb]%lookup_delete_Some. by apply (ri_linked _ Hi i).
  - destruct (ri_projections _ Hi) as [? Hd]. split; [done|]. intros i b [_ Hb]%lookup_delete_Some. by eapply Hd.
Qed.

Lemma drop_connection_inv id s : reg_inv s → (∀ i b, r_bindings s !! i = Some b → b_ConnectionID b ≠ id) → reg_inv (drop_connection id s).
Proof.
  intros Hi Hb. constructor; simpl; eauto with reg.
  - intros i b Hib. pose proof (ri_linked _ Hi _ _ Hib) as Hl. unfold binding_linked in *. simpl. guards.
    apply andb_true_iff. split; [done|]. rewrite lookup_delete_ne; [done|]. intros E. by eapply Hb.
  - intros Hm. rewrite fmap_delete. f_equal. by apply (ri_mirror _ Hi).
Qed.
End Blocks.

(** * Saving *)

(** The tables that a save does not touch. *)
Definition tables (s : Reg) :=
  (r_definitions s, r_connections s, r_credentials s, r_bindings s, r_workloads s, r_projections s, r_grants s, r_recipes s, r_publications s,
   r_sharedPolicies s, r_teams s, r_brokerGrants s, r_connStatus s, r_policies s, r_profiles s, r_changes s, r_bindingChanges s, r_path s).

Ltac tables_eqs Ht := unfold tables in Ht; injection Ht as ? ? ? ? ? ? ? ? ? ? ? ? ? ? ? ? ? ?.

(** Compaction drops rows of two of the tables. *)
Definition compacted (s s' : Reg) : Prop := r_onboardings s' ⊆ r_onboardings s ∧ r_operations s' ⊆ r_operations s.

Lemma keyed_subseteq {A} (key : A → string) m m' : m' ⊆ m → keyed key m → keyed key m'.
Proof. intros Hs Hm k a Hk. eapply Hm, lookup_weaken; eauto. Qed.

Lemma tables_inv {MM : Mirrored} s s' : tables s' = tables s → compacted s s' → reg_inv s →
  (∀ d stamp, r_disk s' = Some (d, stamp) → ∀ k v, sn_Projections d !! k = Some v → 0 ≤ v) → reg_inv s'.
Proof.
  destruct s, s'. intros Ht [Hon Hop] [] Hd. tables_eqs Ht. simpl in *. subst. constructor; simpl in *; try done.
  shelves. books_tac; eauto using keyed_subseteq.
Qed.

Lemma tables_room s s' n : tables s' = tables s → roomy n s → roomy n s'.
Proof. destruct s, s'. intros Ht Hr. tables_eqs Ht. simpl in *. by subst. Qed.

Section Saving.
Context `{LargeSort} `{SnapDigest} `{RegWorld} {MM : Mirrored}.

(** A run that leaves the tables alone. *)
Definition leaves_tables {A} (m : RM A) : Prop := ∀ s, reg_inv s → wp m (λ _ s', tables s' = tables s ∧ reg_inv s') s.

Lemma leaves_same {A} (m : RM A) :
  (∀ s, wp m (λ _ s', tables s' = tables s ∧ (r_onboardings s' = r_onboardings s ∧ r_operations s' = r_operations s) ∧ r_disk s' = r_disk s) s) →
  leaves_tables m.
Proof.
  intros Hm s Hi. eapply wp_mono; [apply Hm|]. intros r s' (Ht & [Eo Ep] & Hd). split; [done|].
  eapply tables_inv; eauto; [split; by rewrite ?Eo, ?Ep|]. rewrite Hd. apply (ri_disk _ Hi).
Qed.

Lemma leaves_bind {A B} (m : RM A) (f : A → RM B) : leaves_tables m → (∀ a, leaves_tables (f a)) → leaves_tables (m ≫= f).
Proof.
  intros Hm Hf s Hi. apply wp_bind. eapply wp_mono; [by apply Hm|]. intros [a|e] s' [Ht Hi']; [|done].
  eapply wp_mono; [by apply Hf|]. intros r s'' [Ht' Hi'']. split; [congruence|done].
Qed.

Lemma leaves_get {A} (f : Reg → RM A) : (∀ s, leaves_tables (f s)) → leaves_tables (get ≫= f).
Proof. intros Hf s Hi. apply wp_bind, wp_get. by apply Hf. Qed.

Lemma compacted_compact now s : compacted s (compactLocked now s).
Proof. split; simpl; apply map_filter_subseteq. Qed.

Lemma leaves_saveLocked : leaves_tables saveLocked.
Proof.
  intros s Hi. unfold saveLocked. wp_run; try (split; [done|done]).
  - split; [done|]. eapply tables_inv; [|apply compacted_compact|exact Hi|]; [done|exact (ri_disk _ Hi)].
  - split; [done|]. eapply tables_inv; [|apply (compacted_compact rw_now s)|exact Hi|]; [done|]. simpl. intros d st [= <- <-] k v Hk. simpl in Hk.
    destruct (ri_projections _ Hi) as [Hp _]. specialize (Hp k). unfold revision_of in Hp. by rewrite Hk in Hp.
Qed.

Lemma leaves_ret {A} (a : A) : leaves_tables (mret a).
Proof. by intros s Hi. Qed.
Lemma leaves_throw {A} e : leaves_tables (mthrow_err e : RM A).
Proof. by intros s Hi. Qed.
Lemma leaves_fail b e : leaves_tables (fail_if b e).
Proof. by destruct b; intros s Hi. Qed.

Lemma leaves_persist : leaves_tables persist.
Proof. apply leaves_get. intros s. destruct (r_path s); [apply leaves_saveLocked|apply leaves_ret]. Qed.

Lemma leaves_Reconcile auth last : leaves_tables (Reconcile auth last).
Proof. apply leaves_same. intros s. unfold Reconcile. by wp_run. Qed.

Lemma leaves_persistAndNotify : leaves_tables persistAndNotify.
Proof.
  apply leaves_bind; [apply leaves_persist|]. intros []. apply leaves_get. intros s.
  destruct (r_reconnect s) as [[auth last]|]; [apply leaves_Reconcile|apply leaves_ret].
Qed.

Lemma leaves_stopWorkloads ids : leaves_tables (stopWorkloads ids).
Proof. apply leaves_same. intros s. unfold stopWorkloads. destruct rw_stopper; by wp_run. Qed.

Lemma leaves_revokeGrants grants : leaves_tables (revokeGrants grants).
Proof. apply leaves_same. intros s. unfold revokeGrants. destruct rw_broker; by wp_run. Qed.

Lemma leaves_settle save stopped retired : leaves_tables save → leaves_tables (settle save stopped retired).
Proof.
  intros Hs. unfold settle. apply leaves_bind; [apply leaves_stopWorkloads|]. intros e1. apply leaves_bind; [done|]. intros [].
  apply leaves_bind; [apply leaves_revokeGrants|]. intros e2. apply leaves_fail.
Qed.

Lemma leaves_try {A} (m : RM A) : leaves_tables m → leaves_tables (try m).
Proof. intros Hm s Hi. apply wp_try. eapply wp_mono; [by apply Hm|]. done. Qed.

(** What holds of the tables survives such a run. *)
Lemma leaves_keep {A} (m : RM A) s (P : Reg → Prop) :
  leaves_tables m → reg_inv s → (∀ s', tables s' = tables s → reg_inv s' → P s') → wp m (λ _ s', P s') s.
Proof. intros Hm Hi HP. eapply wp_mono; [by apply Hm|]. intros r s' [Ht Hi']. by apply HP. Qed.
End Saving.

#[export] Hint Resolve leaves_saveLocked leaves_persist leaves_persistAndNotify leaves_stopWorkloads leaves_revokeGrants leaves_settle leaves_try
  leaves_ret leaves_throw leaves_fail : reg.
