(* ===== verification/RegKeeps.v ===== *)
(** Every operation of the tool registry keeps its invariant. *)
From stdpp Require Import base gmap strings list sorting.
From Stdlib Require Import Ascii String.
From S2P Require Import Prelude GoStrings Calendar Governance GovernanceProps RoutineTypes Schedules ToolTypes Capability RegStore RegOps RegLoad RegAccess RegInv.
Local Open Scope string_scope.
Local Open Scope Z_scope.

Lemma wp_locked {A} (f : Reg → A * Reg) (Q : res TErr A → Reg → Prop) s : Q (Ok (f s).1) (f s).2 → wp (locked f) Q s.
Proof. unfold wp, locked. by destruct (f s). Qed.

Lemma wp_valid_or v (Q : res TErr unit → Reg → Prop) s : (∀ e, v = Some e → Q (Err e) s) → (v = None → Q (Ok tt) s) → wp (valid_or v) Q s.
Proof. destruct v; unfold wp; simpl; auto. Qed.

Lemma wp_of_res {A} (r : res TErr A) (Q : res TErr A → Reg → Prop) s : Q r s → wp (of_res r) Q s.
Proof. by destruct r. Qed.

Ltac wp_prim ::=
  lazymatch goal with
  | |- wp (locked _) _ _ => apply wp_locked
  | |- wp (valid_or _) _ _ => apply wp_valid_or; [intros ? ?|intros ?]
  | |- wp (of_res _) _ _ => apply wp_of_res
  end.

Section Keeps.
Context `{ToolWorld} `{Unicode} `{LargeSort} `{SnapDigest} `{RegWorld} {MM : Mirrored}.

(** A run that keeps the invariant, given room for [n] rounds of new projections. *)
Definition keeps {A} (n : nat) (m : RM A) : Prop := ∀ s, reg_inv s → roomy n s → wp m (λ _ s', reg_inv s') s.

Lemma leaves_keeps {A} (m : RM A) s : leaves_tables m → reg_inv s → wp m (λ _ s', reg_inv s') s.
Proof. intros Hm Hi. by apply leaves_keep. Qed.

Lemma on_connection_keeps id : keeps_link (on_connection id).
Proof. unfold on_connection. intros b b'. case_bool_decide; intros; simplify_eq. by constructor. Qed.

Lemma advance_inv site c s n : reg_inv s → roomy (S n) s → (∀ c0, r_connections s !! c_ConnectionID c = Some c0 → c_DefinitionID c0 = c_DefinitionID c) →
  reg_inv (advance_connection site c s) ∧ roomy n (advance_connection site c s).
Proof. intros Hi Hr Hc. apply touch_where_inv; [apply on_connection_keeps|by apply put_connection_inv|done]. Qed.

Lemma stopAffected_inv id s : reg_inv s → reg_inv (stopAffectedLocked id s).2.
Proof. apply stop_where_inv. Qed.

(** The state a pair carries. *)
Lemma snd_eq {A B} (p : A * B) a b : p = (a, b) → p.2 = b.
Proof. by intros ->. Qed.

Lemma next_status_definition status c : c_DefinitionID (next_status status c) = c_DefinitionID c.
Proof. done. Qed.

Lemma same_connection s id c c' : reg_inv s → r_connections s !! id = Some c → c_ConnectionID c' = c_ConnectionID c → c_DefinitionID c' = c_DefinitionID c →
  ∀ c0, r_connections s !! c_ConnectionID c' = Some c0 → c_DefinitionID c0 = c_DefinitionID c'.
Proof. intros Hi Hc E Ed c0. rewrite E, <-(ri_connections _ Hi _ _ Hc), Hc, Ed. congruence. Qed.

Lemma SetConnectionStatus_keeps id status : keeps 1 (SetConnectionStatus id status).
Proof.
  intros s Hi Hr. unfold SetConnectionStatus. wp_run; try done. apply leaves_keeps; [eauto with reg|].
  rename select (r_connections s !! id = Some _) into Hc.
  destruct (advance_inv 25 (next_status status a) s 0 Hi Hr) as [Ha _]; [by eapply same_connection|].
  destruct (stopAffectedLocked _ _) as [st s1] eqn:E1. apply snd_eq in E1. apply (stopAffected_inv id) in Ha. rewrite E1 in Ha.
  destruct (status != ActiveStatus); [|done]. by apply retireConnection_inv.
Qed.

(** Parking a connection: the next revision in another status, nothing of it left running. *)
Lemma park_inv site id c0 c s n : reg_inv s → roomy (S n) s → r_connections s !! id = Some c0 →
  c_ConnectionID c = c_ConnectionID c0 → c_DefinitionID c = c_DefinitionID c0 →
  reg_inv (stopAffectedLocked id (advance_connection site c s)).2 ∧ roomy n (stopAffectedLocked id (advance_connection site c s)).2.
Proof.
  intros Hi Hr Hc E Ed. destruct (advance_inv site c s n Hi Hr) as [Ha Hrm]; [by eapply same_connection|].
  split; [by apply stopAffected_inv|done].
Qed.

Lemma label_metadata_id l v c : c_ConnectionID (label_metadata l v c) = c_ConnectionID c ∧ c_DefinitionID (label_metadata l v c) = c_DefinitionID c.
Proof. unfold label_metadata. by case_bool_decide. Qed.

(** What [current_connection] answers. *)
Lemma wp_current id expected (Q : res TErr (option Connection) → Reg → Prop) s :
  Q (Err TNotFound) s → Q (Ok None) s → (∀ c, r_connections s !! id = Some c → Q (Ok (Some c)) s) → wp (current_connection id expected) Q s.
Proof.
  intros He Hn Hs. unfold current_connection. wp_run. destruct (r_connections s !! id) as [c|] eqn:E, expected as [e|]; wp_run; auto.
  destruct (is_current e c); auto.
Qed.

Lemma markDegraded_keeps id expected label observed : keeps 1 (markDegradedIfCurrent id expected label observed).
Proof.
  intros s Hi Hr. unfold markDegradedIfCurrent. apply wp_bind. apply wp_current; [done|by apply wp_ret|]. intros c Hc. simpl.
  apply wp_bind, wp_locked. apply leaves_keeps; [apply leaves_bind; eauto with reg|].
  destruct (label_metadata_id label observed c) as [E1 E2]. by eapply (park_inv 26).
Qed.

Lemma MarkDegraded_keeps id : keeps 1 (MarkDegraded id).
Proof.
  intros s Hi Hr. unfold MarkDegraded. apply wp_bind. eapply wp_mono; [by apply markDegraded_keeps|]. by intros [a|e] s' Hi'; wp_run.
Qed.

Lemma credentials_inv m s : reg_inv s → keyed cr_CredentialRefID m → reg_inv (set_r_credentials m s).
Proof. intros [] Hk. by constructor. Qed.

Lemma connections_inv c c0 id s : reg_inv s → r_connections s !! id = Some c0 → c_ConnectionID c = c_ConnectionID c0 → c_DefinitionID c = c_DefinitionID c0 →
  c_Status c = c_Status c0 → reg_inv (set_r_connections (<[id := c]> (r_connections s)) s).
Proof.
  intros Hi Hc E Ed Es. pose proof (ri_connections _ Hi _ _ Hc) as Hid.
  assert (Hput : reg_inv (put_connection c s)) by (apply put_connection_inv; [done|by eapply same_connection]).
  destruct Hput as [H1' H2' H3' H4' H5' Hbk' H6' H7' H8' H9']. simpl in *. rewrite E, <-Hid in *. constructor; simpl; try done.
  { intros i b Hb. rewrite <-(H6' i b Hb). unfold binding_linked. simpl. by rewrite E. }
  intros Hm. etrans; [symmetry; apply insert_id|exact (H7' Hm)]. rewrite (ri_mirror _ Hi Hm), lookup_fmap, Hc. simpl. by rewrite Es.
Qed.

Lemma revoke_reference_inv id s : reg_inv s → reg_inv (revoke_reference id s).
Proof.
  intros Hi. unfold revoke_reference. destruct (r_credentials s !! id) as [r|] eqn:E; [|done]. apply credentials_inv; [done|].
  apply keyed_insert_same; eauto with reg. simpl. symmetry. by apply (ri_credentials _ Hi).
Qed.

Lemma revoke_reference_room id s n : roomy n s → roomy n (revoke_reference id s).
Proof. unfold revoke_reference. by case_match. Qed.

Lemma markReauth_keeps id expected observed : keeps 1 (markReauthIfCurrent id expected observed).
Proof.
  intros s Hi Hr. unfold markReauthIfCurrent. apply wp_bind. apply wp_current; [done|by apply wp_ret|]. intros c Hc. simpl.
  apply wp_bind, wp_locked. apply leaves_keeps; [apply leaves_bind; eauto with reg|].
  set (c' := next_status ReauthStatus _). assert (E : c_ConnectionID c' = c_ConnectionID c ∧ c_DefinitionID c' = c_DefinitionID c).
  { subst c'. simpl. by case_bool_decide. }
  destruct E as [E1 E2]. cbv zeta beta. apply stopAffected_inv. apply (touch_where_inv 27 _ _ 0); [apply on_connection_keeps| |].
  - assert (reg_inv (put_connection c' s)) by (apply put_connection_inv; [done|by eapply same_connection]).
    case_bool_decide; [done|by apply revoke_reference_inv].
  - case_bool_decide; [done|by apply revoke_reference_room].
Qed.

Lemma MarkReauth_keeps id : keeps 1 (MarkReauth id).
Proof.
  intros s Hi Hr. unfold MarkReauth. apply wp_bind. eapply wp_mono; [by apply markReauth_keeps|]. by intros [a|e] s' Hi'; wp_run.
Qed.

Lemma rotated_id r c : c_ConnectionID (rotated r c) = c_ConnectionID c ∧ c_DefinitionID (rotated r c) = c_DefinitionID c.
Proof. unfold rotated. by repeat case_match. Qed.

(** The ledger rows a rotation retires, and the reference it revokes. *)
Lemma supersede_inv c s : reg_inv s →
  reg_inv (supersede c s).2 ∧ r_bindings (supersede c s).2 = r_bindings s ∧ r_projections (supersede c s).2 = r_projections s ∧
  r_connections (supersede c s).2 = r_connections s.
Proof.
  intros Hi. unfold supersede. case_bool_decide; [done|]. split_and!; [|done..]. apply retireConnection_inv, credentials_inv; [done|].
  apply keyed_insert; eauto with reg.
Qed.

Lemma rotate_keeps id c r : ∀ s, reg_inv s → roomy 2 s → r_connections s !! id = Some c → wp (rotateCredentialLocked c r) (λ _ s', reg_inv s') s.
Proof.
  intros s Hi Hr Hc. unfold rotateCredentialLocked. apply wp_bind, wp_valid_or; [done|]. intros _. cbn beta iota.
  apply wp_bind, wp_locked. destruct (supersede_inv c s Hi) as (Hp & Eb & Ep & Ec). destruct (supersede c s) as [retired s1]. simpl in Hp, Eb, Ep, Ec.
  set (s2 := set_r_credentials _ s1). assert (Hi2 : reg_inv s2) by (apply credentials_inv; [done|apply keyed_insert, (ri_credentials _ Hp)]).
  assert (Hr2 : roomy 2 s2) by (intros k; specialize (Hr k); simpl; rewrite Eb, Ep; done).
  destruct (rotated_id r c) as [E1 E2]. pose proof (ri_connections _ Hi _ _ Hc) as Hid.
  destruct (park_inv 28 id c (rotated r c) s2 1 Hi2 Hr2) as [Hi3 Hr3]; [simpl; by rewrite Ec|done|done|].
  rewrite Hid in Hi3, Hr3. destruct (stopAffectedLocked (c_ConnectionID c) _) as [stopped s3]. simpl in Hi3, Hr3 |- *.
  apply wp_bind. eapply wp_mono; [by apply leaves_stopWorkloads|]. intros [e1|?] s4 [Ht4 Hi4]; [|done].
  apply wp_bind, wp_try. eapply wp_mono; [by apply leaves_persistAndNotify|]. intros [[]|e] s5 [Ht5 Hi5].
  - apply leaves_keeps; [|done]. apply leaves_bind; [apply leaves_revokeGrants|]. intros e2. apply leaves_bind; eauto with reg.
  - apply wp_bind, wp_try. eapply wp_mono; [apply MarkDegraded_keeps; [done|]|].
    + eapply tables_room; [exact Ht5|]. by eapply tables_room.
    + intros q s6 Hi6. by wp_run.
Qed.

Lemma RotateCredential_keeps id backend locator ks : keeps 2 (RotateCredential id backend locator ks).
Proof. intros s Hi Hr. unfold RotateCredential. wp_run; try done. by eapply rotate_keeps. Qed.
Lemma RotateCredentialRecord_keeps r : keeps 2 (RotateCredentialRecord r).
Proof. intros s Hi Hr. unfold RotateCredentialRecord. wp_run; try done. by eapply rotate_keeps. Qed.

Lemma setMigrateRequest_keeps id request : keeps 0 (setMigrateRequest id request).
Proof.
  intros s Hi _. unfold setMigrateRequest. wp_run; [done|]. destruct (r_credentials s !! id) as [r|] eqn:E; wp_run; try done.
  apply leaves_keeps; [eauto with reg|]. apply credentials_inv; [done|]. apply keyed_insert_same; eauto with reg. simpl. symmetry. by apply (ri_credentials _ Hi).
Qed.

(** An observation changes neither the identity nor the status of a connection. *)
Lemma observe_keeps e f : (∀ c c', f c = Some c' → c_ConnectionID c' = c_ConnectionID c ∧ c_DefinitionID c' = c_DefinitionID c ∧ c_Status c' = c_Status c) →
  keeps 0 (observe_current e f).
Proof.
  intros Hf s Hi _. unfold observe_current. apply wp_bind. apply wp_current; [done|by apply wp_ret|]. intros c Hc. simpl.
  destruct (f c) as [c'|] eqn:E; [|by wp_run]. destruct (Hf _ _ E) as (E1 & E2 & E3). apply wp_bind, wp_modify. cbn beta iota.
  apply leaves_keeps; [apply leaves_bind; eauto with reg|]. rewrite E1, <-(ri_connections _ Hi _ _ Hc). by eapply connections_inv.
Qed.
Lemma observeCredentialCheck_keeps e v cause t : keeps 0 (observeCredentialCheckIfCurrent e v cause t).
Proof. apply observe_keeps. by intros c c' [= <-]. Qed.
Lemma deferCheck_keeps e stage t : keeps 0 (deferCheckIfCurrent e stage t).
Proof. apply observe_keeps. intros c c' [= <-]. by destruct stage. Qed.
Lemma clearCheck_keeps e stage : keeps 0 (clearCheckRetryIfCurrent e stage).
Proof. apply observe_keeps. intros c c'. case_match; [done|]. intros [= <-]. by destruct stage. Qed.

Lemma observeDrift_keeps id e label v : keeps 0 (observeDriftIfCurrent id e label v).
Proof.
  intros s Hi _. unfold observeDriftIfCurrent. apply wp_bind. apply wp_current; [done|by apply wp_ret|]. intros c Hc. simpl.
  apply wp_bind, wp_modify. cbn beta iota. apply leaves_keeps; [apply leaves_bind; eauto with reg|]. by eapply connections_inv.
Qed.

Lemma restore_keeps e pinned : keeps 1 (restoreApprovedSurfaceIfCurrent e pinned).
Proof.
  intros s Hi Hr. unfold restoreApprovedSurfaceIfCurrent. wp_run. destruct (r_connections s !! _) as [c|] eqn:Ec; [|by wp_run].
  destruct (r_bindings s !! _) as [b|] eqn:Eb; [|by wp_run]. wp_run; [done|].
  eapply wp_mono; [apply leaves_keeps; [eauto with reg|]|by intros [?|?] ? ?; wp_run].
  apply (touch_where_inv 29 _ _ 0); [|apply put_connection_inv; [done|by eapply same_connection]|done].
  intros b1 b2. simpl. destruct (b_ConnectionID b1 == c_ConnectionID c); [|done]. intros [= <-]. case_match; by constructor.
Qed.

Lemma accept_surface_keeps id v : keeps_link (accept_surface id v).
Proof. unfold accept_surface. intros b b'. case_match; [done|]. intros [= <-]. by constructor. Qed.

Lemma AcceptConnectionDrift_keeps id : keeps 2 (AcceptConnectionDrift id).
Proof.
  intros s Hi Hr. unfold AcceptConnectionDrift. wp_run; try done. apply leaves_keeps; [eauto with reg|].
  rename select (r_connections s !! id = Some _) into Hc. set (s1 := if meta a LabelAcceptSurface == "" then s else _).
  assert (reg_inv s1 ∧ roomy 1 s1 ∧ r_connections s1 = r_connections s) as (Hi1 & Hr1 & E1).
  { subst s1. destruct (meta a LabelAcceptSurface == "").
    - split_and!; [done| |done]. intros k. specialize (Hr k). lia.
    - assert (Ht : touched (accept_surface id (meta a LabelAcceptSurface)) s (touch_where 30 (accept_surface id (meta a LabelAcceptSurface)) s)).
      { apply touch_where_spec; [apply accept_surface_keeps|eauto with reg|]. intros k. specialize (Hr k). lia. }
      split_and!; [eapply touched_inv; eauto using accept_surface_keeps|by eapply touched_room|]. by rewrite (tc_frame _ _ _ Ht). }
  eapply (park_inv 31 id a _ s1 0); try done. by rewrite E1.
Qed.

Lemma SetTerminalExposure_keeps id enabled : keeps 0 (SetTerminalExposure id enabled).
Proof. intros s Hi _. unfold SetTerminalExposure. wp_run; try done. apply leaves_keeps; [eauto with reg|]. by eapply connections_inv. Qed.

Lemma roomy_one s k : roomy 1 s → revision_of (r_projections s) k + 1 < 2 ^ 64.
Proof. intros Hr. specialize (Hr k). lia. Qed.

Lemma SetBindingStatus_keeps id status : keeps 1 (SetBindingStatus id status).
Proof.
  intros s Hi Hr. unfold SetBindingStatus. wp_run; try done. apply leaves_keeps; [eauto with reg|].
  rename select (r_bindings s !! id = Some _) into Hb.
  assert (Ha : reg_inv (touch_binding id (set_b_Revision (u64 (b_Revision a + 1)) (set_b_Status status a)) s)).
  { eapply touch_binding_inv; [done| |done|by constructor]. by apply roomy_one. }
  apply (stopBinding_inv id) in Ha. destruct (stopBindingLocked _ _) as [st s1]. simpl in Ha.
  destruct (status != ActiveStatus); [|done]. apply (retireBinding_inv id) in Ha. by destruct (retireBindingGrantsLocked _ _).
Qed.

Lemma EnableToolsets_keeps auth id sets : keeps 1 (EnableToolsets auth id sets).
Proof.
  intros s Hi Hr. unfold EnableToolsets. wp_run. destruct (r_bindings s !! id) as [b|] eqn:Hb; [|by wp_run]. wp_run; [done|].
  apply leaves_keeps; [eauto with reg|]. destruct (ri_projections _ Hi) as [Hpos Hdom].
  pose proof (roomy_one _ (binding_scope b) Hr) as Hr1.
  assert (E : u64 (revision_of (r_projections s) (binding_scope b) + 1) = revision_of (r_projections s) (binding_scope b) + 1).
  { apply u64_id. specialize (Hpos (binding_scope b)). lia. }
  rewrite E. set (b' := set_b_Revision (u64 (b_Revision b + 1)) (set_b_EnabledToolsets (SortFunc strings_Compare sets) b)).
  assert (same_link b b') by (by constructor). pose proof (touch_binding_inv id b b' s Hi Hr1 Hb) as Ht.
  rewrite (touch_binding_eq id b b') in Ht; eauto with reg.
Qed.

(** ** Removing *)

Lemma stopBinding_bindings id s : r_bindings (stopBindingLocked id s).2 = r_bindings s ∧ r_projections (stopBindingLocked id s).2 = r_projections s ∧
  r_connections (stopBindingLocked id s).2 = r_connections s.
Proof. unfold stopBindingLocked. by repeat case_match. Qed.
Lemma retireBinding_bindings id s : r_bindings (retireBindingGrantsLocked id s).2 = r_bindings s ∧
  r_projections (retireBindingGrantsLocked id s).2 = r_projections s ∧ r_connections (retireBindingGrantsLocked id s).2 = r_connections s.
Proof. unfold retireBindingGrantsLocked. by repeat case_match. Qed.

(** A revoked binding, its workloads stopped and its row gone. *)
Lemma cut_binding id b s : reg_inv s → revision_of (r_projections s) (binding_scope b) + 1 < 2 ^ 64 → r_bindings s !! id = Some b →
  let s1 := touch_binding id (set_b_Status RevokedStatus b) s in
  let s2 := (stopBindingLocked id s1).2 in
  let s3 := set_r_bindings (delete id (r_bindings s2)) s2 in
  reg_inv s3 ∧ r_bindings s3 = delete id (r_bindings s) ∧ r_connections s3 = r_connections s ∧
  (∀ k, revision_of (r_projections s3) k ≤ revision_of (r_projections s) k + 1).
Proof.
  intros Hi Hr Hb s1 s2 s3. assert (Hl : same_link b (set_b_Status RevokedStatus b)) by (by constructor).
  assert (Hi1 : reg_inv s1) by (by eapply touch_binding_inv). pose proof (stopBinding_inv id s1 Hi1) as Hi2. fold s2 in Hi2.
  destruct (stopBinding_bindings id s1) as (E1 & E2 & E3). fold s2 in E1, E2, E3.
  assert (Es1 := touch_binding_eq id b _ s (ri_projections _ Hi) Hr Hb Hl). fold s1 in Es1. simpl in Es1.
  split_and!; [by apply delete_binding_inv| | |].
  - subst s3. simpl. rewrite E1, Es1. simpl. by rewrite delete_insert_eq.
  - subst s3. simpl. by rewrite E3, Es1.
  - intros k. subst s3. simpl. rewrite E2, Es1. simpl. rewrite revision_insert. case_decide; [subst k|]; lia.
Qed.

Lemma drop_bindings_inv connectionID l acc : NoDup l.*1 → (∀ id b, (id, b) ∈ l → r_bindings acc.2 !! id = Some b) → reg_inv acc.2 →
  (∀ k, revision_of (r_projections acc.2) k + Z.of_nat (List.length l) < 2 ^ 64) →
  let acc' := fold_left (λ acc '(id, b), if b_ConnectionID b == connectionID then drop_binding acc id b else acc) l acc in
  reg_inv acc'.2 ∧ r_connections acc'.2 = r_connections acc.2 ∧
  ∀ id b, r_bindings acc'.2 !! id = Some b → r_bindings acc.2 !! id = Some b ∧ ((id, b) ∈ l → b_ConnectionID b ≠ connectionID).
Proof.
  revert acc. induction l as [|[id b] l IH]; intros acc Hnd Hl Hi Hr; simpl; [split_and!; [done..|set_solver]|].
  apply NoDup_cons in Hnd as [Hnew Hnd]. simpl in Hr. assert (Hb : r_bindings acc.2 !! id = Some b) by (apply Hl; set_solver).
  assert (Hother : ∀ i c, (i, c) ∈ l → i ≠ id). { intros i c Hc ->. apply Hnew, list_elem_of_fmap. by exists (id, c). }
  destruct (b_ConnectionID b == connectionID) eqn:E; cycle 1.
  - apply bool_decide_eq_false in E. destruct (IH acc) as (H1' & H2' & H3'); try done; [set_solver|intros k; specialize (Hr k); lia|].
    split_and!; [done..|]. intros i c Hc. destruct (H3' i c Hc) as [? Hn]. split; [done|].
    intros [[= -> ->]|Hin]%elem_of_cons; auto.
  - destruct acc as [[stopped retired] s]. simpl in *. destruct (cut_binding id b s Hi) as (Hi3 & Eb & Ec & Hp); [specialize (Hr (binding_scope b)); lia|done|].
    destruct (stopBindingLocked id _) as [ids s2] eqn:Es. simpl in *. set (s3 := set_r_bindings _ s2) in *.
    pose proof (retireBinding_inv id s3 Hi3) as Hi4. destruct (retireBinding_bindings id s3) as (E1 & E2 & E3).
    destruct (retireBindingGrantsLocked id s3) as [grants s4]. simpl in Hi4, E1, E2, E3.
    destruct (IH (stopped ++ ids, retired ++ grants, s4)%list) as (H1' & H2' & H3'); simpl; [done| |done| |].
    + intros i c Hc. rewrite E1, Eb, lookup_delete_ne; [apply Hl; set_solver|]. apply not_eq_sym. eauto.
    + intros k. specialize (Hr k). specialize (Hp k). rewrite E2. lia.
    + simpl in H2', H3'. split_and!; [done|congruence|]. intros i c Hc. destruct (H3' i c Hc) as [Hc' Hn]. rewrite E1, Eb in Hc'.
      apply lookup_delete_Some in Hc' as [Hne Hc']. split; [done|]. intros [[= -> ->]|Hin]%elem_of_cons; auto.
Qed.

Lemma DropTeamConnection_keeps id : keeps 1 (DropTeamConnection id).
Proof.
  intros s Hi Hr. unfold DropTeamConnection. wp_run; try done. apply leaves_keeps; [eauto with reg|].
  rename select (r_connections s !! id = Some _) into Hc.
  destruct (drop_bindings_inv id (rw_range 24 (r_bindings s)) ([], [], s)) as (H1' & H2' & H3'); simpl; [apply range_nodup|by intros i b ?%range_elem|done| |].
  { intros k. specialize (Hr k). rewrite range_length. lia. }
  destruct (fold_left _ _ _) as [[st rt] s1]. simpl in *. apply drop_connection_inv; [done|].
  intros i b Hb. destruct (H3' i b Hb) as [Hb' Hn]. apply Hn. by apply range_elem.
Qed.

Lemma workloads_inv m s : reg_inv s → keyed w_WorkloadID m → reg_inv (set_r_workloads m s).
Proof. intros [] Hk. by constructor. Qed.

Lemma RemoveBindingRecords_keeps id : keeps 1 (RemoveBindingRecords id).
Proof.
  intros s Hi Hr. unfold RemoveBindingRecords. wp_run. destruct (r_bindings s !! id) as [b|] eqn:Hb; [|by wp_run]. wp_run.
  apply leaves_keeps; [eauto with reg|]. destruct (cut_binding id b s Hi (roomy_one _ _ Hr) Hb) as (Hi3 & Eb & Ec & _).
  destruct (stopBindingLocked id _) as [ids s2]. simpl in Hi3, Eb, Ec. set (s3 := set_r_bindings _ s2) in *. cbv zeta.
  set (refd := existsb _ (map_to_list _)). set (team := match r_connections s3 !! _ with Some _ => _ | None => _ end).
  set (s4 := if (b_ConnectionID b != "") && negb refd && negb team then _ else _).
  assert (Hi4 : reg_inv s4).
  { subst s4. destruct ((b_ConnectionID b != "") && negb refd && negb team) eqn:E; [|done]. guards. apply drop_connection_inv; [done|].
    intros i c Hc Hcc. rename select (refd = false) into Href. apply not_true_iff_false in Href. apply Href, existsb_exists.
    exists (i, c). split; [by apply list_elem_of_In, elem_of_map_to_list|]. simpl. rewrite Hcc.
    by rewrite (bool_decide_eq_false_2 (_ = "")), bool_decide_eq_true_2. }
  assert (Hi5 : reg_inv (set_r_workloads (filter (λ kv, w_BindingID kv.2 ≠ id) (r_workloads s4)) s4)) by (apply workloads_inv; eauto with reg).
  apply (retireBinding_inv id) in Hi5. by destruct (retireBindingGrantsLocked _ _).
Qed.

(** ** Teams *)

Lemma teams_inv m s : reg_inv s → keyed t_TeamID m → reg_inv (set_r_teams m s).
Proof. intros [] Hm. shelves. by constructor. Qed.

Lemma cut_seat_inv acc id : reg_inv acc.2 → reg_inv (cut_seat acc id).2.
Proof.
  destruct acc as [[st rt] s]. simpl. intros Hi. apply (stopBinding_inv id) in Hi. destruct (stopBindingLocked _ _). simpl in Hi.
  apply (retireBinding_inv id) in Hi. by destruct (retireBindingGrantsLocked _ _).
Qed.

Lemma PutTeam_keeps team : keeps 0 (PutTeam team).
Proof.
  intros s Hi _. unfold PutTeam. wp_run; try done. apply leaves_keeps; [eauto with reg|].
  assert (Hf : ∀ l acc, reg_inv acc.2 → reg_inv (fold_left (λ acc '(id, b), if seat_dropped acc.2 (r_teams s !! t_TeamID team) team b then cut_seat acc id else acc) l acc).2).
  { intros rows. induction rows as [|[id b] rows IH]; intros acc Ha; simpl; [done|]. apply IH. destruct (seat_dropped _ _ _ _); [by apply cut_seat_inv|done]. }
  apply Hf. pose proof (ri_books _ Hi). shelves. by apply teams_inv; [|apply keyed_insert].
Qed.

(** Sharing again a connection of another definition would be a collision of identifiers. *)
Definition share_distinct (s : Reg) (teamID definitionID version : string) : Prop :=
  ∀ c, r_connections s !! deterministic_id "conn" ["team"; teamID; definitionID; version] = Some c → c_DefinitionID c = definitionID.
Lemma ShareTeamConnection_keeps team d v backend locator ctx ks s : reg_inv s → share_distinct s team d v →
  wp (ShareTeamConnection team d v backend locator ctx ks) (λ _ s', reg_inv s') s.
Proof.
  intros Hi Hd. unfold ShareTeamConnection. wp_run; try done. eapply wp_mono; [apply leaves_keeps; [eauto with reg|]|by intros [?|?] ? ?; wp_run].
  apply put_connection_inv; [|done]. apply credentials_inv; [done|]. apply keyed_insert_same; eauto with reg.
Qed.

Lemma RecordBrokerGrant_keeps g : keeps 0 (RecordBrokerGrant g).
Proof.
  intros s Hi _. unfold RecordBrokerGrant. wp_run; [done|]. destruct (BrokerGrantFor _ _ _); wp_run; [done|].
  apply broker_ledger_inv; [done|]. pose proof (ri_books _ Hi). shelves. by apply keyed_insert.
Qed.
(** ** Records outside the invariant *)

Definition core (s : Reg) := (r_definitions s, r_connections s, r_credentials s, r_bindings s, r_workloads s, r_projections s, r_connStatus s).

(** The core is the same, the file is the old one or one written from it, and policies and
    profiles keep lying under their keys. *)
Definition stable (s s' : Reg) : Prop :=
  core s' = core s ∧ (∀ d st, r_disk s' = Some (d, st) → r_disk s = Some (d, st) ∨ sn_Projections d = r_projections s) ∧ (books s → books s').

#[export] Instance stable_preorder : PreOrder stable.
Proof.
  split; [by intros s; split_and!; [|left|]|]. intros s1 s2 s3 (E1 & D1 & B1) (E2 & D2 & B2). split_and!; [congruence| |auto]. intros d st Hd.
  destruct (D2 _ _ Hd) as [?|Hp]; [by apply D1|right]. rewrite Hp. unfold core in *. by simplify_eq.
Qed.

Lemma stable_inv s s' : stable s s' → reg_inv s → reg_inv s'.
Proof.
  intros (E & D & B) Hi. specialize (B (ri_books _ Hi)). assert (Hd : ∀ d st, r_disk s' = Some (d, st) → ∀ k v, sn_Projections d !! k = Some v → 0 ≤ v).
  { intros d st Hd k v Hk. destruct (D _ _ Hd) as [?|Hp]; [by eapply (ri_disk _ Hi)|]. rewrite Hp in Hk.
    destruct (ri_projections _ Hi) as [Hpos _]. specialize (Hpos k). unfold revision_of in Hpos. by rewrite Hk in Hpos. }
  clear D. destruct s, s', Hi. unfold core in E. simpl in *. simplify_eq. by constructor.
Qed.

Definition steady {A} (m : RM A) : Prop := ∀ s, books s → wp m (λ _ s', stable s s') s.

Lemma steady_keeps {A} (m : RM A) n : steady m → keeps n m.
Proof. intros Hm s Hi _. eapply wp_mono; [apply Hm, (ri_books _ Hi)|]. intros r s' Hs. exact (stable_inv _ _ Hs Hi). Qed.

Lemma steady_bind {A B} (m : RM A) (f : A → RM B) : steady m → (∀ a, steady (f a)) → steady (m ≫= f).
Proof.
  intros Hm Hf s Hb. apply wp_bind. eapply wp_mono; [by apply Hm|]. intros [a|e] s' Hs; [|done].
  eapply wp_mono; [apply Hf; by apply Hs|]. intros r s'' Hs'. by etrans.
Qed.
Lemma steady_ret {A} (a : A) : steady (mret a).
Proof. intros s _. apply wp_ret. reflexivity. Qed.
Lemma steady_throw {A} e : steady (mthrow_err e : RM A).
Proof. intros s _. apply wp_throw. reflexivity. Qed.
Lemma steady_fail b e : steady (fail_if b e).
Proof. destruct b; [apply steady_throw|apply steady_ret]. Qed.
Lemma steady_valid v : steady (valid_or v).
Proof. destruct v; [apply steady_throw|apply steady_ret]. Qed.
Lemma steady_some {A} (o : option A) e : steady (some_or o e).
Proof. destruct o; [apply steady_ret|apply steady_throw]. Qed.
Lemma steady_get {A} (f : Reg → RM A) : (∀ s, books s → steady (f s)) → steady (get ≫= f).
Proof. intros Hf s Hb. apply wp_bind, wp_get. by apply Hf. Qed.
Lemma steady_try {A} (m : RM A) : steady m → steady (try m).
Proof. intros Hm s Hb. apply wp_try. by apply Hm. Qed.
Lemma steady_modify f : (∀ s, stable s (f s)) → steady (modify f).
Proof. intros Hf s Hb. by apply wp_modify. Qed.

Lemma steady_persist : steady persist.
Proof.
  intros s Hb. unfold persist, saveLocked. wp_run; try reflexivity; (split_and!; [done| |intros ?; shelves; books_tac]); simpl; intros d st Hd; [by left|]. right. by simplify_eq.
Qed.
Lemma steady_save_or undo : (∀ s, stable s (undo s)) → steady (save_or undo).
Proof.
  intros Hu. apply steady_bind; [apply steady_try, steady_persist|]. intros [[]|e]; [apply steady_ret|].
  apply steady_bind; [by apply steady_modify|]. intros []. apply steady_throw.
Qed.
End Keeps.

(** Runs a goal [steady m] down to its parts. *)
Ltac steady_step :=
  cbv zeta; cbn beta iota;
  lazymatch goal with
  | |- steady (mbind _ get) => apply steady_get; intros ? ?
  | |- steady (mbind _ _) => apply steady_bind; [|intros ?]
  | |- steady persist => apply steady_persist
  | |- steady (mret _) => apply steady_ret
  | |- steady (mthrow_err _) => apply steady_throw
  | |- steady (fail_if _ _) => apply steady_fail
  | |- steady (valid_or _) => apply steady_valid
  | |- steady (some_or _ _) => apply steady_some
  | |- steady (try _) => apply steady_try
  | |- steady (save_or _) => apply steady_save_or; intros ?
  | |- steady (modify _) => apply steady_modify; intros ?
  | |- stable ?s _ => split; [reflexivity|split; [by intros; left|try by (let Hb := fresh "Hb" in intros Hb; shelves; books_tac)]]
  | |- steady (if ?b then _ else _) => destruct b
  | |- steady (match ?x with _ => _ end) => destruct x
  end.
Ltac steady := repeat steady_step.

Section Puts.
Context `{ToolWorld} `{Unicode} `{LargeSort} `{SnapDigest} `{RegWorld}.

Lemma PutPublication_steady p : steady (PutPublication p).
Proof. unfold PutPublication. steady. Qed.
Lemma PutSharedCredentialPolicy_steady p : steady (PutSharedCredentialPolicy p).
Proof. unfold PutSharedCredentialPolicy. steady. Qed.
Lemma PutOnboarding_steady o : steady (PutOnboarding o).
Proof. unfold PutOnboarding. steady. Qed.
Lemma PutOperation_steady o : steady (PutOperation o).
Proof. unfold PutOperation. steady. Qed.
Lemma ClaimPreparingOnboarding_steady o age now : steady (ClaimPreparingOnboarding o age now).
Proof. unfold ClaimPreparingOnboarding. steady. Qed.
Lemma PromoteToCatalog_steady d v o : steady (PromoteToCatalog d v o).
Proof. unfold PromoteToCatalog. steady. Qed.
Lemma PutRecipe_steady r : steady (PutRecipe r).
Proof. unfold PutRecipe. steady. Qed.
Lemma Sweep_steady id e : steady (SweepConnectionOnboardings id e).
Proof.
  unfold SweepConnectionOnboardings. steady. intros ?; shelves; books_tac. apply keyed_fmap; [|done]. intros o. unfold swept. by destruct (_ || _).
Qed.
Lemma PutGrant_steady g : steady (PutGrant g).
Proof.
  unfold PutGrant. apply steady_bind; [apply steady_valid|]. intros []. apply steady_get. intros s Hbk. pose proof Hbk as (_ & _ & Hg & _). cbv zeta.
  destruct (r_grants s !! g_GrantID g) as [old|] eqn:E; [pose proof (Hg _ _ E) as Hk|]; steady.
Qed.
(** An old row, put back, goes where it was. *)
Lemma PutCapabilityPolicy_steady p : steady (PutCapabilityPolicy p).
Proof.
  unfold PutCapabilityPolicy. apply steady_bind; [apply steady_valid|]. intros []. apply steady_get. intros s Hbk. pose proof Hbk as (Hp & _). cbv zeta.
  apply steady_bind; [apply steady_valid|]. intros []. destruct (r_policies s !! po_PolicyID p) as [old|] eqn:E; [pose proof (Hp _ _ E) as Hk|];
    steady; intros [? ?]; split; simpl; eauto with reg.
Qed.
Lemma PutCapabilityProfile_steady p : steady (PutCapabilityProfile p).
Proof.
  unfold PutCapabilityProfile. apply steady_bind; [apply steady_valid|]. intros []. apply steady_get. intros s Hbk. pose proof Hbk as (_ & Hp & _). cbv zeta.
  apply steady_bind; [destruct (validateProfileAdmissionLocked s p); [apply steady_ret|apply steady_throw]|]. intros [].
  apply steady_bind; [apply steady_valid|]. intros []. destruct (r_profiles s !! pf_ProfileID p) as [old|] eqn:E; [pose proof (Hp _ _ E) as Hk|];
    steady; intros [? ?]; split; simpl; eauto with reg.
Qed.
End Puts.
