(* ===== verification/RegSystem.v ===== *)
(** The tool registry as a system: what a load establishes, the steps of the running registry,
    and its invariant over all runs. *)
From stdpp Require Import base gmap strings list sorting relations.
From Stdlib Require Import Ascii String.
From S2P Require Import Prelude GoStrings Calendar Governance GovernanceProps RoutineTypes Schedules ToolTypes Capability RegStore RegOps RegLoad RegAccess RegInv RegKeeps.
Local Open Scope string_scope.
Local Open Scope Z_scope.

Section Rows.
Context `{ToolWorld} `{Unicode} `{LargeSort} `{SnapDigest} `{RegWorld} {MM : Mirrored}.

Lemma RegisterDefinition_keeps d : keeps 0 (RegisterDefinition d).
Proof.
  intros s Hi _. unfold RegisterDefinition. wp_run; try done. rename select (match _ with Some _ => _ | None => _ end = false) into Hold.
  constructor; simpl; eauto with reg.
  intros id b Hb. pose proof (ri_linked _ Hi _ _ Hb) as Hl. unfold binding_linked in *. simpl. guards. apply andb_true_iff. split; [|done].
  set (k := definitionKey (td_DefinitionID d) (td_Version d)) in *. set (kb := definitionKey (b_DefinitionID b) _) in *.
  destruct (decide (k = kb)) as [E|E]; [|by rewrite lookup_insert_ne]. rewrite <-E in *. rewrite lookup_insert_eq.
  destruct (r_definitions s !! k) as [d0|]; [|done]. guards. subst d0. by apply bool_decide_eq_true.
Qed.

Lemma PutCredentialReference_keeps r : keeps 0 (PutCredentialReference r).
Proof. intros s Hi _. unfold PutCredentialReference. wp_run; try done. apply credentials_inv; [done|]. apply keyed_insert; eauto with reg. Qed.

Lemma PutConnection_keeps c : keeps 0 (PutConnection c).
Proof.
  intros s Hi _. unfold PutConnection. wp_run; try done. apply put_connection_inv; [done|]. intros c0 Hc.
  rename select (match r_connections s !! _ with Some _ => _ | None => _ end = false) into Hold. rewrite Hc in Hold. guards. congruence.
Qed.

Lemma raise_spec b m k : revision_of (raise_projection b m) k = if decide (binding_scope b = k) then Z.max (revision_of m k) (b_ProjectionRevision b) else revision_of m k.
Proof.
  unfold raise_projection. destruct (_ <? _) eqn:E; guards.
  - rewrite revision_insert. case_decide; [subst k; lia|done].
  - case_decide; [subst k; lia|done].
Qed.

Lemma PutBinding_keeps b : keeps 0 (PutBinding b).
Proof.
  intros s Hi _. unfold PutBinding. set (b' := if b_ToolBindingID b == "" then _ else _). wp_run; try done.
  rename select (r_definitions s !! _ = Some _) into Hd. rename select (binding_connection_check _ _ _ = None) into Hc.
  destruct (ri_projections _ Hi) as [Hpos Hdom]. constructor; simpl; eauto with reg.
  - intros id b0. rewrite lookup_insert_Some. intros [[<- <-]|[_ Hb]]; [|by apply (ri_linked _ Hi id)].
    unfold binding_linked. simpl. rewrite Hd. apply andb_true_iff. split; [by guards; apply bool_decide_eq_true|].
    unfold binding_connection_check in Hc. apply orb_true_iff. destruct (b_ConnectionID b' != "") eqn:E; guards; [right|by left; apply bool_decide_eq_true].
    destruct (r_connections s !! b_ConnectionID b') as [c|]; [|done]. unfold refuse in Hc. destruct (c_DefinitionID c != _) eqn:Ec; [done|]. guards. by apply bool_decide_eq_true.
  - split.
    + intros k. rewrite raise_spec. pose proof (Hpos k). destruct (decide (binding_scope b' = k)); lia.
    + intros id b0. rewrite lookup_insert_Some, raise_spec. intros [[<- <-]|[_ Hb]]; [rewrite decide_True by done; lia|].
      pose proof (Hdom _ _ Hb). destruct (decide (binding_scope b' = binding_scope b0)); lia.
Qed.

Lemma PutWorkloadInstance_keeps w : keeps 0 (PutWorkloadInstance w).
Proof. intros s Hi _. unfold PutWorkloadInstance. wp_run; try done. apply workloads_inv; [done|]. apply keyed_insert; eauto with reg. Qed.

(** * Loading *)

(** What holds of a registry while a file is read into it. *)
Record load_inv (s : Reg) : Prop := {
  li_definitions : keyed (λ d, definitionKey (td_DefinitionID d) (td_Version d)) (r_definitions s);
  li_connections : keyed c_ConnectionID (r_connections s);
  li_credentials : keyed cr_CredentialRefID (r_credentials s);
  li_bindings : keyed b_ToolBindingID (r_bindings s);
  li_workloads : keyed w_WorkloadID (r_workloads s);
  li_books : books s;
  li_mirror : r_connStatus s = c_Status <$> r_connections s;
  li_projections : ∀ k, 0 ≤ revision_of (r_projections s) k;
}.
Definition loads {A} (m : RM A) : Prop := ∀ s, load_inv s → wp m (λ r s', is_Some (match r with Ok a => Some a | Err _ => None end) → load_inv s') s.

Lemma loads_bind {A B} (m : RM A) (f : A → RM B) : loads m → (∀ a, loads (f a)) → loads (m ≫= f).
Proof.
  intros Hm Hf s Hi. apply wp_bind. eapply wp_mono; [by apply Hm|]. intros [a|e] s' Hs; [|by intros []].
  eapply Hf, Hs. eauto.
Qed.
Lemma loads_each {A} (f : A → RM unit) l : (∀ x, x ∈ l → loads (f x)) → loads (for_each l f).
Proof.
  induction l as [|x l IH]; intros Hf; [by intros s Hi _|]. apply loads_bind; [apply Hf; set_solver|]. intros []. apply IH. set_solver.
Qed.
Lemma loads_steady {A} (m : RM A) : steady m → loads m.
Proof.
  intros Hm s Hi. eapply wp_mono; [apply Hm, (li_books _ Hi)|]. intros r s' (Hs & _ & Hb) _. specialize (Hb (li_books _ Hi)). destruct s, s', Hi. unfold core in Hs. simpl in *. simplify_eq. by constructor.
Qed.
Lemma loads_put {A} (f : A → Reg → Reg) v x : (∀ s, load_inv s → load_inv (f x s)) → loads (valid_or v ;; modify (f x)).
Proof. intros Hf s Hi. wp_run; [by intros []|]. intros _. by apply Hf. Qed.

Lemma load_change_loads c : loads (load_change c).
Proof.
  unfold load_change. intros s Hi. apply wp_bind, wp_get. cbn beta iota. revert s Hi.
  assert (Hput : loads (match c with ChPolicy p => PutCapabilityPolicy p | ChProfile p => PutCapabilityProfile p | ChGrant g => PutGrant g end)).
  { destruct c; apply loads_steady; eauto using PutCapabilityPolicy_steady, PutCapabilityProfile_steady, PutGrant_steady. }
  intros s Hi. apply (loads_bind _ _ Hput); [|done]. intros []. apply loads_bind; [by intros s' Hi'; apply wp_get|]. intros after. apply loads_steady, steady_fail.
Qed.

Lemma load_onboarding_steady o : steady (load_onboarding o).
Proof. unfold load_onboarding. steady; destruct (bool_decide (is_Some _)); (split_and!; [done|by intros; left|intros ?; shelves; books_tac]). Qed.

Ltac load_row := intros s Hi; wp_run; (try by intros []); intros _; destruct Hi; constructor; simpl; eauto with reg.

Lemma load_rows_loads d : (∀ k v, sn_Projections d !! k = Some v → 0 ≤ v) → loads (load_rows d).
Proof.
  intros Hd. unfold load_rows. repeat (apply loads_bind; [|intros ?]); try (apply loads_each; intros x Hx); try apply loads_steady, steady_fail.
  - unfold RegisterDefinition. load_row.
  - apply load_change_loads.
  - unfold load_credential. load_row.
  - unfold load_connection. load_row. rewrite fmap_insert. by f_equal.
  - unfold load_binding. load_row.
  - unfold load_workload. load_row.
  - unfold load_projection. load_row. intros k. rewrite revision_insert. case_decide; [|done]. destruct x as [k' v]. apply range_elem in Hx. by eapply Hd.
  - apply loads_steady. unfold load_binding_change. steady.
  - apply loads_steady. unfold load_grant. steady.
  - apply loads_steady, load_onboarding_steady.
  - apply loads_steady. unfold load_operation. steady.
  - apply loads_steady. unfold load_recipe. steady.
  - apply loads_steady. unfold load_publication. steady.
  - apply loads_steady. unfold load_shared_policy. steady.
  - apply loads_steady. unfold load_team. steady.
  - apply loads_steady. unfold load_broker_grant. steady.
Qed.

(** Raising the projections above those of the bindings. *)
Lemma raise_all_spec l m :
  (∀ k, revision_of m k ≤ revision_of (fold_left (λ m '(_, b), raise_projection b m) l m) k) ∧
  ∀ (id : string) b, (id, b) ∈ l → b_ProjectionRevision b ≤ revision_of (fold_left (λ m '(_, b), raise_projection b m) l m) (binding_scope b).
Proof.
  revert m. induction l as [|[id b] l IH]; intros m; simpl; [split; [done|set_solver]|].
  destruct (IH (raise_projection b m)) as [Hm Hl]. split.
  - intros k. specialize (Hm k). rewrite raise_spec in Hm. case_decide; lia.
  - intros i c [[= -> ->]|Hc]%elem_of_cons; [|by eapply Hl]. specialize (Hm (binding_scope b)). rewrite raise_spec, decide_True in Hm by done. lia.
Qed.

Lemma raise_inv s s' : load_inv s → validateLocked (raise_projections s) = true → core s' = core (raise_projections s) → shelf s' = shelf s →
  (∀ d st, r_disk s' = Some (d, st) → ∀ k v, sn_Projections d !! k = Some v → 0 ≤ v) → reg_inv s'.
Proof.
  intros [] Hv Hc Hsh Hd. apply shelf_books in Hsh; [|done]. destruct (raise_all_spec (rw_range 40 (r_bindings s)) (r_projections s)) as [Hm Hl].
  unfold validateLocked in Hv. apply andb_true_iff in Hv as [Hv _]. rewrite forallb_forall in Hv.
  assert (Hlead : leads (r_bindings s) (r_projections (raise_projections s))).
  { split; simpl; [intros k; specialize (Hm k); specialize (li_projections0 k); lia|]. intros id b Hb. eapply (Hl id). by apply range_elem. }
  assert (Hlink : ∀ id b, r_bindings s !! id = Some b → binding_linked s b = true).
  { intros id b Hb. apply (Hv (id, b)). by apply list_elem_of_In, elem_of_map_to_list. }
  clear Hv Hm Hl. destruct s, s'. unfold core in Hc. simpl in *. simplify_eq. by constructor.
Qed.

(** The projections of a file are numbers without a sign. *)
Definition unsigned (file : option (Snap * (Z * Z))) : Prop := ∀ d st, file = Some (d, st) → ∀ k v, sn_Projections d !! k = Some v → 0 ≤ v.

(** A registry that loads satisfies the invariant, whoever wrote the file. *)
Lemma Load_inv file s : Load file = Ok s → unsigned file → reg_inv s ∧ r_disk s = file.
Proof.
  unfold Load. destruct rw_read_fails; [done|]. destruct file as [[d st]|]; [|done]. intros Hl Hu.
  destruct (load_tables d NewStore) as [[[]|e] s1] eqn:E; [|done]. simplify_eq. split; [|done].
  unfold load_tables in E. assert (Hn : load_inv NewStore) by (constructor; simpl; eauto with reg; done).
  pose proof (load_rows_loads d (Hu d st eq_refl) NewStore Hn) as Hrows. unfold wp in Hrows.
  unfold mbind, M_bind in E. destruct (load_rows d NewStore) as [[[]|e] s2]; [|done]. specialize (Hrows (ex_intro _ _ eq_refl)).
  simpl in E. destruct (validateLocked (raise_projections s2)) eqn:Hv; [|done]. injection E as <-.
  eapply raise_inv; [exact Hrows|exact Hv|reflexivity|reflexivity|]. simpl. exact Hu.
Qed.

Lemma adopt_inv fresh s : reg_inv fresh → reg_inv s → reg_inv (adopt fresh s).
Proof. intros Hf Hi. pose proof (ri_disk _ Hi). pose proof (ri_books _ Hi). destruct Hf. shelves. by constructor. Qed.

(** Room for two rounds of new projections, here and in the file. *)
Definition room (s : Reg) : Prop := roomy 2 s ∧ ∀ fresh, Load (r_disk s) = Ok fresh → roomy 2 fresh.

Lemma wp_Reload s : reg_inv s → wp Reload (λ _ s', reg_inv s' ∧ (room s → roomy 2 s')) s.
Proof.
  intros Hi. unfold Reload, room. wp_run; [tauto|]. destruct (Load (r_disk s)) as [fresh|e] eqn:El; wp_run; [tauto| |tauto].
  destruct (Load_inv _ _ El) as [Hfi _]; [exact (ri_disk _ Hi)|]. pose proof (adopt_inv _ _ Hfi Hi) as Ha.
  eapply wp_mono; [by apply leaves_stopWorkloads|]. intros [e|e] s' [Ht Hi']; wp_run; (split; [done|]); intros [_ Hf]; (eapply tables_room; [exact Ht|]);
    exact (Hf _ eq_refl).
Qed.

Lemma Reload_keeps n : keeps n Reload.
Proof. intros s Hi _. eapply wp_mono; [by apply wp_Reload|]. by intros r s' [? _]. Qed.

(** ** Operations on the loaded registry *)

Lemma noteRecovery_keeps e : keeps 1 (noteRecovery e).
Proof.
  intros s Hi Hr. unfold noteRecovery. destruct (ef_Connection e) as [c0|]; wp_run; [done| |done]. destruct (r_workloads s !! _) as [w|]; wp_run; [done| |done].
  destruct (r_connections s !! c_ConnectionID c0) as [c|] eqn:Hc; wp_run; [| |done].
  - apply wp_try. eapply wp_mono; [apply markDegraded_keeps|]; [|done|].
    + simpl. rewrite <-(ri_connections _ Hi _ _ Hc). by eapply connections_inv.
    + intros r s' Hi'. by wp_run.
  - apply leaves_keeps; [eauto with reg|]. simpl. rewrite <-(ri_connections _ Hi _ _ Hc). by eapply connections_inv.
Qed.

Lemma Authorize_keeps auth id s : reg_inv s → room s → wp (Authorize auth id) (λ _ s', reg_inv s') s.
Proof.
  intros Hi Hr. unfold Authorize. wp_run; [done|]. eapply wp_mono; [by apply wp_Reload|]. intros [[]|e] s1 [Hi1 Hr1]; [|done]. specialize (Hr1 Hr). wp_run.
  destruct (resolveLocked s1 auth id) as [ef|e]; [|done]. wp_run.
  eapply wp_mono; [apply noteRecovery_keeps; [done|]|]; [intros k; specialize (Hr1 k); lia|]. intros [[]|e] s2 Hi2; [|done]. wp_run. done.
Qed.

(** ** Migration *)

Definition moved (to : string) (b : ToolBinding) : ToolBinding := set_b_Revision (u64 (b_Revision b + 1)) (set_b_PolicyVersion to b).

(** A migration touches the bindings it picks, and notes them. *)
Lemma migrate_touch site pick to s :
  ∃ log, (migrate_where site pick to s).2 = set_r_bindingChanges log (touch_where site (λ b, if pick b then Some (moved to b) else None) s).
Proof.
  unfold migrate_where, touch_where. assert (Hl : ∀ (l : list (string * ToolBinding)) (n : Z) (s1 s2 : Reg) log, s1 = set_r_bindingChanges log s2 →
    ∃ log', (fold_left (λ '(n, s) '(id, b), if pick b then
        let b' := set_b_Revision (u64 (b_Revision b + 1)) (set_b_PolicyVersion to b) in
        let s := touch_binding id b' s in
        (n + 1, set_r_bindingChanges (r_bindingChanges s ++ [mkBindingChange (b_ToolBindingID b') (b_PolicyVersion b) to (b_Revision b')])%list s)
      else (n, s)) l (n, s1)).2
    = set_r_bindingChanges log' (fold_left (λ s '(id, b), match (if pick b then Some (moved to b) else None) with Some b => touch_binding id b s | None => s end) l s2)).
  { induction l as [|[id b] l IH]; intros n s1 s2 log E; simpl; [by exists log|]. destruct (pick b); [|by eapply IH].
    eapply IH. rewrite E. unfold touch_binding. done. }
  eapply (Hl _ 0 s s (r_bindingChanges s)). by destruct s.
Qed.

Lemma moved_link (pick : ToolBinding → bool) to : keeps_link (λ b, if pick b then Some (moved to b) else None).
Proof. intros b b'. destruct (pick b); [|done]. intros [= <-]. by constructor. Qed.

Lemma migrate_room site pick to s n : leads (r_bindings s) (r_projections s) → roomy 1 s → roomy (S n) s → roomy n (migrate_where site pick to s).2.
Proof.
  intros Hl H1' Hr. destruct (migrate_touch site pick to s) as [log ->].
  assert (Ht := touch_where_spec site _ s (moved_link pick to) Hl H1'). by apply (touched_room _ _ _ n Ht).
Qed.

Lemma migrate_inv site pick to s : reg_inv s → roomy 1 s → reg_inv (migrate_where site pick to s).2.
Proof.
  intros Hi Hr. destruct (migrate_touch site pick to s) as [log ->].
  destruct (touch_where_inv site (λ b, if pick b then Some (moved to b) else None) s 0 (moved_link pick to) Hi Hr) as [Ht _].
  destruct Ht. by constructor.
Qed.

Lemma persist_or_reload_keeps n : keeps n persist_or_reload.
Proof.
  intros s Hi Hr. unfold persist_or_reload. apply wp_bind, wp_try. eapply wp_mono; [by apply leaves_persist|]. intros [[]|e] s1 [Ht Hi1]; [done|].
  apply wp_bind, wp_try. eapply wp_mono; [apply (Reload_keeps n); [done|by eapply tables_room]|]. intros r s2 Hi2. by wp_run.
Qed.

Lemma migrateOnce_keeps p c r from to : keeps 1 (migrateOnce p c r from to).
Proof.
  intros s Hi Hr. unfold migrateOnce. apply wp_bind, wp_locked. apply wp_bind. eapply wp_mono; [apply (persist_or_reload_keeps 0)|].
  - by apply migrate_inv.
  - apply migrate_room; [by apply ri_projections|done|done].
  - intros [[]|e] s' Hi'; by wp_run.
Qed.
Lemma migrateProjectionOnce_keeps p c r to : keeps 1 (migrateProjectionOnce p c r to).
Proof.
  intros s Hi Hr. unfold migrateProjectionOnce. apply wp_bind, wp_locked. apply wp_bind, wp_get. cbn beta iota.
  set (s1 := (migrate_where 45 _ to s).2). assert (Hi1 : reg_inv s1) by (by apply migrate_inv). wp_run; [done|].
  eapply wp_mono; [apply (persist_or_reload_keeps 0); [done|]|].
  - apply migrate_room; [by apply ri_projections|done|done].
  - intros [[]|e] s' Hi'; by wp_run.
Qed.

(** ** Reading operations *)

Ltac reading := repeat first [wp_step | case_match]; try done.

Lemma reload_then {A} n (f : unit → RM A) : (∀ a s, wp (f a) (λ _ s', s' = s) s) → keeps n (Reload ≫= f).
Proof.
  intros Hf s Hi Hr. apply wp_bind. eapply wp_mono; [by apply (Reload_keeps n)|]. intros [a|e] s1 Hi1; [|done].
  eapply wp_mono; [apply Hf|]. by intros r s2 ->.
Qed.
Lemma fail_then {A} n b e (f : unit → RM A) : (∀ a, keeps n (f a)) → keeps n (fail_if b e ≫= f).
Proof. intros Hf s Hi Hr. wp_run; [done|]. by apply Hf. Qed.

Lemma Resolve_keeps auth id : keeps 0 (Resolve auth id).
Proof. apply fail_then. intros _. apply reload_then. intros a s. reading. Qed.
Lemma ListProjectedTools_keeps clock auth : keeps 0 (ListProjectedTools clock auth).
Proof. apply reload_then. intros a s. reading. Qed.
Lemma lockCapabilityAdmission_same s : wp lockCapabilityAdmission (λ _ s', s' = s) s.
Proof. unfold lockCapabilityAdmission. reading. Qed.
Lemma AuthorizeProjectedCall_keeps clock auth name arguments : keeps 0 (AuthorizeProjectedCall clock auth name arguments).
Proof.
  apply fail_then. intros _. apply reload_then. intros a s. apply wp_if; intros _; [|reading].
  apply wp_bind. eapply wp_mono; [apply lockCapabilityAdmission_same|]. intros [[]|e] s' ->; reading.
Qed.
Lemma RequireCatalogAccess_keeps clock auth d : keeps 0 (RequireCatalogAccess clock auth d).
Proof. apply fail_then. intros _. apply reload_then. intros a s. reading. Qed.
Lemma RequireSelfInstall_keeps auth : keeps 0 (RequireSelfInstall auth).
Proof. apply fail_then. intros _. apply reload_then. intros a s. reading. Qed.
Lemma AllowedControlOperations_keeps auth : keeps 0 (AllowedControlOperations auth).
Proof. apply fail_then. intros _. apply reload_then. intros a s. reading. Qed.

Lemma keeps_run {A} n (m : RM A) s : keeps n m → reg_inv s → roomy n s → reg_inv (m s).2.
Proof. intros Hm Hi Hr. specialize (Hm s Hi Hr). unfold wp in Hm. by destruct (m s). Qed.
Lemma Reload_keeps_0 : keeps 0 Reload.
Proof. apply Reload_keeps. Qed.
End Rows.

Create HintDb reg_keeps.
#[export] Hint Resolve RegisterDefinition_keeps PutCredentialReference_keeps PutConnection_keeps PutBinding_keeps PutWorkloadInstance_keeps
  PutTeam_keeps DropTeamConnection_keeps RecordBrokerGrant_keeps RotateCredential_keeps RotateCredentialRecord_keeps SetConnectionStatus_keeps
  setMigrateRequest_keeps markReauth_keeps markDegraded_keeps observeCredentialCheck_keeps deferCheck_keeps clearCheck_keeps observeDrift_keeps
  restore_keeps AcceptConnectionDrift_keeps SetTerminalExposure_keeps SetBindingStatus_keeps RemoveBindingRecords_keeps EnableToolsets_keeps
  migrateOnce_keeps migrateProjectionOnce_keeps Reload_keeps_0 Resolve_keeps ListProjectedTools_keeps AuthorizeProjectedCall_keeps
  RequireCatalogAccess_keeps RequireSelfInstall_keeps AllowedControlOperations_keeps : reg_keeps.
#[export] Hint Resolve PutPublication_steady PutSharedCredentialPolicy_steady PutOnboarding_steady ClaimPreparingOnboarding_steady PutOperation_steady
  PromoteToCatalog_steady PutRecipe_steady Sweep_steady PutGrant_steady PutCapabilityPolicy_steady PutCapabilityProfile_steady steady_persist : reg_keeps.

Section Steps.
Context `{ToolWorld} `{Unicode} `{LargeSort} `{SnapDigest} `{RegWorld} {MM : Mirrored}.

(** * Steps *)

(** The operations of the registry, with what a call of them must respect. *)
Inductive reg_op (s : Reg) : ∀ A : Type, RM A → Prop :=
| op_RegisterDefinition d : reg_op s _ (RegisterDefinition d)
| op_PutCredentialReference r : reg_op s _ (PutCredentialReference r)
| op_PutConnection c : reg_op s _ (PutConnection c)
| op_PutBinding b : reg_op s _ (PutBinding b)
| op_PutWorkloadInstance w : reg_op s _ (PutWorkloadInstance w)
| op_PutPublication p : reg_op s _ (PutPublication p)
| op_PutSharedCredentialPolicy p : reg_op s _ (PutSharedCredentialPolicy p)
| op_PutOnboarding o : reg_op s _ (PutOnboarding o)
| op_ClaimPreparingOnboarding o age now : reg_op s _ (ClaimPreparingOnboarding o age now)
| op_PutOperation o : reg_op s _ (PutOperation o)
| op_PromoteToCatalog d v o : reg_op s _ (PromoteToCatalog d v o)
| op_PutRecipe r : reg_op s _ (PutRecipe r)
| op_SweepConnectionOnboardings id e : reg_op s _ (SweepConnectionOnboardings id e)
| op_PutGrant g : reg_op s _ (PutGrant g)
| op_PutCapabilityPolicy p : reg_op s _ (PutCapabilityPolicy p)
| op_PutCapabilityProfile p : reg_op s _ (PutCapabilityProfile p)
| op_PutTeam t : reg_op s _ (PutTeam t)
| op_ShareTeamConnection team d v backend locator ctx ks : share_distinct s team d v → reg_op s _ (ShareTeamConnection team d v backend locator ctx ks)
| op_DropTeamConnection id : reg_op s _ (DropTeamConnection id)
| op_RecordBrokerGrant g : reg_op s _ (RecordBrokerGrant g)
| op_RotateCredential id backend locator ks : reg_op s _ (RotateCredential id backend locator ks)
| op_RotateCredentialRecord r : reg_op s _ (RotateCredentialRecord r)
| op_SetConnectionStatus id status : reg_op s _ (SetConnectionStatus id status)
| op_setMigrateRequest id request : reg_op s _ (setMigrateRequest id request)
| op_markReauth id e observed : reg_op s _ (markReauthIfCurrent id e observed)
| op_markDegraded id e label observed : reg_op s _ (markDegradedIfCurrent id e label observed)
| op_observeCredentialCheck e v cause t : reg_op s _ (observeCredentialCheckIfCurrent e v cause t)
| op_deferCheck e stage t : reg_op s _ (deferCheckIfCurrent e stage t)
| op_clearCheckRetry e stage : reg_op s _ (clearCheckRetryIfCurrent e stage)
| op_observeDrift id e label v : reg_op s _ (observeDriftIfCurrent id e label v)
| op_restoreApprovedSurface e pinned : reg_op s _ (restoreApprovedSurfaceIfCurrent e pinned)
| op_AcceptConnectionDrift id : reg_op s _ (AcceptConnectionDrift id)
| op_SetTerminalExposure id enabled : reg_op s _ (SetTerminalExposure id enabled)
| op_SetBindingStatus id status : reg_op s _ (SetBindingStatus id status)
| op_RemoveBindingRecords id : reg_op s _ (RemoveBindingRecords id)
| op_EnableToolsets auth id sets : reg_op s _ (EnableToolsets auth id sets)
| op_migrateOnce p c r from to : reg_op s _ (migrateOnce p c r from to)
| op_migrateProjectionOnce p c r to : reg_op s _ (migrateProjectionOnce p c r to)
| op_persist : reg_op s _ persist
| op_Reload : reg_op s _ Reload
| op_Resolve auth id : reg_op s _ (Resolve auth id)
| op_Authorize auth id : reg_op s _ (Authorize auth id)
| op_ListProjectedTools clock auth : reg_op s _ (ListProjectedTools clock auth)
| op_AuthorizeProjectedCall clock auth name arguments : reg_op s _ (AuthorizeProjectedCall clock auth name arguments)
| op_RequireCatalogAccess clock auth d : reg_op s _ (RequireCatalogAccess clock auth d)
| op_RequireSelfInstall auth : reg_op s _ (RequireSelfInstall auth)
| op_AllowedControlOperations auth : reg_op s _ (AllowedControlOperations auth).

Lemma roomy_le n m s : (m ≤ n)%nat → roomy n s → roomy m s.
Proof. intros Hle Hr k. specialize (Hr k). nia. Qed.

Lemma op_keeps s A (m : RM A) : reg_op s A m → reg_inv s → room s → reg_inv (m s).2.
Proof.
  intros Hop Hi Hr. pose proof Hr as [H2' _]. pose proof (roomy_le 2 1 s ltac:(lia) H2') as H1'. pose proof (roomy_le 2 0 s ltac:(lia) H2') as H0'.
  destruct Hop; try (eapply keeps_run; [solve [eauto with reg_keeps]|exact Hi|assumption]);
    try solve [eapply (keeps_run 0); [apply steady_keeps; solve [eauto with reg_keeps]|exact Hi|assumption]].
  - pose proof (ShareTeamConnection_keeps team d v backend locator ctx ks s Hi) as Hk. unfold wp in Hk. destruct (ShareTeamConnection _ _ _ _ _ _ _ s). by apply Hk.
  - pose proof (Authorize_keeps auth id s Hi Hr) as Hk. unfold wp in Hk. by destruct (Authorize auth id s).
Qed.
End Steps.

Section System.
Context `{ToolWorld} `{Unicode} `{LargeSort} `{SnapDigest}.

(** A step: an operation in some world while the projections have room, or another process
    replacing the file. *)
Inductive reg_step (s : Reg) : Reg → Prop :=
| rs_op (W : RegWorld) A (m : RM A) : room s → reg_op s A m → reg_step s (m s).2
| rs_foreign file : unsigned file → reg_step s (set_r_disk file s).

(** A [Reload] that is overtaken: it replaces the mirror after it has given up the lock of the
    tables, by then with the statuses of a file of the past. *)
Inductive reg_step_late (s : Reg) : Reg → Prop :=
| rl_step s' : reg_step s s' → reg_step_late s s'
| rl_mirror (W : RegWorld) file fresh : unsigned file → Load file = Ok fresh → reg_step_late s (set_r_connStatus (r_connStatus fresh) s).

(** A new registry, in memory, or one loaded from a file. *)
Inductive reg_start : Reg → Prop :=
| start_new : reg_start NewStore
| start_load (W : RegWorld) file s : unsigned file → Load file = Ok s → reg_start s.

Lemma step_inv {MM : Mirrored} s s' : reg_step s s' → reg_inv s → reg_inv s'.
Proof.
  intros Hs Hi. destruct Hs as [W A m Hr Hop|file Hu].
  - by apply (op_keeps s A m).
  - destruct Hi. by constructor.
Qed.

Lemma start_inv {MM : Mirrored} s : reg_start s → reg_inv s.
Proof. intros [|W file s' Hu Hl]; [apply NewStore_inv|]. by apply (Load_inv file s'). Qed.

(** A state that a run of the registry reaches. *)
Definition reg_reachable (s : Reg) : Prop := ∃ s0, reg_start s0 ∧ rtc reg_step s0 s.

(** One that it reaches when reloads may be overtaken. *)
Definition reg_reachable_late (s : Reg) : Prop := ∃ s0, reg_start s0 ∧ rtc reg_step_late s0 s.

Lemma reg_reachable_inv {MM : Mirrored} s : reg_reachable s → reg_inv s.
Proof. intros (s0 & Hs & Hrun). apply start_inv in Hs. induction Hrun; eauto using step_inv. Qed.

(** When the mirror does not count, an overtaken [Reload] changes nothing of the invariant. *)
Lemma late_inv s : reg_reachable_late s → reg_inv (MM := False) s.
Proof.
  intros (s0 & Hs & Hrun). apply (start_inv (MM := False)) in Hs.
  induction Hrun as [|s1 s2 s3 Hstep _ IH]; [done|]. apply IH. destruct Hstep as [s2 Hstep|W file fresh _ _].
  - by eapply (step_inv (MM := False)).
  - destruct Hs. by constructor.
Qed.

(** C12. Invariant of the registry, over every run from a new store or a loaded file, with its
    operations in any order, failing saves, files replaced by other processes and reloads that
    replace the status mirror too late. Every definition, connection, credential, binding,
    workload, policy, profile, grant, onboarding, operation, publication, shared policy, team
    and broker grant lies under its own key; every binding has its definition, in its workload
    class, and its connection, which serves the same definition; and each runtime's projection
    revision is at least that of each of its bindings. In the runs in which no other operation
    comes between the two critical sections of a [Reload], the lock-free status mirror agrees
    with the connections. The runs are those in which the projection revisions stay clear of
    the end of their 64 bits ([room]), and in which a team's connection is shared under an id
    that no connection of another definition has taken ([share_distinct]). *)
Theorem registry_invariant s :
  (reg_reachable_late s →
     keyed (λ d, definitionKey (td_DefinitionID d) (td_Version d)) (r_definitions s) ∧ keyed c_ConnectionID (r_connections s) ∧
     keyed cr_CredentialRefID (r_credentials s) ∧ keyed b_ToolBindingID (r_bindings s) ∧ keyed w_WorkloadID (r_workloads s) ∧
     keyed po_PolicyID (r_policies s) ∧ keyed pf_ProfileID (r_profiles s) ∧ keyed g_GrantID (r_grants s) ∧
     keyed ob_OnboardingID (r_onboardings s) ∧ keyed op_OperationID (r_operations s) ∧
     keyed (λ p, definitionKey (pb_DefinitionID p) (pb_Version p)) (r_publications s) ∧ keyed sp_PolicyID (r_sharedPolicies s) ∧
     keyed t_TeamID (r_teams s) ∧ keyed bg_BindingID (r_brokerGrants s) ∧
     ∀ id b, r_bindings s !! id = Some b →
       (∃ d, r_definitions s !! definitionKey (b_DefinitionID b) (b_DefinitionVersion b) = Some d ∧ td_Class d = b_WorkloadClass b) ∧
       (b_ConnectionID b = "" ∨ ∃ c, r_connections s !! b_ConnectionID b = Some c ∧ c_DefinitionID c = b_DefinitionID b) ∧
       b_ProjectionRevision b ≤ revision_of (r_projections s) (binding_scope b)) ∧
  (reg_reachable s → ∀ id, r_connStatus s !! id = c_Status <$> r_connections s !! id).
Proof.
  split.
  - intros Hi%late_inv. pose proof (books_all _ (ri_books _ Hi)) as (? & ? & ? & ? & ? & ? & ? & ? & ?). split_and!; eauto with reg.
    intros id b Hb. pose proof (ri_linked _ Hi _ _ Hb) as Hl. unfold binding_linked in Hl. apply andb_true_iff in Hl as [Hd Hc]. split_and!.
    + destruct (r_definitions s !! _) as [d|]; [|done]. guards. eauto.
    + apply orb_true_iff in Hc as [Hc|Hc]; [left; by guards|right]. destruct (r_connections s !! _) as [c|]; [|done]. guards. eauto.
    + by eapply (ri_projections _ Hi).
  - intros Hi%(reg_reachable_inv (MM := True)) id. by rewrite (ri_mirror _ Hi I), lookup_fmap.
Qed.
End System.

(** The other theorems are about runs that keep the mirror in step. *)
#[export] Instance mirror_kept : Mirrored := True.
