(* ===== verification/RegProps.v ===== *)
(** Theorems about the tool registry: who a binding resolves for, that taking a connection
    out of service cuts it off, and that grants are decided whatever the order of the table. *)
From stdpp Require Import base gmap strings list sorting.
From Stdlib Require Import Ascii String.
From S2P Require Import Prelude GoStrings Governance GovernanceProps RoutineTypes Schedules ToolTypes Capability CapabilityProps RegStore RegOps RegLoad RegAccess RegInv RegKeeps RegSystem.
Local Open Scope string_scope.
Local Open Scope Z_scope.

Lemma one_of_elem x l : one_of x l = true ↔ x ∈ l.
Proof. unfold one_of. rewrite existsb_exists. split; [intros (y & Hy & E); guards; subst; by apply list_elem_of_In|].
  intros Hx. exists x. split; [by apply list_elem_of_In|by apply bool_decide_eq_true]. Qed.

(** * Resolution *)

Section Resolve.
Context `{ToolWorld} `{Unicode} `{LargeSort} `{SnapDigest} `{RegWorld}.
Implicit Types (s : Reg) (auth : Envelope) (b : ToolBinding) (c : Connection) (e : EffectiveBinding).

(** Why a caller may use a connection: it is the caller's own, or that of a shared credential
    policy that lists the caller, or that of an active team the caller is a member of. *)
Definition may_use s auth c : Prop :=
  Matches (c_Owner c) auth = true ∨
  (∃ p, r_sharedPolicies s !! meta c "shared_policy" = Some p ∧ sp_Status p = ActiveStatus ∧ sp_DefinitionID p = c_DefinitionID c ∧
        sp_StoreOwner p = ow_ID (c_Owner c) ∧ e_PrincipalID auth ∈ sp_Principals p) ∨
  (∃ t, ow_Type (c_Owner c) = TeamOwner ∧ r_teams s !! ow_ID (c_Owner c) = Some t ∧ t_Status t = ActiveStatus ∧ e_PrincipalID auth ∈ t_Members t).

(** The credential of a call is one of the connection's, live, at the revision the binding
    pins or the one the connection names, and with the inputs the definition asks for. *)
Definition credential_current s (d : ToolDefinition) b c (r : CredentialReference) : Prop :=
  cr_Status r = ActiveStatus ∧ cr_ConnectionID r = c_ConnectionID c ∧
  (r_credentials s !! b_CredentialRefID b = Some r ∧ cr_Revision r = b_CredentialRevision b ∨ r_credentials s !! c_CredentialRefID c = Some r) ∧
  CredentialsSatisfied d (λ name, one_of name (cr_Keys r)) = true.

Lemma covers_may_use s auth c :
  Matches (c_Owner c) auth = true ∨ sharedConnectionCoversLocked s auth c = true ∨ teamConnectionCoversLocked s auth c = true → may_use s auth c.
Proof.
  intros [?|[Hs|Ht]]; [by left|right; left|right; right].
  - unfold sharedConnectionCoversLocked in Hs. destruct (_ == _); [done|]. destruct (r_sharedPolicies s !! _) as [p|]; [|done].
    guards. rename select (one_of _ _ = true) into Hm. apply one_of_elem in Hm. eauto 8.
  - unfold teamConnectionCoversLocked in Ht. guards. destruct (r_teams s !! _) as [t|]; [|done]. unfold IsMember in *. guards.
    rename select (one_of _ _ = true) into Hm. apply one_of_elem in Hm. eauto 8.
Qed.

Lemma resolve_credential_ok s d b c team r : resolve_credential s d b c team = Ok r →
  (td_Credentials d = [] ∧ r = None) ∨ ∃ r', r = Some r' ∧ credential_current s d b c r'.
Proof.
  unfold resolve_credential. destruct (bool_decide (td_Credentials d = [])) eqn:Ed; guards; [intros [= <-]; by left|].
  destruct (_ || _); [done|]. destruct (r_credentials s !! _) as [r'|] eqn:Er; [|done]. destruct (_ || _) eqn:E1; [done|].
  destruct (negb team && _) eqn:E2; [done|]. destruct (negb (CredentialsSatisfied _ _)) eqn:E3; [done|]. intros [= <-]. right. exists r'. guards.
  split; [done|]. split_and!; try done. destruct team; [by right|left]. simpl in E2. guards. done.
Qed.

Lemma resolve_connection_ok s auth b d c e : resolve_connection s auth b d c = Ok e →
  ef_Binding e = b ∧ ef_Definition e = d ∧ ef_Connection e = Some c ∧ c_Status c = ActiveStatus ∧ c_DefinitionID c = td_DefinitionID d ∧
  may_use s auth c ∧ (teamConnectionCoversLocked s auth c = false → c_Revision c = b_ConnectionRevision b) ∧
  (td_Credentials d = [] ∧ ef_Credential e = None ∨ ∃ r, ef_Credential e = Some r ∧ credential_current s d b c r).
Proof.
  unfold resolve_connection. set (team := teamConnectionCoversLocked s auth c). destruct (_ && _) eqn:Eown; [done|].
  destruct (c_Status c == RevokedStatus); [done|]. destruct (c_Status c == DegradedStatus); [done|].
  destruct (negb team && _) eqn:E1; [done|]. destruct (team && _) eqn:E2; [done|].
  destruct (resolve_credential s d b c team) as [r|] eqn:Er; [|done]. intros [= <-]. simpl.
  assert (Hm : may_use s auth c).
  { apply covers_may_use. fold team. destruct (Matches _ _), (sharedConnectionCoversLocked _ _ _), team; try done; auto. }
  assert (c_Status c = ActiveStatus ∧ c_DefinitionID c = td_DefinitionID d ∧ (team = false → c_Revision c = b_ConnectionRevision b)) as (? & ? & ?).
  { destruct team; simpl in E1, E2; guards; done. }
  apply resolve_credential_ok in Er. split_and!; try done.
Qed.

(** A resolved binding: the row, its definition, and what its connection was found to be. *)
Record resolved s auth (id : string) e : Prop := {
  rv_row : r_bindings s !! id = Some (ef_Binding e);
  rv_active : b_Status (ef_Binding e) = ActiveStatus;
  rv_owner : b_PrincipalID (ef_Binding e) = e_PrincipalID auth ∧ b_ContextID (ef_Binding e) = e_ContextID auth ∧
             b_RuntimeID (ef_Binding e) = e_RuntimeID auth ∧ b_PolicyVersion (ef_Binding e) = e_PolicyVersion auth;
  rv_definition : r_definitions s !! definitionKey (b_DefinitionID (ef_Binding e)) (b_DefinitionVersion (ef_Binding e)) = Some (ef_Definition e) ∧
                  td_Class (ef_Definition e) = b_WorkloadClass (ef_Binding e);
  rv_connection :
    (b_ConnectionID (ef_Binding e) = "" ∧ ef_Connection e = None ∧ ef_Credential e = None ∧ td_Credentials (ef_Definition e) = []) ∨
    ∃ c, r_connections s !! b_ConnectionID (ef_Binding e) = Some c ∧ resolve_connection s auth (ef_Binding e) (ef_Definition e) c = Ok e;
}.

Lemma resolve_ok s auth id e : resolveLocked s auth id = Ok e → resolved s auth id e.
Proof.
  unfold resolveLocked. destruct (negb (auth_ok auth)); [done|]. destruct (negb (ValidID id)); [done|].
  destruct (r_bindings s !! id) as [b|] eqn:Hb; [|done]. destruct (b_Status b == RevokedStatus); [done|].
  destruct (b_Status b != ActiveStatus) eqn:Ea; [done|]. destruct (_ || _) eqn:Eo; [done|].
  destruct (r_definitions s !! _) as [d|] eqn:Hd; [|done]. destruct (td_Class d != _) eqn:Ecl; [done|]. guards. intros Hres.
  destruct (b_ConnectionID b == "") eqn:Ec; guards.
  - destruct (negb (bool_decide (td_Credentials d = []))) eqn:Ecr; [done|]. guards. simplify_eq. constructor; simpl; auto.
  - destruct (r_connections s !! _) as [c|] eqn:Hc; [|done]. pose proof Hres as (Eb & Ed & _)%resolve_connection_ok.
    constructor; rewrite ?Eb, ?Ed; auto. right. eauto.
Qed.

(** C20. Safety: a binding resolves only for its exact principal, context, runtime and policy
    version, while it is active and its definition is the registered one of its workload
    class; if it has a connection, that one is active, serves the definition, and is the
    caller's own, a shared policy's or a team's that lists the caller, at the very revision
    the binding pins unless it is a team's; if the definition needs credentials, the call
    carries a live reference of that connection with all the inputs. *)
Theorem resolve_sound s auth id e : resolveLocked s auth id = Ok e →
  ∃ b d, r_bindings s !! id = Some b ∧ ef_Binding e = b ∧ ef_Definition e = d ∧
    b_Status b = ActiveStatus ∧ b_PrincipalID b = e_PrincipalID auth ∧ b_ContextID b = e_ContextID auth ∧ b_RuntimeID b = e_RuntimeID auth ∧
    b_PolicyVersion b = e_PolicyVersion auth ∧
    r_definitions s !! definitionKey (b_DefinitionID b) (b_DefinitionVersion b) = Some d ∧ td_Class d = b_WorkloadClass b ∧
    ((b_ConnectionID b = "" ∧ ef_Connection e = None ∧ ef_Credential e = None ∧ td_Credentials d = []) ∨
     ∃ c, r_connections s !! b_ConnectionID b = Some c ∧ ef_Connection e = Some c ∧ c_Status c = ActiveStatus ∧ c_DefinitionID c = td_DefinitionID d ∧
       may_use s auth c ∧ (ow_Type (c_Owner c) ≠ TeamOwner → c_Revision c = b_ConnectionRevision b) ∧
       (td_Credentials d = [] ∧ ef_Credential e = None ∨ ∃ r, ef_Credential e = Some r ∧ credential_current s d b c r)).
Proof.
  intros [Hrow Hact (? & ? & ? & ?) [Hd Hcl] Hc]%resolve_ok. exists (ef_Binding e), (ef_Definition e). split_and!; try done.
  destruct Hc as [?|(c & Hc & (_ & _ & E1 & E2 & E3 & E4 & E5 & E6)%resolve_connection_ok)]; [by left|right].
  exists c. split_and!; try done. intros Hne. apply E5. unfold teamConnectionCoversLocked. by rewrite bool_decide_eq_false_2.
Qed.

(** On a connection out of service nothing resolves. *)
Lemma inactive_connection_denies s auth id e c : resolveLocked s auth id = Ok e → r_connections s !! b_ConnectionID (ef_Binding e) = Some c →
  b_ConnectionID (ef_Binding e) ≠ "" → c_Status c = ActiveStatus.
Proof.
  intros [_ _ _ _ [(? & _)|(c' & Hc' & (_ & _ & _ & E & _)%resolve_connection_ok)]]%resolve_ok Hc Hne; [done|]. congruence.
Qed.
End Resolve.

(** * Taking out of service *)

Section Cut.
Context `{ToolWorld} `{Unicode} `{LargeSort} `{SnapDigest} `{RegWorld}.
Implicit Types (s : Reg).

Lemma listed_perm {A} site (key : A → string) (m : gmap string A) : listed site key m ≡ₚ (map_to_list m).*2.
Proof. unfold listed. rewrite SortFunc_perm. change (map snd ?l) with (snd <$> l). by rewrite rw_range_perm. Qed.

(** The file holds the connections and the bindings of the registry. *)
Definition in_file s : Prop :=
  ∃ d st, r_disk s = Some (d, st) ∧ sn_Connections d ≡ₚ (map_to_list (r_connections s)).*2 ∧ sn_Bindings d ≡ₚ (map_to_list (r_bindings s)).*2.

(** What a save leaves alone of the tables and of the calls made, and what it writes. *)
Definition saves (m : RM unit) : Prop := ∀ s, wp m (λ r s',
  tables s' = tables s ∧ r_stops s' = r_stops s ∧ r_revokes s' = r_revokes s ∧ (r = Ok tt → r_path s = true → in_file s')) s.

Lemma persist_saves : saves persist.
Proof.
  intros s. unfold persist, saveLocked. wp_run; split_and!; try done; try congruence.
  intros _ _. eexists _, _. split; [reflexivity|]. split; apply listed_perm.
Qed.

Lemma persistAndNotify_saves : saves persistAndNotify.
Proof.
  intros s. unfold persistAndNotify. apply wp_bind. eapply wp_mono; [apply persist_saves|].
  intros [[]|e] s1 (Ht & Hs & Hr & Hf); [|split_and!; try done]. wp_run. unfold in_file in *.
  destruct (r_reconnect s1) as [[auth last]|]; [unfold Reconcile|]; wp_run; (split_and!; try done); try congruence; intros; by apply Hf.
Qed.

(** The end of a change: the workloads stopped, the registry saved, the grants revoked. *)
Lemma settle_spec save stopped retired : saves save → ∀ s, wp (settle save stopped retired) (λ r s',
  tables s' = tables s ∧ (rw_stopper ≠ None → r_stops s' = (r_stops s ++ stopped)%list) ∧
  (r = Ok tt → rw_broker ≠ None → r_revokes s' = (r_revokes s ++ retired)%list) ∧ (r = Ok tt → r_path s = true → in_file s')) s.
Proof.
  intros Hsv s. unfold settle. apply wp_bind.
  assert (Hstop : wp (stopWorkloads stopped) (λ r s', (∃ b, r = Ok b) ∧ tables s' = tables s ∧ r_revokes s' = r_revokes s ∧
            (rw_stopper ≠ None → r_stops s' = (r_stops s ++ stopped)%list)) s).
  { unfold stopWorkloads. destruct rw_stopper; wp_run; split_and!; eauto; done. }
  eapply wp_mono; [exact Hstop|]. intros r s1 ([b ->] & Ht1 & Hr1 & Hs1). apply wp_bind. eapply wp_mono; [apply Hsv|].
  intros [[]|e] s2 (Ht2 & Hs2 & Hr2 & Hf2); [|split_and!; [congruence| |done..]; intros Hn; rewrite Hs2; by apply Hs1].
  assert (Hp : r_path s1 = r_path s) by (unfold tables in Ht1; congruence).
  unfold revokeGrants. destruct rw_broker as [fails|] eqn:Eb; wp_run; (split_and!; [etrans; [exact Ht2|exact Ht1]|simpl; intros Hn; rewrite Hs2; by apply Hs1|..]);
    try done; simpl; intros _; try (intros _; congruence); intros Hpt; apply Hf2; congruence.
Qed.

(** Nothing resolves on the connection, and nothing of it runs. *)
Definition out_of_service s (id : string) : Prop :=
  (∀ auth bid b e, r_bindings s !! bid = Some b → b_ConnectionID b = id → resolveLocked s auth bid ≠ Ok e) ∧
  (∀ k w b, r_workloads s !! k = Some w → r_bindings s !! w_BindingID w = Some b → b_ConnectionID b = id → running w = false).

Lemma stop_where_stops site p s k w : r_workloads (stop_where site p s).2 !! k = Some w → p w = true → (∀ w0, p (stopped_workload w0) = p w0) → running w = false.
Proof.
  simpl. rewrite lookup_fmap_Some. intros (w0 & <- & _) Hp Hst. destruct (p w0 && running w0) eqn:E; [done|].
  apply andb_false_iff in E as [E|E]; congruence.
Qed.

(** The workloads that ran are among those handed to the stopper. *)
Lemma stop_where_ids site p s k w : r_workloads s !! k = Some w → p w = true → running w = true → w_WorkloadID w ∈ (stop_where site p s).1.
Proof.
  intros Hw Hp Hr. simpl. change (map ?f ?l) with (f <$> l). apply list_elem_of_fmap. exists (k, w). split; [done|]. apply list_elem_of_In, List.filter_In.
  split; [by apply list_elem_of_In, range_elem|]. simpl. by rewrite Hp, Hr.
Qed.

(** A connection parked at its next revision: what [advance_connection] and
    [stopAffectedLocked] leave behind. *)
Record parked s (id : string) (c : Connection) s' (stopped : list string) : Prop := {
  pk_connection : r_connections s' !! id = Some c;
  pk_mirror : r_connStatus s' !! id = Some (c_Status c);
  pk_bindings : ∀ bid b, r_bindings s' !! bid = Some b → b_ConnectionID b = id → ∃ b0, r_bindings s !! bid = Some b0 ∧ b_ConnectionID b0 = id;
  pk_projections : ∀ bid b, r_bindings s !! bid = Some b → b_ConnectionID b = id →
    revision_of (r_projections s) (binding_scope b) < revision_of (r_projections s') (binding_scope b);
  pk_stopped : ∀ k w b, r_workloads s' !! k = Some w → r_bindings s' !! w_BindingID w = Some b → b_ConnectionID b = id → running w = false;
  pk_ids : ∀ k w b, r_workloads s !! k = Some w → r_bindings s !! w_BindingID w = Some b → b_ConnectionID b = id → running w = true → w_WorkloadID w ∈ stopped;
  pk_frame : r_brokerGrants s' = r_brokerGrants s ∧ r_path s' = r_path s;
}.

Lemma park_parked site id c0 c s : reg_inv s → roomy 1 s → r_connections s !! id = Some c0 → c_ConnectionID c = c_ConnectionID c0 →
  parked s id c (stopAffectedLocked id (advance_connection site c s)).2 (stopAffectedLocked id (advance_connection site c s)).1.
Proof.
  intros Hi Hr Hc E. pose proof (ri_connections _ Hi _ _ Hc) as Hid. assert (Eid : c_ConnectionID c = id) by congruence.
  assert (Ht : touched (on_connection id) (put_connection c s) (advance_connection site c s)).
  { unfold advance_connection. rewrite Eid. apply touch_where_spec; [apply on_connection_keeps|apply (ri_projections _ Hi)|done]. }
  pose proof (tc_frame _ _ _ Ht) as Hfr. set (s1 := advance_connection site c s) in *.
  assert (Hbk : ∀ bid b, r_bindings s1 !! bid = Some b → ∃ b0, r_bindings s !! bid = Some b0 ∧ b_ConnectionID b = b_ConnectionID b0).
  { intros bid b Hb. destruct (touched_back _ _ _ _ _ (on_connection_keeps id) Ht Hb) as (b0 & H0' & [[_ ->]|(b1 & p & H1' & ->)]); exists b0; [done|].
    split; [done|]. by apply (on_connection_keeps id) in H1' as [_ _ _ _ ?]. }
  assert (Hfw : ∀ bid b0, r_bindings s !! bid = Some b0 → ∃ b, r_bindings s1 !! bid = Some b ∧ b_ConnectionID b = b_ConnectionID b0).
  { intros bid b0 Hb0. destruct (on_connection id b0) as [b1|] eqn:Eo.
    - destruct (tc_new _ _ _ Ht bid b0 b1 Hb0 Eo) as (p & Hp & _). eexists. split; [exact Hp|]. by apply (on_connection_keeps id) in Eo as [_ _ _ _ ?].
    - exists b0. split; [|done]. by apply (tc_same _ _ _ Ht). }
  constructor.
  - unfold stopAffectedLocked. simpl. rewrite Hfr. simpl. rewrite Eid. by rewrite lookup_insert_eq.
  - unfold stopAffectedLocked. simpl. rewrite Hfr. simpl. rewrite Eid. by rewrite lookup_insert_eq.
  - intros bid b Hb Hbc. destruct (Hbk bid b Hb) as (b0 & ? & E0). exists b0. split; [done|congruence].
  - intros bid b Hb Hbc. destruct (tc_new _ _ _ Ht bid b b Hb) as (p & _ & Hp); [unfold on_connection; by rewrite bool_decide_eq_true_2|]. simpl in *. lia.
  - intros k w b Hw Hb Hbc. eapply (stop_where_stops 20 (workload_on s1 id)); [exact Hw| |done].
    unfold workload_on. change (r_bindings (stopAffectedLocked id s1).2) with (r_bindings s1) in Hb. rewrite Hb. by apply bool_decide_eq_true.
  - intros k w b Hw Hb Hbc Hrun. apply (stop_where_ids 20 (workload_on s1 id) s1 k).
    + rewrite Hfr. done.
    + unfold workload_on. destruct (Hfw _ _ Hb) as (b' & -> & E'). apply bool_decide_eq_true. congruence.
    + done.
  - unfold stopAffectedLocked. simpl. by rewrite Hfr.
Qed.

Lemma parked_out s id c s' stopped : parked s id c s' stopped → c_Status c ≠ ActiveStatus → id ≠ "" → out_of_service s' id.
Proof.
  intros [] Hst Hne. split; [|done]. intros auth bid b e Hb Hbc Hres.
  assert (Eb : ef_Binding e = b) by (apply resolve_ok in Hres as []; congruence).
  apply Hst. eapply inactive_connection_denies; [exact Hres|by rewrite Eb, Hbc|congruence].
Qed.

Lemma retire_all id s : ∀ bid g, r_brokerGrants (retireConnectionGrantsLocked id "" s).2 !! bid = Some g → bg_ConnectionID g ≠ id.
Proof. intros bid g [_ Hg]%map_lookup_filter_Some. simpl in Hg. unfold retires in Hg. intros <-. by rewrite bool_decide_eq_true_2 in Hg. Qed.

Lemma retire_rows id s bid g : r_brokerGrants s !! bid = Some g → bg_ConnectionID g = id → g ∈ (retireConnectionGrantsLocked id "" s).1.
Proof.
  intros Hg <-. simpl. apply list_elem_of_In, List.filter_In. unfold retires. rewrite bool_decide_eq_true_2 by done. split; [|done].
  apply list_elem_of_In. change (map snd ?l) with (snd <$> l). apply list_elem_of_fmap. exists (bid, g). split; [done|by apply range_elem].
Qed.

(** What [SetConnectionStatus] runs when it takes a connection out of service. *)
Lemma set_status_run s id c status : r_connections s !! id = Some c → status ∈ [DisabledStatus; RevokedStatus; DeletingStatus; ReauthStatus] →
  let st := stopAffectedLocked id (advance_connection 25 (next_status status c) s) in
  let rt := retireConnectionGrantsLocked id "" st.2 in
  SetConnectionStatus id status s = settle persistAndNotify st.1 rt.1 rt.2.
Proof.
  intros Hc Hst st rt. unfold SetConnectionStatus, mbind, M_bind, get, fail_if, some_or, mret, M_ret, locked.
  assert (one_of status [ActiveStatus; DisabledStatus; RevokedStatus; DeletingStatus; ReauthStatus] = true) as -> by (apply one_of_elem; set_solver).
  assert (Hact : status ≠ ActiveStatus) by (intros ->; vm_compute in Hst; set_solver).
  simpl. rewrite Hc. simpl. rewrite !(bool_decide_eq_false_2 (status = ActiveStatus)) by done. rewrite andb_false_r. simpl. reflexivity.
Qed.

(** A state that differs only in the files and the calls made is as much out of service. *)
Lemma tables_out s s' id : tables s' = tables s → out_of_service s id → out_of_service s' id.
Proof.
  intros Ht [Hr Hw]. unfold tables in Ht. injection Ht as E1 E2 E3 E4 E5 E6 E7 E8 E9 E10 E11 E12 E13 E14 E15 E16 E17 E18. split.
  - intros auth bid b e Hb Hbc Hres. apply (Hr auth bid b e); [by rewrite <- E4|done|]. rewrite <- Hres.
    destruct s, s'. simpl in *. subst. reflexivity.
  - intros k w b. rewrite E4, E5. apply Hw.
Qed.

(** C31. Safety: taking a connection out of service cuts it off, also when the registry cannot
    be saved. After any call that sets a status other than active, no caller resolves a
    binding on it, no workload of these bindings runs, each that ran was handed to the stopper,
    the status mirror that refreshes read has the new status, no broker grant of the
    connection is left in the ledger, and the projection of every runtime bound to it has
    advanced; when the call succeeds, the broker was asked to revoke each of these grants and
    the file holds the connection in the new status. *)
Theorem connection_cut_off s id c status r s' :
  reg_reachable s → roomy 1 s → id ≠ "" → r_connections s !! id = Some c →
  status ∈ [DisabledStatus; RevokedStatus; DeletingStatus; ReauthStatus] → SetConnectionStatus id status s = (r, s') →
  out_of_service s' id ∧ r_connStatus s' !! id = Some status ∧
  (∀ bid g, r_brokerGrants s' !! bid = Some g → bg_ConnectionID g ≠ id) ∧
  (rw_stopper ≠ None → ∀ k w b, r_workloads s !! k = Some w → r_bindings s !! w_BindingID w = Some b → b_ConnectionID b = id → running w = true →
     w_WorkloadID w ∈ r_stops s') ∧
  (∀ bid b, r_bindings s !! bid = Some b → b_ConnectionID b = id →
     revision_of (r_projections s) (binding_scope b) < revision_of (r_projections s') (binding_scope b)) ∧
  (r = Ok tt →
     (rw_broker ≠ None → ∀ bid g, r_brokerGrants s !! bid = Some g → bg_ConnectionID g = id → g ∈ r_revokes s') ∧
     (r_path s = true → ∃ d st, r_disk s' = Some (d, st) ∧ set_c_Revision (u64 (c_Revision c + 1)) (set_c_Status status c) ∈ sn_Connections d)).
Proof.
  intros Hi%reg_reachable_inv Hr Hne Hc Hst. rewrite (set_status_run _ _ _ _ Hc Hst). intros Hrun.
  pose proof (park_parked 25 id c (next_status status c) s Hi Hr Hc eq_refl) as Hpk.
  set (st := stopAffectedLocked id (advance_connection 25 (next_status status c) s)) in *.
  set (rt := retireConnectionGrantsLocked id "" st.2) in *.
  assert (Hact : status ≠ ActiveStatus) by (intros ->; vm_compute in Hst; set_solver).
  assert (Hout : out_of_service rt.2 id) by (apply (parked_out _ _ _ st.2 _ Hpk); done).
  pose proof (settle_spec persistAndNotify st.1 rt.1 persistAndNotify_saves rt.2) as Hs. unfold wp in Hs. rewrite Hrun in Hs.
  destruct Hs as (Ht & Hstops & Hrev & Hfile). split; [by apply (tables_out _ _ _ Ht)|].
  unfold tables in Ht. injection Ht as E1 E2 E3 E4 E5 E6 E7 E8 E9 E10 E11 E12 E13 E14 E15 E16 E17 E18. destruct Hpk.
  rewrite E13, E12, E6. split_and!; [done|apply retire_all| |done|].
  - intros Hn k w b Hw Hb Hbc Hru. rewrite Hstops by done. apply elem_of_app. right. by eapply pk_ids0.
  - intros ->. split.
    + intros Hn bid g Hg Hgc. rewrite Hrev by done. apply elem_of_app. right. eapply retire_rows; [|done]. by rewrite (proj1 pk_frame0).
    + intros Hp. destruct Hfile as (d & stmp & Hd & Hcs & _); [done|by etrans; [apply (proj2 pk_frame0)|]|]. exists d, stmp. split; [done|]. rewrite Hcs.
      change (map snd ?l) with (snd <$> l). apply list_elem_of_fmap. eexists (id, _). split; [|apply elem_of_map_to_list]; [reflexivity|].
      rewrite E2. exact pk_connection0.
Qed.
End Cut.

(** * Grants *)

Section Grants.
Context `{ToolWorld} `{Unicode} `{LargeSort} `{SnapDigest} `{RegWorld}.

(** A loop over grants allows exactly when some grant matches and all that match are active,
    in whatever order it meets them. *)
Lemma grants_allow_iff matches allowed l : grants_allow matches allowed l = true ↔
  (allowed = true ∨ ∃ g, g ∈ l ∧ matches g = true) ∧ ∀ g, g ∈ l → matches g = true → g_Status g = ActiveStatus.
Proof.
  revert allowed. induction l as [|x l IH]; intros allowed; simpl.
  { split; [intros ->; split; [by left|by intros g Hg%elem_of_nil]|]. by intros [[?|(g & []%elem_of_nil & _)] _]. }
  setoid_rewrite elem_of_cons. destruct (matches x) eqn:Ex; simpl; [destruct (bool_decide_reflect (g_Status x = ActiveStatus)) as [Ha|Hn]; simpl; [rewrite IH|]|rewrite IH].
  - split; [intros [_ Hl]; split; [right; eauto|by intros g [->|Hg]; [|apply Hl]]|]. intros [_ Hl]. split; [by left|auto].
  - split; [done|]. intros [_ Hl]. destruct Hn. apply Hl; auto.
  - split; intros [Hex Hl]; split; [|by intros g [->|Hg]; [congruence|apply Hl]| |auto]; naive_solver congruence.
Qed.

(** The catalog, installing, and the control operations, whatever order the table is met in. *)
Lemma granted_iff site (s : Reg) matches : grants_allow matches false (map snd (rw_range site (r_grants s))) = true ↔
  (∃ id g, r_grants s !! id = Some g ∧ matches g = true) ∧ ∀ id g, r_grants s !! id = Some g → matches g = true → g_Status g = ActiveStatus.
Proof.
  rewrite grants_allow_iff. change (map snd ?l) with (snd <$> l). setoid_rewrite list_elem_of_fmap. split.
  - intros [[?|(g & ([id g'] & -> & Hg%range_elem) & Hm)] Hl]; [done|]. split; [eauto|]. intros id' x Hx. apply Hl. exists (id', x). by rewrite range_elem.
  - intros [(id & g & Hg & Hm) Hl]. split; [right; exists g; split; [|done]; exists (id, g); by rewrite range_elem|].
    intros x ([id' x'] & -> & Hx%range_elem). by apply (Hl id').
Qed.
End Grants.
