(* ===== verification/RegManaged.v ===== *)
(** Managed calls of the tool registry: what [AuthorizeProjectedCall] admits a call of a
    capability profile on, that what it hands out passes the check the executor repeats
    ([ReverifyEffective]), and the preview of a profile (capability_store.go and
    api/capability_policy.go), what an operator reviews before it is published. *)
From stdpp Require Import base gmap strings list sorting.
From Stdlib Require Import Ascii String.
From S2P Require Import Prelude GoStrings Governance GovernanceProps RoutineTypes Schedules ToolTypes Capability CapabilityProps RegStore RegOps RegLoad RegAccess RegInv RegKeeps RegSystem RegProps.
Local Open Scope string_scope.
Local Open Scope Z_scope.

Section Managed.
Context `{ToolWorld} `{Unicode} `{LargeSort} `{SnapDigest} `{RegWorld} {MM : Mirrored}.
Implicit Types (s : Reg) (auth : Envelope) (e : EffectiveBinding) (profile : CapabilityProfile) (policy : CapabilityPolicy).

(** The profile the caller names is its own, live in this very cell generation, and its policy
    is in force at the revision the profile was issued under and lists the caller. *)
Record governed s auth profile policy : Prop := {
  gv_profile : r_profiles s !! e_CapabilityProfile auth = Some profile;
  gv_active : pf_Status profile = ActiveStatus;
  gv_caller : pf_PrincipalID profile = e_PrincipalID auth ∧ pf_ContextID profile = e_ContextID auth ∧ pf_RuntimeID profile = e_RuntimeID auth;
  gv_cell : pf_Environment profile = e_Environment auth ∧ pf_Generation profile = e_Generation auth ∧ pf_PolicyVersion profile = e_PolicyVersion auth;
  gv_policy : r_policies s !! pf_PolicyID profile = Some policy;
  gv_policy_active : po_Status policy = ActiveStatus;
  gv_revision : po_Revision policy = pf_PolicyRevision profile;
  gv_member : e_PrincipalID auth ∈ po_Members policy;
}.

Lemma capability_profile_ok s auth profile policy : capabilityProfileLocked s auth = Ok (profile, policy) → governed s auth profile policy.
Proof.
  unfold capabilityProfileLocked. destruct (negb (auth_ok auth)); [done|]. destruct (r_profiles s !! _) as [pf|] eqn:Ep; [|done].
  destruct (negb (profile_scope auth pf)) eqn:Es; [done|]. destruct (r_policies s !! _) as [po|] eqn:Eo; [|done].
  destruct (policy_current auth pf po) eqn:Ec; [|done]. intros [= -> ->]. unfold profile_scope, policy_current in *. guards.
  rename select (one_of _ _ = true) into Hm. apply one_of_elem in Hm. by constructor.
Qed.

(** The candidates that resolve: at most one, or the search ends in a conflict. *)
Definition resolving (l : list (res TErr EffectiveBinding)) : list EffectiveBinding :=
  omap (λ r, match r with Ok e => Some e | Err _ => None end) l.
Lemma selected_binding_spec found l r : selected_binding found l = Ok r → (option_list found ++ resolving l = option_list r)%list.
Proof.
  revert found. induction l as [|[e|e] l IH]; intros found; simpl.
  - intros [= ->]. by rewrite app_nil_r.
  - destruct found; [done|]. by intros <-%IH.
  - by intros <-%IH.
Qed.

(** ** Confirmed onboardings *)

(** What a scan of [l] that ends in [r] found: an onboarding of the binding's own where there is
    one; otherwise one that the binding succeeds, and one without writes where there is one. *)
Definition found_install s (id : string) (b : ToolBinding) (inherited : option Onboarding) (l : list Onboarding) (r : option Onboarding) : Prop :=
  match r with
  | None => inherited = None ∧ ∀ x, x ∈ l → install_confirmed x = true → ob_BindingID x ≠ id ∧ succeeds s x b = false
  | Some o =>
      o ∈ l ∧ install_confirmed o = true ∧ ob_BindingID o = id ∨
      (inherited = Some o ∨ o ∈ l ∧ install_confirmed o = true ∧ succeeds s o b = true) ∧
      (∀ x, x ∈ l → install_confirmed x = true → ob_BindingID x ≠ id) ∧
      (ob_WritesEnabled o = true → (∀ i, inherited = Some i → ob_WritesEnabled i = true) ∧
        ∀ x, x ∈ l → install_confirmed x = true → succeeds s x b = true → ob_WritesEnabled x = true)
  end.

(** A record that changes nothing: it does not qualify, or it has writes like what was found. *)
Lemma find_install_skip s id b inherited x l r : found_install s id b inherited l r →
  (install_confirmed x = false ∨ ob_BindingID x ≠ id ∧ (succeeds s x b = false ∨ inherited ≠ None ∧ ob_WritesEnabled x = true)) →
  found_install s id b inherited (x :: l) r.
Proof.
  intros Hr Hx. destruct r as [o|]; simpl in *.
  - destruct Hr as [(? & ? & ?)|(Hin & Hno & Hw)]; [left; split_and!; [by right|done..]|]. right. split_and!.
    + destruct Hin as [?|(? & ? & ?)]; [by left|right; split_and!; [by right|done..]].
    + intros y [->|Hy]%elem_of_cons ?; [|by apply Hno]. destruct Hx as [?|[? _]]; [congruence|done].
    + intros Ho. destruct (Hw Ho) as [Hi Hl]. split; [done|]. intros y [->|Hy]%elem_of_cons ? ?; [|by apply Hl].
      destruct Hx as [?|[_ [?|[_ ?]]]]; congruence.
  - destruct Hr as [Hi Hl]. split; [done|]. intros y [->|Hy]%elem_of_cons ?; [|by apply Hl]. destruct Hx as [?|[? [?|[? _]]]]; [congruence|done|done].
Qed.

Lemma find_install_spec s id b inherited l : found_install s id b inherited l (find_install s id b inherited l).
Proof.
  revert inherited. induction l as [|x l IH]; intros inherited; simpl.
  { destruct inherited as [o|]; simpl; [right; split_and!; [by left|by intros ? ?%elem_of_nil|]|split; [done|by intros ? ?%elem_of_nil]].
    intros Hw. split; [by intros i [= <-]|by intros ? ?%elem_of_nil]. }
  destruct (install_confirmed x) eqn:Ec; simpl; [|apply find_install_skip; eauto].
  destruct (ob_BindingID x == id) eqn:Eb; [guards; left; split_and!; [left|done..]|]. guards.
  destruct (succeeds s x b) eqn:Es; simpl; [|apply find_install_skip; eauto].
  destruct (bool_decide (inherited = None) || negb (ob_WritesEnabled x)) eqn:Ew; simpl.
  - specialize (IH (Some x)). destruct (find_install s id b (Some x) l) as [o|]; [|by destruct IH].
    destruct IH as [(? & ? & ?)|(Hin & Hno & Hw)]; [left; split_and!; [by right|done..]|]. right. split_and!.
    + destruct Hin as [[= ->]|(? & ? & ?)]; right; split_and!; try done; [left|by right].
    + intros y [->|Hy]%elem_of_cons; [done|by apply Hno].
    + intros Ho. destruct (Hw Ho) as [Hx Hl]. specialize (Hx _ eq_refl). rewrite Hx, orb_false_r in Ew. guards.
      split; [by intros ? ?; simplify_eq|]. intros y [->|Hy]%elem_of_cons; [done|by apply Hl].
  - apply orb_false_iff in Ew as [En Ew%negb_false_iff]. guards. apply find_install_skip; eauto.
Qed.

(** A confirmed onboarding of a binding: its own, or one whose revoked binding it succeeds. *)
Definition confirmed_for s (b : ToolBinding) (o : Onboarding) : Prop :=
  (∃ k, r_onboardings s !! k = Some o) ∧ install_confirmed o = true ∧ (ob_BindingID o = b_ToolBindingID b ∨ succeeds s o b = true).

(** Writes are confirmed by an onboarding of the binding's own; a binding without one needs it of
    every onboarding that it succeeds (there may be none: a binding an operator made). *)
Definition writes_confirmed s (b : ToolBinding) : Prop :=
  (∃ o, confirmed_for s b o ∧ ob_BindingID o = b_ToolBindingID b ∧ ob_WritesEnabled o = true) ∨
  ∀ o, confirmed_for s b o → ob_BindingID o ≠ b_ToolBindingID b ∧ ob_WritesEnabled o = true.

Lemma scanned_iff scan s o : o ∈ map snd (rw_scan scan (r_onboardings s)) ↔ ∃ k, r_onboardings s !! k = Some o.
Proof.
  change (map snd ?l) with (snd <$> l). rewrite list_elem_of_fmap. split.
  - intros ([k o'] & -> & Hk%scan_elem). eauto.
  - intros [k Hk]. exists (k, o). split; [done|by apply scan_elem].
Qed.

(** Whatever order the scan takes. *)
Lemma install_found scan s b o : r_bindings s !! b_ToolBindingID b = Some b → selfInstallOnboardingLocked scan s (b_ToolBindingID b) = Some o →
  confirmed_for s b o ∧ (ob_WritesEnabled o = true → writes_confirmed s b).
Proof.
  unfold selfInstallOnboardingLocked. intros -> Ho. pose proof (find_install_spec s (b_ToolBindingID b) b None (map snd (rw_scan scan (r_onboardings s)))) as Hf.
  rewrite Ho in Hf. destruct Hf as [(Hin & Hc & Hb)|([?|(Hin & Hc & Hs)] & Hno & Hw)]; [|done|]; apply scanned_iff in Hin.
  - assert (Hf : confirmed_for s b o) by (split_and!; auto). split; [done|]. intros He. left. eauto.
  - split; [split_and!; auto|]. intros He. right. intros x (Hx & Hcx & Hor). apply (scanned_iff scan) in Hx. pose proof (Hno _ Hx Hcx) as Hne.
    split; [done|]. destruct Hor; [done|]. by apply (proj2 (Hw He)).
Qed.
Lemma install_absent scan s b : r_bindings s !! b_ToolBindingID b = Some b → selfInstallOnboardingLocked scan s (b_ToolBindingID b) = None →
  ∀ o, confirmed_for s b o → False.
Proof.
  unfold selfInstallOnboardingLocked. intros -> Ho o (Hx & Hc & Hor). pose proof (find_install_spec s (b_ToolBindingID b) b None (map snd (rw_scan scan (r_onboardings s)))) as Hf.
  rewrite Ho in Hf. apply (scanned_iff scan) in Hx. destruct (proj2 Hf _ Hx Hc) as [Hne Hs]. destruct Hor; congruence.
Qed.

(** What a selection was admitted on. *)
Record selection_route s auth profile policy (clock : nat → nat → Z) (arguments : gmap string ArgValue) (name : string)
    (selection : CapabilitySelection) (tool : ToolSpec) e0 (t : ProjectedTool) e : Prop := {
  sr_selection : selection ∈ pf_Selections profile ∧ se_Name selection = name;
  sr_binding : r_bindings s !! b_ToolBindingID (ef_Binding e0) = Some (ef_Binding e0) ∧ selects selection (ef_Binding e0) = true;
  sr_resolved : resolveLocked s auth (b_ToolBindingID (ef_Binding e0)) = Ok e0;
  sr_alone : ∀ id b e1, r_bindings s !! id = Some b → selects selection b = true → resolveLocked s auth id = Ok e1 → e1 = e0;
  sr_reviewed : definition_digest (ef_Definition e0) = se_ImplementationDigest selection;
  sr_tool : tool ∈ ProjectedToolSpecs (ef_Definition e0) (ef_Binding e0) ∧ ts_Name tool = se_ToolName selection ∧
            ts_CapabilityID tool = se_CapabilityID selection;
  sr_writes : ts_Effect tool = WriteEffect → writes_confirmed s (ef_Binding e0);
  sr_decision : ∃ limits, CapabilityDecision profile policy selection arguments false clock tool = Some (limits, ef_Scopes e) ∧
                e = capped e0 profile policy selection limits (ef_Scopes e);
  sr_projected : t = mkProjected name (b_ToolBindingID (ef_Binding e0)) (se_DefinitionID selection) (se_DefinitionVersion selection) tool;
}.

Lemma selection_ok_route scan s auth profile policy clock arguments name selection t e : reg_inv s →
  selection ∈ pf_Selections profile → se_Name selection = name →
  managedSelectionLocked scan clock s auth profile policy selection arguments false = Ok (t, e) →
  ∃ tool e0, selection_route s auth profile policy clock arguments name selection tool e0 t e.
Proof.
  intros Hi Hs Hn. unfold managedSelectionLocked. set (rows := List.filter _ _).
  destruct (selected_binding None _) as [[e0|]|] eqn:Esel; try done. apply selected_binding_spec in Esel. simpl in Esel.
  assert (Hrows : ∀ id b e1, r_bindings s !! id = Some b → selects selection b = true → resolveLocked s auth id = Ok e1 → e1 = e0).
  { intros id b e1 Hb Hsel Hr. pose proof (ri_bindings _ Hi _ _ Hb) as ->. assert (Hin : e1 ∈ [e0]); [|set_solver]. rewrite <-Esel.
    apply list_elem_of_omap. exists (Ok e1). split; [|done]. change (map ?f rows) with (f <$> rows). apply list_elem_of_fmap. exists (b_ToolBindingID b, b).
    split; [done|]. apply list_elem_of_In, List.filter_In. split; [|done]. by apply list_elem_of_In, range_elem. }
  assert (He0 : e0 ∈ [e0]) by set_solver. rewrite <-Esel in He0 at 1. apply list_elem_of_omap in He0 as ([x|] & Hx & [= ->]).
  change (map ?f rows) with (f <$> rows) in Hx. apply list_elem_of_fmap in Hx as ([id b] & Hr & Hin). simpl in Hr.
  apply list_elem_of_In, List.filter_In in Hin as [Hin%list_elem_of_In%range_elem Hsel]. simpl in Hsel.
  pose proof (ri_bindings _ Hi _ _ Hin) as ->. symmetry in Hr. pose proof (rv_row _ _ _ _ (resolve_ok _ _ _ _ Hr)) as Hrow.
  assert (b = ef_Binding e0) as -> by congruence.
  destruct (definition_digest _ != _) eqn:Ed; [done|]. destruct (List.find _ _) as [tool|] eqn:Et; [|done].
  apply List.find_some in Et as [Et%list_elem_of_In Hname]. destruct (match selfInstallOnboardingLocked _ _ _ with Some _ => _ | None => _ end) eqn:Ew; [done|].
  destruct (CapabilityDecision _ _ _ _ _ _ _) as [[limits scopes]|] eqn:Edec; [|done]. intros [= <- <-]. guards. exists tool, e0. constructor; try done; [|eauto|by subst].
  intros Heff. destruct (selfInstallOnboardingLocked _ _ _) as [o|] eqn:Ho.
  - apply (install_found _ _ _ _ Hrow Ho). rewrite bool_decide_eq_true_2 in Ew by done. by destruct (ob_WritesEnabled o).
  - right. intros o Hc. by destruct (install_absent _ _ _ Hrow Ho o).
Qed.

(** What an installation of the caller's own was admitted on. *)
Record install_route s auth profile (name : string) (o : Onboarding) (tool : ToolSpec) e0 (t : ProjectedTool) e : Prop := {
  ir_profile : pf_SelfInstall profile = true;
  ir_onboarding : confirmed_for s (ef_Binding e0) o;
  ir_caller : ob_PrincipalID o = e_PrincipalID auth ∧ ob_ContextID o = e_ContextID auth ∧ ob_RuntimeID o = e_RuntimeID auth ∧
              ob_PolicyVersion o = e_PolicyVersion auth;
  ir_resolved : resolveLocked s auth (b_ToolBindingID (ef_Binding e0)) = Ok e0;
  ir_tool : tool ∈ ProjectedToolSpecs (ef_Definition e0) (ef_Binding e0) ∧ tool_name e0 tool = name;
  ir_writes : ts_Effect tool = WriteEffect → writes_confirmed s (ef_Binding e0);
  ir_effective : e = under_profile profile e0 ∧ t = projected_of name e0 tool;
}.

Lemma install_ok_route s auth profile name t e : reg_inv s → managedSelfInstallToolLocked s auth profile name = Ok (t, e) →
  ∃ o tool e0, install_route s auth profile name o tool e0 t e.
Proof.
  intros Hi. unfold managedSelfInstallToolLocked. destruct (List.find _ _) as [[e' tool]|] eqn:Ef; [|done]. intros [= <- <-].
  apply List.find_some in Ef as [Hin Hname]. simpl in Hname. apply in_flat_map in Hin as ([id b] & Hb%list_elem_of_In%range_elem & Hin). simpl in Hin.
  unfold install_tools in Hin. destruct (managed_self_install _ _ _ _ _) eqn:Em; [|done]. destruct (resolveLocked _ _ _) as [e0|] eqn:Hr; [|done].
  apply list_elem_of_In, list_elem_of_omap in Hin as ([k tool'] & Hk & Hw). apply elem_of_lookup_imap in Hk as (k' & x & [= -> ->] & Ht%list_elem_of_lookup_2).
  destruct (_ && _) eqn:Ew in Hw; [done|]. injection Hw as <- <-.
  pose proof (rv_row _ _ _ _ (resolve_ok _ _ _ _ Hr)) as Hrow. pose proof (ri_bindings _ Hi _ _ Hb) as ->. assert (b = ef_Binding e0) as -> by congruence.
  unfold managed_self_install, selfInstallWritesLocked in *. destruct (selfInstallOnboardingLocked ("owner", _, _) s _) as [o|] eqn:Eo; [|by guards].
  destruct (install_found _ _ _ _ Hrow Eo) as [Ho _]. guards. exists o, x, e0. constructor; try done.
  intros Heff. rewrite bool_decide_eq_true_2 in Ew by done. destruct (selfInstallOnboardingLocked _ _ _) as [o'|] eqn:Eo' in Ew; [|done].
  apply (install_found _ _ _ _ Hrow Eo'). by destruct (ob_WritesEnabled o').
Qed.

(** ** The whole call *)

Lemma managed_tool_routes s auth clock name arguments t e : reg_inv s →
  managedToolLocked clock s auth name arguments false = Ok (t, e) →
  ∃ profile policy, governed s auth profile policy ∧
    ((∃ selection tool e0, selection_route s auth profile policy clock arguments name selection tool e0 t e) ∨
     ∃ o tool e0, install_route s auth profile name o tool e0 t e).
Proof.
  intros Hi. unfold managedToolLocked. destruct (capabilityProfileLocked s auth) as [[profile policy]|] eqn:Ep; [|done].
  apply capability_profile_ok in Ep. intros Hm. exists profile, policy. split; [done|].
  destruct (List.find _ _) as [selection|] eqn:Ef; [|right; by apply install_ok_route].
  apply List.find_some in Ef as [Hin%list_elem_of_In Hn]. guards.
  destruct (managedSelectionLocked _ _ _ _ _ _ _ _ _) as [[t' e']|err] eqn:Es.
  - simplify_eq. left. exists selection. by eapply selection_ok_route.
  - destruct err; try done. right. by apply install_ok_route.
Qed.

(** What either route hands out passes the check the executor repeats. *)
Lemma reverify_of s auth profile policy e0 e : reg_inv s → e_CapabilityProfile auth ≠ "" → governed s auth profile policy →
  resolved s auth (b_ToolBindingID (ef_Binding e0)) e0 → ef_Binding e = ef_Binding e0 → ef_ProfileID e = pf_ProfileID profile →
  ef_ProfileRevision e = pf_Revision profile → ef_PolicyRevision e = pf_PolicyRevision profile → ReverifyEffective s e = true.
Proof.
  intros Hi Hne [] Hr Eb Ep Er Epr. pose proof (proj1 (proj2 (ri_books _ Hi)) _ _ gv_profile0) as Hk.
  unfold ReverifyEffective. rewrite Eb, (rv_row _ _ _ _ Hr), (rv_active _ _ _ _ Hr), !Z.eqb_refl, Ep, <-Hk.
  rewrite (bool_decide_eq_false_2 (e_CapabilityProfile auth = "")) by done. rewrite gv_profile0, gv_active0, gv_policy0, gv_policy_active0, gv_revision0, Er, Epr.
  by rewrite !Z.eqb_refl.
Qed.

Lemma routes_reverify s auth profile policy clock arguments name t e : reg_inv s → e_CapabilityProfile auth ≠ "" → governed s auth profile policy →
  ((∃ selection tool e0, selection_route s auth profile policy clock arguments name selection tool e0 t e) ∨
   ∃ o tool e0, install_route s auth profile name o tool e0 t e) → ReverifyEffective s e = true.
Proof.
  intros Hi Hne Hg [(sel & tool & e0 & [])|(o & tool & e0 & [])].
  - destruct sr_decision0 as (limits & _ & ->). apply (reverify_of s auth profile policy e0); [done|done|done|by apply resolve_ok|done..|]. apply (gv_revision _ _ _ _ Hg).
  - destruct ir_effective0 as [-> ->]. apply (reverify_of s auth profile policy e0); [done|done|done|by apply resolve_ok|done..].
Qed.

(** Admission looks at the tables only once the file is the one that was last seen. *)
Lemma wp_AuthorizeProjectedCall clock auth name arguments s : reg_inv s → e_CapabilityProfile auth ≠ "" →
  wp (AuthorizeProjectedCall clock auth name arguments) (λ r s', reg_inv s' ∧ ∀ t e, r = Ok (t, e) →
    (r_path s' = true → ∃ d st, r_disk s' = Some (d, st) ∧ r_seen s' = Some (snap_digest d)) ∧
    managedToolLocked clock s' auth name arguments false = Ok (t, e)) s.
Proof.
  intros Hi Hne. unfold AuthorizeProjectedCall, lockCapabilityAdmission. wp_run; [done|]. eapply wp_mono; [by apply wp_Reload|]. intros [[]|err] s1 [Hi1 _]; [|done].
  rewrite (bool_decide_eq_false_2 (_ = "")) by done. wp_run; try done.
  - split; [done|]. intros ? ? ->. split; [|done]. intros Hp. by rewrite Hp in *.
  - destruct (r_disk s1) as [[d st]|] eqn:Ed; wp_run; try done. guards. split; [done|]. intros ? ? ->. split; [|done]. intros _. eauto.
Qed.
End Managed.

Section Admission.
Context `{ToolWorld} `{Unicode} `{LargeSort} `{SnapDigest} `{RegWorld}.
Implicit Types (s : Reg) (auth : Envelope) (e : EffectiveBinding) (profile : CapabilityProfile) (policy : CapabilityPolicy).

(** C18. Safety: a call of a managed caller is admitted only when the registry file, if there is
    one, is the one last loaded or saved (its digest; changes of the tables that were not
    saved stay in memory), on an active profile of this very caller, cell and generation
    whose policy is in force at the revision it was issued under and lists the caller; and
    either on a selection of the profile whose one binding that resolves runs the reviewed
    implementation and whose every path the rules admit, with the output and the time capped
    by their limits, or on an installation of a confirmed onboarding of the caller's own.  On
    both routes a write tool of a binding that comes from confirmed onboardings needs one of
    the binding's own that enabled writes, which need not be the record whose owner was
    checked, as each check scans the records anew; a binding with none of its own needs
    writes enabled by all those that it succeeds.  What is handed out passes the check that
    the executor repeats before it runs the tool. *)
Theorem managed_call_admitted clock auth name arguments t e s s' :
  reg_reachable_late s → e_CapabilityProfile auth ≠ "" → AuthorizeProjectedCall clock auth name arguments s = (Ok (t, e), s') →
  (r_path s' = true → ∃ d st, r_disk s' = Some (d, st) ∧ r_seen s' = Some (snap_digest d)) ∧
  ReverifyEffective s' e = true ∧
  ∃ profile policy, governed s' auth profile policy ∧
    ((∃ selection tool e0, selection_route s' auth profile policy clock arguments name selection tool e0 t e) ∨
     ∃ o tool e0, install_route s' auth profile name o tool e0 t e).
Proof.
  intros Hi%late_inv Hne Hrun.
  pose proof (wp_AuthorizeProjectedCall (MM := False) clock auth name arguments s Hi Hne) as Hwp.
  unfold wp in Hwp. rewrite Hrun in Hwp. destruct Hwp as (Hi' & Hok). destruct (Hok _ _ eq_refl) as (Hfile & Hm).
  apply (managed_tool_routes (MM := False)) in Hm as (profile & policy & Hg & Hroute); [|done]. split; [done|].
  split; [by eapply (routes_reverify (MM := False) s' auth profile policy)|eauto].
Qed.
End Admission.

(** * Previews *)

Record ProfilePreviewEntry := mkEntry {
  pe_Name : string; pe_CapabilityID : string; pe_Admitted : bool; pe_Reason : string; pe_Scopes : list CapabilityScope;
  pe_OutputBytes : Z; pe_TimeoutSeconds : Z;
}.
Record ProfilePreview := mkPreview {
  pv_ProfileID : string; pv_CurrentRevision : Z; pv_CandidateRevision : Z; pv_Current : list ProfilePreviewEntry;
  pv_Candidate : list ProfilePreviewEntry; pv_Added : list string; pv_Removed : list string; pv_Changed : list string;
}.
Global Instance CapabilityScope_eq_dec : EqDecision CapabilityScope.
Proof. solve_decision. Defined.

Definition PreviewEntriesEqual (a b : ProfilePreviewEntry) : bool :=
  (pe_OutputBytes a =? pe_OutputBytes b) && (pe_TimeoutSeconds a =? pe_TimeoutSeconds b) && (pe_Scopes a == pe_Scopes b).

Section Preview.
Context `{ToolWorld} `{Unicode} `{LargeSort} `{SnapDigest} `{RegWorld}.
Implicit Types (s : Reg) (profile : CapabilityProfile) (policy : CapabilityPolicy).

(** The identity a profile is evaluated under. *)
Definition preview_auth profile : Envelope :=
  mkEnvelope 1 (pf_PrincipalID profile) (pf_ContextID profile) (pf_ContextID profile) (pf_RuntimeID profile) (pf_ContextID profile) (pf_ContextID profile)
    (pf_PolicyVersion profile) "" (pf_ProfileID profile) (pf_Environment profile) (pf_Generation profile) [].

(** [previewSelectionsLocked] *)
Definition preview_entry (scan : Scan) (clock : nat → nat → Z) s profile policy (selection : CapabilitySelection) : ProfilePreviewEntry :=
  match managedSelectionLocked scan clock s (preview_auth profile) profile policy selection ∅ true with
  | Err e => mkEntry (se_Name selection) (se_CapabilityID selection) false (match e with TConflict => "ambiguous binding" | _ => "unauthorized" end) [] 0 0
  | Ok (_, e) => mkEntry (se_Name selection) (se_CapabilityID selection) true "" (ef_Scopes e) (td_OutputBytes (ef_Definition e)) (td_TimeoutSeconds (ef_Definition e))
  end.
Definition previewSelectionsLocked (side : string) (clock : nat → nat → nat → Z) s profile policy : list ProfilePreviewEntry :=
  imap (λ k, preview_entry (side, "", k) (clock k) s profile policy) (pf_Selections profile).

(** [policyAtRevisionLocked] *)
Definition policyAtRevisionLocked s (policyID : string) (revision : Z) : option CapabilityPolicy :=
  let historic := first_some (λ c, match c with ChPolicy p => if (po_PolicyID p == policyID) && (po_Revision p =? revision) then Some p else None | _ => None end)
    (r_changes s) in
  match r_policies s !! policyID with Some p => if po_Revision p =? revision then Some p else historic | None => historic end.

(** The admitted entries under their names. *)
Definition by_entry_name (l : list ProfilePreviewEntry) : gmap string ProfilePreviewEntry :=
  fold_left (λ m e, if pe_Admitted e then <[pe_Name e := e]> m else m) l ∅.

(** [PreviewCapabilityProfile] *)
Definition sorted_names (l : list string) : list string := SortFunc strings_Compare l.
Definition current_side (clock : nat → nat → nat → Z) s (candidate : CapabilityProfile) : res TErr (Z * list ProfilePreviewEntry) :=
  match r_profiles s !! pf_ProfileID candidate with
  | None => Ok (0, [])
  | Some current =>
      if pf_Revision candidate <=? pf_Revision current then Err TConflict
      else Ok (pf_Revision current,
               if pf_Status current == ActiveStatus then
                 match policyAtRevisionLocked s (pf_PolicyID current) (pf_PolicyRevision current) with
                 | Some p => previewSelectionsLocked "current" clock s current p
                 | None => []
                 end
               else [])
  end.
Definition PreviewCapabilityProfile (clock clock' : nat → nat → nat → Z) s (candidate : CapabilityProfile) : res TErr ProfilePreview :=
  match ValidateProfileStructure candidate with
  | Some e => Err e
  | None =>
      match validateProfileAdmissionLocked s candidate with
      | Err e => Err e
      | Ok policy =>
          match current_side clock s candidate with
          | Err e => Err e
          | Ok (revision, current) =>
              let next := previewSelectionsLocked "candidate" clock' s candidate policy in
              let old := by_entry_name current in
              let new := by_entry_name next in
              let names := map fst (rw_range 60 new) in
              Ok (mkPreview (pf_ProfileID candidate) revision (pf_Revision candidate) current next
                    (sorted_names (List.filter (λ n, bool_decide (old !! n = None)) names))
                    (sorted_names (List.filter (λ n, bool_decide (new !! n = None)) (map fst (rw_range 61 old))))
                    (sorted_names (List.filter (λ n, match old !! n, new !! n with Some a, Some b => negb (PreviewEntriesEqual a b) | _, _ => false end) names)))
          end
      end
  end.
End Preview.

Section Exact.
Context `{ToolWorld} `{Unicode} `{LargeSort} `{SnapDigest} `{RegWorld}.
Implicit Types (s : Reg) (profile : CapabilityProfile) (policy : CapabilityPolicy).

(** Callers that an authorization decision does not tell apart. *)
Definition same_caller (a b : Envelope) : Prop :=
  auth_ok a = true ∧ auth_ok b = true ∧ e_PrincipalID a = e_PrincipalID b ∧ e_ContextID a = e_ContextID b ∧ e_RuntimeID a = e_RuntimeID b ∧
  e_PolicyVersion a = e_PolicyVersion b.

Lemma resolve_same_caller s a b id : same_caller a b → resolveLocked s a id = resolveLocked s b id.
Proof.
  intros (Ha & Hb & E1 & E2 & E3 & E4). unfold resolveLocked, resolve_connection, teamConnectionCoversLocked, sharedConnectionCoversLocked, Matches.
  by rewrite Ha, Hb, E1, E2, E3, E4.
Qed.

Lemma selection_same_caller scan clock s a b profile policy selection arguments projection : same_caller a b →
  managedSelectionLocked scan clock s a profile policy selection arguments projection = managedSelectionLocked scan clock s b profile policy selection arguments projection.
Proof.
  intros Hab. unfold managedSelectionLocked.
  assert (map (λ kv, resolveLocked s a (b_ToolBindingID kv.2)) (List.filter (λ kv, selects selection kv.2) (rw_range 57 (r_bindings s))) =
          map (λ kv, resolveLocked s b (b_ToolBindingID kv.2)) (List.filter (λ kv, selects selection kv.2) (rw_range 57 (r_bindings s)))) as ->; [|done].
  apply map_ext. intros kv. by apply resolve_same_caller.
Qed.

Lemma preview_auth_ok profile : ValidateProfileStructure profile = None → auth_ok (preview_auth profile) = true.
Proof.
  unfold ValidateProfileStructure, refuse. destruct (_ || _) eqn:E; [done|]. intros _. unfold validPolicyRecord in E. guards.
  rename select (forallb _ _ = true) into Hids. simpl in Hids. guards.
  unfold auth_ok, Envelope_Validate. simpl. change BrokerIdentity.ValidID with ValidID.
  rewrite !bool_decide_eq_true_2 by done. repeat (match goal with Hv : ValidID _ = true |- _ => rewrite Hv; clear Hv end). simpl.
  rename select (one_of _ _ = true) into He. unfold one_of in He. simpl in He. rewrite orb_false_r in He. rewrite He.
  rename select (pf_Generation profile ≠ 0) into Hg. apply Z.eqb_neq in Hg. rewrite Hg. simpl. by rewrite orb_true_r.
Qed.

Lemma sorted_names_elem n l : n ∈ sorted_names l ↔ n ∈ l.
Proof. unfold sorted_names. by rewrite SortFunc_perm. Qed.
Lemma filter_names {A} site (m : gmap string A) (q : string → bool) n : n ∈ sorted_names (List.filter q (map fst (rw_range site m))) ↔ is_Some (m !! n) ∧ q n = true.
Proof.
  rewrite sorted_names_elem, list_elem_of_In, List.filter_In, <-list_elem_of_In. change (map fst ?l) with (fst <$> l). rewrite list_elem_of_fmap.
  split; intros [Hn Hq]; (split; [|done]).
  - destruct Hn as ([k a] & -> & Ha%range_elem). eauto.
  - destruct Hn as [a Ha]. exists (n, a). split; [done|by apply range_elem].
Qed.

(** The preview is exact.  A selection is shown as admitted, with these boundaries and limits,
    exactly when the registry would offer it (its onboardings scanned in the same order), with the same, to any caller the candidate is
    for once it and its policy are in force; and the three lists tell which admitted names are
    new, gone, or differ from what the published profile admits. *)
Theorem preview_exact clock clock' s candidate pv : PreviewCapabilityProfile clock clock' s candidate = Ok pv →
  (∃ policy, validateProfileAdmissionLocked s candidate = Ok policy ∧
     ∀ auth k selection, auth_ok auth = true → profile_scope auth candidate = true → pf_Selections candidate !! k = Some selection →
       ∃ entry, pv_Candidate pv !! k = Some entry ∧ pe_Name entry = se_Name selection ∧
         match managedSelectionLocked ("candidate", "", k) (clock' k) s auth candidate policy selection ∅ true with
         | Ok (_, e) => pe_Admitted entry = true ∧ pe_Scopes entry = ef_Scopes e ∧ pe_OutputBytes entry = td_OutputBytes (ef_Definition e) ∧
                        pe_TimeoutSeconds entry = td_TimeoutSeconds (ef_Definition e)
         | Err _ => pe_Admitted entry = false
         end) ∧
  (∀ n, n ∈ pv_Added pv ↔ is_Some (by_entry_name (pv_Candidate pv) !! n) ∧ by_entry_name (pv_Current pv) !! n = None) ∧
  (∀ n, n ∈ pv_Removed pv ↔ is_Some (by_entry_name (pv_Current pv) !! n) ∧ by_entry_name (pv_Candidate pv) !! n = None) ∧
  (∀ n, n ∈ pv_Changed pv ↔ ∃ a b, by_entry_name (pv_Current pv) !! n = Some a ∧ by_entry_name (pv_Candidate pv) !! n = Some b ∧ PreviewEntriesEqual a b = false).
Proof.
  unfold PreviewCapabilityProfile. destruct (ValidateProfileStructure candidate) eqn:Ev; [done|].
  destruct (validateProfileAdmissionLocked s candidate) as [policy|] eqn:Ea; [|done]. destruct (current_side clock s candidate) as [[rev cur]|]; [|done].
  intros [= <-]. simpl. split_and!.
  - exists policy. split; [done|]. intros auth k selection Hok Hsc Hk. unfold profile_scope in Hsc. guards.
    assert (Hsame : same_caller (preview_auth candidate) auth) by (split_and!; [by apply preview_auth_ok|done..]).
    unfold previewSelectionsLocked. rewrite list_lookup_imap, Hk. simpl. eexists. split; [done|]. unfold preview_entry.
    rewrite (selection_same_caller _ _ _ _ _ _ _ _ _ _ Hsame). destruct (managedSelectionLocked _ _ _ _ _ _ _ _ _) as [[t e]|e]; by split_and!.
  - intros n. rewrite filter_names. by rewrite bool_decide_eq_true.
  - intros n. rewrite filter_names. by rewrite bool_decide_eq_true.
  - intros n. rewrite filter_names. split.
    + intros [[b Hb] Hq]. rewrite Hb in Hq. destruct (by_entry_name cur !! n) as [a|] eqn:Hc; [|done]. apply negb_true_iff in Hq. eauto.
    + intros (a & b & Hc & Hb & Hq). rewrite Hc, Hb, Hq. eauto.
Qed.
End Exact.
