(* ===== verification/RegLease.v ===== *)
(** Refresh leases (internal/toolhub/refresh_lease.go): the claim a process takes on a
    connection and a provider before it spends a rotating refresh token, and the ledger file
    that several processes share. *)
From stdpp Require Import base gmap strings list sorting.
From Stdlib Require Import Ascii String.
From S2P Require Import Prelude GoStrings Governance GovernanceProps RoutineTypes Schedules ToolTypes Capability RegStore RegOps RegLoad RegInv RegKeeps RegSystem.
Local Open Scope string_scope.
Local Open Scope Z_scope.

Definition refreshLeaseKey (connectionID provider : string) : string := connectionID ++ String NUL provider.
Definition lease_key (l : RefreshLease) : string := refreshLeaseKey (rl_ConnectionID l) (rl_Provider l).

(** The ledger file: absent, not a list of leases, or a list. *)
Inductive LeaseFile := NoLedger | BadLedger | Ledger (l : list RefreshLease).

(** What of the [Store] leases use; [ls_path]: whether it is backed by a file. *)
Record Leases := mkLeases { ls_path : bool; ls_loaded : bool; ls_leases : gmap string RefreshLease; ls_file : LeaseFile }.
Definition set_loaded (b : bool) (s : Leases) : Leases := mkLeases (ls_path s) b (ls_leases s) (ls_file s).
Definition set_leases (m : gmap string RefreshLease) (s : Leases) : Leases := mkLeases (ls_path s) (ls_loaded s) m (ls_file s).
Definition set_file (f : LeaseFile) (s : Leases) : Leases := mkLeases (ls_path s) (ls_loaded s) (ls_leases s) f.

(** What a call meets: failures of the lock, of reading and of writing the ledger, the random
    holder in hexadecimal, and the order of the map. *)
Class LeaseWorld := {
  lw_lock_fails : bool;
  lw_read_fails : bool;
  lw_write_fails : bool;
  lw_holder : option string;
  lw_holder_some : ∀ h, lw_holder = Some h → h ≠ "";
  lw_range : gmap string RefreshLease → list (string * RefreshLease);
  lw_range_perm : ∀ m, lw_range m ≡ₚ map_to_list m;
}.

Definition LM := M Leases TErr.

Section Lease.
Context `{Unicode} `{LargeSort} `{LeaseWorld}.

(** [lockLeaseFile]: what was in memory is forgotten. *)
Definition lockLeaseFile : LM unit :=
  s ← get;
  if negb (ls_path s) then mret tt
  else
    fail_if lw_lock_fails TIO ;;
    modify (λ s, set_leases ∅ (set_loaded false s)).

Definition load_lease (l : RefreshLease) : LM unit :=
  match RefreshLease_Validate l with
  | Some e => mthrow_err e
  | None => modify (λ s, set_leases (<[lease_key l := l]> (ls_leases s)) s)
  end.

(** [loadLeasesLocked] *)
Definition loadLeasesLocked : LM unit :=
  s ← get;
  if ls_loaded s then mret tt
  else
    modify (set_loaded true) ;;
    if negb (ls_path s) then mret tt
    else
      fail_if lw_read_fails TIO ;;
      match ls_file s with
      | NoLedger => mret tt
      | BadLedger => mthrow_err TInvalid
      | Ledger l => for_each l load_lease
      end.

(** [persistLeasesLocked]; an instant after the year 9999 has no JSON. *)
Definition persistLeasesLocked : LM unit :=
  s ← get;
  if negb (ls_path s) then mret tt
  else
    let leases := SortFunc (λ a b, strings_Compare (lease_key a) (lease_key b)) (map snd (lw_range (ls_leases s))) in
    fail_if (negb (forallb (λ l, year_ok (rl_ExpiresAt l)) leases)) TIO ;;
    fail_if lw_write_fails TIO ;;
    modify (set_file (Ledger leases)).

(** [AcquireRefreshLease]; [connStatus] is the status mirror of the registry. *)
Definition AcquireRefreshLease (connStatus : gmap string string) (connectionID provider : string) (ttl now : Z) : LM (RefreshLease * bool) :=
  fail_if (negb (ValidID connectionID) || (provider == "") || (ttl <=? 0)) TInvalid ;;
  lockLeaseFile ;;
  loadLeasesLocked ;;
  status ← some_or (connStatus !! connectionID) TNotFound;
  fail_if (status != ActiveStatus) TRevoked ;;
  s ← get;
  let key := refreshLeaseKey connectionID provider in
  match (match ls_leases s !! key with Some l => if now <? rl_ExpiresAt l then Some l else None | None => None end) with
  | Some lease => mret (lease, false)
  | None =>
      holder ← some_or lw_holder TIO;
      let lease := mkLease connectionID provider holder (now + ttl) in
      modify (λ s, set_leases (<[key := lease]> (ls_leases s)) s) ;;
      saved ← try persistLeasesLocked;
      match saved with
      | Err e => modify (λ s, set_leases (delete key (ls_leases s)) s) ;; mthrow_err e
      | Ok _ => mret (lease, true)
      end
  end.

(** [ReleaseRefreshLease] *)
Definition ReleaseRefreshLease (connectionID provider holder : string) : LM unit :=
  lockLeaseFile ;;
  loadLeasesLocked ;;
  s ← get;
  let key := refreshLeaseKey connectionID provider in
  match ls_leases s !! key with
  | Some lease =>
      if rl_Holder lease != holder then mret tt
      else modify (λ s, set_leases (delete key (ls_leases s)) s) ;; persistLeasesLocked
  | None => mret tt
  end.

(** [refreshLeaseHeld] *)
Definition refreshLeaseHeld (connectionID provider : string) (now : Z) : LM bool :=
  opened ← try (lockLeaseFile ;; loadLeasesLocked);
  match opened with
  | Err _ => mret true
  | Ok _ =>
      s ← get;
      mret (match ls_leases s !! refreshLeaseKey connectionID provider with Some l => now <? rl_ExpiresAt l | None => false end)
  end.
End Lease.

(** * The ledger *)

Definition add_lease (m : gmap string RefreshLease) (l : RefreshLease) : gmap string RefreshLease := <[lease_key l := l]> m.
Definition entries (f : LeaseFile) : gmap string RefreshLease := match f with Ledger l => fold_left add_lease l ∅ | _ => ∅ end.

(** Leases that lie under their key and pass validation. *)
Definition held_ok (m : gmap string RefreshLease) : Prop := ∀ k l, m !! k = Some l → k = lease_key l ∧ RefreshLease_Validate l = None.
Definition lease_ok (l : RefreshLease) : Prop := RefreshLease_Validate l = None ∧ year_ok (rl_ExpiresAt l) = true.
Definition ledger_ok (f : LeaseFile) : Prop := f = NoLedger ∨ ∃ l, f = Ledger l ∧ Forall lease_ok l.

Lemma held_ok_insert m l : held_ok m → RefreshLease_Validate l = None → held_ok (<[lease_key l := l]> m).
Proof. intros Hm Hl k x. rewrite lookup_insert_Some. intros [[<- <-]|[_ Hx]]; [done|by apply Hm]. Qed.
Lemma held_ok_delete m k : held_ok m → held_ok (delete k m).
Proof. intros Hm k' x [_ Hx]%lookup_delete_Some. by apply Hm. Qed.

(** Every lease that is added in a row comes from it or was there. *)
Lemma add_all_inv l m k x : fold_left add_lease l m !! k = Some x → m !! k = Some x ∨ x ∈ l ∧ k = lease_key x.
Proof.
  revert m. induction l as [|y l IH]; intros m; simpl; [by left|]. intros [Hx|[? ->]]%IH; [|set_solver].
  unfold add_lease in Hx. apply lookup_insert_Some in Hx as [[<- <-]|[_ ?]]; [set_solver|by left].
Qed.

(** Adding leases with keys of their own. *)
Lemma add_all_lookup l m k x : NoDup (lease_key <$> l) → (∀ y, y ∈ l → m !! lease_key y = None) →
  fold_left add_lease l m !! k = Some x ↔ m !! k = Some x ∨ x ∈ l ∧ lease_key x = k.
Proof.
  revert m. induction l as [|y l IH]; intros m Hn Hm; simpl; [set_solver|]. simpl in Hn. apply NoDup_cons in Hn as [Hy Hn]. rewrite IH; [|done|].
  - unfold add_lease. rewrite lookup_insert_Some, elem_of_cons. split.
    + intros [[[<- <-]|[_ ?]]|[? ?]]; auto.
    + intros [Hk|[[->|?] <-]]; auto. left. right. split; [|done]. intros <-. rewrite Hm in Hk; [done|set_solver].
  - intros z Hz. unfold add_lease. rewrite lookup_insert_ne; [apply Hm; set_solver|]. intros E. apply Hy. rewrite E. by apply list_elem_of_fmap_2.
Qed.

Lemma entries_listed m l : held_ok m → l ≡ₚ (map_to_list m).*2 → entries (Ledger l) = m.
Proof.
  intros Hm Hl. assert (Hkeys : lease_key <$> l ≡ₚ (map_to_list m).*1).
  { rewrite Hl, <-list_fmap_compose. apply Permutation_refl'. apply list_fmap_ext. intros i [k x] Hx. simpl.
    apply list_elem_of_lookup_2, elem_of_map_to_list, Hm in Hx as [-> _]. done. }
  apply map_eq. intros k. apply option_eq. intros x. simpl. rewrite add_all_lookup; [|by rewrite Hkeys; apply NoDup_fst_map_to_list|by intros y _].
  rewrite lookup_empty, Hl, list_elem_of_fmap. split.
  - intros [?|[([k' y] & -> & Hy%elem_of_map_to_list) <-]]; [done|]. simpl. by destruct (Hm _ _ Hy) as [<- _].
  - intros Hx. right. destruct (Hm _ _ Hx) as [-> _]. split; [|done]. exists (lease_key x, x). split; [done|by apply elem_of_map_to_list].
Qed.
Lemma ledger_entry f k x : ledger_ok f → entries f !! k = Some x → k = lease_key x ∧ lease_ok x.
Proof. intros [->|(l & -> & Hl)]; [done|]. intros [?|[Hx ->]]%add_all_inv; [done|]. by apply (Forall_forall lease_ok l) with x in Hl. Qed.
Lemma ledger_entries_ok f : ledger_ok f → held_ok (entries f).
Proof. intros Hf k x [-> []]%ledger_entry; [|done]. done. Qed.

(** * One call *)

Section Calls.
Context `{Unicode} `{LargeSort} `{LeaseWorld}.
Implicit Types (s : Leases).

(** After the lock and the load the memory holds the ledger, or the call ends in an error. *)
Definition opened s s' : Prop := ls_path s' = true ∧ ls_file s' = ls_file s ∧ ls_leases s' = entries (ls_file s).

Lemma load_rows_spec l s : Forall lease_ok l →
  for_each l load_lease s = (Ok tt, set_leases (fold_left add_lease l (ls_leases s)) s).
Proof.
  intros Hl. revert s. induction Hl as [|x l [Hx _] Hl IH]; intros s; simpl; [by destruct s|]. unfold mbind, M_bind, load_lease. rewrite Hx. simpl. rewrite IH. done.
Qed.

Lemma open_wp s : ls_path s = true → ledger_ok (ls_file s) →
  wp (lockLeaseFile ;; loadLeasesLocked) (λ r s', match r with Ok _ => opened s s' | Err _ => ls_path s' = true ∧ ls_file s' = ls_file s end) s.
Proof.
  intros Hp Hok. destruct s as [path loaded m file]. simpl in *. subst path.
  unfold wp, lockLeaseFile, loadLeasesLocked, mbind, M_bind, get, fail_if, mret, M_ret, modify, mthrow_err. simpl.
  destruct lw_lock_fails; simpl; [done|]. destruct lw_read_fails; simpl; [done|].
  destruct Hok as [->|(l & -> & Hl)]; simpl; [done|]. by rewrite load_rows_spec.
Qed.
Lemma open_spec {A} (f : LM A) (Q : res TErr A → Leases → Prop) s : ls_path s = true → ledger_ok (ls_file s) →
  (∀ e s', ls_path s' = true → ls_file s' = ls_file s → Q (Err e) s') → (∀ s', opened s s' → wp f Q s') →
  wp (lockLeaseFile ;; loadLeasesLocked ;; f) Q s.
Proof.
  intros Hp Hok He Hf. pose proof (open_wp s Hp Hok) as Ho. revert Ho. unfold wp, mbind, M_bind.
  destruct (lockLeaseFile s) as [[[]|e] s1]; [|naive_solver]. destruct (loadLeasesLocked s1) as [[[]|e] s2]; [apply Hf|naive_solver].
Qed.

(** Saving writes what is in memory, or nothing. *)
Lemma persist_spec s : ls_path s = true → held_ok (ls_leases s) → wp persistLeasesLocked (λ r s', ls_path s' = true ∧ ls_leases s' = ls_leases s ∧
  match r with Ok _ => ledger_ok (ls_file s') ∧ entries (ls_file s') = ls_leases s | Err _ => ls_file s' = ls_file s end) s.
Proof.
  intros Hp Hm. unfold persistLeasesLocked. wp_run; rewrite ?Hp in *; try done. simpl.
  set (l := SortFunc _ _) in *. assert (Hl : l ≡ₚ (map_to_list (ls_leases s)).*2).
  { subst l. rewrite SortFunc_perm. change (map snd ?x) with (snd <$> x). by rewrite lw_range_perm. }
  split_and!; try done; [|by apply entries_listed]. right. exists l. split; [done|]. apply Forall_forall. intros x Hx. guards.
  rename select (forallb _ l = true) into Hy. rewrite forallb_forall in Hy. split; [|by apply Hy, list_elem_of_In]. rewrite Hl in Hx.
  apply list_elem_of_fmap in Hx as ([k y] & -> & Hx%elem_of_map_to_list). by apply Hm in Hx as [_ ?].
Qed.

Lemma persist_ok s : ls_path s = true → lw_write_fails = false → (∀ k l, ls_leases s !! k = Some l → year_ok (rl_ExpiresAt l) = true) →
  ∃ f, persistLeasesLocked s = (Ok tt, set_file f s).
Proof.
  intros Hp Hw Hy. unfold persistLeasesLocked, mbind, M_bind, get. rewrite Hp. simpl. rewrite Hw. set (l := SortFunc _ _).
  assert (Hl : l ≡ₚ (map_to_list (ls_leases s)).*2).
  { subst l. rewrite SortFunc_perm. change (map snd ?x) with (snd <$> x). by rewrite lw_range_perm. }
  assert (forallb (λ l, year_ok (rl_ExpiresAt l)) l = true) as ->; [|simpl; eauto].
  apply forallb_forall. intros x Hx%list_elem_of_In. rewrite Hl in Hx. apply list_elem_of_fmap in Hx as ([k y] & -> & Hx%elem_of_map_to_list). by eapply Hy.
Qed.

(** The lease a key has that still runs. *)
Definition live (m : gmap string RefreshLease) (key : string) (now : Z) : option RefreshLease :=
  match m !! key with Some l => if now <? rl_ExpiresAt l then Some l else None | None => None end.

(** What acquiring does to the ledger. *)
Lemma acquire_spec st c p ttl now s : ls_path s = true → ledger_ok (ls_file s) → ZeroTime ≤ now →
  wp (AcquireRefreshLease st c p ttl now) (λ r s', ls_path s' = true ∧ ledger_ok (ls_file s') ∧
    match r with
    | Ok (l, true) => live (entries (ls_file s)) (refreshLeaseKey c p) now = None ∧ st !! c = Some ActiveStatus ∧
        lease_key l = refreshLeaseKey c p ∧ rl_ExpiresAt l = now + ttl ∧ entries (ls_file s') = <[lease_key l := l]> (entries (ls_file s))
    | Ok (l, false) => live (entries (ls_file s)) (refreshLeaseKey c p) now = Some l ∧ ls_file s' = ls_file s
    | Err _ => ls_file s' = ls_file s
    end) s.
Proof.
  intros Hp Hok Hn. unfold AcquireRefreshLease. apply wp_bind, wp_fail_if; [done|]. intros Hv. guards.
  apply open_spec; [done|done|by intros e s' ? ->|]. intros s1 (Hp1 & Hf1 & Hm1).
  apply wp_bind, wp_some_or; [|by rewrite Hf1]. intros status Hs. apply wp_bind, wp_fail_if; [by rewrite Hf1|]. intros Ha. guards.
  apply wp_bind, wp_get. cbv zeta. rewrite Hm1. fold (live (entries (ls_file s)) (refreshLeaseKey c p) now).
  destruct (live _ _ _) as [l|] eqn:El; [apply wp_ret; by rewrite Hf1|]. apply wp_bind, wp_some_or; [|by rewrite Hf1]. intros h Hh.
  apply wp_bind, wp_modify, wp_bind, wp_try. set (lease := mkLease c p h (now + ttl)).
  assert (Hval : RefreshLease_Validate lease = None).
  { unfold RefreshLease_Validate, refuse. simpl. assert ((now + ttl =? ZeroTime) = false) as -> by (apply Z.eqb_neq; lia).
    pose proof (lw_holder_some _ Hh). rewrite !(bool_decide_eq_false_2 (_ = "")) by done.
    rename select (ValidID c = true) into Hc. by rewrite Hc. }
  eapply wp_mono; [apply persist_spec; [done|]|].
  - simpl. rewrite Hm1. change (refreshLeaseKey c p) with (lease_key lease). apply held_ok_insert; [by apply ledger_entries_ok|done].
  - simpl. intros [[]|e] s2 (Hp2 & Hl2 & Hfile); simpl.
    + destruct Hfile as [Hok2 He2]. apply wp_ret. split_and!; try done; [congruence|]. by rewrite He2, Hm1.
    + apply wp_bind, wp_modify, wp_throw. simpl. by rewrite Hfile, Hf1.
Qed.

(** Releasing removes the lease of this holder, or nothing. *)
Lemma release_spec c p h s : ls_path s = true → ledger_ok (ls_file s) →
  wp (ReleaseRefreshLease c p h) (λ _ s', ls_path s' = true ∧ ledger_ok (ls_file s') ∧
    (entries (ls_file s') = entries (ls_file s) ∨
     ∃ l, entries (ls_file s) !! refreshLeaseKey c p = Some l ∧ rl_Holder l = h ∧ entries (ls_file s') = delete (refreshLeaseKey c p) (entries (ls_file s)))) s.
Proof.
  intros Hp Hok. unfold ReleaseRefreshLease. apply open_spec; [done|done|intros e s' ? ->; by auto|]. intros s1 (Hp1 & Hf1 & Hm1).
  apply wp_bind, wp_get. cbv zeta. rewrite Hm1. destruct (entries _ !! _) as [l|] eqn:El; [|apply wp_ret; rewrite Hf1; by auto].
  apply wp_if; [intros _; apply wp_ret; rewrite Hf1; by auto|]. intros Hh. guards. apply wp_bind, wp_modify.
  eapply wp_mono; [apply persist_spec; [done|]|].
  - simpl. rewrite Hm1. by apply held_ok_delete, ledger_entries_ok.
  - simpl. rewrite Hm1. intros [[]|e] s2 (Hp2 & Hl2 & Hfile); [destruct Hfile as [Hok2 He2]|]; split_and!; try done.
    + right. exists l. split_and!; [done|done|]. congruence.
    + by rewrite Hfile, Hf1.
    + left. by rewrite Hfile, Hf1.
Qed.

Lemma held_spec c p now s : ls_path s = true → ledger_ok (ls_file s) → wp (refreshLeaseHeld c p now) (λ r s', ls_file s' = ls_file s ∧
  (r = Ok false → live (entries (ls_file s)) (refreshLeaseKey c p) now = None)) s.
Proof.
  intros Hp Hok. unfold refreshLeaseHeld. apply wp_bind, wp_try.
  eapply wp_mono; [by apply open_wp|]. intros [[]|e] s' Hop; simpl.
  - destruct Hop as (_ & Hf' & Hm). apply wp_bind, wp_get, wp_ret. split; [done|]. intros [= Hl]. unfold live. rewrite <-Hm.
    destruct (ls_leases s' !! _); [|done]. by rewrite Hl.
  - apply wp_ret. split; [apply Hop|done].
Qed.
End Calls.

(** * Several processes *)

(** What happened, newest first: a lease was acquired at an instant, a holder released. *)
Inductive lease_event := Acquired (l : RefreshLease) (at_ : Z) | Released (key holder : string).

Section Exclusive.
Context `{Unicode} `{LargeSort}.

(** A run of any number of processes on one ledger, whatever calls fail: each call starts from
    whatever its process has in memory.  The clock does not go back. *)
Inductive lease_run : list lease_event → Z → LeaseFile → Prop :=
| lr_start now : ZeroTime ≤ now → lease_run [] now NoLedger
| lr_acquire (W : LeaseWorld) tr t f st c p ttl now s r s' :
    lease_run tr t f → t ≤ now → ls_path s = true → ls_file s = f → AcquireRefreshLease st c p ttl now s = (r, s') →
    lease_run (match r with Ok (l, true) => Acquired l now :: tr | _ => tr end) now (ls_file s')
| lr_release (W : LeaseWorld) tr t f c p h s r s' :
    lease_run tr t f → ls_path s = true → ls_file s = f → ReleaseRefreshLease c p h s = (r, s') →
    lease_run (Released (refreshLeaseKey c p) h :: tr) t (ls_file s')
| lr_held (W : LeaseWorld) tr t f c p now s r s' :
    lease_run tr t f → t ≤ now → ls_path s = true → ls_file s = f → refreshLeaseHeld c p now s = (r, s') →
    lease_run tr now (ls_file s').

(** The holder of a lease has not given it back since. *)
Definition kept (l : RefreshLease) (since : list lease_event) : Prop := Released (lease_key l) (rl_Holder l) ∉ since.

(** Every lease that was handed out is in the ledger, unless it was given back or is over. *)
Lemma lease_run_inv tr t f : lease_run tr t f → ZeroTime ≤ t ∧ ledger_ok f ∧
  ∀ since l at_ before, tr = (since ++ Acquired l at_ :: before)%list → kept l since → entries f !! lease_key l = Some l ∨ rl_ExpiresAt l ≤ t.
Proof.
  induction 1 as [now Hn|W tr t f st c p ttl now s r s' _ (Hz & Hok & IH) Ht Hp <- Hrun|W tr t f c p h s r s' _ (Hz & Hok & IH) Hp <- Hrun
                 |W tr t f c p now s r s' _ (Hz & Hok & IH) Ht Hp <- Hrun].
  - split_and!; [done|by left|]. by intros [|? ?].
  - pose proof (acquire_spec st c p ttl now s Hp Hok ltac:(lia)) as Hs. unfold wp in Hs. rewrite Hrun in Hs. destruct Hs as (_ & Hok' & Hr).
    split_and!; [lia|done|]. intros since l at_ before Htr Hk.
    assert (Hold : ∀ since, tr = (since ++ Acquired l at_ :: before)%list → kept l since → entries (ls_file s) !! lease_key l = Some l ∨ rl_ExpiresAt l ≤ now).
    { intros since' E Hk'. destruct (IH _ _ _ _ E Hk'); [by left|right; lia]. }
    destruct r as [[l' []]|e]; [|destruct Hr as [_ ->]; by eapply Hold|rewrite Hr; by eapply Hold].
    destruct Hr as (Hfree & _ & Hkey & _ & ->). destruct since as [|ev since]; simplify_list_eq; [left; by rewrite lookup_insert_eq|].
    destruct (Hold since eq_refl) as [Hl|?]; [unfold kept in *; set_solver| |by right].
    destruct (decide (lease_key l' = lease_key l)) as [E|Hne]; [|left; by rewrite lookup_insert_ne].
    right. unfold live in Hfree. rewrite <-Hkey, E, Hl in Hfree. destruct (now <? rl_ExpiresAt l) eqn:El; [done|]. by apply Z.ltb_ge in El.
  - pose proof (release_spec c p h s Hp Hok) as Hs. unfold wp in Hs. rewrite Hrun in Hs. destruct Hs as (_ & Hok' & Hr).
    split_and!; [done|done|]. intros [|ev since] l at_ before Htr Hk; [done|]. simplify_list_eq.
    destruct (IH since l at_ before eq_refl) as [Hl|?]; [unfold kept in *; set_solver| |by right].
    destruct Hr as [->|(l' & Hl' & Hh & ->)]; [by left|]. left. destruct (decide (refreshLeaseKey c p = lease_key l)) as [E|Hne]; [|by rewrite lookup_delete_ne].
    exfalso. apply Hk. rewrite E, Hl in Hl'. simplify_eq. rewrite E. left.
  - pose proof (held_spec c p now s Hp Hok) as Hs. unfold wp in Hs. rewrite Hrun in Hs. destruct Hs as (-> & _).
    split_and!; [lia|done|]. intros since l at_ before Htr Hk. destruct (IH _ _ _ _ Htr Hk); [by left|right; lia].
Qed.

(** A lease that is kept keeps others out until it is over. *)
Lemma lease_run_excludes tr t f : lease_run tr t f → ∀ newer l2 n2 between l1 n1 older,
  tr = (newer ++ Acquired l2 n2 :: between ++ Acquired l1 n1 :: older)%list → lease_key l1 = lease_key l2 → kept l1 between → rl_ExpiresAt l1 ≤ n2.
Proof.
  induction 1 as [now Hn|W tr t f st c p ttl now s r s' Hprev IH Ht Hp <- Hrun|W tr t f c p h s r s' _ IH Hp <- Hrun|W tr t f c p now s r s' _ IH Ht Hp <- Hrun];
    intros newer l2 n2 between l1 n1 older Htr Hkey Hk.
  - by destruct newer.
  - destruct (lease_run_inv _ _ _ Hprev) as (Hz & Hok & Hin). pose proof (acquire_spec st c p ttl now s Hp Hok ltac:(lia)) as Hs.
    unfold wp in Hs. rewrite Hrun in Hs. destruct Hs as (_ & _ & Hr). destruct r as [[l []]|e]; [|by eapply IH|by eapply IH].
    destruct newer as [|ev newer]; simplify_list_eq; [|by eapply (IH newer)].
    destruct Hr as (Hfree & _ & Hl & _). destruct (Hin between l1 n1 older eq_refl Hk) as [He|?]; [|lia].
    unfold live in Hfree. rewrite <-Hl, <-Hkey, He in Hfree. destruct (n2 <? rl_ExpiresAt l1) eqn:El; [done|]. by apply Z.ltb_ge in El.
  - destruct newer as [|ev newer]; simplify_list_eq. by eapply (IH newer).
  - by eapply IH.
Qed.

(** No call of the ledger's own poisons it: an acquisition that meets no failure is answered. *)
Lemma acquire_progress (W : LeaseWorld) st c p ttl now s h : ls_path s = true → ledger_ok (ls_file s) → lw_lock_fails = false → lw_read_fails = false →
  lw_write_fails = false → lw_holder = Some h → ValidID c = true → p ≠ "" → 0 < ttl → year_ok (now + ttl) = true → st !! c = Some ActiveStatus →
  ∃ s', AcquireRefreshLease st c p ttl now s =
    (Ok match live (entries (ls_file s)) (refreshLeaseKey c p) now with Some l => (l, false) | None => (mkLease c p h (now + ttl), true) end, s').
Proof.
  intros Hp Hok F1 F2 F3 Hh Hc Hpr Httl Hy Hst.
  assert (Ho : wp (lockLeaseFile ;; loadLeasesLocked) (λ r s', r = Ok tt ∧ opened s s') s).
  { pose proof (open_wp s Hp Hok) as Ho. revert Ho. destruct s as [path loaded m file]. simpl in *. subst path.
    unfold wp, lockLeaseFile, loadLeasesLocked, mbind, M_bind, get, fail_if, mret, M_ret, modify, mthrow_err. rewrite F1, F2. simpl.
    destruct Hok as [->|(l & -> & Hl)]; simpl; [done|]. by rewrite load_rows_spec. }
  unfold AcquireRefreshLease, mbind at 1, M_bind at 1, fail_if at 1. rewrite Hc, (bool_decide_eq_false_2 (p = "")) by done.
  rewrite (proj2 (Z.leb_gt ttl 0)) by lia. simpl. revert Ho. unfold wp, mbind, M_bind.
  destruct (lockLeaseFile s) as [[[]|e] s1]; [|by intros [? _]]. destruct (loadLeasesLocked s1) as [[[]|e] s2]; [|by intros [? _]]. intros [_ (Hp2 & Hf2 & Hm2)].
  rewrite Hst. simpl. rewrite Hm2. fold (live (entries (ls_file s)) (refreshLeaseKey c p) now). destruct (live _ _ _) as [l|]; [eauto|]. rewrite Hh. simpl.
  destruct (persist_ok (set_leases (<[refreshLeaseKey c p := mkLease c p h (now + ttl)]> (ls_leases s2)) s2)) as [f Hf]; [done|done| |].
  - intros k l. simpl. rewrite Hm2, lookup_insert_Some. intros [[_ <-]|[_ Hl]]; [done|]. by apply (ledger_entry _ _ _ Hok) in Hl as [_ [_ ?]].
  - unfold try, modify. cbn beta iota. rewrite Hf. simpl. eauto.
Qed.
End Exclusive.

Section Leased.
Context `{ToolWorld} `{Unicode} `{LargeSort} `{SnapDigest}.

(** A lease is taken only for a connection that the registry has as active: its status mirror
    is the one of the connections. *)
Lemma acquire_active (W : LeaseWorld) reg c p ttl now s l s' : reg_reachable reg → ls_path s = true → ledger_ok (ls_file s) → ZeroTime ≤ now →
  AcquireRefreshLease (r_connStatus reg) c p ttl now s = (Ok (l, true), s') → ∃ conn, r_connections reg !! c = Some conn ∧ c_Status conn = ActiveStatus.
Proof.
  intros Hi%reg_reachable_inv Hp Hok Hn Hrun. pose proof (acquire_spec (r_connStatus reg) c p ttl now s Hp Hok Hn) as Hs.
  unfold wp in Hs. rewrite Hrun in Hs. destruct Hs as (_ & _ & _ & Hst & _). rewrite (ri_mirror _ Hi I), lookup_fmap in Hst.
  destruct (r_connections reg !! c) as [conn|]; [|done]. simpl in Hst. simplify_eq. eauto.
Qed.

End Leased.
