(* ===== verification/RegWitness.v ===== *)
(** A concrete registry file that meets the hypotheses of the theorems about capability
    policies and the tool registry, and what the operations do to it. *)
From stdpp Require Import base gmap strings list sorting.
From Stdlib Require Import Ascii String.
From S2P Require Import Prelude GoStrings Governance GovernanceProps RoutineTypes Schedules ToolTypes Capability CapabilityProps RegStore RegOps RegLoad RegAccess RegInv RegKeeps RegSystem RegProps RegManaged RegLease.
Local Open Scope string_scope.
Local Open Scope Z_scope.

Module RegExample.
#[export] Instance unicode : Unicode := ascii_unicode.
#[export] Instance large_sort : LargeSort := {| pdqsort := λ A cmp l, l; pdqsort_perm := λ A cmp l, reflexivity l |}.

Definition digest : string := "sha256:0123456789abcdef0123456789abcdef0123456789abcdef0123456789abcdef".
Definition stamp_of (c : CapabilityChange) : string :=
  match c with ChPolicy p => po_PolicyID p | ChProfile p => pf_ProfileID p | ChGrant g => g_GrantID g end.
#[export] Instance tool_world : ToolWorld :=
  {| t_sha256_hex := str_map (λ c, if id_char c then c else "-"%char); record_digest := stamp_of; definition_digest := λ _, digest;
     definition_check := λ _, None; endpoint_check := λ _, None; prefix_parses := λ _, false; resolution_digest := λ r, Some r |}.
#[export] Instance snap_world : SnapDigest := {| snap_digest := λ d, String.concat "," (map c_Status (sn_Connections d)) |}.
#[export] Instance reg_world : RegWorld :=
  {| rw_now := 0; rw_range := λ A _ m, map_to_list m; rw_range_perm := λ A _ m, reflexivity _;
     rw_scan := λ A _ m, map_to_list m; rw_scan_perm := λ A _ m, reflexivity _; rw_stopper := Some (λ _, false);
     rw_broker := Some (λ _, false); rw_lock_fails := false; rw_read_fails := false; rw_write_fails := false; rw_stamp := (2, 20);
     rw_onchange := λ _, false |}.

(** One tool that reads files under a path of its caller's tree. *)
Definition read_tool : ToolSpec := mkTool "read" "Reads a file." "read" "files.read" [mkUse "read" "files" "path"] ∅ "".
Definition files : ToolDefinition :=
  mkDefinition "files" "1.0.0" PerUser "connection" [read_tool] ∅ [] [] [] [] "" 0 ∅ 65536 60 "".

Definition connection : Connection :=
  mkConnection SchemaVersion "conn" (mkOwner PrincipalOwner "alice") "files" "" 1 ActiveStatus "" ZeroTime "" no_retry no_retry no_retry no_retry ZeroTime 0 false ∅.
Definition binding : ToolBinding :=
  mkBinding SchemaVersion "bind" "alice" "home" "cell" "files" "1.0.0" "conn" 1 "" 0 "v1" PerUser ActiveStatus 1 1 "" [].
Definition workload : WorkloadInstance :=
  mkWorkload SchemaVersion "work" "bind" "files" "1.0.0" PerUser (Some (mkOwner ContextOwner "home")) "cell" "" 1 RunningStatus 0 ZeroTime.
Definition broker_grant : BrokerBindingGrant := mkBrokerGrant "bind" "conn" "cred" "home" "grant" "v1".

(** A policy that admits reads under [docs], except under [docs/private]. *)
Definition rule (prefix : string) (limits : CapabilityLimits) : CapabilityRule := mkCapRule "files.read" digest "read" "files" "conn" prefix limits ZeroTime.
Definition issued (id : string) : option Confirmation := Some (mkConfirmation id "operator" 1).
Definition policy : CapabilityPolicy :=
  mkPolicy SchemaVersion "policy" "" ["alice"] 1 "operator" 1 "reading" ActiveStatus [rule "" (mkCapLimits 4096 30)] [rule "docs" (mkCapLimits 1024 10)] []
    [rule "docs/private" (mkCapLimits 0 0)] (issued "policy").
Definition selection : CapabilitySelection := mkSelection "files.read" "files" "1.0.0" digest "read" "read-docs" "conn".
Definition profile : CapabilityProfile :=
  mkProfile SchemaVersion "profile" "alice" "home" "cell" "prod" 7 "v1" "policy" 1 1 "operator" 1 "reading" ActiveStatus [selection] [] [] [] [] false ""
    (issued "profile").

Definition file : option (Snap * (Z * Z)) :=
  Some (mkSnap SchemaVersion [files] [connection] [] [binding] [workload] ∅ [] [] [] ∅ [] [] [] [broker_grant] [ChPolicy policy; ChProfile profile] [], (1, 10)).
Definition loaded : Reg := match Load file with Ok s => s | Err _ => NewStore end.

Definition alice : Envelope := mkEnvelope 1 "alice" "ext" "home" "cell" "conv" "target" "v1" "" "" "" 0 [].
Definition managed_alice : Envelope := mkEnvelope 1 "alice" "ext" "home" "cell" "conv" "target" "v1" "" "profile" "prod" 7 [].
Definition reading (path : string) : gmap string ArgValue := {["path" := ArgString path]}.
Definition noon (i j : nat) : Z := 100.
End RegExample.
Import RegExample.

Example loads_file : match Load file with Ok s => bool_decide (r_bindings s !! "bind" = Some binding) | Err _ => false end = true.
Proof. vm_compute. reflexivity. Qed.

Lemma file_unsigned : unsigned file.
Proof. intros d st [= <- _] k v Hk. simpl in Hk. by rewrite lookup_empty in Hk. Qed.
Lemma file_loads : Load file = Ok loaded.
Proof. unfold loaded. destruct (Load file) eqn:E; [done|]. exfalso. vm_compute in E. discriminate E. Qed.

Lemma loaded_started : reg_start loaded.
Proof. exact (start_load reg_world file _ file_unsigned file_loads). Qed.
Lemma loaded_reachable : reg_reachable loaded.
Proof. exists loaded. split; [apply loaded_started|reflexivity]. Qed.
Lemma loaded_reachable_late : reg_reachable_late loaded.
Proof. exists loaded. split; [apply loaded_started|reflexivity]. Qed.

Lemma loaded_roomy_2 : roomy 2 loaded.
Proof.
  assert (Hs : size (r_bindings loaded) = 1%nat) by (vm_compute; reflexivity).
  assert (Hm : map_Forall (λ _ v, v ≤ 1) (r_projections loaded)) by (apply (bool_decide_unpack (map_Forall (λ _ v, v ≤ 1) (r_projections loaded))); vm_compute; exact I).
  intros k. rewrite Hs. unfold revision_of. destruct (r_projections loaded !! k) as [v|] eqn:E; [|by vm_compute].
  apply Hm in E. simpl. assert (6 ≤ 2 ^ 64) by (vm_compute; discriminate). lia.
Qed.
Lemma loaded_roomy : roomy 1 loaded.
Proof. exact (roomy_le 2 1 loaded ltac:(lia) loaded_roomy_2). Qed.

Lemma capability_call_confined_witness :
  CapabilityDecision profile policy selection (reading "docs/a.txt") false noon read_tool = Some (mkCapLimits 1024 10, [mkScope "files" "path" "docs"]) ∧
  ".." ∉ split_on "/" (named_path "docs/a.txt").
Proof.
  assert (Hd : CapabilityDecision profile policy selection (reading "docs/a.txt") false noon read_tool =
               Some (mkCapLimits 1024 10, [mkScope "files" "path" "docs"])) by (vm_compute; reflexivity).
  split; [exact Hd|]. destruct (capability_call_confined _ _ _ _ _ _ _ _ Hd) as (_ & _ & _ & Hu).
  destruct (Hu 0%nat (mkUse "read" "files" "path") eq_refl) as (values & Hv & _ & Hall). vm_compute in Hv. injection Hv as <-.
  by destruct (Hall 0%nat "docs/a.txt" eq_refl) as (Hn & _).
Defined.

(** What the denials and the boundary keep out. *)
Example read_refused : map (λ p, CapabilityDecision profile policy selection (reading p) false noon read_tool)
  ["docs/private/key"; "docs/../etc"; "/docs/a"; "other/a"; "docsx"; "docs/private"] = [None; None; None; None; None; None].
Proof. vm_compute. reflexivity. Qed.

Lemma registry_invariant_witness : reg_reachable loaded ∧ keyed b_ToolBindingID (r_bindings loaded) ∧ r_connStatus loaded !! "conn" = Some ActiveStatus.
Proof.
  pose proof loaded_reachable as Hr. split; [exact Hr|]. destruct (registry_invariant loaded) as [Htab Hm].
  destruct (Htab loaded_reachable_late) as (_ & _ & _ & Hb & _). split; [exact Hb|].
  rewrite (Hm Hr). vm_compute. reflexivity.
Defined.

(** ** A revocation that a reload undoes in the mirror *)

Definition revoked : Reg := (SetConnectionStatus "conn" RevokedStatus loaded).2.
(** A reload that read the file before the revocation replaces the mirror after it. *)
Definition overtaken : Reg := set_r_connStatus (r_connStatus loaded) revoked.

Lemma Ok_inj {E A} (a b : A) : (Ok a : res E A) = Ok b → a = b.
Proof. by intros [= ->]. Qed.

Lemma loaded_room : room loaded.
Proof.
  split; [exact loaded_roomy_2|]. intros fresh Hf. assert (Hd : r_disk loaded = file) by (vm_compute; reflexivity).
  rewrite Hd, file_loads in Hf. apply Ok_inj in Hf. rewrite <-Hf. exact loaded_roomy_2.
Qed.

Example reload_loses_revocation :
  reg_reachable_late overtaken ∧ c_Status <$> r_connections overtaken !! "conn" = Some RevokedStatus ∧
  r_connStatus overtaken !! "conn" = Some ActiveStatus.
Proof.
  split; [|split; vm_compute; reflexivity]. exists loaded. split; [apply loaded_started|].
  eapply rtc_l; [apply rl_step, (rs_op loaded reg_world _ _ loaded_room (op_SetConnectionStatus loaded "conn" RevokedStatus))|].
  apply rtc_once. exact (rl_mirror revoked reg_world file loaded file_unsigned file_loads).
Qed.

Lemma resolve_sound_witness : ∃ e, resolveLocked loaded alice "bind" = Ok e ∧ ef_Binding e = binding.
Proof.
  destruct (resolveLocked loaded alice "bind") as [e|e] eqn:E; [|exfalso; vm_compute in E; discriminate E].
  exists e. split; [done|]. destruct (resolve_sound loaded alice "bind" e E) as (b & d & Hb & -> & _).
  assert (H : r_bindings loaded !! "bind" = Some binding) by (vm_compute; reflexivity). congruence.
Defined.

Lemma connection_cut_off_witness : ∃ s', SetConnectionStatus "conn" RevokedStatus loaded = (Ok tt, s') ∧ out_of_service s' "conn" ∧ broker_grant ∈ r_revokes s'.
Proof.
  destruct (SetConnectionStatus "conn" RevokedStatus loaded) as [r s'] eqn:E.
  assert (r = Ok tt) as -> by (apply (f_equal fst) in E; vm_compute in E; by symmetry).
  exists s'. split; [done|].
  destruct (connection_cut_off loaded "conn" connection RevokedStatus (Ok tt) s') as (Hout & _ & _ & _ & _ & Hok);
    [apply loaded_reachable|apply loaded_roomy|done|vm_compute; reflexivity|by right; left|exact E|].
  split; [exact Hout|]. destruct (Hok eq_refl) as [Hrev _]. apply (Hrev ltac:(discriminate) "bind"); [vm_compute; reflexivity|reflexivity].
Defined.

Lemma managed_call_admitted_witness : ∃ t e s',
  AuthorizeProjectedCall noon managed_alice "read-docs" (reading "docs/a.txt") loaded = (Ok (t, e), s') ∧ ReverifyEffective s' e = true.
Proof.
  destruct (AuthorizeProjectedCall noon managed_alice "read-docs" (reading "docs/a.txt") loaded) as [[[t e]|err] s'] eqn:E;
    [|exfalso; apply (f_equal fst) in E; vm_compute in E; discriminate E].
  exists t, e, s'. split; [reflexivity|].
  by destruct (managed_call_admitted noon managed_alice "read-docs" (reading "docs/a.txt") t e loaded s') as (_ & Hv & _);
    [apply loaded_reachable_late|done|exact E|].
Defined.

(** A first process holds a lease; a second one joins it, and takes over when it is over. *)
Module LeaseExample.
#[export] Instance lease_world : LeaseWorld.
Proof.
  refine {| lw_lock_fails := false; lw_read_fails := false; lw_write_fails := false; lw_holder := Some "0a0b"; lw_range := λ m, map_to_list m |}.
  - by intros h [= <-].
  - done.
Defined.
Definition fresh (f : LeaseFile) : Leases := mkLeases true false ∅ f.
Definition take_lease (now : Z) (f : LeaseFile) : res TErr (RefreshLease * bool) * Leases :=
  AcquireRefreshLease (r_connStatus loaded) "conn" "google" 30 now (fresh f).
Definition first : RefreshLease := mkLease "conn" "google" "0a0b" 130.
Definition second : RefreshLease := mkLease "conn" "google" "0a0b" 170.
End LeaseExample.
Import LeaseExample.

Example lease_story : (take_lease 100 NoLedger).1 = Ok (first, true) ∧ (take_lease 110 (Ledger [first])).1 = Ok (first, false) ∧
  (take_lease 140 (Ledger [first])).1 = Ok (second, true).
Proof. split_and!; vm_compute; reflexivity. Qed.


(** * Behaviour that departs from the comments in the code *)

Module RegDivergence.
(** A connection of a team, used by its member. *)
Definition squad : Team := mkTeam SchemaVersion "squad" ["alice"] [] false 1 "operator" 1 ActiveStatus (issued "squad").
Definition team_connection : Connection :=
  mkConnection SchemaVersion "conn" (mkOwner TeamOwner "squad") "files" "" 1 ActiveStatus "" ZeroTime "" no_retry no_retry no_retry no_retry ZeroTime 0 false ∅.
Definition team_file : option (Snap * (Z * Z)) :=
  Some (mkSnap SchemaVersion [files] [team_connection] [] [binding] [workload] ∅ [] [] [] ∅ [] [] [squad] [broker_grant] [] [], (1, 10)).
Definition team_loaded : Reg := match Load team_file with Ok s => s | Err _ => NewStore end.

(** A registry whose surface drifted, with an operation that another process journals. *)
Definition drifted : Connection :=
  set_c_Status DegradedStatus (set_c_Revision 1 (set_c_Metadata {[LabelAcceptSurface := digest]} connection)).
Definition drifted_file : option (Snap * (Z * Z)) :=
  Some (mkSnap SchemaVersion [files] [drifted] [] [binding] [] ∅ [] [] [] ∅ [] [] [] [] [] [], (1, 10)).
Definition drifted_loaded : Reg := match Load drifted_file with Ok s => s | Err _ => NewStore end.

Definition operation : Operation := mkOperation 1 "op" "install" "files" "alice" "home" "cell" "v1" "key" "queued" [] "" "" "" 1 1.
Definition journalled_file : option (Snap * (Z * Z)) :=
  Some (mkSnap SchemaVersion [files] [set_c_Status DisabledStatus connection] [] [binding] [workload] ∅ [] [] [operation] ∅ [] [] [] [broker_grant]
          [ChPolicy policy; ChProfile profile] [], (3, 30)).
End RegDivergence.
Import RegDivergence.

(** Dropping a team's connection saves a file that no longer loads: the member's workload row
    outlives its binding. *)
Example drop_leaves_unloadable :
  (DropTeamConnection "conn" team_loaded).1 = Ok tt ∧ match Load (r_disk (DropTeamConnection "conn" team_loaded).2) with Ok _ => False | Err e => e = TInvalid end.
Proof. split; vm_compute; reflexivity. Qed.

(** A revoked connection comes back through [disabled]. *)
Example revoked_returns :
  let s1 := (SetConnectionStatus "conn" RevokedStatus loaded).2 in
  let s2 := (SetConnectionStatus "conn" DisabledStatus s1).2 in
  (SetConnectionStatus "conn" ActiveStatus s1).1 = Err TRevoked ∧
  c_Status <$> r_connections (SetConnectionStatus "conn" ActiveStatus s2).2 !! "conn" = Some ActiveStatus.
Proof. split; vm_compute; reflexivity. Qed.

(** After its drift is accepted the connection is active, but its binding stays stale. *)
Example accepted_stays_stale :
  let s := (AcceptConnectionDrift "conn" drifted_loaded).2 in
  c_Status <$> r_connections s !! "conn" = Some ActiveStatus ∧ resolveLocked s alice "bind" = Err TStale.
Proof. split; vm_compute; reflexivity. Qed.

(** A reload takes over the digest of the new file but not its operations, so that the next
    save removes the operation another process wrote. *)
Example reload_loses_operation :
  let s := (Reload (set_r_disk journalled_file loaded)).2 in
  (persist s).1 = Ok tt ∧ match r_disk (persist s).2 with Some (d, _) => sn_Operations d = [] ∧ c_Status <$> head (sn_Connections d) = Some DisabledStatus | None => False end.
Proof. split; [vm_compute; reflexivity|vm_compute]. split; reflexivity. Qed.

(** * Previews *)

Module PreviewExample.
Definition next_profile (status : string) (selection : CapabilitySelection) : CapabilityProfile :=
  mkProfile SchemaVersion "profile" "alice" "home" "cell" "prod" 7 "v1" "policy" 1 2 "operator" 1 "reading" status [selection] [] [] [] [] false ""
    (issued "profile").
Definition always (k : nat) : nat → nat → Z := noon.

(** A registry with a second version of the tool, bound as well. *)
Definition files2 : ToolDefinition := mkDefinition "files" "2.0.0" PerUser "connection" [read_tool] ∅ [] [] [] [] "" 0 ∅ 65536 60 "".
Definition binding2 : ToolBinding :=
  mkBinding SchemaVersion "bind2" "alice" "home" "cell" "files" "2.0.0" "conn" 1 "" 0 "v1" PerUser ActiveStatus 1 1 "" [].
Definition selection2 : CapabilitySelection := mkSelection "files.read" "files" "2.0.0" digest "read" "read-docs" "conn".
Definition upgraded : Reg := set_r_bindings (<["bind2" := binding2]> (r_bindings loaded)) (set_r_definitions (<[definitionKey "files" "2.0.0" := files2]> (r_definitions loaded)) loaded).
End PreviewExample.
Import PreviewExample.

(** A draft that is disabled is shown as admitted, and admits nothing once it is published. *)
Example preview_ignores_status :
  match PreviewCapabilityProfile always always loaded (next_profile DisabledStatus selection) with
  | Ok pv => map pe_Admitted (pv_Candidate pv) = [true] ∧ pv_Removed pv = []
  | Err _ => False
  end ∧
  (PutCapabilityProfile (next_profile DisabledStatus selection) loaded).1 = Ok tt ∧
  managedToolsLocked always (PutCapabilityProfile (next_profile DisabledStatus selection) loaded).2 managed_alice = Err TUnauthorized.
Proof. split_and!; vm_compute; try split; reflexivity. Qed.

(** Pointing a name at another version of the definition is not shown as a change. *)
Example preview_misses_version :
  match PreviewCapabilityProfile always always upgraded (next_profile ActiveStatus selection2) with
  | Ok pv => pv_Added pv = [] ∧ pv_Removed pv = [] ∧ pv_Changed pv = []
  | Err _ => False
  end.
Proof. vm_compute. split_and!; reflexivity. Qed.
